(* ===== verification/_CoqProject ===== *)
-Q . S2P
Prelude.v
Limits.v
Paths.v
JsMap.v
State.v
Lookup.v
Plan.v
Reduce.v
Repack.v
Tree.v
Alloc.v
Accounting.v
Walks.v
Invariant.v
Creates.v
Removes.v
Renames.v
ApplyTxn.v
Validate.v
Validity.v
Checksum.v
Utf8.v
Bytes.v
CodecLaws.v
TxnCodec.v
FrameLaws.v
Frames.v
Slots.v
BaseCodec.v
Port.v
MetadataStore.v
PortLaws.v
MemoryPort.v
MemoryPortLaws.v
Transfers.v
Recovery.v
VfsCore.v
VfsArena.v
VfsOps.v
Coalesce.v
Triples.v
DurablePort.v
CommitLaws.v
CommitProps.v
FailStop.v
ArenaLaws.v
ArenaProps.v
RepackProps.v
Reorder.v
BaseLaws.v
BaseProps.v
Reopen.v
ReopenProps.v
MountedVfs.v
MountedLaws.v
StoreFs.v
MountedProps.v
WireBuffers.v
WireParser.v
WireLaws.v
Tar.v
WireProps.v
WireSerializer.v
WireSerialProps.v
SyncFold.v
SyncApply.v
SyncViews.v
SyncApplyLaws.v
StreamKeys.v
StreamInbox.v
SyncEngine.v
SyncEngineLaws.v
SyncExamples.v
SyncProps.v
LiveDiff.v
CopyText.v
ShapeCompile.v
ShapeControl.v
StreamReader.v
SessionClient.v
