(* ===== verification/Prelude.v ===== *)
(** * pgxsinkit, verified

    This library models five parts of pgxsinkit, a PostgreSQL that runs in the browser. The storage engine is the
    transactional filesystem that keeps the data directory in four files of the browser's private file system;
    its sources are the modules of [packages/pgwasm/src/opfs/core/], and all of them are modelled. The wire
    protocol is the PostgreSQL frontend and backend protocol the client speaks to the database process; its
    sources are the modules of [packages/pgwasm/src/protocol/wire/], and all of them are modelled. The sync engine
    of the client applies the change streams of a server to the local database; its sources are in
    [packages/client/src/circuits/] and [packages/client/src/sync/], and the path of a change from the stream to
    the committed row is modelled, with the reader of the streams, the session that holds their token and the worker's
    diff of live results beside it. The read path of the server
    decides which streams a session may follow; its sources are [packages/server/src/circuits/] and
    [packages/contracts/src/predicate.ts], and all of them are modelled. The archive codec of the backups is
    [packages/pgwasm/src/tar/tar.ts], and all of it is modelled.

    ** The program

    A store owns four files. [arena.bin] holds file data in extents of a fixed size. [metadata-a.bin] and
    [metadata-b.bin] each hold a canonical base, a full encoding of the inode tree and the allocator,
    followed by a log of transaction frames. [activation.bin] has two checksummed slots; the valid one with
    the higher sequence number says which metadata file is active. An operation plans a transaction record,
    appends its frame to the active log and applies it to the state in memory; a repack writes the state as
    the base of the other metadata file and activates it. Opening a store selects a slot, decodes its base and
    replays the log.

    The parts call each other in this order: the public operations ([repacked-vfs.ts]) plan records against
    the state ([state-machine.ts]), encode frames, bases and slots ([codec.ts], [checksum.ts]), and move bytes
    through the port ([port.ts]); [metadata-store.ts] opens and recovers a store over the same port;
    [memory-port.ts] is the port of the tests, with injected faults and simulated termination.
    [mounted-vfs.ts] composes stores: it routes each path to the root store or to the store mounted at or above
    it, and resolves links that cross from one to another.

    The client builds its messages with [serializer.ts], over the growing writers of [buffer-writer.ts] that the
    module shares between calls, and parses what the database answers with the [Parser] of [parser.ts], which
    buffers the bytes of an incomplete message and reads message bodies through [buffer-reader.ts].

    The client subscribes to shapes and holds the token of their streams ([subscription-client.ts]); a reader per stream
    ([stream-source.ts] over the requests of [long-poll.ts]) catches up and then follows the tail, one response ahead
    of the batch that is being applied.

    A group of shapes reads one stream each. A delivery names its shape, envelopes, offset and whether the shape is up
    to date; the group ([shape-group.ts]) hands the deliveries to the engine ([sync-engine.ts]) one after another.
    The engine translates the envelopes ([envelope-to-change.ts]), holds the changes in the inbox
    ([stream-inbox.ts]), and when every shape is up to date, and the first time the engine barrier is clean, applies
    everything held and the new offsets in one transaction: a shape's rows are cleared where it re-snapshots, an
    empty table is loaded in bulk, the rest is folded to one operation per key ([fold.ts]), and the appliers
    ([apply.ts]) send deletions before upserts. A table that is loaded by COPY is sent as text ([copy.ts]). What a live
    query returns is diffed in the worker and folded into the rows the tab holds ([live-diff.ts]).

    A session asks the server for shapes by their keys. The control plane ([subscribe.ts]) expands a shared shape to
    the scopes the entitlement set lists for the subject, compiles each to a request of the sync engine
    ([compile.ts], over the predicates of [predicate.ts]), takes a claim for it under a name of its own
    ([engine-client.ts]) and mints one signed token for all grants ([stream-token.ts]). Refreshing the token authorizes
    and renews every grant again; releasing it gives the claims back. The edge ([edge.ts]) lets a read through to the
    streams by the token alone, asks the entitlement set again for shared grants, and rewrites the rows of shapes that
    declare a transform.

    ** The model

    A function that can throw returns [result error A], a function that mutates runs in the state and error
    monad [M S A] of this file, and an asynchronous function of the store runs in the same monad, since each
    of its promises is awaited before the next one is made. The state at a throw is kept: what was already
    written stays written. A [bigint] and an integral [number] are both [Z], with the range checks of the code
    ([checkedU64], [isSafeInteger], ...) written out; the 32-bit operators of the checksum wrap as the
    language's do. A string is the list of its UTF-16 code units, a byte buffer a list of [Z]. A [Map] is a
    [gmap] where its order is not observed and an association list in insertion order ([JsMap]) where it is.
    Objects shared by reference are represented by their keys: an inode is reached through [inodes], an orphan
    through the descriptor table.

    ** Files

    - [Prelude]: results, the monad, iteration and the tactics and hints the other files share.
    - [Limits]: [errors.ts] and [limits.ts]: the error classes, the limits, checked integers.
    - [Paths]: [path.ts], and the platform's UTF-8 encoder and fatal decoder.
    - [JsMap]: insertion-ordered maps, and the class [IndexedExtentSet] with its representation invariant.
    - [State], [Lookup], [Plan], [Reduce], [Repack]: [state-machine.ts]: the state and its lookups, path
      resolution and size accounting, [preflightTxn] and the planners, [applyTxn] with one reducer per record,
      [validateState] and the repack projection.
    - [Tree], [Alloc], [Accounting], [Walks], [Invariant]: the declarative invariant [Inv] of a
      state and how the elementary edits of tree, allocator and running size preserve it.
    - [Creates], [Removes], [Renames], [ApplyTxn]: every reducer preserves [Inv]; [applyTxn] is atomic.
    - [Validate], [Validity]: [validateState] decides [Inv].
    - [Checksum]: [checksum.ts], and its agreement with the bit-by-bit CRC-32.
    - [Utf8]: the two directions of UTF-8, and [utf8Length].
    - [Bytes], [CodecLaws]: the binary writer and reader of [codec.ts], how their programs pair up, and fixed
      layouts sealed by a checksum.
    - [TxnCodec], [FrameLaws], [Frames]: transaction records and frames, their round trip and what corruption
      does to them.
    - [Slots]: arena header and activation slots. [BaseCodec]: the metadata base.
    - [Port], [PortLaws]: [port.ts]: the port as a class, its laws as the class [LawfulPort], exact transfers.
    - [MetadataStore]: [metadata-store.ts]: acquisition, bootstrap, selection, recovery and replay.
    - [MemoryPort], [MemoryPortLaws], [Transfers]: [memory-port.ts], its invariant, and the
      instance of [LawfulPort].
    - [Recovery]: replay of a log that was cut short; what flushes and terminations leave.
    - [VfsCore], [VfsArena], [VfsOps]: [repacked-vfs.ts]: commit protocol, synchronisation, repack and closing;
      transfers, allocation and the searches for an admissible write; paths, descriptors and whole files.
    - [Coalesce]: two deferred resizes and the one they are merged into.
    - [Triples]: weakest preconditions for the monad.
    - [DurablePort]: ports whose flushes survive a crash, as the class [DurablePort], and the in-memory instance.
    - [CommitLaws], [CommitProps]: the live store and its log under commits and synchronisation.
    - [FailStop]: failed and closed stores.
    - [ArenaLaws], [ArenaProps]: file data in the arena.
    - [RepackProps]: the repack.
    - [Reorder]: states up to the order of their free extents and the retained generations, which no transaction sees.
    - [BaseLaws], [BaseProps]: the metadata base: its round trip up to these.
    - [Reopen], [ReopenProps]: opening a store again, after a crash too.
    - [MountedVfs]: [mounted-vfs.ts] over the class [FileSystem] of the operations of a store, and the repacked store as
      an instance. [MountedLaws]: canonical paths; the class [LawfulFileSystem] of what the composite relies on; routing and walking.
      [StoreFs]: the repacked store satisfies it. [MountedProps]: the composite's theorems.
    - [WireBuffers]: [buffer-reader.ts], [buffer-writer.ts], [string-utils.ts], and the platform's replacing decoder.
    - [WireParser]: [messages.ts] and [parser.ts]. [WireLaws]: reading what was written, and the formats of the
      server's messages as the relation [Format]. [WireProps]: the merge
      buffer as pending bytes; delivery, errors and termination of the parser.
    - [WireSerializer]: [serializer.ts]. [WireSerialProps]: the writer builds the bytes it is told, and
      each builder the message the protocol defines.
    - [Tar]: [tar.ts]: the archive written in place at its offsets, the header as its fields, and the reader's passes.
    - [SyncFold]: [fold.ts] and the changes of [stream-envelope.ts]. [SyncApply]: [apply.ts] over the record
      [Statements] of what a transaction may send, with the class [LawfulStatements] of what SQL makes of it.
    - [StreamKeys]: [envelope-to-change.ts], its keys and columns. [StreamInbox]: [stream-inbox.ts]. [SyncEngine]: [sync-engine.ts], with
      [shape-group.ts] as the serialised steps and the subscription state it persists.
    - [SyncViews]: a table as a function of primary keys, and folding over it. [SyncApplyLaws]: what the appliers do to
      a table, and the size of statements. [SyncEngineLaws]: what the backfill and a transaction do to a table; the
      invariant of the engine. [SyncProps]: its theorems.
    - [CopyText]: [copy.ts], and the reader of the text format.
    - [LiveDiff]: [live-diff.ts]: the worker's diff and the tab's rows, with the identity of row objects.
    - [ShapeCompile]: [predicate.ts], [compile.ts] and the parts of [config.ts] and [registry.ts] it reads; the meaning
      of predicates with SQL's three values; the canonical text of a request is read back.
    - [ShapeControl]: [stream-token.ts] with base64, [subscribe.ts], [engine-client.ts] and [edge.ts]; the laws of tokens,
      of the loops of the control plane and of the engine's ledger of claims.
    - [StreamReader]: [long-poll.ts], [stream-source.ts] and [retry-after.ts]: a read request and the session of a reader, as a
      state machine whose steps are the code between two awaits. [SessionClient]: [subscription-client.ts], likewise.
    - [SyncExamples]: lawful statements over finite maps, and the groups the theorems are
      instantiated at; they model no code.

    ** What the theorems show

    - State: every transaction preserves [Inv] and is atomic, [validateState] decides [Inv], a repack projects
      every valid state and frees exactly what nothing refers to.
    - Encodings: frames, slots, headers and bases round trip, a base up to the order of free extents and the retained
      generations; a changed or missing byte is detected; a slot that is half written, unless its checksum happens to
      fit, never changes which slot is selected; the checksum is CRC-32; [utf8Length] is the length of
      the encoding.
    - Transfers: exact reads and writes over handles that make partial progress return exactly the bytes asked
      for or an error; the arena is an array of bytes per file, files do not see each other's bytes, and new
      extents are clear.
    - Durability: replay of a log that a crash cut anywhere gives the state before or after the transaction
      that was being written, commits keep log and live state in step, [strictSync] makes the live state
      survive any crash, a failed commit is recoverable to the live state, to the state before the record, or to the
      state before a resize that was still deferred, coalescing is transparent, a repack activates a
      settled base or nothing, and after an interrupted activation recovery selects the old record or the new one,
      opening the store after a crash gives a live store on the acknowledged state, and a
      store that failed or closed touches nothing any more.
    - Mounts: the mounts partition the paths; the namespace of the composite is defined over the stores' entries alone,
      as the entries a path passes and the links it follows across stores; a path operation is the operation of the one
      store that serves the path it leads to there, and leaves the other stores alone; closing closes every store.
    - Wire protocol: whatever the server sends, in whatever chunks, is received message by message; parsing ends on any
      bytes; a message that does not parse drops what is buffered; every request is framed as the protocol says,
      and a bind whose value mapper throws spoils the next request.
    - Archives: what is written is read back as it is stored, an archive is read whole or refused, and a cut anywhere is
      noticed; of the records of a PAX header the last path and the last size count, and a size that is no decimal
      number up to [Number.MAX_SAFE_INTEGER] refuses the header; an absolute name of 100 bytes loses its slash.
    - Sync engine: in every run, with any failures, retries and teardown, a table holds exactly the changes of a prefix
      of its shape's stream and the persisted offset names its end; up to date means all of it; folding and bulk
      statements agree with applying the changes in order; nothing is committed before alignment or after
      degradation; keys decode to exactly what was encoded; statements keep their limits; a second COPY over a first
      commit of one row degrades the group.
    - COPY: reading the body gives the text of every value, except that a last row of one empty text is lost.
    - Live results: folding the diffs gives the worker's result in its order and keeps the objects of unchanged rows.
    - Shapes: a compiled request is true on exactly the rows of the scope or the caller's filter; its fingerprint tells
      requests apart; a narrowed local key stays unique, unless the predicate has a conjunct that asks a dropped column
      not to be null; different scopes do not overlap.
    - Control plane: a subscription grants and a refresh keeps exactly what is authorized, an outage revokes nothing,
      what a session took its release gives back, and the barrier never serves a degraded reading from its cache.
    - Edge: an allowed read carries a grant that was issued to that subject for that path, and rows of shapes with a
      transform leave rewritten and uncached.
    - Reader: the batches are the stream from where the read started, without gap or repetition, whatever is retried or
      refused; a read ends once, and a catch-up read hands over every batch up to the tail and ends; refused tokens do not loop and backoffs are bounded. A
      session has one re-mint in flight, loses its token only to an answer, and releases what the subscription took.
    - Port: the in-memory port accounts for all unflushed effects; a flush is durable; a termination leaves a
      chosen part of the rest.

    ** Hypotheses

    The theorems about the live store hold over any port that satisfies [LawfulPort] and [DurablePort]: reads
    and writes report how far they got and do nothing else, a flush settles a file, a crash keeps what is
    settled. The in-memory port is proved to be one. The clocks are parameters; where a theorem needs it they
    return and leave the port alone ([is_clock]). [Array.prototype.sort] over the directory entries of the
    in-memory port is a parameter.

    The composite of stores is proved over any [LawfulFileSystem], which the repacked store is proved to be, and for path
    operations where no link of the root store lies above a mount, since the fast path of the resolution asks the
    store of a path before it walks. The
    callback of the parser and the value mapper of a bind are parameters that may throw.

    The theorems about the sync engine hold over any database and any [LawfulStatements], a record per attempt of a
    transaction, so that statements may fail in one attempt and succeed in the next; the statements over finite maps
    are proved lawful. Cells are of an abstract type, equal where the database compares them equal. The theorems
    ask that the offsets of a stream do not fall, and that a batch that repeats its shape's offset, as a long poll that
    timed out delivers, brings no changes; that a stream key and a primary key name the same row, that table keys
    name different tables, and that a custom clear keeps to its table; they are about shapes that are alone on their
    table. A transaction that throws leaves the database as it was.

    The compiler's theorems hold for any comparison of a cell with a value and any answer of a subquery. SHA-256, the
    signature, the text of claims and of numbers and the supply of identifiers are parameters: claims are read back
    from their text ([LawfulClaims]), signatures verify ([LawfulSignatures]), at the edge nobody else can sign, digits
    of different numbers differ ([LawfulNumberText]), and the engine keeps its claims in a ledger ([LawfulEngine]).

    ** Fuel

    Loops that are not structural take fuel, and [FuelExhausted] is an error no source function throws ([OutOfFuel] in
    the wire protocol, whose loops have the size of the parse buffer as fuel; [parse_terminates]; likewise in the tar
    codec; [tar_whole_or_refused]). The
    fuel of the tree walks is the depth bound of paths, of the replay [MAX_ACTIVE_LOG_FRAMES] as in the code,
    of exact transfers the number of bytes asked for, since each round transfers at least one, of the tail trim
    the number of extents. Theorems that conclude with the errors of an operation state that [FuelExhausted] is
    not among them.

    ** Deviations

    - The identity checks of [applyTxn] on a prepared projection compare values, and [===] on the state of the
      store is equality of the model's states.
    - The messages and the details of errors are dropped; [error] has their classes and codes.
    - Metrics are modelled as far as the operations read them.
    - A delivery and its commit are one step, since the group awaits each before the next; a teardown falls before, within
      or after an attempt, as the step says. Delays, logging and boot reports are dropped.
    - A row's columns are a set: their order, the property keys of the query builder and the text of the statements are
      not modelled; the measure of a row in bytes is a parameter.
    - The entitlement set is a value for the length of one call. Reasons of a refusal are constructors, not texts. A
      signed payload that is JSON but no object is reported as malformed, where the code throws.
    - A response of a stream is read to its end in one step; a parsed URL is an address and its parameters. The backoff is
      computed with rationals, where the code rounds doubles.
    - The times of an archive's entries are whole seconds; names are texts whose encoding decodes to them.
    - The parse buffer is a value: a caller that passes an [ArrayBuffer] instead of a view, or that calls the parser from
      its callback, shares it with the parser, which is not modelled. Allocation never fails.

    ** Not modelled

    The OPFS and node ports and the WASI and broker glue (calls into browser and host APIs, whose contract is
    [LawfulPort] and [DurablePort]); the orchestration of groups, the mutations and the workers of the client (timers,
    message ports, SQL text), and of the sync engine the provisioning of the subscription tables; of the
    server the mutation routes; the rest of the repository: the database process, the schema contracts beyond
    what the compiler reads and the applications, most of which generates SQL or orchestrates a database that is not
    part of the sources. *)

From stdpp Require Export base list gmap strings numbers fin_maps sorting.
From Stdlib Require Export ZArith Lia.

#[global] Open Scope Z_scope.
#[export] Set Warnings "-clear-no-such-hyp".

(** ** Errors as values

    A TypeScript function that can throw returns [result E A]; [Ok] is a normal
    return and [Throw] carries the class of the exception. *)

Inductive result (E A : Type) : Type :=
| Ok (a : A)
| Throw (e : E).
Arguments Ok {E A} a.
Arguments Throw {E A} e.

#[global] Instance result_ret E : MRet (result E) := fun A a => Ok a.
#[global] Instance result_bind E : MBind (result E) := fun A B f m =>
  match m with Ok a => f a | Throw e => Throw e end.
#[global] Instance result_fmap E : FMap (result E) := fun A B f m =>
  match m with Ok a => Ok (f a) | Throw e => Throw e end.

(** [if (b) throw e;] *)
Definition throw_if {E} (b : bool) (e : E) : result E unit :=
  if b then Throw e else Ok tt.

Definition is_ok {E A} (m : result E A) : bool :=
  match m with Ok _ => true | Throw _ => false end.

Definition from_ok {E A} (d : A) (m : result E A) : A :=
  match m with Ok a => a | Throw _ => d end.

(** An undefined lookup that the code turns into an exception. *)
Definition or_throw {E A} (o : option A) (e : E) : result E A :=
  match o with Some a => Ok a | None => Throw e end.

(** [try { m } catch { throw e }] *)
Definition rethrow_as {E A} (e : E) (m : result E A) : result E A :=
  match m with Ok a => Ok a | Throw _ => Throw e end.

Section ResultLaws.
Context {E A B : Type}.

Lemma bind_Ok (m : result E A) (f : A -> result E B) (b : B) :
  m ≫= f = Ok b <-> exists a, m = Ok a /\ f a = Ok b.
Proof. destruct m; cbn; naive_solver. Qed.

Lemma bind_Throw (m : result E A) (f : A -> result E B) (e : E) :
  m ≫= f = Throw e <-> m = Throw e \/ exists a, m = Ok a /\ f a = Throw e.
Proof. destruct m; cbn; naive_solver. Qed.

Lemma throw_if_Ok (b : bool) (e : E) (u : unit) :
  throw_if b e = Ok u <-> b = false.
Proof. destruct b, u; cbn; naive_solver. Qed.

Lemma throw_if_Throw (b : bool) (e e' : E) :
  throw_if b e = Throw e' <-> b = true /\ e = e'.
Proof. destruct b; cbn; naive_solver. Qed.

Lemma or_throw_Ok (o : option A) (e : E) (a : A) :
  or_throw o e = Ok a <-> o = Some a.
Proof. destruct o; cbn; naive_solver. Qed.

Lemma or_throw_Throw (o : option A) (e e' : E) :
  or_throw o e = Throw e' <-> o = None /\ e = e'.
Proof. destruct o; cbn; naive_solver. Qed.

Lemma rethrow_as_Ok (m : result E A) (e : E) (a : A) :
  rethrow_as e m = Ok a <-> m = Ok a.
Proof. destruct m; cbn; naive_solver. Qed.

Lemma is_ok_true (m : result E A) : is_ok m = true <-> exists a, m = Ok a.
Proof. destruct m; cbn; naive_solver. Qed.
End ResultLaws.

(** ** Stateful code that can throw

    [ST S E A] threads a mutable state: an exception keeps the mutations made
    before it, as in the source language. *)

Definition ST (S E A : Type) : Type := S -> S * result E A.

#[global] Instance ST_ret S E : MRet (ST S E) := fun A a s => (s, Ok a).
#[global] Instance ST_bind S E : MBind (ST S E) := fun A B f m s =>
  match m s with
  | (s', Ok a) => f a s'
  | (s', Throw e) => (s', Throw e)
  end.

Definition st_get {S E} : ST S E S := fun s => (s, Ok s).
Definition st_modify {S E} (f : S -> S) : ST S E unit := fun s => (f s, Ok tt).
Definition st_lift {S E A} (m : result E A) : ST S E A := fun s => (s, m).

Section STLaws.
Context {S E A B : Type}.

Lemma st_bind_Ok (m : ST S E A) (f : A -> ST S E B) (s s' : S) (b : B) :
  (m ≫= f) s = (s', Ok b) <-> exists s1 a, m s = (s1, Ok a) /\ f a s1 = (s', Ok b).
Proof. unfold mbind, ST_bind. destruct (m s) as [s1 [a|e]]; naive_solver. Qed.

Lemma st_bind_run (m : ST S E A) (f : A -> ST S E B) (s s1 : S) (a : A) :
  m s = (s1, Ok a) -> (m ≫= f) s = f a s1.
Proof. unfold mbind, ST_bind. by intros ->. Qed.

Lemma st_bind_get (f : S -> ST S E B) (s : S) : (st_get ≫= f) s = f s s.
Proof. reflexivity. Qed.

Lemma st_bind_modify (g : S -> S) (f : unit -> ST S E B) (s : S) :
  (st_modify g ≫= f) s = f tt (g s).
Proof. reflexivity. Qed.

Lemma st_bind_lift (m : result E A) (f : A -> ST S E B) (s : S) :
  (st_lift m ≫= f) s = match m with Ok a => f a s | Throw e => (s, Throw e) end.
Proof. destruct m; reflexivity. Qed.
End STLaws.

(** ** Loops *)

(** [for (const x of l) acc = f(acc, x)] where the body can throw. *)
Fixpoint foldM {E A B} (f : B -> A -> result E B) (acc : B) (l : list A) : result E B :=
  match l with
  | [] => Ok acc
  | x :: l => acc' ← f acc x; foldM f acc' l
  end.

(** [for (const x of l) f(x)] on a mutable state. *)
Fixpoint forM {S E A} (f : A -> ST S E unit) (l : list A) : ST S E unit :=
  match l with
  | [] => mret tt
  | x :: l => f x ≫= fun _ => forM f l
  end.

(** [l.map(f)] where [f] can throw. *)
Fixpoint mapR {E A B} (f : A -> result E B) (l : list A) : result E (list B) :=
  match l with
  | [] => Ok []
  | x :: l => y ← f x; ys ← mapR f l; Ok (y :: ys)
  end.

(** [for (const x of l) if (f(x)) return true; return false] where [f] can throw. *)
Fixpoint anyM {E A} (f : A -> result E bool) (l : list A) : result E bool :=
  match l with
  | [] => Ok false
  | x :: l => b ← f x; if b : bool then Ok true else anyM f l
  end.

Section LoopLaws.
Context {E A : Type}.

Lemma foldM_tt_Ok (f : A -> result E unit) l :
  foldM (fun _ x => f x) tt l = Ok tt <-> forall x, x ∈ l -> f x = Ok tt.
Proof.
  induction l as [|x l IH]; cbn; [set_solver|]. rewrite bind_Ok. split.
  - intros ([] & Hx & Hl) y [->|Hy]%elem_of_cons; [done|by apply IH].
  - intros H. exists tt. split; [apply H; set_solver|]. apply IH. intros y Hy. apply H. set_solver.
Qed.

Lemma foldM_ext {B} (f g : B -> A -> result E B) acc l :
  (forall b x, f b x = g b x) -> foldM f acc l = foldM g acc l.
Proof.
  intros Hfg. revert acc. induction l as [|x l IH]; intros acc; cbn; [done|].
  rewrite Hfg. destruct (g acc x); cbn; auto.
Qed.

Lemma anyM_spec (f : A -> result E bool) (Q : A -> Prop) l :
  (forall x, x ∈ l -> exists b, f x = Ok b /\ (b = true <-> Q x)) ->
  exists b, anyM f l = Ok b /\ (b = true <-> exists x, x ∈ l /\ Q x).
Proof.
  induction l as [|x l IH]; cbn; intros Hl.
  - exists false. split; [done|]. split; [done|]. intros (y & Hy & _). set_solver.
  - destruct (Hl x) as (b & -> & Hb); [set_solver|]. cbn. destruct b.
    + exists true. split; [done|]. split; [|done]. intros _. exists x. split; [set_solver|naive_solver].
    + destruct IH as (b & -> & IH); [intros y Hy; apply Hl; set_solver|]. exists b. split; [done|].
      rewrite IH. setoid_rewrite elem_of_cons. naive_solver.
Qed.
End LoopLaws.

(** ** Lists *)

Lemma list_filter_ext {A} (P Q : A -> Prop) `{!forall x, Decision (P x), !forall x, Decision (Q x)}
    (l : list A) :
  (forall x, x ∈ l -> P x <-> Q x) -> filter P l = filter Q l.
Proof.
  induction l as [|x l IH]; intros Hl; [done|]. rewrite !filter_cons.
  assert (Hx : P x <-> Q x) by (apply Hl; set_solver).
  rewrite IH by (intros y Hy; apply Hl; set_solver). destruct (decide (P x)), (decide (Q x)); naive_solver.
Qed.

(** ** Texts, as lists of code units *)

(** [text.split(separator)] for a separator of one unit. *)
Fixpoint splitOn (separator : Z) (text : list Z) : list (list Z) :=
  match text with
  | [] => [[]]
  | c :: rest =>
      if Z.eqb c separator then [] :: splitOn separator rest
      else match splitOn separator rest with part :: parts => (c :: part) :: parts | [] => [[c]] end
  end.

Lemma splitOn_clean sep text : sep ∉ text -> splitOn sep text = [text].
Proof.
  induction text as [|c text IH]; intros H; [done|]. cbn. rewrite (proj2 (Z.eqb_neq c sep)) by set_solver. by rewrite IH by set_solver.
Qed.
Lemma splitOn_app sep part rest : sep ∉ part -> splitOn sep (part ++ sep :: rest) = part :: splitOn sep rest.
Proof.
  induction part as [|c part IH]; intros H; [cbn; by rewrite Z.eqb_refl|]. cbn. rewrite (proj2 (Z.eqb_neq c sep)) by set_solver. by rewrite IH by set_solver.
Qed.

(** ** Automation *)

(** Boolean guards of the code as propositions. *)
Ltac propify :=
  repeat
    match goal with
    | H : Z.eqb _ _ = true |- _ => apply Z.eqb_eq in H
    | H : Z.eqb _ _ = false |- _ => apply Z.eqb_neq in H
    | H : Z.ltb _ _ = true |- _ => apply Z.ltb_lt in H
    | H : Z.ltb _ _ = false |- _ => apply Z.ltb_ge in H
    | H : Z.leb _ _ = true |- _ => apply Z.leb_le in H
    | H : Z.leb _ _ = false |- _ => apply Z.leb_gt in H
    | H : bool_decide _ = true |- _ => apply bool_decide_eq_true in H
    | H : bool_decide _ = false |- _ => apply bool_decide_eq_false in H
    | H : negb _ = true |- _ => apply negb_true_iff in H
    | H : negb _ = false |- _ => apply negb_false_iff in H
    | H : orb _ _ = false |- _ => apply orb_false_iff in H as [? ?]
    | H : andb _ _ = true |- _ => apply andb_true_iff in H as [? ?]
    | H : orb _ _ = true |- _ => apply orb_true_iff in H
    | H : andb _ _ = false |- _ => apply andb_false_iff in H
    end.

(** Take a successful run apart, one statement of the code at a time. *)
Ltac inv_ok_step :=
  match goal with
  | H : Ok _ = Ok _ |- _ => injection H as H; try subst
  | H : Throw _ = Ok _ |- _ => discriminate H
  | H : Ok _ = Throw _ |- _ => discriminate H
  | H : Throw _ = Throw _ |- _ => injection H as H; try subst
  | H : mbind _ _ = Ok _ |- _ =>
      let x := fresh "x" in let Hx := fresh "Hx" in
      apply bind_Ok in H as (x & Hx & H)
  | H : throw_if _ _ = Ok _ |- _ => apply throw_if_Ok in H
  | H : or_throw _ _ = Ok _ |- _ => apply or_throw_Ok in H
  | H : rethrow_as _ _ = Ok _ |- _ => apply rethrow_as_Ok in H
  end.
Ltac inv_ok := repeat (inv_ok_step; simpl in *; propify).

Create HintDb store.
