(* ===== verification/Limits.v ===== *)
(** * Error classes, format limits and checked integers

    Models [packages/pgwasm/src/opfs/core/errors.ts] and [limits.ts]. A [bigint] and an integral
    [number] are both [Z]; the range checks of the code are written out. *)

From S2P Require Export Prelude.

Inductive FsErrorName : Type :=
| EBADF | EEXIST | EINVAL | EIO | EISDIR | ELOOP | ENOENT | ENOTDIR | ENOTEMPTY | EXDEV.

Definition FS_ERRNO (name : FsErrorName) : Z :=
  match name with
  | EBADF => 8 | EEXIST => 20 | EINVAL => 28 | EIO => 29 | EISDIR => 31
  | ELOOP => 32 | ENOENT => 44 | ENOTDIR => 54 | ENOTEMPTY => 55 | EXDEV => 75
  end.

(** The exception classes. Messages are not modelled. [FuelExhausted] belongs to the model: it
    marks a bounded recursion that ran out, and the termination lemmas exclude it. *)
Inductive error : Type :=
| FsError (name : FsErrorName)
| StoreLimitError
| CorruptStoreError
| StoreRecreationRequiredError
| ExtentSizeMismatchError (expected actual : Z)
| StoreOwnedError
| UnexpectedStoreEntryError
| DurabilityModeMismatchError
| StoreClosedError
| StoreFailedError (cause : option error)
| PortWriteError
| TypeError
| RangeError
| PlainError
| QuotaExceededError
| ArenaGrowthQuotaError (cause : error)
| FuelExhausted.

#[global] Instance FsErrorName_eq_dec : EqDecision FsErrorName.
Proof. solve_decision. Defined.
#[global] Instance error_eq_dec : EqDecision error.
Proof.
  refine (fix go e1 e2 : Decision (e1 = e2) :=
    match e1, e2 with
    | StoreFailedError (Some c1), StoreFailedError (Some c2) => cast_if (go c1 c2)
    | StoreFailedError None, StoreFailedError None => left eq_refl
    | ArenaGrowthQuotaError c1, ArenaGrowthQuotaError c2 => cast_if (go c1 c2)
    | FsError n1, FsError n2 => cast_if (decide (n1 = n2))
    | ExtentSizeMismatchError a1 b1, ExtentSizeMismatchError a2 b2 => cast_if_and (decide (a1 = a2)) (decide (b1 = b2))
    | StoreLimitError, StoreLimitError | CorruptStoreError, CorruptStoreError
    | StoreRecreationRequiredError, StoreRecreationRequiredError | StoreOwnedError, StoreOwnedError
    | UnexpectedStoreEntryError, UnexpectedStoreEntryError
    | DurabilityModeMismatchError, DurabilityModeMismatchError | StoreClosedError, StoreClosedError
    | PortWriteError, PortWriteError | TypeError, TypeError | RangeError, RangeError
    | PlainError, PlainError | QuotaExceededError, QuotaExceededError | FuelExhausted, FuelExhausted => left eq_refl
    | _, _ => right _
    end); congruence.
Defined.

(** The operations of the store return [R A] or run in [M S A]. *)
Abbreviation R := (result error).
Abbreviation M S := (ST S error).

(** The numeric code an engine's filesystem bridge reads off a thrown error. *)
Definition error_code (e : error) : option Z :=
  match e with
  | FsError name => Some (FS_ERRNO name)
  | StoreFailedError _ => Some (FS_ERRNO EIO)
  | _ => None
  end.

Definition FORMAT_VERSION : Z := 2.
Definition LIMITS_PROFILE_VERSION : Z := 1.
Definition ARENA_HEADER_BYTES : Z := 8192.
Definition MIN_EXTENT_BYTES : Z := 8192.
Definition MAX_EXTENT_BYTES : Z := 16 * 1024 * 1024.
Definition DEFAULT_EXTENT_BYTES : Z := 64 * 1024.
Definition MAX_COMPONENT_BYTES : Z := 255.
Definition MAX_PATH_BYTES : Z := 1024.
Definition MAX_PATH_DEPTH : Z := 32.
Definition MAX_SYMLINK_HOPS : Z := 32.
Definition MAX_INODES : Z := 65536.
Definition MAX_EXTENTS_PER_INODE : Z := 2 ^ 20.
Definition MAX_TOTAL_EXTENTS : Z := 2 ^ 22.
Definition MAX_METADATA_BASE_READER_BYTES : Z := 64 * 1024 * 1024.
Definition MAX_METADATA_BASE_WRITER_BYTES : Z := 32 * 1024 * 1024.
Definition MAX_FRAME_PAYLOAD_BYTES : Z := 1024 * 1024.
Definition MAX_ACTIVE_LOG_BYTES : Z := 16 * 1024 * 1024.
Definition SOFT_ACTIVE_LOG_BYTES : Z := 8 * 1024 * 1024.
Definition MAX_ACTIVE_LOG_FRAMES : Z := 32768.
Definition SOFT_ACTIVE_LOG_FRAMES : Z := 16384.
Definition MAX_U64 : Z := 2 ^ 64 - 1.

(** [Number.MAX_SAFE_INTEGER] and [Number.isSafeInteger] of the language. *)
Definition MAX_SAFE_INTEGER : Z := 2 ^ 53 - 1.
Definition isSafeInteger (value : Z) : bool := Z.abs value <=? MAX_SAFE_INTEGER.

Definition validateExtentSize (value : Z) : R Z :=
  if negb (isSafeInteger value) || (value <? MIN_EXTENT_BYTES) || (MAX_EXTENT_BYTES <? value)
     || negb (value mod ARENA_HEADER_BYTES =? 0)
  then Throw TypeError
  else Ok value.

Definition checkedU64 (value : Z) : R Z :=
  if (value <? 0) || (MAX_U64 <? value) then Throw StoreLimitError else Ok value.

Definition checkedSafeNumber (value : Z) : R Z :=
  checkedU64 value ≫= fun _ =>
  if MAX_SAFE_INTEGER <? value then Throw StoreLimitError else Ok value.

Definition checkedAdd (left right : Z) : R Z := checkedU64 (left + right).

Definition checkedMultiply (left right : Z) : R Z := checkedU64 (left * right).

(** ** Ranges *)

Definition u64 (z : Z) : Prop := 0 <= z <= MAX_U64.
Definition u32 (z : Z) : Prop := 0 <= z <= 4294967295.

(** Replace the named limits by numbers so that [lia] can use them. *)
Ltac limits :=
  unfold u64, u32, MAX_U64, MAX_SAFE_INTEGER, MAX_EXTENTS_PER_INODE, MAX_TOTAL_EXTENTS,
    MAX_METADATA_BASE_WRITER_BYTES, MAX_METADATA_BASE_READER_BYTES, MAX_FRAME_PAYLOAD_BYTES,
    MAX_INODES, MAX_PATH_DEPTH, MAX_PATH_BYTES, MAX_COMPONENT_BYTES, MAX_SYMLINK_HOPS,
    MAX_EXTENT_BYTES, MIN_EXTENT_BYTES, ARENA_HEADER_BYTES, MAX_ACTIVE_LOG_BYTES,
    MAX_ACTIVE_LOG_FRAMES, FORMAT_VERSION, LIMITS_PROFILE_VERSION in *.
Ltac ll := limits; simpl Z.pow in *; lia.

(** Turn the boolean guards of the goal and the context into inequalities. *)
Ltac guards :=
  repeat match goal with
  | |- context [if ?b then _ else _] => destruct b eqn:?
  end; propify.

Lemma checkedU64_Ok v w : checkedU64 v = Ok w <-> w = v /\ u64 v.
Proof.
  unfold checkedU64. destruct (_ || _) eqn:E; propify.
  - split; [discriminate | intros [-> ?]; ll].
  - split; [intros [= <-]; split; [done | ll] | by intros [-> _]].
Qed.

Lemma checkedU64_id v : u64 v -> checkedU64 v = Ok v.
Proof. intros. by apply checkedU64_Ok. Qed.

Lemma checkedAdd_Ok a b w : checkedAdd a b = Ok w <-> w = a + b /\ u64 (a + b).
Proof. apply checkedU64_Ok. Qed.

Lemma checkedMultiply_Ok a b w : checkedMultiply a b = Ok w <-> w = a * b /\ u64 (a * b).
Proof. apply checkedU64_Ok. Qed.

Lemma checkedSafeNumber_Ok v w :
  checkedSafeNumber v = Ok w <-> w = v /\ 0 <= v <= MAX_SAFE_INTEGER.
Proof.
  unfold checkedSafeNumber. rewrite bind_Ok. setoid_rewrite checkedU64_Ok.
  split.
  - intros (? & [-> Hv] & Hc). destruct (_ <? _) eqn:E; [done|]. injection Hc as <-. propify. ll.
  - intros [-> ?]. exists v. split; [split; [done | ll]|].
    destruct (_ <? _) eqn:E; propify; [ll | done].
Qed.

Definition extent_size_ok (v : Z) : Prop :=
  MIN_EXTENT_BYTES <= v <= MAX_EXTENT_BYTES /\ v mod ARENA_HEADER_BYTES = 0.

Lemma validateExtentSize_Ok v w : validateExtentSize v = Ok w <-> w = v /\ extent_size_ok v.
Proof.
  unfold validateExtentSize, extent_size_ok, isSafeInteger.
  destruct (_ || _) eqn:E; propify.
  - split; [discriminate|]. intros [-> [? ?]].
    destruct_or?; propify; ll.
  - split; [intros [= <-]; split; [done | ll] | by intros [-> _]].
Qed.

Lemma extent_size_pos v : extent_size_ok v -> 0 < v.
Proof. unfold extent_size_ok. ll. Qed.

#[export] Hint Resolve checkedU64_id extent_size_pos : store.
