(* ===== verification/Paths.v ===== *)
(** * Strings, UTF-8 and paths

    Models [packages/pgwasm/src/opfs/core/path.ts], over the platform's UTF-16 strings,
    [TextEncoder] and fatal [TextDecoder]. A string is the list of its code units. *)

From S2P Require Export Limits.

(** ** Strings of the language *)

Abbreviation jsstr := (list Z).

(** Every element of a JavaScript string is a 16-bit code unit. *)
Definition code_unit (c : Z) : Prop := 0 <= c <= 0xffff.
Definition js_string (s : jsstr) : Prop := Forall code_unit s.

Definition high_surrogate (c : Z) : bool := (0xd800 <=? c) && (c <=? 0xdbff).
Definition low_surrogate (c : Z) : bool := (0xdc00 <=? c) && (c <=? 0xdfff).

Definition SLASH : Z := 47.
Definition DOT : Z := 46.

(** A string literal, for examples. *)
Fixpoint js (s : string) : jsstr :=
  match s with
  | EmptyString => []
  | String a s => Z.of_nat (Ascii.nat_of_ascii a) :: js s
  end.

(** [value.split(sep)] for a one-unit separator. *)
Fixpoint js_split (sep : Z) (s : jsstr) : list jsstr :=
  match s with
  | [] => [[]]
  | c :: s =>
      if c =? sep then [] :: js_split sep s
      else match js_split sep s with
           | [] => [[c]]
           | w :: ws => (c :: w) :: ws
           end
  end.

(** [parts.join("/")] *)
Fixpoint js_join (parts : list jsstr) : jsstr :=
  match parts with
  | [] => []
  | [p] => p
  | p :: ps => p ++ SLASH :: js_join ps
  end.

(** [value.includes("//")] *)
Fixpoint has_double_slash (s : jsstr) : bool :=
  match s with
  | a :: (b :: _) as t => ((a =? SLASH) && (b =? SLASH)) || has_double_slash t
  | _ => false
  end.

(** ** UTF-8 *)

(** [textEncoder.encode]: an unpaired surrogate becomes U+FFFD. *)
Definition utf8_3 (c : Z) : list Z :=
  [0xe0 + c / 4096; 0x80 + (c / 64) mod 64; 0x80 + c mod 64].
Definition utf8_4 (c : Z) : list Z :=
  [0xf0 + c / 262144; 0x80 + (c / 4096) mod 64; 0x80 + (c / 64) mod 64; 0x80 + c mod 64].
Definition code_point (high low : Z) : Z := 0x10000 + (high - 0xd800) * 1024 + (low - 0xdc00).

Fixpoint utf8_encode (s : jsstr) : list Z :=
  match s with
  | [] => []
  | c :: rest =>
      if c <=? 0x7f then c :: utf8_encode rest
      else if c <=? 0x7ff then [0xc0 + c / 64; 0x80 + c mod 64] ++ utf8_encode rest
      else if high_surrogate c then
        match rest with
        | next :: rest' =>
            if low_surrogate next then utf8_4 (code_point c next) ++ utf8_encode rest'
            else utf8_3 0xfffd ++ utf8_encode rest
        | [] => utf8_3 0xfffd
        end
      else if low_surrogate c then utf8_3 0xfffd ++ utf8_encode rest
      else utf8_3 c ++ utf8_encode rest
  end.

Definition continuation (b : Z) : bool := (0x80 <=? b) && (b <=? 0xbf).

(** The fatal UTF-8 decoder of the Encoding standard, as UTF-16 code units. *)
Fixpoint utf8_units (bs : list Z) : option jsstr :=
  match bs with
  | [] => Some []
  | b0 :: t0 =>
      if (0 <=? b0) && (b0 <=? 0x7f) then cons b0 <$> utf8_units t0
      else if (0xc2 <=? b0) && (b0 <=? 0xdf) then
        match t0 with
        | b1 :: t1 =>
            if continuation b1 then cons ((b0 - 0xc0) * 64 + (b1 - 0x80)) <$> utf8_units t1
            else None
        | _ => None
        end
      else if (0xe0 <=? b0) && (b0 <=? 0xef) then
        match t0 with
        | b1 :: b2 :: t2 =>
            if continuation b1 && continuation b2
               && negb ((b0 =? 0xe0) && (b1 <? 0xa0)) && negb ((b0 =? 0xed) && (0x9f <? b1))
            then cons ((b0 - 0xe0) * 4096 + (b1 - 0x80) * 64 + (b2 - 0x80)) <$> utf8_units t2
            else None
        | _ => None
        end
      else if (0xf0 <=? b0) && (b0 <=? 0xf4) then
        match t0 with
        | b1 :: b2 :: b3 :: t3 =>
            if continuation b1 && continuation b2 && continuation b3
               && negb ((b0 =? 0xf0) && (b1 <? 0x90)) && negb ((b0 =? 0xf4) && (0x8f <? b1))
            then
              let c := (b0 - 0xf0) * 262144 + (b1 - 0x80) * 4096 + (b2 - 0x80) * 64 + (b3 - 0x80) in
              (fun u => 0xd800 + (c - 0x10000) / 1024 :: 0xdc00 + (c - 0x10000) mod 1024 :: u)
                <$> utf8_units t3
            else None
        | _ => None
        end
      else None
  end.

(** [new TextDecoder("utf-8", { fatal: true }).decode]: a leading byte order mark is dropped. *)
Definition BOM : Z := 0xfeff.
Definition utf8_decode (bs : list Z) : option jsstr :=
  match utf8_units bs with
  | Some (c :: u) => Some (if c =? BOM then u else c :: u)
  | r => r
  end.

(** ** path.ts *)

Fixpoint utf8Length_from (value : jsstr) (bytes : Z) : R Z :=
  match value with
  | [] => Ok bytes
  | codeUnit :: rest =>
      if codeUnit <=? 0x7f then utf8Length_from rest (bytes + 1)
      else if codeUnit <=? 0x7ff then utf8Length_from rest (bytes + 2)
      else if (0xd800 <=? codeUnit) && (codeUnit <=? 0xdbff) then
        match rest with
        | next :: rest' =>
            if (next <? 0xdc00) || (0xdfff <? next) then Throw (FsError EINVAL)
            else utf8Length_from rest' (bytes + 4)
        | [] => Throw (FsError EINVAL)
        end
      else if (0xdc00 <=? codeUnit) && (codeUnit <=? 0xdfff) then Throw (FsError EINVAL)
      else utf8Length_from rest (bytes + 3)
  end.
Definition utf8Length (value : jsstr) : R Z := utf8Length_from value 0.

Definition encodedUtf8Length (value : jsstr) : R Z := utf8Length value.

Definition validatePathComponent (component : jsstr) : R Z :=
  throw_if (bool_decide (component = []) || bool_decide (component = [DOT])
            || bool_decide (component = [DOT; DOT])) (FsError EINVAL) ≫= fun _ =>
  throw_if (bool_decide (SLASH ∈ component) || bool_decide (0 ∈ component)) (FsError EINVAL) ≫= fun _ =>
  bytes ← utf8Length component;
  throw_if (MAX_COMPONENT_BYTES <? bytes) (FsError EINVAL) ≫= fun _ =>
  Ok bytes.

Definition parsePath (path : jsstr) : R (list jsstr) :=
  if bool_decide (path = [SLASH]) then Ok []
  else
    throw_if (negb (bool_decide (head path = Some SLASH)) || bool_decide (last path = Some SLASH)
              || has_double_slash path) (FsError EINVAL) ≫= fun _ =>
    bytes ← utf8Length path;
    throw_if (MAX_PATH_BYTES <? bytes) (FsError EINVAL) ≫= fun _ =>
    let components := js_split SLASH (tail path) in
    throw_if (MAX_PATH_DEPTH <? Z.of_nat (length components)) (FsError EINVAL) ≫= fun _ =>
    mapR validatePathComponent components ≫= fun _ =>
    Ok components.

Definition validateSymlinkTarget (target : jsstr) : R Z :=
  bytes ← utf8Length target;
  throw_if ((bytes =? 0) || (MAX_PATH_BYTES <? bytes)) (FsError EINVAL) ≫= fun _ =>
  parsePath target ≫= fun _ =>
  Ok bytes.
