(* ===== verification/JsMap.v ===== *)
(** * Insertion-ordered maps and the indexed extent set

    [Map] of the language, where the code depends on its iteration order, and the class
    [IndexedExtentSet] of [packages/pgwasm/src/opfs/core/state-machine.ts]. *)

From S2P Require Export Limits.

(** ** Insertion-ordered maps

    The entries in insertion order. [set] on a present key keeps its position, [delete] closes
    the gap: the iteration order of a JavaScript [Map]. *)
Module JsMap.
Section Ops.
Context {K V : Type} `{EqDecision K}.

Fixpoint get (m : list (K * V)) (k : K) : option V :=
  match m with
  | [] => None
  | (k', v) :: m => if decide (k = k') then Some v else get m k
  end.

Definition has (m : list (K * V)) (k : K) : bool := bool_decide (is_Some (get m k)).

Fixpoint set (m : list (K * V)) (k : K) (v : V) : list (K * V) :=
  match m with
  | [] => [(k, v)]
  | (k', v') :: m => if decide (k = k') then (k', v) :: m else (k', v') :: set m k v
  end.

Fixpoint del (m : list (K * V)) (k : K) : list (K * V) :=
  match m with
  | [] => []
  | (k', v') :: m => if decide (k = k') then m else (k', v') :: del m k
  end.

Definition keys (m : list (K * V)) : list K := m.*1.

(** Keys are unique: what the class maintains. *)
Definition wf (m : list (K * V)) : Prop := NoDup (keys m).

Lemma get_set_eq m k v : get (set m k v) k = Some v.
Proof. induction m as [|[k' v'] m IH]; simpl; repeat case_decide; simpl; repeat case_decide; naive_solver. Qed.

Lemma get_set_ne m k k' v : k <> k' -> get (set m k v) k' = get m k'.
Proof. intros. induction m as [|[k1 v1] m IH]; simpl; repeat case_decide; simpl; repeat case_decide; naive_solver. Qed.

Lemma get_None m k : get m k = None <-> k ∉ keys m.
Proof.
  induction m as [|[k' v'] m IH]; simpl; [set_solver|].
  case_decide; subst; rewrite ?not_elem_of_cons; naive_solver.
Qed.

Lemma get_is_Some m k : is_Some (get m k) <-> k ∈ keys m.
Proof.
  destruct (decide (k ∈ keys m)) as [Hk|Hk].
  - split; [done|]. intros _. destruct (get m k) eqn:E; [eauto|]. by apply get_None in E.
  - split; [|done]. apply get_None in Hk as ->. by intros [].
Qed.

Lemma has_true m k : has m k = true <-> k ∈ keys m.
Proof. unfold has. by rewrite bool_decide_eq_true, get_is_Some. Qed.

Lemma has_false m k : has m k = false <-> k ∉ keys m.
Proof. unfold has. by rewrite bool_decide_eq_false, get_is_Some. Qed.

Lemma set_fresh m k v : k ∉ keys m -> set m k v = m ++ [(k, v)].
Proof.
  induction m as [|[k' v'] m IH]; simpl; [done|]. rewrite not_elem_of_cons.
  intros [? ?]. case_decide; [done|]. by rewrite IH.
Qed.

Lemma keys_set_present m k v : k ∈ keys m -> keys (set m k v) = keys m.
Proof.
  induction m as [|[k' v'] m IH]; simpl; [set_solver|].
  rewrite elem_of_cons. case_decide; subst; simpl; [done|].
  intros [?|?]; [done|]. f_equal. by apply IH.
Qed.

Lemma keys_set_fresh m k v : k ∉ keys m -> keys (set m k v) = keys m ++ [k].
Proof. intros. rewrite set_fresh by done. unfold keys. by rewrite fmap_app. Qed.

Lemma elem_of_keys_set m k v x : x ∈ keys (set m k v) <-> x = k \/ x ∈ keys m.
Proof.
  destruct (decide (k ∈ keys m)).
  - rewrite keys_set_present by done. naive_solver.
  - rewrite keys_set_fresh by done. rewrite elem_of_app, list_elem_of_singleton. naive_solver.
Qed.

Lemma wf_set m k v : wf m -> wf (set m k v).
Proof.
  unfold wf. intros. destruct (decide (k ∈ keys m)).
  - by rewrite keys_set_present.
  - rewrite keys_set_fresh by done. apply NoDup_app. split_and!; [done| |apply NoDup_singleton].
    intros x Hx ->%list_elem_of_singleton. done.
Qed.

Lemma elem_of_keys_del m k x : wf m -> x ∈ keys (del m k) <-> x <> k /\ x ∈ keys m.
Proof.
  unfold wf. induction m as [|[k' v'] m IH]; simpl; [set_solver|].
  rewrite NoDup_cons. intros [? ?]. case_decide; subst; simpl.
  - rewrite elem_of_cons. naive_solver.
  - rewrite !elem_of_cons, IH by done. naive_solver.
Qed.

Lemma wf_del m k : wf m -> wf (del m k).
Proof.
  unfold wf. induction m as [|[k' v'] m IH]; simpl; [done|]. intros Hw.
  pose proof Hw as [? ?]%NoDup_cons. case_decide; [done|]. simpl. apply NoDup_cons. split; [|by apply IH].
  intros Hin. apply elem_of_keys_del in Hin; [naive_solver|done].
Qed.

Lemma length_keys m : length (keys m) = length m.
Proof. apply length_fmap. Qed.

Lemma elem_of_get m k v : wf m -> (k, v) ∈ m <-> get m k = Some v.
Proof.
  unfold wf. induction m as [|[k' v'] m IH]; simpl; [set_solver|].
  rewrite NoDup_cons, elem_of_cons. intros [Hni Hnd]. case_decide; subst.
  - split; [|naive_solver]. intros [?|Hin]; [naive_solver|].
    destruct Hni. apply list_elem_of_fmap. by exists (k', v).
  - rewrite <- IH by done. naive_solver.
Qed.
End Ops.
End JsMap.

Arguments JsMap.keys {K V} m : simpl never.
Arguments JsMap.set {K V _} m k v : simpl never.
Arguments JsMap.del {K V _} m k : simpl never.

(** ** [IndexedExtentSet]

    A set of extent ids with constant-time membership, insertion and removal: the members in a
    dense array, and the array index of every member. *)
Module ExtentSet.
Record t : Type := mk { items : list Z; indexes : gmap Z nat }.

Definition empty : t := mk [] ∅.

Definition size (s : t) : Z := Z.of_nat (length s.(items)).

Definition has (s : t) (extentId : Z) : bool := bool_decide (is_Some (s.(indexes) !! extentId)).

Definition add (s : t) (extentId : Z) : t :=
  if has s extentId then s
  else mk (s.(items) ++ [extentId]) (<[extentId := length s.(items)]> s.(indexes)).

(** [delete]: the last member takes the place of the removed one. *)
Definition delete (s : t) (extentId : Z) : t * bool :=
  match s.(indexes) !! extentId with
  | None => (s, false)
  | Some index =>
      let popped := removelast s.(items) in
      let indexes' := base.delete extentId s.(indexes) in
      match last s.(items) with
      | Some lst =>
          if decide (index < length popped)%nat
          then (mk (<[index := lst]> popped) (<[lst := index]> indexes'), true)
          else (mk popped indexes', true)
      | None => (mk popped indexes', true)
      end
  end.

Definition values (s : t) : list Z := s.(items).

Definition peekLast (s : t) (count : Z) : R (list Z) :=
  if negb (isSafeInteger count) || (count <? 0) || (size s <? count)
  then Throw StoreLimitError
  else Ok (rev (drop (length s.(items) - Z.to_nat count) s.(items))).

Definition clone (s : t) : t := fold_left add s.(items) empty.

(** The representation invariant. *)
Definition wf (s : t) : Prop :=
  NoDup s.(items) /\ forall x i, s.(indexes) !! x = Some i <-> s.(items) !! i = Some x.

Lemma empty_wf : wf empty.
Proof. split; [apply NoDup_nil_2|]. intros x i. cbn. rewrite lookup_empty, lookup_nil. naive_solver. Qed.

Lemma mem_true s x : wf s -> has s x = true <-> x ∈ s.(items).
Proof.
  intros [_ Hix]. unfold has. rewrite bool_decide_eq_true, list_elem_of_lookup.
  split; intros [i Hi]; exists i; by apply Hix.
Qed.

Lemma mem_false s x : wf s -> has s x = false <-> x ∉ s.(items).
Proof. intros Hw. rewrite <- (mem_true s x Hw). destruct (has s x); naive_solver. Qed.

Lemma add_items s x : has s x = false -> (add s x).(items) = s.(items) ++ [x].
Proof. unfold add. by intros ->. Qed.

Lemma add_wf s x : wf s -> wf (add s x).
Proof.
  intros Hw. unfold add. destruct (has s x) eqn:Hh; [done|].
  apply (mem_false s x Hw) in Hh. destruct Hw as [Hnd Hix]. split; cbn.
  - apply NoDup_app. split_and!; [done| |apply NoDup_singleton].
    by intros y Hy ->%list_elem_of_singleton.
  - intros y i. rewrite lookup_insert, lookup_app. case_decide as Hxy; subst.
    + split.
      * intros [= <-]. by rewrite (lookup_ge_None_2 (items s) (length (items s))), Nat.sub_diag by lia.
      * destruct (items s !! i) eqn:E.
        -- intros [= ->]. by apply list_elem_of_lookup_2 in E.
        -- apply lookup_ge_None in E. destruct (i - length (items s))%nat eqn:Ei; [|done].
           intros _. f_equal. lia.
    + rewrite Hix. destruct (items s !! i) eqn:E; [done|].
      destruct (i - length (items s))%nat; cbn; naive_solver.
Qed.
Lemma snoc_items s i x : wf s -> s.(items) !! i = Some x ->
  exists popped lst, s.(items) = popped ++ [lst] /\ (i <= length popped)%nat /\ x ∈ s.(items).
Proof.
  intros Hw Hi. destruct (items s) as [|y l] eqn:E using rev_ind; [done|].
  exists l, y. split_and!; [done| |by apply list_elem_of_lookup_2 in Hi].
  apply lookup_lt_Some in Hi. rewrite length_app in Hi. cbn in Hi. lia.
Qed.

(** The removal keeps the other members, in an order that depends on the position removed. *)
Lemma delete_present s x popped lst :
  wf s -> s.(items) = popped ++ [lst] -> x ∈ s.(items) ->
  exists i, s.(indexes) !! x = Some i /\
    delete s x =
      (if decide (i < length popped)%nat
       then mk (<[i := lst]> popped) (<[lst := i]> (base.delete x s.(indexes)))
       else mk popped (base.delete x s.(indexes)), true).
Proof.
  intros [Hnd Hix] Hit [i Hi]%list_elem_of_lookup_1. exists i. pose proof Hi as Hx.
  apply Hix in Hx. split; [done|]. unfold delete. rewrite Hx, Hit, removelast_last, last_snoc.
  by case_decide.
Qed.

Lemma delete_absent s x : wf s -> x ∉ s.(items) -> delete s x = (s, false).
Proof.
  intros [_ Hix] Hx. unfold delete. destruct (indexes s !! x) as [i|] eqn:E; [|done].
  apply Hix in E. by apply list_elem_of_lookup_2 in E.
Qed.
Lemma delete_perm s x :
  wf s -> x ∈ s.(items) ->
  (delete s x).2 = true /\ s.(items) ≡ₚ x :: (delete s x).1.(items).
Proof.
  intros Hw Hx. pose proof Hx as [i Hi]%list_elem_of_lookup_1.
  destruct (snoc_items s i x Hw Hi) as (popped & lst & Hit & Hle & _).
  destruct (delete_present s x popped lst Hw Hit Hx) as (j & Hj & ->).
  split; [done|]. cbn. apply Hw in Hj. rewrite Hit in *. case_decide as Hlt; cbn.
  - rewrite lookup_app_l in Hj by done.
    rewrite <- (take_drop_middle popped j x Hj) at 1. rewrite insert_take_drop by done.
    rewrite <- app_assoc. cbn. solve_Permutation.
  - apply lookup_snoc_Some in Hj as [[? ?]|[? <-]]; [lia|]. solve_Permutation.
Qed.

Lemma delete_wf s x : wf s -> wf (delete s x).1.
Proof.
  intros Hw. destruct (decide (x ∈ s.(items))) as [Hx|Hx]; [|by rewrite delete_absent].
  destruct (delete_perm s x Hw Hx) as [_ Hp].
  assert (Hnd : NoDup (delete s x).1.(items)).
  { destruct Hw as [Hnd _]. rewrite Hp in Hnd. by apply NoDup_cons in Hnd as [_ ?]. }
  split; [exact Hnd|].
  pose proof Hx as [i0 Hi0]%list_elem_of_lookup_1.
  destruct (snoc_items s i0 x Hw Hi0) as (popped & lst & Hit & _ & _).
  destruct (delete_present s x popped lst Hw Hit Hx) as (i & Hi & Hdel).
  rewrite Hdel in *. clear Hdel Hp i0 Hi0. destruct Hw as [Hnds Hix].
  pose proof Hi as Hxi. apply Hix in Hxi. rewrite Hit in Hxi, Hnds. setoid_rewrite Hit in Hix.
  apply NoDup_app in Hnds as (Hndp & Hlst & _).
  assert (Hlp : lst ∉ popped) by (intros ?; by apply (Hlst lst); [|apply list_elem_of_singleton]).
  intros y j. case_decide as Hlt; cbn in *.
  - rewrite lookup_app_l in Hxi by done.
    assert (x <> lst) by (intros ->; by apply list_elem_of_lookup_2 in Hxi).
    rewrite lookup_insert, list_lookup_insert. case_decide as Hly; subst; case_decide as Hij; subst.
    + naive_solver.
    + split; [naive_solver|]. intros Hj. by apply list_elem_of_lookup_2 in Hj.
    + destruct Hij as [<- _]. rewrite lookup_delete. case_decide as Hxy; [naive_solver|].
      rewrite Hix, lookup_app_l, Hxi by done. naive_solver.
    + rewrite lookup_delete. case_decide as Hxy; subst.
      * split; [done|]. intros Hj. destruct Hij.
        pose proof (NoDup_lookup popped i j _ Hndp Hxi Hj). by subst.
      * rewrite Hix, lookup_snoc_Some. split; [intros [[_ ?]|[_ ?]]; congruence|].
        intros Hj. left. split; [by eapply lookup_lt_Some | done].
  - apply lookup_snoc_Some in Hxi as [[? ?]|[-> <-]]; [lia|].
    rewrite lookup_delete. case_decide; subst.
    + split; [done|]. intros Hj. by apply list_elem_of_lookup_2 in Hj.
    + rewrite Hix, lookup_snoc_Some. split; [intros [[_ ?]|[_ ?]]; congruence|].
      intros Hj. left. split; [by eapply lookup_lt_Some | done].
Qed.

Lemma elem_of_delete s x y : wf s -> y ∈ (delete s x).1.(items) <-> y <> x /\ y ∈ s.(items).
Proof.
  intros Hw. destruct (decide (x ∈ s.(items))) as [Hx|Hx].
  - destruct (delete_perm s x Hw Hx) as [_ Hp]. rewrite Hp, elem_of_cons.
    destruct Hw as [Hnd _]. rewrite Hp in Hnd. apply NoDup_cons in Hnd as [? ?]. naive_solver.
  - rewrite delete_absent by done. naive_solver.
Qed.

Lemma elem_of_add s x y : wf s -> y ∈ (add s x).(items) <-> y = x \/ y ∈ s.(items).
Proof.
  intros Hw. destruct (has s x) eqn:Hh.
  - unfold add. rewrite Hh. apply (mem_true s x Hw) in Hh. naive_solver.
  - rewrite add_items by done. rewrite elem_of_app, list_elem_of_singleton. naive_solver.
Qed.

Lemma size_delete s x : wf s -> x ∈ s.(items) -> size (delete s x).1 = size s - 1.
Proof.
  intros Hw Hx. destruct (delete_perm s x Hw Hx) as [_ Hp]. unfold size.
  rewrite Hp. cbn. lia.
Qed.

Lemma size_add s x : wf s -> x ∉ s.(items) -> size (add s x) = size s + 1.
Proof.
  intros Hw Hx. apply (mem_false s x Hw) in Hx. unfold size. rewrite add_items by done.
  rewrite length_app. cbn. lia.
Qed.

(** Rebuilding the set from its values gives the same set back. *)
Lemma fold_add_wf l s : wf s -> wf (fold_left add l s).
Proof. revert s. induction l as [|x l IH]; intros s Hw; [done|]. apply IH. by apply add_wf. Qed.

Lemma fold_add_items l s : wf s -> NoDup l -> (forall x, x ∈ l -> x ∉ s.(items)) ->
  (fold_left add l s).(items) = s.(items) ++ l.
Proof.
  revert s. induction l as [|x l IH]; intros s Hw Hnd Hdis; cbn; [by rewrite app_nil_r|].
  apply NoDup_cons in Hnd as [Hx Hnd].
  assert (Hh : has s x = false) by (apply mem_false; [done|]; apply Hdis; set_solver).
  rewrite IH; [|by apply add_wf|done|].
  - rewrite add_items by done. by rewrite <- app_assoc.
  - intros y Hy. rewrite (elem_of_add s x y Hw). intros [->|?]; [done|].
    apply (Hdis y); set_solver.
Qed.

Lemma wf_ext s s' : wf s -> wf s' -> s.(items) = s'.(items) -> s = s'.
Proof.
  intros [_ H1] [_ H2] Heq. destruct s as [l m], s' as [l' m']. cbn in *. subst. f_equal.
  apply map_eq. intros x. apply option_eq. intros i. by rewrite H1, H2.
Qed.

Lemma clone_id s : wf s -> clone s = s.
Proof.
  intros Hw. apply wf_ext; [apply fold_add_wf, empty_wf|done|]. unfold clone.
  rewrite fold_add_items; [done|apply empty_wf|apply Hw|]. intros x _. cbn. by intros ?%elem_of_nil.
Qed.

Lemma peekLast_Ok s n l :
  peekLast s n = Ok l ->
  0 <= n <= size s /\ l = rev (drop (length s.(items) - Z.to_nat n) s.(items)).
Proof.
  unfold peekLast. destruct (_ || _) eqn:E; [done|]. intros [= <-]. propify.
  split; [|done]. unfold size in *. lia.
Qed.
End ExtentSet.
