(* ===== verification/State.v ===== *)
(** * The filesystem state

    The data types, lookups, path resolution and size accounting of
    [packages/pgwasm/src/opfs/core/state-machine.ts]. An object reached through [state.inodes] is
    represented by its key; mutating it is an update at that key. *)

From S2P Require Export Paths JsMap.

Abbreviation InodeId := Z (only parsing).
Abbreviation ExtentId := Z (only parsing).

Inductive MetadataFile : Type := MetaA | MetaB.

Definition otherMetadataFile (file : MetadataFile) : MetadataFile :=
  match file with MetaA => MetaB | MetaB => MetaA end.

(** ** Inodes *)

Abbreviation Children := (gmap jsstr Z).

Inductive InodeKind : Type :=
| Directory (children : Children)
| File (size : Z) (extents : list Z)
| Symlink (target : jsstr).

Record Inode : Type := mkInode {
  inode_id : Z;
  inode_mode : Z;
  atimeMs : Z;
  mtimeMs : Z;
  ctimeMs : Z;
  inode_kind : InodeKind
}.

Record OrphanRecord : Type := mkOrphan {
  orphan_inodeId : Z;
  orphan_mode : Z;
  orphan_atimeMs : Z;
  orphan_mtimeMs : Z;
  orphan_ctimeMs : Z;
  orphan_size : Z;
  orphan_extents : list Z
}.

(** The file view of an inode, when it is a file. *)
Record FileInode : Type := mkFileInode {
  file_inode : Inode;
  file_size : Z;
  file_extents : list Z
}.

Definition makeOrphanRecord (f : FileInode) : OrphanRecord :=
  let inode := file_inode f in
  mkOrphan (inode_id inode) (inode_mode inode) (atimeMs inode) (mtimeMs inode) (ctimeMs inode)
    (file_size f) (file_extents f).

(** ** State *)

Record AllocatorState : Type := mkAllocator {
  totalExtents : Z;
  ownedBy : gmap Z Z;
  available : ExtentSet.t;
  quarantine : list (Z * option Z)
}.

Record VfsState : Type := mkState {
  generation : Z;
  nextInodeId : Z;
  rootInodeId : Z;
  extentSize : Z;
  activeMetadataFile : MetadataFile;
  retained_a : option Z;
  retained_b : option Z;
  basePayloadBytes : Z;
  inodes : gmap Z Inode;
  parentByInode : gmap Z (Z * jsstr);
  allocator : AllocatorState
}.

(** [state.retainedGenerations[file]] *)
Definition retainedGenerations (s : VfsState) (file : MetadataFile) : option Z :=
  match file with MetaA => retained_a s | MetaB => retained_b s end.

#[global] Instance MetadataFile_eq_dec : EqDecision MetadataFile.
Proof. solve_decision. Defined.
#[global] Instance InodeKind_eq_dec : EqDecision InodeKind.
Proof. solve_decision. Defined.
#[global] Instance Inode_eq_dec : EqDecision Inode.
Proof. solve_decision. Defined.
#[global] Instance ExtentSet_eq_dec : EqDecision ExtentSet.t.
Proof. solve_decision. Defined.
#[global] Instance AllocatorState_eq_dec : EqDecision AllocatorState.
Proof. solve_decision. Defined.
#[global] Instance VfsState_eq_dec : EqDecision VfsState.
Proof. solve_decision. Defined.

(** *** Field assignments *)

Definition set_inodes (f : gmap Z Inode -> gmap Z Inode) (s : VfsState) : VfsState :=
  mkState (generation s) (nextInodeId s) (rootInodeId s) (extentSize s) (activeMetadataFile s)
    (retained_a s) (retained_b s) (basePayloadBytes s) (f (inodes s)) (parentByInode s) (allocator s).
Definition set_parents (f : gmap Z (Z * jsstr) -> gmap Z (Z * jsstr)) (s : VfsState) : VfsState :=
  mkState (generation s) (nextInodeId s) (rootInodeId s) (extentSize s) (activeMetadataFile s)
    (retained_a s) (retained_b s) (basePayloadBytes s) (inodes s) (f (parentByInode s)) (allocator s).
Definition set_allocator (f : AllocatorState -> AllocatorState) (s : VfsState) : VfsState :=
  mkState (generation s) (nextInodeId s) (rootInodeId s) (extentSize s) (activeMetadataFile s)
    (retained_a s) (retained_b s) (basePayloadBytes s) (inodes s) (parentByInode s) (f (allocator s)).
Definition set_nextInodeId (n : Z) (s : VfsState) : VfsState :=
  mkState (generation s) n (rootInodeId s) (extentSize s) (activeMetadataFile s)
    (retained_a s) (retained_b s) (basePayloadBytes s) (inodes s) (parentByInode s) (allocator s).
Definition set_basePayloadBytes (n : Z) (s : VfsState) : VfsState :=
  mkState (generation s) (nextInodeId s) (rootInodeId s) (extentSize s) (activeMetadataFile s)
    (retained_a s) (retained_b s) n (inodes s) (parentByInode s) (allocator s).

Definition set_totalExtents (n : Z) (a : AllocatorState) : AllocatorState :=
  mkAllocator n (ownedBy a) (available a) (quarantine a).
Definition set_ownedBy (f : gmap Z Z -> gmap Z Z) (a : AllocatorState) : AllocatorState :=
  mkAllocator (totalExtents a) (f (ownedBy a)) (available a) (quarantine a).
Definition set_available (f : ExtentSet.t -> ExtentSet.t) (a : AllocatorState) : AllocatorState :=
  mkAllocator (totalExtents a) (ownedBy a) (f (available a)) (quarantine a).
Definition set_quarantine (f : list (Z * option Z) -> list (Z * option Z)) (a : AllocatorState)
  : AllocatorState :=
  mkAllocator (totalExtents a) (ownedBy a) (available a) (f (quarantine a)).

Definition set_kind (f : InodeKind -> InodeKind) (i : Inode) : Inode :=
  mkInode (inode_id i) (inode_mode i) (atimeMs i) (mtimeMs i) (ctimeMs i) (f (inode_kind i)).
Definition set_mode (mode : Z) (i : Inode) : Inode :=
  mkInode (inode_id i) mode (atimeMs i) (mtimeMs i) (ctimeMs i) (inode_kind i).
Definition set_atime (t : Z) (i : Inode) : Inode :=
  mkInode (inode_id i) (inode_mode i) t (mtimeMs i) (ctimeMs i) (inode_kind i).
Definition set_mtime (t : Z) (i : Inode) : Inode :=
  mkInode (inode_id i) (inode_mode i) (atimeMs i) t (ctimeMs i) (inode_kind i).
Definition set_ctime (t : Z) (i : Inode) : Inode :=
  mkInode (inode_id i) (inode_mode i) (atimeMs i) (mtimeMs i) t (inode_kind i).

(** [inode.children.set(name, id)] and [inode.children.delete(name)] on a directory. *)
Definition on_children (f : Children -> Children) : Inode -> Inode :=
  set_kind (fun k => match k with Directory c => Directory (f c) | k => k end).

(** ** Transaction records *)

Record CreateDirectoryChoice : Type := mkDirChoice {
  cd_parentId : Z;
  cd_name : jsstr;
  cd_inodeId : Z;
  cd_mode : Z;
  cd_atimeMs : Z;
  cd_mtimeMs : Z;
  cd_ctimeMs : Z
}.

Record ExtentRun : Type := mkRun { run_start : Z; run_count : Z }.

Inductive ResizeOperation : Type := OpTruncate | OpWrite.

Inductive TxnRecord : Type :=
| CreateDirectories (entries : list CreateDirectoryChoice)
| CreateFile (parentId : Z) (name : jsstr) (inodeId mode atimeMs mtimeMs ctimeMs size : Z)
    (extents : list ExtentRun)
| RemoveFile (parentId : Z) (name : jsstr) (parentMtimeMs parentCtimeMs : Z)
| ChangeMode (inodeId mode ctimeMs : Z)
| ChangeTimes (inodeId atimeMs mtimeMs ctimeMs : Z)
| ResizeFile (operation : ResizeOperation) (inodeId size : Z) (allocated : list ExtentRun)
    (mtimeMs ctimeMs : Z)
| RemoveDirectory (parentId : Z) (name : jsstr) (parentMtimeMs parentCtimeMs : Z)
| Rename (sourceParentId : Z) (sourceName : jsstr) (destinationParentId : Z)
    (destinationName : jsstr) (timestampMs : Z)
| CreateSymlink (parentId : Z) (name : jsstr) (inodeId mode atimeMs mtimeMs ctimeMs : Z)
    (target : jsstr)
| ReserveQuarantine (extents : list ExtentRun).

#[global] Instance CreateDirectoryChoice_eq_dec : EqDecision CreateDirectoryChoice.
Proof. solve_decision. Defined.
#[global] Instance ExtentRun_eq_dec : EqDecision ExtentRun.
Proof. solve_decision. Defined.
#[global] Instance ResizeOperation_eq_dec : EqDecision ResizeOperation.
Proof. solve_decision. Defined.
#[global] Instance TxnRecord_eq_dec : EqDecision TxnRecord.
Proof. solve_decision. Defined.

Record PreflightLimits : Type := mkPreflight {
  maxFramePayloadBytes : Z;
  maxBasePayloadBytes : Z
}.
