(* ===== verification/Lookup.v ===== *)
(** * Lookups, size accounting, extent runs and path resolution

    The read-only functions of [packages/pgwasm/src/opfs/core/state-machine.ts]. *)

From S2P Require Export State.

(** ** Size accounting of the canonical encoding *)

Definition BASE_STATE_FIXED_BYTES : Z := 20.
Definition DIRECTORY_INODE_FIXED_BYTES : Z := 41.
Definition FILE_INODE_FIXED_BYTES : Z := 49.
Definition SYMLINK_INODE_FIXED_BYTES : Z := 39.
Definition CHILD_FIXED_BYTES : Z := 10.
Definition SYMLINK_MODE : Z := 0xa1ff.

Definition childBaseBytes (name : jsstr) : R Z :=
  n ← encodedUtf8Length name; Ok (CHILD_FIXED_BYTES + n).

Definition inodeBaseBytes (inode : Inode) : R Z :=
  match inode_kind inode with
  | File _ extents => Ok (FILE_INODE_FIXED_BYTES + Z.of_nat (length extents) * 8)
  | Symlink target => n ← encodedUtf8Length target; Ok (SYMLINK_INODE_FIXED_BYTES + n)
  | Directory children =>
      foldM (fun bytes name => n ← childBaseBytes name; Ok (bytes + n))
        DIRECTORY_INODE_FIXED_BYTES (map_to_list children).*1
  end.

Definition estimateMetadataBasePayloadBytes (s : VfsState) : R Z :=
  bytes ← foldM (fun bytes inode => n ← inodeBaseBytes inode; Ok (bytes + n))
            BASE_STATE_FIXED_BYTES (map_to_list (inodes s)).*2;
  Ok (bytes + ExtentSet.size (available (allocator s)) * 8
      + Z.of_nat (length (quarantine (allocator s))) * 16).

Definition extentRunsPayloadBytes (runs : list ExtentRun) : Z := 4 + Z.of_nat (length runs) * 12.

Definition estimateTxnPayloadBytes (record : TxnRecord) : R Z :=
  match record with
  | CreateDirectories entries =>
      bytes ← foldM (fun bytes entry =>
                n ← encodedUtf8Length (cd_name entry); Ok (bytes + 8 + 2 + n + 8 + 4 + 24)) 0 entries;
      Ok (5 + bytes)
  | CreateFile _ name _ _ _ _ _ _ extents =>
      n ← encodedUtf8Length name;
      Ok (1 + 8 + 2 + n + 8 + 4 + 24 + 8 + extentRunsPayloadBytes extents)
  | RemoveFile _ name _ _ | RemoveDirectory _ name _ _ =>
      n ← encodedUtf8Length name; Ok (1 + 8 + 2 + n + 16)
  | ChangeMode _ _ _ => Ok (1 + 8 + 4 + 8)
  | ChangeTimes _ _ _ _ => Ok (1 + 8 + 24)
  | ResizeFile _ _ _ allocated _ _ => Ok (1 + 1 + 8 + 8 + extentRunsPayloadBytes allocated + 16)
  | Rename _ sourceName _ destinationName _ =>
      n ← encodedUtf8Length sourceName;
      m ← encodedUtf8Length destinationName;
      Ok (1 + 8 + 2 + n + 8 + 2 + m + 8)
  | CreateSymlink _ name _ _ _ _ _ target =>
      n ← encodedUtf8Length name;
      m ← encodedUtf8Length target;
      Ok (1 + 8 + 2 + n + 8 + 4 + 24 + 2 + m)
  | ReserveQuarantine extents => Ok (1 + extentRunsPayloadBytes extents)
  end.

(** ** Inode lookups *)

(** A directory reached through its key: the id it carries and its entries. *)
Record DirectoryInode : Type := mkDirectory { dir_id : Z; dir_children : Children }.

Definition directoryById (s : VfsState) (inodeId : Z) : R DirectoryInode :=
  inode ← or_throw (inodes s !! inodeId) (FsError ENOENT);
  match inode_kind inode with
  | Directory children => Ok (mkDirectory (inode_id inode) children)
  | _ => Throw (FsError ENOTDIR)
  end.

Definition inodeById (s : VfsState) (inodeId : Z) : R Inode :=
  or_throw (inodes s !! inodeId) (FsError ENOENT).

Definition fileById (s : VfsState) (inodeId : Z) : R FileInode :=
  inode ← inodeById s inodeId;
  match inode_kind inode with
  | File size extents => Ok (mkFileInode inode size extents)
  | _ => Throw (FsError EISDIR)
  end.

(** [inodeId === undefined ? undefined : state.inodes.get(inodeId)] for a directory entry. *)
Definition entryInode (s : VfsState) (children : Children) (name : jsstr) : option Inode :=
  children !! name ≫= fun inodeId => inodes s !! inodeId.

Definition joinPath (base : jsstr) (rest : list jsstr) : jsstr :=
  match rest with
  | [] => base
  | _ => if bool_decide (base = [SLASH]) then SLASH :: js_join rest
         else base ++ SLASH :: js_join rest
  end.

Definition parentAndName (s : VfsState) (path : jsstr) : R (DirectoryInode * jsstr) :=
  components ← parsePath path;
  name ← or_throw (last components) (FsError EINVAL);
  root ← directoryById s (rootInodeId s);
  parent ← foldM (fun parent component =>
             childId ← or_throw (dir_children parent !! component) (FsError ENOENT);
             directoryById s childId) root (removelast components);
  Ok (parent, name).

Definition getInodeAtPath (s : VfsState) (path : jsstr) : R Inode :=
  components ← parsePath path;
  root ← or_throw (inodes s !! rootInodeId s) StoreLimitError;
  foldM (fun inode component =>
    match inode_kind inode with
    | Directory children =>
        childId ← or_throw (children !! component) (FsError ENOENT);
        or_throw (inodes s !! childId) StoreLimitError
    | _ => Throw (FsError ENOTDIR)
    end) root components.

(** ** Extents *)

Definition extentCountForSize (size extentSize : Z) : R Z :=
  checkedU64 size ≫= fun _ =>
  if size =? 0 then Ok 0
  else
    let count := (size + extentSize - 1) / extentSize in
    throw_if (MAX_EXTENTS_PER_INODE <? count) StoreLimitError ≫= fun _ =>
    Ok count.

(** One iteration of the loop of [toExtentRuns]. *)
Definition pushExtent (runs : list ExtentRun) (extentId : Z) : R (list ExtentRun) :=
  checkedU64 extentId ≫= fun _ =>
  match last runs with
  | Some lst =>
      if (run_start lst + run_count lst =? extentId) && (run_count lst <? 0xffffffff)
      then Ok (removelast runs ++ [mkRun (run_start lst) (run_count lst + 1)])
      else Ok (runs ++ [mkRun extentId 1])
  | None => Ok (runs ++ [mkRun extentId 1])
  end.

Definition toExtentRuns (extents : list Z) : R (list ExtentRun) := foldM pushExtent [] extents.

Definition expandExtentRuns (runs : list ExtentRun) (maximum : Z) : R (list Z) :=
  foldM (fun extents run =>
    checkedU64 (run_start run) ≫= fun _ =>
    throw_if (negb (isSafeInteger (run_count run)) || (run_count run <=? 0)) (FsError EINVAL)
      ≫= fun _ =>
    throw_if (maximum <? Z.of_nat (length extents) + run_count run) StoreLimitError ≫= fun _ =>
    ids ← mapR (fun offset => checkedAdd (run_start run) offset) (seqZ 0 (run_count run));
    Ok (extents ++ ids)) [] runs.

Definition chooseExtents (s : VfsState) (count : Z) : R (list Z) :=
  throw_if (MAX_EXTENTS_PER_INODE <? count) StoreLimitError ≫= fun _ =>
  let a := allocator s in
  let availableCount := Z.min count (ExtentSet.size (available a)) in
  chosen ← ExtentSet.peekLast (available a) availableCount;
  let freshCount := count - availableCount in
  throw_if (MAX_TOTAL_EXTENTS <? totalExtents a + freshCount) StoreLimitError ≫= fun _ =>
  Ok (chosen ++ ((fun offset => totalExtents a + offset) <$> seqZ 0 freshCount)).

(** ** Symbolic links *)

(** The walk of [resolveLinks] up to the next link it must follow. *)
Inductive WalkResult : Type :=
| WalkDone (resolved rest : list jsstr)
| WalkHop (target : jsstr) (rest : list jsstr).

Fixpoint walkLinks (s : VfsState) (follow : bool) (current : Inode) (resolved pending : list jsstr)
  : R WalkResult :=
  match pending with
  | [] => Ok (WalkDone resolved [])
  | name :: rest =>
      match inode_kind current with
      | Directory children =>
          match children !! name with
          | None => Ok (WalkDone resolved pending)
          | Some childId =>
              child ← or_throw (inodes s !! childId) StoreLimitError;
              match inode_kind child with
              | Symlink target =>
                  if follow || negb (bool_decide (rest = [])) then Ok (WalkHop target rest)
                  else walkLinks s follow child (resolved ++ [name]) rest
              | _ => walkLinks s follow child (resolved ++ [name]) rest
              end
          end
      | _ => Ok (WalkDone resolved pending)
      end
  end.

(** [budget] is [MAX_SYMLINK_HOPS - hops]: a link met with none left is [ELOOP]. *)
Fixpoint resolveFrom (s : VfsState) (root : Inode) (follow : bool) (budget : nat)
  (pending : list jsstr) : R jsstr :=
  walked ← walkLinks s follow root [] pending;
  match walked with
  | WalkDone resolved rest => Ok (joinPath (SLASH :: js_join resolved) rest)
  | WalkHop target rest =>
      match budget with
      | O => Throw (FsError ELOOP)
      | S budget =>
          pending ← parsePath (joinPath target rest);
          resolveFrom s root follow budget pending
      end
  end.

Definition resolveLinks (s : VfsState) (path : jsstr) (follow : bool) : R jsstr :=
  root ← or_throw (inodes s !! rootInodeId s) StoreLimitError;
  pending ← parsePath path;
  resolveFrom s root follow (Z.to_nat MAX_SYMLINK_HOPS) pending.

(** ** The directory tree *)

(** [directoryContains(directory, candidateId)]: the recursion follows the tree; [treeFuel] is more
    than the number of inodes, which bounds its depth in every cycle-free tree. *)
Fixpoint directoryContains (fuel : nat) (s : VfsState) (directory : DirectoryInode)
  (candidateId : Z) : R bool :=
  match fuel with
  | O => Throw FuelExhausted
  | S fuel =>
      if dir_id directory =? candidateId then Ok true
      else
        anyM (fun childId =>
          child ← inodeById s childId;
          match inode_kind child with
          | Directory children =>
              directoryContains fuel s (mkDirectory (inode_id child) children) candidateId
          | _ => Ok false
          end) (map_to_list (dir_children directory)).*2
  end.

Definition treeFuel (s : VfsState) : nat := (size (inodes s) + Z.to_nat MAX_PATH_DEPTH + 2)%nat.

Record PathMetrics : Type := mkMetrics { depth : Z; bytes : Z }.

Definition childPathMetrics (parent : PathMetrics) (name : jsstr) : R PathMetrics :=
  n ← encodedUtf8Length name;
  Ok (mkMetrics (depth parent + 1) (bytes parent + (if depth parent =? 0 then 0 else 1) + n)).

(** The loop of [findPathMetrics]. Every iteration adds a key of [parentByInode] to [visited], so
    [S (size parentByInode)] iterations are enough. *)
Fixpoint climb (fuel : nat) (s : VfsState) (visited : gset Z) (currentId depth componentBytes : Z)
  : R PathMetrics :=
  if currentId =? rootInodeId s
  then Ok (mkMetrics depth (1 + componentBytes + Z.max 0 (depth - 1)))
  else
    match fuel with
    | O => Throw FuelExhausted
    | S fuel =>
        throw_if (bool_decide (currentId ∈ visited)) StoreLimitError ≫= fun _ =>
        entry ← or_throw (parentByInode s !! currentId) StoreLimitError;
        n ← encodedUtf8Length entry.2;
        climb fuel s ({[currentId]} ∪ visited) entry.1 (depth + 1) (componentBytes + n)
    end.

Definition findPathMetrics (s : VfsState) (targetId : Z) : R PathMetrics :=
  climb (S (S (size (parentByInode s)))) s ∅ targetId 0 0.

(** [visit] of [validateRenamedSubtreeBounds]. The depth check stops it below
    [MAX_PATH_DEPTH + 1] levels, which is the fuel it is given. *)
Fixpoint visitBounds (fuel : nat) (s : VfsState) (inode : Inode) (metrics : PathMetrics) : R unit :=
  match fuel with
  | O => Throw FuelExhausted
  | S fuel =>
      throw_if (MAX_PATH_DEPTH <? depth metrics) (FsError EINVAL) ≫= fun _ =>
      throw_if (MAX_PATH_BYTES <? bytes metrics) (FsError EINVAL) ≫= fun _ =>
      match inode_kind inode with
      | Directory children =>
          foldM (fun _ '(name, childId) =>
            child ← inodeById s childId;
            m ← childPathMetrics metrics name;
            visitBounds fuel s child m) tt (map_to_list children)
      | _ => Ok tt
      end
  end.

Definition boundsFuel : nat := Z.to_nat (MAX_PATH_DEPTH + 2).

Definition validateRenamedSubtreeBounds (s : VfsState) (source : Inode)
  (destinationParent : DirectoryInode) (destinationName : jsstr) : R unit :=
  destinationMetrics ← findPathMetrics s (dir_id destinationParent);
  m ← childPathMetrics destinationMetrics destinationName;
  visitBounds boundsFuel s source m.

Definition is_directory (inode : Inode) : bool :=
  match inode_kind inode with Directory _ => true | _ => false end.

Definition validateRenameTypes (source : Inode) (destination : option Inode) : R unit :=
  match destination with
  | None => Ok tt
  | Some destination =>
      throw_if (negb (is_directory source) && is_directory destination) (FsError EISDIR) ≫= fun _ =>
      throw_if (is_directory source && negb (is_directory destination)) (FsError ENOTDIR) ≫= fun _ =>
      match inode_kind destination with
      | Directory children => throw_if (negb (bool_decide (children = ∅))) (FsError ENOTEMPTY)
      | _ => Ok tt
      end
  end.
