(* ===== verification/Plan.v ===== *)
(** * Preflight and planners

    [preflightTxn] and the [plan*] functions of
    [packages/pgwasm/src/opfs/core/state-machine.ts]: each turns a request into the transaction
    record that will be logged, or rejects it without touching the state. *)

From S2P Require Export Lookup.

(** ** Preflight *)

Definition selectedExtentsAlreadyAvailable (s : VfsState) (runs : list ExtentRun) : R Z :=
  extents ← expandExtentRuns runs MAX_EXTENTS_PER_INODE;
  Ok (Z.of_nat (length (filter (fun e => e < totalExtents (allocator s)) extents))).

Definition projectedBaseDelta (s : VfsState) (record : TxnRecord) : R Z :=
  match record with
  | CreateDirectories entries =>
      foldM (fun bytes entry =>
        n ← childBaseBytes (cd_name entry); Ok (bytes + DIRECTORY_INODE_FIXED_BYTES + n)) 0 entries
  | CreateFile _ name _ _ _ _ _ _ extents =>
      ids ← expandExtentRuns extents MAX_EXTENTS_PER_INODE;
      reused ← selectedExtentsAlreadyAvailable s extents;
      n ← childBaseBytes name;
      Ok (FILE_INODE_FIXED_BYTES + Z.of_nat (length ids) * 8 + n - reused * 8)
  | RemoveFile parentId name _ _ =>
      parent ← directoryById s parentId;
      inode ← or_throw (entryInode s (dir_children parent) name) (FsError ENOENT);
      throw_if (is_directory inode) (FsError ENOENT) ≫= fun _ =>
      let quarantined :=
        match inode_kind inode with File _ extents => Z.of_nat (length extents) * 16 | _ => 0 end in
      b ← inodeBaseBytes inode;
      n ← childBaseBytes name;
      Ok (- b - n + quarantined)
  | ChangeMode _ _ _ | ChangeTimes _ _ _ _ => Ok 0
  | ResizeFile _ inodeId size allocated _ _ =>
      f ← fileById s inodeId;
      required ← extentCountForSize size (extentSize s);
      let len := Z.of_nat (length (file_extents f)) in
      let allocatedCount := Z.max 0 (required - len) in
      let releasedCount := Z.max 0 (len - required) in
      reused ← selectedExtentsAlreadyAvailable s allocated;
      Ok ((allocatedCount - releasedCount) * 8 - reused * 8 + releasedCount * 16)
  | RemoveDirectory parentId name _ _ =>
      parent ← directoryById s parentId;
      inode ← or_throw (entryInode s (dir_children parent) name) (FsError ENOENT);
      throw_if (negb (is_directory inode)) (FsError ENOENT) ≫= fun _ =>
      b ← inodeBaseBytes inode;
      n ← childBaseBytes name;
      Ok (- b - n)
  | Rename sourceParentId sourceName destinationParentId destinationName _ =>
      sourceParent ← directoryById s sourceParentId;
      destinationParent ← directoryById s destinationParentId;
      n ← childBaseBytes sourceName;
      delta ←
        match entryInode s (dir_children destinationParent) destinationName with
        | None => m ← childBaseBytes destinationName; Ok (- n + m)
        | Some destination =>
            b ← inodeBaseBytes destination;
            Ok (- n - b +
                match inode_kind destination with
                | File _ extents => Z.of_nat (length extents) * 16
                | _ => 0
                end)
        end;
      or_throw (dir_children sourceParent !! sourceName) (FsError ENOENT) ≫= fun _ =>
      Ok delta
  | CreateSymlink _ name _ _ _ _ _ target =>
      n ← encodedUtf8Length target;
      m ← childBaseBytes name;
      Ok (SYMLINK_INODE_FIXED_BYTES + n + m)
  | ReserveQuarantine extents =>
      ids ← expandExtentRuns extents MAX_EXTENTS_PER_INODE;
      reused ← selectedExtentsAlreadyAvailable s extents;
      Ok (Z.of_nat (length ids) * 16 - reused * 8)
  end.

Definition defaultLimits : PreflightLimits :=
  mkPreflight MAX_FRAME_PAYLOAD_BYTES MAX_METADATA_BASE_WRITER_BYTES.

Definition preflightTxnWith (limits : PreflightLimits) (s : VfsState) (record : TxnRecord) : R Z :=
  payloadBytes ← estimateTxnPayloadBytes record;
  throw_if (maxFramePayloadBytes limits <? payloadBytes) StoreLimitError ≫= fun _ =>
  delta ← projectedBaseDelta s record;
  let projected := basePayloadBytes s + delta in
  throw_if (negb (isSafeInteger projected) || (projected <? 0)
            || (maxBasePayloadBytes limits <? projected)) StoreLimitError ≫= fun _ =>
  Ok projected.

Definition preflightTxn : VfsState -> TxnRecord -> R Z := preflightTxnWith defaultLimits.

(** The projection is bound to the exact state and record that were preflighted. *)
Record PreparedTxnProjection : Type := mkPrepared {
  projectedBasePayloadBytes : Z;
  prepared_state : VfsState;
  prepared_record : TxnRecord
}.

Definition prepareTxnProjection (s : VfsState) (record : TxnRecord) : R PreparedTxnProjection :=
  projected ← preflightTxn s record; Ok (mkPrepared projected s record).

Definition checkedPlan (s : VfsState) (record : TxnRecord) : R TxnRecord :=
  preflightTxn s record ≫= fun _ => Ok record.

(** ** The empty store *)

Definition DEFAULT_DIRECTORY_MODE : Z := 0x41ff.
Definition DEFAULT_FILE_MODE : Z := 0x81b6.

Definition createInitialState (extentSize : Z) : R VfsState :=
  validateExtentSize extentSize ≫= fun _ =>
  let root := mkInode 1 DEFAULT_DIRECTORY_MODE 0 0 0 (Directory ∅) in
  Ok (mkState 1 2 1 extentSize MetaA (Some 1) None
        (BASE_STATE_FIXED_BYTES + DIRECTORY_INODE_FIXED_BYTES)
        {[1 := root]} ∅
        (mkAllocator 0 ∅ ExtentSet.empty [])).

(** ** Validators *)

Definition validateMode (mode : Z) : R Z :=
  if negb (isSafeInteger mode) || (mode <? 0) || (0xffffffff <? mode)
  then Throw (FsError EINVAL) else Ok mode.

Definition validateTimestamp (timestamp : Z) : R Z := checkedU64 timestamp.

Definition advanceNextInodeId (inodeId : Z) : R Z :=
  throw_if (inodeId =? MAX_U64) StoreLimitError ≫= fun _ => checkedAdd inodeId 1.

(** ** Planners *)

(** The loop of [planMkdir] over the remaining components. *)
Fixpoint mkdirEntries (s : VfsState) (recursive : bool) (mode nowMs : Z)
  (parent : DirectoryInode) (nextInodeId : Z) (entries : list CreateDirectoryChoice)
  (components : list jsstr) : R (list CreateDirectoryChoice) :=
  match components with
  | [] => Ok entries
  | name :: rest =>
      match dir_children parent !! name with
      | Some existingId =>
          match inodes s !! existingId with
          | Some (mkInode id _ _ _ _ (Directory children)) =>
              throw_if (bool_decide (rest = [])) (FsError EEXIST) ≫= fun _ =>
              mkdirEntries s recursive mode nowMs (mkDirectory id children) nextInodeId entries rest
          | _ => Throw (FsError ENOTDIR)
          end
      | None =>
          throw_if (negb recursive && negb (bool_decide (rest = []))) (FsError ENOENT) ≫= fun _ =>
          throw_if (MAX_INODES <=? Z.of_nat (size (inodes s)) + Z.of_nat (length entries))
            StoreLimitError ≫= fun _ =>
          checkedU64 nextInodeId ≫= fun _ =>
          followingInodeId ← advanceNextInodeId nextInodeId;
          let entry := mkDirChoice (dir_id parent) name nextInodeId mode nowMs nowMs nowMs in
          mkdirEntries s recursive mode nowMs (mkDirectory nextInodeId ∅) followingInodeId
            (entries ++ [entry]) rest
      end
  end.

Definition planMkdir (s : VfsState) (path : jsstr) (recursive : bool) (mode : option Z)
  (nowMs : Z) : R TxnRecord :=
  components ← parsePath path;
  throw_if (bool_decide (components = [])) (FsError EEXIST) ≫= fun _ =>
  mode ← validateMode (default DEFAULT_DIRECTORY_MODE mode);
  nowMs ← validateTimestamp nowMs;
  root ← directoryById s (rootInodeId s);
  entries ← mkdirEntries s recursive mode nowMs root (nextInodeId s) [] components;
  throw_if (bool_decide (entries = [])) (FsError EEXIST) ≫= fun _ =>
  checkedPlan s (CreateDirectories entries).

Definition planCreateFile (s : VfsState) (path : jsstr) (mode : option Z) (nowMs : Z)
  (size : option Z) : R TxnRecord :=
  '(parent, name) ← parentAndName s path;
  throw_if (bool_decide (is_Some (dir_children parent !! name))) (FsError EEXIST) ≫= fun _ =>
  throw_if (MAX_INODES <=? Z.of_nat (base.size (inodes s))) StoreLimitError ≫= fun _ =>
  inodeId ← checkedU64 (nextInodeId s);
  advanceNextInodeId inodeId ≫= fun _ =>
  mode ← validateMode (default DEFAULT_FILE_MODE mode);
  nowMs ← validateTimestamp nowMs;
  size ← checkedU64 (default 0 size);
  count ← extentCountForSize size (extentSize s);
  chosen ← chooseExtents s count;
  extents ← toExtentRuns chosen;
  checkedPlan s (CreateFile (dir_id parent) name inodeId mode nowMs nowMs nowMs size extents).

Definition planSymlink (s : VfsState) (path target : jsstr) (mode : option Z) (nowMs : Z)
  : R TxnRecord :=
  '(parent, name) ← parentAndName s path;
  throw_if (bool_decide (is_Some (dir_children parent !! name))) (FsError EEXIST) ≫= fun _ =>
  throw_if (MAX_INODES <=? Z.of_nat (size (inodes s))) StoreLimitError ≫= fun _ =>
  validateSymlinkTarget target ≫= fun _ =>
  inodeId ← checkedU64 (nextInodeId s);
  advanceNextInodeId inodeId ≫= fun _ =>
  nowMs ← validateTimestamp nowMs;
  mode ← validateMode (default SYMLINK_MODE mode);
  checkedPlan s (CreateSymlink (dir_id parent) name inodeId mode nowMs nowMs nowMs target).

Definition planUnlink (s : VfsState) (path : jsstr) (nowMs : Z) : R TxnRecord :=
  '(parent, name) ← parentAndName s path;
  inode ← or_throw (entryInode s (dir_children parent) name) (FsError ENOENT);
  throw_if (is_directory inode) (FsError EISDIR) ≫= fun _ =>
  timestamp ← validateTimestamp nowMs;
  checkedPlan s (RemoveFile (dir_id parent) name timestamp timestamp).

Definition planChmod (s : VfsState) (path : jsstr) (mode nowMs : Z) : R TxnRecord :=
  inode ← getInodeAtPath s path;
  mode ← validateMode mode;
  ctimeMs ← validateTimestamp nowMs;
  checkedPlan s (ChangeMode (inode_id inode) mode ctimeMs).

Definition planUtimes (s : VfsState) (path : jsstr) (atimeMs mtimeMs ctimeMs : Z) : R TxnRecord :=
  inode ← getInodeAtPath s path;
  atimeMs ← validateTimestamp atimeMs;
  mtimeMs ← validateTimestamp mtimeMs;
  ctimeMs ← validateTimestamp ctimeMs;
  checkedPlan s (ChangeTimes (inode_id inode) atimeMs mtimeMs ctimeMs).

Definition planResizeFileForInode (s : VfsState) (inode : FileInode) (size nowMs : Z)
  (operation : ResizeOperation) : R TxnRecord :=
  throw_if (negb (bool_decide (inodes s !! inode_id (file_inode inode) = Some (file_inode inode))))
    StoreLimitError ≫= fun _ =>
  checkedSize ← checkedU64 size;
  required ← extentCountForSize checkedSize (extentSize s);
  let additional := Z.max 0 (required - Z.of_nat (length (file_extents inode))) in
  timestamp ← validateTimestamp nowMs;
  chosen ← chooseExtents s additional;
  allocated ← toExtentRuns chosen;
  checkedPlan s (ResizeFile operation (inode_id (file_inode inode)) checkedSize allocated
                   timestamp timestamp).

Definition planResizeFile (s : VfsState) (path : jsstr) (size nowMs : Z)
  (operation : ResizeOperation) : R TxnRecord :=
  inode ← getInodeAtPath s path;
  match inode_kind inode with
  | File fsize extents => planResizeFileForInode s (mkFileInode inode fsize extents) size nowMs operation
  | _ => Throw (FsError EISDIR)
  end.

Definition planRmdir (s : VfsState) (path : jsstr) (nowMs : Z) : R TxnRecord :=
  '(parent, name) ← parentAndName s path;
  inode ← or_throw (entryInode s (dir_children parent) name) (FsError ENOENT);
  match inode_kind inode with
  | Directory children =>
      throw_if (negb (bool_decide (children = ∅))) (FsError ENOTEMPTY) ≫= fun _ =>
      timestamp ← validateTimestamp nowMs;
      checkedPlan s (RemoveDirectory (dir_id parent) name timestamp timestamp)
  | _ => Throw (FsError ENOTDIR)
  end.

(** [destinationId === undefined ? undefined : inodeById(state, destinationId)] *)
Definition optionalInode (s : VfsState) (inodeId : option Z) : R (option Inode) :=
  match inodeId with
  | None => Ok None
  | Some inodeId => inode ← inodeById s inodeId; Ok (Some inode)
  end.

(** [source.kind === "directory" && directoryContains(source, parentId)] *)
Definition movesIntoItself (s : VfsState) (source : Inode) (parentId : Z) : R bool :=
  match inode_kind source with
  | Directory children =>
      directoryContains (treeFuel s) s (mkDirectory (inode_id source) children) parentId
  | _ => Ok false
  end.

Definition planRename (s : VfsState) (oldPath newPath : jsstr) (nowMs : Z) : R TxnRecord :=
  throw_if (bool_decide (oldPath = newPath)) (FsError EINVAL) ≫= fun _ =>
  '(sourceParent, sourceName) ← parentAndName s oldPath;
  '(destinationParent, destinationName) ← parentAndName s newPath;
  sourceId ← or_throw (dir_children sourceParent !! sourceName) (FsError ENOENT);
  source ← inodeById s sourceId;
  destination ← optionalInode s (dir_children destinationParent !! destinationName);
  validateRenameTypes source destination ≫= fun _ =>
  inside ← movesIntoItself s source (dir_id destinationParent);
  throw_if inside (FsError EINVAL) ≫= fun _ =>
  validateRenamedSubtreeBounds s source destinationParent destinationName ≫= fun _ =>
  timestampMs ← validateTimestamp nowMs;
  checkedPlan s (Rename (dir_id sourceParent) sourceName (dir_id destinationParent) destinationName
                   timestampMs).

Definition planReserveQuarantine (s : VfsState) (count : Z) : R TxnRecord :=
  throw_if (negb (isSafeInteger count) || (count <=? 0) || (MAX_EXTENTS_PER_INODE <? count))
    StoreLimitError ≫= fun _ =>
  chosen ← chooseExtents s count;
  extents ← toExtentRuns chosen;
  checkedPlan s (ReserveQuarantine extents).
