(* ===== verification/Reduce.v ===== *)
(** * The reducer

    [applyTxn] and the functions it dispatches to, from
    [packages/pgwasm/src/opfs/core/state-machine.ts]. The state is mutated in place and an
    exception keeps what was already written, so the reducers run in [M VfsState]. *)

From S2P Require Export Plan.

(** ** Validation of a directory chain *)

(** [stagedDirectory]: the staged copy when there is one, otherwise the live entries. *)
Definition stagedChildren (s : VfsState) (staged : gmap Z Children) (inodeId : Z) : R Children :=
  match staged !! inodeId with
  | Some children => Ok children
  | None => existing ← directoryById s inodeId; Ok (dir_children existing)
  end.

Definition stageDirectory (s : VfsState) (acc : gmap Z Children * Z) (entry : CreateDirectoryChoice)
  : R (gmap Z Children * Z) :=
  let '(staged, expectedInodeId) := acc in
  validatePathComponent (cd_name entry) ≫= fun _ =>
  validateMode (cd_mode entry) ≫= fun _ =>
  validateTimestamp (cd_atimeMs entry) ≫= fun _ =>
  validateTimestamp (cd_mtimeMs entry) ≫= fun _ =>
  validateTimestamp (cd_ctimeMs entry) ≫= fun _ =>
  throw_if (negb (cd_inodeId entry =? expectedInodeId) || (MAX_U64 <? cd_inodeId entry))
    (FsError EINVAL) ≫= fun _ =>
  parent ← stagedChildren s staged (cd_parentId entry);
  throw_if (bool_decide (is_Some (parent !! cd_name entry))) (FsError EEXIST) ≫= fun _ =>
  let staged := <[cd_parentId entry := <[cd_name entry := cd_inodeId entry]> parent]> staged in
  let staged := <[cd_inodeId entry := ∅]> staged in
  expectedInodeId ← advanceNextInodeId expectedInodeId;
  Ok (staged, expectedInodeId).

Definition validateCreateDirectories (s : VfsState) (entries : list CreateDirectoryChoice) : R unit :=
  throw_if (bool_decide (entries = [])) (FsError EINVAL) ≫= fun _ =>
  foldM (stageDirectory s) (∅, nextInodeId s) entries ≫= fun _ =>
  throw_if (MAX_INODES <? Z.of_nat (size (inodes s)) + Z.of_nat (length entries)) StoreLimitError.

(** ** Validation of extent choices *)

Definition assignExtent (s : VfsState) (nextFresh extentId : Z) : R Z :=
  if extentId <? totalExtents (allocator s) then
    throw_if (negb (ExtentSet.has (available (allocator s)) extentId)) (FsError EINVAL) ≫= fun _ =>
    Ok nextFresh
  else
    throw_if (negb (extentId =? nextFresh)) (FsError EINVAL) ≫= fun _ =>
    Ok (nextFresh + 1).

Definition validateExtentAssignment (s : VfsState) (runs : list ExtentRun) (expectedCount : Z)
  : R (list Z) :=
  extents ← expandExtentRuns runs MAX_EXTENTS_PER_INODE;
  throw_if (negb (Z.of_nat (length extents) =? expectedCount)) (FsError EINVAL) ≫= fun _ =>
  throw_if (negb (Nat.eqb (size (list_to_set extents : gset Z)) (length extents)))
    (FsError EINVAL) ≫= fun _ =>
  nextFresh ← foldM (assignExtent s) (totalExtents (allocator s)) extents;
  throw_if (MAX_TOTAL_EXTENTS <? nextFresh) StoreLimitError ≫= fun _ =>
  Ok extents.

(** ** Allocator mutations *)

Definition with_allocator (f : AllocatorState -> AllocatorState) : M VfsState unit :=
  st_modify (set_allocator f).

(** [if (id < totalExtents) available.delete(id) else totalExtents += 1] *)
Definition takeExtent (extentId : Z) : M VfsState unit :=
  s ← st_get;
  if extentId <? totalExtents (allocator s)
  then with_allocator (set_available (fun a => (ExtentSet.delete a extentId).1))
  else with_allocator (set_totalExtents (totalExtents (allocator s) + 1)).

Definition ownExtent (owner extentId : Z) : M VfsState unit :=
  takeExtent extentId ≫= fun _ =>
  with_allocator (set_ownedBy (insert extentId owner)).

Definition quarantineExtent (extentId : Z) : M VfsState unit :=
  with_allocator (set_quarantine (fun q => JsMap.set q extentId None)).

Definition releaseExtent (extentId : Z) : M VfsState unit :=
  with_allocator (set_ownedBy (delete extentId)) ≫= fun _ =>
  quarantineExtent extentId.

(** The ownership check made before extents are released. *)
Definition checkOwned (s : VfsState) (owner : Z) (extents : list Z) : R unit :=
  foldM (fun _ extentId =>
    throw_if (negb (bool_decide (ownedBy (allocator s) !! extentId = Some owner))
              || JsMap.has (quarantine (allocator s)) extentId) StoreLimitError) tt extents.

(** ** Inode mutations *)

Definition mutateInode (key : Z) (f : Inode -> Inode) : M VfsState unit :=
  st_modify (set_inodes (alter f key)).
Definition insertInode (key : Z) (inode : Inode) : M VfsState unit :=
  st_modify (set_inodes (insert key inode)).
Definition removeInode (key : Z) : M VfsState unit :=
  st_modify (set_inodes (delete key)).
Definition setParent (key : Z) (entry : Z * jsstr) : M VfsState unit :=
  st_modify (set_parents (insert key entry)).
Definition dropParent (key : Z) : M VfsState unit :=
  st_modify (set_parents (delete key)).

(** Run a check against the current state. *)
Definition checked {A} (f : VfsState -> R A) : M VfsState A :=
  s ← st_get; st_lift (f s).

(** ** Reducers *)

Definition applyCreateDirectory (entry : CreateDirectoryChoice) : M VfsState unit :=
  parent ← checked (fun s => directoryById s (cd_parentId entry));
  let created := mkInode (cd_inodeId entry) (cd_mode entry) (cd_atimeMs entry) (cd_mtimeMs entry)
                   (cd_ctimeMs entry) (Directory ∅) in
  mutateInode (cd_parentId entry) (on_children (insert (cd_name entry) (cd_inodeId entry))) ≫= fun _ =>
  insertInode (cd_inodeId entry) created ≫= fun _ =>
  setParent (cd_inodeId entry) (dir_id parent, cd_name entry) ≫= fun _ =>
  next ← st_lift (advanceNextInodeId (cd_inodeId entry));
  st_modify (set_nextInodeId next).

Definition applyCreateDirectories (entries : list CreateDirectoryChoice) : M VfsState unit :=
  checked (fun s => validateCreateDirectories s entries) ≫= fun _ =>
  forM applyCreateDirectory entries.

Definition applyCreateFile (parentId : Z) (name : jsstr) (inodeId mode atimeMs mtimeMs ctimeMs size : Z)
  (runs : list ExtentRun) : M VfsState unit :=
  st_lift (validatePathComponent name) ≫= fun _ =>
  parent ← checked (fun s => directoryById s parentId);
  st_lift (throw_if (bool_decide (is_Some (dir_children parent !! name))) (FsError EEXIST)) ≫= fun _ =>
  checked (fun s => throw_if (negb (inodeId =? nextInodeId s)
                              || bool_decide (is_Some (inodes s !! inodeId))) (FsError EINVAL)) ≫= fun _ =>
  nextInodeId ← st_lift (advanceNextInodeId inodeId);
  st_lift (validateMode mode) ≫= fun _ =>
  st_lift (validateTimestamp atimeMs) ≫= fun _ =>
  st_lift (validateTimestamp mtimeMs) ≫= fun _ =>
  st_lift (validateTimestamp ctimeMs) ≫= fun _ =>
  size ← st_lift (checkedU64 size);
  extents ← checked (fun s => count ← extentCountForSize size (extentSize s);
                              validateExtentAssignment s runs count);
  checked (fun s => throw_if (MAX_INODES <=? Z.of_nat (base.size (inodes s))) StoreLimitError) ≫= fun _ =>
  let inode := mkInode inodeId mode atimeMs mtimeMs ctimeMs (File size extents) in
  forM (ownExtent inodeId) extents ≫= fun _ =>
  mutateInode parentId (on_children (insert name inodeId)) ≫= fun _ =>
  insertInode inodeId inode ≫= fun _ =>
  setParent inodeId (dir_id parent, name) ≫= fun _ =>
  st_modify (set_nextInodeId nextInodeId).

Definition applyRemoveFile (parentId : Z) (name : jsstr) (parentMtimeMs parentCtimeMs : Z)
  : M VfsState unit :=
  st_lift (validatePathComponent name) ≫= fun _ =>
  st_lift (validateTimestamp parentMtimeMs) ≫= fun _ =>
  st_lift (validateTimestamp parentCtimeMs) ≫= fun _ =>
  parent ← checked (fun s => directoryById s parentId);
  inode ← checked (fun s => or_throw (entryInode s (dir_children parent) name) (FsError ENOENT));
  st_lift (throw_if (is_directory inode) (FsError EISDIR)) ≫= fun _ =>
  let extents := match inode_kind inode with File _ extents => extents | _ => [] end in
  checked (fun s => checkOwned s (inode_id inode) extents) ≫= fun _ =>
  mutateInode parentId (on_children (delete name)) ≫= fun _ =>
  mutateInode parentId (set_mtime parentMtimeMs) ≫= fun _ =>
  mutateInode parentId (set_ctime parentCtimeMs) ≫= fun _ =>
  removeInode (inode_id inode) ≫= fun _ =>
  dropParent (inode_id inode) ≫= fun _ =>
  forM releaseExtent extents.

Definition applyCreateSymlink (parentId : Z) (name : jsstr) (inodeId mode atimeMs mtimeMs ctimeMs : Z)
  (target : jsstr) : M VfsState unit :=
  st_lift (validatePathComponent name) ≫= fun _ =>
  parent ← checked (fun s => directoryById s parentId);
  st_lift (throw_if (bool_decide (is_Some (dir_children parent !! name))) (FsError EEXIST)) ≫= fun _ =>
  checked (fun s => throw_if (negb (inodeId =? nextInodeId s)
                              || bool_decide (is_Some (inodes s !! inodeId))) (FsError EINVAL)) ≫= fun _ =>
  nextInodeId ← st_lift (advanceNextInodeId inodeId);
  st_lift (validateMode mode) ≫= fun _ =>
  st_lift (validateTimestamp atimeMs) ≫= fun _ =>
  st_lift (validateTimestamp mtimeMs) ≫= fun _ =>
  st_lift (validateTimestamp ctimeMs) ≫= fun _ =>
  st_lift (validateSymlinkTarget target) ≫= fun _ =>
  checked (fun s => throw_if (MAX_INODES <=? Z.of_nat (size (inodes s))) StoreLimitError) ≫= fun _ =>
  let inode := mkInode inodeId mode atimeMs mtimeMs ctimeMs (Symlink target) in
  mutateInode parentId (on_children (insert name inodeId)) ≫= fun _ =>
  insertInode inodeId inode ≫= fun _ =>
  setParent inodeId (dir_id parent, name) ≫= fun _ =>
  st_modify (set_nextInodeId nextInodeId).

Definition applyChangeMode (inodeId mode ctimeMs : Z) : M VfsState unit :=
  checked (fun s => inodeById s inodeId) ≫= fun _ =>
  mode ← st_lift (validateMode mode);
  ctimeMs ← st_lift (validateTimestamp ctimeMs);
  mutateInode inodeId (set_mode mode) ≫= fun _ =>
  mutateInode inodeId (set_ctime ctimeMs).

Definition applyChangeTimes (inodeId atimeMs mtimeMs ctimeMs : Z) : M VfsState unit :=
  checked (fun s => inodeById s inodeId) ≫= fun _ =>
  atimeMs ← st_lift (validateTimestamp atimeMs);
  mtimeMs ← st_lift (validateTimestamp mtimeMs);
  ctimeMs ← st_lift (validateTimestamp ctimeMs);
  mutateInode inodeId (set_atime atimeMs) ≫= fun _ =>
  mutateInode inodeId (set_mtime mtimeMs) ≫= fun _ =>
  mutateInode inodeId (set_ctime ctimeMs).

(** [retained.push(extentId)] is written into the inode by the assignment at the end. *)
Definition applyResizeFile (inodeId size : Z) (runs : list ExtentRun) (mtimeMs ctimeMs : Z)
  : M VfsState unit :=
  f ← checked (fun s => fileById s inodeId);
  let inode := file_inode f in
  size ← st_lift (checkedU64 size);
  required ← checked (fun s => extentCountForSize size (extentSize s));
  let len := Z.of_nat (length (file_extents f)) in
  let additionalCount := Z.max 0 (required - len) in
  allocated ← checked (fun s => validateExtentAssignment s runs additionalCount);
  let retained := if len <=? required then file_extents f else take (Z.to_nat required) (file_extents f) in
  let released := drop (Z.to_nat required) (file_extents f) in
  checked (fun s => checkOwned s (inode_id inode) released) ≫= fun _ =>
  mtimeMs ← st_lift (validateTimestamp mtimeMs);
  ctimeMs ← st_lift (validateTimestamp ctimeMs);
  forM (ownExtent (inode_id inode)) allocated ≫= fun _ =>
  forM releaseExtent released ≫= fun _ =>
  mutateInode inodeId (set_kind (fun _ => File size (retained ++ allocated))) ≫= fun _ =>
  mutateInode inodeId (set_mtime mtimeMs) ≫= fun _ =>
  mutateInode inodeId (set_ctime ctimeMs).

Definition applyRemoveDirectory (parentId : Z) (name : jsstr) (parentMtimeMs parentCtimeMs : Z)
  : M VfsState unit :=
  st_lift (validatePathComponent name) ≫= fun _ =>
  parent ← checked (fun s => directoryById s parentId);
  inode ← checked (fun s => or_throw (entryInode s (dir_children parent) name) (FsError ENOENT));
  st_lift (match inode_kind inode with
           | Directory children => throw_if (negb (bool_decide (children = ∅))) (FsError ENOTEMPTY)
           | _ => Throw (FsError ENOTDIR)
           end) ≫= fun _ =>
  mtimeMs ← st_lift (validateTimestamp parentMtimeMs);
  ctimeMs ← st_lift (validateTimestamp parentCtimeMs);
  mutateInode parentId (on_children (delete name)) ≫= fun _ =>
  mutateInode parentId (set_mtime mtimeMs) ≫= fun _ =>
  mutateInode parentId (set_ctime ctimeMs) ≫= fun _ =>
  removeInode (inode_id inode) ≫= fun _ =>
  dropParent (inode_id inode).

(** Unlinking what a rename replaces. *)
Definition removeReplaced (destinationParentId : Z) (destinationName : jsstr)
  (destination : option Inode) : M VfsState unit :=
  match destination with
  | None => mret tt
  | Some destination =>
      mutateInode destinationParentId (on_children (delete destinationName)) ≫= fun _ =>
      removeInode (inode_id destination) ≫= fun _ =>
      dropParent (inode_id destination) ≫= fun _ =>
      match inode_kind destination with
      | File _ extents => forM releaseExtent extents
      | _ => mret tt
      end
  end.

Definition checkReplaced (s : VfsState) (destination : option Inode) : R unit :=
  match destination with
  | Some (mkInode id _ _ _ _ (File _ extents)) => checkOwned s id extents
  | _ => Ok tt
  end.

Definition applyRename (sourceParentId : Z) (sourceName : jsstr) (destinationParentId : Z)
  (destinationName : jsstr) (timestampMs : Z) : M VfsState unit :=
  st_lift (validatePathComponent sourceName) ≫= fun _ =>
  st_lift (validatePathComponent destinationName) ≫= fun _ =>
  st_lift (throw_if ((sourceParentId =? destinationParentId)
                     && bool_decide (sourceName = destinationName)) (FsError EINVAL)) ≫= fun _ =>
  timestampMs ← st_lift (validateTimestamp timestampMs);
  sourceParent ← checked (fun s => directoryById s sourceParentId);
  destinationParent ← checked (fun s => directoryById s destinationParentId);
  sourceId ← st_lift (or_throw (dir_children sourceParent !! sourceName) (FsError ENOENT));
  source ← checked (fun s => inodeById s sourceId);
  destination ← checked (fun s => optionalInode s (dir_children destinationParent !! destinationName));
  st_lift (validateRenameTypes source destination) ≫= fun _ =>
  inside ← checked (fun s => movesIntoItself s source (dir_id destinationParent));
  st_lift (throw_if inside (FsError EINVAL)) ≫= fun _ =>
  checked (fun s => validateRenamedSubtreeBounds s source destinationParent destinationName) ≫= fun _ =>
  checked (fun s => checkReplaced s destination) ≫= fun _ =>
  mutateInode sourceParentId (on_children (delete sourceName)) ≫= fun _ =>
  removeReplaced destinationParentId destinationName destination ≫= fun _ =>
  mutateInode destinationParentId (on_children (insert destinationName (inode_id source))) ≫= fun _ =>
  setParent (inode_id source) (dir_id destinationParent, destinationName) ≫= fun _ =>
  mutateInode sourceId (set_ctime timestampMs) ≫= fun _ =>
  mutateInode sourceParentId (set_mtime timestampMs) ≫= fun _ =>
  mutateInode sourceParentId (set_ctime timestampMs) ≫= fun _ =>
  mutateInode destinationParentId (set_mtime timestampMs) ≫= fun _ =>
  mutateInode destinationParentId (set_ctime timestampMs).

Definition applyReserveQuarantine (runs : list ExtentRun) : M VfsState unit :=
  let declaredCount := foldr (fun run sum => run_count run + sum) 0 runs in
  st_lift (throw_if ((declaredCount <=? 0) || (MAX_EXTENTS_PER_INODE <? declaredCount))
             StoreLimitError) ≫= fun _ =>
  extents ← checked (fun s => validateExtentAssignment s runs declaredCount);
  forM (fun extentId => takeExtent extentId ≫= fun _ => quarantineExtent extentId) extents.

(** ** [applyTxn] *)

Definition reduceTxn (record : TxnRecord) : M VfsState unit :=
  match record with
  | CreateDirectories entries => applyCreateDirectories entries
  | CreateFile parentId name inodeId mode a m c size extents =>
      applyCreateFile parentId name inodeId mode a m c size extents
  | RemoveFile parentId name m c => applyRemoveFile parentId name m c
  | ChangeMode inodeId mode c => applyChangeMode inodeId mode c
  | ChangeTimes inodeId a m c => applyChangeTimes inodeId a m c
  | ResizeFile _ inodeId size allocated m c => applyResizeFile inodeId size allocated m c
  | RemoveDirectory parentId name m c => applyRemoveDirectory parentId name m c
  | Rename sp sn dp dn t => applyRename sp sn dp dn t
  | CreateSymlink parentId name inodeId mode a m c target =>
      applyCreateSymlink parentId name inodeId mode a m c target
  | ReserveQuarantine extents => applyReserveQuarantine extents
  end.

Definition applyTxn (record : TxnRecord) (prepared : option PreparedTxnProjection)
  : M VfsState unit :=
  checked (fun s =>
    match prepared with
    | Some p => throw_if (negb (bool_decide (prepared_state p = s))
                          || negb (bool_decide (prepared_record p = record))) StoreLimitError
    | None => Ok tt
    end) ≫= fun _ =>
  projected ← match prepared with
              | Some p => mret (projectedBasePayloadBytes p)
              | None => checked (fun s => preflightTxn s record)
              end;
  reduceTxn record ≫= fun _ =>
  st_modify (set_basePayloadBytes projected).
