(* ===== verification/Repack.v ===== *)
(** * State validation and repack projection

    [validateState], [projectRepack] and [projectRepackForActivation] of
    [packages/pgwasm/src/opfs/core/state-machine.ts]. *)

From S2P Require Export Reduce.

(** ** [validateState] *)

(** The variables the closures [classify] and [visit] update: [classified] is the set of marked
    array cells. *)
Record Scan : Type := mkScan {
  reached : gset Z;
  calculatedBasePayloadBytes : Z;
  classified : gset Z;
  classifiedCount : Z
}.

Definition classify (s : VfsState) (scan : Scan) (extentId : Z) : R Scan :=
  throw_if ((extentId <? 0) || (totalExtents (allocator s) <=? extentId)) StoreLimitError ≫= fun _ =>
  throw_if (bool_decide (extentId ∈ classified scan)) StoreLimitError ≫= fun _ =>
  Ok (mkScan (reached scan) (calculatedBasePayloadBytes scan)
        ({[extentId]} ∪ classified scan) (classifiedCount scan + 1)).

Definition addBytes (n : Z) (scan : Scan) : Scan :=
  mkScan (reached scan) (calculatedBasePayloadBytes scan + n) (classified scan) (classifiedCount scan).

Definition reach (inodeId : Z) (scan : Scan) : Scan :=
  mkScan ({[inodeId]} ∪ reached scan) (calculatedBasePayloadBytes scan) (classified scan)
    (classifiedCount scan).

Definition classifyOwned (s : VfsState) (inode : Inode) (scan : Scan) (extentId : Z) : R Scan :=
  scan ← classify s scan extentId;
  throw_if (negb (bool_decide (ownedBy (allocator s) !! extentId = Some (inode_id inode))))
    StoreLimitError ≫= fun _ =>
  Ok scan.

(** What [visit] checks of an inode before it looks at its kind. *)
Definition visitHeader (s : VfsState) (scan : Scan) (inodeKey : Z) (inode : Inode) : R Scan :=
  checkedU64 inodeKey ≫= fun _ =>
  checkedU64 (inode_id inode) ≫= fun _ =>
  throw_if (negb (inodeKey =? inode_id inode)) StoreLimitError ≫= fun _ =>
  throw_if (nextInodeId s <=? inode_id inode) StoreLimitError ≫= fun _ =>
  throw_if (bool_decide (inode_id inode ∈ reached scan)) StoreLimitError ≫= fun _ =>
  let scan := reach (inode_id inode) scan in
  validateMode (inode_mode inode) ≫= fun _ =>
  validateTimestamp (atimeMs inode) ≫= fun _ =>
  validateTimestamp (mtimeMs inode) ≫= fun _ =>
  validateTimestamp (ctimeMs inode) ≫= fun _ =>
  Ok scan.

(** The checks of one directory entry, up to the recursive visit of its child. *)
Definition visitEntry (s : VfsState) (inode : Inode) (metrics : PathMetrics) (scan : Scan)
  (name : jsstr) (childId : Z) : R (Scan * Inode * PathMetrics) :=
  nameBytes ← validatePathComponent name;
  let scan := addBytes (CHILD_FIXED_BYTES + nameBytes) scan in
  throw_if (negb (bool_decide (parentByInode s !! childId = Some (inode_id inode, name))))
    StoreLimitError ≫= fun _ =>
  let childMetrics :=
    mkMetrics (depth metrics + 1) (bytes metrics + (if depth metrics =? 0 then 0 else 1) + nameBytes) in
  throw_if (MAX_PATH_DEPTH <? depth childMetrics) StoreLimitError ≫= fun _ =>
  throw_if (MAX_PATH_BYTES <? bytes childMetrics) StoreLimitError ≫= fun _ =>
  child ← or_throw (inodes s !! childId) StoreLimitError;
  Ok (scan, child, childMetrics).

(** The recursive closure [visit]. The depth check admits [MAX_PATH_DEPTH + 1] levels. *)
Fixpoint visit (fuel : nat) (s : VfsState) (scan : Scan) (inodeKey : Z) (inode : Inode)
  (metrics : PathMetrics) : R Scan :=
  match fuel with
  | O => Throw FuelExhausted
  | S fuel =>
      scan ← visitHeader s scan inodeKey inode;
      match inode_kind inode with
      | Directory children =>
          foldM (fun scan '(name, childId) =>
            '(scan, child, childMetrics) ← visitEntry s inode metrics scan name childId;
            visit fuel s scan childId child childMetrics)
            (addBytes DIRECTORY_INODE_FIXED_BYTES scan) (map_to_list children)
      | Symlink target =>
          targetBytes ← rethrow_as StoreLimitError (validateSymlinkTarget target);
          Ok (addBytes (SYMLINK_INODE_FIXED_BYTES + targetBytes) scan)
      | File size extents =>
          let scan := addBytes (FILE_INODE_FIXED_BYTES + Z.of_nat (length extents) * 8) scan in
          count ← extentCountForSize size (extentSize s);
          throw_if (negb (Z.of_nat (length extents) =? count)) StoreLimitError ≫= fun _ =>
          foldM (classifyOwned s inode) scan extents
      end
  end.

Definition visitFuel : nat := Z.to_nat (MAX_PATH_DEPTH + 1).

(** The checks on the retained generations. *)
Definition validateRetained (s : VfsState) : R unit :=
  throw_if (negb (bool_decide (retainedGenerations s (activeMetadataFile s) = Some (generation s))))
    StoreLimitError ≫= fun _ =>
  match retainedGenerations s (otherMetadataFile (activeMetadataFile s)) with
  | None => Ok tt
  | Some inactiveGeneration =>
      checkedU64 inactiveGeneration ≫= fun _ =>
      throw_if ((inactiveGeneration =? 0) || negb (inactiveGeneration + 1 =? generation s))
        StoreLimitError
  end.

Definition classifyQuarantined (s : VfsState) (scan : Scan) (entry : Z * option Z) : R Scan :=
  scan ← classify s scan entry.1;
  throw_if (match entry.2 with
            | None => false
            | Some firstExcludedGeneration => negb (firstExcludedGeneration =? generation s)
            end) StoreLimitError ≫= fun _ =>
  Ok scan.

Definition validateState (s : VfsState) : R unit :=
  validateExtentSize (extentSize s) ≫= fun _ =>
  checkedU64 (generation s) ≫= fun _ =>
  throw_if (generation s =? 0) StoreLimitError ≫= fun _ =>
  checkedU64 (nextInodeId s) ≫= fun _ =>
  root ← or_throw (inodes s !! rootInodeId s) StoreLimitError;
  throw_if (negb (is_directory root)) StoreLimitError ≫= fun _ =>
  throw_if (bool_decide (is_Some (parentByInode s !! rootInodeId s))) StoreLimitError ≫= fun _ =>
  throw_if (MAX_INODES <? Z.of_nat (size (inodes s))) StoreLimitError ≫= fun _ =>
  checkedU64 (totalExtents (allocator s)) ≫= fun _ =>
  throw_if (MAX_TOTAL_EXTENTS <? totalExtents (allocator s)) StoreLimitError ≫= fun _ =>
  scan ← visit visitFuel s (mkScan ∅ BASE_STATE_FIXED_BYTES ∅ 0) (rootInodeId s) root (mkMetrics 0 1);
  throw_if (negb (Nat.eqb (size (reached scan)) (size (inodes s)))) StoreLimitError ≫= fun _ =>
  throw_if (negb (Z.of_nat (size (parentByInode s)) =? Z.of_nat (size (inodes s)) - 1))
    StoreLimitError ≫= fun _ =>
  throw_if (negb (classifiedCount scan =? Z.of_nat (size (ownedBy (allocator s)))))
    StoreLimitError ≫= fun _ =>
  let calculated := calculatedBasePayloadBytes scan
                    + (ExtentSet.size (available (allocator s)) * 8
                       + Z.of_nat (length (quarantine (allocator s))) * 16) in
  throw_if (negb (basePayloadBytes s =? calculated)) StoreLimitError ≫= fun _ =>
  throw_if (MAX_METADATA_BASE_WRITER_BYTES <? basePayloadBytes s) StoreLimitError ≫= fun _ =>
  validateRetained s ≫= fun _ =>
  scan ← foldM (classify s) scan (ExtentSet.values (available (allocator s)));
  scan ← foldM (classifyQuarantined s) scan (quarantine (allocator s));
  throw_if (negb (classifiedCount scan =? totalExtents (allocator s))) StoreLimitError.

(** ** Repack projection *)

Definition set_retained (file : MetadataFile) (g : option Z) (s : VfsState) : VfsState :=
  mkState (generation s) (nextInodeId s) (rootInodeId s) (extentSize s) (activeMetadataFile s)
    (if decide (file = MetaA) then g else retained_a s)
    (if decide (file = MetaB) then g else retained_b s)
    (basePayloadBytes s) (inodes s) (parentByInode s) (allocator s).
Definition set_generation (g : Z) (s : VfsState) : VfsState :=
  mkState g (nextInodeId s) (rootInodeId s) (extentSize s) (activeMetadataFile s)
    (retained_a s) (retained_b s) (basePayloadBytes s) (inodes s) (parentByInode s) (allocator s).
Definition set_activeMetadataFile (f : MetadataFile) (s : VfsState) : VfsState :=
  mkState (generation s) (nextInodeId s) (rootInodeId s) (extentSize s) f
    (retained_a s) (retained_b s) (basePayloadBytes s) (inodes s) (parentByInode s) (allocator s).

(** The independent copy: only the extent set is rebuilt, every other field is copied as it is. *)
Definition cloneState (s : VfsState) : VfsState :=
  set_allocator (set_available ExtentSet.clone) s.

(** One quarantined extent: pinned extents lose their generation, fresh ones get the next one, and
    an extent that no retained base still references becomes available. *)
Definition repackQuarantined (nextGeneration : Z) (targetPreviousGeneration : option Z)
  (pinned : gset Z) (acc : AllocatorState * Z) (entry : Z * option Z) : AllocatorState * Z :=
  let '(a, projectedBytes) := acc in
  let '(extentId, firstExcludedGeneration) := entry in
  if bool_decide (extentId ∈ pinned)
  then (set_quarantine (fun q => JsMap.set q extentId None) a, projectedBytes)
  else
    match firstExcludedGeneration with
    | None => (set_quarantine (fun q => JsMap.set q extentId (Some nextGeneration)) a, projectedBytes)
    | Some first =>
        if match targetPreviousGeneration with None => true | Some t => t <? first end
        then (set_available (fun av => ExtentSet.add av extentId)
                (set_quarantine (fun q => JsMap.del q extentId) a), projectedBytes - 8)
        else (a, projectedBytes)
    end.

(** The arena-tail trim: at most [totalExtents] iterations. *)
Fixpoint trimTail (n : nat) (a : AllocatorState) (projectedBytes : Z) : AllocatorState * Z :=
  match n with
  | O => (a, projectedBytes)
  | S n =>
      if 0 <? totalExtents a then
        let tail := totalExtents a - 1 in
        let '(available', deleted) := ExtentSet.delete (available a) tail in
        if deleted : bool
        then trimTail n (set_totalExtents tail (set_available (fun _ => available') a)) (projectedBytes - 8)
        else (a, projectedBytes)
      else (a, projectedBytes)
  end.

Definition projectRepackFromCopy (s projected : VfsState) (pinnedQuarantine : gset Z) : R VfsState :=
  throw_if (generation s =? MAX_U64) StoreLimitError ≫= fun _ =>
  let nextGeneration := generation s + 1 in
  let target := otherMetadataFile (activeMetadataFile s) in
  let targetPreviousGeneration := retainedGenerations s target in
  let '(a, projectedBytes) :=
    foldl (repackQuarantined nextGeneration targetPreviousGeneration pinnedQuarantine)
      (allocator projected, basePayloadBytes s) (quarantine (allocator projected)) in
  let '(a, projectedBytes) := trimTail (Z.to_nat (totalExtents a)) a projectedBytes in
  let projected := set_allocator (fun _ => a) projected in
  let projected := set_generation nextGeneration projected in
  let projected := set_activeMetadataFile target projected in
  let projected := set_retained target (Some nextGeneration) projected in
  let projected := set_basePayloadBytes projectedBytes projected in
  validateState projected ≫= fun _ =>
  Ok projected.

Definition projectRepack (s : VfsState) (pinnedQuarantine : gset Z) : R VfsState :=
  projectRepackFromCopy s (cloneState s) pinnedQuarantine.

(** The activation-only projection shares what a repack never mutates; as values, the copy is the
    same as [cloneState]'s. *)
Definition projectRepackForActivation (s : VfsState) (pinnedQuarantine : gset Z) : R VfsState :=
  projectRepackFromCopy s (set_allocator (set_available ExtentSet.clone) s) pinnedQuarantine.
