(* ===== verification/Tree.v ===== *)
(** * The inode tree

    The declarative tree invariant of the store and its preservation by the elementary edits the
    reducers are made of: touching an inode, linking a leaf, unlinking a leaf, moving a subtree. *)

From S2P Require Export Repack.

(** ** Byte lengths and path metrics as total functions *)

Definition ulen (name : jsstr) : Z := from_ok 0 (utf8Length name).

Lemma utf8Length_ulen name n : utf8Length name = Ok n -> n = ulen name.
Proof. unfold ulen. by intros ->. Qed.

(** The metrics of the path made of [names], as [childPathMetrics] accumulates them. *)
Definition metrics (names : list jsstr) : PathMetrics :=
  mkMetrics (Z.of_nat (length names))
    (1 + foldr (fun n acc => ulen n + acc) 0 names + Z.max 0 (Z.of_nat (length names) - 1)).

Lemma metrics_nil : metrics [] = mkMetrics 0 1.
Proof. reflexivity. Qed.

Lemma foldr_ulen_app l1 l2 :
  foldr (fun n acc => ulen n + acc) 0 (l1 ++ l2)
  = foldr (fun n acc => ulen n + acc) 0 l1 + foldr (fun n acc => ulen n + acc) 0 l2.
Proof. induction l1; simpl; lia. Qed.

Lemma metrics_snoc names name :
  metrics (names ++ [name]) =
  mkMetrics (depth (metrics names) + 1)
    (bytes (metrics names) + (if depth (metrics names) =? 0 then 0 else 1) + ulen name).
Proof.
  unfold metrics; cbn [depth bytes]. rewrite length_app, foldr_ulen_app. simpl.
  destruct (_ =? 0) eqn:E; propify; f_equal; lia.
Qed.

Definition path_ok (names : list jsstr) : Prop :=
  depth (metrics names) <= MAX_PATH_DEPTH /\ bytes (metrics names) <= MAX_PATH_BYTES.

Definition component_ok (name : jsstr) : Prop := exists n, validatePathComponent name = Ok n.
Definition target_ok (target : jsstr) : Prop := exists n, validateSymlinkTarget target = Ok n.

Lemma component_ulen name n : validatePathComponent name = Ok n -> n = ulen name.
Proof. unfold validatePathComponent. intros H. inv_ok. by apply utf8Length_ulen. Qed.

Lemma target_ulen t n : validateSymlinkTarget t = Ok n -> n = ulen t.
Proof. unfold validateSymlinkTarget. intros H. inv_ok. by apply utf8Length_ulen. Qed.

(** ** Paths through the parent index *)

Section Paths.
Context (P : gmap Z (Z * jsstr)) (root : Z).

(** [names] leads from the root to [k]. *)
Inductive PathTo : Z -> list jsstr -> Prop :=
| PathRoot : PathTo root []
| PathChild c p name names :
    P !! c = Some (p, name) -> PathTo p names -> PathTo c (names ++ [name]).

(** [k] is [a] or a descendant of [a], [names] below it. *)
Inductive Below (a : Z) : Z -> list jsstr -> Prop :=
| BelowRefl : Below a a []
| BelowChild c p name names :
    P !! c = Some (p, name) -> Below a p names -> Below a c (names ++ [name]).

Lemma PathTo_root_nil names : P !! root = None -> PathTo root names -> names = [].
Proof. intros Hr H. inversion H; subst; [done|congruence]. Qed.

Lemma PathTo_inv c names : PathTo c names ->
  (c = root /\ names = []) \/
  (exists p name names', P !! c = Some (p, name) /\ PathTo p names' /\ names = names' ++ [name]).
Proof. inversion 1; subst; [by left|]. right. eauto 10. Qed.

Lemma PathTo_unique c n1 : P !! root = None ->
  PathTo c n1 -> forall n2, PathTo c n2 -> n1 = n2.
Proof.
  intros Hr. induction 1 as [|c p name names Hc Hp IH]; intros n2 H2.
  - symmetry. by apply PathTo_root_nil.
  - apply PathTo_inv in H2 as [[-> ->]|(p' & name' & names' & Hc' & Hp' & ->)]; [congruence|].
    rewrite Hc in Hc'. injection Hc' as <- <-. f_equal. by apply IH.
Qed.

Lemma Below_trans a b c n1 n2 : Below a b n1 -> Below b c n2 -> Below a c (n1 ++ n2).
Proof.
  intros H1. induction 1 as [|c p name names Hc Hp IH]; [by rewrite app_nil_r|].
  rewrite app_assoc. by econstructor.
Qed.

Lemma PathTo_Below a c n1 n2 : PathTo a n1 -> Below a c n2 -> PathTo c (n1 ++ n2).
Proof.
  intros H1. induction 1 as [|c p name names Hc Hp IH]; [by rewrite app_nil_r|].
  rewrite app_assoc. by econstructor.
Qed.

(** The first step down from [a]. *)
Lemma Below_inv_l a c names : Below a c names ->
  (c = a /\ names = []) \/
  (exists d name names', P !! d = Some (a, name) /\ Below d c names' /\ names = name :: names').
Proof.
  induction 1 as [|c p name names Hc Hp IH]; [by left|]. right.
  destruct IH as [[-> ->]|(d & nm & ns & Hd & Hb & ->)].
  - exists c, name, []. split_and!; [done|constructor|done].
  - exists d, nm, (ns ++ [name]). split_and!; [done|by econstructor|done].
Qed.

Lemma Below_inv_r a c names : Below a c names ->
  (c = a /\ names = []) \/
  (exists p name names', P !! c = Some (p, name) /\ Below a p names' /\ names = names' ++ [name]).
Proof. inversion 1; subst; [by left|]. right. eauto 10. Qed.

Lemma PathTo_from_Below c names : PathTo c names <-> Below root c names.
Proof.
  split; (induction 1; [constructor|by econstructor]).
Qed.
End Paths.

(** ** Paths under edits of the parent index *)

Section PathEdits.
Context (P : gmap Z (Z * jsstr)) (root : Z) (Hroot : P !! root = None).

Lemma Below_dec a c names :
  PathTo P root c names -> (exists ns, Below P a c ns) \/ ~ (exists ns, Below P a c ns).
Proof.
  induction 1 as [|c p name names Hc Hp IH].
  - destruct (decide (root = a)) as [->|Hne]; [left; exists []; constructor|].
    right. intros [ns Hb]. apply Below_inv_r in Hb as [[-> _]|(?&?&?&?&_)]; congruence.
  - destruct (decide (c = a)) as [->|Hne]; [left; exists []; constructor|].
    destruct IH as [[ns Hb]|Hnb]; [left; eexists; by econstructor|]. right.
    intros [ns Hb]. apply Below_inv_r in Hb as [[-> _]|(p'&n'&ns'&Hc'&Hb'&_)]; [done|].
    rewrite Hc in Hc'. injection Hc' as <- <-. eauto.
Qed.

(** No node is strictly below itself. *)
Lemma Below_self a ns names : PathTo P root a names -> Below P a a ns -> ns = [].
Proof.
  intros Ha Hb. pose proof (PathTo_Below P root a a names ns Ha Hb) as Ha'.
  pose proof (PathTo_unique P root a names Hroot Ha _ Ha') as Heq.
  apply (f_equal length) in Heq. rewrite length_app in Heq. destruct ns; [done|simpl in Heq; lia].
Qed.

Lemma Below_unique a c n1 n2 names :
  PathTo P root a names -> Below P a c n1 -> Below P a c n2 -> n1 = n2.
Proof.
  intros Ha H1 H2. apply (app_inv_head names).
  eapply (PathTo_unique P root c); eauto using PathTo_Below.
Qed.

Lemma PathTo_link c e k names :
  P !! c = None -> PathTo P root k names -> PathTo (<[c:=e]> P) root k names.
Proof.
  intros Hc. induction 1 as [|k p name names Hk Hp IH]; [constructor|].
  econstructor; [|done]. rewrite lookup_insert_ne; [done|]. intros ->; congruence.
Qed.

Lemma PathTo_unlink c k names :
  (forall k' p n, P !! k' = Some (p, n) -> p <> c) -> k <> c ->
  PathTo P root k names -> PathTo (delete c P) root k names.
Proof.
  intros Hc Hk. induction 1 as [|k p name names Hkp Hp IH]; [constructor|].
  econstructor; [by rewrite lookup_delete_ne|]. apply IH. eauto.
Qed.

Section Move.
Context (c dp : Z) (dn : jsstr) (cnames dnames : list jsstr).
Context (Hc : PathTo P root c cnames) (Hcr : c <> root)
  (Hdp : PathTo P root dp dnames) (Hnb : ~ exists ns, Below P c dp ns).
Let P' := <[c := (dp, dn)]> P.

Lemma PathTo_move_outside k names :
  PathTo P root k names -> ~ (exists ns, Below P c k ns) -> PathTo P' root k names.
Proof.
  induction 1 as [|k p name names Hkp Hp IH]; intros Hout; [constructor|].
  econstructor.
  - unfold P'. rewrite lookup_insert_ne; [done|]. intros ->. apply Hout. exists []. constructor.
  - apply IH. intros [ns Hb]. apply Hout. eexists. by econstructor.
Qed.

Lemma Below_move k ns : Below P c k ns -> Below P' c k ns.
Proof.
  induction 1 as [|k p name ns Hkp Hp IH]; [constructor|].
  econstructor; [|done]. unfold P'. rewrite lookup_insert_ne; [done|]. intros <-.
  pose proof (Below_self c (ns ++ [name]) cnames Hc) as Hs.
  destruct ns; discriminate Hs; by econstructor.
Qed.

Lemma PathTo_move k names :
  PathTo P root k names ->
  (~ (exists ns, Below P c k ns) /\ PathTo P' root k names) \/
  (exists ns, Below P c k ns /\ PathTo P' root k ((dnames ++ [dn]) ++ ns)).
Proof.
  intros Hk. destruct (Below_dec c k names Hk) as [[ns Hb]|Hout].
  - right. exists ns. split; [done|]. apply (PathTo_Below P' root c); [|by apply Below_move].
    econstructor; [apply lookup_insert_eq|]. by apply PathTo_move_outside.
  - left. split; [done|]. by apply PathTo_move_outside.
Qed.
End Move.
End PathEdits.

(** ** The tree invariant *)

Definition mode_ok (m : Z) : Prop := 0 <= m <= 0xffffffff.

Definition kind_ok (es : Z) (k : InodeKind) : Prop :=
  match k with
  | Directory ch => forall n c, ch !! n = Some c -> component_ok n
  | File size extents => extentCountForSize size es = Ok (Z.of_nat (length extents))
  | Symlink target => target_ok target
  end.

Record inode_ok (es next key : Z) (i : Inode) : Prop := {
  io_id : inode_id i = key;
  io_key : 0 <= key < next;
  io_mode : mode_ok (inode_mode i);
  io_atime : u64 (atimeMs i);
  io_mtime : u64 (mtimeMs i);
  io_ctime : u64 (ctimeMs i);
  io_kind : kind_ok es (inode_kind i)
}.

Definition is_dir_at (I : gmap Z Inode) (k : Z) (ch : Children) : Prop :=
  exists i, I !! k = Some i /\ inode_kind i = Directory ch.

Record TreeOk (es : Z) (I : gmap Z Inode) (P : gmap Z (Z * jsstr)) (root next : Z) : Prop := {
  t_root : exists ch, is_dir_at I root ch;
  t_root_parent : P !! root = None;
  t_inode : forall k i, I !! k = Some i -> inode_ok es next k i;
  t_child : forall p ch n c, is_dir_at I p ch -> ch !! n = Some c -> P !! c = Some (p, n);
  t_parent : forall c p n, P !! c = Some (p, n) ->
    is_Some (I !! c) /\ exists ch, is_dir_at I p ch /\ ch !! n = Some c;
  t_reach : forall k, is_Some (I !! k) -> exists names, PathTo P root k names /\ path_ok names
}.

Section TreeFacts.
Context {es : Z} {I : gmap Z Inode} {P : gmap Z (Z * jsstr)} {root next : Z}.
Hypothesis T : TreeOk es I P root next.

Lemma is_dir_at_fun k ch1 ch2 : is_dir_at I k ch1 -> is_dir_at I k ch2 -> ch1 = ch2.
Proof. intros (i&Hi&Hk) (i'&Hi'&Hk'). congruence. Qed.

Lemma child_present p ch n c : is_dir_at I p ch -> ch !! n = Some c -> is_Some (I !! c).
Proof. intros Hd Hn. by eapply (t_parent _ _ _ _ _ T), (t_child _ _ _ _ _ T). Qed.

(** A child sits in one place only. *)
Lemma child_unique p1 ch1 n1 p2 ch2 n2 c :
  is_dir_at I p1 ch1 -> ch1 !! n1 = Some c -> is_dir_at I p2 ch2 -> ch2 !! n2 = Some c ->
  p1 = p2 /\ n1 = n2.
Proof.
  intros H1 Hc1 H2 Hc2.
  pose proof (t_child _ _ _ _ _ T _ _ _ _ H1 Hc1) as E1.
  pose proof (t_child _ _ _ _ _ T _ _ _ _ H2 Hc2) as E2. rewrite E1 in E2.
  by injection E2 as <- <-.
Qed.

Lemma child_not_root p ch n c : is_dir_at I p ch -> ch !! n = Some c -> c <> root.
Proof.
  intros Hd Hn ->. pose proof (t_child _ _ _ _ _ T _ _ _ _ Hd Hn).
  pose proof (t_root_parent _ _ _ _ _ T). congruence.
Qed.

Lemma parent_has_entry k : is_Some (I !! k) -> k <> root -> is_Some (P !! k).
Proof.
  intros Hk Hne. destruct (t_reach _ _ _ _ _ T k Hk) as (names & Hp & _).
  apply PathTo_inv in Hp as [[-> _]|(p&n&ns&Hp&_)]; [done|eauto].
Qed.

(** A directory without entries is nobody's parent. *)
Lemma leaf_not_parent k i :
  I !! k = Some i -> (forall ch, inode_kind i = Directory ch -> ch = ∅) ->
  forall c p n, P !! c = Some (p, n) -> p <> k.
Proof.
  intros Hi Hleaf c p n Hc ->. destruct (t_parent _ _ _ _ _ T _ _ _ Hc) as (_ & ch & Hd & Hn).
  destruct Hd as (i' & Hi' & Hk). rewrite Hi in Hi'. injection Hi' as <-.
  rewrite (Hleaf ch Hk), lookup_empty in Hn. done.
Qed.

Lemma key_fresh k : next <= k -> I !! k = None /\ P !! k = None.
Proof.
  intros Hk. assert (HI : I !! k = None).
  { destruct (I !! k) eqn:E; [|done]. apply (t_inode _ _ _ _ _ T) in E. destruct E. lia. }
  split; [done|]. destruct (P !! k) as [[p n]|] eqn:E; [|done].
  apply (t_parent _ _ _ _ _ T) in E as [[? ?] _]. congruence.
Qed.
End TreeFacts.

(** *** Touching one inode *)

(** [f] may change attributes and file contents, not the identity and not a directory's entries. *)
Lemma tree_touch es I P root next k f :
  TreeOk es I P root next ->
  (forall i, I !! k = Some i -> inode_ok es next k (f i) /\
     match inode_kind i with
     | Directory ch => inode_kind (f i) = Directory ch
     | _ => is_directory (f i) = false
     end) ->
  TreeOk es (alter f k I) P root next.
Proof.
  intros T Hf.
  assert (Hd : forall p ch, is_dir_at (alter f k I) p ch <-> is_dir_at I p ch).
  { intros p ch. unfold is_dir_at. rewrite lookup_alter. case_decide as Hkp; [subst k|done].
    destruct (I !! p) as [i|] eqn:E; [|naive_solver].
    destruct (Hf i eq_refl) as [_ Hk]. unfold is_directory in Hk. simpl.
    split; intros (i' & [= <-] & Hi'); eexists; (split; [done|]);
      destruct (inode_kind i) eqn:Ei; repeat case_match; congruence. }
  assert (Hs : forall x, is_Some (alter f k I !! x) <-> is_Some (I !! x)).
  { intros x. rewrite lookup_alter. case_decide; [|done]. subst. by rewrite fmap_is_Some. }
  destruct T as [[ch Hr] Hrp Hi Hc Hp Hre]. split.
  - exists ch. by apply Hd.
  - done.
  - intros x i. rewrite lookup_alter. case_decide; subst; [|by apply Hi].
    intros (i0 & Hi0 & ->)%fmap_Some. naive_solver.
  - intros p ch' n c Hd' Hn. eapply Hc; [by apply Hd|done].
  - intros c p n Hc'. apply Hp in Hc' as [? (ch' & ? & ?)]. split; [by apply Hs|].
    exists ch'. split; [by apply Hd|done].
  - intros x Hx. apply Hre. by apply Hs.
Qed.

(** *** Editing the entries of a directory *)

Lemma is_dir_at_alter g p (I : gmap Z Inode) k ch :
  is_dir_at (alter (on_children g) p I) k ch <->
  (k = p /\ exists ch0, is_dir_at I p ch0 /\ ch = g ch0) \/ (k <> p /\ is_dir_at I k ch).
Proof.
  unfold is_dir_at. rewrite lookup_alter. case_decide as Hkp; [subst k|].
  - split.
    + intros (i & (i0 & Hi0 & ->)%fmap_Some & Hk). left. split; [done|].
      unfold on_children, set_kind in Hk. cbn in Hk. destruct (inode_kind i0) eqn:E; simplify_eq.
      eauto 10.
    + intros [[_ (ch0 & (i0 & Hi0 & Hk) & ->)]|[? _]]; [|done].
      exists (on_children g i0). rewrite Hi0. split; [done|]. cbn. by rewrite Hk.
  - naive_solver.
Qed.

Lemma is_dir_at_insert I c i k ch :
  (forall ch', inode_kind i = Directory ch' -> ch' = ∅) ->
  is_dir_at (<[c := i]> I) k ch <->
  (k = c /\ inode_kind i = Directory ch /\ ch = ∅) \/ (k <> c /\ is_dir_at I k ch).
Proof.
  intros Hleaf. unfold is_dir_at. rewrite lookup_insert. case_decide as Hkc; [subst k|]; naive_solver.
Qed.

Lemma is_dir_at_delete I c k ch :
  is_dir_at (delete c I) k ch <-> k <> c /\ is_dir_at I k ch.
Proof. unfold is_dir_at. rewrite lookup_delete. case_decide; subst; naive_solver. Qed.

Lemma is_Some_alter {A} (f : A -> A) (I : gmap Z A) p k :
  is_Some (alter f p I !! k) <-> is_Some (I !! k).
Proof. rewrite lookup_alter. case_decide; subst; by rewrite ?fmap_is_Some. Qed.

(** Editing entries keeps an inode well formed when the new names are. *)
Lemma inode_ok_children es next k i g :
  inode_ok es next k i ->
  (forall ch, inode_kind i = Directory ch ->
     kind_ok es (Directory ch) -> kind_ok es (Directory (g ch))) ->
  inode_ok es next k (on_children g i).
Proof.
  intros [] Hg. split; try done. cbn. destruct (inode_kind i); [|done..]. by apply Hg.
Qed.

Lemma inode_ok_weaken es next next' k i : next <= next' -> inode_ok es next k i -> inode_ok es next' k i.
Proof. intros ? []. split; try done. lia. Qed.

Lemma alter_inode_ok es (I : gmap Z Inode) next p g k i :
  (forall k i, I !! k = Some i -> inode_ok es next k i) ->
  (forall ch, kind_ok es (Directory ch) -> kind_ok es (Directory (g ch))) ->
  alter (on_children g) p I !! k = Some i -> inode_ok es next k i.
Proof.
  intros HI Hg. rewrite lookup_alter. case_decide; subst; [|by apply HI].
  intros (i0 & Hi0 & ->)%fmap_Some. apply inode_ok_children; [by apply HI|auto].
Qed.

Lemma kind_ok_insert es ch n c :
  component_ok n -> kind_ok es (Directory ch) -> kind_ok es (Directory (<[n:=c]> ch)).
Proof. intros Hn Hch m d. rewrite lookup_insert. case_decide; [by subst|apply Hch]. Qed.

Lemma kind_ok_delete es ch n :
  kind_ok es (Directory ch) -> kind_ok es (Directory (delete n ch)).
Proof. intros Hch m d. rewrite lookup_delete. case_decide; [done|apply Hch]. Qed.

(** *** Linking a new leaf *)

Lemma tree_link es I P root next p ch n i names :
  TreeOk es I P root next ->
  is_dir_at I p ch -> ch !! n = None -> component_ok n ->
  inode_ok es (next + 1) next i ->
  (forall ch', inode_kind i = Directory ch' -> ch' = ∅) ->
  PathTo P root p names -> path_ok (names ++ [n]) ->
  TreeOk es (<[next := i]> (alter (on_children (insert n next)) p I)) (<[next := (p, n)]> P)
    root (next + 1).
Proof.
  intros T Hp Hn Hcn Hi Hleaf Hpath Hok.
  destruct (key_fresh T next ltac:(lia)) as [HIn HPn].
  assert (Hpn : p <> next) by (intros ->; destruct Hp as (?&?&_); congruence).
  assert (Hrn : root <> next) by (destruct (t_root _ _ _ _ _ T) as (?&?&?&_); congruence).
  split.
  - destruct (t_root _ _ _ _ _ T) as [rch Hr].
    destruct (decide (root = p)) as [->|].
    + exists (<[n:=next]> ch). rewrite is_dir_at_insert, is_dir_at_alter by done. naive_solver.
    + exists rch. rewrite is_dir_at_insert, is_dir_at_alter by done. naive_solver.
  - rewrite lookup_insert_ne by done. apply T.
  - intros k i0. rewrite lookup_insert. case_decide; [by intros [= <-]; subst|].
    intros Hk. apply (inode_ok_weaken es next); [lia|]. eapply alter_inode_ok; [apply T| |done].
    intros ch0. by apply kind_ok_insert.
  - intros k ch0 m c. rewrite is_dir_at_insert, is_dir_at_alter by done.
    intros [[-> [_ ->]]|[Hk [[-> (ch1 & Hd & ->)]|[Hkp Hd]]]]; [by rewrite lookup_empty| |].
    + rewrite (is_dir_at_fun _ _ _ Hd Hp). rewrite lookup_insert. case_decide; subst.
      * intros [= <-]. by rewrite lookup_insert_eq.
      * intros Hc. rewrite lookup_insert_ne; [by eauto using t_child|].
        intros <-. destruct (child_present T _ _ _ _ Hp Hc). congruence.
    + intros Hc. rewrite lookup_insert_ne; [by eauto using t_child|].
      intros <-. destruct (child_present T _ _ _ _ Hd Hc). congruence.
  - intros c q m. rewrite lookup_insert. destruct (decide (next = c)) as [<-|Hc].
    + intros [= <- <-]. split; [by rewrite lookup_insert_eq|].
      exists (<[n:=next]> ch). rewrite is_dir_at_insert, is_dir_at_alter, lookup_insert_eq by done.
      naive_solver.
    + intros Hq. apply (t_parent _ _ _ _ _ T) in Hq as (Hs & qch & Hd & Hm).
      rewrite lookup_insert_ne, is_Some_alter by done. split; [done|].
      assert (q <> next) by (intros ->; destruct Hd as (?&?&_); congruence).
      destruct (decide (q = p)) as [->|].
      * rewrite (is_dir_at_fun _ _ _ Hd Hp) in Hm. exists (<[n:=next]> ch).
        rewrite is_dir_at_insert, is_dir_at_alter, lookup_insert_ne by (done || congruence). naive_solver.
      * exists qch. rewrite is_dir_at_insert, is_dir_at_alter by done. naive_solver.
  - intros k. rewrite lookup_insert. destruct (decide (next = k)) as [<-|Hk0].
    + intros _. exists (names ++ [n]). split; [|done]. econstructor; [by rewrite lookup_insert_eq|].
      by apply PathTo_link.
    + rewrite is_Some_alter. intros Hk. apply (t_reach _ _ _ _ _ T) in Hk as (ns & ? & ?).
      exists ns. split; [by apply PathTo_link|done].
Qed.

(** *** Unlinking a leaf *)

Lemma tree_unlink es I P root next p ch n c i :
  TreeOk es I P root next ->
  is_dir_at I p ch -> ch !! n = Some c -> I !! c = Some i ->
  (forall ch', inode_kind i = Directory ch' -> ch' = ∅) ->
  TreeOk es (delete c (alter (on_children (delete n)) p I)) (delete c P) root next.
Proof.
  intros T Hp Hn Hi Hleaf.
  pose proof (leaf_not_parent T c i Hi Hleaf) as Hnp.
  pose proof (child_not_root T p ch n c Hp Hn) as Hcr.
  pose proof (t_child _ _ _ _ _ T _ _ _ _ Hp Hn) as HPc.
  assert (Hpc : p <> c) by eauto. split.
  - destruct (t_root _ _ _ _ _ T) as [rch Hr].
    destruct (decide (root = p)) as [->|].
    + exists (delete n ch). rewrite is_dir_at_delete, is_dir_at_alter. naive_solver.
    + exists rch. rewrite is_dir_at_delete, is_dir_at_alter. naive_solver.
  - rewrite lookup_delete_ne by done. apply T.
  - intros k i0. rewrite lookup_delete. case_decide; [done|].
    apply alter_inode_ok; [apply T|]. intros ch0. apply kind_ok_delete.
  - intros k ch0 m d. rewrite is_dir_at_delete, is_dir_at_alter.
    intros [Hk [[-> (ch1 & Hd & ->)]|[Hkp Hd]]].
    + rewrite (is_dir_at_fun _ _ _ Hd Hp), lookup_delete. case_decide as Hnm; [done|].
      intros Hm. rewrite lookup_delete_ne; [by eauto using t_child|].
      intros ->. by destruct (child_unique T _ _ _ _ _ _ _ Hp Hn Hp Hm).
    + intros Hm. rewrite lookup_delete_ne; [by eauto using t_child|].
      intros ->. by destruct (child_unique T _ _ _ _ _ _ _ Hp Hn Hd Hm).
  - intros d q m. rewrite lookup_delete. case_decide as Hdc; [done|]. intros Hq.
    pose proof Hq as (Hs & qch & Hd & Hm)%(t_parent _ _ _ _ _ T).
    rewrite lookup_delete_ne, is_Some_alter by done. split; [done|].
    assert (q <> c) by eauto. destruct (decide (q = p)) as [->|].
    + rewrite (is_dir_at_fun _ _ _ Hd Hp) in Hm. exists (delete n ch).
      rewrite is_dir_at_delete, is_dir_at_alter, lookup_delete_ne by (done || congruence). naive_solver.
    + exists qch. rewrite is_dir_at_delete, is_dir_at_alter. naive_solver.
  - intros k. rewrite lookup_delete. case_decide; [by intros []|].
    rewrite is_Some_alter. intros Hk. apply (t_reach _ _ _ _ _ T) in Hk as (ns & ? & ?).
    exists ns. split; [|done]. by apply PathTo_unlink.
Qed.

(** *** Moving a subtree *)

Section Move.
Context {es : Z} {I : gmap Z Inode} {P : gmap Z (Z * jsstr)} {root next : Z}.
Hypothesis T : TreeOk es I P root next.
Context {sp dp c : Z} {sn dn : jsstr} {sch dch : Children} {dnames : list jsstr}.
Hypothesis Hsp : is_dir_at I sp sch.
Hypothesis Hsn : sch !! sn = Some c.
Hypothesis Hdp : is_dir_at I dp dch.
Hypothesis Hdn : dch !! dn = None.

Let I' := alter (on_children (insert dn c)) dp (alter (on_children (delete sn)) sp I).

(** The entries after the move: the old ones but the source, and the destination. *)
Lemma move_entries k ch' :
  is_dir_at I' k ch' ->
  exists ch, is_dir_at I k ch /\ forall m d, ch' !! m = Some d <->
    (k = dp /\ m = dn /\ d = c) \/ (~ (k = dp /\ m = dn) /\ ~ (k = sp /\ m = sn) /\ ch !! m = Some d).
Proof.
  unfold I'. rewrite is_dir_at_alter.
  intros [[-> (ch0 & Hd & ->)]|[Hkp Hd]]; apply is_dir_at_alter in Hd as [[-> (ch1 & Hd & ->)]|[Hks Hd]];
    eexists; (split; [exact Hd|]); intros m d;
    rewrite ?lookup_insert; repeat case_decide; subst; rewrite ?lookup_delete; repeat case_decide; subst;
    naive_solver.
Qed.

Lemma move_is_dir k ch : is_dir_at I k ch -> exists ch', is_dir_at I' k ch'.
Proof.
  intros Hd. unfold I'. setoid_rewrite is_dir_at_alter. setoid_rewrite is_dir_at_alter.
  destruct (decide (k = dp)), (decide (k = sp)); subst; naive_solver.
Qed.

Lemma tree_move :
  component_ok dn -> PathTo P root dp dnames -> (~ exists ns, Below P c dp ns) ->
  (forall k ns, Below P c k ns -> path_ok ((dnames ++ [dn]) ++ ns)) ->
  TreeOk es I' (<[c := (dp, dn)]> P) root next.
Proof.
  intros Hcdn Hdnames Hnb Hbounds.
  pose proof (child_not_root T _ _ _ _ Hsp Hsn) as Hcr.
  destruct (t_reach _ _ _ _ _ T c (child_present T _ _ _ _ Hsp Hsn)) as (cnames & Hc & _).
  assert (Hsome : forall k, is_Some (I' !! k) <-> is_Some (I !! k))
    by (intros k; unfold I'; by rewrite !is_Some_alter).
  split.
  - destruct (t_root _ _ _ _ _ T) as [rch Hr]. by apply (move_is_dir root rch).
  - rewrite lookup_insert_ne by done. apply T.
  - intros k i. unfold I'. apply alter_inode_ok; [|intros ch; by apply kind_ok_insert].
    intros k0 i0. apply alter_inode_ok; [apply T|]. intros ch. by apply kind_ok_delete.
  - intros k ch' m d (ch & Hd & He)%move_entries.
    intros [(-> & -> & ->)|(Hn1 & Hn2 & Hm)]%He; [by rewrite lookup_insert_eq|].
    rewrite lookup_insert_ne; [by eauto using t_child|]. intros <-.
    apply Hn2. by apply (child_unique T _ _ _ _ _ _ _ Hd Hm Hsp Hsn).
  - intros d q m. rewrite lookup_insert. destruct (decide (c = d)) as [<-|Hcd].
    + intros [= <- <-]. split; [apply Hsome; by eauto using child_present|].
      destruct (move_is_dir _ _ Hdp) as [ch' Hch']. exists ch'. split; [done|].
      destruct (move_entries _ _ Hch') as (ch & _ & ->). by left.
    + intros Hq. pose proof Hq as (Hs & qch & Hd & Hm)%(t_parent _ _ _ _ _ T).
      split; [by apply Hsome|]. destruct (move_is_dir _ _ Hd) as [ch' Hch']. exists ch'.
      split; [done|]. destruct (move_entries _ _ Hch') as (ch & Hd' & ->).
      rewrite (is_dir_at_fun _ _ _ Hd' Hd). right. split_and!; [| |done].
      * intros [-> ->]. rewrite (is_dir_at_fun _ _ _ Hd Hdp) in Hm. congruence.
      * intros [-> ->]. rewrite (is_dir_at_fun _ _ _ Hd Hsp) in Hm. congruence.
  - intros k (ns & Hp & Hok)%Hsome%(t_reach _ _ _ _ _ T).
    destruct (PathTo_move P root (t_root_parent _ _ _ _ _ T) c dp dn cnames dnames Hc Hcr Hdnames Hnb
                k ns Hp) as [[_ Hk]|(ns' & Hb & Hk)]; eexists; (split; [exact Hk|]); [done|].
    by apply (Hbounds k).
Qed.
End Move.
