(* ===== verification/Alloc.v ===== *)
(** * The extent allocator

    The partition invariant of [AllocatorState] and the effect of the allocator loops of the
    reducers and of the planners' choices. *)

From S2P Require Export Tree.

(** Every extent below [totalExtents] is in exactly one of the three structures. *)
Record AllocOk (a : AllocatorState) : Prop := {
  a_total : 0 <= totalExtents a <= MAX_TOTAL_EXTENTS;
  a_available : ExtentSet.wf (available a);
  a_quarantine : JsMap.wf (quarantine a);
  a_cover : forall e, 0 <= e < totalExtents a <->
    is_Some (ownedBy a !! e) \/ e ∈ ExtentSet.items (available a) \/ e ∈ JsMap.keys (quarantine a);
  a_owned_available : forall e, is_Some (ownedBy a !! e) -> e ∉ ExtentSet.items (available a);
  a_owned_quarantine : forall e, is_Some (ownedBy a !! e) -> e ∉ JsMap.keys (quarantine a);
  a_available_quarantine : forall e,
    e ∈ ExtentSet.items (available a) -> e ∉ JsMap.keys (quarantine a)
}.

(** ** Taking extents *)

Definition take_extent (e : Z) (a : AllocatorState) : AllocatorState :=
  if e <? totalExtents a
  then set_available (fun av => (ExtentSet.delete av e).1) a
  else set_totalExtents (totalExtents a + 1) a.

(** [e] can be taken: it is available, or it is the next fresh extent. *)
Definition takeable (a : AllocatorState) (e : Z) : Prop :=
  (e < totalExtents a /\ e ∈ ExtentSet.items (available a)) \/
  (e = totalExtents a /\ totalExtents a < MAX_TOTAL_EXTENTS).

Lemma take_total e a : takeable a e ->
  totalExtents (take_extent e a) = if e <? totalExtents a then totalExtents a else totalExtents a + 1.
Proof. unfold take_extent. by destruct (_ <? _). Qed.

Lemma take_ownedBy e a : ownedBy (take_extent e a) = ownedBy a.
Proof. unfold take_extent. by destruct (_ <? _). Qed.

Lemma take_quarantine e a : quarantine (take_extent e a) = quarantine a.
Proof. unfold take_extent. by destruct (_ <? _). Qed.

Lemma take_available e a x : AllocOk a ->
  x ∈ ExtentSet.items (available (take_extent e a)) <->
  x ∈ ExtentSet.items (available a) /\ (e < totalExtents a -> x <> e).
Proof.
  intros A. unfold take_extent. destruct (_ <? _) eqn:E; propify; cbn.
  - rewrite (ExtentSet.elem_of_delete _ _ _ (a_available a A)). naive_solver.
  - naive_solver lia.
Qed.

Lemma take_available_wf e a : AllocOk a -> ExtentSet.wf (available (take_extent e a)).
Proof.
  intros A. unfold take_extent. destruct (_ <? _); cbn; [|apply A].
  apply ExtentSet.delete_wf, A.
Qed.

(** *** Taking an extent and giving it to a file or to the quarantine *)

Definition own (k e : Z) (a : AllocatorState) : AllocatorState :=
  set_ownedBy (insert e k) (take_extent e a).
Definition reserve (e : Z) (a : AllocatorState) : AllocatorState :=
  set_quarantine (fun q => JsMap.set q e None) (take_extent e a).

Lemma takeable_lt a e : AllocOk a -> takeable a e -> 0 <= e /\ e < totalExtents (take_extent e a).
Proof.
  intros A Ht. rewrite take_total by done. destruct Ht as [[Hlt Hin]|[-> ?]].
  - assert (0 <= e < totalExtents a) by (apply A; auto).
    destruct (_ <? _) eqn:E; propify; lia.
  - destruct A as [[? ?]]. destruct (_ <? _) eqn:E; propify; lia.
Qed.

Lemma takeable_unclassified a e : AllocOk a -> takeable a e ->
  ownedBy a !! e = None /\ e ∉ JsMap.keys (quarantine a).
Proof.
  intros A [[Hlt Hin]|[-> ?]].
  - split; [|by apply (a_available_quarantine a A)]. destruct (ownedBy a !! e) eqn:E; [|done].
    exfalso. apply (a_owned_available a A e); eauto.
  - split.
    + destruct (ownedBy a !! totalExtents a) eqn:E; [|done].
      assert (0 <= totalExtents a < totalExtents a) by (apply A; eauto). lia.
    + intros Hin. assert (0 <= totalExtents a < totalExtents a) by (apply A; eauto). lia.
Qed.

(** The extents that are neither available nor quarantined nor owned after a take. *)
Lemma take_cover a e x : AllocOk a -> takeable a e ->
  0 <= x < totalExtents (take_extent e a) <->
  x = e \/ is_Some (ownedBy a !! x) \/ x ∈ ExtentSet.items (available (take_extent e a))
  \/ x ∈ JsMap.keys (quarantine a).
Proof.
  intros A Ht. rewrite take_total, take_available by done.
  destruct Ht as [[Hlt Hin]|[-> Hm]].
  - assert (0 <= e < totalExtents a) by (apply A; auto).
    destruct (_ <? _) eqn:E; propify; [|lia]. rewrite (a_cover a A x).
    destruct (decide (x = e)); naive_solver.
  - destruct (_ <? _) eqn:E; propify; [lia|].
    assert (0 <= x < totalExtents a + 1 <-> x = totalExtents a \/ 0 <= x < totalExtents a) as ->
      by (destruct A as [[? ?]]; lia).
    rewrite (a_cover a A x). naive_solver lia.
Qed.

Lemma take_total_bound a e : AllocOk a -> takeable a e ->
  0 <= totalExtents (take_extent e a) <= MAX_TOTAL_EXTENTS.
Proof.
  intros [[? ?]] Ht. rewrite take_total by done. destruct Ht as [[? ?]|[-> ?]];
    destruct (_ <? _) eqn:E; propify; lia.
Qed.

Lemma take_available_ne a e : AllocOk a -> takeable a e ->
  e ∉ ExtentSet.items (available (take_extent e a)).
Proof.
  intros A Ht. rewrite take_available by done. intros [Hin Hne].
  assert (0 <= e < totalExtents a) by (apply A; auto). lia.
Qed.

Lemma own_ok k e a : AllocOk a -> takeable a e -> AllocOk (own k e a).
Proof.
  intros A Ht. destruct (takeable_unclassified a e A Ht) as [Hno Hnq].
  pose proof (take_available_ne a e A Ht) as Hna.
  pose proof (take_cover a e) as Hcov. pose proof (take_available e a) as Hav.
  split; cbn; rewrite ?take_ownedBy, ?take_quarantine.
  - by apply take_total_bound.
  - by apply take_available_wf.
  - apply A.
  - intros x. rewrite (Hcov x A Ht), lookup_insert. case_decide; subst; [|naive_solver].
    split; [|naive_solver]. intros _. left. eauto.
  - intros x. rewrite lookup_insert. case_decide; subst; [done|].
    intros Hx. rewrite (Hav x A). intros [Hin _]. eapply (a_owned_available a A x); eauto.
  - intros x. rewrite lookup_insert. case_decide; subst; [done|]. apply (a_owned_quarantine a A).
  - intros x. rewrite (Hav x A). intros [Hin _]. by apply (a_available_quarantine a A).
Qed.

Lemma reserve_ok e a : AllocOk a -> takeable a e -> AllocOk (reserve e a).
Proof.
  intros A Ht. destruct (takeable_unclassified a e A Ht) as [Hno Hnq].
  pose proof (take_available_ne a e A Ht) as Hna.
  pose proof (take_cover a e) as Hcov. pose proof (take_available e a) as Hav.
  split; cbn; rewrite ?take_ownedBy, ?take_quarantine.
  - by apply take_total_bound.
  - by apply take_available_wf.
  - apply JsMap.wf_set, A.
  - intros x. rewrite (Hcov x A Ht), JsMap.elem_of_keys_set. naive_solver.
  - intros x Hx. rewrite (Hav x A). intros [Hin _]. eapply (a_owned_available a A x); eauto.
  - intros x Hx. rewrite JsMap.elem_of_keys_set. intros [->|Hin]; [|eapply (a_owned_quarantine a A x); eauto].
    rewrite Hno in Hx. by destruct Hx.
  - intros x Hx. rewrite JsMap.elem_of_keys_set. intros [->|Hin]; [done|].
    apply (Hav x A) in Hx as [Hx _]. eapply (a_available_quarantine a A x); eauto.
Qed.

(** ** Releasing an owned extent *)

Definition release (e : Z) (a : AllocatorState) : AllocatorState :=
  set_quarantine (fun q => JsMap.set q e None) (set_ownedBy (delete e) a).

Lemma release_ok e a : AllocOk a -> is_Some (ownedBy a !! e) -> AllocOk (release e a).
Proof.
  intros A Ho. pose proof (a_owned_available a A e Ho) as Hna.
  pose proof (a_owned_quarantine a A e Ho) as Hnq. split; cbn.
  - apply A.
  - apply A.
  - apply JsMap.wf_set, A.
  - intros x. rewrite (a_cover a A x), JsMap.elem_of_keys_set, lookup_delete.
    case_decide; subst; naive_solver.
  - intros x. rewrite lookup_delete. case_decide; [by intros []|apply A].
  - intros x. rewrite lookup_delete. case_decide; [by intros []|].
    intros Hx. rewrite JsMap.elem_of_keys_set. intros [->|Hin]; [done|].
    eapply (a_owned_quarantine a A x); eauto.
  - intros x Hx. rewrite JsMap.elem_of_keys_set. intros [->|Hin]; [done|].
    eapply (a_available_quarantine a A x); eauto.
Qed.

(** ** Sequences of takes *)

Fixpoint assignable (a : AllocatorState) (es : list Z) : Prop :=
  match es with
  | [] => True
  | e :: es => takeable a e /\ assignable (take_extent e a) es
  end.

Definition own_all (k : Z) (es : list Z) (a : AllocatorState) : AllocatorState :=
  foldl (fun a e => own k e a) a es.
Definition reserve_all (es : list Z) (a : AllocatorState) : AllocatorState :=
  foldl (fun a e => reserve e a) a es.
Definition release_all (es : list Z) (a : AllocatorState) : AllocatorState :=
  foldl (fun a e => release e a) a es.

(** Takeability only depends on the size of the arena and on what is available. *)
Definition same_free (a a' : AllocatorState) : Prop :=
  totalExtents a = totalExtents a' /\ available a = available a'.

Lemma same_free_take a a' e : same_free a a' -> same_free (take_extent e a) (take_extent e a').
Proof. unfold same_free, take_extent. intros [Ht Ha]. rewrite Ht. destruct (_ <? _); cbn; by rewrite Ha. Qed.

Lemma assignable_ext a a' es : same_free a a' -> assignable a es -> assignable a' es.
Proof.
  revert a a'. induction es as [|e es IH]; intros a a' Hs; [done|]. cbn. intros [Ht Has].
  split; [|by eapply IH, Has; apply same_free_take].
  destruct Hs as [Hs1 Hs2]. unfold takeable in *. by rewrite <- Hs1, <- Hs2.
Qed.

Lemma own_all_ok k es a : AllocOk a -> assignable a es -> AllocOk (own_all k es a).
Proof.
  revert a. induction es as [|e es IH]; intros a A; [done|]. intros [Ht Has]. cbn.
  apply IH; [by apply own_ok|]. by eapply assignable_ext, Has.
Qed.

Lemma reserve_all_ok es a : AllocOk a -> assignable a es -> AllocOk (reserve_all es a).
Proof.
  revert a. induction es as [|e es IH]; intros a A; [done|]. intros [Ht Has]. cbn.
  apply IH; [by apply reserve_ok|]. by eapply assignable_ext, Has.
Qed.

Lemma own_all_ownedBy k es a x :
  ownedBy (own_all k es a) !! x = if decide (x ∈ es) then Some k else ownedBy a !! x.
Proof.
  unfold own_all. revert a. induction es as [|e es IH]; intros a; cbn.
  - case_decide as Hx; [by apply elem_of_nil in Hx|done].
  - rewrite IH. cbn. rewrite take_ownedBy, lookup_insert. repeat case_decide; set_solver.
Qed.

Lemma own_all_quarantine k es a : quarantine (own_all k es a) = quarantine a.
Proof.
  unfold own_all. revert a. induction es as [|e es IH]; intros a; cbn; [done|].
  by rewrite IH; cbn; rewrite take_quarantine.
Qed.

Lemma reserve_all_ownedBy es a : ownedBy (reserve_all es a) = ownedBy a.
Proof.
  unfold reserve_all. revert a. induction es as [|e es IH]; intros a; cbn; [done|].
  by rewrite IH; cbn; rewrite take_ownedBy.
Qed.

Lemma assignable_range a es e : AllocOk a -> assignable a es -> e ∈ es ->
  e ∈ ExtentSet.items (available a) \/ totalExtents a <= e.
Proof.
  revert a. induction es as [|e0 es IH]; intros a A; [by intros _ ?%elem_of_nil|].
  intros [Ht Has] [->|Hin]%elem_of_cons; [destruct Ht; naive_solver lia|].
  pose proof (own_ok 0 e0 a A Ht) as A'.
  destruct (IH (own 0 e0 a) A') as [Hav|Hle]; [by eapply assignable_ext, Has|done| |].
  - left. cbn in Hav. by apply (take_available e0 a e A) in Hav as [? _].
  - right. cbn in Hle. rewrite take_total in Hle by done. destruct (_ <? _); lia.
Qed.

(** The takes that reuse an extent, as the preflight counts them. *)
Definition reused (a : AllocatorState) (es : list Z) : Z :=
  Z.of_nat (length (filter (fun e => e < totalExtents a) es)).

Lemma available_lt a e : AllocOk a -> e ∈ ExtentSet.items (available a) -> 0 <= e < totalExtents a.
Proof. intros A Hin. apply A. auto. Qed.

(** The size of the available set after a sequence of takes. *)
Definition take_all (es : list Z) (a : AllocatorState) : AllocatorState :=
  foldl (fun a e => take_extent e a) a es.

Lemma take_all_size es a : AllocOk a -> assignable a es ->
  ExtentSet.size (available (take_all es a)) = ExtentSet.size (available a) - reused a es.
Proof.
  enough (H : forall a', same_free a a' -> AllocOk a -> assignable a es ->
    ExtentSet.size (available (take_all es a')) = ExtentSet.size (available a) - reused a es)
    by (intros; by apply H).
  unfold take_all, reused. revert a. induction es as [|e es IH]; intros a a' Hs A; cbn [foldl assignable].
  - intros _. destruct Hs as [_ ->]. cbn. lia.
  - intros [Ht Has]. pose proof (own_ok 0 e a A Ht) as A'.
    assert (Has' : assignable (own 0 e a) es) by (by eapply assignable_ext, Has).
    rewrite (IH (own 0 e a)); [|apply (same_free_take a a' e Hs)|done|done].
    assert (Heq : filter (fun x => x < totalExtents (own 0 e a)) es
                  = filter (fun x => x < totalExtents a) es).
    { apply list_filter_ext. intros x Hx. cbn. rewrite take_total by done.
      destruct (assignable_range _ es x A' Has' Hx) as [Hav|Hle]; cbn in *.
      - apply take_available in Hav as [Hav _]; [|done]. apply available_lt in Hav; [|done].
        destruct (_ <? _); lia.
      - rewrite take_total in Hle by done. destruct (_ <? _); lia. }
    rewrite Heq, filter_cons. cbn. unfold take_extent.
    destruct Ht as [[Hlt Hin]|[-> Hm]]; destruct (_ <? _) eqn:E; propify; try lia; cbn.
    + rewrite decide_True by done. rewrite ExtentSet.size_delete by (done || apply A). cbn. lia.
    + rewrite decide_False by lia. done.
Qed.

Lemma own_all_free k es a : same_free (own_all k es a) (take_all es a).
Proof.
  enough (H : forall a', same_free a a' -> same_free (own_all k es a) (take_all es a')) by (by apply H).
  unfold own_all, take_all. revert a. induction es as [|e es IH]; intros a a' Hs; cbn; [done|].
  apply IH. by apply (same_free_take a a' e).
Qed.

Lemma reserve_all_free es a : same_free (reserve_all es a) (take_all es a).
Proof.
  enough (H : forall a', same_free a a' -> same_free (reserve_all es a) (take_all es a')) by (by apply H).
  unfold reserve_all, take_all. revert a. induction es as [|e es IH]; intros a a' Hs; cbn; [done|].
  apply IH. by apply (same_free_take a a' e).
Qed.

(** The quarantine after reserving fresh or available extents. *)
Lemma reserve_all_quarantine es a : AllocOk a -> assignable a es ->
  quarantine (reserve_all es a) = quarantine a ++ ((fun e => (e, None)) <$> es).
Proof.
  unfold reserve_all. revert a. induction es as [|e es IH]; intros a A; cbn; [by rewrite app_nil_r|].
  intros [Ht Has]. rewrite IH; [|by apply reserve_ok|by eapply assignable_ext, Has]. cbn.
  rewrite take_quarantine, JsMap.set_fresh by (by apply takeable_unclassified).
  by rewrite <- app_assoc.
Qed.

(** ** Releasing the extents of a file *)

Lemma release_all_ok es a :
  AllocOk a -> NoDup es -> (forall e, e ∈ es -> is_Some (ownedBy a !! e)) -> AllocOk (release_all es a).
Proof.
  unfold release_all. revert a. induction es as [|e es IH]; intros a A; cbn; [done|].
  intros [Hni Hnd]%NoDup_cons Ho. apply IH; [|done|].
  - apply release_ok; [done|]. apply Ho. set_solver.
  - intros x Hx. cbn. rewrite lookup_delete_ne; [apply Ho; set_solver|]. by intros ->.
Qed.

Lemma release_all_ownedBy es a x :
  ownedBy (release_all es a) !! x = if decide (x ∈ es) then None else ownedBy a !! x.
Proof.
  unfold release_all. revert a. induction es as [|e es IH]; intros a; cbn.
  - case_decide as Hx; [by apply elem_of_nil in Hx|done].
  - rewrite IH. cbn. rewrite lookup_delete. repeat case_decide; set_solver.
Qed.

Lemma release_all_free es a : same_free (release_all es a) a.
Proof.
  unfold release_all. revert a. induction es as [|e es IH]; intros a; cbn; [done|].
  destruct (IH (release e a)) as [H1 H2]. split; [by rewrite H1|by rewrite H2].
Qed.

Lemma release_all_quarantine es a :
  AllocOk a -> NoDup es -> (forall e, e ∈ es -> is_Some (ownedBy a !! e)) ->
  quarantine (release_all es a) = quarantine a ++ ((fun e => (e, None)) <$> es).
Proof.
  unfold release_all. revert a. induction es as [|e es IH]; intros a A; cbn; [by rewrite app_nil_r|].
  intros [Hni Hnd]%NoDup_cons Ho. assert (Hoe : is_Some (ownedBy a !! e)) by (apply Ho; set_solver).
  rewrite IH; [|by apply release_ok|done|].
  - cbn. rewrite JsMap.set_fresh by (by apply a_owned_quarantine). by rewrite <- app_assoc.
  - intros x Hx. cbn. rewrite lookup_delete_ne; [apply Ho; set_solver|]. by intros ->.
Qed.

(** ** The loops of the reducers *)

Lemma forM_allocator (f : Z -> M VfsState unit) (g : Z -> AllocatorState -> AllocatorState) es s :
  (forall e s, f e s = (set_allocator (g e) s, Ok tt)) ->
  forM f es s = (set_allocator (fun a => foldl (fun a e => g e a) a es) s, Ok tt).
Proof.
  intros Hf. revert s. induction es as [|e es IH]; intros s; [destruct s; reflexivity|].
  cbn [forM foldl]. unfold mbind, ST_bind. rewrite Hf, IH. destruct s; reflexivity.
Qed.

Lemma forM_ownExtent k es s :
  forM (ownExtent k) es s = (set_allocator (own_all k es) s, Ok tt).
Proof.
  apply forM_allocator. intros e [? ? ? ? ? ? ? ? ? ? a].
  unfold ownExtent, takeExtent, mbind, ST_bind, st_get, with_allocator, st_modify, own, take_extent, set_allocator.
  cbn. destruct (e <? totalExtents a); reflexivity.
Qed.

Lemma forM_releaseExtent es s :
  forM releaseExtent es s = (set_allocator (release_all es) s, Ok tt).
Proof. apply forM_allocator. by intros e []. Qed.

Lemma forM_reserveExtent es s :
  forM (fun e => takeExtent e ≫= fun _ => quarantineExtent e) es s
  = (set_allocator (reserve_all es) s, Ok tt).
Proof.
  apply forM_allocator. intros e [? ? ? ? ? ? ? ? ? ? a].
  unfold takeExtent, quarantineExtent, mbind, ST_bind, st_get, with_allocator, st_modify, reserve, take_extent, set_allocator.
  cbn. destruct (e <? totalExtents a); reflexivity.
Qed.

(** ** Extent runs and extent choices

    The run-length form of extent lists, and what [validateExtentAssignment] and [chooseExtents]
    guarantee about the extents they return. *)

(** ** Runs *)

Definition expand_run (r : ExtentRun) : list Z := seqZ (run_start r) (run_count r).
Definition flat (runs : list ExtentRun) : list Z := mjoin (expand_run <$> runs).

Definition run_ok (r : ExtentRun) : Prop :=
  1 <= run_count r <= MAX_SAFE_INTEGER /\ u64 (run_start r) /\ u64 (run_start r + run_count r - 1).

Lemma flat_app r1 r2 : flat (r1 ++ r2) = flat r1 ++ flat r2.
Proof. unfold flat. by rewrite fmap_app, join_app. Qed.

Lemma flat_snoc runs r : flat (runs ++ [r]) = flat runs ++ expand_run r.
Proof. rewrite flat_app. unfold flat at 2. cbn. by rewrite app_nil_r. Qed.

Lemma length_expand_run r : run_ok r -> Z.of_nat (length (expand_run r)) = run_count r.
Proof. intros [? _]. unfold expand_run. rewrite length_seqZ. lia. Qed.

Lemma mapR_Ok {E A B} (f : A -> result E B) l l' :
  mapR f l = Ok l' <-> Forall2 (fun x y => f x = Ok y) l l'.
Proof.
  revert l'. induction l as [|x l IH]; intros l'; cbn.
  - split; [intros [= <-]; constructor|by inversion 1].
  - rewrite bind_Ok. setoid_rewrite bind_Ok. setoid_rewrite IH. split.
    + intros (y & Hy & ys & Hys & [= <-]). by constructor.
    + inversion 1; subst. eauto 10.
Qed.

Lemma mapR_fmap {E A B} (f : A -> result E B) (g : A -> B) l :
  (forall x, x ∈ l -> f x = Ok (g x)) -> mapR f l = Ok (g <$> l).
Proof.
  intros Hf. apply mapR_Ok. induction l as [|x l IH]; constructor.
  - apply Hf. set_solver.
  - apply IH. intros y Hy. apply Hf. set_solver.
Qed.

Lemma seqZ_shift m n : (fun o => m + o) <$> seqZ 0 n = seqZ m n.
Proof. rewrite fmap_add_seqZ. f_equal. lia. Qed.

(** The body of the loop of [expandExtentRuns]. *)
Lemma expand_one_Ok run ids :
  1 <= run_count run ->
  mapR (fun offset => checkedAdd (run_start run) offset) (seqZ 0 (run_count run)) = Ok ids ->
  ids = expand_run run /\ (u64 (run_start run) -> u64 (run_start run + run_count run - 1)).
Proof.
  intros Hc H. apply mapR_Ok in H. split.
  - unfold expand_run. rewrite <- seqZ_shift. symmetry. apply list_eq_Forall2.
    apply Forall2_fmap_l. eapply Forall2_impl; [exact H|]. cbn. intros x y. by intros [-> _]%checkedAdd_Ok.
  - intros _. assert (Hin : run_count run - 1 ∈ seqZ 0 (run_count run)) by (apply elem_of_seqZ; lia).
    apply list_elem_of_lookup_1 in Hin as [i Hi]. eapply Forall2_lookup_l in H as (y & _ & Hy); [|done].
    apply checkedAdd_Ok in Hy as [_ Hu]. by rewrite Z.add_sub_assoc in Hu.
Qed.

Lemma expandExtentRuns_Ok runs maximum es :
  expandExtentRuns runs maximum = Ok es <->
  es = flat runs /\ Forall run_ok runs /\ (runs = [] \/ Z.of_nat (length (flat runs)) <= maximum).
Proof.
  unfold expandExtentRuns.
  enough (H : forall acc,
    foldM (fun extents run =>
      checkedU64 (run_start run) ≫= fun _ =>
      throw_if (negb (isSafeInteger (run_count run)) || (run_count run <=? 0)) (FsError EINVAL)
        ≫= fun _ =>
      throw_if (maximum <? Z.of_nat (length extents) + run_count run) StoreLimitError ≫= fun _ =>
      ids ← mapR (fun offset => checkedAdd (run_start run) offset) (seqZ 0 (run_count run));
      Ok (extents ++ ids)) acc runs = Ok es <->
    es = acc ++ flat runs /\ Forall run_ok runs /\
    (runs = [] \/ Z.of_nat (length acc) + Z.of_nat (length (flat runs)) <= maximum)).
  { specialize (H []). cbn in H. rewrite H. by rewrite Z.add_0_l. }
  induction runs as [|run runs IH]; intros acc; cbn [foldM].
  { rewrite app_nil_r. split; [intros [= <-]; auto|by intros (-> & _)]. }
  assert (Hflat : flat (run :: runs) = expand_run run ++ flat runs) by done. rewrite Hflat. split.
  - intros H. apply bind_Ok in H as (acc' & Hacc & H).
    apply bind_Ok in Hacc as (v & [-> Hv]%checkedU64_Ok & Hacc).
    apply bind_Ok in Hacc as (u & Hu%throw_if_Ok & Hacc).
    apply bind_Ok in Hacc as (u2 & Hmax%throw_if_Ok & Hacc).
    apply bind_Ok in Hacc as (ids & Hids & [= <-]). unfold isSafeInteger in Hu. propify.
    apply expand_one_Ok in Hids as [-> Hend]; [|lia].
    assert (Hrun : run_ok run) by (split_and!; auto; ll).
    apply IH in H as (-> & Hall & Hm). pose proof (length_expand_run run Hrun).
    rewrite app_assoc, !length_app, !Nat2Z.inj_add in *. split_and!; [done|by constructor|].
    right. destruct Hm as [->|Hm]; cbn; lia.
  - intros (-> & Hall & [?|Hm]); [done|]. apply Forall_cons in Hall as [Hrun Hall].
    pose proof (length_expand_run run Hrun) as Hlen. destruct Hrun as (Hc & Hs & He).
    rewrite length_app, Nat2Z.inj_add in Hm.
    rewrite (checkedU64_id _ Hs). cbn [mbind result_bind].
    assert (((negb (isSafeInteger (run_count run))) || (run_count run <=? 0))%bool = false) as ->.
    { unfold isSafeInteger. apply orb_false_iff. split; [apply negb_false_iff, Z.leb_le|apply Z.leb_gt]; ll. }
    assert ((maximum <? Z.of_nat (length acc) + run_count run) = false) as -> by (apply Z.ltb_ge; lia).
    cbn [throw_if mbind result_bind].
    rewrite (mapR_fmap _ (fun o => run_start run + o)).
    2:{ intros o Ho%elem_of_seqZ. apply checkedAdd_Ok. split; [done|]. limits. lia. }
    cbn [mbind result_bind]. rewrite seqZ_shift. apply IH.
    rewrite app_assoc, !length_app, !Nat2Z.inj_add. unfold expand_run in *. split_and!; [done|done|].
    right. lia.
Qed.

(** ** Building runs *)

Lemma pushExtent_Ok runs e runs' :
  Forall run_ok runs -> pushExtent runs e = Ok runs' ->
  flat runs' = flat runs ++ [e] /\ Forall run_ok runs'.
Proof.
  intros Hok H. unfold pushExtent in H. apply bind_Ok in H as (v & [-> He]%checkedU64_Ok & H).
  assert (Hone : run_ok (mkRun e 1)) by (split_and!; cbn; ll).
  destruct runs as [|lst runs _] using rev_ind; cbn in H; [injection H as <-; cbn; auto|].
  rewrite last_snoc, removelast_last in H. apply Forall_app in Hok as [Hok [Hl _]%Forall_cons].
  destruct (_ && _) eqn:Hb; injection H as <-; rewrite !flat_snoc.
  - propify. subst e. destruct Hl as (Hc & Hs & Hend). split.
    + unfold expand_run. cbn. rewrite seqZ_app by lia. by rewrite app_assoc.
    + apply Forall_app. split; [done|]. constructor; [|done]. split_and!; cbn; ll.
  - split; [done|]. rewrite !Forall_app. auto.
Qed.

Lemma pushExtent_total runs e : u64 e -> exists runs', pushExtent runs e = Ok runs'.
Proof.
  intros He. unfold pushExtent. rewrite checkedU64_id by done. cbn.
  repeat case_match; eauto.
Qed.

Lemma toExtentRuns_Ok es runs : toExtentRuns es = Ok runs -> flat runs = es /\ Forall run_ok runs.
Proof.
  unfold toExtentRuns. enough (H : forall acc, Forall run_ok acc -> foldM pushExtent acc es = Ok runs ->
    flat runs = flat acc ++ es /\ Forall run_ok runs) by (by apply (H [])).
  induction es as [|e es IH]; intros acc Hacc; cbn.
  - intros [= <-]. by rewrite app_nil_r.
  - intros (acc' & Hp & H)%bind_Ok. apply pushExtent_Ok in Hp as [Hf Hok]; [|done].
    apply IH in H as [-> ?]; [|done]. by rewrite Hf, <- app_assoc.
Qed.

Lemma toExtentRuns_total es : Forall u64 es -> exists runs, toExtentRuns es = Ok runs.
Proof.
  unfold toExtentRuns. generalize (@nil ExtentRun). induction es as [|e es IH]; intros acc; cbn; [eauto|].
  intros [He Hes]%Forall_cons. destruct (pushExtent_total acc e He) as [acc' ->]. by apply IH.
Qed.

(** Run-length encoding loses nothing, up to the length limit of the reader. *)
Lemma expand_toExtentRuns es runs maximum :
  toExtentRuns es = Ok runs -> Z.of_nat (length es) <= maximum ->
  expandExtentRuns runs maximum = Ok es.
Proof.
  intros [Hf Hok]%toExtentRuns_Ok Hlen. apply expandExtentRuns_Ok. rewrite Hf. auto.
Qed.

(** ** What a validated assignment guarantees *)

Lemma assignExtent_Ok s nf e nf' :
  assignExtent s nf e = Ok nf' ->
  (e < totalExtents (allocator s) /\ ExtentSet.has (available (allocator s)) e = true /\ nf' = nf) \/
  (totalExtents (allocator s) <= e /\ e = nf /\ nf' = nf + 1).
Proof.
  unfold assignExtent. destruct (_ <? _) eqn:E; intros H; inv_ok; propify.
  - left. auto.
  - right. auto.
Qed.

Lemma assign_all_mono s es nf nf' :
  foldM (assignExtent s) nf es = Ok nf' -> nf <= nf'.
Proof.
  revert nf. induction es as [|e es IH]; intros nf; cbn; [intros [= <-]; lia|].
  intros (nf1 & H1 & H2)%bind_Ok. apply IH in H2. apply assignExtent_Ok in H1. lia.
Qed.

Lemma has_delete_ne av x e : ExtentSet.wf av -> x <> e ->
  ExtentSet.has (ExtentSet.delete av e).1 x = ExtentSet.has av x.
Proof.
  intros W Hne. apply Bool.eq_true_iff_eq.
  rewrite (ExtentSet.mem_true av x W), (ExtentSet.mem_true _ x (ExtentSet.delete_wf av e W)).
  rewrite ExtentSet.elem_of_delete by done. naive_solver.
Qed.

(** The loop of [validateExtentAssignment] against an allocator that has already taken some of the
    extents: [avail] and [nf] are what is left of it. *)
Lemma assign_all_assignable s es nf nf' a :
  ExtentSet.wf (available a) ->
  totalExtents a = nf -> totalExtents (allocator s) <= nf ->
  (forall e, e ∈ es -> e < totalExtents (allocator s) ->
     ExtentSet.has (available (allocator s)) e = true -> ExtentSet.has (available a) e = true) ->
  foldM (assignExtent s) nf es = Ok nf' -> nf' <= MAX_TOTAL_EXTENTS -> NoDup es ->
  assignable a es.
Proof.
  revert nf a. induction es as [|e es IH]; intros nf a W Ht Hle Hav; [done|].
  cbn [foldM assignable]. intros (nf1 & H1 & H2)%bind_Ok Hmax [Hni Hnd]%NoDup_cons.
  pose proof (assign_all_mono _ _ _ _ H2) as Hmono.
  apply assignExtent_Ok in H1 as [(Hlt & Hhas & ->)|(Hge & -> & ->)].
  - assert (Hta : e ∈ ExtentSet.items (available a)).
    { apply ExtentSet.mem_true; [done|]. apply Hav; [set_solver|done..]. }
    split; [left; split; [lia|done]|]. unfold take_extent.
    destruct (e <? totalExtents a) eqn:E; propify; [|lia].
    eapply (IH nf); cbn; [by apply ExtentSet.delete_wf|done|done| |done|done|done].
    intros x Hx Hxl Hxh. rewrite has_delete_ne; [|done|by intros ->]. apply Hav; [set_solver|done..].
  - split; [right; split; [done|lia]|]. unfold take_extent.
    destruct (nf <? totalExtents a) eqn:E; propify; [lia|].
    eapply (IH (nf + 1)); cbn; [done|lia|lia| |done|done|done].
    intros x Hx. apply Hav. set_solver.
Qed.

Lemma size_list_to_set_le (l : list Z) : (size (list_to_set l : gset Z) <= length l)%nat.
Proof.
  induction l as [|x l IH]; cbn; [by rewrite size_empty|].
  rewrite size_union_alt, size_singleton.
  pose proof (subseteq_size (list_to_set l ∖ {[x]} : gset Z) (list_to_set l) ltac:(set_solver)). lia.
Qed.

(** [new Set(extents).size === extents.length] says that the extents are distinct. *)
Lemma size_list_to_set_NoDup (l : list Z) :
  size (list_to_set l : gset Z) = length l <-> NoDup l.
Proof.
  split.
  - induction l as [|x l IH]; cbn; [constructor|]. intros H.
    destruct (decide (x ∈ (list_to_set l : gset Z))) as [Hx|Hx].
    + assert ({[x]} ∪ list_to_set l = (list_to_set l : gset Z)) as Hu by set_solver. rewrite Hu in H.
      pose proof (size_list_to_set_le l). lia.
    + rewrite size_union, size_singleton in H by set_solver. constructor; [set_solver|]. apply IH. lia.
  - intros H. by apply size_list_to_set.
Qed.

Lemma validateExtentAssignment_Ok s runs n es :
  AllocOk (allocator s) -> validateExtentAssignment s runs n = Ok es ->
  expandExtentRuns runs MAX_EXTENTS_PER_INODE = Ok es /\ Z.of_nat (length es) = n /\ NoDup es /\
  assignable (allocator s) es.
Proof.
  intros A H. unfold validateExtentAssignment in H. inv_ok.
  match goal with H : Nat.eqb _ _ = true |- _ => apply Nat.eqb_eq, size_list_to_set_NoDup in H end.
  split_and!; [done..|]. eapply assign_all_assignable; try done; [apply A].
Qed.

(** ** What the chooser returns *)

Lemma rev_reverse {A} (l : list A) : rev l = reverse l.
Proof. apply rev_alt. Qed.

(** Distinct available extents, the last added first, then fresh ones. *)
Lemma assignable_chosen a chosen n :
  AllocOk a -> 0 <= n -> totalExtents a + n <= MAX_TOTAL_EXTENTS -> NoDup chosen ->
  (forall e, e ∈ chosen -> e ∈ ExtentSet.items (available a)) ->
  assignable a (chosen ++ seqZ (totalExtents a) n).
Proof.
  intros A Hn Hmax. revert a A Hmax. induction chosen as [|e es IH]; intros a A Hmax Hnd Hin; cbn.
  - clear Hin Hnd. revert a A Hmax. pattern n. apply natlike_ind; [|clear n Hn|done].
    { intros a A. by rewrite seqZ_nil. }
    intros n Hn IH a A Hmax. rewrite seqZ_cons by lia. cbn.
    assert (Ht : takeable a (totalExtents a)) by (right; split; [done|lia]).
    split; [done|]. assert (Htot : totalExtents (own 0 (totalExtents a) a) = Z.succ (totalExtents a)).
    { cbn. rewrite take_total by done. destruct (_ <? _) eqn:E; propify; lia. }
    rewrite Z.pred_succ. eapply assignable_ext; [|rewrite <- Htot; apply (IH (own 0 (totalExtents a) a))].
    + done.
    + by apply own_ok.
    + lia.
  - apply NoDup_cons in Hnd as [Hni Hnd].
    assert (Hav : e ∈ ExtentSet.items (available a)) by (apply Hin; set_solver).
    pose proof (available_lt a e A Hav) as Hlt.
    assert (Ht : takeable a e) by (left; split; [lia|done]). split; [done|].
    assert (Htot : totalExtents (own 0 e a) = totalExtents a).
    { cbn. rewrite take_total by done. destruct (_ <? _) eqn:E; propify; lia. }
    eapply assignable_ext; [|rewrite <- Htot; apply (IH (own 0 e a))].
    + done.
    + by apply own_ok.
    + lia.
    + done.
    + intros x Hx. cbn. apply take_available; [done|]. split; [apply Hin; set_solver|].
      by intros _ ->.
Qed.

Lemma chooseExtents_Ok s n es :
  AllocOk (allocator s) -> 0 <= n -> chooseExtents s n = Ok es ->
  Z.of_nat (length es) = n /\ n <= MAX_EXTENTS_PER_INODE /\ NoDup es /\ assignable (allocator s) es.
Proof.
  intros A Hn H. unfold chooseExtents in H. inv_ok.
  match goal with H : ExtentSet.peekLast _ _ = Ok _ |- _ => apply ExtentSet.peekLast_Ok in H as [Hc ->] end.
  set (c := Z.min n (ExtentSet.size (available (allocator s)))) in *. rewrite seqZ_shift.
  set (its := ExtentSet.items (available (allocator s))) in *.
  assert (Hnd : NoDup its) by apply (a_available _ A).
  assert (Hsub : forall e, e ∈ rev (drop (length its - Z.to_nat c) its) -> e ∈ its).
  { intros e. rewrite rev_reverse, elem_of_reverse. apply subseteq_drop. }
  assert (Hndc : NoDup (rev (drop (length its - Z.to_nat c) its))).
  { rewrite rev_reverse. rewrite reverse_Permutation. eapply sublist_NoDup; [done|apply sublist_drop]. }
  assert (Hlen : Z.of_nat (length (rev (drop (length its - Z.to_nat c) its))) = c).
  { rewrite length_rev, length_drop. unfold ExtentSet.size in *. fold its in Hc. lia. }
  split_and!.
  - rewrite length_app, length_seqZ. lia.
  - done.
  - apply NoDup_app. split_and!; [done| |apply NoDup_seqZ]. intros e He%Hsub%(available_lt _ _ A).
    rewrite elem_of_seqZ. lia.
  - apply assignable_chosen; [done|lia|lia|done|by apply Hsub].
Qed.

Lemma assignExtent_available s nf e :
  ExtentSet.wf (available (allocator s)) -> e < totalExtents (allocator s) ->
  e ∈ ExtentSet.items (available (allocator s)) -> assignExtent s nf e = Ok nf.
Proof.
  intros W Hlt Hin%(ExtentSet.mem_true _ e W). unfold assignExtent. rewrite Hin.
  by rewrite (proj2 (Z.ltb_lt _ _) Hlt).
Qed.

Lemma assignExtent_fresh s nf :
  totalExtents (allocator s) <= nf -> assignExtent s nf nf = Ok (nf + 1).
Proof.
  intros Hle. unfold assignExtent. rewrite (proj2 (Z.ltb_ge _ _) Hle). by rewrite Z.eqb_refl.
Qed.

(** A choice made by the planner passes the reducer's validation. *)
Lemma assign_all_Ok s es nf a :
  ExtentSet.wf (available a) -> ExtentSet.wf (available (allocator s)) ->
  totalExtents a = nf -> totalExtents (allocator s) <= nf ->
  (forall e, e ∈ ExtentSet.items (available a) ->
     e < totalExtents (allocator s) /\ e ∈ ExtentSet.items (available (allocator s))) ->
  assignable a es -> nf <= MAX_TOTAL_EXTENTS ->
  exists nf', foldM (assignExtent s) nf es = Ok nf' /\ nf' <= MAX_TOTAL_EXTENTS.
Proof.
  intros W Ws. revert nf a W. induction es as [|e es IH]; intros nf a W Ht Hle Hav; cbn; [eauto|].
  intros [Hta Has] Hmax. unfold take_extent in Has. destruct Hta as [[Hlt Hin]|[-> Hm]].
  - destruct (Hav e Hin) as [Hlts Hins]. rewrite assignExtent_available by done. cbn.
    rewrite (proj2 (Z.ltb_lt _ _) Hlt) in Has.
    eapply (IH nf (set_available _ a)); [|done|done| |exact Has|done]; cbn; [by apply ExtentSet.delete_wf|].
    intros x. rewrite ExtentSet.elem_of_delete by done. intros [_ ?]. by apply Hav.
  - rewrite Ht, assignExtent_fresh by lia. cbn. rewrite Z.ltb_irrefl in Has.
    eapply (IH (nf + 1) (set_totalExtents _ a)); [| | | |exact Has|]; cbn; [done|lia|lia|done|lia].
Qed.

Lemma validate_chosen s n runs es :
  AllocOk (allocator s) -> 0 <= n -> chooseExtents s n = Ok es -> toExtentRuns es = Ok runs ->
  validateExtentAssignment s runs n = Ok es /\ expandExtentRuns runs MAX_EXTENTS_PER_INODE = Ok es.
Proof.
  intros A Hn Hc Hr. apply chooseExtents_Ok in Hc as (Hlen & Hmax & Hnd & Has); [|done..].
  pose proof (expand_toExtentRuns es runs MAX_EXTENTS_PER_INODE Hr ltac:(lia)) as Hx.
  split; [|done]. unfold validateExtentAssignment. rewrite Hx. cbn.
  assert ((Z.of_nat (length es) =? n) = true) as -> by (apply Z.eqb_eq; lia). cbn.
  rewrite (proj2 (size_list_to_set_NoDup es) Hnd), Nat.eqb_refl. cbn.
  destruct (assign_all_Ok s es (totalExtents (allocator s)) (allocator s)) as (nf & -> & Hnf);
    [apply A|apply A|done|done| |done|apply A|].
  - intros e He. split; [|done]. by apply available_lt.
  - cbn. by assert ((MAX_TOTAL_EXTENTS <? nf) = false) as -> by (apply Z.ltb_ge; lia).
Qed.

(** ** Ownership checks *)

Lemma checkOwned_Ok s k es :
  checkOwned s k es = Ok tt <->
  forall e, e ∈ es -> ownedBy (allocator s) !! e = Some k /\ e ∉ JsMap.keys (quarantine (allocator s)).
Proof.
  unfold checkOwned. induction es as [|e es IH]; cbn; [set_solver|]. rewrite bind_Ok. split.
  - intros ([] & H1%throw_if_Ok & H2) x [->|Hx]%elem_of_cons; [|by apply IH]. propify.
    split; [done|by apply JsMap.has_false].
  - intros H. exists tt. split; [|apply IH; intros x Hx; apply H; set_solver].
    destruct (H e ltac:(set_solver)) as [Ho Hq]. apply throw_if_Ok, orb_false_iff. split.
    + by apply negb_false_iff, bool_decide_eq_true.
    + by apply JsMap.has_false.
Qed.
