(* ===== verification/Accounting.v ===== *)
(** * Sizes of the canonical base encoding

    The byte counts of [state-machine.ts] as total functions of the state, and how the elementary
    edits of the inode map change them. *)

From S2P Require Export Alloc.

(** ** Sums over finite maps *)

Section MapSum.
Context {K A : Type} `{Countable K}.
Implicit Types m : gmap K A.

Definition map_sum (w : K -> A -> Z) (m : gmap K A) : Z := map_fold (fun k x acc => w k x + acc) 0 m.

Context (w : K -> A -> Z).

Lemma map_sum_empty : map_sum w ∅ = 0.
Proof. apply map_fold_empty. Qed.

Lemma map_sum_insert m k x : m !! k = None -> map_sum w (<[k := x]> m) = w k x + map_sum w m.
Proof.
  intros Hk. unfold map_sum. rewrite (map_fold_insert_L (fun k x acc => w k x + acc)); [done| |done].
  intros. lia.
Qed.

Lemma map_sum_delete m k x : m !! k = Some x -> map_sum w (delete k m) = map_sum w m - w k x.
Proof.
  intros Hk. rewrite <- (insert_delete_id m k x Hk) at 2. rewrite map_sum_insert by apply lookup_delete_eq.
  lia.
Qed.

Lemma map_sum_alter m k x f : m !! k = Some x ->
  map_sum w (alter f k m) = map_sum w m - w k x + w k (f x).
Proof.
  intros Hk. rewrite <- (insert_delete_id m k x Hk) at 1. rewrite alter_insert_eq.
  rewrite map_sum_insert by apply lookup_delete_eq. rewrite (map_sum_delete m k x Hk). lia.
Qed.

Lemma map_sum_alter_same m k f : (forall x, w k (f x) = w k x) -> map_sum w (alter f k m) = map_sum w m.
Proof.
  intros Hf. destruct (m !! k) as [x|] eqn:E; [|by rewrite alter_id by naive_solver].
  rewrite (map_sum_alter m k x f E), Hf. lia.
Qed.

Lemma map_sum_nonneg m : (forall k x, m !! k = Some x -> 0 <= w k x) -> 0 <= map_sum w m.
Proof.
  intros Hw. induction m as [|k x m Hk IH] using map_ind; [by rewrite map_sum_empty|].
  rewrite map_sum_insert by done. pose proof (Hw k x (lookup_insert_eq _ _ _)).
  enough (0 <= map_sum w m) by lia. apply IH. intros k' x' Hk'. apply (Hw k').
  rewrite lookup_insert_ne; [done|congruence].
Qed.

(** The sum over [map_to_list], in any order. *)
Lemma map_sum_to_list m :
  map_sum w m = foldr (fun '(k, x) acc => w k x + acc) 0 (map_to_list m).
Proof. unfold map_sum. rewrite map_fold_foldr. done. Qed.
End MapSum.

(** [bytes += h(x)] over a list. *)
Lemma foldM_add_Ok {E X} (h : X -> result E Z) (w : X -> Z) l acc r :
  (forall x n, h x = Ok n -> n = w x) ->
  foldM (fun bytes x => n ← h x; Ok (bytes + n)) acc l = Ok r ->
  r = acc + foldr (fun x sum => w x + sum) 0 l.
Proof.
  intros Hw. revert acc. induction l as [|x l IH]; intros acc; cbn; [intros [= <-]; lia|].
  intros (a & (n & Hn & [= <-])%bind_Ok & H)%bind_Ok. apply Hw in Hn as ->. rewrite (IH _ H). lia.
Qed.

Lemma foldM_add_total {E X} (h : X -> result E Z) (w : X -> Z) l acc :
  (forall x, x ∈ l -> h x = Ok (w x)) ->
  foldM (fun bytes x => n ← h x; Ok (bytes + n)) acc l
  = Ok (acc + foldr (fun x sum => w x + sum) 0 l).
Proof.
  revert acc. induction l as [|x l IH]; intros acc Hl; cbn; [by rewrite Z.add_0_r|].
  rewrite Hl by set_solver. cbn. rewrite IH by set_solver. f_equal. lia.
Qed.

Lemma foldr_fmap_sum {X Y} (g : X -> Y) (w : Y -> Z) l :
  foldr (fun y sum => w y + sum) 0 (g <$> l) = foldr (fun x sum => w (g x) + sum) 0 l.
Proof. induction l as [|x l IH]; cbn; [done|]. by rewrite IH. Qed.

(** ** Sizes *)

Definition child_bytes (name : jsstr) : Z := CHILD_FIXED_BYTES + ulen name.
Definition children_bytes (ch : Children) : Z := map_sum (fun name _ => child_bytes name) ch.

Definition inode_bytes (i : Inode) : Z :=
  match inode_kind i with
  | File _ es => FILE_INODE_FIXED_BYTES + Z.of_nat (length es) * 8
  | Symlink t => SYMLINK_INODE_FIXED_BYTES + ulen t
  | Directory ch => DIRECTORY_INODE_FIXED_BYTES + children_bytes ch
  end.

Definition inodes_bytes (I : gmap Z Inode) : Z := map_sum (fun _ i => inode_bytes i) I.

Arguments inodes_bytes I : simpl never.

Definition alloc_bytes (a : AllocatorState) : Z :=
  ExtentSet.size (available a) * 8 + Z.of_nat (length (quarantine a)) * 16.

Arguments alloc_bytes a : simpl never.

Definition base_bytes (s : VfsState) : Z :=
  BASE_STATE_FIXED_BYTES + inodes_bytes (inodes s) + alloc_bytes (allocator s).

Lemma childBaseBytes_Ok name n : childBaseBytes name = Ok n -> n = child_bytes name.
Proof. unfold childBaseBytes. intros H. inv_ok. by apply utf8Length_ulen in Hx as ->. Qed.

Lemma children_bytes_list ch :
  children_bytes ch = foldr (fun n sum => child_bytes n + sum) 0 (map_to_list ch).*1.
Proof.
  unfold children_bytes. rewrite map_sum_to_list, foldr_fmap_sum.
  induction (map_to_list ch) as [|[n c] l IH]; cbn; [done|]. by rewrite IH.
Qed.

Lemma inodeBaseBytes_Ok i n : inodeBaseBytes i = Ok n -> n = inode_bytes i.
Proof.
  unfold inodeBaseBytes, inode_bytes. destruct (inode_kind i); intros H; inv_ok; try done.
  - rewrite children_bytes_list. eapply foldM_add_Ok; [|done]. apply childBaseBytes_Ok.
  - by apply utf8Length_ulen in Hx as ->.
Qed.

Lemma inodeBaseBytes_total es i : kind_ok es (inode_kind i) -> inodeBaseBytes i = Ok (inode_bytes i).
Proof.
  intros Hk. unfold inodeBaseBytes, inode_bytes. destruct (inode_kind i); [|done|].
  - rewrite children_bytes_list. apply foldM_add_total. intros name Hin.
    apply list_elem_of_fmap in Hin as ([n c] & -> & Hin). apply elem_of_map_to_list in Hin.
    destruct (Hk _ _ Hin) as [m Hm]. unfold validatePathComponent in Hm. inv_ok.
    unfold childBaseBytes, encodedUtf8Length. rewrite Hx1. cbn. unfold child_bytes.
    by apply utf8Length_ulen in Hx1 as ->.
  - destruct Hk as [m Hm]. unfold validateSymlinkTarget in Hm. inv_ok.
    unfold encodedUtf8Length. rewrite Hx. cbn. by apply utf8Length_ulen in Hx as ->.
Qed.

(** [estimateMetadataBasePayloadBytes] computes the size. *)
Lemma estimateMetadataBasePayloadBytes_total es s :
  (forall k i, inodes s !! k = Some i -> kind_ok es (inode_kind i)) ->
  estimateMetadataBasePayloadBytes s = Ok (base_bytes s).
Proof.
  intros Hk. unfold estimateMetadataBasePayloadBytes, base_bytes, inodes_bytes, alloc_bytes.
  rewrite (foldM_add_total _ inode_bytes).
  - cbn. f_equal. rewrite map_sum_to_list, foldr_fmap_sum.
    assert (forall l : list (Z * Inode), foldr (fun x sum => inode_bytes x.2 + sum) 0 l
      = foldr (fun '(_, x) acc => inode_bytes x + acc) 0 l) as ->
      by (induction l as [|[? ?] l IH]; cbn; [done|]; by rewrite IH). lia.
  - intros i Hin. apply list_elem_of_fmap in Hin as ([k i'] & -> & Hin%elem_of_map_to_list).
    by eapply inodeBaseBytes_total, Hk.
Qed.

(** ** Effect of the elementary edits *)

Lemma inodes_bytes_insert I k i : I !! k = None -> inodes_bytes (<[k := i]> I) = inode_bytes i + inodes_bytes I.
Proof. apply map_sum_insert. Qed.

Lemma inodes_bytes_delete I k i : I !! k = Some i -> inodes_bytes (delete k I) = inodes_bytes I - inode_bytes i.
Proof. apply (map_sum_delete (fun _ => inode_bytes)). Qed.

Lemma inodes_bytes_alter I k i f : I !! k = Some i ->
  inodes_bytes (alter f k I) = inodes_bytes I - inode_bytes i + inode_bytes (f i).
Proof. apply (map_sum_alter (fun _ => inode_bytes)). Qed.

(** Attribute changes do not change sizes. *)
Lemma inodes_bytes_touch I k f :
  (forall i, inode_kind (f i) = inode_kind i) -> inodes_bytes (alter f k I) = inodes_bytes I.
Proof. intros Hf. apply map_sum_alter_same. intros i. unfold inode_bytes. by rewrite Hf. Qed.

Lemma inode_bytes_children g i ch :
  inode_kind i = Directory ch ->
  inode_bytes (on_children g i) = inode_bytes i - children_bytes ch + children_bytes (g ch).
Proof. unfold inode_bytes. cbn. intros ->. lia. Qed.

Lemma inodes_bytes_add_entry I p ch n c : is_dir_at I p ch -> ch !! n = None ->
  inodes_bytes (alter (on_children (insert n c)) p I) = inodes_bytes I + child_bytes n.
Proof.
  intros (i & Hi & Hk) Hn. rewrite (inodes_bytes_alter _ _ _ _ Hi), (inode_bytes_children _ _ _ Hk).
  unfold children_bytes. rewrite map_sum_insert by done. lia.
Qed.

Lemma inodes_bytes_drop_entry I p ch n c : is_dir_at I p ch -> ch !! n = Some c ->
  inodes_bytes (alter (on_children (delete n)) p I) = inodes_bytes I - child_bytes n.
Proof.
  intros (i & Hi & Hk) Hn. rewrite (inodes_bytes_alter _ _ _ _ Hi), (inode_bytes_children _ _ _ Hk).
  unfold children_bytes. rewrite (map_sum_delete _ _ _ _ Hn). lia.
Qed.

(** ** Ownership of extents *)

Definition kind_extents (k : InodeKind) : list Z := match k with File _ es => es | _ => [] end.
Definition extents_of (I : gmap Z Inode) (k : Z) : list Z :=
  match I !! k with Some i => kind_extents (inode_kind i) | None => [] end.

(** [ownedBy] is the inverse of the extent lists of the files. *)
Record OwnOk (I : gmap Z Inode) (ob : gmap Z Z) : Prop := {
  own_iff : forall e k, ob !! e = Some k <-> e ∈ extents_of I k;
  own_nodup : forall k, NoDup (extents_of I k)
}.

Lemma extents_of_insert I k i x :
  extents_of (<[k := i]> I) x = if decide (k = x) then kind_extents (inode_kind i) else extents_of I x.
Proof. unfold extents_of. rewrite lookup_insert. by case_decide. Qed.

Lemma extents_of_delete I k x :
  extents_of (delete k I) x = if decide (k = x) then [] else extents_of I x.
Proof. unfold extents_of. rewrite lookup_delete. by case_decide. Qed.

Lemma extents_of_alter I k f x :
  (forall i, kind_extents (inode_kind (f i)) = kind_extents (inode_kind i)) ->
  extents_of (alter f k I) x = extents_of I x.
Proof.
  intros Hf. unfold extents_of. rewrite lookup_alter. case_decide; [subst|done].
  destruct (I !! x); cbn; auto.
Qed.

Lemma extents_of_children I k g x : extents_of (alter (on_children g) k I) x = extents_of I x.
Proof. apply extents_of_alter. intros i. cbn. by destruct (inode_kind i). Qed.

Lemma extents_of_touch I k f x :
  (forall i, inode_kind (f i) = inode_kind i) -> extents_of (alter f k I) x = extents_of I x.
Proof. intros Hf. apply extents_of_alter. intros i. by rewrite Hf. Qed.

Lemma own_same I I' ob : (forall k, extents_of I' k = extents_of I k) -> OwnOk I ob -> OwnOk I' ob.
Proof. intros He []. split; intros; rewrite He; auto. Qed.

(** One inode [k] changes its extents from [extents_of I k] to [extents_of I' k]. *)
Lemma own_update I I' ob ob' k :
  OwnOk I ob ->
  (forall x, x <> k -> extents_of I' x = extents_of I x) ->
  NoDup (extents_of I' k) ->
  (forall e, e ∈ extents_of I' k -> ob !! e = None \/ ob !! e = Some k) ->
  (forall e, ob' !! e = if decide (e ∈ extents_of I' k) then Some k
                        else if decide (e ∈ extents_of I k) then None else ob !! e) ->
  OwnOk I' ob'.
Proof.
  intros [Hiff Hnd] Hsame Hndk Hfree Hob. split; intros x; [intros y|destruct (decide (x = k)) as [->|]; [done|by rewrite Hsame]].
  rewrite Hob. destruct (decide (y = k)) as [->|Hne].
  - repeat case_decide; naive_solver.
  - rewrite (Hsame y Hne), <- (Hiff x y). destruct (decide (x ∈ extents_of I' k)) as [Hd|_].
    + destruct (Hfree x Hd) as [Hf|Hf]; rewrite Hf; split; congruence.
    + destruct (decide (x ∈ extents_of I k)) as [He|_]; [|done].
      apply Hiff in He. rewrite He. split; congruence.
Qed.

(** ** Sizes of the allocator *)

Lemma own_all_bytes k es a : AllocOk a -> assignable a es ->
  alloc_bytes (own_all k es a) = alloc_bytes a - 8 * reused a es.
Proof.
  intros A Has. unfold alloc_bytes. destruct (own_all_free k es a) as [_ ->].
  rewrite take_all_size, own_all_quarantine by done. lia.
Qed.

Lemma reserve_all_bytes es a : AllocOk a -> assignable a es ->
  alloc_bytes (reserve_all es a) = alloc_bytes a - 8 * reused a es + 16 * Z.of_nat (length es).
Proof.
  intros A Has. unfold alloc_bytes. destruct (reserve_all_free es a) as [_ ->].
  rewrite take_all_size, reserve_all_quarantine by done. rewrite length_app, length_fmap. lia.
Qed.

Lemma release_all_bytes es a :
  AllocOk a -> NoDup es -> (forall e, e ∈ es -> is_Some (ownedBy a !! e)) ->
  alloc_bytes (release_all es a) = alloc_bytes a + 16 * Z.of_nat (length es).
Proof.
  intros A Hnd Ho. unfold alloc_bytes. destruct (release_all_free es a) as [_ ->].
  rewrite release_all_quarantine by done. rewrite length_app, length_fmap. lia.
Qed.

Lemma assignable_unowned a es e : AllocOk a -> assignable a es -> e ∈ es -> ownedBy a !! e = None.
Proof.
  intros A Has He. apply eq_None_not_Some. intros Ho.
  destruct (assignable_range a es e A Has He) as [Hav|Hle].
  - by apply (a_owned_available a A e).
  - assert (0 <= e < totalExtents a) by (apply A; auto). lia.
Qed.

Lemma selectedExtents_reused s runs es n :
  expandExtentRuns runs MAX_EXTENTS_PER_INODE = Ok es ->
  selectedExtentsAlreadyAvailable s runs = Ok n -> n = reused (allocator s) es.
Proof. unfold selectedExtentsAlreadyAvailable. intros ->. cbn. by intros [= <-]. Qed.

(** Entries appended to the quarantine carry no generation. *)
Lemma elem_of_pending (q : list (Z * option Z)) es e g :
  (e, Some g) ∈ q ++ ((fun e => (e, None)) <$> es) -> (e, Some g) ∈ q.
Proof. rewrite elem_of_app, list_elem_of_fmap. naive_solver. Qed.
