(* ===== verification/Walks.v ===== *)
(** * The tree walks

    What [findPathMetrics], [directoryContains] and [validateRenamedSubtreeBounds] compute on a well
    formed tree, and that they terminate. *)

From S2P Require Export Accounting.

(** ** Running out of fuel *)

Abbreviation no_fuel m := (m <> Throw FuelExhausted).

Lemma no_fuel_bind {A B} (m : R A) (f : A -> R B) :
  no_fuel m -> (forall a, m = Ok a -> no_fuel (f a)) -> no_fuel (m ≫= f).
Proof. destruct m as [a|e]; cbn; [auto|]. intros H _ [= ->]. done. Qed.

Lemma no_fuel_throw_if b e : e <> FuelExhausted -> no_fuel (throw_if b e).
Proof. destruct b; cbn; congruence. Qed.

Lemma no_fuel_or_throw {A} (o : option A) e : e <> FuelExhausted -> no_fuel (or_throw o e).
Proof. destruct o; cbn; congruence. Qed.

Lemma no_fuel_rethrow_as {A} (m : R A) e : e <> FuelExhausted -> no_fuel (rethrow_as e m).
Proof. destruct m; cbn; congruence. Qed.

Lemma no_fuel_foldM {A B} (f : B -> A -> R B) l acc :
  (forall b a, a ∈ l -> no_fuel (f b a)) -> no_fuel (foldM f acc l).
Proof.
  revert acc. induction l as [|x l IH]; intros acc Hf; cbn; [done|].
  apply no_fuel_bind; [apply Hf; set_solver|]. intros b _. apply IH. intros b' a Ha. apply Hf. set_solver.
Qed.

Lemma no_fuel_mapR {A B} (f : A -> R B) l : (forall a, no_fuel (f a)) -> no_fuel (mapR f l).
Proof.
  intros Hf. induction l as [|x l IH]; cbn; [done|]. apply no_fuel_bind; [done|]. intros b _.
  by apply no_fuel_bind.
Qed.

Create HintDb nofuel.
#[export] Hint Resolve no_fuel_throw_if no_fuel_or_throw no_fuel_rethrow_as : nofuel.
#[export] Hint Extern 1 (_ <> FuelExhausted) => discriminate : nofuel.
#[export] Hint Extern 1 (Ok _ <> _) => discriminate : nofuel.
#[export] Hint Extern 1 (Throw _ <> _) => discriminate : nofuel.

(** Walk over a function body: every statement either is a known call or branches. *)
Ltac nofuel :=
  repeat first
    [ solve [eauto 3 with nofuel]
    | apply no_fuel_bind; [|intros]
    | match goal with |- context [match ?x with _ => _ end] => destruct x end ].

Lemma no_fuel_checkedU64 v : no_fuel (checkedU64 v).
Proof. unfold checkedU64. nofuel. Qed.
#[export] Hint Resolve no_fuel_checkedU64 : nofuel.

Lemma no_fuel_utf8Length_from value b : no_fuel (utf8Length_from value b).
Proof.
  revert b. induction value as [value IH] using (induction_ltof1 _ (@length Z)). unfold ltof in IH.
  intros b. destruct value as [|c [|d rest]]; cbn; repeat case_match; try done;
    apply IH; cbn; lia.
Qed.

Lemma no_fuel_utf8Length value : no_fuel (utf8Length value).
Proof. apply no_fuel_utf8Length_from. Qed.
#[export] Hint Resolve no_fuel_utf8Length : nofuel.

Lemma no_fuel_encodedUtf8Length value : no_fuel (encodedUtf8Length value).
Proof. apply no_fuel_utf8Length_from. Qed.
#[export] Hint Resolve no_fuel_encodedUtf8Length : nofuel.

Lemma no_fuel_validatePathComponent name : no_fuel (validatePathComponent name).
Proof. unfold validatePathComponent. nofuel. Qed.
#[export] Hint Resolve no_fuel_validatePathComponent : nofuel.

Lemma no_fuel_childPathMetrics m name : no_fuel (childPathMetrics m name).
Proof. unfold childPathMetrics. nofuel. Qed.
#[export] Hint Resolve no_fuel_childPathMetrics : nofuel.

Lemma no_fuel_inodeById s k : no_fuel (inodeById s k).
Proof. unfold inodeById. nofuel. Qed.
#[export] Hint Resolve no_fuel_inodeById : nofuel.

(** ** Climbing to the root *)

Lemma childPathMetrics_Ok names name m :
  childPathMetrics (metrics names) name = Ok m -> m = metrics (names ++ [name]).
Proof.
  unfold childPathMetrics, encodedUtf8Length. intros H. inv_ok. rewrite metrics_snoc.
  by apply utf8Length_ulen in Hx as ->.
Qed.

Lemma climb_Ok fuel s visited cur d cb m :
  climb fuel s visited cur d cb = Ok m ->
  exists names, PathTo (parentByInode s) (rootInodeId s) cur names /\
    m = mkMetrics (d + Z.of_nat (length names))
          (1 + (cb + foldr (fun n acc => ulen n + acc) 0 names)
           + Z.max 0 (d + Z.of_nat (length names) - 1)).
Proof.
  revert visited cur d cb. induction fuel as [|fuel IH]; intros visited cur d cb; cbn;
    destruct (cur =? _) eqn:E; propify; try done.
  - intros [= <-]. subst. exists []. split; [constructor|]. cbn. f_equal; lia.
  - intros [= <-]. subst. exists []. split; [constructor|]. cbn. f_equal; lia.
  - unfold encodedUtf8Length. intros H. inv_ok. destruct x0 as [p name].
    apply utf8Length_ulen in Hx1 as ->. apply IH in H as (names & Hp & ->). cbn in *.
    exists (names ++ [name]). split; [by econstructor|].
    rewrite length_app, foldr_ulen_app. cbn. f_equal; lia.
Qed.

Lemma findPathMetrics_Ok s k m :
  findPathMetrics s k = Ok m ->
  exists names, PathTo (parentByInode s) (rootInodeId s) k names /\ m = metrics names.
Proof. intros (names & ? & ->)%climb_Ok. exists names. split; [done|]. unfold metrics. f_equal; lia. Qed.

Lemma climb_no_fuel fuel s (visited : gset Z) cur d cb :
  (size (dom (parentByInode s) ∖ visited) < fuel)%nat ->
  no_fuel (climb fuel s visited cur d cb).
Proof.
  revert visited cur d cb. induction fuel as [|fuel IH]; intros visited cur d cb Hf; cbn; [lia|].
  destruct (_ =? _); [done|]. apply no_fuel_bind; [eauto with nofuel|]. intros [] Hv%throw_if_Ok. propify.
  apply no_fuel_bind; [eauto with nofuel|]. intros [p name] He%or_throw_Ok.
  apply no_fuel_bind; [eauto with nofuel|]. intros n _. apply IH.
  apply elem_of_dom_2 in He.
  assert (dom (parentByInode s) ∖ ({[cur]} ∪ visited) ⊂ dom (parentByInode s) ∖ visited) as Hsub
    by set_solver.
  apply subset_size in Hsub. lia.
Qed.

Lemma findPathMetrics_no_fuel s k : no_fuel (findPathMetrics s k).
Proof.
  apply climb_no_fuel. rewrite difference_empty_L, size_dom. lia.
Qed.
#[export] Hint Resolve findPathMetrics_no_fuel : nofuel.

(** ** Searching a subtree *)

Section Subtree.
Context (s : VfsState).
Let es := extentSize s.
Let I := inodes s.
Let P := parentByInode s.
Let root := rootInodeId s.
Let next := nextInodeId s.
Hypothesis T : TreeOk es I P root next.

(** Below something that is not a directory there is only the thing itself. *)
Lemma Below_leaf d k ns i :
  I !! d = Some i -> is_directory i = false -> Below P d k ns -> k = d /\ ns = [].
Proof.
  intros Hi Hk [[-> ->]|(c & nm & ns' & Hc & _)]%Below_inv_l; [done|]. exfalso.
  eapply (leaf_not_parent T d i Hi); [|exact Hc|done]. intros ch Hch.
  unfold is_directory in Hk. by rewrite Hch in Hk.
Qed.

Lemma elem_of_children (ch : Children) c : c ∈ (map_to_list ch).*2 <-> exists n, ch !! n = Some c.
Proof.
  rewrite list_elem_of_fmap. split.
  - intros ([n c'] & -> & Hin%elem_of_map_to_list). eauto.
  - intros [n Hn]. exists (n, c). split; [done|]. by apply elem_of_map_to_list.
Qed.

(** [directoryContains] decides descent, given one unit of fuel per level and one more. *)
Lemma directoryContains_spec fuel k ch names cand cch :
  is_dir_at I cand cch -> is_dir_at I k ch -> PathTo P root k names ->
  (Z.to_nat MAX_PATH_DEPTH + 1 <= fuel + length names)%nat ->
  exists b, directoryContains fuel s (mkDirectory k ch) cand = Ok b /\
    (b = true <-> exists ns, Below P k cand ns).
Proof.
  intros Hcand. revert k ch names. induction fuel as [|fuel IH]; intros k ch names Hk Hp Hf.
  { destruct (t_reach _ _ _ _ _ T k) as (names' & Hp' & Hd & _); [destruct Hk as (?&?&_); eauto|].
    rewrite (PathTo_unique P root k _ (t_root_parent _ _ _ _ _ T) Hp' _ Hp) in Hd.
    unfold metrics in Hd. cbn in Hd. exfalso. ll. }
  cbn. destruct (k =? cand) eqn:E; propify.
  { subst. exists true. split; [done|]. split; [|done]. intros _. exists []. constructor. }
  edestruct (anyM_spec (fun childId =>
        child ← inodeById s childId;
        match inode_kind child with
        | Directory children =>
            directoryContains fuel s (mkDirectory (inode_id child) children) cand
        | _ => Ok false
        end) (fun c => exists ns, Below P c cand ns) (map_to_list ch).*2) as (b & -> & Hb).
  - intros c [n Hn]%elem_of_children. destruct (child_present T _ _ _ _ Hk Hn) as [i Hi].
    unfold inodeById. unfold I in Hi. rewrite Hi. cbn.
    pose proof (t_inode _ _ _ _ _ T c i Hi) as Hok. rewrite (io_id _ _ _ _ Hok).
    assert (is_directory i = false -> ~ exists ns, Below P c cand ns) as Hleaf.
    { intros Hnd [ns [-> _]%(Below_leaf c cand ns i Hi Hnd)]. destruct Hcand as (i' & Hi' & Hk').
      unfold I in Hi'. rewrite Hi in Hi'. injection Hi' as <-. unfold is_directory in Hnd. by rewrite Hk' in Hnd. }
    unfold is_directory in Hleaf. destruct (inode_kind i) as [ch'| |] eqn:Ek.
    + apply (IH c ch' (names ++ [n])); [by exists i| |rewrite length_app; cbn; lia].
      econstructor; [|done]. by eapply (t_child _ _ _ _ _ T).
    + exists false. naive_solver.
    + exists false. naive_solver.
  - exists b. split; [done|]. rewrite Hb. split.
    + intros (c & [n Hn]%elem_of_children & ns & Hbl). exists ([n] ++ ns).
      eapply Below_trans; [|done]. apply (BelowChild P k c k n []); [|constructor].
      by eapply (t_child _ _ _ _ _ T).
    + intros [ns [[-> _]|(d & n & ns' & Hd & Hbl & _)]%Below_inv_l]; [done|]. exists d.
      split; [|eauto]. apply elem_of_children. exists n.
      apply (t_parent _ _ _ _ _ T) in Hd as (_ & ch' & Hch' & Hn).
      by rewrite (is_dir_at_fun _ _ _ Hk Hch').
Qed.

(** [visitBounds] bounds every path of the subtree. *)
Lemma visitBounds_Ok fuel k i base :
  I !! k = Some i -> visitBounds fuel s i (metrics base) = Ok tt ->
  forall d ns, Below P k d ns -> path_ok (base ++ ns).
Proof.
  revert k i base. induction fuel as [|fuel IH]; intros k i base Hi; cbn; [done|].
  intros H d ns Hb. inv_ok. 
  destruct (Below_inv_l _ _ _ _ Hb) as [[-> ->]|(c & n & ns' & Hc & Hb' & ->)].
  { rewrite app_nil_r. unfold path_ok. cbn in *. lia. }
  apply (t_parent _ _ _ _ _ T) in Hc as (_ & ch & (i' & Hi' & Hk) & Hn).
  rewrite Hi in Hi'. injection Hi' as <-. rewrite Hk in H.
  assert (Hall : forall nc, nc ∈ map_to_list ch ->
    (child ← inodeById s nc.2; m ← childPathMetrics (metrics base) nc.1; visitBounds fuel s child m) = Ok tt).
  { apply foldM_tt_Ok. rewrite <- H. apply foldM_ext. by intros [] [n' c']. }
  specialize (Hall (n, c) (proj2 (elem_of_map_to_list ch n c) Hn)). cbn in Hall.
  apply bind_Ok in Hall as (child & Hchild%or_throw_Ok & Hall).
  apply bind_Ok in Hall as (m & ->%childPathMetrics_Ok & Hall).
  rewrite cons_middle, app_assoc. by eapply IH.
Qed.
End Subtree.

Lemma visitBounds_no_fuel fuel s i m :
  (1 <= fuel)%nat -> 0 <= depth m -> (boundsFuel <= fuel + Z.to_nat (depth m))%nat ->
  no_fuel (visitBounds fuel s i m).
Proof.
  revert i m. induction fuel as [|fuel IH]; intros i m H1 Hd Hf; [lia|]. cbn.
  apply no_fuel_bind; [eauto with nofuel|]. intros [] Hdm%throw_if_Ok. propify.
  apply no_fuel_bind; [eauto with nofuel|]. intros [] _.
  destruct (inode_kind i); [|done..]. apply no_fuel_foldM. intros [] [n c] _.
  apply no_fuel_bind; [eauto with nofuel|]. intros child _.
  apply no_fuel_bind; [eauto with nofuel|]. intros m' Hm'. unfold childPathMetrics in Hm'. inv_ok.
  unfold boundsFuel in *. apply IH; cbn; ll.
Qed.

Lemma validateRenamedSubtreeBounds_no_fuel s i dp dn :
  no_fuel (validateRenamedSubtreeBounds s i dp dn).
Proof.
  unfold validateRenamedSubtreeBounds.
  apply no_fuel_bind; [eauto with nofuel|]. intros m (names & _ & ->)%findPathMetrics_Ok.
  apply no_fuel_bind; [eauto with nofuel|]. intros m' ->%childPathMetrics_Ok.
  apply visitBounds_no_fuel; unfold boundsFuel; cbn; ll.
Qed.
#[export] Hint Resolve validateRenamedSubtreeBounds_no_fuel : nofuel.
