(* ===== verification/Invariant.v ===== *)
(** * The store invariant

    [Inv] is the declarative content of [validateState]: a bounded inode tree mirrored by the parent
    index, extents partitioned between the files, the free set and the quarantine, consistent
    generations, and an exact running size. *)

From S2P Require Export Walks.

(** ** The invariant *)

Definition RetainedOk (s : VfsState) : Prop :=
  retainedGenerations s (activeMetadataFile s) = Some (generation s) /\
  forall g, retainedGenerations s (otherMetadataFile (activeMetadataFile s)) = Some g ->
    0 < g /\ g + 1 = generation s.

(** Everything but the running size. *)
Record Core (s : VfsState) : Prop := {
  c_extentSize : extent_size_ok (extentSize s);
  c_generation : 0 < generation s <= MAX_U64;
  c_next : u64 (nextInodeId s);
  c_count : Z.of_nat (size (inodes s)) <= MAX_INODES;
  c_tree : TreeOk (extentSize s) (inodes s) (parentByInode s) (rootInodeId s) (nextInodeId s);
  c_alloc : AllocOk (allocator s);
  c_own : OwnOk (inodes s) (ownedBy (allocator s));
  c_retained : RetainedOk s;
  c_quarantine : forall e g, (e, Some g) ∈ quarantine (allocator s) -> g = generation s
}.

Record Inv (s : VfsState) : Prop := {
  inv_core : Core s;
  inv_bytes : basePayloadBytes s = base_bytes s;
  inv_limit : basePayloadBytes s <= MAX_METADATA_BASE_WRITER_BYTES
}.

(** The fields no reducer changes. *)
Definition same_header (s s' : VfsState) : Prop :=
  generation s' = generation s /\ rootInodeId s' = rootInodeId s /\ extentSize s' = extentSize s /\
  activeMetadataFile s' = activeMetadataFile s /\ retained_a s' = retained_a s /\
  retained_b s' = retained_b s /\ basePayloadBytes s' = basePayloadBytes s.

(** What a reducer must establish. *)
Lemma core_step s s' :
  Core s -> same_header s s' ->
  u64 (nextInodeId s') -> Z.of_nat (size (inodes s')) <= MAX_INODES ->
  TreeOk (extentSize s) (inodes s') (parentByInode s') (rootInodeId s) (nextInodeId s') ->
  AllocOk (allocator s') -> OwnOk (inodes s') (ownedBy (allocator s')) ->
  (forall e g, (e, Some g) ∈ quarantine (allocator s') -> (e, Some g) ∈ quarantine (allocator s)) ->
  Core s'.
Proof.
  intros [] (Hg & Hr & He & Ha & Hra & Hrb & _) ? ? ? ? ? Hq.
  split; rewrite ?Hg, ?Hr, ?He; eauto.
  unfold RetainedOk, retainedGenerations in *. by rewrite Hg, Ha, Hra, Hrb.
Qed.

(** The outcome of a reducer: the structure is preserved and the size moves by [delta]. *)
Record Step (s : VfsState) (delta : Z) (s' : VfsState) : Prop := {
  step_core : Core s';
  step_bytes : base_bytes s' = base_bytes s + delta;
  step_header : same_header s s'
}.

Lemma step_eq s d d' s' : Step s d s' -> d = d' -> Step s d' s'.
Proof. by intros ? ->. Qed.

(** ** Running the reducers *)

Lemma lift_Ok {A B} (m : R A) (k : A -> M VfsState B) s s' b :
  (st_lift m ≫= k) s = (s', Ok b) <-> exists a, m = Ok a /\ k a s = (s', Ok b).
Proof. rewrite st_bind_lift. destruct m; naive_solver. Qed.

Lemma checked_Ok {A B} (f : VfsState -> R A) (k : A -> M VfsState B) s s' b :
  (checked f ≫= k) s = (s', Ok b) <-> exists a, f s = Ok a /\ k a s = (s', Ok b).
Proof. unfold checked, mbind, ST_bind, st_get, st_lift. destruct (f s); naive_solver. Qed.

Lemma modify_Ok {B} (g : VfsState -> VfsState) (k : unit -> M VfsState B) s s' b :
  (st_modify g ≫= k) s = (s', Ok b) <-> k tt (g s) = (s', Ok b).
Proof. done. Qed.

Lemma forM_bind_Ok {A B} (l : list A) f (g : VfsState -> VfsState) (k : unit -> M VfsState B) s s' b :
  forM f l s = (g s, Ok tt) -> (forM f l ≫= k) s = (s', Ok b) <-> k tt (g s) = (s', Ok b).
Proof. intros Hf. unfold mbind, ST_bind. by rewrite Hf. Qed.

Section Mutations.
Context {B : Type} (k : Z) (c : unit -> M VfsState B) (s : VfsState).

Lemma mutateInode_bind f : (mutateInode k f ≫= c) s = c tt (set_inodes (alter f k) s).
Proof. reflexivity. Qed.
Lemma insertInode_bind i : (insertInode k i ≫= c) s = c tt (set_inodes (insert k i) s).
Proof. reflexivity. Qed.
Lemma removeInode_bind : (removeInode k ≫= c) s = c tt (set_inodes (delete k) s).
Proof. reflexivity. Qed.
Lemma setParent_bind e : (setParent k e ≫= c) s = c tt (set_parents (insert k e) s).
Proof. reflexivity. Qed.
Lemma dropParent_bind : (dropParent k ≫= c) s = c tt (set_parents (delete k) s).
Proof. reflexivity. Qed.
Lemma mutateInode_run f : mutateInode k f s = (set_inodes (alter f k) s, Ok tt).
Proof. reflexivity. Qed.
Lemma dropParent_run : dropParent k s = (set_parents (delete k) s, Ok tt).
Proof. reflexivity. Qed.
End Mutations.

Lemma st_modify_run {S E} (f : S -> S) (s : S) : @st_modify S E f s = (f s, Ok tt).
Proof. reflexivity. Qed.

(** One statement of a successful run. *)
Ltac run_step H :=
  match type of H with
  | (st_lift _ ≫= _) _ = (_, Ok _) =>
      let x := fresh "x" in let Hx := fresh "Hx" in apply lift_Ok in H as (x & Hx & H)
  | (checked _ ≫= _) _ = (_, Ok _) =>
      let x := fresh "x" in let Hx := fresh "Hx" in apply checked_Ok in H as (x & Hx & H)
  | (forM (ownExtent _) _ ≫= _) _ = (_, Ok _) =>
      apply (forM_bind_Ok _ _ _ _ _ _ _ (forM_ownExtent _ _ _)) in H
  | (forM releaseExtent _ ≫= _) _ = (_, Ok _) =>
      apply (forM_bind_Ok _ _ _ _ _ _ _ (forM_releaseExtent _ _)) in H
  | forM releaseExtent _ _ = _ => rewrite forM_releaseExtent in H
  | forM (fun _ => takeExtent _ ≫= _) _ _ = _ => rewrite forM_reserveExtent in H
  | (mutateInode _ _ ≫= _) _ = _ => rewrite mutateInode_bind in H
  | (insertInode _ _ ≫= _) _ = _ => rewrite insertInode_bind in H
  | (removeInode _ ≫= _) _ = _ => rewrite removeInode_bind in H
  | (setParent _ _ ≫= _) _ = _ => rewrite setParent_bind in H
  | (dropParent _ ≫= _) _ = _ => rewrite dropParent_bind in H
  | mutateInode _ _ _ = _ => rewrite mutateInode_run in H
  | dropParent _ _ = _ => rewrite dropParent_run in H
  | st_modify _ _ = _ => rewrite st_modify_run in H
  | (_, Ok _) = (_, Ok _) => injection H as H; try subst
  end.
Ltac run H := repeat (run_step H; cbv beta in H); cbv beta in *.

(** Sizes computed by the code as total functions. *)
Ltac sizes :=
  repeat match goal with
  | H : inodeBaseBytes _ = Ok ?n |- _ => apply inodeBaseBytes_Ok in H; subst n
  | H : childBaseBytes _ = Ok ?n |- _ => apply childBaseBytes_Ok in H; subst n
  | H : encodedUtf8Length _ = Ok ?n |- _ => apply utf8Length_ulen in H; subst n
  end.

(** ** Facts the reducers read off a well-formed state *)

Lemma validateMode_Ok m m' : validateMode m = Ok m' -> m' = m /\ mode_ok m.
Proof. unfold validateMode, mode_ok. destruct (_ || _) eqn:E; [done|]. intros [= <-]. propify. lia. Qed.

Lemma validateTimestamp_Ok t t' : validateTimestamp t = Ok t' -> t' = t /\ u64 t.
Proof. apply checkedU64_Ok. Qed.

Lemma advanceNextInodeId_Ok k n : advanceNextInodeId k = Ok n -> n = k + 1 /\ u64 (k + 1).
Proof. unfold advanceNextInodeId. intros H. inv_ok. by apply checkedAdd_Ok in H. Qed.

Lemma directoryById_Ok s k d : Core s -> directoryById s k = Ok d ->
  is_dir_at (inodes s) k (dir_children d) /\ dir_id d = k.
Proof.
  intros C H. unfold directoryById in H. inv_ok.
  pose proof (io_id _ _ _ _ (t_inode _ _ _ _ _ (c_tree s C) _ _ Hx)) as Hid.
  destruct (inode_kind x) as [ch| |] eqn:Ek; [|done..]. injection H as <-. split; [by exists x|done].
Qed.

Lemma entryInode_Ok s p ch name i : Core s -> is_dir_at (inodes s) p ch -> entryInode s ch name = Some i ->
  ch !! name = Some (inode_id i) /\ inodes s !! inode_id i = Some i.
Proof.
  intros C Hd (c & Hc & Hi)%bind_Some.
  by rewrite (io_id _ _ _ _ (t_inode _ _ _ _ _ (c_tree s C) _ _ Hi)).
Qed.

Lemma inode_at_ok s k i : Core s -> inodes s !! k = Some i ->
  inode_ok (extentSize s) (nextInodeId s) k i.
Proof. intros C. apply (c_tree s C). Qed.

(** Attribute changes of the invariant's tree. *)
Lemma tree_attrs es I P root next k f :
  TreeOk es I P root next ->
  (forall i, inode_kind (f i) = inode_kind i /\ inode_id (f i) = inode_id i) ->
  (forall i, I !! k = Some i -> mode_ok (inode_mode (f i)) /\ u64 (atimeMs (f i)) /\
     u64 (mtimeMs (f i)) /\ u64 (ctimeMs (f i))) ->
  TreeOk es (alter f k I) P root next.
Proof.
  intros T Hk Hf. apply tree_touch; [done|]. intros i Hi. destruct (Hk i) as [Hki Hid].
  pose proof (t_inode _ _ _ _ _ T _ _ Hi) as []. destruct (Hf i Hi) as (?&?&?&?).
  split; [split; rewrite ?Hki, ?Hid; done|]. rewrite Hki. unfold is_directory. rewrite Hki.
  by destruct (inode_kind i).
Qed.

Lemma tree_mtime es I P root next k t :
  u64 t -> TreeOk es I P root next -> TreeOk es (alter (set_mtime t) k I) P root next.
Proof.
  intros Ht T. apply tree_attrs; [done|done|]. intros i Hi.
  by destruct (t_inode _ _ _ _ _ T _ _ Hi).
Qed.

Lemma tree_ctime es I P root next k t :
  u64 t -> TreeOk es I P root next -> TreeOk es (alter (set_ctime t) k I) P root next.
Proof.
  intros Ht T. apply tree_attrs; [done|done|]. intros i Hi.
  by destruct (t_inode _ _ _ _ _ T _ _ Hi).
Qed.

Lemma tree_atime es I P root next k t :
  u64 t -> TreeOk es I P root next -> TreeOk es (alter (set_atime t) k I) P root next.
Proof.
  intros Ht T. apply tree_attrs; [done|done|]. intros i Hi.
  by destruct (t_inode _ _ _ _ _ T _ _ Hi).
Qed.

Lemma tree_mode es I P root next k m :
  mode_ok m -> TreeOk es I P root next -> TreeOk es (alter (set_mode m) k I) P root next.
Proof.
  intros Ht T. apply tree_attrs; [done|done|]. intros i Hi.
  by destruct (t_inode _ _ _ _ _ T _ _ Hi).
Qed.

Lemma size_alter {A} (f : A -> A) k (m : gmap Z A) : size (alter f k m) = size m.
Proof.
  rewrite <- !size_dom. f_equal. apply set_eq. intros x. rewrite !elem_of_dom. apply is_Some_alter.
Qed.

Lemma same_header_refl s : same_header s s.
Proof. done. Qed.

(** ** [change_mode] and [change_times] *)

Lemma applyChangeMode_step s k mode t s' :
  Core s -> applyChangeMode k mode t s = (s', Ok tt) -> Step s 0 s'.
Proof.
  intros C H. unfold applyChangeMode in H. run H.
  apply validateMode_Ok in Hx0 as [-> ?]. apply validateTimestamp_Ok in Hx1 as [-> ?].
  split; [|unfold base_bytes; cbn; rewrite !inodes_bytes_touch by done; lia|done].
  apply (core_step s); cbn; rewrite ?size_alter; [done|done|apply C|apply C| |apply C| |done].
  - by apply tree_ctime, tree_mode, C.
  - eapply own_same, C. intros x1. by rewrite !extents_of_touch.
Qed.
