(* ===== verification/Creates.v ===== *)
(** * Attribute changes and creations preserve the invariant *)

From S2P Require Export Invariant.

Lemma applyChangeTimes_step s k a m t s' :
  Core s -> applyChangeTimes k a m t s = (s', Ok tt) -> Step s 0 s'.
Proof.
  intros C H. unfold applyChangeTimes in H. run H.
  apply validateTimestamp_Ok in Hx0 as [-> ?], Hx1 as [-> ?], Hx2 as [-> ?].
  split; [|unfold base_bytes; cbn; rewrite !inodes_bytes_touch by done; lia|done].
  apply (core_step s); cbn; rewrite ?size_alter; [done|done|apply C|apply C| |apply C| |done].
  - by apply tree_ctime, tree_mtime, tree_atime, C.
  - eapply own_same, C. intros x2. by rewrite !extents_of_touch.
Qed.

(** ** Linking *)

(** The path a new entry gets stays within the limits. *)
Definition entry_fits (s : VfsState) (parentId : Z) (name : jsstr) : Prop :=
  forall names, PathTo (parentByInode s) (rootInodeId s) parentId names -> path_ok (names ++ [name]).

Section Link.
Context (s : VfsState) (C : Core s) (p : Z) (ch : Children) (n : jsstr) (i : Inode).
Hypothesis Hp : is_dir_at (inodes s) p ch.
Hypothesis Hn : ch !! n = None.
Let next := nextInodeId s.
Let I' := <[next := i]> (alter (on_children (insert n next)) p (inodes s)).

Lemma next_fresh : inodes s !! next = None.
Proof. by apply (key_fresh (c_tree s C)). Qed.

Lemma next_fresh_alter f : alter f p (inodes s) !! next = None.
Proof. apply eq_None_not_Some. rewrite is_Some_alter, next_fresh. by intros []. Qed.

Lemma link_bytes : inodes_bytes I' = inodes_bytes (inodes s) + child_bytes n + inode_bytes i.
Proof.
  unfold I'. rewrite inodes_bytes_insert by apply next_fresh_alter.
  rewrite (inodes_bytes_add_entry _ _ _ _ _ Hp Hn). lia.
Qed.

Lemma link_size : size I' = S (size (inodes s)).
Proof. unfold I'. rewrite map_size_insert_None by apply next_fresh_alter. by rewrite size_alter. Qed.

Lemma link_extents k :
  extents_of I' k = if decide (next = k) then kind_extents (inode_kind i) else extents_of (inodes s) k.
Proof. unfold I'. rewrite extents_of_insert. case_decide; [done|]. apply extents_of_children. Qed.

Lemma link_own_leaf : kind_extents (inode_kind i) = [] ->
  OwnOk I' (ownedBy (allocator s)).
Proof.
  intros Hk. eapply own_same, (c_own s C). intros k. rewrite link_extents. case_decide; [|done].
  subst k. rewrite Hk. unfold extents_of. by rewrite next_fresh.
Qed.

Lemma link_tree :
  component_ok n -> inode_ok (extentSize s) (next + 1) next i ->
  (forall ch', inode_kind i = Directory ch' -> ch' = ∅) -> entry_fits s p n ->
  TreeOk (extentSize s) I' (<[next := (p, n)]> (parentByInode s)) (rootInodeId s) (next + 1).
Proof.
  intros Hc Hi Hleaf Hfits.
  destruct (t_reach _ _ _ _ _ (c_tree s C) p) as (names & Hpath & _).
  { destruct Hp as (?&?&_). eauto. }
  eapply (tree_link _ _ _ _ _ _ _ _ _ names); eauto using c_tree.
Qed.
End Link.

Lemma validatePathComponent_component name n : validatePathComponent name = Ok n -> component_ok name.
Proof. intros H. by exists n. Qed.

Lemma applyCreateSymlink_step s p n k mode a m c t s' delta :
  Core s -> entry_fits s p n -> projectedBaseDelta s (CreateSymlink p n k mode a m c t) = Ok delta ->
  applyCreateSymlink p n k mode a m c t s = (s', Ok tt) -> Step s delta s'.
Proof.
  intros C Hfits Hd H. unfold applyCreateSymlink in H. run H.
  apply validatePathComponent_component in Hx. apply directoryById_Ok in Hx0 as [Hp Hid]; [|done].
  apply throw_if_Ok in Hx1, Hx2, Hx9. propify. subst k. apply advanceNextInodeId_Ok in Hx3 as [-> Hnext].
  apply validateMode_Ok in Hx4 as [_ ?]. apply validateTimestamp_Ok in Hx5 as [_ ?], Hx6 as [_ ?], Hx7 as [_ ?].
  apply eq_None_not_Some in Hx1. set (i := mkInode _ _ _ _ _ _) in *. rewrite Hid in *.
  assert (Hi : inode_ok (extentSize s) (nextInodeId s + 1) (nextInodeId s) i).
  { split; cbn; try done; [pose proof (c_next s C); ll|by exists x8]. }
  split; [| |done].
  - apply (core_step s); cbn; [done|done|done| | |apply C| |done].
    + rewrite link_size by done. lia.
    + by eapply link_tree.
    + by eapply link_own_leaf.
  - unfold base_bytes. cbn. rewrite (link_bytes s C _ _ _ _ Hp Hx1). unfold projectedBaseDelta, encodedUtf8Length in Hd.
    apply bind_Ok in Hd as (tl & ->%utf8Length_ulen & Hd). apply bind_Ok in Hd as (nb & ->%childBaseBytes_Ok & Hd).
    injection Hd as <-. unfold inode_bytes. cbn. lia.
Qed.

(** ** [create_file] *)

Lemma applyCreateFile_step s p n k mode a m c sz runs s' delta :
  Core s -> entry_fits s p n -> projectedBaseDelta s (CreateFile p n k mode a m c sz runs) = Ok delta ->
  applyCreateFile p n k mode a m c sz runs s = (s', Ok tt) -> Step s delta s'.
Proof.
  intros C Hfits Hd H. unfold applyCreateFile in H. run H.
  apply validatePathComponent_component in Hx. apply directoryById_Ok in Hx0 as [Hp Hid]; [|done].
  apply throw_if_Ok in Hx1, Hx2, Hx10. propify. subst k. apply advanceNextInodeId_Ok in Hx3 as [-> Hnext].
  apply validateMode_Ok in Hx4 as [_ ?]. apply validateTimestamp_Ok in Hx5 as [_ ?], Hx6 as [_ ?], Hx7 as [_ ?].
  apply checkedU64_Ok in Hx8 as [-> _]. apply bind_Ok in Hx9 as (count & Hcount & Has).
  apply validateExtentAssignment_Ok in Has as (Hexp & Hlen & Hnd & Has); [|apply C].
  apply eq_None_not_Some in Hx1. set (i := mkInode _ _ _ _ _ _) in *. rewrite Hid in *.
  assert (Hi : inode_ok (extentSize s) (nextInodeId s + 1) (nextInodeId s) i).
  { split; cbn; try done; [pose proof (c_next s C); ll|by rewrite Hlen]. }
  split; [| |done].
  - apply (core_step s); cbn; [done|done|done| | | | |].
    + rewrite link_size by done. lia.
    + by eapply link_tree.
    + apply own_all_ok; [apply C|done].
    + pose proof (link_extents s p n i) as Hext.
      pose proof (Hext (nextInodeId s)) as Hnew. rewrite decide_True in Hnew by done. cbn in Hnew.
      eapply (own_update _ _ _ _ (nextInodeId s)); [apply C| | | |]; rewrite ?Hnew.
      * intros y Hy. rewrite Hext, decide_False by congruence. done.
      * done.
      * intros e He. left. eapply assignable_unowned; [apply C|done|done].
      * intros e. rewrite own_all_ownedBy. unfold extents_of. by rewrite (next_fresh s C), (decide_False (P := e ∈ [])) by set_solver.
    + intros e g. by rewrite own_all_quarantine.
  - unfold base_bytes. cbn. rewrite (link_bytes s C _ _ _ _ Hp Hx1), own_all_bytes by (apply C || done).
    unfold projectedBaseDelta in Hd. rewrite Hexp in Hd. cbn in Hd.
    apply bind_Ok in Hd as (r & Hr%(selectedExtents_reused _ _ _ _ Hexp) & Hd).
    apply bind_Ok in Hd as (nb & ->%childBaseBytes_Ok & Hd).
    injection Hd as <-. unfold inode_bytes. cbn. lia.
Qed.

(** ** [create_directories] *)

(** Every entry fits below its parent in the state in which it is created. *)
Fixpoint entries_fit (s : VfsState) (entries : list CreateDirectoryChoice) : Prop :=
  match entries with
  | [] => True
  | e :: es => entry_fits s (cd_parentId e) (cd_name e) /\ entries_fit (applyCreateDirectory e s).1 es
  end.

(** The staged copies of the validation agree with the directories of the state reached so far. *)
Definition staged_agree (s0 : VfsState) (staged : gmap Z Children) (s : VfsState) : Prop :=
  forall k ch, stagedChildren s0 staged k = Ok ch -> is_dir_at (inodes s) k ch.

Lemma staged_agree_init s : staged_agree s ∅ s.
Proof.
  intros k ch. unfold stagedChildren, directoryById. rewrite lookup_empty. intros H. inv_ok.
  destruct (inode_kind x0) eqn:E; [|done..]. injection Hx as <-. by exists x0.
Qed.

Lemma stageDirectory_Ok s staged expected e staged' expected' :
  stageDirectory s (staged, expected) e = Ok (staged', expected') ->
  component_ok (cd_name e) /\ mode_ok (cd_mode e) /\ u64 (cd_atimeMs e) /\ u64 (cd_mtimeMs e) /\
  u64 (cd_ctimeMs e) /\ cd_inodeId e = expected /\ expected' = expected + 1 /\ u64 (expected + 1) /\
  exists ch, stagedChildren s staged (cd_parentId e) = Ok ch /\ ch !! cd_name e = None /\
    staged' = <[cd_inodeId e := ∅]> (<[cd_parentId e := <[cd_name e := cd_inodeId e]> ch]> staged).
Proof.
  unfold stageDirectory. intros H. inv_ok.
  apply validatePathComponent_component in Hx. apply validateMode_Ok in Hx0 as [_ ?].
  apply validateTimestamp_Ok in Hx1 as [_ ?], Hx2 as [_ ?], Hx3 as [_ ?].
  apply advanceNextInodeId_Ok in Hx7 as [-> ?]. split_and!; eauto.
  exists x5. split_and!; [done| |done]. by apply eq_None_not_Some.
Qed.

Definition new_directory (e : CreateDirectoryChoice) : Inode :=
  mkInode (cd_inodeId e) (cd_mode e) (cd_atimeMs e) (cd_mtimeMs e) (cd_ctimeMs e) (Directory ∅).

Definition link_directory (e : CreateDirectoryChoice) (s : VfsState) : VfsState :=
  set_nextInodeId (nextInodeId s + 1)
    (set_parents (insert (cd_inodeId e) (cd_parentId e, cd_name e))
      (set_inodes (insert (cd_inodeId e) (new_directory e))
        (set_inodes (alter (on_children (insert (cd_name e) (cd_inodeId e))) (cd_parentId e)) s))).

(** Every inode carries the id it is stored under. *)
Definition ids_ok (s : VfsState) : Prop := forall k i, inodes s !! k = Some i -> inode_id i = k.

Lemma core_ids s : Core s -> ids_ok s.
Proof. intros C k i Hi. apply (inode_at_ok s k i C Hi). Qed.

Section OneDirectory.
Context (s : VfsState) (e : CreateDirectoryChoice) (ch : Children).
Hypothesis Hp : is_dir_at (inodes s) (cd_parentId e) ch.
Hypothesis Hn : ch !! cd_name e = None.
Hypothesis Hid : cd_inodeId e = nextInodeId s.
Hypothesis Hnext : u64 (nextInodeId s + 1).

Lemma applyCreateDirectory_run : ids_ok s -> applyCreateDirectory e s = (link_directory e s, Ok tt).
Proof.
  intros Hids. destruct Hp as (i & Hi & Hk). unfold applyCreateDirectory.
  rewrite (st_bind_run (checked _) _ s s (mkDirectory (cd_parentId e) ch)).
  - rewrite mutateInode_bind, insertInode_bind, setParent_bind, st_bind_lift.
    unfold advanceNextInodeId, checkedAdd.
    assert ((cd_inodeId e =? MAX_U64) = false) as -> by (apply Z.eqb_neq; ll).
    cbn [throw_if mbind result_bind]. rewrite checkedU64_id by (by rewrite Hid).
    rewrite st_modify_run. unfold link_directory, new_directory. by rewrite <- Hid.
  - unfold checked, mbind, ST_bind, st_get, st_lift, directoryById, mbind, result_bind. rewrite Hi. cbn.
    rewrite Hk. by rewrite (Hids _ _ Hi).
Qed.

Lemma link_directory_ids : ids_ok s -> ids_ok (link_directory e s).
Proof.
  intros Hids k i. cbn. rewrite lookup_insert. case_decide; [subst; by intros [= <-]|].
  rewrite lookup_alter. case_decide; [|apply Hids]. subst. intros (i' & Hi' & ->)%fmap_Some. cbn. auto.
Qed.

Lemma link_directory_core :
  Core s -> component_ok (cd_name e) -> mode_ok (cd_mode e) -> u64 (cd_atimeMs e) -> u64 (cd_mtimeMs e) ->
  u64 (cd_ctimeMs e) -> entry_fits s (cd_parentId e) (cd_name e) ->
  Z.of_nat (size (inodes s)) + 1 <= MAX_INODES ->
  Step s (DIRECTORY_INODE_FIXED_BYTES + child_bytes (cd_name e)) (link_directory e s).
Proof.
  intros C. intros. assert (Hi : inode_ok (extentSize s) (nextInodeId s + 1) (nextInodeId s) (new_directory e)).
  { split; cbn; try done; pose proof (c_next s C); ll. }
  split; [| |done].
  - apply (core_step s); cbn; rewrite ?Hid; [done|done|done| | |apply C| |done].
    + rewrite link_size by done. lia.
    + eapply link_tree; try done. by intros ch' [= <-].
    + by eapply link_own_leaf.
  - unfold base_bytes. cbn. rewrite Hid, (link_bytes s C _ _ _ _ Hp Hn).
    unfold inode_bytes, children_bytes. cbn. rewrite map_sum_empty. lia.
Qed.

Lemma link_directory_agree s0 staged :
  staged_agree s0 staged s ->
  staged_agree s0 (<[cd_inodeId e := ∅]> (<[cd_parentId e := <[cd_name e := cd_inodeId e]> ch]> staged))
    (link_directory e s).
Proof.
  intros Ha k ch'. unfold stagedChildren. rewrite !lookup_insert. cbn.
  rewrite is_dir_at_insert by (intros ? [= <-]; done). rewrite is_dir_at_alter.
  case_decide as Hk; [intros [= <-]; by left|].
  case_decide as Hk'; [intros [= <-]; subst k; right; eauto 10|].
  intros Hch. right. split; [done|]. right. split; [done|]. by apply Ha.
Qed.
End OneDirectory.

Lemma applyCreateDirectories_loop s0 staged entries s s' r delta0 delta :
  foldM (stageDirectory s0) (staged, nextInodeId s) entries = Ok r ->
  staged_agree s0 staged s -> Core s -> entries_fit s entries ->
  Z.of_nat (size (inodes s)) + Z.of_nat (length entries) <= MAX_INODES ->
  foldM (fun bytes entry =>
        n ← childBaseBytes (cd_name entry); Ok (bytes + DIRECTORY_INODE_FIXED_BYTES + n)) delta0 entries
    = Ok delta ->
  forM applyCreateDirectory entries s = (s', Ok tt) -> Step s (delta - delta0) s'.
Proof.
  revert staged s delta0. induction entries as [|e es IH]; intros staged s delta0; cbn [foldM forM entries_fit].
  - intros _ _ C _ _ [= <-] [= <-]. split; [done|lia|done].
  - intros Hst Ha C [Hfit Hfits] Hsz Hd H.
    apply bind_Ok in Hst as ([staged' expected'] & Hst & Hrest).
    apply stageDirectory_Ok in Hst as (? & ? & ? & ? & ? & Hid & -> & Hnext & ch & Hch & Hn & ->).
    apply Ha in Hch. apply bind_Ok in Hd as (d & Hd1 & Hd).
    apply bind_Ok in Hd1 as (nb & ->%childBaseBytes_Ok & [= <-]).
    pose proof (applyCreateDirectory_run s e ch Hch Hid Hnext (core_ids s C)) as Hrun.
    rewrite Hrun in Hfits. unfold mbind, ST_bind in H. rewrite Hrun in H.
    cbn [length] in Hsz.
    destruct (link_directory_core s e ch Hch Hn Hid Hnext C) as [C' Hb Hh]; try done; [lia|].
    destruct (IH _ (link_directory e s) (delta0 + DIRECTORY_INODE_FIXED_BYTES + child_bytes (cd_name e)) Hrest) as [C'' Hb' Hh']; try done.
    + by apply link_directory_agree.
    + cbn. rewrite Hid, link_size by done. lia.
    + split; [done|lia|]. unfold same_header in *. naive_solver congruence.
Qed.

Lemma applyCreateDirectories_step s entries s' delta :
  Core s -> entries_fit s entries -> projectedBaseDelta s (CreateDirectories entries) = Ok delta ->
  applyCreateDirectories entries s = (s', Ok tt) -> Step s delta s'.
Proof.
  intros C Hfit Hd H. unfold applyCreateDirectories in H. run H. destruct x.
  unfold validateCreateDirectories in Hx. inv_ok. rewrite <- (Z.sub_0_r delta).
  eapply applyCreateDirectories_loop; try done; apply staged_agree_init.
Qed.
