(* ===== verification/Removes.v ===== *)
(** * Removals, resizes and reservations preserve the invariant *)

From S2P Require Export Creates.

Lemma delete_alter_ne {A} (f : A -> A) (m : gmap Z A) p c :
  p <> c -> delete c (alter f p m) = alter f p (delete c m).
Proof.
  intros Hne. apply map_eq. intros k. rewrite lookup_delete, !lookup_alter, !lookup_delete.
  repeat case_decide; subst; done.
Qed.

(** ** Unlinking *)

Section Unlink.
Context (s : VfsState) (C : Core s) (p c : Z) (ch : Children) (n : jsstr) (i : Inode).
Hypothesis Hp : is_dir_at (inodes s) p ch.
Hypothesis Hn : ch !! n = Some c.
Hypothesis Hc : inodes s !! c = Some i.
Hypothesis Hleaf : forall ch', inode_kind i = Directory ch' -> ch' = ∅.
Let I' := delete c (alter (on_children (delete n)) p (inodes s)).
Let es := kind_extents (inode_kind i).

Lemma unlink_ne : p <> c.
Proof.
  eapply (leaf_not_parent (c_tree s C) c i Hc Hleaf).
  by apply (t_child _ _ _ _ _ (c_tree s C) _ _ _ _ Hp Hn).
Qed.

Lemma unlink_bytes : inodes_bytes I' = inodes_bytes (inodes s) - child_bytes n - inode_bytes i.
Proof.
  unfold I'. rewrite (inodes_bytes_delete _ _ i).
  - rewrite (inodes_bytes_drop_entry _ _ _ _ _ Hp Hn). lia.
  - rewrite lookup_alter_ne; [done|apply unlink_ne].
Qed.

Lemma unlink_size : size I' = pred (size (inodes s)).
Proof.
  unfold I'. rewrite map_size_delete_Some; [by rewrite size_alter|].
  rewrite is_Some_alter. eauto.
Qed.

Lemma unlink_tree :
  TreeOk (extentSize s) I' (delete c (parentByInode s)) (rootInodeId s) (nextInodeId s).
Proof. eapply tree_unlink; eauto using c_tree. Qed.

Lemma unlink_extents k :
  extents_of I' k = if decide (c = k) then [] else extents_of (inodes s) k.
Proof. unfold I'. rewrite extents_of_delete. case_decide; [done|]. apply extents_of_children. Qed.

Lemma unlink_extents_old : extents_of (inodes s) c = es.
Proof. unfold extents_of. by rewrite Hc. Qed.

Lemma unlink_owned e : e ∈ es -> is_Some (ownedBy (allocator s) !! e).
Proof. intros He. exists c. apply (own_iff _ _ (c_own s C)). by rewrite unlink_extents_old. Qed.

Lemma unlink_nodup : NoDup es.
Proof. rewrite <- unlink_extents_old. apply (own_nodup _ _ (c_own s C)). Qed.

Lemma unlink_alloc : AllocOk (release_all es (allocator s)).
Proof. apply release_all_ok; [apply C|apply unlink_nodup|apply unlink_owned]. Qed.

Lemma unlink_own : OwnOk I' (ownedBy (release_all es (allocator s))).
Proof.
  pose proof (unlink_extents c) as Hnew. rewrite decide_True in Hnew by done.
  eapply (own_update _ _ _ _ c); [apply C| | | |]; rewrite ?Hnew.
  - intros y Hy. by rewrite unlink_extents, decide_False by congruence.
  - constructor.
  - intros e He. by apply elem_of_nil in He.
  - intros e. rewrite release_all_ownedBy, unlink_extents_old.
    by rewrite (decide_False (P := e ∈ [])) by (by intros ?%elem_of_nil).
Qed.

Lemma unlink_alloc_bytes :
  alloc_bytes (release_all es (allocator s)) = alloc_bytes (allocator s) + 16 * Z.of_nat (length es).
Proof. apply release_all_bytes; [apply C|apply unlink_nodup|apply unlink_owned]. Qed.

Lemma unlink_quarantine e g :
  (e, Some g) ∈ quarantine (allocator (set_allocator (release_all es) s)) ->
  (e, Some g) ∈ quarantine (allocator s).
Proof.
  cbn. rewrite release_all_quarantine; [|apply C|apply unlink_nodup|apply unlink_owned].
  apply elem_of_pending.
Qed.

(** The parent's times are set on the way. *)
Lemma unlink_touched_tree m t :
  u64 m -> u64 t ->
  TreeOk (extentSize s)
    (delete c (alter (set_ctime t) p (alter (set_mtime m) p (alter (on_children (delete n)) p (inodes s)))))
    (delete c (parentByInode s)) (rootInodeId s) (nextInodeId s).
Proof.
  intros. rewrite !(delete_alter_ne _ _ p c unlink_ne).
  apply tree_ctime, tree_mtime; [done..|]. rewrite <- (delete_alter_ne _ _ p c unlink_ne). apply unlink_tree.
Qed.

Lemma unlink_touched m t :
  let I'' := delete c (alter (set_ctime t) p (alter (set_mtime m) p (alter (on_children (delete n)) p (inodes s)))) in
  inodes_bytes I'' = inodes_bytes I' /\ size I'' = size I' /\ forall k, extents_of I'' k = extents_of I' k.
Proof.
  cbn. unfold I'. rewrite !(delete_alter_ne _ _ p c unlink_ne). split_and!.
  - by rewrite (inodes_bytes_touch _ _ (set_ctime t)), (inodes_bytes_touch _ _ (set_mtime m)).
  - by rewrite !size_alter.
  - intros k. by rewrite (extents_of_touch _ _ (set_ctime t)), (extents_of_touch _ _ (set_mtime m)).
Qed.

Lemma unlink_step m t s' :
  u64 m -> u64 t ->
  inodes s' = delete c (alter (set_ctime t) p (alter (set_mtime m) p (alter (on_children (delete n)) p (inodes s)))) ->
  parentByInode s' = delete c (parentByInode s) -> nextInodeId s' = nextInodeId s ->
  allocator s' = release_all es (allocator s) -> same_header s s' ->
  Step s (- inode_bytes i - child_bytes n + 16 * Z.of_nat (length es)) s'.
Proof.
  intros Hm Ht HI HP Hnx HA Hh. destruct (unlink_touched m t) as (Hb & Hs & He).
  split; [| |done].
  - apply (core_step s); rewrite ?HI, ?HP, ?Hnx, ?HA; [done|done|apply C| | | | |].
    + rewrite Hs, unlink_size. pose proof (c_count s C). lia.
    + by apply unlink_touched_tree.
    + apply unlink_alloc.
    + eapply own_same, unlink_own. done.
    + apply unlink_quarantine.
  - unfold base_bytes. rewrite HI, HA, Hb, unlink_bytes, unlink_alloc_bytes. lia.
Qed.
End Unlink.

Lemma applyRemoveFile_step s p n m t s' delta :
  Core s -> projectedBaseDelta s (RemoveFile p n m t) = Ok delta ->
  applyRemoveFile p n m t s = (s', Ok tt) -> Step s delta s'.
Proof.
  intros C Hd H. unfold applyRemoveFile in H. run H.
  apply validateTimestamp_Ok in Hx0 as [-> Hm], Hx1 as [-> Ht]. unfold projectedBaseDelta in Hd.
  rewrite Hx2 in Hd. cbn in Hd. rewrite Hx3 in Hd. cbn in Hd.
  apply directoryById_Ok in Hx2 as [Hp _]; [|done]. apply or_throw_Ok in Hx3.
  apply (entryInode_Ok _ _ _ _ _ C Hp) in Hx3 as [Hn Hi]. apply throw_if_Ok in Hx4.
  unfold is_directory in *. inv_ok. sizes.
  assert (Hleaf : forall ch', inode_kind x3 = Directory ch' -> ch' = ∅) by (intros ch'; by destruct (inode_kind x3)).
  eapply step_eq; [eapply (unlink_step s C p _ _ n x3 Hp Hn Hi Hleaf m t)|]; try done.
  destruct (inode_kind x3); cbn in *; lia.
Qed.

Lemma release_all_nil a : release_all [] a = a.
Proof. done. Qed.

Lemma applyRemoveDirectory_step s p n m t s' delta :
  Core s -> projectedBaseDelta s (RemoveDirectory p n m t) = Ok delta ->
  applyRemoveDirectory p n m t s = (s', Ok tt) -> Step s delta s'.
Proof.
  intros C Hd H. unfold applyRemoveDirectory in H. run H. unfold projectedBaseDelta in Hd.
  rewrite Hx0 in Hd. cbn in Hd. rewrite Hx1 in Hd. cbn in Hd.
  apply validateTimestamp_Ok in Hx3 as [-> Hm], Hx4 as [-> Ht].
  apply directoryById_Ok in Hx0 as [Hp _]; [|done]. apply or_throw_Ok in Hx1.
  apply (entryInode_Ok _ _ _ _ _ C Hp) in Hx1 as [Hn Hi].
  destruct (inode_kind x1) as [ch| |] eqn:Ek; [|done..]. inv_ok. sizes.
  eapply step_eq; [eapply (unlink_step s C p _ _ n x1 Hp Hn Hi _ m t)|]; try done; cbn.
  - by rewrite Ek.
  - rewrite Ek. cbn. lia.
  Unshelve. intros ch'. rewrite Ek. by intros [= <-].
Qed.

(** ** [reserve_quarantine] *)

Lemma applyReserveQuarantine_step s runs s' delta :
  Core s -> projectedBaseDelta s (ReserveQuarantine runs) = Ok delta ->
  applyReserveQuarantine runs s = (s', Ok tt) -> Step s delta s'.
Proof.
  intros C Hd H. unfold applyReserveQuarantine in H. run H.
  apply validateExtentAssignment_Ok in Hx0 as (Hexp & Hlen & Hnd & Has); [|apply C].
  unfold projectedBaseDelta in Hd. rewrite Hexp in Hd. cbn in Hd.
  apply bind_Ok in Hd as (r & Hreu%(selectedExtents_reused _ _ _ _ Hexp) & [= <-]).
  split; [| |done].
  - apply (core_step s); cbn; [done|done|apply C|apply C|apply C| | |].
    + apply reserve_all_ok; [apply C|done].
    + rewrite reserve_all_ownedBy. apply C.
    + intros e g. rewrite reserve_all_quarantine by (apply C || done). apply elem_of_pending.
  - unfold base_bytes. cbn. rewrite reserve_all_bytes by (apply C || done). lia.
Qed.

(** ** [resize_file] *)

Lemma extentCountForSize_nonneg sz es n : 0 < es -> extentCountForSize sz es = Ok n -> 0 <= n.
Proof.
  unfold extentCountForSize. intros Hes H. inv_ok. apply checkedU64_Ok in Hx as [-> ?].
  destruct (sz =? 0); inv_ok; [lia|]. apply Z.div_pos; ll.
Qed.

Lemma applyResizeFile_step s k sz runs m t op s' delta :
  Core s -> projectedBaseDelta s (ResizeFile op k sz runs m t) = Ok delta ->
  applyResizeFile k sz runs m t s = (s', Ok tt) -> Step s delta s'.
Proof.
  intros C Hd H. unfold applyResizeFile in H. run H. unfold projectedBaseDelta in Hd.
  apply checkedU64_Ok in Hx0 as [-> Hsz]. rewrite Hx in Hd. cbn in Hd. rewrite Hx1 in Hd. cbn in Hd.
  apply validateTimestamp_Ok in Hx4 as [-> Hm], Hx5 as [-> Ht].
  apply validateExtentAssignment_Ok in Hx2 as (Hexp & Hlen & Hnd & Has); [|apply C].
  apply bind_Ok in Hd as (r & Hreu%(selectedExtents_reused _ _ _ _ Hexp) & [= <-]).
  unfold fileById, inodeById in Hx. apply bind_Ok in Hx as (i & Hi%or_throw_Ok & Hk).
  destruct (inode_kind i) as [|osz es|] eqn:Ek; [done| |done]. injection Hk as <-. cbn in *.
  pose proof (inode_at_ok s k i C Hi) as Hok. rewrite (io_id _ _ _ _ Hok) in *.
  apply extentCountForSize_nonneg in Hx1 as Hreq; [|eauto using extent_size_pos, c_extentSize].
  rename x1 into req, x2 into added. set (len := Z.of_nat (length es)) in *.
  set (kept := if len <=? req then es else take (Z.to_nat req) es) in *.
  set (released := drop (Z.to_nat req) es) in *.
  assert (Hsplit : es = kept ++ released).
  { unfold kept, released. destruct (len <=? req) eqn:E; propify.
    - by rewrite drop_ge, app_nil_r by lia.
    - by rewrite take_drop. }
  assert (Hrlen : Z.of_nat (length released) = Z.max 0 (len - req)) by (unfold released; rewrite length_drop; lia).
  assert (Hklen : Z.of_nat (length (kept ++ added)) = req).
  { rewrite length_app. apply (f_equal length) in Hsplit. rewrite length_app in Hsplit. lia. }
  assert (Hold : extents_of (inodes s) k = es) by (unfold extents_of; by rewrite Hi, Ek).
  pose proof (own_nodup _ _ (c_own s C) k) as Hes. rewrite Hold, Hsplit in Hes.
  apply NoDup_app in Hes as (Hkn & Hdis & Hrn).
  assert (Howned : forall e, e ∈ es -> ownedBy (allocator s) !! e = Some k)
    by (intros e He; apply (own_iff _ _ (c_own s C)); by rewrite Hold).
  assert (Hfree : forall e, e ∈ added -> ownedBy (allocator s) !! e = None)
    by (intros e; apply assignable_unowned; [apply C|done]).
  assert (Hrel : forall e, e ∈ released -> is_Some (ownedBy (own_all k added (allocator s)) !! e)).
  { intros e He. rewrite own_all_ownedBy. case_decide; [eauto|]. rewrite Howned; [eauto|].
    rewrite Hsplit. set_solver. }
  assert (A' : AllocOk (own_all k added (allocator s))) by (apply own_all_ok; [apply C|done]).
  set (f := set_kind (fun _ => File sz (kept ++ added))) in *.
  assert (Hext : forall y, extents_of (alter (set_ctime t) k (alter (set_mtime m) k (alter f k (inodes s)))) y
                           = if decide (k = y) then kept ++ added else extents_of (inodes s) y).
  { intros y. rewrite !extents_of_touch by done. unfold extents_of. rewrite lookup_alter.
    case_decide; [|done]. subst y. by rewrite Hi. }
  pose proof (Hext k) as Hnew. rewrite decide_True in Hnew by done.
  split; [| |done].
  - apply (core_step s); cbn; rewrite ?size_alter; [done|done|apply C|apply C| | | |].
    + apply tree_ctime, tree_mtime; [done..|]. apply tree_touch; [apply C|].
      intros i' Hi'. rewrite Hi in Hi'. injection Hi' as <-. rewrite Ek. split; [|done].
      destruct Hok. split; try done. cbn. by rewrite Hklen.
    + by apply release_all_ok.
    + eapply (own_update _ _ _ _ k); [apply C| | | |]; rewrite ?Hnew.
      * intros y Hy. by rewrite Hext, decide_False by congruence.
      * apply NoDup_app. split_and!; [done| |done]. intros e He Ha. apply Hfree in Ha.
        rewrite Howned in Ha; [done|]. rewrite Hsplit. set_solver.
      * intros e [He|He]%elem_of_app; [|left; auto]. right. apply Howned. rewrite Hsplit. set_solver.
      * intros e. rewrite release_all_ownedBy, own_all_ownedBy, Hold.
        destruct (decide (e ∈ released)) as [He|He0].
        -- assert (e ∈ es) by (rewrite Hsplit; set_solver).
           rewrite decide_False, decide_True; [done|done|]. intros [Hk|Ha]%elem_of_app; [by eapply Hdis|].
           apply Hfree in Ha. by rewrite Howned in Ha.
        -- destruct (decide (e ∈ added)) as [Ha|Ha]; [by rewrite decide_True by set_solver|].
           destruct (decide (e ∈ es)) as [He|He].
           ++ rewrite (Howned e He), decide_True; [done|]. rewrite Hsplit in He. set_solver.
           ++ rewrite decide_False; [done|]. rewrite Hsplit in He. set_solver.
    + intros e g. rewrite release_all_quarantine, own_all_quarantine by done. apply elem_of_pending.
  - unfold base_bytes. cbn. rewrite !(inodes_bytes_touch _ _ (set_ctime t)), !(inodes_bytes_touch _ _ (set_mtime m)) by done.
    rewrite (inodes_bytes_alter _ _ _ _ Hi), release_all_bytes, own_all_bytes by (apply C || done).
    unfold inode_bytes. rewrite Ek. cbn. fold len. lia.
Qed.
