(* ===== verification/Renames.v ===== *)
(** * Renames preserve the invariant *)

From S2P Require Export Removes.

(** ** What the checks of a rename guarantee *)

Lemma Below_mono P P' a k ns : P ⊆ P' -> Below P a k ns -> Below P' a k ns.
Proof.
  intros Hsub. induction 1 as [|k p name ns Hk Hb IH]; [constructor|].
  econstructor; [|done]. by eapply lookup_weaken.
Qed.

Lemma movesIntoItself_spec s c i dp dch :
  Core s -> inodes s !! c = Some i -> is_dir_at (inodes s) dp dch ->
  exists b, movesIntoItself s i dp = Ok b /\
    (b = true <-> exists ns, Below (parentByInode s) c dp ns).
Proof.
  intros C Hi Hdp. unfold movesIntoItself.
  pose proof (io_id _ _ _ _ (inode_at_ok s c i C Hi)) as Hid.
  assert (is_directory i = false -> ~ exists ns, Below (parentByInode s) c dp ns) as Hleaf.
  { intros Hnd [ns [-> _]%(Below_leaf s (c_tree s C) c dp ns i Hi Hnd)].
    destruct Hdp as (i' & Hi' & Hk). rewrite Hi in Hi'. injection Hi' as <-.
    unfold is_directory in Hnd. by rewrite Hk in Hnd. }
  unfold is_directory in Hleaf. destruct (inode_kind i) as [ch| |] eqn:Ek.
  - rewrite Hid. destruct (t_reach _ _ _ _ _ (c_tree s C) c) as (names & Hp & _); [eauto|].
    eapply (directoryContains_spec s (c_tree s C)); [done|by exists i|done|]. unfold treeFuel. lia.
  - exists false. naive_solver.
  - exists false. naive_solver.
Qed.

Lemma validateRenamedSubtreeBounds_Ok s c i dp dch dn :
  Core s -> inodes s !! c = Some i ->
  validateRenamedSubtreeBounds s i (mkDirectory dp dch) dn = Ok tt ->
  exists dnames, PathTo (parentByInode s) (rootInodeId s) dp dnames /\
    forall k ns, Below (parentByInode s) c k ns -> path_ok ((dnames ++ [dn]) ++ ns).
Proof.
  intros C Hi H. unfold validateRenamedSubtreeBounds in H.
  apply bind_Ok in H as (m & (dnames & Hp & ->)%findPathMetrics_Ok & H).
  apply bind_Ok in H as (m & ->%childPathMetrics_Ok & H). exists dnames. split; [done|].
  eapply (visitBounds_Ok s (c_tree s C)); eauto.
Qed.

Lemma validateRenameTypes_leaf i d ch :
  validateRenameTypes i (Some d) = Ok tt -> inode_kind d = Directory ch -> ch = ∅.
Proof. unfold validateRenameTypes. intros H Hk. rewrite Hk in H. by inv_ok. Qed.

(** ** Moving an entry *)

Section MoveEntry.
Context (I : gmap Z Inode) (sp dp c t : Z) (sn dn : jsstr) (sch dch : Children).
Hypothesis Hsp : is_dir_at I sp sch.
Hypothesis Hsn : sch !! sn = Some c.
Hypothesis Hdp : is_dir_at I dp dch.
Hypothesis Hdn : dch !! dn = None.
Let I' := alter (on_children (insert dn c)) dp (alter (on_children (delete sn)) sp I).

Lemma move_bytes : inodes_bytes I' = inodes_bytes I - child_bytes sn + child_bytes dn.
Proof.
  assert (exists dch1, is_dir_at (alter (on_children (delete sn)) sp I) dp dch1 /\ dch1 !! dn = None)
    as (dch1 & Hd1 & Hn1).
  { setoid_rewrite is_dir_at_alter. destruct (decide (dp = sp)) as [->|].
    - exists (delete sn dch). split; [left; eauto|]. rewrite lookup_delete. by case_decide.
    - exists dch. split; [by right|done]. }
  unfold I'. rewrite (inodes_bytes_add_entry _ _ _ _ _ Hd1 Hn1).
  rewrite (inodes_bytes_drop_entry _ _ _ _ _ Hsp Hsn). lia.
Qed.

Lemma move_extents k : extents_of I' k = extents_of I k.
Proof. unfold I'. by rewrite !extents_of_children. Qed.
End MoveEntry.

(** The times a rename sets. *)
Definition rename_touch (sp dp c t : Z) (I : gmap Z Inode) : gmap Z Inode :=
  alter (set_ctime t) dp (alter (set_mtime t) dp (alter (set_ctime t) sp (alter (set_mtime t) sp
    (alter (set_ctime t) c I)))).

Lemma rename_touch_tree es I P root next sp dp c t :
  u64 t -> TreeOk es I P root next -> TreeOk es (rename_touch sp dp c t I) P root next.
Proof. intros. unfold rename_touch. by repeat (apply tree_ctime || apply tree_mtime). Qed.

Lemma rename_touch_bytes I sp dp c t : inodes_bytes (rename_touch sp dp c t I) = inodes_bytes I.
Proof. unfold rename_touch. by rewrite !inodes_bytes_touch. Qed.

Lemma rename_touch_size I sp dp c t : size (rename_touch sp dp c t I) = size I.
Proof. unfold rename_touch. by rewrite !size_alter. Qed.

Lemma rename_touch_extents I sp dp c t k : extents_of (rename_touch sp dp c t I) k = extents_of I k.
Proof. unfold rename_touch. by rewrite !extents_of_touch. Qed.

(** ** Replacing the destination *)

Lemma removeReplaced_run dp dn d s :
  removeReplaced dp dn (Some d) s =
  (set_allocator (release_all (kind_extents (inode_kind d)))
     (set_parents (delete (inode_id d)) (set_inodes (delete (inode_id d))
        (set_inodes (alter (on_children (delete dn)) dp) s))), Ok tt).
Proof.
  unfold removeReplaced, mutateInode, removeInode, dropParent. rewrite !st_bind_modify.
  destruct (inode_kind d); cbn [kind_extents]; rewrite ?forM_releaseExtent; destruct s; reflexivity.
Qed.

Lemma alter_children_comm sp dp sn dn (I : gmap Z Inode) :
  alter (on_children (delete dn)) dp (alter (on_children (delete sn)) sp I) =
  alter (on_children (delete sn)) sp (alter (on_children (delete dn)) dp I).
Proof.
  destruct (decide (dp = sp)) as [->|Hne]; [|by apply alter_alter_ne].
  rewrite !alter_alter_eq. apply alter_ext. intros i _. unfold on_children, set_kind. cbn.
  f_equal. destruct (inode_kind i); [|done..]. f_equal. apply delete_delete.
Qed.

Section RenameStep.
Context (s : VfsState) (C : Core s) (sp dp c t : Z) (sn dn : jsstr) (sch dch : Children).
Hypothesis Hsp : is_dir_at (inodes s) sp sch.
Hypothesis Hsn : sch !! sn = Some c.
Hypothesis Hdp : is_dir_at (inodes s) dp dch.
Hypothesis Hne : ~ (sp = dp /\ sn = dn).
Hypothesis Hcn : component_ok dn.
Hypothesis Ht : u64 t.
Context (dnames : list jsstr).
Hypothesis Hdnames : PathTo (parentByInode s) (rootInodeId s) dp dnames.
Hypothesis Hnb : ~ exists ns, Below (parentByInode s) c dp ns.
Hypothesis Hbounds : forall k ns, Below (parentByInode s) c k ns -> path_ok ((dnames ++ [dn]) ++ ns).

(** Nothing is replaced. *)
Lemma rename_move_step s' :
  dch !! dn = None ->
  inodes s' = rename_touch sp dp c t
    (alter (on_children (insert dn c)) dp (alter (on_children (delete sn)) sp (inodes s))) ->
  parentByInode s' = <[c := (dp, dn)]> (parentByInode s) -> nextInodeId s' = nextInodeId s ->
  allocator s' = allocator s -> same_header s s' ->
  Step s (- child_bytes sn + child_bytes dn) s'.
Proof.
  intros Hdn HI HP Hnx HA Hh. split; [| |done].
  - apply (core_step s); rewrite ?HI, ?HP, ?Hnx, ?HA; [done|done|apply C| | |apply C| |done].
    + rewrite rename_touch_size, !size_alter. apply C.
    + apply rename_touch_tree; [done|]. eapply tree_move; eauto using c_tree.
    + eapply own_same, C. intros k. by rewrite rename_touch_extents, move_extents.
  - unfold base_bytes. rewrite HI, HA, rename_touch_bytes, (move_bytes _ _ _ _ _ _ _ _ Hsp Hsn Hdp Hdn). lia.
Qed.

(** A leaf is replaced. *)
Lemma rename_replace_step d i s' :
  dch !! dn = Some d -> inodes s !! d = Some i ->
  (forall ch, inode_kind i = Directory ch -> ch = ∅) ->
  inodes s' = rename_touch sp dp c t
    (alter (on_children (insert dn c)) dp
       (delete d (alter (on_children (delete dn)) dp (alter (on_children (delete sn)) sp (inodes s))))) ->
  parentByInode s' = <[c := (dp, dn)]> (delete d (parentByInode s)) -> nextInodeId s' = nextInodeId s ->
  allocator s' = release_all (kind_extents (inode_kind i)) (allocator s) -> same_header s s' ->
  Step s (- child_bytes sn - inode_bytes i + 16 * Z.of_nat (length (kind_extents (inode_kind i)))) s'.
Proof.
  intros Hdn Hi Hleaf HI HP Hnx HA Hh.
  pose proof (leaf_not_parent (c_tree s C) d i Hi Hleaf) as Hnp.
  pose proof (t_child _ _ _ _ _ (c_tree s C) _ _ _ _ Hsp Hsn) as HPc.
  pose proof (t_child _ _ _ _ _ (c_tree s C) _ _ _ _ Hdp Hdn) as HPd.
  assert (Hspd : sp <> d) by eauto. assert (Hdpd : dp <> d) by eauto.
  rewrite alter_children_comm, (delete_alter_ne _ _ sp d Hspd) in HI.
  set (J := delete d (alter (on_children (delete dn)) dp (inodes s))) in *.
  assert (TJ : TreeOk (extentSize s) J (delete d (parentByInode s)) (rootInodeId s) (nextInodeId s))
    by (by eapply unlink_tree).
  assert (HJd : is_dir_at J dp (delete dn dch)).
  { unfold J. rewrite is_dir_at_delete, is_dir_at_alter. split; [done|]. left. eauto. }
  assert (exists sch', is_dir_at J sp sch' /\ sch' !! sn = Some c) as (sch' & HJs & Hsn').
  { unfold J. setoid_rewrite is_dir_at_delete. setoid_rewrite is_dir_at_alter.
    destruct (decide (sp = dp)) as [->|]; [|exists sch; naive_solver].
    exists (delete dn sch). split; [split; [done|left; eauto]|].
    rewrite lookup_delete_ne; [done|]. intros ->. by apply Hne. }
  assert (Hdn' : delete dn dch !! dn = None) by apply lookup_delete_eq.
  assert (Hsub : delete d (parentByInode s) ⊆ parentByInode s) by apply delete_subseteq.
  split; [| |done].
  - apply (core_step s); rewrite ?HI, ?HP, ?Hnx, ?HA; [done|done|apply C| | | | |].
    + rewrite rename_touch_size, !size_alter. unfold J. erewrite unlink_size by eauto.
      pose proof (c_count s C). lia.
    + apply rename_touch_tree; [done|]. eapply tree_move; eauto using PathTo_unlink.
      * intros [ns Hb]. apply Hnb. exists ns. by eapply Below_mono.
      * intros k ns Hb. apply (Hbounds k). by eapply Below_mono.
    + by eapply unlink_alloc.
    + eapply own_same; [|apply (unlink_own s C dp d dn i Hi)]. intros k.
      by rewrite rename_touch_extents, move_extents.
    + intros e g. by apply (unlink_quarantine s C d i Hi).
  - unfold base_bytes. rewrite HI, HA, rename_touch_bytes, (move_bytes _ _ _ _ _ _ _ _ HJs Hsn' HJd Hdn').
    unfold J. rewrite (unlink_bytes s C dp d dch dn i Hdp Hdn Hi Hleaf), (unlink_alloc_bytes s C d i Hi). lia.
Qed.
End RenameStep.

Lemma applyRename_step s sp sn dp dn t s' delta :
  Core s -> projectedBaseDelta s (Rename sp sn dp dn t) = Ok delta ->
  applyRename sp sn dp dn t s = (s', Ok tt) -> Step s delta s'.
Proof.
  intros C Hd H. unfold applyRename in H. run H.
  apply validatePathComponent_component in Hx0. apply throw_if_Ok in Hx1. apply validateTimestamp_Ok in Hx2 as [-> Ht].
  unfold projectedBaseDelta in Hd. rewrite Hx3 in Hd. cbn in Hd. rewrite Hx4 in Hd. cbn in Hd.
  apply directoryById_Ok in Hx3 as [Hsp _]; [|done]. destruct x4 as [dp' dch].
  apply directoryById_Ok in Hx4 as [Hdp Hdid]; [|done]. cbn [dir_id dir_children] in *. subst dp'.
  apply or_throw_Ok in Hx5, Hx6. rename x6 into source, x5 into c. rename x7 into destination.
  pose proof (io_id _ _ _ _ (inode_at_ok s _ _ C Hx6)) as Hid. rewrite Hid in *. clear Hid.
  assert (Hne : ~ (sp = dp /\ sn = dn)) by (intros [-> ->]; rewrite Z.eqb_refl, bool_decide_eq_true_2 in Hx1; done).
  assert (Hnb : ~ exists ns, Below (parentByInode s) c dp ns).
  { destruct (movesIntoItself_spec s c source dp dch C Hx6 Hdp) as (b & Hb & Hiff).
    rewrite Hb in Hx9. injection Hx9 as <-. apply throw_if_Ok in Hx10. subst b. naive_solver. }
  destruct x8, x11.
  destruct (validateRenamedSubtreeBounds_Ok s c source dp dch dn C Hx6 Hx11) as (dnames & Hdn & Hbounds).
  apply bind_Ok in Hd as (sb & ->%childBaseBytes_Ok & Hd). apply bind_Ok in Hd as (d0 & Hd & Hd').
  apply bind_Ok in Hd' as (u & _ & [= <-]). unfold entryInode in Hd.
  destruct (dch !! dn) as [d|] eqn:Edn; cbn [mbind option_bind optionalInode] in *.
  - apply bind_Ok in Hx7 as (i & Hi%or_throw_Ok & [= <-]). rewrite Hi in Hd.
    pose proof (fun ch => validateRenameTypes_leaf source i ch Hx8) as Hleaf. inv_ok. sizes.
    rewrite (st_bind_run _ _ _ _ _ (removeReplaced_run dp dn i _)) in H.
    pose proof (io_id _ _ _ _ (inode_at_ok s _ _ C Hi)) as Hdid. cbv beta in H. rewrite Hdid in H. clear Hdid. run H.
    eapply step_eq; [eapply (rename_replace_step s C sp dp c t sn dn _ _ Hsp Hx5 Hdp Hne Hx0 Ht dnames Hdn Hnb Hbounds d i)|]; try done.
    destruct (inode_kind i); cbn; lia.
  - injection Hx7 as <-. inv_ok. sizes. rewrite (st_bind_run (removeReplaced dp dn None) _ _ _ tt eq_refl) in H.
    cbv beta in H. run H.
    eapply step_eq; [eapply (rename_move_step s C sp dp c t sn dn _ _ Hsp Hx5 Hdp Hx0 Ht dnames Hdn Hnb Hbounds)|]; try done.
Qed.
