(* ===== verification/ApplyTxn.v ===== *)
(** * The reducer as a whole

    [applyTxn] preserves the store invariant, is atomic, and never runs out of the fuel that the
    model gives its tree walks. *)

From S2P Require Export Renames.

(** ** Preservation *)

(** The one thing the reducer leaves to its callers: the paths it creates are within the limits. *)
Definition record_fits (s : VfsState) (record : TxnRecord) : Prop :=
  match record with
  | CreateDirectories entries => entries_fit s entries
  | CreateFile parentId name _ _ _ _ _ _ _ | CreateSymlink parentId name _ _ _ _ _ _ =>
      entry_fits s parentId name
  | _ => True
  end.

Lemma reduceTxn_step s record s' delta :
  Core s -> record_fits s record -> projectedBaseDelta s record = Ok delta ->
  reduceTxn record s = (s', Ok tt) -> Step s delta s'.
Proof.
  intros C Hfits Hd H. destruct record; cbn [reduceTxn record_fits] in *.
  - by eapply applyCreateDirectories_step.
  - by eapply applyCreateFile_step.
  - by eapply applyRemoveFile_step.
  - injection Hd as <-. by eapply applyChangeMode_step.
  - injection Hd as <-. by eapply applyChangeTimes_step.
  - by eapply applyResizeFile_step.
  - by eapply applyRemoveDirectory_step.
  - by eapply applyRename_step.
  - by eapply applyCreateSymlink_step.
  - by eapply applyReserveQuarantine_step.
Qed.

Lemma preflightTxn_Ok s record projected :
  preflightTxn s record = Ok projected ->
  exists delta, projectedBaseDelta s record = Ok delta /\ projected = basePayloadBytes s + delta /\
    0 <= projected <= MAX_METADATA_BASE_WRITER_BYTES.
Proof.
  unfold preflightTxn, preflightTxnWith. intros H. inv_ok. exists x1. split_and!; [done|done|lia|ll].
Qed.

(** What [applyTxn] does with a projection prepared for the same state and record, or with none. *)
Definition prepared_for (s : VfsState) (record : TxnRecord) (prepared : option PreparedTxnProjection) : Prop :=
  match prepared with
  | None => True
  | Some p => prepareTxnProjection s record = Ok p
  end.

Lemma applyTxn_run s record prepared s' :
  prepared_for s record prepared -> applyTxn record prepared s = (s', Ok tt) ->
  exists projected s1, preflightTxn s record = Ok projected /\
    reduceTxn record s = (s1, Ok tt) /\ s' = set_basePayloadBytes projected s1.
Proof.
  intros Hp H. unfold applyTxn in H. apply checked_Ok in H as (u & _ & H).
  assert (exists projected, preflightTxn s record = Ok projected /\
    (reduceTxn record ≫= fun _ => st_modify (set_basePayloadBytes projected)) s = (s', Ok tt))
    as (projected & Hpre & Hr).
  { destruct prepared as [p|].
    - cbn in Hp. unfold prepareTxnProjection in Hp. apply bind_Ok in Hp as (pr & Hpre & [= <-]).
      exists pr. split; [done|]. by rewrite (st_bind_run (mret _) _ s s _ eq_refl) in H.
    - apply checked_Ok in H as (pr & Hpre & H). eauto. }
  apply st_bind_Ok in Hr as (s1 & [] & Hr & H1). rewrite st_modify_run in H1. injection H1 as <-. eauto.
Qed.

Lemma set_base_core b s : Core s -> Core (set_basePayloadBytes b s).
Proof. intros []. by split. Qed.

Lemma applyTxn_Inv s record prepared s' :
  Inv s -> record_fits s record -> prepared_for s record prepared ->
  applyTxn record prepared s = (s', Ok tt) -> Inv s'.
Proof.
  intros [C Hb Hl] Hfits Hp H.
  destruct (applyTxn_run _ _ _ _ Hp H) as (projected & s1 & Hpre & Hr & ->).
  apply preflightTxn_Ok in Hpre as (delta & Hd & -> & ?).
  destruct (reduceTxn_step _ _ _ _ C Hfits Hd Hr) as [C' Hb' _].
  split; [by apply set_base_core| |cbn; lia].
  change (base_bytes (set_basePayloadBytes (basePayloadBytes s + delta) s1)) with (base_bytes s1). cbn. lia.
Qed.

(** ** Atomicity *)

(** An exception of [m] leaves the state alone, and is not the model's own. *)
Definition safe (m : M VfsState unit) (s : VfsState) : Prop :=
  forall s' e, m s = (s', Throw e) -> s' = s /\ e <> FuelExhausted.

Definition total (m : M VfsState unit) : Prop := forall s, exists s', m s = (s', Ok tt).

Lemma total_modify f : total (st_modify f).
Proof. intros s. by eexists. Qed.

Lemma total_bind m k : total m -> (forall u, total (k u)) -> total (m ≫= k).
Proof. intros Hm Hk s. destruct (Hm s) as [s1 Hs1]. rewrite (st_bind_run _ _ _ _ _ Hs1). apply Hk. Qed.

Lemma total_mret : total (mret tt).
Proof. intros s. by exists s. Qed.

Lemma total_own k es : total (forM (ownExtent k) es).
Proof. intros s. rewrite forM_ownExtent. eauto. Qed.

Lemma total_release es : total (forM releaseExtent es).
Proof. intros s. rewrite forM_releaseExtent. eauto. Qed.

Lemma total_reserve es : total (forM (fun e => takeExtent e ≫= fun _ => quarantineExtent e) es).
Proof. intros s. rewrite forM_reserveExtent. eauto. Qed.

Lemma total_removeReplaced dp dn d : total (removeReplaced dp dn d).
Proof. intros s. destruct d as [d|]; [rewrite removeReplaced_run; eauto|by exists s]. Qed.

#[export] Hint Resolve total_modify total_bind total_mret total_own total_release total_reserve
  total_removeReplaced : store.
#[export] Hint Extern 1 (total (mutateInode _ _)) => apply total_modify : store.
#[export] Hint Extern 1 (total (insertInode _ _)) => apply total_modify : store.
#[export] Hint Extern 1 (total (removeInode _)) => apply total_modify : store.
#[export] Hint Extern 1 (total (setParent _ _)) => apply total_modify : store.
#[export] Hint Extern 1 (total (dropParent _)) => apply total_modify : store.

Lemma safe_total m s : total m -> safe m s.
Proof. intros Hm s' e H. destruct (Hm s) as [s1 Hs1]. congruence. Qed.

Lemma safe_lift {A} (m : R A) k s :
  no_fuel m -> (forall a, m = Ok a -> safe (k a) s) -> safe (st_lift m ≫= k) s.
Proof.
  intros Hm Hk s' e. rewrite st_bind_lift. destruct m as [a|e']; [by apply Hk|].
  intros [= <- <-]. split; [done|]. by intros ->.
Qed.

Lemma safe_checked {A} (f : VfsState -> R A) k s :
  no_fuel (f s) -> (forall a, f s = Ok a -> safe (k a) s) -> safe (checked f ≫= k) s.
Proof.
  intros Hm Hk s' e. unfold checked, mbind, ST_bind, st_get, st_lift.
  destruct (f s) as [a|e'] eqn:E; [by apply Hk|].
  intros [= <- <-]. split; [done|]. by intros ->.
Qed.

(** The functions the reducers call. *)
Lemma no_fuel_validateMode m : no_fuel (validateMode m).
Proof. unfold validateMode. nofuel. Qed.
Lemma no_fuel_advance k : no_fuel (advanceNextInodeId k).
Proof. unfold advanceNextInodeId, checkedAdd. nofuel. Qed.
Lemma no_fuel_directoryById s k : no_fuel (directoryById s k).
Proof. unfold directoryById. nofuel. Qed.
Lemma no_fuel_fileById s k : no_fuel (fileById s k).
Proof. unfold fileById. nofuel. Qed.
Lemma no_fuel_extentCount n es : no_fuel (extentCountForSize n es).
Proof. unfold extentCountForSize. nofuel. Qed.
#[export] Hint Resolve no_fuel_validateMode no_fuel_advance no_fuel_directoryById no_fuel_fileById
  no_fuel_extentCount : nofuel.

Lemma no_fuel_expand runs m : no_fuel (expandExtentRuns runs m).
Proof.
  apply no_fuel_foldM. intros b a _. nofuel. apply no_fuel_mapR. intros. unfold checkedAdd. nofuel.
Qed.
#[export] Hint Resolve no_fuel_expand : nofuel.

Lemma no_fuel_assignment s runs n : no_fuel (validateExtentAssignment s runs n).
Proof.
  unfold validateExtentAssignment. nofuel.
  apply no_fuel_foldM. intros ? ? _. unfold assignExtent. nofuel.
Qed.
Lemma no_fuel_parsePath path : no_fuel (parsePath path).
Proof. unfold parsePath. nofuel. apply no_fuel_mapR. intros. nofuel. Qed.
#[export] Hint Resolve no_fuel_assignment no_fuel_parsePath : nofuel.

Lemma no_fuel_symlinkTarget t : no_fuel (validateSymlinkTarget t).
Proof. unfold validateSymlinkTarget. nofuel. Qed.
Lemma no_fuel_checkOwned s k es : no_fuel (checkOwned s k es).
Proof. apply no_fuel_foldM. intros. nofuel. Qed.
Lemma no_fuel_renameTypes i d : no_fuel (validateRenameTypes i d).
Proof. unfold validateRenameTypes. nofuel. Qed.
Lemma no_fuel_optionalInode s k : no_fuel (optionalInode s k).
Proof. unfold optionalInode. nofuel. Qed.
#[export] Hint Resolve no_fuel_symlinkTarget no_fuel_checkOwned no_fuel_renameTypes
  no_fuel_optionalInode : nofuel.

Lemma no_fuel_checkReplaced s d : no_fuel (checkReplaced s d).
Proof. unfold checkReplaced. nofuel. Qed.
Lemma no_fuel_validateCreateDirectories s es : no_fuel (validateCreateDirectories s es).
Proof.
  unfold validateCreateDirectories. nofuel. apply no_fuel_foldM. intros [? ?] ? _.
  unfold stageDirectory, stagedChildren, validateTimestamp. nofuel.
Qed.
#[export] Hint Resolve no_fuel_checkReplaced no_fuel_validateCreateDirectories : nofuel.

(** Checks first, then mutations that cannot throw. *)
Ltac safe :=
  repeat first
    [ apply safe_lift; [solve [unfold validateTimestamp; nofuel]|intros]
    | apply safe_checked; [solve [unfold validateTimestamp; nofuel]|intros] ].
Ltac total := repeat first [ solve [eauto 2 with store] | apply total_bind; intros ].

Lemma movesIntoItself_no_fuel s c i dp dch :
  Core s -> inodes s !! c = Some i -> is_dir_at (inodes s) dp dch -> no_fuel (movesIntoItself s i dp).
Proof. intros C Hi Hd. destruct (movesIntoItself_spec s c i dp dch C Hi Hd) as (b & -> & _). done. Qed.

Lemma applyRename_safe s sp sn dp dn t : Core s -> safe (applyRename sp sn dp dn t) s.
Proof.
  intros C. unfold applyRename. safe.
  match goal with
  | Hd : directoryById s dp = Ok _, Hs : inodeById s _ = Ok _ |- _ =>
      apply directoryById_Ok in Hd as [Hdp Hdid]; [|done]; apply or_throw_Ok in Hs;
      apply safe_checked; [rewrite Hdid; by eapply movesIntoItself_no_fuel|]; intros
  end.
  safe. apply safe_total. total.
Qed.

(** The entries validated by the staging loop are all created. *)
Lemma create_loop_total s0 staged entries s r :
  foldM (stageDirectory s0) (staged, nextInodeId s) entries = Ok r ->
  staged_agree s0 staged s -> ids_ok s ->
  exists s', forM applyCreateDirectory entries s = (s', Ok tt).
Proof.
  revert staged s. induction entries as [|e es IH]; intros staged s; cbn [foldM forM]; [by eexists|].
  intros ([staged' expected'] & Hst & Hrest)%bind_Ok Ha Hids.
  apply stageDirectory_Ok in Hst as (_ & _ & _ & _ & _ & Hid & -> & Hnext & ch & Hch & Hn & ->).
  apply Ha in Hch. rewrite (st_bind_run _ _ _ _ _ (applyCreateDirectory_run s e ch Hch Hid Hnext Hids)).
  eapply IH; [exact Hrest| |by apply link_directory_ids]. by apply link_directory_agree.
Qed.

Lemma reduceTxn_safe s record : Core s -> safe (reduceTxn record) s.
Proof.
  intros C. destruct record; cbn [reduceTxn].
  - unfold applyCreateDirectories. safe. unfold validateCreateDirectories in *. intros s' e He.
    match goal with H : _ = Ok _ |- _ => apply bind_Ok in H as (u & _ & H); apply bind_Ok in H as (r & Hr & _) end.
    destruct (create_loop_total s ∅ entries s r Hr (staged_agree_init s) (core_ids s C)). congruence.
  - unfold applyCreateFile. safe. apply safe_total. total.
  - unfold applyRemoveFile. safe. apply safe_total. total.
  - unfold applyChangeMode. safe. apply safe_total. total.
  - unfold applyChangeTimes. safe. apply safe_total. total.
  - unfold applyResizeFile. safe. apply safe_total. total.
  - unfold applyRemoveDirectory. safe. apply safe_total. total.
  - by apply applyRename_safe.
  - unfold applyCreateSymlink. safe. apply safe_total. total.
  - unfold applyReserveQuarantine. safe. apply safe_total. total.
Qed.

Lemma no_fuel_childBaseBytes n : no_fuel (childBaseBytes n).
Proof. unfold childBaseBytes. nofuel. Qed.
#[export] Hint Resolve no_fuel_childBaseBytes : nofuel.

Lemma no_fuel_inodeBaseBytes i : no_fuel (inodeBaseBytes i).
Proof. unfold inodeBaseBytes. nofuel. apply no_fuel_foldM. intros. nofuel. Qed.
Lemma no_fuel_selected s runs : no_fuel (selectedExtentsAlreadyAvailable s runs).
Proof. unfold selectedExtentsAlreadyAvailable. nofuel. Qed.
#[export] Hint Resolve no_fuel_inodeBaseBytes no_fuel_selected : nofuel.

Lemma no_fuel_preflight s record : no_fuel (preflightTxn s record).
Proof.
  unfold preflightTxn, preflightTxnWith, estimateTxnPayloadBytes, projectedBaseDelta.
  destruct record; repeat first [apply no_fuel_foldM; intros | nofuel].
Qed.
#[export] Hint Resolve no_fuel_preflight : nofuel.

Lemma safe_bind m (k : unit -> M VfsState unit) s : safe m s -> (forall u, total (k u)) -> safe (m ≫= k) s.
Proof.
  intros Hm Hk s' e H. unfold mbind, ST_bind in H. destruct (m s) as [s1 [u|e1]] eqn:E.
  - destruct (Hk u s1). congruence.
  - injection H as <- <-. by apply Hm.
Qed.

Lemma applyTxn_safe record prepared s : Core s -> safe (applyTxn record prepared) s.
Proof.
  intros C. unfold applyTxn. apply safe_checked.
  - destruct prepared; nofuel.
  - intros u _. destruct prepared as [p|].
    + intros s' e. rewrite (st_bind_run (mret _) _ s s _ eq_refl).
      apply safe_bind; [by apply reduceTxn_safe|]. intros. total.
    + apply safe_checked; [nofuel|]. intros. apply safe_bind; [by apply reduceTxn_safe|]. intros. total.
Qed.

(** ** The empty store *)

Lemma createInitialState_Inv es s : createInitialState es = Ok s -> Inv s.
Proof.
  unfold createInitialState. intros H. apply bind_Ok in H as (u & [-> Hes]%validateExtentSize_Ok & [= <-]).
  assert (Hdir : forall k ch, is_dir_at {[1 := mkInode 1 DEFAULT_DIRECTORY_MODE 0 0 0 (Directory ∅)]} k ch
                  <-> k = 1 /\ ch = ∅).
  { intros k ch. unfold is_dir_at. setoid_rewrite lookup_singleton_Some. naive_solver. }
  split; [split|done|cbn; unfold BASE_STATE_FIXED_BYTES, DIRECTORY_INODE_FIXED_BYTES; ll]; cbn.
  - done.
  - ll.
  - ll.
  - rewrite map_size_singleton. ll.
  - split.
    + exists ∅. by apply Hdir.
    + done.
    + intros k i [<- <-]%lookup_singleton_Some. by split.
    + intros p ch n c [-> ->]%Hdir. by rewrite lookup_empty.
    + intros c p n. by rewrite lookup_empty.
    + intros k (i & [<- _]%lookup_singleton_Some). exists []. split; [constructor|]. split; cbn; ll.
  - split; cbn.
    + ll.
    + apply ExtentSet.empty_wf.
    + constructor.
    + intros e. split; [lia|]. rewrite lookup_empty. intros [[? ?]|[?%elem_of_nil|?%elem_of_nil]]; done.
    + intros e. rewrite lookup_empty. by intros [].
    + intros e. rewrite lookup_empty. by intros [].
    + intros e ?%elem_of_nil. done.
  - assert (Hex : forall k, extents_of {[1 := mkInode 1 DEFAULT_DIRECTORY_MODE 0 0 0 (Directory ∅)]} k = []).
    { intros k. unfold extents_of. rewrite lookup_singleton. by case_decide. }
    split; intros; rewrite Hex; [|constructor]. rewrite lookup_empty.
    split; [done|]. by intros ?%elem_of_nil.
  - split; [done|]. intros g. done.
  - by intros e g ?%elem_of_nil.
Qed.

(** ** The properties *)

(** C3. Applying a transaction record to a well-formed state gives a well-formed state, with or
    without a projection prepared for that state and record, as long as the record creates no path
    beyond the limits: the tree stays mirrored by the parent index, every extent below
    [totalExtents] stays in exactly one of owned, available and quarantined, and the running base
    size stays exact and within the writer limit. *)
Theorem applyTxn_preserves_Inv s record prepared s' :
  Inv s -> record_fits s record -> prepared_for s record prepared ->
  applyTxn record prepared s = (s', Ok tt) -> Inv s'.
Proof. apply applyTxn_Inv. Qed.

(** The store after its first directory, for the witnesses. *)
Definition example_store : VfsState :=
  from_ok (mkState 0 0 0 0 MetaA None None 0 ∅ ∅ (mkAllocator 0 ∅ ExtentSet.empty []))
    (createInitialState 8192).

Lemma example_store_Inv : Inv example_store.
Proof. apply (createInitialState_Inv 8192). reflexivity. Qed.

Definition example_record : TxnRecord := CreateFile 1 (js "a") 2 420 5 6 7 9000 [mkRun 0 2].

Lemma example_record_fits : record_fits example_store example_record.
Proof.
  intros names Hp. apply PathTo_root_nil in Hp as ->; [|done]. split; vm_compute; discriminate.
Qed.

Lemma applyTxn_preserves_Inv_witness :
  Inv ((applyTxn example_record None example_store).1) /\
  totalExtents (allocator (applyTxn example_record None example_store).1) = 2.
Proof.
  split; [|vm_compute; reflexivity].
  refine (applyTxn_preserves_Inv example_store example_record None _ example_store_Inv
            example_record_fits I _).
  vm_compute. reflexivity.
Defined.

(** C9. [applyTxn] is atomic: when it throws, the state is exactly what it was, although the
    reducers mutate the state in place. The exception is one of the code's own: the tree walks
    terminate within the fuel the model gives them. *)
Theorem applyTxn_atomic s record prepared s' e :
  Core s -> applyTxn record prepared s = (s', Throw e) -> s' = s /\ e <> FuelExhausted.
Proof. intros C. apply (applyTxn_safe record prepared s C). Qed.

Lemma applyTxn_atomic_witness :
  (applyTxn (RemoveFile 1 (js "x") 0 0) None example_store).1 = example_store /\
  FsError ENOENT <> FuelExhausted.
Proof.
  refine (applyTxn_atomic example_store (RemoveFile 1 (js "x") 0 0) None _ (FsError ENOENT)
            (inv_core _ example_store_Inv) _).
  vm_compute. reflexivity.
Defined.
