(* ===== verification/Validate.v ===== *)
(** * [validateState] decides the invariant *)

From S2P Require Export Invariant.

(** ** Sums over finite sets *)

Definition set_sum (w : Z -> Z) (X : gset Z) : Z := set_fold (fun x acc => w x + acc) 0 X.

Lemma set_sum_empty w : set_sum w ∅ = 0.
Proof. apply set_fold_empty. Qed.

Lemma set_sum_union w X Y : X ## Y -> set_sum w (X ∪ Y) = set_sum w X + set_sum w Y.
Proof.
  intros Hd. unfold set_sum.
  rewrite (set_fold_disj_union_strong (=) (fun x acc => w x + acc)); [| |intros; lia|done]; [|by intros ? ? ? ->].
  set (a := set_fold _ 0 X).
  assert (H : forall b, set_fold (fun x acc => w x + acc) b Y = b + set_fold (fun x acc => w x + acc) 0 Y).
  { intros b. pattern (set_fold (fun x acc => w x + acc) 0 Y). unfold set_fold; cbn.
    induction (elements Y) as [|y l IH]; cbn; lia. }
  rewrite H. lia.
Qed.

Lemma set_sum_singleton w x : set_sum w {[x]} = w x.
Proof. unfold set_sum. rewrite set_fold_singleton. lia. Qed.

(** The sum over the keys of a map. *)
Lemma set_sum_dom (f : Inode -> Z) (I : gmap Z Inode) :
  set_sum (fun k => match I !! k with Some i => f i | None => 0 end) (dom I) = map_sum (fun _ => f) I.
Proof.
  induction I as [|k i I Hk IH] using map_ind.
  - by rewrite dom_empty_L, set_sum_empty, map_sum_empty.
  - rewrite map_sum_insert, dom_insert_L, set_sum_union, set_sum_singleton, lookup_insert_eq by
      (done || (apply not_elem_of_dom in Hk; set_solver)).
    f_equal. rewrite <- IH. unfold set_sum, set_fold. cbn.
    assert (Hl : forall x, x ∈ elements (dom I) -> x <> k).
    { intros x Hx%elem_of_elements ->. by apply not_elem_of_dom in Hk. }
    revert Hl. induction (elements (dom I)) as [|x l IHl]; intros Hl; [done|]. cbn.
    rewrite lookup_insert_ne by (intros ->; apply (Hl x); set_solver). rewrite IHl; [done|].
    intros y Hy. apply Hl. set_solver.
Qed.

(** ** What a visit adds to the scan *)

Section Scan.
Context (s : VfsState).
Let I := inodes s.
Let P := parentByInode s.

Definition key_bytes (k : Z) : Z := match I !! k with Some i => inode_bytes i | None => 0 end.

(** [scan'] is [scan] after classifying the extents of the inodes [X], with [extra] more bytes. *)
Record Grow (X : gset Z) (extra : Z) (scan scan' : Scan) : Prop := {
  g_reached : reached scan' = reached scan ∪ X;
  g_disjoint : X ## reached scan;
  g_bytes : calculatedBasePayloadBytes scan' = calculatedBasePayloadBytes scan + extra + set_sum key_bytes X;
  g_classified : forall e, e ∈ classified scan' <-> e ∈ classified scan \/ exists k, k ∈ X /\ e ∈ extents_of I k;
  g_count : classifiedCount scan' - Z.of_nat (size (classified scan'))
            = classifiedCount scan - Z.of_nat (size (classified scan));
  g_owned : forall k e, k ∈ X -> e ∈ extents_of I k ->
    0 <= e < totalExtents (allocator s) /\ ownedBy (allocator s) !! e = Some k;
  g_nodup : forall k, k ∈ X -> NoDup (extents_of I k)
}.

Lemma grow_trans X Y a b s1 s2 s3 : Grow X a s1 s2 -> Grow Y b s2 s3 -> Grow (X ∪ Y) (a + b) s1 s3.
Proof.
  intros [R1 D1 B1 C1 N1 O1 U1] [R2 D2 B2 C2 N2 O2 U2]. rewrite R1 in D2. split.
  - rewrite R2, R1. set_solver.
  - set_solver.
  - rewrite B2, B1, set_sum_union by set_solver. lia.
  - intros e. rewrite C2, C1. set_solver.
  - lia.
  - intros k e [?|?]%elem_of_union; eauto.
  - intros k [?|?]%elem_of_union; eauto.
Qed.

Lemma grow_bytes n scan : Grow ∅ n scan (addBytes n scan).
Proof.
  split; cbn; [set_solver|set_solver|rewrite set_sum_empty; lia|set_solver|lia|set_solver|set_solver].
Qed.

Lemma grow_refl scan : Grow ∅ 0 scan scan.
Proof.
  split; [set_solver|set_solver|rewrite set_sum_empty; lia|set_solver|lia|set_solver|set_solver].
Qed.

Lemma classify_Ok scan e scan' :
  classify s scan e = Ok scan' <->
  0 <= e < totalExtents (allocator s) /\ (e ∉ classified scan) /\
  scan' = mkScan (reached scan) (calculatedBasePayloadBytes scan) ({[e]} ∪ classified scan) (classifiedCount scan + 1).
Proof.
  unfold classify. rewrite !bind_Ok. setoid_rewrite bind_Ok. setoid_rewrite throw_if_Ok. split.
  - intros (u & H1 & u' & H2 & [= <-]). propify. split_and!; [lia|lia|done|done].
  - intros (H1 & H2 & ->). exists tt. split; [apply orb_false_iff; rewrite Z.ltb_ge, Z.leb_gt; lia|].
    exists tt. split; [by apply bool_decide_eq_false|done].
Qed.

(** A loop that classifies the extents [key x] of a list, each under a further check [Q]. *)
Lemma classify_list_Ok {A} (key : A -> Z) (step : Scan -> A -> R Scan) (Q : A -> Prop) l scan scan' :
  (forall scan x scan', step scan x = Ok scan' <-> classify s scan (key x) = Ok scan' /\ Q x) ->
  foldM step scan l = Ok scan' <->
  NoDup (key <$> l) /\
  (forall x, x ∈ l -> 0 <= key x < totalExtents (allocator s) /\ (key x ∉ classified scan) /\ Q x) /\
  scan' = mkScan (reached scan) (calculatedBasePayloadBytes scan)
            (list_to_set (key <$> l) ∪ classified scan) (classifiedCount scan + Z.of_nat (length l)).
Proof.
  intros Hstep. revert scan. induction l as [|x l IH]; intros scan; cbn [foldM fmap list_fmap].
  - split.
    + intros [= <-]. split_and!; [constructor|set_solver|]. destruct scan. cbn. f_equal; [set_solver|lia].
    + intros (_ & _ & ->). destruct scan. cbn. do 2 f_equal; [set_solver|lia].
  - rewrite bind_Ok. setoid_rewrite IH. setoid_rewrite Hstep. setoid_rewrite classify_Ok.
    rewrite NoDup_cons, (list_elem_of_fmap key). split.
    + intros (sc & (((Hr & Hn & ->) & HQ) & Hnd & Hall & ->)). cbn in *. split_and!.
      * intros (y & Hy & Hin). destruct (Hall y Hin) as (_ & Hx & _). set_solver.
      * done.
      * intros y [->|Hy]%elem_of_cons; [done|]. destruct (Hall y Hy) as (? & ? & ?). set_solver.
      * f_equal; [set_solver|lia].
    + intros ([Hni Hnd] & Hall & ->). destruct (Hall x) as (Hr & Hn & HQ); [set_solver|].
      eexists. split; [split; [split; [exact Hr|split; [exact Hn|reflexivity]]|exact HQ]|].
      cbn. split_and!; [done| |f_equal; [set_solver|lia]].
      intros y Hy. destruct (Hall y) as (? & ? & ?); [set_solver|]. split_and!; [lia|lia| |done].
      intros [Heq%elem_of_singleton|?]%elem_of_union; [|done]. apply Hni. eauto.
Qed.

(** Classifying the extents of a file. *)
Lemma classify_file_Ok (i : Inode) es scan scan' :
  foldM (classifyOwned s i) scan es = Ok scan' <->
  NoDup es /\
  (forall e, e ∈ es -> 0 <= e < totalExtents (allocator s) /\ (e ∉ classified scan) /\
     ownedBy (allocator s) !! e = Some (inode_id i)) /\
  scan' = mkScan (reached scan) (calculatedBasePayloadBytes scan) (list_to_set es ∪ classified scan)
            (classifiedCount scan + Z.of_nat (length es)).
Proof.
  rewrite (classify_list_Ok (fun e => e) _ (fun e => ownedBy (allocator s) !! e = Some (inode_id i))).
  - by rewrite list_fmap_id.
  - intros sc e sc'. unfold classifyOwned. rewrite bind_Ok. setoid_rewrite bind_Ok.
    setoid_rewrite throw_if_Ok. setoid_rewrite negb_false_iff. setoid_rewrite bool_decide_eq_true.
    split; [intros (? & Hc & ? & ? & [= <-]); done|]. intros [??]. eexists. split; [done|]. by exists tt.
Qed.

(** Classifying the free and the quarantined extents. *)
Lemma classify_free_Ok es scan scan' :
  foldM (classify s) scan es = Ok scan' <->
  NoDup es /\
  (forall e, e ∈ es -> 0 <= e < totalExtents (allocator s) /\ (e ∉ classified scan)) /\
  scan' = mkScan (reached scan) (calculatedBasePayloadBytes scan) (list_to_set es ∪ classified scan)
            (classifiedCount scan + Z.of_nat (length es)).
Proof.
  rewrite (classify_list_Ok (fun e => e) _ (fun _ => True)).
  - rewrite list_fmap_id. naive_solver.
  - naive_solver.
Qed.

Lemma classify_quarantine_Ok q scan scan' :
  foldM (classifyQuarantined s) scan q = Ok scan' <->
  NoDup (JsMap.keys q) /\
  (forall e o, (e, o) ∈ q -> 0 <= e < totalExtents (allocator s) /\ (e ∉ classified scan) /\
     forall g, o = Some g -> g = generation s) /\
  scan' = mkScan (reached scan) (calculatedBasePayloadBytes scan)
            (list_to_set (JsMap.keys q) ∪ classified scan) (classifiedCount scan + Z.of_nat (length q)).
Proof.
  rewrite (classify_list_Ok fst _ (fun eo => forall g, eo.2 = Some g -> g = generation s)).
  - unfold JsMap.keys. split; intros (Hnd & Hall & ->); (split_and!; [done| |done]).
    + intros e o Hin. apply (Hall _ Hin).
    + intros [e o] Hin. apply (Hall _ _ Hin).
  - intros sc [e o] sc'. unfold classifyQuarantined. cbn. rewrite bind_Ok. setoid_rewrite bind_Ok.
    setoid_rewrite throw_if_Ok. destruct o as [g|].
    + setoid_rewrite negb_false_iff. setoid_rewrite Z.eqb_eq.
      split; [intros (? & Hc & ? & ? & [= <-]); naive_solver|].
      intros [? Hg]. eexists. split; [done|]. exists tt. split; [by apply Hg|done].
    + split; [intros (? & Hc & ? & ? & [= <-]); naive_solver|].
      intros [? Hg]. eexists. split; [done|]. by exists tt.
Qed.

Lemma size_disjoint_list es (X : gset Z) : NoDup es -> (forall e, e ∈ es -> e ∉ X) ->
  size (list_to_set es ∪ X) = (length es + size X)%nat.
Proof. intros Hnd Hd. rewrite size_union by set_solver. by rewrite size_list_to_set. Qed.

(** ** Soundness of the traversal *)

(** What a successful visit of [k], reached by the names [base], establishes about the inodes [X]. *)
Record Found (k : Z) (base : list jsstr) (X : gset Z) : Prop := {
  f_inode : forall d, d ∈ X -> exists i, I !! d = Some i /\ inode_ok (extentSize s) (nextInodeId s) d i;
  f_path : forall d, d ∈ X -> exists ns, Below P k d ns /\ path_ok (base ++ ns);
  f_child : forall d ch n c, d ∈ X -> is_dir_at I d ch -> ch !! n = Some c -> P !! c = Some (d, n) /\ c ∈ X;
  f_parent : forall d, d ∈ X -> d = k \/
    exists p n ch, P !! d = Some (p, n) /\ is_dir_at I p ch /\ ch !! n = Some d
}.

Lemma visitHeader_Ok scan k i scan' :
  visitHeader s scan k i = Ok scan' ->
  scan' = reach k scan /\ (k ∉ reached scan) /\ inode_id i = k /\ 0 <= k < nextInodeId s /\
  mode_ok (inode_mode i) /\ u64 (atimeMs i) /\ u64 (mtimeMs i) /\ u64 (ctimeMs i).
Proof.
  unfold visitHeader. intros H. apply bind_Ok in H as (k0 & [-> Hk]%checkedU64_Ok & H).
  apply bind_Ok in H as (k1 & [-> _]%checkedU64_Ok & H).
  apply bind_Ok in H as (u1 & H1%throw_if_Ok & H). apply bind_Ok in H as (u2 & H2%throw_if_Ok & H).
  apply bind_Ok in H as (u3 & H3%throw_if_Ok & H).
  apply bind_Ok in H as (m & [-> Hm]%validateMode_Ok & H).
  apply bind_Ok in H as (a & [-> Ha]%validateTimestamp_Ok & H).
  apply bind_Ok in H as (t & [-> Ht]%validateTimestamp_Ok & H).
  apply bind_Ok in H as (c & [-> Hc]%validateTimestamp_Ok & [= <-]). propify. rewrite <- H1 in *.
  unfold u64 in *. split; [done|]. split; [done|]. split; [done|]. split; [lia|].
  split; [exact Hm|]. split; [exact Ha|]. split; [exact Ht|exact Hc].
Qed.

Lemma visitEntry_Ok scan i base name c r :
  visitEntry s i (metrics base) scan name c = Ok r ->
  exists child, r = (addBytes (child_bytes name) scan, child, metrics (base ++ [name])) /\
    I !! c = Some child /\ component_ok name /\ P !! c = Some (inode_id i, name) /\
    path_ok (base ++ [name]).
Proof.
  unfold visitEntry. intros H. apply bind_Ok in H as (nb & Hnb & H).
  pose proof (component_ulen _ _ Hnb) as ->.
  apply bind_Ok in H as (u1 & H1%throw_if_Ok & H). apply bind_Ok in H as (u2 & H2%throw_if_Ok & H).
  apply bind_Ok in H as (u3 & H3%throw_if_Ok & H). apply bind_Ok in H as (child & Hc%or_throw_Ok & [= <-]).
  exists child. unfold path_ok. rewrite metrics_snoc. propify.
  split; [done|]. split; [done|]. split; [by eexists|]. split; [done|]. by split.
Qed.

(** The shape of the loop over the entries of a directory. *)
Definition visitChildren (fuel : nat) (inode : Inode) (m : PathMetrics) (scan : Scan)
  (entries : list (jsstr * Z)) : R Scan :=
  foldM (fun scan '(name, childId) =>
    '(scan, child, childMetrics) ← visitEntry s inode m scan name childId;
    visit fuel s scan childId child childMetrics) scan entries.

Definition entries_bytes (entries : list (jsstr * Z)) : Z :=
  foldr (fun nc sum => child_bytes nc.1 + sum) 0 entries.

Section Visit.
Context (fuel : nat).
Hypothesis IH : forall scan k i base scan', I !! k = Some i -> path_ok base ->
  visit fuel s scan k i (metrics base) = Ok scan' ->
  exists X, k ∈ X /\ Grow X 0 scan scan' /\ Found k base X.

Lemma visitChildren_Ok k i ch base entries scan scan' :
  I !! k = Some i -> inode_id i = k -> is_dir_at I k ch ->
  (forall n c, (n, c) ∈ entries -> ch !! n = Some c) ->
  visitChildren fuel i (metrics base) scan entries = Ok scan' ->
  exists Y, Grow Y (entries_bytes entries) scan scan' /\
    (forall d, d ∈ Y -> exists i, I !! d = Some i /\ inode_ok (extentSize s) (nextInodeId s) d i) /\
    (forall d, d ∈ Y -> exists ns, Below P k d ns /\ path_ok (base ++ ns)) /\
    (forall d ch n c, d ∈ Y -> is_dir_at I d ch -> ch !! n = Some c -> P !! c = Some (d, n) /\ c ∈ Y) /\
    (forall d, d ∈ Y -> exists p n ch, P !! d = Some (p, n) /\ is_dir_at I p ch /\ ch !! n = Some d) /\
    (forall n c, (n, c) ∈ entries -> P !! c = Some (k, n) /\ c ∈ Y /\ component_ok n).
Proof.
  intros Hi Hid Hd. unfold visitChildren. revert scan.
  induction entries as [|[n c] entries IHe]; intros scan Hsub; cbn [foldM].
  - intros [= <-]. exists ∅. split; [apply grow_refl|]. split_and!; set_solver.
  - intros H. apply bind_Ok in H as (scan1 & H1 & H).
    apply bind_Ok in H1 as (r & He & Hv).
    apply visitEntry_Ok in He as (child & -> & Hc & Hcn & HPc & Hok). rewrite Hid in HPc.
    apply IH in Hv as (X & HcX & G1 & [Fi Fp Fc Fr]); [|done|done].
    apply IHe in H as (Y & G2 & Yi & Yp & Yc & Yr & Ye); [|intros n' c' Hin; apply Hsub; set_solver].
    assert (Hbelow : Below P k c [n]) by (apply (BelowChild P k c k n []); [done|constructor]).
    exists (X ∪ Y). split_and!.
    + pose proof (grow_trans _ _ _ _ _ _ _ (grow_trans _ _ _ _ _ _ _ (grow_bytes (child_bytes n) scan) G1) G2) as G.
      replace (∅ ∪ X ∪ Y) with (X ∪ Y) in G by set_solver.
      replace (child_bytes n + 0 + entries_bytes entries) with (entries_bytes ((n, c) :: entries)) in G
        by (unfold entries_bytes; cbn; lia). done.
    + intros d [?|?]%elem_of_union; auto.
    + intros d [Hd'|?]%elem_of_union; [|auto]. destruct (Fp d Hd') as (ns & Hb & Hpok).
      exists ([n] ++ ns). split; [by eapply Below_trans|]. by rewrite app_assoc.
    + intros d ch' n' c' [Hd'|Hd']%elem_of_union Hdir Hn'.
      * destruct (Fc _ _ _ _ Hd' Hdir Hn'). set_solver.
      * destruct (Yc _ _ _ _ Hd' Hdir Hn'). set_solver.
    + intros d [Hd'|?]%elem_of_union; [|auto]. destruct (Fr d Hd') as [->|?]; [|done].
      exists k, n, ch. split; [done|]. split; [done|]. apply Hsub. set_solver.
    + intros n' c' [[= -> ->]|Hin]%elem_of_cons; [split; [done|]; split; [set_solver|done]|].
      destruct (Ye _ _ Hin) as (? & ? & ?). set_solver.
Qed.
End Visit.

Lemma entries_bytes_children ch : entries_bytes (map_to_list ch) = children_bytes ch.
Proof. unfold entries_bytes. rewrite children_bytes_list, foldr_fmap_sum. done. Qed.

Lemma visit_Ok fuel scan k i base scan' :
  I !! k = Some i -> path_ok base -> visit fuel s scan k i (metrics base) = Ok scan' ->
  exists X, k ∈ X /\ Grow X 0 scan scan' /\ Found k base X.
Proof.
  revert scan k i base scan'. induction fuel as [|fuel IH]; intros scan k i base scan' Hi Hbase; [done|].
  cbn [visit]. intros H. apply bind_Ok in H as (scan1 & Hh & H).
  apply visitHeader_Ok in Hh as (-> & Hnr & Hid & Hk & Hm & Ha & Ht & Hc).
  assert (Hkb : key_bytes k = inode_bytes i) by (unfold key_bytes; by rewrite Hi).
  assert (Hself : exists ns, Below P k k ns /\ path_ok (base ++ ns))
    by (exists []; rewrite app_nil_r; split; [constructor|done]).
  destruct (inode_kind i) as [ch|sz es|t] eqn:Ek.
  - assert (Hdir : is_dir_at I k ch) by (by exists i).
    apply (visitChildren_Ok fuel IH k i ch base (map_to_list ch)) in H as (Y & G & Yi & Yp & Yc & Yr & Ye);
      [|done|done|done|by intros n c ?%elem_of_map_to_list].
    assert (Hex : extents_of I k = []) by (unfold extents_of; by rewrite Hi, Ek).
    rewrite entries_bytes_children in G. destruct G as [R D B C N O U]. cbn in R, D, B, C, N.
    exists ({[k]} ∪ Y). split; [set_solver|]. split; split.
    + set_solver.
    + set_solver.
    + rewrite B, set_sum_union, set_sum_singleton, Hkb by set_solver. unfold inode_bytes. rewrite Ek. lia.
    + intros e. rewrite C. split; [set_solver|]. intros [?|(k' & [->%elem_of_singleton|?]%elem_of_union & He)];
        [by left| |right; eauto]. rewrite Hex in He. by apply elem_of_nil in He.
    + lia.
    + intros k' e [->%elem_of_singleton|?]%elem_of_union He; [|eauto]. rewrite Hex in He. by apply elem_of_nil in He.
    + intros k' [->%elem_of_singleton|?]%elem_of_union; [rewrite Hex; constructor|auto].
    + intros d [->%elem_of_singleton|?]%elem_of_union; [|auto]. exists i. split; [done|].
      split; try done. rewrite Ek. intros n c Hn. by apply (Ye n c), elem_of_map_to_list.
    + intros d [->%elem_of_singleton|?]%elem_of_union; auto.
    + intros d ch' n c [->%elem_of_singleton|Hd]%elem_of_union Hd' Hn.
      * rewrite (is_dir_at_fun k ch' ch Hd' Hdir) in Hn. destruct (Ye n c) as (? & ? & _); [by apply elem_of_map_to_list|].
        set_solver.
      * destruct (Yc _ _ _ _ Hd Hd' Hn). set_solver.
    + intros d [->%elem_of_singleton|?]%elem_of_union; [by left|right; auto].
  - apply bind_Ok in H as (count & Hcount & H). apply bind_Ok in H as (u & Hlen%throw_if_Ok & H). propify.
    apply classify_file_Ok in H as (Hnd & Hall & ->). cbn in *. rewrite Hid in *.
    assert (Hex : extents_of I k = es) by (unfold extents_of; by rewrite Hi, Ek).
    exists {[k]}. split; [set_solver|]. split; split; cbn.
    + set_solver.
    + set_solver.
    + rewrite set_sum_singleton, Hkb. unfold inode_bytes. rewrite Ek. lia.
    + intros e. rewrite elem_of_union, elem_of_list_to_set. split.
      * intros [?|?]; [right; exists k; rewrite Hex; set_solver|by left].
      * intros [?|(k' & ->%elem_of_singleton & He)]; [by right|left; by rewrite <- Hex].
    + rewrite size_disjoint_list; [lia|done|]. intros e He. by destruct (Hall e He) as (_ & ? & _).
    + intros k' e ->%elem_of_singleton He. rewrite Hex in He. destruct (Hall e He) as (? & _ & ?). done.
    + intros k' ->%elem_of_singleton. by rewrite Hex.
    + intros d ->%elem_of_singleton. exists i. split; [done|]. split; try done. rewrite Ek. cbn. by rewrite Hlen.
    + by intros d ->%elem_of_singleton.
    + intros d ch n c ->%elem_of_singleton (i' & Hi' & Hk'). congruence.
    + intros d ->%elem_of_singleton. by left.
  - apply bind_Ok in H as (tb & Htb%rethrow_as_Ok & [= <-]). pose proof (target_ulen _ _ Htb) as ->.
    assert (Hex : extents_of I k = []) by (unfold extents_of; by rewrite Hi, Ek).
    exists {[k]}. split; [set_solver|]. split; split; cbn.
    + set_solver.
    + set_solver.
    + rewrite set_sum_singleton, Hkb. unfold inode_bytes. rewrite Ek. lia.
    + intros e. split; [by left|]. intros [?|(k' & ->%elem_of_singleton & He)]; [done|].
      rewrite Hex in He. by apply elem_of_nil in He.
    + lia.
    + intros k' e ->%elem_of_singleton He. rewrite Hex in He. by apply elem_of_nil in He.
    + intros k' ->%elem_of_singleton. rewrite Hex. constructor.
    + intros d ->%elem_of_singleton. exists i. split; [done|]. split; try done. rewrite Ek. by eexists.
    + by intros d ->%elem_of_singleton.
    + intros d ch n c ->%elem_of_singleton (i' & Hi' & Hk'). congruence.
    + intros d ->%elem_of_singleton. by left.
Qed.
End Scan.
