(* ===== verification/Validity.v ===== *)
(** * [validateState] decides the invariant *)

From S2P Require Export Validate ApplyTxn.

(** A set that fits in the range of the same size is the whole range. *)
Lemma range_full (X : gset Z) n :
  (forall e, e ∈ X -> 0 <= e < n) -> Z.of_nat (size X) = n -> forall e, 0 <= e < n -> e ∈ X.
Proof.
  intros Hsub Hsize e He.
  assert (Hr : X = list_to_set (seqZ 0 n)).
  { apply set_subseteq_size_eq.
    - intros x Hx%Hsub. apply elem_of_list_to_set, elem_of_seqZ. lia.
    - rewrite size_list_to_set by apply NoDup_seqZ. rewrite length_seqZ. lia. }
  rewrite Hr. apply elem_of_list_to_set, elem_of_seqZ. lia.
Qed.

Lemma validateRetained_Ok s : 0 < generation s <= MAX_U64 -> validateRetained s = Ok tt <-> RetainedOk s.
Proof.
  intros Hg. unfold validateRetained, RetainedOk. rewrite bind_Ok. setoid_rewrite throw_if_Ok.
  setoid_rewrite negb_false_iff. setoid_rewrite bool_decide_eq_true. split.
  - intros ([] & Ha & H). split; [done|]. intros g Hr. rewrite Hr in H.
    apply bind_Ok in H as (g' & [-> Hu]%checkedU64_Ok & H%throw_if_Ok). propify. unfold u64 in *. lia.
  - intros [Ha Hr]. exists tt. split; [done|]. destruct (retainedGenerations s (otherMetadataFile _)) as [g|]; [|done].
    destruct (Hr g eq_refl) as [H1 H2]. apply bind_Ok. exists g. split; [apply checkedU64_Ok; unfold u64; lia|].
    apply throw_if_Ok. apply orb_false_iff. rewrite negb_false_iff, Z.eqb_neq, Z.eqb_eq. lia.
Qed.

Definition start_scan : Scan := mkScan ∅ BASE_STATE_FIXED_BYTES ∅ 0.

(** ** Soundness *)

Section Sound.
Context (s : VfsState) (X : gset Z).
Let I := inodes s.
Let P := parentByInode s.
Let root := rootInodeId s.
Hypothesis F : Found s root [] X.
Hypothesis Hroot : root ∈ X.
Hypothesis Hrp : P !! root = None.

(** Every inode was visited. *)
Lemma found_all : size X = size I -> X = dom I.
Proof.
  intros Hsize. apply set_subseteq_size_eq.
  - intros d Hd. destruct (f_inode _ _ _ _ F d Hd) as (i & Hi & _). by apply elem_of_dom_2 in Hi.
  - rewrite size_dom. unfold I in *. lia.
Qed.

(** The parent index holds every inode but the root, and nothing else. *)
Lemma found_parents : X = dom I -> Z.of_nat (size P) = Z.of_nat (size I) - 1 -> dom P = X ∖ {[root]}.
Proof.
  intros HX Hsize. symmetry. apply set_subseteq_size_eq.
  - intros d [Hd Hne]%elem_of_difference. apply elem_of_dom.
    destruct (f_parent _ _ _ _ F d Hd) as [->|(p & n & ch & Hp & _)]; [set_solver|by exists (p, n)].
  - rewrite size_dom, size_difference, size_singleton, HX, size_dom; [unfold P, I in *; lia|].
    set_solver.
Qed.

Lemma found_tree ch : X = dom I -> Z.of_nat (size P) = Z.of_nat (size I) - 1 -> is_dir_at I root ch ->
  TreeOk (extentSize s) I P root (nextInodeId s).
Proof.
  intros HX Hsize Hch. pose proof (found_parents HX Hsize) as HP.
  assert (HIX : forall k, is_Some (I !! k) -> k ∈ X) by (intros k; rewrite HX; apply elem_of_dom).
  assert (HXI : forall k, k ∈ X -> is_Some (I !! k)) by (intros k; rewrite HX; apply elem_of_dom).
  split; [by exists ch|done| | | |].
  - intros k i Hi. destruct (f_inode _ _ _ _ F k) as (i' & Hi' & Hok); [by apply HIX; eexists|].
    unfold I in *. by rewrite Hi in Hi'; injection Hi' as <-.
  - intros p ch' n c Hd Hn. eapply (f_child _ _ _ _ F); [|exact Hd|exact Hn].
    apply HIX. destruct Hd as (i & -> & _). eauto.
  - intros c p n Hc. assert (HcX : c ∈ X ∖ {[root]}) by (rewrite <- HP; by apply elem_of_dom_2 in Hc).
    apply elem_of_difference in HcX as [HcX Hne].
    split; [by apply HXI|].
    destruct (f_parent _ _ _ _ F c HcX) as [->|(p' & n' & ch' & Hp & Hd & Hn)]; [set_solver|].
    unfold P in *. rewrite Hc in Hp. injection Hp as <- <-. by exists ch'.
  - intros k Hk%HIX. destruct (f_path _ _ _ _ F k Hk) as (ns & Hb & Hok). exists ns.
    split; [by apply PathTo_from_Below|done].
Qed.

(** Every owned extent was classified, by its owner. *)
Lemma found_owned scan extra :
  Grow s X extra start_scan scan -> X = dom I ->
  classifiedCount scan = Z.of_nat (size (ownedBy (allocator s))) ->
  classified scan = dom (ownedBy (allocator s)) /\ OwnOk I (ownedBy (allocator s)).
Proof.
  intros [R D B C N O U] HX Hcount. cbn in *. rewrite size_empty in N.
  assert (Hcl : classified scan = dom (ownedBy (allocator s))).
  { apply set_subseteq_size_eq; [|rewrite size_dom; lia].
    intros e [He|(k & Hk & He)]%C; [set_solver|]. destruct (O k e Hk He) as [_ Ho]. by apply elem_of_dom_2 in Ho. }
  assert (Hin : forall k e, e ∈ extents_of I k -> k ∈ X).
  { intros k e He. rewrite HX. apply elem_of_dom. unfold extents_of in He.
    destruct (I !! k); [eauto|by apply elem_of_nil in He]. }
  split; [done|]. split.
  - intros e k. split.
    + intros Ho. assert (He : e ∈ classified scan) by (rewrite Hcl; by apply elem_of_dom_2 in Ho).
      apply C in He as [He|(k' & Hk' & He)]; [set_solver|]. destruct (O k' e Hk' He) as [_ Ho'].
      rewrite Ho in Ho'. by injection Ho' as ->.
    + intros He. by apply (O k e (Hin k e He)).
  - intros k. destruct (decide (k ∈ X)) as [Hk|Hk]; [auto|].
    destruct (extents_of I k) as [|e es] eqn:Ee; [constructor|].
    destruct Hk. apply (Hin k e). rewrite Ee. set_solver.
Qed.
End Sound.

(** The allocator, from the three classifications. *)
Lemma classified_alloc s (scan : Scan) av q :
  let a := allocator s in
  0 <= totalExtents a <= MAX_TOTAL_EXTENTS ->
  ExtentSet.wf (available a) -> av = ExtentSet.items (available a) -> q = quarantine a ->
  classified scan = dom (ownedBy a) -> classifiedCount scan = Z.of_nat (size (classified scan)) ->
  (forall e, e ∈ classified scan -> 0 <= e < totalExtents a) ->
  NoDup av -> (forall e, e ∈ av -> 0 <= e < totalExtents a /\ (e ∉ classified scan)) ->
  NoDup (JsMap.keys q) ->
  (forall e, e ∈ JsMap.keys q ->
     0 <= e < totalExtents a /\ (e ∉ (list_to_set av ∪ classified scan : gset Z))) ->
  classifiedCount scan + Z.of_nat (length av) + Z.of_nat (length q) = totalExtents a ->
  AllocOk a.
Proof.
  intros a Ht Hwf -> -> Hcl Hcount Hrange Hnda Hav Hndq Hq Hsum. set (av := ExtentSet.items _) in *.
  set (Y := list_to_set (JsMap.keys (quarantine a)) ∪ (list_to_set av ∪ classified scan) : gset Z).
  assert (HY : Z.of_nat (size Y) = totalExtents a).
  { unfold Y. rewrite size_disjoint_list by (done || (intros e He; by apply Hq)).
    rewrite size_disjoint_list by (done || (intros e He; by apply Hav)). rewrite JsMap.length_keys. lia. }
  assert (HYr : forall e, e ∈ Y -> 0 <= e < totalExtents a).
  { intros e [He%elem_of_list_to_set|[He%elem_of_list_to_set|He]%elem_of_union]%elem_of_union;
      [by apply Hq|by apply Hav|by apply Hrange]. }
  assert (Hown : forall e, is_Some (ownedBy a !! e) <-> e ∈ classified scan)
    by (intros e; rewrite Hcl; by rewrite elem_of_dom).
  split; [done|done|done| | | |].
  - intros e. rewrite Hown. split.
    + intros He%(range_full Y _ HYr HY). unfold Y in He.
      rewrite !elem_of_union, !elem_of_list_to_set in He. tauto.
    + intros He. apply HYr. unfold Y. rewrite !elem_of_union, !elem_of_list_to_set. tauto.
  - intros e He%Hown He'%Hav. tauto.
  - intros e He%Hown He'%Hq. set_solver.
  - intros e He He'%Hq. set_solver.
Qed.

Lemma validateState_sound s :
  ExtentSet.wf (available (allocator s)) -> validateState s = Ok tt -> Inv s.
Proof.
  intros Hwf H. unfold validateState in H.
  apply bind_Ok in H as (es & [-> Hes]%validateExtentSize_Ok & H).
  apply bind_Ok in H as (g & [-> Hg]%checkedU64_Ok & H).
  apply bind_Ok in H as (u1 & Hg0%throw_if_Ok & H).
  apply bind_Ok in H as (nx & [-> Hn]%checkedU64_Ok & H).
  apply bind_Ok in H as (ri & Hri%or_throw_Ok & H).
  apply bind_Ok in H as (u2 & Hrd%throw_if_Ok & H).
  apply bind_Ok in H as (u3 & Hrp%throw_if_Ok & H).
  apply bind_Ok in H as (u4 & Hmax%throw_if_Ok & H).
  apply bind_Ok in H as (t & [-> Ht]%checkedU64_Ok & H).
  apply bind_Ok in H as (u5 & Htm%throw_if_Ok & H).
  apply bind_Ok in H as (scan1 & Hv & H).
  apply bind_Ok in H as (u6 & Hsz%throw_if_Ok & H).
  apply bind_Ok in H as (u7 & Hps%throw_if_Ok & H).
  apply bind_Ok in H as (u8 & Hcc%throw_if_Ok & H).
  apply bind_Ok in H as (u9 & Hb%throw_if_Ok & H).
  apply bind_Ok in H as (u10 & Hl%throw_if_Ok & H).
  apply bind_Ok in H as (u11 & Hr & H). destruct u11.
  apply bind_Ok in H as (scan2 & (Hnda & Hav & ->)%classify_free_Ok & H).
  apply bind_Ok in H as (scan3 & (Hndq & Hq & ->)%classify_quarantine_Ok & H%throw_if_Ok). propify.
  assert (Hgen : 0 < generation s <= MAX_U64) by (unfold u64 in *; lia).
  apply validateRetained_Ok in Hr; [|done].
  rewrite <- metrics_nil in Hv. apply visit_Ok in Hv as (X & HX & G & F); [|done|unfold path_ok; cbn; ll].
  assert (Hrp' : parentByInode s !! rootInodeId s = None) by (by apply eq_None_not_Some).
  assert (HXI : X = dom (inodes s)).
  { apply found_all with (s := s); [done|]. pose proof (g_reached _ _ _ _ _ G) as HR. cbn in HR.
    rewrite union_empty_l_L in HR. apply Nat.eqb_eq in Hsz. by rewrite <- HR. }
  assert (Hdir : exists ch, is_dir_at (inodes s) (rootInodeId s) ch).
  { unfold is_directory in Hrd. destruct (inode_kind ri) eqn:Ek; [|done..]. eexists. by exists ri. }
  destruct Hdir as [ch Hdir].
  destruct (found_owned s X F HX Hrp' scan1 0 G HXI) as [Hcl Hown]; [done|].
  pose proof (found_tree s X F HX Hrp' ch HXI Hps Hdir) as Htree.
  pose proof G as [R D B C N O U]. cbn in R, B, N. rewrite size_empty in N. cbn in *.
  split; [|rewrite Hb, B, HXI|done].
  - split; [done|done|done|done|done| |done|done|].
    + eapply (classified_alloc s scan1); [unfold u64 in *; lia|done|reflexivity|reflexivity|exact Hcl| | |exact Hnda|exact Hav|exact Hndq| |]; cbn in *.
      * lia.
      * intros e [He|(k & Hk & He)]%C; [set_solver|]. by apply (O k e Hk He).
      * intros e [[e' o] [-> Hin]]%list_elem_of_fmap. destruct (Hq _ _ Hin) as (? & ? & _). done.
      * unfold ExtentSet.values in *. lia.
    + intros e g Hin. destruct (Hq _ _ Hin) as (_ & _ & Hx). by apply Hx.
  - unfold base_bytes, inodes_bytes, alloc_bytes. rewrite <- (set_sum_dom inode_bytes).
    unfold key_bytes. lia.
Qed.

(** ** Completeness *)

Lemma validateMode_total m : mode_ok m -> validateMode m = Ok m.
Proof.
  unfold mode_ok, validateMode. intros H. destruct (_ || _) eqn:E; [|done].
  unfold isSafeInteger in E. propify. destruct_or?; propify; ll.
Qed.

Section Complete.
Context (s : VfsState) (C : Core s).
Let I := inodes s.
Let P := parentByInode s.
Let root := rootInodeId s.
Let T := c_tree s C.

(** What the traversal has classified belongs to inodes it has reached. *)
Definition scan_ok (scan : Scan) : Prop :=
  forall e, e ∈ classified scan -> exists k, k ∈ reached scan /\ e ∈ extents_of I k.

(** Nothing at or below [k] has been reached. *)
Definition fresh (k : Z) (scan : Scan) : Prop := forall d ns, Below P k d ns -> d ∉ reached scan.

Lemma scan_ok_grow X extra scan scan' : Grow s X extra scan scan' -> scan_ok scan -> scan_ok scan'.
Proof.
  intros G H e [He|(k & Hk & He)]%(g_classified _ _ _ _ _ G).
  - destruct (H e He) as (k & Hk & Hx). exists k. split; [|done]. rewrite (g_reached _ _ _ _ _ G). set_solver.
  - exists k. split; [|done]. rewrite (g_reached _ _ _ _ _ G). set_solver.
Qed.

Lemma visitHeader_total scan k i : I !! k = Some i -> (k ∉ reached scan) ->
  visitHeader s scan k i = Ok (reach k scan).
Proof.
  intros Hi Hk. destruct (t_inode _ _ _ _ _ T k i Hi) as [Hid Hkey Hm Ha Ht Hc _].
  pose proof (c_next s C). unfold visitHeader, u64, validateTimestamp in *.
  rewrite Hid, !(checkedU64_id k), Z.eqb_refl, (proj2 (Z.leb_gt _ _)) by (unfold u64; lia). cbn.
  rewrite bool_decide_eq_false_2 by done. cbn. rewrite validateMode_total by done. cbn.
  by rewrite !checkedU64_id by done.
Qed.

Lemma visitEntry_total scan k i ch base name c :
  I !! k = Some i -> inode_kind i = Directory ch -> PathTo P root k base -> ch !! name = Some c ->
  exists child, I !! c = Some child /\ PathTo P root c (base ++ [name]) /\
    visitEntry s i (metrics base) scan name c
    = Ok (addBytes (child_bytes name) scan, child, metrics (base ++ [name])).
Proof.
  intros Hi Hk Hp Hn. assert (Hd : is_dir_at I k ch) by (by exists i).
  destruct (child_present T _ _ _ _ Hd Hn) as [child Hc].
  pose proof (t_child _ _ _ _ _ T _ _ _ _ Hd Hn) as HP.
  assert (Hpc : PathTo P root c (base ++ [name])) by (by econstructor).
  exists child. split; [done|]. split; [done|].
  destruct (t_reach _ _ _ _ _ T c) as (ns & Hns & Hok); [by eexists|].
  rewrite (PathTo_unique P root c _ (t_root_parent _ _ _ _ _ T) Hns _ Hpc) in Hok.
  unfold path_ok in Hok. rewrite metrics_snoc in *. cbn [depth bytes] in Hok.
  pose proof (t_inode _ _ _ _ _ T k i Hi) as Hio. pose proof (io_kind _ _ _ _ Hio) as Hki. rewrite Hk in Hki.
  destruct (Hki name c Hn) as [nb Hnb]. pose proof (component_ulen _ _ Hnb) as ->.
  unfold visitEntry. rewrite Hnb. cbn [mbind result_bind].
  rewrite (io_id _ _ _ _ Hio). unfold P in HP. rewrite HP, bool_decide_eq_true_2 by done.
  cbn [negb throw_if mbind result_bind depth bytes].
  rewrite (proj2 (Z.ltb_ge MAX_PATH_DEPTH _)), (proj2 (Z.ltb_ge MAX_PATH_BYTES _)) by lia.
  cbn [throw_if mbind result_bind]. unfold I in Hc. by rewrite Hc.
Qed.

Lemma fresh_sibling k ch base n c n' c' d ns ns' :
  PathTo P root k base -> is_dir_at I k ch -> ch !! n = Some c -> ch !! n' = Some c' ->
  Below P c d ns -> Below P c' d ns' -> n = n'.
Proof.
  intros Hp Hd Hn Hn' Hb Hb'.
  pose proof (t_child _ _ _ _ _ T _ _ _ _ Hd Hn) as HP. pose proof (t_child _ _ _ _ _ T _ _ _ _ Hd Hn') as HP'.
  assert (H1 : PathTo P root d ((base ++ [n]) ++ ns)) by (eapply PathTo_Below; [by econstructor|done]).
  assert (H2 : PathTo P root d ((base ++ [n']) ++ ns')) by (eapply PathTo_Below; [by econstructor|done]).
  pose proof (PathTo_unique P root d _ (t_root_parent _ _ _ _ _ T) H1 _ H2) as Heq.
  rewrite <- !app_assoc in Heq. apply app_inv_head in Heq. by injection Heq.
Qed.

Lemma path_depth k base : is_Some (I !! k) -> PathTo P root k base -> path_ok base.
Proof.
  intros Hk Hp. destruct (t_reach _ _ _ _ _ T k Hk) as (ns & Hns & Hok).
  by rewrite (PathTo_unique P root k _ (t_root_parent _ _ _ _ _ T) Hns _ Hp) in Hok.
Qed.

Section Children.
Context (fuel : nat).
Hypothesis IH : forall scan k i base, I !! k = Some i -> PathTo P root k base -> scan_ok scan ->
  fresh k scan -> (Z.to_nat MAX_PATH_DEPTH < fuel + length base)%nat ->
  exists scan', visit fuel s scan k i (metrics base) = Ok scan'.

Lemma visitChildren_total k i ch base entries scan :
  I !! k = Some i -> inode_kind i = Directory ch -> PathTo P root k base -> scan_ok scan ->
  (Z.to_nat MAX_PATH_DEPTH <= fuel + length base)%nat ->
  NoDup entries.*1 -> (forall n c, (n, c) ∈ entries -> ch !! n = Some c) ->
  (forall n c, (n, c) ∈ entries -> fresh c scan) ->
  exists scan', visitChildren s fuel i (metrics base) scan entries = Ok scan'.
Proof.
  intros Hi Hk Hp Hok Hf. revert scan Hok.
  induction entries as [|[n c] entries IHe]; intros scan Hok Hnd Hsub Hfr; unfold visitChildren; cbn [foldM]; [eauto|].
  apply NoDup_cons in Hnd as [Hni Hnd]. cbn in Hni.
  assert (Hn : ch !! n = Some c) by (apply Hsub; set_solver).
  assert (Hd : is_dir_at I k ch) by (by exists i).
  destruct (visitEntry_total scan k i ch base n c Hi Hk Hp Hn) as (child & Hc & Hpc & Hv).
  rewrite Hv. cbn [mbind result_bind].
  assert (Hfc : fresh c (addBytes (child_bytes n) scan)) by (apply (Hfr n c); set_solver).
  destruct (IH (addBytes (child_bytes n) scan) c child (base ++ [n])) as [scan1 H1]; [done|done|done|done| |].
  { rewrite length_app. change (length [n]) with 1%nat. lia. }
  rewrite H1. cbn [mbind result_bind].
  apply visit_Ok in H1 as (X & _ & G & F); [|done|eapply path_depth; [by eexists|done]].
  apply IHe.
  - eapply scan_ok_grow; [exact G|]. exact Hok.
  - done.
  - intros n' c' Hin. apply Hsub. set_solver.
  - intros n' c' Hin d ns Hb. rewrite (g_reached _ _ _ _ _ G). cbn. intros [Hr|Hx]%elem_of_union.
    + revert Hr. apply (Hfr n' c' ltac:(set_solver) d ns Hb).
    + destruct (f_path _ _ _ _ F d Hx) as (ns' & Hb' & _).
      assert (Hnn : n = n').
      { eapply (fresh_sibling k ch base n c n' c'); [done|done|done| |exact Hb'|exact Hb]. apply Hsub. set_solver. }
      subst n'. apply Hni. apply list_elem_of_fmap. by exists (n, c').
Qed.
End Children.

Lemma visit_total fuel scan k i base :
  I !! k = Some i -> PathTo P root k base -> scan_ok scan -> fresh k scan ->
  (Z.to_nat MAX_PATH_DEPTH < fuel + length base)%nat ->
  exists scan', visit fuel s scan k i (metrics base) = Ok scan'.
Proof.
  revert scan k i base. induction fuel as [|fuel IH]; intros scan k i base Hi Hp Hok Hfr Hf.
  { exfalso. destruct (path_depth k base) as [Hd _]; [by eexists|done|]. unfold metrics in Hd. cbn [depth] in Hd. lia. }
  assert (Hk : k ∉ reached scan) by (apply (Hfr k []); constructor).
  cbn [visit]. rewrite (visitHeader_total scan k i Hi Hk). cbn [mbind result_bind].
  pose proof (t_inode _ _ _ _ _ T k i Hi) as Hio. pose proof (io_kind _ _ _ _ Hio) as Hki.
  destruct (inode_kind i) as [ch|sz es|t] eqn:Ek.
  - apply (visitChildren_total fuel IH k i ch base); [done|done|done| |lia| | |].
    + intros e [d [Hd He]]%Hok. exists d. split; [cbn; set_solver|done].
    + apply NoDup_fst_map_to_list.
    + by intros n c ?%elem_of_map_to_list.
    + intros n c Hn%elem_of_map_to_list d ns Hb. cbn.
      assert (Hd : is_dir_at I k ch) by (by exists i).
      pose proof (t_child _ _ _ _ _ T _ _ _ _ Hd Hn) as HP.
      assert (Hb' : Below P k d ([n] ++ ns)) by (eapply Below_trans; [eapply (BelowChild P k c k n []); [done|constructor]|done]).
      intros [->%elem_of_singleton|Hr]%elem_of_union; [|by apply (Hfr d _ Hb')].
      by pose proof (Below_self P root (t_root_parent _ _ _ _ _ T) k _ base Hp Hb').
  - cbn in Hki. rewrite Hki. cbn [mbind result_bind]. rewrite Z.eqb_refl. cbn [negb throw_if mbind result_bind].
    eexists. apply classify_file_Ok. split_and!; [| |reflexivity].
    + pose proof (own_nodup _ _ (c_own s C) k) as Hnd. unfold extents_of in Hnd. unfold I in Hi. by rewrite Hi, Ek in Hnd.
    + intros e He. assert (Hex : e ∈ extents_of I k) by (unfold extents_of; by rewrite Hi, Ek).
      pose proof (proj2 (own_iff _ _ (c_own s C) e k) Hex) as Ho. rewrite (io_id _ _ _ _ Hio).
      split; [apply (a_cover _ (c_alloc s C)); left; by eexists|]. split; [|done].
      cbn. intros (k' & Hr & He')%Hok. pose proof (proj2 (own_iff _ _ (c_own s C) e k') He') as Ho'.
      rewrite Ho in Ho'. injection Ho' as <-. done.
  - destruct Hki as [tb Htb]. rewrite Htb. cbn. eauto.
Qed.
End Complete.

(** What a traversal of the whole tree ends with. *)
Lemma visit_root s ri scan X :
  Core s -> inodes s !! rootInodeId s = Some ri -> Grow s X 0 start_scan scan -> Found s (rootInodeId s) [] X ->
  rootInodeId s ∈ X ->
  reached scan = dom (inodes s) /\ classified scan = dom (ownedBy (allocator s)) /\
  classifiedCount scan = Z.of_nat (size (ownedBy (allocator s))) /\
  calculatedBasePayloadBytes scan = BASE_STATE_FIXED_BYTES + inodes_bytes (inodes s).
Proof.
  intros C Hri [R D B Cl N O U] F HX. pose proof (c_tree s C) as T. cbn in *. rewrite size_empty in N.
  assert (HXI : X = dom (inodes s)).
  { apply set_eq. intros d. rewrite elem_of_dom. split.
    - intros Hd. destruct (f_inode _ _ _ _ F d Hd) as (i & Hi & _). by eexists.
    - intros Hd. destruct (t_reach _ _ _ _ _ T d Hd) as (ns & Hp & _).
      induction Hp as [|c p name names Hc Hp IH]; [done|].
      destruct (t_parent _ _ _ _ _ T _ _ _ Hc) as (_ & ch & Hdir & Hn).
      eapply (f_child _ _ _ _ F); [apply IH|exact Hdir|exact Hn]. destruct Hdir as (i & Hi & _). by eexists. }
  assert (Hcl : classified scan = dom (ownedBy (allocator s))).
  { apply set_eq. intros e. rewrite Cl, elem_of_dom. split.
    - intros [He|(k & Hk & He)]; [set_solver|]. destruct (O k e Hk He) as [_ ->]. by eexists.
    - intros [k Hk]. right. exists k. apply (own_iff _ _ (c_own s C)) in Hk. split; [|done].
      rewrite HXI. apply elem_of_dom. unfold extents_of in Hk. destruct (inodes s !! k); [eauto|by apply elem_of_nil in Hk]. }
  split; [rewrite R, HXI; set_solver|]. split; [done|]. rewrite Hcl, size_dom in N. split; [lia|].
  unfold inodes_bytes. rewrite B, HXI, <- (set_sum_dom inode_bytes). unfold key_bytes. lia.
Qed.

(** The parent index is one smaller than the inode table. *)
Lemma parents_size s : Core s -> Z.of_nat (size (parentByInode s)) = Z.of_nat (size (inodes s)) - 1.
Proof.
  intros C. pose proof (c_tree s C) as T. destruct (t_root _ _ _ _ _ T) as (ch & ri & Hri & _).
  assert (Hd : dom (parentByInode s) = dom (inodes s) ∖ {[rootInodeId s]}).
  { apply set_eq. intros c. rewrite elem_of_difference, !elem_of_dom, elem_of_singleton. split.
    - intros [[p n] Hc]. destruct (t_parent _ _ _ _ _ T _ _ _ Hc) as [Hi _]. split; [done|]. intros ->.
      by rewrite (t_root_parent _ _ _ _ _ T) in Hc.
    - intros [Hi Hne]. destruct (t_reach _ _ _ _ _ T c Hi) as (ns & Hp & _).
      apply PathTo_inv in Hp as [[-> _]|(p & n & ns' & Hc & _)]; [done|by eexists]. }
  assert (Hin : rootInodeId s ∈ dom (inodes s)) by (apply elem_of_dom; by eexists).
  rewrite <- (size_dom (parentByInode s)), Hd, size_difference, size_singleton, size_dom by set_solver.
  assert (size (inodes s) <> 0%nat) by (rewrite <- size_dom; apply size_non_empty_iff; set_solver). lia.
Qed.

(** The free and the quarantined extents are classified after the owned ones. *)
Lemma validate_extents s scan :
  Core s -> classified scan = dom (ownedBy (allocator s)) ->
  classifiedCount scan = Z.of_nat (size (ownedBy (allocator s))) ->
  (scan ← foldM (classify s) scan (ExtentSet.values (available (allocator s)));
   scan ← foldM (classifyQuarantined s) scan (quarantine (allocator s));
   throw_if (negb (classifiedCount scan =? totalExtents (allocator s))) StoreLimitError) = Ok tt.
Proof.
  intros C Hcl Hcc. pose proof (c_alloc s C) as A. set (a := allocator s) in *.
  assert (Hown : forall e, is_Some (ownedBy a !! e) <-> e ∈ classified scan)
    by (intros e; rewrite Hcl; by rewrite elem_of_dom).
  assert (Hav : forall e, e ∈ ExtentSet.values (available a) -> 0 <= e < totalExtents a /\ (e ∉ classified scan)).
  { intros e He. split; [apply (a_cover _ A); tauto|]. intros Ho%Hown. by apply (a_owned_available _ A e). }
  assert (Hq : forall e, e ∈ JsMap.keys (quarantine a) -> 0 <= e < totalExtents a /\
    (e ∉ (list_to_set (ExtentSet.values (available a)) ∪ classified scan : gset Z))).
  { intros e He. split; [apply (a_cover _ A); tauto|].
    intros [Ha%elem_of_list_to_set|Ho%Hown]%elem_of_union;
      [by apply (a_available_quarantine _ A e)|by apply (a_owned_quarantine _ A e)]. }
  apply bind_Ok. eexists. split.
  { apply classify_free_Ok. split_and!; [apply (a_available _ A)|exact Hav|reflexivity]. }
  apply bind_Ok. eexists. split.
  { apply classify_quarantine_Ok. split_and!; [apply (a_quarantine _ A)| |reflexivity].
    intros e o Hin. destruct (Hq e) as [??]; [apply list_elem_of_fmap; by exists (e, o)|].
    split; [assumption|]. split; [assumption|]. intros g ->. by apply (c_quarantine s C e). }
  apply throw_if_Ok, negb_false_iff, Z.eqb_eq. cbn [classifiedCount].
  set (Y := list_to_set (JsMap.keys (quarantine a)) ∪ (list_to_set (ExtentSet.values (available a)) ∪ classified scan) : gset Z).
  assert (HY : Y = list_to_set (seqZ 0 (totalExtents a))).
  { apply set_eq. intros e. unfold Y. rewrite !elem_of_union, !elem_of_list_to_set, elem_of_seqZ, <- Hown.
    pose proof (a_cover _ A e). unfold ExtentSet.values. naive_solver lia. }
  apply (f_equal size) in HY. rewrite (size_list_to_set (seqZ _ _)), length_seqZ in HY by apply NoDup_seqZ.
  unfold Y in HY. rewrite size_disjoint_list in HY by (apply (a_quarantine _ A) || (intros e He; by apply Hq)).
  rewrite size_disjoint_list in HY by (apply (a_available _ A) || (intros e He; by apply Hav)).
  rewrite JsMap.length_keys, Hcl, size_dom in HY. pose proof (a_total _ A). rewrite Hcc. unfold a in *. lia.
Qed.

Lemma validateState_complete s : Inv s -> validateState s = Ok tt.
Proof.
  intros [C Hb Hl]. pose proof (c_tree s C) as T. destruct (t_root _ _ _ _ _ T) as (ch & ri & Hri & Hch).
  destruct (visit_total s C visitFuel start_scan (rootInodeId s) ri []) as [scan Hv];
    [done|constructor| | |unfold visitFuel; cbn; ll|].
  { intros e He. cbn in He. set_solver. }
  { intros d ns _. cbn. set_solver. }
  pose proof Hv as (X & HX & G & F)%visit_Ok; [|done|unfold path_ok; cbn; ll].
  destruct (visit_root s ri scan X C Hri G F HX) as (Hr & Hcl & Hcc & Hby).
  pose proof (a_total _ (c_alloc s C)) as Ht. pose proof (c_generation s C) as Hg. pose proof (c_count s C).
  unfold validateState. rewrite (proj2 (validateExtentSize_Ok _ _) (conj eq_refl (c_extentSize s C))).
  rewrite !checkedU64_id by (unfold u64; first [apply C|ll]). cbn [mbind result_bind].
  rewrite Hri, (proj2 (Z.eqb_neq (generation s) 0)) by lia. cbn [or_throw throw_if mbind result_bind].
  unfold is_directory. rewrite Hch. cbn [negb throw_if mbind result_bind].
  rewrite bool_decide_eq_false_2 by (rewrite (t_root_parent _ _ _ _ _ T); by intros []).
  rewrite (proj2 (Z.ltb_ge MAX_INODES _)), (proj2 (Z.ltb_ge MAX_TOTAL_EXTENTS _)) by lia.
  cbn [throw_if mbind result_bind]. unfold start_scan in Hv. rewrite metrics_nil in Hv. rewrite Hv.
  cbn [mbind result_bind]. rewrite Hr, size_dom, Nat.eqb_refl, (parents_size s C), Z.eqb_refl, Hcc, Z.eqb_refl.
  cbn [negb throw_if mbind result_bind].
  rewrite Hby, (proj2 (Z.eqb_eq _ _)) by (rewrite Hb; unfold base_bytes, alloc_bytes; lia).
  rewrite (proj2 (Z.ltb_ge MAX_METADATA_BASE_WRITER_BYTES _)) by lia. cbn [negb throw_if mbind result_bind].
  rewrite (proj2 (validateRetained_Ok s Hg) (c_retained s C)). cbn [mbind result_bind].
  by apply validate_extents.
Qed.

(** ** Termination *)

Lemma no_fuel_validate_leaves s :
  (forall i scan e, no_fuel (classifyOwned s i scan e)) /\ (forall scan e, no_fuel (classify s scan e)) /\
  (forall scan e, no_fuel (classifyQuarantined s scan e)) /\ no_fuel (validateRetained s) /\
  (forall scan k i, no_fuel (visitHeader s scan k i)) /\
  (forall i m scan n c, no_fuel (visitEntry s i m scan n c)).
Proof.
  split_and!; intros.
  - unfold classifyOwned, classify. nofuel.
  - unfold classify. nofuel.
  - unfold classifyQuarantined, classify. nofuel.
  - unfold validateRetained. nofuel.
  - unfold visitHeader, validateMode, validateTimestamp. nofuel.
  - unfold visitEntry. nofuel.
Qed.

Lemma visit_no_fuel fuel s scan k i m :
  0 <= depth m -> (Z.to_nat MAX_PATH_DEPTH + 1 <= fuel + Z.to_nat (depth m))%nat -> depth m <= MAX_PATH_DEPTH ->
  no_fuel (visit fuel s scan k i m).
Proof.
  destruct (no_fuel_validate_leaves s) as (L1 & _ & _ & _ & L5 & L6).
  revert scan k i m. induction fuel as [|fuel IH]; intros scan k i m H0 Hf Hd; [ll|]. cbn [visit].
  apply no_fuel_bind; [apply L5|]. intros scan1 _. destruct (inode_kind i) as [ch|sz es|t].
  - apply no_fuel_foldM. intros scan' [n c] _. apply no_fuel_bind; [apply L6|]. intros [[scan2 child] cm] He.
    unfold visitEntry in He. inv_ok. apply IH; cbn [depth]; lia.
  - unfold extentCountForSize. nofuel. apply no_fuel_foldM. intros. apply L1.
  - nofuel.
Qed.

Lemma validateState_no_fuel s : no_fuel (validateState s).
Proof.
  destruct (no_fuel_validate_leaves s) as (_ & L2 & L3 & L4 & _). unfold validateState, validateExtentSize.
  repeat first
    [ apply visit_no_fuel; unfold visitFuel; cbn; ll
    | apply no_fuel_foldM; auto; fail
    | exact L4
    | solve [eauto 3 with nofuel]
    | apply no_fuel_bind; [|intros]
    | case_match ].
Qed.

(** C10. [validateState] accepts a state exactly when the state satisfies the store invariant: a bounded
    acyclic tree mirrored by the parent index, every extent owned, free or quarantined and only one of
    these, exact byte accounting and consistent generations. Its recursion never exhausts the
    path-depth bound, so every other outcome is one of the errors the code throws. *)
Theorem validateState_decides_Inv (s : VfsState) (Hwf : ExtentSet.wf (available (allocator s))) :
  (validateState s = Ok tt <-> Inv s) /\ validateState s <> Throw FuelExhausted.
Proof.
  split; [split|]; [by apply validateState_sound|apply validateState_complete|apply validateState_no_fuel].
Qed.

Lemma validateState_decides_Inv_witness :
  ExtentSet.wf (available (allocator example_store)) /\
  ((validateState example_store = Ok tt <-> Inv example_store) /\
   validateState example_store <> Throw FuelExhausted) /\
  validateState example_store = Ok tt.
Proof.
  assert (Hwf : ExtentSet.wf (available (allocator example_store))) by apply ExtentSet.empty_wf.
  split; [exact Hwf|]. split; [exact (validateState_decides_Inv example_store Hwf)|]. vm_compute. reflexivity.
Defined.
