(* ===== verification/Checksum.v ===== *)
(** * CRC-32

    Models [packages/pgwasm/src/opfs/core/checksum.ts] over the 32-bit bitwise operators of the
    language, and shows that the sliced loops compute the bit-by-bit CRC-32. *)

From Stdlib Require Import Btauto.
From S2P Require Export Limits.

(** ** The bitwise operators of the language

    Their operands are taken modulo [2^32]; [&], [|], [^] and [<<] give a signed result, [>>>] an
    unsigned one. *)

Definition toUint32 (x : Z) : Z := x mod 2 ^ 32.
Definition toInt32 (x : Z) : Z := if toUint32 x <? 2 ^ 31 then toUint32 x else toUint32 x - 2 ^ 32.

Definition js_and (x y : Z) : Z := toInt32 (Z.land (toUint32 x) (toUint32 y)).
Definition js_or (x y : Z) : Z := toInt32 (Z.lor (toUint32 x) (toUint32 y)).
Definition js_xor (x y : Z) : Z := toInt32 (Z.lxor (toUint32 x) (toUint32 y)).
Definition js_shl (x n : Z) : Z := toInt32 (Z.shiftl (toUint32 x) n).
Definition js_ushr (x n : Z) : Z := Z.shiftr (toUint32 x) n.

(** ** The tables *)

Definition tableStep (remainder : Z) : Z :=
  if js_and remainder 1 =? 1 then js_xor 0xedb88320 (js_ushr remainder 1) else js_ushr remainder 1.

Definition tableEntry (value : Z) : Z := js_ushr (Nat.iter 8 tableStep value) 0.

Definition CRC32_TABLE : list Z := tableEntry <$> seqZ 0 256.

(** [table[index]!]: every index the code uses is below 256. *)
Definition at_ (table : list Z) (index : Z) : Z := default 0 (table !! Z.to_nat index).

Definition nextSlice (previous : list Z) : list Z :=
  (fun value =>
     let remainder := at_ previous value in
     js_ushr (js_xor (at_ CRC32_TABLE (js_and remainder 0xff)) (js_ushr remainder 8)) 0)
  <$> seqZ 0 256.

Definition CRC32_SLICE_1 : list Z := nextSlice CRC32_TABLE.
Definition CRC32_SLICE_2 : list Z := nextSlice CRC32_SLICE_1.
Definition CRC32_SLICE_3 : list Z := nextSlice CRC32_SLICE_2.
Definition CRC32_SLICE_4 : list Z := nextSlice CRC32_SLICE_3.
Definition CRC32_SLICE_5 : list Z := nextSlice CRC32_SLICE_4.
Definition CRC32_SLICE_6 : list Z := nextSlice CRC32_SLICE_5.
Definition CRC32_SLICE_7 : list Z := nextSlice CRC32_SLICE_6.

(** ** The loops

    [updateCrc32(remainder, bytes, start, end)] on the bytes from [start] to [end]. *)

Definition byteStep (remainder byte : Z) : Z :=
  js_xor (at_ CRC32_TABLE (js_and (js_xor remainder byte) 0xff)) (js_ushr remainder 8).

Definition sliceStep (remainder b0 b1 b2 b3 b4 b5 b6 b7 : Z) : Z :=
  let word := js_xor remainder (js_or (js_or (js_or b0 (js_shl b1 8)) (js_shl b2 16)) (js_shl b3 24)) in
  js_xor (js_xor (js_xor (js_xor (js_xor (js_xor (js_xor
    (at_ CRC32_SLICE_7 (js_and word 0xff))
    (at_ CRC32_SLICE_6 (js_and (js_ushr word 8) 0xff)))
    (at_ CRC32_SLICE_5 (js_and (js_ushr word 16) 0xff)))
    (at_ CRC32_SLICE_4 (js_ushr word 24)))
    (at_ CRC32_SLICE_3 b4))
    (at_ CRC32_SLICE_2 b5))
    (at_ CRC32_SLICE_1 b6))
    (at_ CRC32_TABLE b7).

(** [n] rounds of the sliced loop, then the bytewise loop. *)
Fixpoint updateSliced (n : nat) (remainder : Z) (bytes : list Z) : Z :=
  match n with
  | O => foldl byteStep remainder bytes
  | S n =>
      match bytes with
      | b0 :: b1 :: b2 :: b3 :: b4 :: b5 :: b6 :: b7 :: rest =>
          updateSliced n (sliceStep remainder b0 b1 b2 b3 b4 b5 b6 b7) rest
      | _ => foldl byteStep remainder bytes
      end
  end.

(** [while (index + 8 <= end)] runs [length / 8] times. *)
Definition updateCrc32 (remainder : Z) (bytes : list Z) : Z :=
  updateSliced (length bytes / 8) remainder bytes.

Definition zeroSliceStep (remainder : Z) : Z :=
  js_xor (js_xor (js_xor
    (at_ CRC32_SLICE_7 (js_and remainder 0xff))
    (at_ CRC32_SLICE_6 (js_and (js_ushr remainder 8) 0xff)))
    (at_ CRC32_SLICE_5 (js_and (js_ushr remainder 16) 0xff)))
    (at_ CRC32_SLICE_4 (js_ushr remainder 24)).

Definition zeroByteStep (remainder : Z) : Z :=
  js_xor (at_ CRC32_TABLE (js_and remainder 0xff)) (js_ushr remainder 8).

Definition updateCrc32WithZeros (remainder : Z) (length : nat) : Z :=
  Nat.iter (length mod 8) zeroByteStep (Nat.iter (length / 8) zeroSliceStep remainder).

Definition crc32 (bytes : list Z) : Z :=
  js_ushr (js_xor (updateCrc32 0xffffffff bytes) 0xffffffff) 0.

Definition crc32WithZeroedRange (bytes : list Z) (offset len : Z) : R Z :=
  throw_if (negb (isSafeInteger offset) || negb (isSafeInteger len) || (offset <? 0) || (len <? 0))
    TypeError ≫= fun _ =>
  throw_if (Z.of_nat (length bytes) <? offset + len) RangeError ≫= fun _ =>
  let zeroEnd := offset + len in
  let remainder := updateCrc32 0xffffffff (take (Z.to_nat offset) bytes) in
  let remainder := updateCrc32WithZeros remainder (Z.to_nat len) in
  let remainder := updateCrc32 remainder (drop (Z.to_nat zeroEnd) bytes) in
  Ok (js_ushr (js_xor remainder 0xffffffff) 0).

(** ** The reference: one bit at a time *)

Definition POLYNOMIAL : Z := 0xedb88320.

Definition crc_bit (r : Z) : Z :=
  if Z.odd r then Z.lxor POLYNOMIAL (Z.shiftr r 1) else Z.shiftr r 1.

Definition crc_byte (r b : Z) : Z := Nat.iter 8 crc_bit (Z.lxor r b).

Definition crc_reference (bytes : list Z) : Z :=
  Z.lxor (foldl crc_byte 0xffffffff bytes) 0xffffffff.

Definition byte (b : Z) : Prop := 0 <= b <= 255.

(** ** The operators on 32-bit values *)

Lemma toUint32_range x : 0 <= toUint32 x < 2 ^ 32.
Proof. apply Z.mod_pos_bound. lia. Qed.

Lemma toUint32_id x : 0 <= x < 2 ^ 32 -> toUint32 x = x.
Proof. apply Z.mod_small. Qed.

Lemma toUint32_toInt32 x : toUint32 (toInt32 x) = toUint32 x.
Proof.
  unfold toInt32. pose proof (toUint32_range x). destruct (_ <? _); [by apply toUint32_id|].
  unfold toUint32 in *. rewrite Zminus_mod, Z_mod_same_full, Z.sub_0_r, !Zmod_mod. done.
Qed.

Lemma pow2_bits x n : 0 <= n -> 0 <= x < 2 ^ n <-> 0 <= x /\ forall k, n <= k -> Z.testbit x k = false.
Proof.
  intros Hn. split.
  - intros [H0 Hlt]. split; [done|]. intros k Hk. destruct (decide (x = 0)) as [->|]; [apply Z.bits_0|].
    apply Z.bits_above_log2; [done|]. apply Z.lt_le_trans with n; [|done]. apply Z.log2_lt_pow2; lia.
  - intros [H0 Hb]. split; [done|]. destruct (decide (x = 0)) as [->|]; [lia|].
    apply Z.log2_lt_pow2; [lia|]. apply Z.nle_gt. intros Hle. apply Hb in Hle.
    by rewrite Z.bit_log2 in Hle by lia.
Qed.

Lemma lxor_range x y n : 0 <= n -> 0 <= x < 2 ^ n -> 0 <= y < 2 ^ n -> 0 <= Z.lxor x y < 2 ^ n.
Proof.
  intros Hn Hx%pow2_bits Hy%pow2_bits; [|done..]. apply pow2_bits; [done|]. split.
  - apply Z.lxor_nonneg. lia.
  - intros k Hk. destruct Hx as [_ Hx], Hy as [_ Hy]. by rewrite Z.lxor_spec, Hx, Hy.
Qed.

Lemma lor_range x y n : 0 <= n -> 0 <= x < 2 ^ n -> 0 <= y < 2 ^ n -> 0 <= Z.lor x y < 2 ^ n.
Proof.
  intros Hn Hx%pow2_bits Hy%pow2_bits; [|done..]. apply pow2_bits; [done|]. split.
  - apply Z.lor_nonneg. lia.
  - intros k Hk. destruct Hx as [_ Hx], Hy as [_ Hy]. by rewrite Z.lor_spec, Hx, Hy.
Qed.

Lemma js_xor_val x y : toUint32 (js_xor x y) = Z.lxor (toUint32 x) (toUint32 y).
Proof.
  unfold js_xor. rewrite toUint32_toInt32. apply toUint32_id.
  apply lxor_range; [lia|apply toUint32_range..].
Qed.

Lemma js_or_val x y : toUint32 (js_or x y) = Z.lor (toUint32 x) (toUint32 y).
Proof.
  unfold js_or. rewrite toUint32_toInt32. apply toUint32_id.
  apply lor_range; [lia|apply toUint32_range..].
Qed.

Lemma js_and_ff x : js_and x 0xff = Z.land (toUint32 x) 0xff.
Proof.
  unfold js_and. change (toUint32 0xff) with 0xff. unfold toInt32.
  change 0xff with (Z.ones 8). rewrite Z.land_ones by lia.
  pose proof (Z.mod_pos_bound (toUint32 x) (2 ^ 8) ltac:(lia)).
  rewrite toUint32_id by lia. destruct (_ <? _) eqn:E; propify; lia.
Qed.

Lemma byte_shl b n : byte b -> 0 <= n <= 24 -> toUint32 (js_shl b n) = Z.shiftl b n.
Proof.
  intros Hb Hn. unfold byte in Hb. unfold js_shl. rewrite toUint32_toInt32, (toUint32_id b) by lia.
  apply toUint32_id. rewrite Z.shiftl_mul_pow2 by lia.
  assert (0 < 2 ^ n <= 2 ^ 24) by (split; [lia|apply Z.pow_le_mono_r; lia]). nia.
Qed.

Lemma byte_uint b : byte b -> toUint32 b = b.
Proof. unfold byte. intros. apply toUint32_id. lia. Qed.

(** ** Linearity *)

Ltac lxor_solve :=
  apply Z.bits_inj; intros ?; rewrite ?Z.lxor_spec;
  repeat match goal with |- context [Z.testbit ?x ?n] => generalize (Z.testbit x n); intros ? end;
  btauto.

Lemma crc_bit_lxor a b : crc_bit (Z.lxor a b) = Z.lxor (crc_bit a) (crc_bit b).
Proof.
  unfold crc_bit. rewrite <- !Z.bit0_odd, Z.lxor_spec, Z.shiftr_lxor.
  destruct (Z.testbit a 0), (Z.testbit b 0); cbn [xorb]; lxor_solve.
Qed.

Lemma iter_S {A} (f : A -> A) n x : Nat.iter (S n) f x = f (Nat.iter n f x).
Proof. reflexivity. Qed.

(** [k] zero bytes. *)
Definition crc_zeros (k : nat) (x : Z) : Z := Nat.iter (8 * k) crc_bit x.

Lemma crc_zeros_lxor k a b : crc_zeros k (Z.lxor a b) = Z.lxor (crc_zeros k a) (crc_zeros k b).
Proof.
  unfold crc_zeros. induction (8 * k)%nat as [|n IH]; [done|]. by rewrite !iter_S, IH, crc_bit_lxor.
Qed.

Lemma crc_zeros_add j k x : crc_zeros (j + k) x = crc_zeros j (crc_zeros k x).
Proof.
  unfold crc_zeros. rewrite Nat.mul_add_distr_l. unfold Nat.iter. by rewrite nat_rect_plus.
Qed.

Lemma crc_bit_double x : crc_bit (Z.shiftl x 1) = x.
Proof.
  unfold crc_bit. rewrite <- Z.bit0_odd, Z.shiftl_spec_low by lia. by rewrite Z.shiftr_shiftl_l, Z.shiftl_0_r by lia.
Qed.

Lemma crc_zeros_shift k x : crc_zeros (S k) (Z.shiftl x 8) = crc_zeros k x.
Proof.
  replace (S k) with (k + 1)%nat by lia. rewrite crc_zeros_add. f_equal. unfold crc_zeros. cbn [Nat.mul Nat.add].
  assert (H : forall n y, Nat.iter n crc_bit (Z.shiftl y (Z.of_nat n)) = y).
  { induction n as [|n IH]; intros y; [apply Z.shiftl_0_r|].
    rewrite iter_S.
    replace (Z.of_nat (S n)) with (1 + Z.of_nat n) by lia. rewrite <- Z.shiftl_shiftl by lia.
    by rewrite IH, crc_bit_double. }
  apply (H 8%nat).
Qed.

(** A value is its low byte and the rest. *)
Lemma split_byte x : x = Z.lxor (Z.land x 0xff) (Z.shiftl (Z.shiftr x 8) 8).
Proof.
  change 0xff with (Z.ones 8). rewrite Z.land_ones, Z.shiftl_mul_pow2, Z.shiftr_div_pow2 by lia.
  rewrite <- Z.add_nocarry_lxor; [pose proof (Z.div_mod x (2 ^ 8)); lia|].
  rewrite <- Z.shiftl_mul_pow2, <- Z.land_ones by lia. apply Z.bits_inj. intros n.
  rewrite !Z.land_spec, Z.bits_0. destruct (decide (n < 0)); [by rewrite !Z.testbit_neg_r by lia|].
  destruct (decide (n < 8)).
  - rewrite Z.shiftl_spec_low by lia. btauto.
  - rewrite Z.ones_spec_high by lia. btauto.
Qed.

Lemma shiftr_byte b : byte b -> Z.shiftr b 8 = 0.
Proof. unfold byte. intros. rewrite Z.shiftr_div_pow2 by lia. apply Z.div_small. lia. Qed.

(** ** The tables hold the CRC of one byte followed by zeros *)

Definition table_ok (table : list Z) (k : nat) : bool :=
  forallb (fun v => at_ table v =? crc_zeros k v) (seqZ 0 256).

Lemma table_at table k v : table_ok table k = true -> 0 <= v < 256 -> at_ table v = crc_zeros k v.
Proof.
  intros Ht Hv. unfold table_ok in Ht. rewrite forallb_forall in Ht. apply Z.eqb_eq, Ht.
  apply list_elem_of_In, elem_of_seqZ. lia.
Qed.

Lemma table_0_ok : table_ok CRC32_TABLE 1 = true. Proof. vm_compute. reflexivity. Qed.
Lemma table_1_ok : table_ok CRC32_SLICE_1 2 = true. Proof. vm_compute. reflexivity. Qed.
Lemma table_2_ok : table_ok CRC32_SLICE_2 3 = true. Proof. vm_compute. reflexivity. Qed.
Lemma table_3_ok : table_ok CRC32_SLICE_3 4 = true. Proof. vm_compute. reflexivity. Qed.
Lemma table_4_ok : table_ok CRC32_SLICE_4 5 = true. Proof. vm_compute. reflexivity. Qed.
Lemma table_5_ok : table_ok CRC32_SLICE_5 6 = true. Proof. vm_compute. reflexivity. Qed.
Lemma table_6_ok : table_ok CRC32_SLICE_6 7 = true. Proof. vm_compute. reflexivity. Qed.
Lemma table_7_ok : table_ok CRC32_SLICE_7 8 = true. Proof. vm_compute. reflexivity. Qed.

(** ** The loops compute the reference *)

Lemma crc_byte_zeros r b : crc_byte r b = crc_zeros 1 (Z.lxor r b).
Proof. reflexivity. Qed.

Lemma land_ff x : 0 <= Z.land x 0xff < 256.
Proof. change 0xff with (Z.ones 8). rewrite Z.land_ones by lia. by apply Z.mod_pos_bound. Qed.

Lemma byte_of_range x : 0 <= x < 256 -> byte x.
Proof. unfold byte. lia. Qed.

Lemma table_uint table k v : table_ok table k = true -> 0 <= v < 256 -> (k <= 8)%nat -> (1 <= k)%nat ->
  toUint32 (at_ table v) = crc_zeros k v.
Proof.
  intros Ht Hv Hk Hk1. rewrite (table_at table k v Ht Hv). apply toUint32_id.
  assert (H : forall n x, 0 <= x < 2 ^ 32 -> 0 <= Nat.iter n crc_bit x < 2 ^ 32).
  { induction n as [|n IH]; intros x Hx; [done|]. rewrite iter_S. specialize (IH x Hx).
    set (y := Nat.iter n crc_bit x) in *. unfold crc_bit.
    assert (0 <= Z.shiftr y 1 < 2 ^ 32).
    { rewrite Z.shiftr_div_pow2 by lia. split; [apply Z.div_pos; lia|apply Z.div_lt_upper_bound; lia]. }
    destruct (Z.odd y); [|done]. apply lxor_range; [lia|unfold POLYNOMIAL; lia|done]. }
  apply H. lia.
Qed.

(** One byte of the table-driven step, on any 32-bit remainder. *)
Lemma crc_zeros_1 x :
  crc_zeros 1 x = Z.lxor (crc_zeros 1 (Z.land x 0xff)) (Z.shiftr x 8).
Proof.
  rewrite (split_byte x) at 1. rewrite crc_zeros_lxor. f_equal. apply (crc_zeros_shift 0).
Qed.

Lemma byteStep_ok r b : byte b -> toUint32 (byteStep r b) = crc_byte (toUint32 r) b.
Proof.
  intros Hb. unfold byteStep. rewrite js_xor_val, js_and_ff, js_xor_val, (byte_uint b Hb).
  rewrite (table_uint _ 1 _ table_0_ok (land_ff _)) by lia.
  rewrite crc_byte_zeros, (crc_zeros_1 (Z.lxor (toUint32 r) b)).
  rewrite Z.shiftr_lxor, (shiftr_byte b Hb), Z.lxor_0_r. f_equal. unfold js_ushr. apply toUint32_id.
  pose proof (toUint32_range r). rewrite Z.shiftr_div_pow2 by lia.
  split; [apply Z.div_pos; lia|apply Z.div_lt_upper_bound; lia].
Qed.

Lemma zeroByteStep_ok r : toUint32 (zeroByteStep r) = crc_byte (toUint32 r) 0.
Proof.
  rewrite <- byteStep_ok by (unfold byte; lia). unfold byteStep, zeroByteStep.
  by rewrite !js_and_ff, (js_xor_val r 0), Z.lxor_0_r.
Qed.

(** Four bytes of a word at once. *)
Lemma crc_zeros_word k w :
  crc_zeros (4 + k) w =
  Z.lxor (Z.lxor (Z.lxor (crc_zeros (4 + k) (Z.land w 0xff))
    (crc_zeros (3 + k) (Z.land (Z.shiftr w 8) 0xff)))
    (crc_zeros (2 + k) (Z.land (Z.shiftr w 16) 0xff)))
    (crc_zeros (1 + k) (Z.shiftr w 24)).
Proof.
  rewrite (split_byte w) at 1. rewrite crc_zeros_lxor, (crc_zeros_shift (3 + k)).
  rewrite (split_byte (Z.shiftr w 8)) at 1. rewrite crc_zeros_lxor, (crc_zeros_shift (2 + k)).
  rewrite Z.shiftr_shiftr by lia. change (8 + 8) with 16.
  rewrite (split_byte (Z.shiftr w 16)) at 1. rewrite crc_zeros_lxor, (crc_zeros_shift (1 + k)).
  rewrite Z.shiftr_shiftr by lia. change (16 + 8) with 24. by rewrite !Z.lxor_assoc.
Qed.

(** The bytes of a 32-bit word assembled with [|] and [<<]. *)
Lemma lor_shift a b n : 0 <= n -> 0 <= a < 2 ^ n -> 0 <= b -> Z.lor a (Z.shiftl b n) = Z.lxor a (Z.shiftl b n).
Proof.
  intros Hn Ha Hb. apply Z.bits_inj. intros k. rewrite Z.lor_spec, Z.lxor_spec.
  destruct (decide (k < 0)); [by rewrite !Z.testbit_neg_r by lia|].
  destruct (decide (k < n)).
  - rewrite (Z.shiftl_spec_low b n k) by lia. btauto.
  - apply pow2_bits in Ha as [_ Ha]; [|done]. by rewrite (Ha k) by lia.
Qed.

Lemma word_uint b0 b1 b2 b3 : byte b0 -> byte b1 -> byte b2 -> byte b3 ->
  toUint32 (js_or (js_or (js_or b0 (js_shl b1 8)) (js_shl b2 16)) (js_shl b3 24)) =
  Z.lxor (Z.lxor (Z.lxor b0 (Z.shiftl b1 8)) (Z.shiftl b2 16)) (Z.shiftl b3 24).
Proof.
  intros H0 H1 H2 H3. rewrite !js_or_val, !byte_shl, byte_uint by (done || lia).
  unfold byte in *.
  assert (Hsh : forall b n, 0 <= b <= 255 -> 0 <= n -> 0 <= Z.shiftl b n < 2 ^ (n + 8)).
  { intros b n Hb Hn. rewrite Z.shiftl_mul_pow2, Z.pow_add_r by lia. pose proof (Z.pow_pos_nonneg 2 n). nia. }
  assert (R1 : 0 <= Z.lor b0 (Z.shiftl b1 8) < 2 ^ 16).
  { apply lor_range; [lia|lia|]. by apply (Hsh b1 8). }
  assert (R2 : 0 <= Z.lor (Z.lor b0 (Z.shiftl b1 8)) (Z.shiftl b2 16) < 2 ^ 24).
  { apply lor_range; [lia|lia|]. by apply (Hsh b2 16). }
  rewrite (lor_shift _ b3), (lor_shift _ b2), (lor_shift _ b1) by lia. done.
Qed.

Lemma crc_zeros_byte_shift k b :
  crc_zeros (S (S k)) (Z.shiftl b 16) = crc_zeros k b /\
  crc_zeros (S (S (S k))) (Z.shiftl b 24) = crc_zeros k b.
Proof.
  change 24 with (8 + 16). change 16 with (8 + 8). rewrite <- !Z.shiftl_shiftl by lia.
  by rewrite !crc_zeros_shift.
Qed.

Lemma crc_bytes_8 r b0 b1 b2 b3 b4 b5 b6 b7 :
  foldl crc_byte r [b0; b1; b2; b3; b4; b5; b6; b7] =
  Z.lxor (Z.lxor (Z.lxor (Z.lxor
    (crc_zeros 8 (Z.lxor r (Z.lxor (Z.lxor (Z.lxor b0 (Z.shiftl b1 8)) (Z.shiftl b2 16)) (Z.shiftl b3 24))))
    (crc_zeros 4 b4)) (crc_zeros 3 b5)) (crc_zeros 2 b6)) (crc_zeros 1 b7).
Proof.
  cbn [foldl]. rewrite !crc_byte_zeros, !crc_zeros_lxor, <- !crc_zeros_add. cbn [Nat.add].
  rewrite (crc_zeros_shift 7 b1), (proj1 (crc_zeros_byte_shift 6 b2)), (proj2 (crc_zeros_byte_shift 5 b3)).
  lxor_solve.
Qed.

Lemma sliceStep_ok r b0 b1 b2 b3 b4 b5 b6 b7 :
  Forall byte [b0; b1; b2; b3; b4; b5; b6; b7] ->
  toUint32 (sliceStep r b0 b1 b2 b3 b4 b5 b6 b7) =
  foldl crc_byte (toUint32 r) [b0; b1; b2; b3; b4; b5; b6; b7].
Proof.
  rewrite !Forall_cons. intros (H0&H1&H2&H3&H4&H5&H6&H7&_). unfold sliceStep.
  set (word := js_xor r _).
  assert (Hw : toUint32 word = Z.lxor (toUint32 r)
    (Z.lxor (Z.lxor (Z.lxor b0 (Z.shiftl b1 8)) (Z.shiftl b2 16)) (Z.shiftl b3 24)))
    by (unfold word; by rewrite js_xor_val, word_uint).
  rewrite crc_bytes_8, <- Hw, (crc_zeros_word 4).
  assert (Hhi : 0 <= Z.shiftr (toUint32 word) 24 < 256).
  { pose proof (toUint32_range word). rewrite Z.shiftr_div_pow2 by lia.
    split; [apply Z.div_pos; lia|apply Z.div_lt_upper_bound; lia]. }
  unfold byte in *. rewrite !js_xor_val, !js_and_ff. unfold js_ushr.
  rewrite (toUint32_id (Z.shiftr _ 8)), (toUint32_id (Z.shiftr _ 16)).
  - rewrite (table_uint _ 8 _ table_7_ok (land_ff _)), (table_uint _ 7 _ table_6_ok (land_ff _)),
      (table_uint _ 6 _ table_5_ok (land_ff _)), (table_uint _ 5 _ table_4_ok Hhi),
      (table_uint _ 4 _ table_3_ok), (table_uint _ 3 _ table_2_ok), (table_uint _ 2 _ table_1_ok),
      (table_uint _ 1 _ table_0_ok) by lia. done.
  - pose proof (toUint32_range word). rewrite Z.shiftr_div_pow2 by lia.
    split; [apply Z.div_pos; lia|apply Z.div_lt_upper_bound; lia].
  - pose proof (toUint32_range word). rewrite Z.shiftr_div_pow2 by lia.
    split; [apply Z.div_pos; lia|apply Z.div_lt_upper_bound; lia].
Qed.

Lemma foldl_byteStep_ok bytes r : Forall byte bytes ->
  toUint32 (foldl byteStep r bytes) = foldl crc_byte (toUint32 r) bytes.
Proof.
  revert r. induction bytes as [|b bytes IH]; intros r; [done|]. intros [Hb Hbs]%Forall_cons.
  cbn [foldl]. by rewrite IH, byteStep_ok.
Qed.

Lemma updateSliced_ok n bytes r : Forall byte bytes ->
  toUint32 (updateSliced n r bytes) = foldl crc_byte (toUint32 r) bytes.
Proof.
  revert bytes r. induction n as [|n IH]; intros bytes r Hb; [by apply foldl_byteStep_ok|].
  destruct bytes as [|b0 [|b1 [|b2 [|b3 [|b4 [|b5 [|b6 [|b7 rest]]]]]]]]; try by apply foldl_byteStep_ok.
  change (b0 :: b1 :: b2 :: b3 :: b4 :: b5 :: b6 :: b7 :: rest)
    with ([b0; b1; b2; b3; b4; b5; b6; b7] ++ rest) in *.
  apply Forall_app in Hb as [H8 Hrest]. rewrite foldl_app, <- (sliceStep_ok _ _ _ _ _ _ _ _ _ H8), <- IH; done.
Qed.

Lemma updateCrc32_ok bytes r : Forall byte bytes ->
  toUint32 (updateCrc32 r bytes) = foldl crc_byte (toUint32 r) bytes.
Proof. apply updateSliced_ok. Qed.

Lemma zeroSliceStep_ok r : toUint32 (zeroSliceStep r) = foldl crc_byte (toUint32 r) (replicate 8 0).
Proof.
  change (replicate 8 0) with [0; 0; 0; 0; 0; 0; 0; 0].
  rewrite <- sliceStep_ok by (repeat constructor; unfold byte; lia). unfold zeroSliceStep, sliceStep.
  rewrite !js_xor_val, !js_and_ff. unfold js_ushr. rewrite !js_xor_val. change (toUint32 (js_or _ _)) with 0.
  by rewrite !Z.lxor_0_r.
Qed.

Lemma foldl_replicate_iter (f : Z -> Z -> Z) n r : foldl f r (replicate n 0) = Nat.iter n (fun x => f x 0) r.
Proof.
  revert r. induction n as [|n IH]; intros r; [done|]. cbn [replicate foldl]. rewrite IH.
  clear IH. induction n as [|n IH]; [done|]. by rewrite !iter_S, IH.
Qed.

Lemma iter_uint (f : Z -> Z) (g : Z -> Z) n r :
  (forall r, toUint32 (f r) = g (toUint32 r)) -> toUint32 (Nat.iter n f r) = Nat.iter n g (toUint32 r).
Proof. intros Hf. induction n as [|n IH]; [done|]. by rewrite !iter_S, Hf, IH. Qed.

Lemma updateCrc32WithZeros_ok r n :
  toUint32 (updateCrc32WithZeros r n) = foldl crc_byte (toUint32 r) (replicate n 0).
Proof.
  unfold updateCrc32WithZeros. rewrite (iter_uint _ (fun x => crc_byte x 0) _ _ zeroByteStep_ok),
    (iter_uint _ (fun x => foldl crc_byte x (replicate 8 0)) _ _ zeroSliceStep_ok).
  rewrite <- foldl_replicate_iter.
  assert (H : forall q x, Nat.iter q (fun x => foldl crc_byte x (replicate 8 0)) x
                          = foldl crc_byte x (replicate (8 * q) 0)).
  { intros q x. induction q as [|q IH]; [done|]. rewrite iter_S, IH, <- foldl_app, <- replicate_add.
    do 2 f_equal. lia. }
  rewrite H, <- foldl_app, <- replicate_add. do 2 f_equal. pose proof (Nat.div_mod_eq n 8). lia.
Qed.

Lemma finalXor r : js_ushr (js_xor r 0xffffffff) 0 = Z.lxor (toUint32 r) 0xffffffff.
Proof. unfold js_ushr. by rewrite Z.shiftr_0_r, js_xor_val. Qed.

Lemma crc32_ok bytes : Forall byte bytes -> crc32 bytes = crc_reference bytes.
Proof. intros Hb. unfold crc32, crc_reference. by rewrite finalXor, updateCrc32_ok. Qed.

(** The bytes with [len] of them, from [offset] on, replaced by zeros. *)
Definition zero_range (bytes : list Z) (offset len : nat) : list Z :=
  take offset bytes ++ replicate len 0 ++ drop (offset + len) bytes.

Lemma crc32WithZeroedRange_ok bytes offset len :
  Forall byte bytes -> (offset + len <= length bytes)%nat -> Z.of_nat (length bytes) <= MAX_SAFE_INTEGER ->
  crc32WithZeroedRange bytes (Z.of_nat offset) (Z.of_nat len) = Ok (crc_reference (zero_range bytes offset len)).
Proof.
  intros Hb Hle Hsafe. unfold crc32WithZeroedRange, isSafeInteger.
  rewrite !(proj2 (Z.leb_le _ _)) by lia. rewrite !(proj2 (Z.ltb_ge _ _)) by lia. cbn [negb orb throw_if mbind result_bind].
  rewrite finalXor. unfold crc_reference, zero_range. rewrite updateCrc32_ok by by apply Forall_drop.
  rewrite updateCrc32WithZeros_ok, updateCrc32_ok by by apply Forall_take.
  rewrite !foldl_app, !Nat2Z.id, <- Nat2Z.inj_add, Nat2Z.id. done.
Qed.

(** ** Error detection *)

Definition word32 (x : Z) : Prop := 0 <= x < 2 ^ 32.

Lemma shiftr_word x : word32 x -> 0 <= Z.shiftr x 1 < 2 ^ 31.
Proof.
  unfold word32. rewrite Z.shiftr_div_pow2 by lia. split; [apply Z.div_pos; lia|apply Z.div_lt_upper_bound; lia].
Qed.

Lemma crc_bit_word x : word32 x -> word32 (crc_bit x).
Proof.
  intros Hx. pose proof (shiftr_word x Hx). unfold crc_bit, word32. destruct (Z.odd x); [|lia].
  apply lxor_range; [lia|unfold POLYNOMIAL; lia|lia].
Qed.

Lemma crc_bit_zero x : word32 x -> crc_bit x = 0 -> x = 0.
Proof.
  intros Hx. pose proof (shiftr_word x Hx). unfold crc_bit. destruct (Z.odd x) eqn:Ho.
  - intros Heq%Z.lxor_eq. unfold POLYNOMIAL in *. lia.
  - rewrite Z.shiftr_div_pow2 by lia. intros Hd. rewrite <- Z.negb_even in Ho. apply negb_false_iff, Z.even_spec in Ho as [k ->].
    change (2 ^ 1) with 2 in Hd. rewrite Z.mul_comm, Z.div_mul in Hd by lia. lia.
Qed.

Lemma crc_bit_inj a b : word32 a -> word32 b -> crc_bit a = crc_bit b -> a = b.
Proof.
  intros Ha Hb Heq. apply Z.lxor_eq, crc_bit_zero; [by apply lxor_range|].
  rewrite crc_bit_lxor, Heq. apply Z.lxor_nilpotent.
Qed.

Lemma crc_bits_inj n a b : word32 a -> word32 b -> Nat.iter n crc_bit a = Nat.iter n crc_bit b -> a = b.
Proof.
  intros Ha Hb. assert (Hw : forall m x, word32 x -> word32 (Nat.iter m crc_bit x)).
  { induction m as [|m IH]; intros x Hx; [done|]. rewrite iter_S. by apply crc_bit_word, IH. }
  induction n as [|n IH]; [done|]. rewrite !iter_S. intros Heq%crc_bit_inj; auto.
Qed.

Lemma byte_word b : byte b -> word32 b.
Proof. unfold byte, word32. lia. Qed.

Lemma crc_byte_word r b : word32 r -> byte b -> word32 (crc_byte r b).
Proof.
  intros Hr Hb%byte_word. unfold crc_byte.
  assert (Hw : forall m x, word32 x -> word32 (Nat.iter m crc_bit x)).
  { induction m as [|m IH]; intros x Hx; [done|]. rewrite iter_S. by apply crc_bit_word, IH. }
  by apply Hw, lxor_range.
Qed.

Lemma crc_bytes_word bytes r : word32 r -> Forall byte bytes -> word32 (foldl crc_byte r bytes).
Proof.
  revert r. induction bytes as [|b bytes IH]; intros r Hr; [done|]. intros [Hb Hbs]%Forall_cons.
  cbn [foldl]. apply IH; [by apply crc_byte_word|done].
Qed.

Lemma crc_byte_inj_l r r' b : word32 r -> word32 r' -> byte b -> crc_byte r b = crc_byte r' b -> r = r'.
Proof.
  intros Hr Hr' Hb%byte_word Heq. apply crc_bits_inj in Heq; [|by apply lxor_range..].
  apply (f_equal (fun x => Z.lxor x b)) in Heq. by rewrite !Z.lxor_assoc, Z.lxor_nilpotent, !Z.lxor_0_r in Heq.
Qed.

Lemma crc_byte_inj_r r b b' : word32 r -> byte b -> byte b' -> crc_byte r b = crc_byte r b' -> b = b'.
Proof.
  intros Hr Hb%byte_word Hb'%byte_word Heq. apply crc_bits_inj in Heq; [|by apply lxor_range..].
  apply (f_equal (Z.lxor r)) in Heq. by rewrite <- !Z.lxor_assoc, Z.lxor_nilpotent, !Z.lxor_0_l in Heq.
Qed.

Lemma crc_bytes_inj r r' bytes : word32 r -> word32 r' -> Forall byte bytes ->
  foldl crc_byte r bytes = foldl crc_byte r' bytes -> r = r'.
Proof.
  revert r r'. induction bytes as [|b bytes IH]; intros r r' Hr Hr'; [done|]. intros [Hb Hbs]%Forall_cons.
  cbn [foldl]. intros Heq%IH; [|by apply crc_byte_word..|done]. by eapply crc_byte_inj_l.
Qed.

(** Replacing one byte changes the checksum. *)
Lemma crc_reference_one_byte pre b b' post :
  Forall byte pre -> byte b -> byte b' -> Forall byte post -> b <> b' ->
  crc_reference (pre ++ b :: post) <> crc_reference (pre ++ b' :: post).
Proof.
  intros Hpre Hb Hb' Hpost Hne Heq. apply Hne. unfold crc_reference in Heq.
  apply (f_equal (fun x => Z.lxor x 0xffffffff)) in Heq.
  rewrite !Z.lxor_assoc, Z.lxor_nilpotent, !Z.lxor_0_r, !foldl_app in Heq. cbn [foldl] in Heq.
  assert (Hw : word32 (foldl crc_byte 0xffffffff pre)) by (apply crc_bytes_word; [unfold word32; lia|done]).
  apply crc_bytes_inj in Heq; [|by apply crc_byte_word..|done]. by eapply crc_byte_inj_r.
Qed.

(** The sliced, table-driven checksum is CRC-32: on bytes, [crc32] and [crc32WithZeroedRange],
    computed with the language's signed 32-bit operators eight bytes at a time, equal the
    bit-by-bit reference, the latter on the input with the given range replaced by zeros. *)
Theorem crc32_is_reference bytes offset len :
  Forall byte bytes -> (offset + len <= length bytes)%nat -> Z.of_nat (length bytes) <= MAX_SAFE_INTEGER ->
  crc32 bytes = crc_reference bytes /\
  crc32WithZeroedRange bytes (Z.of_nat offset) (Z.of_nat len) = Ok (crc_reference (zero_range bytes offset len)).
Proof. intros. split; [by apply crc32_ok|by apply crc32WithZeroedRange_ok]. Qed.

Definition example_bytes : list Z := [49; 50; 51; 52; 53; 54; 55; 56; 57; 10; 200].

Lemma crc32_is_reference_witness :
  crc32 (take 9 example_bytes) = 0xcbf43926 /\
  crc32 example_bytes = crc_reference example_bytes /\
  crc32WithZeroedRange example_bytes 2 4 = Ok (crc_reference (zero_range example_bytes 2 4)).
Proof.
  split; [vm_compute; reflexivity|]. apply (crc32_is_reference example_bytes 2 4).
  - unfold example_bytes, byte. repeat constructor; lia.
  - cbn. lia.
  - vm_compute. discriminate.
Defined.
