(* ===== verification/Utf8.v ===== *)
(** * UTF-8 round trips

    The encoder and the fatal decoder are inverse to each other, and [utf8Length] of path.ts is the
    length of the encoding. *)

From S2P Require Export Paths Checksum.

(** Arithmetic of the groups of six bits. *)
Ltac bits := Z.to_euclidean_division_equations; lia.

(** The decoder tests on the bytes of one group, decided by arithmetic. *)
Ltac decide_tests :=
  repeat match goal with
  | |- context [Z.leb ?a ?b] =>
      first [rewrite (proj2 (Z.leb_le a b)) by bits | rewrite (proj2 (Z.leb_gt a b)) by bits]
  | |- context [Z.ltb ?a ?b] =>
      first [rewrite (proj2 (Z.ltb_lt a b)) by bits | rewrite (proj2 (Z.ltb_ge a b)) by bits]
  | |- context [Z.eqb ?a ?b] =>
      first [rewrite (proj2 (Z.eqb_eq a b)) by bits | rewrite (proj2 (Z.eqb_neq a b)) by bits]
  end; cbn [andb negb].

Lemma decode_1 c rest : 0 <= c <= 0x7f -> utf8_units (c :: rest) = cons c <$> utf8_units rest.
Proof. intros H. cbn [utf8_units]. by decide_tests. Qed.

Lemma decode_2 c rest : 0x80 <= c <= 0x7ff ->
  utf8_units (0xc0 + c / 64 :: 0x80 + c mod 64 :: rest) = cons c <$> utf8_units rest.
Proof.
  intros H. cbn [utf8_units]. unfold continuation. decide_tests.
  f_equal. f_equal. bits.
Qed.

Lemma decode_3 c rest : 0x800 <= c <= 0xffff -> (c < 0xd800 \/ 0xdfff < c) ->
  utf8_units (utf8_3 c ++ rest) = cons c <$> utf8_units rest.
Proof.
  intros H Hs. unfold utf8_3. cbn [utf8_units app]. unfold continuation. decide_tests.
  assert (He0 : ((0xe0 + c / 4096 =? 0xe0) && (0x80 + (c / 64) mod 64 <? 0xa0)) = false).
  { apply andb_false_iff. rewrite Z.eqb_neq, Z.ltb_ge. bits. }
  assert (Hed : ((0xe0 + c / 4096 =? 0xed) && (0x9f <? 0x80 + (c / 64) mod 64)) = false).
  { apply andb_false_iff. rewrite Z.eqb_neq, Z.ltb_ge. bits. }
  rewrite He0, Hed. cbn [andb negb]. f_equal. f_equal. bits.
Qed.

Lemma decode_4 h l rest : 0xd800 <= h <= 0xdbff -> 0xdc00 <= l <= 0xdfff ->
  utf8_units (utf8_4 (code_point h l) ++ rest) = (fun u => h :: l :: u) <$> utf8_units rest.
Proof.
  intros Hh Hl. unfold utf8_4, code_point. set (c := 0x10000 + (h - 0xd800) * 1024 + (l - 0xdc00)).
  assert (Hc : 0x10000 <= c <= 0x10ffff) by lia.
  cbn [utf8_units app]. unfold continuation. decide_tests.
  assert (Hf0 : ((0xf0 + c / 262144 =? 0xf0) && (0x80 + (c / 4096) mod 64 <? 0x90)) = false).
  { apply andb_false_iff. rewrite Z.eqb_neq, Z.ltb_ge. bits. }
  assert (Hf4 : ((0xf0 + c / 262144 =? 0xf4) && (0x8f <? 0x80 + (c / 4096) mod 64)) = false).
  { apply andb_false_iff. rewrite Z.eqb_neq, Z.ltb_ge. bits. }
  rewrite Hf0, Hf4. cbn [andb negb].
  replace ((0xf0 + c / 262144 - 0xf0) * 262144 + (0x80 + (c / 4096) mod 64 - 0x80) * 4096
           + (0x80 + (c / 64) mod 64 - 0x80) * 64 + (0x80 + c mod 64 - 0x80)) with c by bits.
  replace (0xd800 + (c - 0x10000) / 1024) with h by bits.
  by replace (0xdc00 + (c - 0x10000) mod 1024) with l by bits.
Qed.

(** A string without unpaired surrogates: exactly what [utf8Length] accepts. *)
Definition well_formed (s : jsstr) : Prop := exists n, utf8Length s = Ok n.

(** Walk over a string one code point at a time. *)
Lemma text_ind (Q : jsstr -> Prop) :
  Q [] ->
  (forall c rest, 0 <= c <= 0x7f -> Q rest -> Q (c :: rest)) ->
  (forall c rest, 0x80 <= c <= 0x7ff -> Q rest -> Q (c :: rest)) ->
  (forall c rest, 0x800 <= c <= 0xffff -> (c < 0xd800 \/ 0xdfff < c) -> Q rest -> Q (c :: rest)) ->
  (forall h l rest, 0xd800 <= h <= 0xdbff -> 0xdc00 <= l <= 0xdfff -> Q rest -> Q (h :: l :: rest)) ->
  forall s, js_string s -> forall b n, utf8Length_from s b = Ok n -> Q s.
Proof.
  intros H0 H1 H2 H3 H4 s. induction s as [s IH] using (induction_ltof1 _ (@length Z)). unfold ltof in IH.
  intros Hs b n. destruct s as [|c rest]; [done|]. apply Forall_cons in Hs as [Hc Hrest].
  unfold code_unit in Hc. cbn [utf8Length_from].
  destruct (c <=? 0x7f) eqn:E1; [intros; apply H1; [propify; lia|eapply IH; [cbn; lia|done|done]]|].
  destruct (c <=? 0x7ff) eqn:E2; [intros; apply H2; [propify; lia|eapply IH; [cbn; lia|done|done]]|].
  destruct (_ && _) eqn:E3.
  - destruct rest as [|d rest]; [done|]. destruct (_ || _) eqn:E4; [done|]. propify.
    apply Forall_cons in Hrest as [Hd Hrest]. intros Hn. apply H4; [lia|lia|]. eapply IH; [cbn; lia|done|done].
  - destruct ((0xdc00 <=? c) && (c <=? 0xdfff)) eqn:E4; [done|]. intros Hn.
    apply H3; [propify; lia| |eapply IH; [cbn; lia|done|done]].
    propify. destruct E3, E4; propify; lia.
Qed.

(** What one code point contributes to the encoding and to the computed length. *)
Lemma encode_2 c rest : 0x80 <= c <= 0x7ff ->
  utf8_encode (c :: rest) = 0xc0 + c / 64 :: 0x80 + c mod 64 :: utf8_encode rest.
Proof. intros. cbn [utf8_encode]. by decide_tests. Qed.

Lemma encode_3 c rest : 0x800 <= c <= 0xffff -> (c < 0xd800 \/ 0xdfff < c) ->
  utf8_encode (c :: rest) = utf8_3 c ++ utf8_encode rest.
Proof.
  intros H [Hs|Hs]; cbn [utf8_encode]; unfold high_surrogate, low_surrogate; by decide_tests.
Qed.

Lemma encode_4 h l rest : 0xd800 <= h <= 0xdbff -> 0xdc00 <= l <= 0xdfff ->
  utf8_encode (h :: l :: rest) = utf8_4 (code_point h l) ++ utf8_encode rest.
Proof. intros. cbn [utf8_encode]. unfold high_surrogate, low_surrogate. by decide_tests. Qed.

Lemma encode_1 c rest : 0 <= c <= 0x7f -> utf8_encode (c :: rest) = c :: utf8_encode rest.
Proof. intros. cbn [utf8_encode]. by decide_tests. Qed.

(** Of an ASCII text. *)
Lemma ascii_encode s : Forall (fun b => 0 <= b <= 127) s -> utf8_encode s = s.
Proof. induction 1 as [|b l Hb _ IH]; [done|]. by rewrite encode_1, IH. Qed.

(** Every encoding is a list of bytes that decodes to the string. *)
Lemma utf8_encode_decodes s : js_string s -> well_formed s ->
  utf8_units (utf8_encode s) = Some s /\ Forall byte (utf8_encode s).
Proof.
  intros Hs [n Hn].
  refine (text_ind (fun s => utf8_units (utf8_encode s) = Some s /\ Forall byte (utf8_encode s))
    _ _ _ _ _ s Hs 0 n Hn); clear s Hs n Hn.
  - done.
  - intros c rest H [IH Hb]. rewrite encode_1, decode_1, IH by done. split; [done|].
    constructor; [unfold byte; lia|done].
  - intros c rest H [IH Hb]. rewrite encode_2, decode_2, IH by done. split; [done|].
    repeat constructor; [(unfold byte; bits)..|done].
  - intros c rest H Hs [IH Hb]. rewrite encode_3, decode_3, IH by done. split; [done|].
    repeat constructor; [(unfold byte; bits)..|done].
  - intros h l rest Hh Hl [IH Hb]. rewrite encode_4, decode_4, IH by done. split; [done|].
    unfold utf8_4, code_point. repeat constructor; [(unfold byte; bits)..|done].
Qed.

Lemma utf8Length_from_encode s b n : js_string s -> utf8Length_from s b = Ok n ->
  n = b + Z.of_nat (length (utf8_encode s)).
Proof.
  intros Hs Hn.
  refine (text_ind (fun s => forall b n, utf8Length_from s b = Ok n -> n = b + Z.of_nat (length (utf8_encode s)))
    _ _ _ _ _ s Hs b n Hn b n Hn); clear s b n Hs Hn.
  - intros b n [= <-]. cbn. lia.
  - intros c rest H IH b n. rewrite encode_1 by done. cbn [utf8Length_from]. decide_tests. intros ->%IH. cbn. lia.
  - intros c rest H IH b n. rewrite encode_2 by done. cbn [utf8Length_from]. decide_tests. intros ->%IH. cbn. lia.
  - intros c rest H [Hs|Hs] IH b n; rewrite encode_3 by lia; cbn [utf8Length_from]; decide_tests;
      intros ->%IH; unfold utf8_3; rewrite length_app; cbn [length]; lia.
  - intros h l rest Hh Hl IH b n. rewrite encode_4 by done. cbn [utf8Length_from]. decide_tests. cbn [orb].
    intros ->%IH. unfold utf8_4. rewrite length_app. cbn [length]. lia.
Qed.

(** The length path.ts computes is the length of the encoding. *)
Lemma utf8Length_encode s n : js_string s -> utf8Length s = Ok n -> n = Z.of_nat (length (utf8_encode s)).
Proof. intros Hs Hn. apply (utf8Length_from_encode s 0 n Hs) in Hn. lia. Qed.

(** ** The decoder accepts only encodings *)

Lemma utf8Length_from_shift s b n d : utf8Length_from s b = Ok n -> utf8Length_from s (b + d) = Ok (n + d).
Proof.
  revert b n. induction s as [s IH] using (induction_ltof1 _ (@length Z)). unfold ltof in IH.
  intros b n. destruct s as [|c rest]; cbn [utf8Length_from]; [by intros [= ->]|].
  repeat case_match; subst; try done; intros Hn;
    match goal with |- utf8Length_from _ (?b + ?d + ?k) = _ => replace (b + d + k) with (b + k + d) by lia end;
    apply IH; try done; cbn; lia.
Qed.

(** Prepending a code point of [k] bytes to a well-formed string. *)
Lemma well_formed_step s b : well_formed s -> exists n, utf8Length_from s b = Ok n.
Proof.
  intros [n Hn]. exists (n + b). replace b with (0 + b) at 1 by lia. by apply utf8Length_from_shift.
Qed.

Definition decoded (bs : list Z) (u : jsstr) : Prop :=
  utf8_encode u = bs /\ js_string u /\ well_formed u.

Lemma decoded_1 c bs u : 0 <= c <= 0x7f -> decoded bs u -> decoded (c :: bs) (c :: u).
Proof.
  intros Hc (He & Hs & Hw). split; [by rewrite encode_1, He|]. split; [constructor; [unfold code_unit; lia|done]|].
  destruct (well_formed_step u 1 Hw) as [n Hn]. exists n. unfold utf8Length. cbn [utf8Length_from]. by decide_tests.
Qed.

Lemma decoded_2 c bs u : 0x80 <= c <= 0x7ff -> decoded bs u ->
  decoded (0xc0 + c / 64 :: 0x80 + c mod 64 :: bs) (c :: u).
Proof.
  intros Hc (He & Hs & Hw). split; [by rewrite encode_2, He|]. split; [constructor; [unfold code_unit; lia|done]|].
  destruct (well_formed_step u 2 Hw) as [n Hn]. exists n. unfold utf8Length. cbn [utf8Length_from]. by decide_tests.
Qed.

Lemma decoded_3 c bs u : 0x800 <= c <= 0xffff -> (c < 0xd800 \/ 0xdfff < c) -> decoded bs u ->
  decoded (utf8_3 c ++ bs) (c :: u).
Proof.
  intros Hc Hsur (He & Hs & Hw). split; [by rewrite encode_3, He|].
  split; [constructor; [unfold code_unit; lia|done]|].
  destruct (well_formed_step u 3 Hw) as [n Hn]. exists n. unfold utf8Length. cbn [utf8Length_from].
  destruct Hsur; by decide_tests.
Qed.

Lemma decoded_4 h l bs u : 0xd800 <= h <= 0xdbff -> 0xdc00 <= l <= 0xdfff -> decoded bs u ->
  decoded (utf8_4 (code_point h l) ++ bs) (h :: l :: u).
Proof.
  intros Hh Hl (He & Hs & Hw). split; [by rewrite encode_4, He|].
  split; [constructor; [unfold code_unit; lia|]; constructor; [unfold code_unit; lia|done]|].
  destruct (well_formed_step u 4 Hw) as [n Hn]. exists n. unfold utf8Length. cbn [utf8Length_from]. by decide_tests.
Qed.

Lemma fmap_Some_inv {A B} (f : A -> B) o y : f <$> o = Some y -> exists x, o = Some x /\ y = f x.
Proof. destruct o; cbn; [intros [= <-]; eauto|done]. Qed.

Ltac test E := match goal with |- (if ?b then _ else _) = _ -> _ => destruct b eqn:E end.

Lemma utf8_units_encode bs u : utf8_units bs = Some u -> decoded bs u.
Proof.
  revert u. induction bs as [bs IH] using (induction_ltof1 _ (@length Z)). unfold ltof in IH.
  intros u. destruct bs as [|b0 t0]; cbn [utf8_units].
  { intros [= <-]. split; [done|]. split; [constructor|]. by exists 0. }
  test E1; [|clear E1].
  { intros (v & Hv & ->)%fmap_Some_inv. propify. apply decoded_1; [lia|]. apply IH; [cbn; lia|done]. }
  test E1; [|clear E1].
  { destruct t0 as [|b1 t1]; [done|]. unfold continuation. test E2; [|done].
    intros (v & Hv & ->)%fmap_Some_inv. propify. set (c := (b0 - 0xc0) * 64 + (b1 - 0x80)).
    replace (b0 :: b1 :: t1) with (0xc0 + c / 64 :: 0x80 + c mod 64 :: t1) by (unfold c; f_equal; [bits|]; f_equal; bits).
    apply decoded_2; [unfold c; lia|]. apply IH; [cbn; lia|done]. }
  test E1; [|clear E1].
  { destruct t0 as [|b1 [|b2 t2]]; [done..|]. unfold continuation.
    test E2; [|done].
    intros (v & Hv & ->)%fmap_Some_inv. propify. set (c := (b0 - 0xe0) * 4096 + (b1 - 0x80) * 64 + (b2 - 0x80)).
    replace (b0 :: b1 :: b2 :: t2) with (utf8_3 c ++ t2)
      by (unfold utf8_3, c; cbn; do 2 (f_equal; [bits|]); f_equal; bits).
    assert (Hc : 0x800 <= c <= 0xffff /\ (c < 0xd800 \/ 0xdfff < c)).
    { unfold c. destruct_or?; propify; lia. }
    apply decoded_3; [lia|tauto|]. apply IH; [cbn; lia|done]. }
  test E0; [|done].
  destruct t0 as [|b1 [|b2 [|b3 t3]]]; [done..|]. unfold continuation.
  test E2; [|done].
  intros (v & Hv & ->)%fmap_Some_inv. propify.
  set (c := (b0 - 0xf0) * 262144 + (b1 - 0x80) * 4096 + (b2 - 0x80) * 64 + (b3 - 0x80)).
  assert (Hc : 0x10000 <= c <= 0x10ffff) by (unfold c; destruct_or?; propify; lia).
  set (h := 0xd800 + (c - 0x10000) / 1024). set (l := 0xdc00 + (c - 0x10000) mod 1024).
  assert (Hcp : code_point h l = c) by (unfold code_point, h, l; bits).
  replace (b0 :: b1 :: b2 :: b3 :: t3) with (utf8_4 (code_point h l) ++ t3)
    by (rewrite Hcp; unfold utf8_4, c; cbn; do 3 (f_equal; [bits|]); f_equal; bits).
  apply decoded_4; [unfold h; bits|unfold l; bits|]. apply IH; [cbn; lia|done].
Qed.

(** [utf8Length] accepts exactly the strings that survive a trip through the encoder and the
    fatal decoder (those without unpaired surrogates), and its result is the length of the encoding:
    the size accounting of the store counts the bytes the codec writes. *)
Theorem utf8Length_spec (s : jsstr) (n : Z) (Hs : js_string s) :
  utf8Length s = Ok n <-> utf8_units (utf8_encode s) = Some s /\ n = Z.of_nat (length (utf8_encode s)).
Proof.
  split.
  - intros Hn. split; [apply utf8_encode_decodes; [done|by exists n]|by apply utf8Length_encode].
  - intros [(_ & _ & m & Hm)%utf8_units_encode ->]. by rewrite Hm, (utf8Length_encode s m Hs Hm).
Qed.

(** Grave accent, e acute, euro sign, a surrogate pair. *)
Definition example_text : jsstr := [96; 233; 8364; 55357; 56832].

Lemma utf8Length_spec_witness :
  (utf8Length example_text = Ok 10 <->
   utf8_units (utf8_encode example_text) = Some example_text /\ 10 = Z.of_nat (length (utf8_encode example_text))) /\
  utf8Length example_text = Ok 10.
Proof.
  assert (Hs : js_string example_text) by (repeat constructor; discriminate).
  split; [exact (utf8Length_spec example_text 10 Hs)|]. vm_compute. reflexivity.
Defined.
