(* ===== verification/Bytes.v ===== *)
(** * Byte buffers, the binary writer and the binary reader

    [BinaryWriter], [BinaryReader] and the header checks of
    [packages/pgwasm/src/opfs/core/codec.ts], over little-endian byte lists. *)

From S2P Require Export State Checksum.

(** ** [DataView] and [Uint8Array] *)

(** [setUint8], [setUint16], [setUint32], [setBigUint64]: little-endian, modulo the width. *)
Fixpoint le_bytes (n : nat) (value : Z) : list Z :=
  match n with
  | O => []
  | S n => value mod 256 :: le_bytes n (value / 256)
  end.

Fixpoint le_value (bytes : list Z) : Z :=
  match bytes with
  | [] => 0
  | b :: bytes => b + 256 * le_value bytes
  end.

Definition subarray (bytes : list Z) (start stop : nat) : list Z := take (stop - start) (drop start bytes).

(** [view.getUint32(offset, true)] and the like; the code checks lengths before it reads. *)
Definition get_le (width : nat) (bytes : list Z) (offset : nat) : Z :=
  le_value (subarray bytes offset (offset + width)).

(** [view.setUint32(offset, value, true)] and the like, and [bytes.set(source, offset)]. *)
Definition set_bytes (offset : nat) (source bytes : list Z) : list Z :=
  take offset bytes ++ source ++ drop (offset + length source) bytes.
Definition set_le (width offset : nat) (value : Z) (bytes : list Z) : list Z :=
  set_bytes offset (le_bytes width value) bytes.

Definition byteLength (bytes : list Z) : Z := Z.of_nat (length bytes).

(** ** [BinaryWriter]

    The bytes before [#offset]; the rest of the output is still zero. *)
Record Writer : Type := mkWriter { w_length : Z; w_bytes : list Z }.

Abbreviation W := (ST Writer error).

Definition newBinaryWriter (len initialOffset : Z) : R Writer :=
  throw_if (negb (isSafeInteger len) || (len <? 0) || negb (isSafeInteger initialOffset)
            || (initialOffset <? 0) || (len <? initialOffset)) StoreLimitError ≫= fun _ =>
  Ok (mkWriter len (replicate (Z.to_nat initialOffset) 0)).

Definition w_require (len : Z) : W unit :=
  w ← st_get; st_lift (throw_if (w_length w <? byteLength (w_bytes w) + len) StoreLimitError).

Definition w_append (bytes : list Z) : W unit :=
  st_modify (fun w => mkWriter (w_length w) (w_bytes w ++ bytes)).

Definition w_unsigned (width : nat) (maximum value : Z) : W unit :=
  w_require (Z.of_nat width) ≫= fun _ =>
  st_lift (throw_if (negb (isSafeInteger value) || (value <? 0) || (maximum <? value)) StoreLimitError)
    ≫= fun _ =>
  w_append (le_bytes width value).

Definition w_u8 : Z -> W unit := w_unsigned 1 0xff.
Definition w_u16 : Z -> W unit := w_unsigned 2 0xffff.
Definition w_u32 : Z -> W unit := w_unsigned 4 0xffffffff.

Definition w_u64 (value : Z) : W unit :=
  w_require 8 ≫= fun _ =>
  value ← st_lift (checkedU64 value);
  w_append (le_bytes 8 value).

Definition w_validatedU64 (value : Z) : W unit :=
  w_require 8 ≫= fun _ => w_append (le_bytes 8 value).

Definition w_raw (value : list Z) : W unit :=
  w_require (byteLength value) ≫= fun _ => w_append value.

Definition w_validatedString (encoded : list Z) : W unit :=
  w_u16 (byteLength encoded) ≫= fun _ => w_raw encoded.

Definition w_string (value : jsstr) : W unit :=
  st_lift (validatePathComponent value) ≫= fun _ => w_validatedString (utf8_encode value).

Definition w_symlinkTarget (value : jsstr) : W unit :=
  st_lift (validateSymlinkTarget value) ≫= fun _ => w_validatedString (utf8_encode value).

Definition w_finish (w : Writer) : R (list Z) :=
  throw_if (negb (byteLength (w_bytes w) =? w_length w)) StoreLimitError ≫= fun _ => Ok (w_bytes w).

(** [const writer = new BinaryWriter(length); body; return writer.finish();] *)
Definition w_run (len : Z) (body : W unit) : R (list Z) :=
  w ← newBinaryWriter len 0;
  match body w with
  | (w, Ok _) => w_finish w
  | (_, Throw e) => Throw e
  end.

(** ** [BinaryReader]

    The bytes from [#offset] on. *)
Abbreviation Rd := (ST (list Z) error).

Definition r_require (len : Z) : Rd unit :=
  rest ← st_get;
  st_lift (throw_if (negb (isSafeInteger len) || (len <? 0) || (byteLength rest <? len)) CorruptStoreError).

Definition r_raw (len : Z) : Rd (list Z) :=
  r_require len ≫= fun _ =>
  rest ← st_get;
  st_modify (drop (Z.to_nat len)) ≫= fun _ =>
  mret (take (Z.to_nat len) rest).

Definition r_unsigned (width : nat) : Rd Z :=
  bytes ← r_raw (Z.of_nat width); mret (le_value bytes).

Definition r_u8 : Rd Z := r_unsigned 1.
Definition r_u16 : Rd Z := r_unsigned 2.
Definition r_u32 : Rd Z := r_unsigned 4.
Definition r_u64 : Rd Z := r_unsigned 8.

(** The body [string] and [symlinkTarget] share: bounded length, fatal UTF-8, canonical encoding,
    then the value's own validation. *)
Definition r_text (maximum : Z) (validate : jsstr -> R Z) : Rd jsstr :=
  len ← r_u16;
  st_lift (throw_if ((len =? 0) || (maximum <? len)) CorruptStoreError) ≫= fun _ =>
  bytes ← r_raw len;
  value ← st_lift (or_throw (utf8_decode bytes) CorruptStoreError);
  st_lift (throw_if (negb (byteLength (utf8_encode value) =? len)) CorruptStoreError) ≫= fun _ =>
  st_lift (rethrow_as CorruptStoreError (validate value)) ≫= fun _ =>
  mret value.

Definition r_string : Rd jsstr := r_text MAX_COMPONENT_BYTES validatePathComponent.
Definition r_symlinkTarget : Rd jsstr := r_text MAX_PATH_BYTES validateSymlinkTarget.

Definition r_end : Rd unit :=
  rest ← st_get; st_lift (throw_if (negb (byteLength rest =? 0)) CorruptStoreError).

(** [for (let index = 0; index < count; index += 1) result.push(read())] *)
Fixpoint r_repeat {A} (count : nat) (read : Rd A) : Rd (list A) :=
  match count with
  | O => mret []
  | S count => x ← read; xs ← r_repeat count read; mret (x :: xs)
  end.

Definition readBoundedCount (maximum : Z) : Rd Z :=
  count ← r_u32;
  st_lift (throw_if (maximum <? count) CorruptStoreError) ≫= fun _ => mret count.

(** [new BinaryReader(bytes)], the body, its result. *)
Definition r_run {A} (body : Rd A) (bytes : list Z) : R A := (body bytes).2.

(** ** Header checks *)

Definition bytesEqual (left right : list Z) : bool := bool_decide (left = right).

Definition requireMagic (bytes magic : list Z) : R unit :=
  throw_if (negb (bytesEqual (take (length magic) bytes) magic)) CorruptStoreError.

Definition requireZero (bytes : list Z) (start stop : nat) : R unit :=
  throw_if (negb (forallb (fun b => b =? 0) (subarray bytes start stop))) CorruptStoreError.

Definition requireChecksum (bytes : list Z) (offset : nat) : R unit :=
  let stored := get_le 4 bytes offset in
  calculated ← crc32WithZeroedRange bytes (Z.of_nat offset) 4;
  throw_if (negb (stored =? calculated)) CorruptStoreError.

Definition requireCurrentIdentity (version profile : Z) : R unit :=
  throw_if (negb (version =? FORMAT_VERSION) || negb (profile =? LIMITS_PROFILE_VERSION))
    StoreRecreationRequiredError.

(** [textEncoder.encode] of the ASCII magics. *)
Definition ARENA_MAGIC : list Z := Eval vm_compute in utf8_encode (js "PGXRPA01").
Definition METADATA_MAGIC : list Z := Eval vm_compute in utf8_encode (js "PGXRPM01").
Definition FRAME_MAGIC : list Z := Eval vm_compute in utf8_encode (js "PGXRPF01").
Definition ACTIVATION_MAGIC : list Z := Eval vm_compute in utf8_encode (js "PGXRPK01").

Definition ARENA_HEADER_CHECKSUM_OFFSET : nat := 24.
Definition METADATA_HEADER_BYTES : nat := 80.
Definition TXN_FRAME_HEADER_BYTES : nat := 48.
Definition ACTIVATION_SLOT_BYTES : nat := 128.
Definition METADATA_HEADER_CHECKSUM_OFFSET : nat := 64.
Definition FRAME_CHECKSUM_OFFSET : nat := 40.
Definition ACTIVATION_CHECKSUM_OFFSET : nat := 52.

(** [view.setUint32(offset, crc32WithZeroedRange(bytes, offset, 4), true)] *)
Definition sealChecksum (offset : nat) (bytes : list Z) : R (list Z) :=
  crc ← crc32WithZeroedRange bytes (Z.of_nat offset) 4; Ok (set_le 4 offset crc bytes).
