(* ===== verification/CodecLaws.v ===== *)
(** * Laws of the binary writer and reader

    A writer program that appends a fixed list of bytes, a reader program that consumes it and
    returns a fixed value, and how the pairs compose. *)

From S2P Require Export Bytes Utf8 Tree.

(** [m] appends [bs] to any writer with room for them. *)
Definition writes (m : W unit) (bs : list Z) : Prop :=
  forall w, byteLength (w_bytes w) + byteLength bs <= w_length w ->
    m w = (mkWriter (w_length w) (w_bytes w ++ bs), Ok tt).

(** [m] consumes [bs] and returns [v]. *)
Definition reads {A} (m : Rd A) (bs : list Z) (v : A) : Prop :=
  forall rest, m (bs ++ rest) = (rest, Ok v).

Lemma byteLength_app a b : byteLength (a ++ b) = byteLength a + byteLength b.
Proof. unfold byteLength. rewrite length_app. lia. Qed.

Lemma writes_bind m k a b : writes m a -> writes k b -> writes (m ≫= fun _ => k) (a ++ b).
Proof.
  intros Hm Hk w Hw. rewrite byteLength_app in Hw. unfold byteLength in *.
  rewrite (st_bind_run m _ w _ tt (Hm w ltac:(unfold byteLength; lia))). rewrite Hk.
  - cbn. by rewrite app_assoc.
  - cbn. unfold byteLength. rewrite length_app. lia.
Qed.

Lemma writes_ret : writes (mret tt) [].
Proof. intros [l w] _. unfold mret, ST_ret. cbn. by rewrite app_nil_r. Qed.

Lemma reads_bind {A B} (m : Rd A) (k : A -> Rd B) a b x y :
  reads m a x -> reads (k x) b y -> reads (m ≫= k) (a ++ b) y.
Proof. intros Hm Hk rest. rewrite <- app_assoc, (st_bind_run m k _ _ _ (Hm _)). apply Hk. Qed.

Lemma reads_ret {A} (v : A) : reads (mret v) [] v.
Proof. done. Qed.

(** A check of the reader that passes. *)
Lemma reads_lift {A B} (m : R A) (k : A -> Rd B) a bs y :
  m = Ok a -> reads (k a) bs y -> reads (st_lift m ≫= k) bs y.
Proof. intros -> Hk rest. rewrite st_bind_lift. apply Hk. Qed.

Lemma writes_lift {A} (m : R A) (k : A -> W unit) a bs : m = Ok a -> writes (k a) bs -> writes (st_lift m ≫= k) bs.
Proof. intros -> Hk w Hw. rewrite st_bind_lift. by apply Hk. Qed.

(** [m] throws [e] on the input [l]. *)
Definition throws {A} (m : Rd A) (l : list Z) (e : error) : Prop := (m l).2 = Throw e.

Lemma throws_here {A B} (m : Rd A) (k : A -> Rd B) l e : throws m l e -> throws (m ≫= k) l e.
Proof. unfold throws, mbind, ST_bind. destruct (m l) as [l' [a|e']]; cbn; [done|]. by intros [= ->]. Qed.

Lemma throws_later {A B} (m : Rd A) (k : A -> Rd B) bs rest a e :
  reads m bs a -> throws (k a) rest e -> throws (m ≫= k) (bs ++ rest) e.
Proof. intros Hm Hk. unfold throws. by rewrite (st_bind_run _ _ _ _ _ (Hm rest)). Qed.

(** ** Integers *)

Lemma length_le_bytes n v : length (le_bytes n v) = n.
Proof. revert v. induction n as [|n IH]; intros v; cbn; [done|]. by rewrite IH. Qed.

Lemma le_bytes_byte n v : Forall byte (le_bytes n v).
Proof.
  revert v. induction n as [|n IH]; intros v; cbn; [constructor|]. constructor; [|apply IH].
  unfold byte. pose proof (Z.mod_pos_bound v 256). lia.
Qed.

Lemma le_value_bytes n v : 0 <= v < 256 ^ Z.of_nat n -> le_value (le_bytes n v) = v.
Proof.
  revert v. induction n as [|n IH]; intros v Hv; cbn [le_bytes le_value].
  - rewrite Z.pow_0_r in Hv. lia.
  - rewrite Nat2Z.inj_succ, Z.pow_succ_r in Hv by lia. rewrite IH.
    + pose proof (Z.div_mod v 256). lia.
    + split; [apply Z.div_pos; lia|apply Z.div_lt_upper_bound; lia].
Qed.

Lemma le_value_range bs : Forall byte bs -> 0 <= le_value bs < 256 ^ Z.of_nat (length bs).
Proof.
  induction 1 as [|b bs Hb Hbs IH]; cbn [le_value length]; [done|].
  rewrite Nat2Z.inj_succ, Z.pow_succ_r by lia. unfold byte in Hb. lia.
Qed.

Lemma le_bytes_value bs : Forall byte bs -> le_bytes (length bs) (le_value bs) = bs.
Proof.
  induction 1 as [|b bs Hb Hbs IH]; cbn [le_value length le_bytes]; [done|]. unfold byte in Hb.
  assert (E : b + 256 * le_value bs = b + le_value bs * 256) by lia.
  rewrite E, Z_mod_plus_full, Z.mod_small by lia. rewrite Z.div_add, Z.div_small by lia. by rewrite Z.add_0_l, IH.
Qed.

Lemma le_value_inj a b : Forall byte a -> Forall byte b -> length a = length b -> le_value a = le_value b -> a = b.
Proof. intros Ha Hb Hl Hv. by rewrite <- (le_bytes_value a Ha), <- (le_bytes_value b Hb), Hl, Hv. Qed.

(** Decide that a constant is made of bytes. *)
Lemma bytes_check l : forallb (fun b => (0 <=? b) && (b <=? 255)) l = true -> Forall byte l.
Proof.
  rewrite forallb_forall. intros H. apply Forall_forall. intros b Hb%list_elem_of_In%H. propify. unfold byte. lia.
Qed.

(** ** Primitives *)

Lemma w_require_run len w : byteLength (w_bytes w) + len <= w_length w -> w_require len w = (w, Ok tt).
Proof.
  intros Hw. unfold w_require. rewrite st_bind_get. unfold st_lift. by rewrite (proj2 (Z.ltb_ge _ _)) by done.
Qed.

Lemma writes_require_bind len k bs : len <= byteLength bs -> writes k bs -> writes (w_require len ≫= fun _ => k) bs.
Proof. intros Hl Hk w Hw. rewrite (st_bind_run _ _ w w tt (w_require_run len w ltac:(lia))). by apply Hk. Qed.

Lemma writes_append bs : writes (w_append bs) bs.
Proof. by intros w _. Qed.

Lemma byteLength_le_bytes n v : byteLength (le_bytes n v) = Z.of_nat n.
Proof. unfold byteLength. by rewrite length_le_bytes. Qed.

Lemma writes_unsigned n maximum v : 0 <= v <= maximum -> maximum <= MAX_SAFE_INTEGER ->
  writes (w_unsigned n maximum v) (le_bytes n v).
Proof.
  intros Hv Hm. apply writes_require_bind; [by rewrite byteLength_le_bytes|].
  apply (writes_lift _ _ tt); [|apply writes_append]. apply throw_if_Ok.
  rewrite (proj2 (Z.ltb_ge v 0)), (proj2 (Z.ltb_ge maximum v)) by lia.
  unfold isSafeInteger. by rewrite (proj2 (Z.leb_le _ _)) by lia.
Qed.

Lemma writes_u64 v : u64 v -> writes (w_u64 v) (le_bytes 8 v).
Proof.
  intros Hv. apply writes_require_bind; [by rewrite byteLength_le_bytes|].
  apply (writes_lift _ _ v); [by apply checkedU64_id|apply writes_append].
Qed.

Lemma writes_raw bs : writes (w_raw bs) bs.
Proof. apply writes_require_bind; [done|apply writes_append]. Qed.

Lemma reads_raw bs n : n = byteLength bs -> n <= MAX_SAFE_INTEGER -> reads (r_raw n) bs bs.
Proof.
  intros -> Hn rest. unfold r_raw, r_require, byteLength in *. unfold mbind, ST_bind, st_get, st_lift, st_modify. cbn.
  rewrite length_app, (proj2 (Z.ltb_ge (Z.of_nat (length bs)) 0)), (proj2 (Z.ltb_ge (Z.of_nat (length bs + _)) _)) by lia.
  unfold isSafeInteger. rewrite (proj2 (Z.leb_le _ _)) by lia. cbn. rewrite Nat2Z.id.
  unfold mret, ST_ret. by rewrite drop_app_length, take_app_length.
Qed.

Lemma reads_unsigned n v : 0 <= v < 256 ^ Z.of_nat n -> Z.of_nat n <= MAX_SAFE_INTEGER ->
  reads (r_unsigned n) (le_bytes n v) v.
Proof.
  intros Hv Hn. rewrite <- (app_nil_r (le_bytes n v)). eapply reads_bind.
  - apply reads_raw; [by rewrite byteLength_le_bytes|done].
  - rewrite le_value_bytes by done. apply reads_ret.
Qed.

(** ** Writer and reader pairs *)

(** Writing with [w] gives [n] bytes that [rd] reads back as [v]. *)
Definition codec {A} (w : W unit) (rd : Rd A) (v : A) (n : Z) : Prop :=
  exists bs, writes w bs /\ reads rd bs v /\ byteLength bs = n /\ Forall byte bs.

Lemma codec_bind {A B} (w1 w2 : W unit) (r1 : Rd A) (k : A -> Rd B) x y a b :
  codec w1 r1 x a -> codec w2 (k x) y b -> codec (w1 ≫= fun _ => w2) (r1 ≫= k) y (a + b).
Proof.
  intros (b1 & W1 & R1 & L1 & F1) (b2 & W2 & R2 & L2 & F2). exists (b1 ++ b2). split_and!.
  - by apply writes_bind.
  - by eapply reads_bind.
  - rewrite byteLength_app. lia.
  - by apply Forall_app.
Qed.

Lemma codec_last {A B} (w : W unit) (r : Rd A) (k : A -> Rd B) x y n :
  codec w r x n -> k x = mret y -> codec w (r ≫= k) y n.
Proof.
  intros (bs & Hw & Hr & Hl & Hf) Hk. exists bs. split_and!; [done| |done|done].
  rewrite <- (app_nil_r bs). eapply reads_bind; [done|]. rewrite Hk. apply reads_ret.
Qed.

Lemma codec_check {A B} (w : W unit) (m : R B) (k : B -> Rd A) u y n :
  m = Ok u -> codec w (k u) y n -> codec w (st_lift m ≫= k) y n.
Proof.
  intros Hm (bs & Hw & Hr & Hl & Hf). exists bs. split_and!; [done| |done|done]. by eapply reads_lift.
Qed.

Lemma codec_assoc {A} (a b c : W unit) (rd : Rd A) v n :
  codec (a ≫= fun _ => b ≫= fun _ => c) rd v n -> codec ((a ≫= fun _ => b) ≫= fun _ => c) rd v n.
Proof.
  intros (bs & Hw & Hr). exists bs. split; [|done]. intros w Hl. rewrite <- Hw by done.
  unfold mbind, ST_bind. by destruct (a w) as [? [?|?]].
Qed.

Lemma codec_nil {A} (v : A) : codec (mret tt) (mret v) v 0.
Proof. exists []. split_and!; [apply writes_ret|done|done|constructor]. Qed.

Lemma codec_unsigned n maximum v : 0 <= v <= maximum -> maximum <= MAX_SAFE_INTEGER ->
  maximum < 256 ^ Z.of_nat n -> Z.of_nat n <= MAX_SAFE_INTEGER ->
  codec (w_unsigned n maximum v) (r_unsigned n) v (Z.of_nat n).
Proof.
  intros Hv Hm Hp Hn. exists (le_bytes n v). split_and!.
  - by apply writes_unsigned.
  - apply reads_unsigned; [lia|done].
  - apply byteLength_le_bytes.
  - apply le_bytes_byte.
Qed.

Lemma codec_u8 v : 0 <= v <= 255 -> codec (w_u8 v) r_u8 v 1.
Proof. intros. apply (codec_unsigned 1); ll. Qed.
Lemma codec_u16 v : 0 <= v <= 65535 -> codec (w_u16 v) r_u16 v 2.
Proof. intros. apply (codec_unsigned 2); ll. Qed.
Lemma codec_u32 v : 0 <= v <= 0xffffffff -> codec (w_u32 v) r_u32 v 4.
Proof. intros. apply (codec_unsigned 4); ll. Qed.

Lemma codec_u64 v : u64 v -> codec (w_u64 v) r_u64 v 8.
Proof.
  intros Hv. exists (le_bytes 8 v). split_and!.
  - by apply writes_u64.
  - apply reads_unsigned; ll.
  - apply byteLength_le_bytes.
  - apply le_bytes_byte.
Qed.

(** A loop over a list whose elements are all coded. *)
Lemma codec_repeat {A} (w : A -> W unit) (rd : Rd A) (len : A -> Z) l :
  Forall (fun x => codec (w x) rd x (len x)) l ->
  codec (forM w l) (r_repeat (length l) rd) l (foldr (fun x sum => len x + sum) 0 l).
Proof.
  induction 1 as [|x l Hx Hl IH]; cbn [forM r_repeat length foldr].
  - apply codec_nil.
  - apply (codec_bind _ _ _ _ x); [exact Hx|]. eapply codec_last; [exact IH|reflexivity].
Qed.

(** ** Text *)

(** A string the codec can carry: code units, no leading byte order mark. *)
Definition text_ok (s : jsstr) : Prop := js_string s /\ head s <> Some BOM.

Lemma decode_text s : text_ok s -> well_formed s -> utf8_decode (utf8_encode s) = Some s.
Proof.
  intros [Hs Hb] Hw. unfold utf8_decode. rewrite (proj1 (utf8_encode_decodes s Hs Hw)).
  destruct s as [|c u]; [done|]. by rewrite (proj2 (Z.eqb_neq c BOM)) by (intros ->; by apply Hb).
Qed.

Lemma codec_text (maximum n : Z) (validate : jsstr -> R Z) s :
  text_ok s -> utf8Length s = Ok n -> validate s = Ok n -> 0 < n <= maximum -> maximum <= 65535 ->
  codec (w_validatedString (utf8_encode s)) (r_text maximum validate) s (2 + n).
Proof.
  intros Ht Hn Hv Hr Hm. pose proof (utf8Length_encode s n (proj1 Ht) Hn) as Hlen.
  assert (Hw : well_formed s) by (by exists n). fold (byteLength (utf8_encode s)) in Hlen.
  unfold w_validatedString, r_text. apply (codec_bind _ _ _ _ n); [rewrite <- Hlen; apply codec_u16; lia|].
  apply (codec_check _ _ _ tt).
  { apply throw_if_Ok. by rewrite (proj2 (Z.eqb_neq n 0)), (proj2 (Z.ltb_ge maximum n)) by lia. }
  exists (utf8_encode s). split_and!; [apply writes_raw| |done|apply (utf8_encode_decodes s (proj1 Ht) Hw)].
  rewrite <- (app_nil_r (utf8_encode s)) at 1. eapply reads_bind; [apply reads_raw; [done|ll]|].
  apply (reads_lift _ _ s); [by rewrite decode_text|].
  apply (reads_lift _ _ tt); [apply throw_if_Ok; by rewrite <- Hlen, Z.eqb_refl|].
  apply (reads_lift _ _ n); [by rewrite Hv|]. apply reads_ret.
Qed.

Lemma validatePathComponent_inv s n : validatePathComponent s = Ok n ->
  utf8Length s = Ok n /\ s <> [] /\ n <= MAX_COMPONENT_BYTES.
Proof.
  unfold validatePathComponent. intros H. apply bind_Ok in H as (u1 & H1%throw_if_Ok & H).
  apply bind_Ok in H as (u2 & H2%throw_if_Ok & H). apply bind_Ok in H as (m & Hm & H).
  apply bind_Ok in H as (u3 & H3%throw_if_Ok & [= <-]). propify. done.
Qed.

Lemma utf8Length_pos s n : js_string s -> s <> [] -> utf8Length s = Ok n -> 0 < n.
Proof.
  intros Hs Hne Hn. pose proof (utf8Length_encode s n Hs Hn) as ->.
  assert (Hw : well_formed s) by (by eexists). destruct (utf8_encode_decodes s Hs Hw) as [Hd _].
  destruct (utf8_encode s); [by injection Hd as <-|cbn; lia].
Qed.

Definition name_ok (s : jsstr) : Prop := component_ok s /\ text_ok s.
Definition link_ok (s : jsstr) : Prop := target_ok s /\ text_ok s.

Lemma codec_string s : name_ok s -> codec (w_string s) r_string s (2 + ulen s).
Proof.
  intros [[n Hn] Ht]. pose proof (component_ulen s n Hn) as <-.
  destruct (validatePathComponent_inv s n Hn) as (Hl & Hne & Hm).
  destruct (codec_text MAX_COMPONENT_BYTES n validatePathComponent s) as (bs & Hw & Hr & Hb & Hf);
    [done|done|done| |ll|].
  { split; [by eapply utf8Length_pos, Hl; [apply Ht|]|done]. }
  exists bs. split_and!; [by eapply writes_lift|done|done|done].
Qed.

Lemma codec_symlinkTarget s : link_ok s -> codec (w_symlinkTarget s) r_symlinkTarget s (2 + ulen s).
Proof.
  intros [[n Hn] Ht]. pose proof (target_ulen s n Hn) as <-. pose proof Hn as Hv.
  unfold validateSymlinkTarget in Hv. apply bind_Ok in Hv as (m & Hl & Hv).
  apply bind_Ok in Hv as (u & Hc%throw_if_Ok & Hv). apply bind_Ok in Hv as (u2 & _ & [= ->]). propify.
  pose proof (utf8Length_encode s n (proj1 Ht) Hl).
  destruct (codec_text MAX_PATH_BYTES n validateSymlinkTarget s) as (bs & Hw & Hr & Hb & Hf);
    [done|done|done|lia|ll|].
  exists bs. split_and!; [by eapply writes_lift|done|done|done].
Qed.

(** ** Running a pair *)

Lemma w_run_writes (w : W unit) bs n :
  writes w bs -> byteLength bs = n -> n <= MAX_SAFE_INTEGER -> w_run n w = Ok bs.
Proof.
  intros Hw <- Hn. unfold w_run, newBinaryWriter. pose proof (Nat2Z.is_nonneg (length bs)). unfold byteLength in *.
  rewrite (proj2 (Z.ltb_ge _ 0)), (proj2 (Z.ltb_ge 0 0)) by lia.
  unfold isSafeInteger. rewrite !(proj2 (Z.leb_le _ _)) by lia. cbn [negb orb throw_if mbind result_bind].
  change (Z.to_nat 0) with 0%nat. cbn [replicate].
  rewrite Hw by (cbn [w_length w_bytes]; unfold byteLength; cbn [length]; lia).
  unfold w_finish. cbn [w_bytes w_length app]. unfold byteLength. by rewrite Z.eqb_refl.
Qed.

Lemma w_run_codec {A} (w : W unit) (rd : Rd A) v n :
  codec w rd v n -> n <= MAX_SAFE_INTEGER ->
  exists bs, w_run n w = Ok bs /\ byteLength bs = n /\ Forall byte bs /\ forall rest, rd (bs ++ rest) = (rest, Ok v).
Proof. intros (bs & Hw & Hr & Hl & Hf) Hn. exists bs. split; [by apply w_run_writes|done]. Qed.

(** ** Fixed layouts and sealed blocks

    A header as the concatenation of its fields, and what the checksum field of a block protects. *)

(** ** Fields *)

Lemma mjoin_cons (x : list Z) l : mjoin (x :: l) = x ++ mjoin l.
Proof. done. Qed.

Section Fields.
Context (segs : list (list Z)) (k : nat) (seg : list Z) (off : nat).
Hypothesis Hseg : segs !! k = Some seg.
Hypothesis Hoff : off = length (mjoin (take k segs)).

Lemma layout_split : mjoin segs = mjoin (take k segs) ++ seg ++ mjoin (drop (S k) segs).
Proof. by rewrite <- (take_drop_middle segs k seg Hseg) at 1; rewrite join_app. Qed.

Lemma set_field src : length src = length seg -> set_bytes off src (mjoin segs) = mjoin (<[k := src]> segs).
Proof.
  intros Hl. assert (Hk : (k < length segs)%nat) by (by eapply lookup_lt_Some).
  rewrite insert_take_drop, join_app by done. cbn [mjoin list_join]. fold (mjoin (drop (S k) segs)).
  unfold set_bytes. rewrite layout_split at 1 2. subst off.
  by rewrite take_app_length, drop_app_add, Hl, drop_app_length.
Qed.

Lemma get_field w : w = length seg -> subarray (mjoin segs) off (off + w) = seg.
Proof.
  intros ->. unfold subarray. rewrite layout_split. subst off.
  by rewrite drop_app_length, Nat.add_comm, Nat.add_sub, take_app_length.
Qed.
End Fields.

Lemma take_fields (segs : list (list Z)) k off : off = length (mjoin (take k segs)) -> take off (mjoin segs) = mjoin (take k segs).
Proof. intros ->. rewrite <- (take_drop k segs) at 2. by rewrite join_app, take_app_length. Qed.

Lemma drop_fields (segs : list (list Z)) k off : off = length (mjoin (take k segs)) -> drop off (mjoin segs) = mjoin (drop k segs).
Proof. intros ->. rewrite <- (take_drop k segs) at 2. by rewrite join_app, drop_app_length. Qed.

Lemma get_le_field (segs : list (list Z)) k w off v : segs !! k = Some (le_bytes w v) -> off = length (mjoin (take k segs)) ->
  0 <= v < 256 ^ Z.of_nat w -> get_le w (mjoin segs) off = v.
Proof.
  intros Hs Ho Hv. unfold get_le. rewrite (get_field segs k _ off Hs Ho) by (by rewrite length_le_bytes).
  by apply le_value_bytes.
Qed.

Lemma requireMagic_field (segs : list (list Z)) magic : segs !! 0%nat = Some magic -> requireMagic (mjoin segs) magic = Ok tt.
Proof.
  intros Hs. unfold requireMagic, bytesEqual. pose proof (get_field segs 0 magic 0 Hs eq_refl _ eq_refl) as H.
  unfold subarray in H. rewrite Nat.add_0_l, Nat.sub_0_r, drop_0 in H. by rewrite H, bool_decide_eq_true_2.
Qed.

Lemma requireZero_field (segs : list (list Z)) k n start stop : segs !! k = Some (replicate n 0) ->
  start = length (mjoin (take k segs)) -> stop = (start + n)%nat -> requireZero (mjoin segs) start stop = Ok tt.
Proof.
  intros Hs Ho ->. unfold requireZero. rewrite (get_field segs k _ start Hs Ho n) by (by rewrite length_replicate).
  replace (forallb _ _) with true; [done|]. symmetry. apply forallb_forall. intros x Hx%list_elem_of_In.
  apply elem_of_replicate in Hx as [-> _]. done.
Qed.

(** ** Checksums *)

Lemma crc_reference_range bytes : Forall byte bytes -> 0 <= crc_reference bytes < 2 ^ 32.
Proof.
  intros H. unfold crc_reference. apply lxor_range; [lia| |lia]. apply (crc_bytes_word bytes); [|done].
  unfold word32. lia.
Qed.

Lemma zero_range_set bytes off n : zero_range bytes off n = set_bytes off (replicate n 0) bytes.
Proof. unfold zero_range, set_bytes. by rewrite length_replicate. Qed.

Lemma requireChecksum_spec bytes off : Forall byte bytes -> (off + 4 <= length bytes)%nat ->
  Z.of_nat (length bytes) <= MAX_SAFE_INTEGER ->
  requireChecksum bytes off
  = throw_if (negb (get_le 4 bytes off =? crc_reference (zero_range bytes off 4))) CorruptStoreError.
Proof.
  intros Hb Ho Hl. unfold requireChecksum. change 4 with (Z.of_nat 4).
  by rewrite crc32WithZeroedRange_ok.
Qed.

(** Writing the checksum of a layout into its zero field. *)
Section Seal.
Context (segs : list (list Z)) (k : nat) (off : nat).
Hypothesis Hseg : segs !! k = Some (replicate 4 0).
Hypothesis Hoff : off = length (mjoin (take k segs)).
Hypothesis Hbytes : Forall byte (mjoin segs).
Hypothesis Hlen : Z.of_nat (length (mjoin segs)) <= MAX_SAFE_INTEGER.

Lemma field_fits : (off + 4 <= length (mjoin segs))%nat.
Proof. rewrite (layout_split segs k _ Hseg), !length_app, length_replicate. lia. Qed.

Lemma sealChecksum_field :
  sealChecksum off (mjoin segs) = Ok (mjoin (<[k := le_bytes 4 (crc_reference (mjoin segs))]> segs)).
Proof.
  unfold sealChecksum. change 4 with (Z.of_nat 4) at 1. rewrite crc32WithZeroedRange_ok; [|done|apply field_fits|done].
  rewrite zero_range_set, (set_field segs k _ off Hseg Hoff) by done. rewrite list_insert_id by done. cbn [mbind result_bind].
  unfold set_le. by rewrite (set_field segs k _ off Hseg Hoff) by (by rewrite length_le_bytes).
Qed.

Lemma insert_take (l : list (list Z)) i x : take i (<[i := x]> l) = take i l.
Proof. apply take_insert_ge. lia. Qed.

Lemma sealed_checksum : requireChecksum (mjoin (<[k := le_bytes 4 (crc_reference (mjoin segs))]> segs)) off = Ok tt.
Proof.
  set (crc := crc_reference (mjoin segs)). pose proof (crc_reference_range _ Hbytes) as Hcrc. fold crc in Hcrc.
  assert (Hk : (k < length segs)%nat) by (by eapply lookup_lt_Some).
  assert (Hs : <[k := le_bytes 4 crc]> segs !! k = Some (le_bytes 4 crc)) by (by apply list_lookup_insert_eq).
  assert (Ho : off = length (mjoin (take k (<[k := le_bytes 4 crc]> segs)))) by (by rewrite insert_take).
  assert (Hsplit := layout_split segs k _ Hseg).
  assert (Hnew : mjoin (<[k := le_bytes 4 crc]> segs) = mjoin (take k segs) ++ le_bytes 4 crc ++ mjoin (drop (S k) segs)).
  { rewrite (layout_split _ k _ Hs), insert_take. by rewrite drop_insert_lt by lia. }
  assert (Hlen' : length (mjoin (<[k := le_bytes 4 crc]> segs)) = length (mjoin segs)).
  { rewrite Hnew, Hsplit, !length_app, length_replicate, length_le_bytes. done. }
  rewrite requireChecksum_spec.
  - rewrite (get_le_field _ k 4 off crc Hs Ho) by (cbn; lia).
    rewrite zero_range_set, (set_field _ k _ off Hs Ho) by (by rewrite length_le_bytes, length_replicate).
    rewrite list_insert_insert_eq, list_insert_id by done. fold crc. by rewrite Z.eqb_refl.
  - rewrite Hnew. rewrite Hsplit in Hbytes. apply Forall_app in Hbytes as [H1 H2]. apply Forall_app in H2 as [_ H2].
    apply Forall_app. split; [done|]. apply Forall_app. split; [apply le_bytes_byte|done].
  - rewrite Hlen'. apply field_fits.
  - by rewrite Hlen'.
Qed.
End Seal.

(** ** One corrupted byte *)

Lemma crc_reference_insert l i b b0 : Forall byte l -> l !! i = Some b0 -> byte b -> b <> b0 ->
  crc_reference (<[i := b]> l) <> crc_reference l.
Proof.
  intros Hl Hi Hb Hne. assert (Hlt : (i < length l)%nat) by (by eapply lookup_lt_Some).
  rewrite <- (take_drop_middle l i b0 Hi) at 2. rewrite insert_take_drop by done.
  apply crc_reference_one_byte; [by apply Forall_take|done|by eapply Forall_lookup_1|by apply Forall_drop|done].
Qed.

Lemma subarray_insert_outside (l : list Z) i b start stop :
  (i < start)%nat \/ (stop <= i)%nat -> subarray (<[i := b]> l) start stop = subarray l start stop.
Proof.
  intros [H|H]; unfold subarray; [by rewrite drop_insert_lt|].
  destruct (decide (start <= i)%nat); [|by rewrite drop_insert_lt by lia].
  rewrite drop_insert_ge by done. apply take_insert_ge. lia.
Qed.

Lemma zero_range_outside (l : list Z) i b off n :
  (off + n <= length l)%nat -> (i < off)%nat \/ (off + n <= i)%nat ->
  zero_range (<[i := b]> l) off n = <[i := b]> (zero_range l off n).
Proof.
  intros Hl H. unfold zero_range. assert (Ht : length (take off l) = off) by (rewrite length_take; lia).
  destruct H as [H|H].
  - rewrite take_insert_lt, drop_insert_lt by lia. rewrite insert_app_l by lia. done.
  - rewrite take_insert_ge by lia. rewrite drop_insert_ge by lia.
    rewrite insert_app_r_alt by lia. f_equal. rewrite insert_app_r_alt by (rewrite length_replicate; lia).
    rewrite length_replicate, Ht. do 2 f_equal. lia.
Qed.

Lemma zero_range_inside (l : list Z) i b off n :
  (off <= i)%nat -> (i < off + n)%nat -> zero_range (<[i := b]> l) off n = zero_range l off n.
Proof. intros H1 H2. unfold zero_range. by rewrite take_insert_ge, drop_insert_lt by lia. Qed.

Lemma zero_range_lookup_outside (l : list Z) i off n :
  (off + n <= length l)%nat -> (i < off)%nat \/ (off + n <= i)%nat -> zero_range l off n !! i = l !! i.
Proof.
  intros Hl H. unfold zero_range. assert (Ht : length (take off l) = off) by (rewrite length_take; lia).
  destruct H as [H|H].
  - rewrite lookup_app_l by lia. by rewrite lookup_take_lt.
  - rewrite lookup_app_r, lookup_app_r by (rewrite ?length_replicate; lia).
    rewrite length_replicate, lookup_drop, Ht. f_equal. lia.
Qed.

Lemma zero_range_byte l off n : Forall byte l -> Forall byte (zero_range l off n).
Proof.
  intros H. unfold zero_range. repeat (apply Forall_app; split).
  - by apply Forall_take.
  - apply Forall_replicate. unfold byte. lia.
  - by apply Forall_drop.
Qed.

(** Changing any byte of a block whose checksum matches, the checksum field included, is detected. *)
Lemma requireChecksum_corrupt bytes off i b0 b : Forall byte bytes -> (off + 4 <= length bytes)%nat ->
  Z.of_nat (length bytes) <= MAX_SAFE_INTEGER -> requireChecksum bytes off = Ok tt ->
  bytes !! i = Some b0 -> byte b -> b <> b0 ->
  requireChecksum (<[i := b]> bytes) off = Throw CorruptStoreError.
Proof.
  intros Hb Ho Hl Hok Hi Hbb Hne.
  assert (Hb' : Forall byte (<[i := b]> bytes)) by (by apply Forall_insert).
  rewrite requireChecksum_spec in * by (rewrite ?length_insert; done).
  apply throw_if_Ok, negb_false_iff, Z.eqb_eq in Hok. apply throw_if_Throw. split; [|done].
  apply negb_true_iff, Z.eqb_neq. destruct (decide (off <= i < off + 4)%nat) as [Hin|Hout].
  - rewrite zero_range_inside, <- Hok by lia. unfold get_le. intros Heq%le_value_inj.
    + apply Hne. apply (f_equal (fun l => l !! (i - off)%nat)) in Heq. unfold subarray in Heq.
      rewrite !lookup_take_lt, !lookup_drop in Heq by lia. replace (off + (i - off))%nat with i in Heq by lia.
      rewrite list_lookup_insert_eq, Hi in Heq by (by eapply lookup_lt_Some). by injection Heq.
    + unfold subarray. by apply Forall_take, Forall_drop.
    + unfold subarray. by apply Forall_take, Forall_drop.
    + unfold subarray. rewrite !length_take, !length_drop, length_insert. done.
  - unfold get_le. rewrite subarray_insert_outside by lia. fold (get_le 4 bytes off). rewrite Hok.
    rewrite zero_range_outside by lia. intros Heq. symmetry in Heq. revert Heq.
    eapply crc_reference_insert; [by apply zero_range_byte| |done|exact Hne].
    by rewrite zero_range_lookup_outside by lia.
Qed.
