(* ===== verification/TxnCodec.v ===== *)
(** * Transaction frames

    The record and frame codec of [packages/pgwasm/src/opfs/core/codec.ts]. *)

From S2P Require Export Lookup Bytes.

(** ** Records *)

Definition writeExtentRuns (runs : list ExtentRun) : W unit :=
  w_u32 (Z.of_nat (length runs)) ≫= fun _ =>
  forM (fun run => w_u64 (run_start run) ≫= fun _ => w_u32 (run_count run)) runs.

Fixpoint readRuns (count : nat) (extentCount : Z) : Rd (list ExtentRun) :=
  match count with
  | O => mret []
  | S count =>
      start ← r_u64;
      n ← r_u32;
      st_lift (throw_if ((n =? 0) || (MAX_EXTENTS_PER_INODE <? extentCount + n)) CorruptStoreError)
        ≫= fun _ =>
      runs ← readRuns count (extentCount + n);
      mret (mkRun start n :: runs)
  end.

Definition readExtentRuns : Rd (list ExtentRun) :=
  runCount ← readBoundedCount MAX_EXTENTS_PER_INODE; readRuns (Z.to_nat runCount) 0.

Definition RECORD_CODE (record : TxnRecord) : Z :=
  match record with
  | CreateDirectories _ => 1
  | CreateFile _ _ _ _ _ _ _ _ _ => 2
  | RemoveFile _ _ _ _ => 3
  | ChangeMode _ _ _ => 4
  | ChangeTimes _ _ _ _ => 5
  | ResizeFile _ _ _ _ _ _ => 6
  | RemoveDirectory _ _ _ _ => 7
  | Rename _ _ _ _ _ => 8
  | ReserveQuarantine _ => 9
  | CreateSymlink _ _ _ _ _ _ _ _ => 10
  end.

Definition writeDirectoryEntry (entry : CreateDirectoryChoice) : W unit :=
  w_u64 (cd_parentId entry) ≫= fun _ =>
  w_string (cd_name entry) ≫= fun _ =>
  w_u64 (cd_inodeId entry) ≫= fun _ =>
  w_u32 (cd_mode entry) ≫= fun _ =>
  w_u64 (cd_atimeMs entry) ≫= fun _ =>
  w_u64 (cd_mtimeMs entry) ≫= fun _ =>
  w_u64 (cd_ctimeMs entry).

Definition writeTxnRecord (record : TxnRecord) : W unit :=
  w_u8 (RECORD_CODE record) ≫= fun _ =>
  match record with
  | CreateDirectories entries =>
      w_u32 (Z.of_nat (length entries)) ≫= fun _ => forM writeDirectoryEntry entries
  | CreateFile parentId name inodeId mode atimeMs mtimeMs ctimeMs size extents =>
      w_u64 parentId ≫= fun _ =>
      w_string name ≫= fun _ =>
      w_u64 inodeId ≫= fun _ =>
      w_u32 mode ≫= fun _ =>
      w_u64 atimeMs ≫= fun _ =>
      w_u64 mtimeMs ≫= fun _ =>
      w_u64 ctimeMs ≫= fun _ =>
      w_u64 size ≫= fun _ =>
      writeExtentRuns extents
  | RemoveFile parentId name parentMtimeMs parentCtimeMs
  | RemoveDirectory parentId name parentMtimeMs parentCtimeMs =>
      w_u64 parentId ≫= fun _ =>
      w_string name ≫= fun _ =>
      w_u64 parentMtimeMs ≫= fun _ =>
      w_u64 parentCtimeMs
  | ChangeMode inodeId mode ctimeMs =>
      w_u64 inodeId ≫= fun _ =>
      w_u32 mode ≫= fun _ =>
      w_u64 ctimeMs
  | ChangeTimes inodeId atimeMs mtimeMs ctimeMs =>
      w_u64 inodeId ≫= fun _ =>
      w_u64 atimeMs ≫= fun _ =>
      w_u64 mtimeMs ≫= fun _ =>
      w_u64 ctimeMs
  | ResizeFile operation inodeId size allocated mtimeMs ctimeMs =>
      w_u8 (match operation with OpTruncate => 0 | OpWrite => 1 end) ≫= fun _ =>
      w_u64 inodeId ≫= fun _ =>
      w_u64 size ≫= fun _ =>
      writeExtentRuns allocated ≫= fun _ =>
      w_u64 mtimeMs ≫= fun _ =>
      w_u64 ctimeMs
  | Rename sourceParentId sourceName destinationParentId destinationName timestampMs =>
      w_u64 sourceParentId ≫= fun _ =>
      w_string sourceName ≫= fun _ =>
      w_u64 destinationParentId ≫= fun _ =>
      w_string destinationName ≫= fun _ =>
      w_u64 timestampMs
  | CreateSymlink parentId name inodeId mode atimeMs mtimeMs ctimeMs target =>
      w_u64 parentId ≫= fun _ =>
      w_string name ≫= fun _ =>
      w_u64 inodeId ≫= fun _ =>
      w_u32 mode ≫= fun _ =>
      w_u64 atimeMs ≫= fun _ =>
      w_u64 mtimeMs ≫= fun _ =>
      w_u64 ctimeMs ≫= fun _ =>
      w_symlinkTarget target
  | ReserveQuarantine extents => writeExtentRuns extents
  end.

Definition encodeTxnRecord (record : TxnRecord) : R (list Z) :=
  len ← estimateTxnPayloadBytes record;
  w_run len (writeTxnRecord record).

Definition readDirectoryEntry : Rd CreateDirectoryChoice :=
  parentId ← r_u64;
  name ← r_string;
  inodeId ← r_u64;
  mode ← r_u32;
  atimeMs ← r_u64;
  mtimeMs ← r_u64;
  ctimeMs ← r_u64;
  mret (mkDirChoice parentId name inodeId mode atimeMs mtimeMs ctimeMs).

Definition readTxnRecord (type : Z) : Rd TxnRecord :=
  if type =? 1 then
    count ← readBoundedCount MAX_INODES;
    st_lift (throw_if (count =? 0) CorruptStoreError) ≫= fun _ =>
    entries ← r_repeat (Z.to_nat count) readDirectoryEntry;
    mret (CreateDirectories entries)
  else if type =? 2 then
    parentId ← r_u64;
    name ← r_string;
    inodeId ← r_u64;
    mode ← r_u32;
    atimeMs ← r_u64;
    mtimeMs ← r_u64;
    ctimeMs ← r_u64;
    size ← r_u64;
    extents ← readExtentRuns;
    mret (CreateFile parentId name inodeId mode atimeMs mtimeMs ctimeMs size extents)
  else if (type =? 3) || (type =? 7) then
    parentId ← r_u64;
    name ← r_string;
    parentMtimeMs ← r_u64;
    parentCtimeMs ← r_u64;
    mret ((if type =? 3 then RemoveFile else RemoveDirectory) parentId name parentMtimeMs parentCtimeMs)
  else if type =? 4 then
    inodeId ← r_u64;
    mode ← r_u32;
    ctimeMs ← r_u64;
    mret (ChangeMode inodeId mode ctimeMs)
  else if type =? 5 then
    inodeId ← r_u64;
    atimeMs ← r_u64;
    mtimeMs ← r_u64;
    ctimeMs ← r_u64;
    mret (ChangeTimes inodeId atimeMs mtimeMs ctimeMs)
  else if type =? 6 then
    operation ← r_u8;
    st_lift (throw_if (negb (operation =? 0) && negb (operation =? 1)) CorruptStoreError) ≫= fun _ =>
    inodeId ← r_u64;
    size ← r_u64;
    allocated ← readExtentRuns;
    mtimeMs ← r_u64;
    ctimeMs ← r_u64;
    mret (ResizeFile (if operation =? 0 then OpTruncate else OpWrite) inodeId size allocated mtimeMs ctimeMs)
  else if type =? 8 then
    sourceParentId ← r_u64;
    sourceName ← r_string;
    destinationParentId ← r_u64;
    destinationName ← r_string;
    timestampMs ← r_u64;
    mret (Rename sourceParentId sourceName destinationParentId destinationName timestampMs)
  else if type =? 9 then
    extents ← readExtentRuns;
    mret (ReserveQuarantine extents)
  else if type =? 10 then
    parentId ← r_u64;
    name ← r_string;
    inodeId ← r_u64;
    mode ← r_u32;
    atimeMs ← r_u64;
    mtimeMs ← r_u64;
    ctimeMs ← r_u64;
    target ← r_symlinkTarget;
    mret (CreateSymlink parentId name inodeId mode atimeMs mtimeMs ctimeMs target)
  else st_lift (Throw CorruptStoreError).

Definition decodeTxnRecord (bytes : list Z) : R TxnRecord :=
  r_run (type ← r_u8; record ← readTxnRecord type; r_end ≫= fun _ => mret record) bytes.

(** ** Frames *)

Record TxnFrame : Type := mkFrame { frame_generation : Z; frame_sequence : Z; frame_record : TxnRecord }.

Record TxnFrameHeader : Type := mkFrameHeader {
  fh_generation : Z;
  fh_sequence : Z;
  fh_payloadLength : Z;
  fh_frameBytes : Z
}.

Definition txnFrameBytes (record : TxnRecord) : R Z :=
  payloadBytes ← estimateTxnPayloadBytes record;
  throw_if (MAX_FRAME_PAYLOAD_BYTES <? payloadBytes) StoreLimitError ≫= fun _ =>
  Ok (Z.of_nat TXN_FRAME_HEADER_BYTES + payloadBytes).

Definition inspectTxnFrameHeader (header : list Z) : R TxnFrameHeader :=
  throw_if (negb (Nat.eqb (length header) TXN_FRAME_HEADER_BYTES)) CorruptStoreError ≫= fun _ =>
  requireMagic header FRAME_MAGIC ≫= fun _ =>
  requireZero header 36 40 ≫= fun _ =>
  requireZero header 44 48 ≫= fun _ =>
  let payloadLength := get_le 4 header 32 in
  throw_if (MAX_FRAME_PAYLOAD_BYTES <? payloadLength) CorruptStoreError ≫= fun _ =>
  throw_if (negb (get_le 4 header 8 =? FORMAT_VERSION) || negb (get_le 4 header 12 =? LIMITS_PROFILE_VERSION))
    CorruptStoreError ≫= fun _ =>
  Ok (mkFrameHeader (get_le 8 header 16) (get_le 8 header 24) payloadLength
        (Z.of_nat TXN_FRAME_HEADER_BYTES + payloadLength)).

Definition encodeTxnFrame (frame : TxnFrame) : R (list Z) :=
  payload ← encodeTxnRecord (frame_record frame);
  throw_if (MAX_FRAME_PAYLOAD_BYTES <? byteLength payload) StoreLimitError ≫= fun _ =>
  generation ← checkedU64 (frame_generation frame);
  sequence ← checkedU64 (frame_sequence frame);
  let bytes := replicate (TXN_FRAME_HEADER_BYTES + length payload) 0 in
  let bytes := set_bytes 0 FRAME_MAGIC bytes in
  let bytes := set_le 4 8 FORMAT_VERSION bytes in
  let bytes := set_le 4 12 LIMITS_PROFILE_VERSION bytes in
  let bytes := set_le 8 16 generation bytes in
  let bytes := set_le 8 24 sequence bytes in
  let bytes := set_le 4 32 (byteLength payload) bytes in
  let bytes := set_bytes TXN_FRAME_HEADER_BYTES payload bytes in
  sealChecksum FRAME_CHECKSUM_OFFSET bytes.

Definition decodeTxnFrame (bytes : list Z) : R TxnFrame :=
  throw_if (Nat.ltb (length bytes) TXN_FRAME_HEADER_BYTES) CorruptStoreError ≫= fun _ =>
  inspected ← inspectTxnFrameHeader (take TXN_FRAME_HEADER_BYTES bytes);
  throw_if (negb (byteLength bytes =? fh_frameBytes inspected)) CorruptStoreError ≫= fun _ =>
  requireChecksum bytes FRAME_CHECKSUM_OFFSET ≫= fun _ =>
  record ← decodeTxnRecord (drop TXN_FRAME_HEADER_BYTES bytes);
  Ok (mkFrame (fh_generation inspected) (fh_sequence inspected) record).
