(* ===== verification/FrameLaws.v ===== *)
(** * Transaction frames: round trip and corruption *)

From S2P Require Export CodecLaws TxnCodec.

(** ** Records *)

Definition run_total (runs : list ExtentRun) : Z := foldr (fun r sum => run_count r + sum) 0 runs.

(** Runs the reader accepts. *)
Definition runs_ok (runs : list ExtentRun) : Prop :=
  Forall (fun r => u64 (run_start r) /\ 0 < run_count r) runs /\ run_total runs <= MAX_EXTENTS_PER_INODE.

Definition u32_ok (v : Z) : Prop := 0 <= v <= 0xffffffff.

Definition entry_ok (e : CreateDirectoryChoice) : Prop :=
  u64 (cd_parentId e) /\ name_ok (cd_name e) /\ u64 (cd_inodeId e) /\ u32_ok (cd_mode e) /\
  u64 (cd_atimeMs e) /\ u64 (cd_mtimeMs e) /\ u64 (cd_ctimeMs e).

(** A record whose fields fit the wire format. *)
Definition record_ok (record : TxnRecord) : Prop :=
  match record with
  | CreateDirectories entries =>
      entries <> [] /\ Z.of_nat (length entries) <= MAX_INODES /\ Forall entry_ok entries
  | CreateFile parentId name inodeId mode atime mtime ctime size extents =>
      u64 parentId /\ name_ok name /\ u64 inodeId /\ u32_ok mode /\ u64 atime /\ u64 mtime /\ u64 ctime /\
      u64 size /\ runs_ok extents
  | RemoveFile parentId name mtime ctime | RemoveDirectory parentId name mtime ctime =>
      u64 parentId /\ name_ok name /\ u64 mtime /\ u64 ctime
  | ChangeMode inodeId mode ctime => u64 inodeId /\ u32_ok mode /\ u64 ctime
  | ChangeTimes inodeId atime mtime ctime => u64 inodeId /\ u64 atime /\ u64 mtime /\ u64 ctime
  | ResizeFile _ inodeId size allocated mtime ctime =>
      u64 inodeId /\ u64 size /\ runs_ok allocated /\ u64 mtime /\ u64 ctime
  | Rename sourceParentId sourceName destinationParentId destinationName timestamp =>
      u64 sourceParentId /\ name_ok sourceName /\ u64 destinationParentId /\ name_ok destinationName /\
      u64 timestamp
  | CreateSymlink parentId name inodeId mode atime mtime ctime target =>
      u64 parentId /\ name_ok name /\ u64 inodeId /\ u32_ok mode /\ u64 atime /\ u64 mtime /\ u64 ctime /\
      link_ok target
  | ReserveQuarantine extents => runs_ok extents
  end.

Lemma runs_length runs : Forall (fun r => u64 (run_start r) /\ 0 < run_count r) runs ->
  Z.of_nat (length runs) <= run_total runs.
Proof. induction 1 as [|r runs [_ Hr] _ IH]; cbn [length run_total foldr]; [done|]. unfold run_total in IH. lia. Qed.

Lemma codec_readRuns runs c : Forall (fun r => u64 (run_start r) /\ 0 < run_count r) runs ->
  0 <= c -> c + run_total runs <= MAX_EXTENTS_PER_INODE ->
  codec (forM (fun run => w_u64 (run_start run) ≫= fun _ => w_u32 (run_count run)) runs)
    (readRuns (length runs) c) runs (Z.of_nat (length runs) * 12).
Proof.
  intros Hf. revert c. induction Hf as [|r runs [Hs Hc] Hf IH]; intros c H0 Ht; cbn [forM readRuns length].
  - apply codec_nil.
  - cbn [run_total foldr] in Ht. fold (run_total runs) in Ht. pose proof (runs_length runs Hf).
    replace (Z.of_nat (S (length runs)) * 12) with (8 + (4 + Z.of_nat (length runs) * 12)) by lia.
    apply codec_assoc, (codec_bind _ _ _ _ (run_start r)); [by apply codec_u64|].
    apply (codec_bind _ _ _ _ (run_count r)); [apply codec_u32; ll|].
    apply (codec_check _ _ _ tt); [apply throw_if_Ok; by rewrite (proj2 (Z.eqb_neq _ _)), (proj2 (Z.ltb_ge _ _)) by lia|].
    eapply codec_last; [apply (IH (c + run_count r)); lia|]. by destruct r.
Qed.

Lemma codec_boundedCount maximum v : 0 <= v -> v <= maximum -> maximum <= 0xffffffff ->
  codec (w_u32 v) (readBoundedCount maximum) v 4.
Proof.
  intros H0 Hv Hm. destruct (codec_u32 v) as (bs & Hw & Hr & Hl & Hf); [lia|].
  exists bs. split_and!; [done| |done|done]. rewrite <- (app_nil_r bs). eapply reads_bind; [done|].
  apply (reads_lift _ _ tt); [|apply reads_ret]. apply throw_if_Ok. by rewrite (proj2 (Z.ltb_ge _ _)) by lia.
Qed.

Lemma codec_extentRuns runs : runs_ok runs ->
  codec (writeExtentRuns runs) readExtentRuns runs (extentRunsPayloadBytes runs).
Proof.
  intros [Hf Ht]. pose proof (runs_length runs Hf). unfold writeExtentRuns, readExtentRuns, extentRunsPayloadBytes.
  apply (codec_bind _ _ _ _ (Z.of_nat (length runs))); [apply codec_boundedCount; ll|].
  rewrite Nat2Z.id. apply codec_readRuns; [done|done|lia].
Qed.

(** ** The record body *)

Lemma codec_eq {A} (w : W unit) (rd : Rd A) v n m : codec w rd v n -> n = m -> codec w rd v m.
Proof. by intros ? ->. Qed.

(** Fields in sequence. *)
Ltac field :=
  first
    [ apply codec_u64; assumption
    | apply codec_string; assumption
    | apply codec_symlinkTarget; assumption
    | apply codec_u32; assumption
    | apply codec_extentRuns; assumption ].
Ltac fields := repeat (eapply codec_bind; [field|]); eapply codec_last; [field|reflexivity].

Definition entry_bytes (e : CreateDirectoryChoice) : Z := 8 + (2 + ulen (cd_name e)) + 8 + 4 + 24.

Lemma codec_entry e : entry_ok e -> codec (writeDirectoryEntry e) readDirectoryEntry e (entry_bytes e).
Proof.
  destruct e. intros (?&?&?&?&?&?&?). cbn in *. eapply codec_eq; [unfold writeDirectoryEntry, readDirectoryEntry; cbn; fields|].
  unfold entry_bytes. cbn. lia.
Qed.

(** The size of a record's body, without its type byte. *)
Definition body_bytes (record : TxnRecord) : Z :=
  match record with
  | CreateDirectories entries => 4 + foldr (fun e sum => entry_bytes e + sum) 0 entries
  | CreateFile _ name _ _ _ _ _ _ extents => 8 + (2 + ulen name) + 8 + 4 + 24 + 8 + extentRunsPayloadBytes extents
  | RemoveFile _ name _ _ | RemoveDirectory _ name _ _ => 8 + (2 + ulen name) + 16
  | ChangeMode _ _ _ => 20
  | ChangeTimes _ _ _ _ => 32
  | ResizeFile _ _ _ allocated _ _ => 33 + extentRunsPayloadBytes allocated
  | Rename _ sourceName _ destinationName _ => 8 + (2 + ulen sourceName) + 8 + (2 + ulen destinationName) + 8
  | CreateSymlink _ name _ _ _ _ _ target => 8 + (2 + ulen name) + 8 + 4 + 24 + (2 + ulen target)
  | ReserveQuarantine extents => extentRunsPayloadBytes extents
  end.

Lemma ulen_total s : component_ok s -> encodedUtf8Length s = Ok (ulen s).
Proof. intros [n Hn]. rewrite <- (component_ulen s n Hn). apply (validatePathComponent_inv s n Hn). Qed.

Lemma ulen_target_total s : target_ok s -> encodedUtf8Length s = Ok (ulen s).
Proof.
  intros [n Hn]. rewrite <- (target_ulen s n Hn). unfold validateSymlinkTarget in Hn.
  apply bind_Ok in Hn as (m & Hl & Hn). apply bind_Ok in Hn as (u & _ & Hn).
  by apply bind_Ok in Hn as (u2 & _ & [= ->]).
Qed.

Lemma estimate_entries entries acc : Forall entry_ok entries ->
  foldM (fun bytes entry => n ← encodedUtf8Length (cd_name entry); Ok (bytes + 8 + 2 + n + 8 + 4 + 24)) acc entries
  = Ok (acc + foldr (fun e sum => entry_bytes e + sum) 0 entries).
Proof.
  intros Hf. revert acc. induction Hf as [|e entries He Hf IH]; intros acc; cbn [foldM foldr]; [f_equal; lia|].
  destruct He as (_ & [Hn _] & _). rewrite (ulen_total _ Hn). cbn [mbind result_bind]. rewrite IH.
  f_equal. unfold entry_bytes. lia.
Qed.

Lemma estimate_total record : record_ok record -> estimateTxnPayloadBytes record = Ok (1 + body_bytes record).
Proof.
  destruct record; cbn [record_ok body_bytes]; intros H; unfold estimateTxnPayloadBytes; unfold name_ok, link_ok in *.
  - rewrite estimate_entries by tauto. cbn. f_equal. lia.
  - rewrite ulen_total by tauto. cbn. f_equal. lia.
  - rewrite ulen_total by tauto. cbn. f_equal. lia.
  - done.
  - done.
  - f_equal. lia.
  - rewrite ulen_total by tauto. cbn. f_equal. lia.
  - rewrite !ulen_total by tauto. cbn. f_equal. lia.
  - destruct H as (_ & [Hn _] & _ & _ & _ & _ & _ & [Ht _]). rewrite (ulen_total _ Hn), (ulen_target_total _ Ht). cbn. f_equal. lia.
  - done.
Qed.

Lemma codec_record_body record : record_ok record ->
  exists w, writeTxnRecord record = (w_u8 (RECORD_CODE record) ≫= fun _ => w) /\
    codec w (readTxnRecord (RECORD_CODE record)) record (body_bytes record).
Proof.
  destruct record; cbn [record_ok body_bytes RECORD_CODE writeTxnRecord]; intros H; eexists; (split; [reflexivity|]);
    unfold readTxnRecord; cbn [Z.eqb orb Pos.eqb].
  - destruct H as (Hne & Hm & Hf). eapply codec_bind.
    { apply codec_boundedCount with (v := Z.of_nat (length entries)); [lia|done|ll]. }
    cbn beta. apply (codec_check _ _ _ tt).
    { apply throw_if_Ok, Z.eqb_neq. destruct entries; [done|cbn; lia]. }
    rewrite Nat2Z.id. eapply codec_last; [|reflexivity].
    apply codec_repeat. eapply Forall_impl; [exact Hf|]. apply codec_entry.
  - destruct H as (?&?&?&?&?&?&?&?&?). eapply codec_eq; [fields|lia].
  - destruct H as (?&?&?&?). eapply codec_eq; [fields|lia].
  - destruct H as (?&?&?). eapply codec_eq; [fields|lia].
  - destruct H as (?&?&?&?). eapply codec_eq; [fields|lia].
  - destruct H as (?&?&?&?&?). eapply codec_eq.
    + eapply (codec_bind _ _ _ _ (match operation with OpTruncate => 0 | OpWrite => 1 end));
        [apply codec_u8; destruct operation; lia|].
      apply (codec_check _ _ _ tt); [by destruct operation|].
      do 4 (eapply codec_bind; [field|]). eapply codec_last; [field|by destruct operation].
    + lia.
  - destruct H as (?&?&?&?). eapply codec_eq; [fields|lia].
  - destruct H as (?&?&?&?&?). eapply codec_eq; [fields|lia].
  - destruct H as (?&?&?&?&?&?&?&?). eapply codec_eq; [fields|lia].
  - eapply codec_eq; [fields|lia].
Qed.

Lemma body_bytes_nonneg record : record_ok record -> 0 <= body_bytes record.
Proof.
  intros H. destruct (codec_record_body record H) as (w & _ & bs & _ & _ & <- & _). unfold byteLength. lia.
Qed.

(** A record's encoding has the estimated size and decodes to the record. *)
Lemma encodeTxnRecord_decodes record : record_ok record -> 1 + body_bytes record <= MAX_SAFE_INTEGER ->
  exists payload, encodeTxnRecord record = Ok payload /\ byteLength payload = 1 + body_bytes record /\
    Forall byte payload /\ decodeTxnRecord payload = Ok record.
Proof.
  intros H Hm. destruct (codec_record_body record H) as (w & Hw & Hc).
  assert (Hcodec : codec (writeTxnRecord record) (type ← r_u8; readTxnRecord type) record (1 + body_bytes record)).
  { rewrite Hw. apply (codec_bind _ _ _ _ (RECORD_CODE record)); [|done]. apply codec_u8. destruct record; cbn; lia. }
  destruct (w_run_codec _ _ _ _ Hcodec Hm) as (payload & Hr & Hl & Hf & Hd).
  exists payload. split_and!; [|done|done|].
  - unfold encodeTxnRecord. by rewrite estimate_total.
  - unfold decodeTxnRecord, r_run. specialize (Hd []). rewrite app_nil_r in Hd.
    assert (E : forall l : list Z, (type ← r_u8; record ← readTxnRecord type; r_end ≫= fun _ => mret record) l
      = ((type ← r_u8; readTxnRecord type) ≫= fun record => r_end ≫= fun _ => mret record) l).
    { intros l. unfold mbind, ST_bind. by destruct (r_u8 l) as [? [?|?]]. }
    rewrite E. by rewrite (st_bind_run _ _ _ _ _ Hd).
Qed.

(** ** Frames *)

(** The fields of a frame. *)
Definition frame_fields (generation sequence : Z) (payload checksum : list Z) : list (list Z) :=
  [FRAME_MAGIC; le_bytes 4 FORMAT_VERSION; le_bytes 4 LIMITS_PROFILE_VERSION; le_bytes 8 generation;
   le_bytes 8 sequence; le_bytes 4 (byteLength payload); replicate 4 0; checksum; replicate 4 0; payload].

Definition frame_crc (generation sequence : Z) (payload : list Z) : Z :=
  crc_reference (mjoin (frame_fields generation sequence payload (replicate 4 0))).

Definition frame_bytes (generation sequence : Z) (payload : list Z) : list Z :=
  mjoin (frame_fields generation sequence payload (le_bytes 4 (frame_crc generation sequence payload))).

Lemma frame_fields_byte g s payload : Forall byte payload ->
  Forall byte (mjoin (frame_fields g s payload (replicate 4 0))).
Proof.
  intros Hp. unfold frame_fields. rewrite !mjoin_cons.
  assert (Hz : forall n, Forall byte (replicate n 0)) by (intros n; apply Forall_replicate; unfold byte; lia).
  assert (Hm : Forall byte FRAME_MAGIC) by (by apply bytes_check).
  repeat (apply Forall_app; split); eauto using le_bytes_byte.
Qed.

Lemma frame_fields_length g s payload c : length c = 4%nat ->
  length (mjoin (frame_fields g s payload c)) = (TXN_FRAME_HEADER_BYTES + length payload)%nat.
Proof.
  intros Hc. unfold frame_fields. rewrite !mjoin_cons, !length_app, !length_le_bytes, !length_replicate, Hc. cbn. lia.
Qed.

Lemma encodeTxnFrame_layout g s record payload :
  encodeTxnRecord record = Ok payload -> Forall byte payload -> byteLength payload <= MAX_FRAME_PAYLOAD_BYTES ->
  u64 g -> u64 s -> encodeTxnFrame (mkFrame g s record) = Ok (frame_bytes g s payload).
Proof.
  intros He Hb Hl Hg Hs. unfold encodeTxnFrame. cbn [frame_record frame_generation frame_sequence].
  rewrite He. cbn [mbind result_bind]. rewrite (proj2 (Z.ltb_ge _ _)) by done. rewrite !checkedU64_id by done.
  cbn [throw_if mbind result_bind].
  set (zeros := [replicate 8 0; replicate 4 0; replicate 4 0; replicate 8 0; replicate 8 0; replicate 4 0;
                 replicate 4 0; replicate 4 0; replicate 4 0; replicate (length payload) 0]).
  replace (replicate (TXN_FRAME_HEADER_BYTES + length payload) 0) with (mjoin zeros)
    by (unfold zeros; rewrite !mjoin_cons, app_nil_r; by rewrite replicate_add).
  unfold set_le, zeros.
  rewrite (set_field _ 0 _ 0) by done. cbn [insert list_insert].
  rewrite (set_field _ 1 _ 8) by done. cbn [insert list_insert].
  rewrite (set_field _ 2 _ 12) by done. cbn [insert list_insert].
  rewrite (set_field _ 3 _ 16) by done. cbn [insert list_insert].
  rewrite (set_field _ 4 _ 24) by done. cbn [insert list_insert].
  rewrite (set_field _ 5 _ 32) by done. cbn [insert list_insert].
  rewrite (set_field _ 9 _ TXN_FRAME_HEADER_BYTES) by (done || by rewrite length_replicate). cbn [insert list_insert].
  change (sealChecksum FRAME_CHECKSUM_OFFSET (mjoin (frame_fields g s payload (replicate 4 0))) = Ok (frame_bytes g s payload)).
  rewrite (sealChecksum_field _ 7) by
    (done || (by apply frame_fields_byte) || (rewrite frame_fields_length by done; unfold byteLength in Hl; cbn; ll)).
  done.
Qed.

Lemma inspect_frame g s payload c : u64 g -> u64 s -> byteLength payload <= MAX_FRAME_PAYLOAD_BYTES -> length c = 4%nat ->
  inspectTxnFrameHeader (take TXN_FRAME_HEADER_BYTES (mjoin (frame_fields g s payload c)))
  = Ok (mkFrameHeader g s (byteLength payload) (Z.of_nat TXN_FRAME_HEADER_BYTES + byteLength payload)).
Proof.
  intros Hg Hs Hl Hc. assert (0 <= byteLength payload) by (unfold byteLength; lia).
  rewrite (take_fields _ 9) by (unfold frame_fields; cbn [take]; rewrite !mjoin_cons, !length_app, Hc; done).
  unfold frame_fields. cbn [take]. unfold inspectTxnFrameHeader.
  rewrite (requireMagic_field _ FRAME_MAGIC) by done.
  rewrite (requireZero_field _ 6 4 36 40) by (done).
  rewrite (requireZero_field _ 8 4 44 48) by (done || (cbn [take]; rewrite !mjoin_cons, !length_app, Hc; done)).
  rewrite (get_le_field _ 5 4 32 (byteLength payload)) by (done || ll).
  rewrite (get_le_field _ 1 4 8 FORMAT_VERSION) by (done || ll).
  rewrite (get_le_field _ 2 4 12 LIMITS_PROFILE_VERSION) by (done || ll).
  rewrite (get_le_field _ 3 8 16 g) by (done || ll).
  rewrite (get_le_field _ 4 8 24 s) by (done || ll).
  rewrite !mjoin_cons, !length_app, Hc. cbn [length Nat.add].
  rewrite (proj2 (Z.ltb_ge _ _)) by done. done.
Qed.

(** Decoding a well-formed frame decodes its payload. *)
Lemma decode_frame g s payload : u64 g -> u64 s -> Forall byte payload ->
  byteLength payload <= MAX_FRAME_PAYLOAD_BYTES ->
  decodeTxnFrame (frame_bytes g s payload) = (record ← decodeTxnRecord payload; Ok (mkFrame g s record)).
Proof.
  intros Hg Hs Hb Hl. unfold decodeTxnFrame, frame_bytes.
  rewrite frame_fields_length by apply length_le_bytes.
  rewrite (proj2 (Nat.ltb_ge _ _)) by lia. cbn [throw_if mbind result_bind].
  rewrite inspect_frame by (done || apply length_le_bytes). cbn [mbind result_bind fh_frameBytes fh_generation fh_sequence].
  unfold byteLength at 1. rewrite frame_fields_length, Nat2Z.inj_add by apply length_le_bytes.
  fold (byteLength payload). rewrite Z.eqb_refl. cbn [negb throw_if mbind result_bind].
  rewrite (sealed_checksum (frame_fields g s payload (replicate 4 0)) 7) by
    (done || (by apply frame_fields_byte) || (rewrite frame_fields_length by done; unfold byteLength in Hl; cbn; ll)).
  cbn [mbind result_bind]. rewrite (drop_fields _ 9) by (cbn [frame_fields take]; rewrite !mjoin_cons, !length_app, length_le_bytes; done).
  cbn [frame_fields drop]. by rewrite mjoin_cons, app_nil_r.
Qed.

Lemma decode_frame_throws g s payload e : u64 g -> u64 s -> Forall byte payload ->
  byteLength payload <= MAX_FRAME_PAYLOAD_BYTES -> decodeTxnRecord payload = Throw e ->
  decodeTxnFrame (frame_bytes g s payload) = Throw e.
Proof. intros Hg Hs Hb Hl Hd. by rewrite decode_frame, Hd. Qed.

(** ** Errors of the decoder *)

(** Reader programs that throw nothing but [CorruptStoreError]. *)
Definition corrupt_only {A} (m : Rd A) : Prop := forall l e, (m l).2 = Throw e -> e = CorruptStoreError.

Lemma corrupt_bind {A B} (m : Rd A) (k : A -> Rd B) :
  corrupt_only m -> (forall a, corrupt_only (k a)) -> corrupt_only (m ≫= k).
Proof.
  intros Hm Hk l e. unfold mbind, ST_bind. destruct (m l) as [l' [a|e']] eqn:E; [apply Hk|].
  cbn. intros [= ->]. apply (Hm l e). by rewrite E.
Qed.

Lemma corrupt_ret {A} (v : A) : corrupt_only (mret v).
Proof. done. Qed.
Lemma corrupt_get : corrupt_only st_get.
Proof. done. Qed.
Lemma corrupt_modify f : corrupt_only (st_modify f).
Proof. done. Qed.
Lemma corrupt_throw_if b : corrupt_only (st_lift (throw_if b CorruptStoreError)).
Proof. intros l e. destruct b; cbn; congruence. Qed.
Lemma corrupt_throw {A} : corrupt_only (st_lift (Throw CorruptStoreError) : Rd A).
Proof. intros l e. cbn. congruence. Qed.
Lemma corrupt_or_throw {A} (o : option A) : corrupt_only (st_lift (or_throw o CorruptStoreError)).
Proof. intros l e. destruct o; cbn; congruence. Qed.
Lemma corrupt_rethrow {A} (m : R A) : corrupt_only (st_lift (rethrow_as CorruptStoreError m)).
Proof. intros l e. destruct m; cbn; congruence. Qed.

Create HintDb corrupt.
#[export] Hint Resolve corrupt_ret corrupt_get corrupt_modify corrupt_throw_if corrupt_throw corrupt_or_throw
  corrupt_rethrow : corrupt.

(** Walk over a reader program. *)
Ltac corrupt :=
  repeat first
    [ solve [eauto 2 with corrupt]
    | apply corrupt_bind; [|intros]
    | match goal with |- context [match ?x with _ => _ end] => destruct x end ].

Lemma corrupt_raw n : corrupt_only (r_raw n).
Proof. unfold r_raw, r_require. corrupt. Qed.
#[export] Hint Resolve corrupt_raw : corrupt.

Lemma corrupt_unsigned n : corrupt_only (r_unsigned n).
Proof. unfold r_unsigned. corrupt. Qed.
#[export] Hint Resolve corrupt_unsigned : corrupt.
#[export] Hint Extern 1 (corrupt_only r_u8) => apply corrupt_unsigned : corrupt.
#[export] Hint Extern 1 (corrupt_only r_u16) => apply corrupt_unsigned : corrupt.
#[export] Hint Extern 1 (corrupt_only r_u32) => apply corrupt_unsigned : corrupt.
#[export] Hint Extern 1 (corrupt_only r_u64) => apply corrupt_unsigned : corrupt.

Lemma corrupt_text m v : corrupt_only (r_text m v).
Proof. unfold r_text. corrupt. Qed.
#[export] Hint Extern 1 (corrupt_only r_string) => apply corrupt_text : corrupt.
#[export] Hint Extern 1 (corrupt_only r_symlinkTarget) => apply corrupt_text : corrupt.

Lemma corrupt_end : corrupt_only r_end.
Proof. unfold r_end. corrupt. Qed.
Lemma corrupt_count m : corrupt_only (readBoundedCount m).
Proof. unfold readBoundedCount. corrupt. Qed.
#[export] Hint Resolve corrupt_end corrupt_count : corrupt.

Lemma corrupt_repeat {A} n (rd : Rd A) : corrupt_only rd -> corrupt_only (r_repeat n rd).
Proof. intros H. induction n as [|n IH]; cbn [r_repeat]; [done|]. corrupt. Qed.

Lemma corrupt_runs n c : corrupt_only (readRuns n c).
Proof. revert c. induction n as [|n IH]; intros c; cbn [readRuns]; [done|]. corrupt. Qed.
Lemma corrupt_extentRuns : corrupt_only readExtentRuns.
Proof. unfold readExtentRuns. pose proof corrupt_runs. corrupt. Qed.
#[export] Hint Resolve corrupt_runs corrupt_extentRuns : corrupt.

Lemma corrupt_entry : corrupt_only readDirectoryEntry.
Proof. unfold readDirectoryEntry. corrupt. Qed.
#[export] Hint Resolve corrupt_repeat corrupt_entry : corrupt.

Lemma corrupt_record type : corrupt_only (readTxnRecord type).
Proof. unfold readTxnRecord. corrupt. Qed.
#[export] Hint Resolve corrupt_record : corrupt.

Lemma decodeTxnRecord_error bytes e : decodeTxnRecord bytes = Throw e -> e = CorruptStoreError.
Proof. unfold decodeTxnRecord, r_run. eapply (_ : corrupt_only _). Unshelve. corrupt. Qed.

Lemma throw_corrupt b e : throw_if b CorruptStoreError = Throw e -> e = CorruptStoreError.
Proof. by intros [_ ->]%throw_if_Throw. Qed.

Lemma inspect_error h e : inspectTxnFrameHeader h = Throw e -> e = CorruptStoreError.
Proof.
  unfold inspectTxnFrameHeader, requireMagic, requireZero. intros H.
  repeat (apply bind_Throw in H as [H|(? & _ & H)]; [by apply throw_corrupt in H|]). done.
Qed.
