(* ===== verification/Frames.v ===== *)
(** * Transaction frames: the properties *)

From S2P Require Export FrameLaws.

Lemma txnFrameBytes_Ok record n : record_ok record -> txnFrameBytes record = Ok n ->
  1 + body_bytes record <= MAX_FRAME_PAYLOAD_BYTES /\ n = Z.of_nat TXN_FRAME_HEADER_BYTES + (1 + body_bytes record).
Proof.
  intros H Hn. unfold txnFrameBytes in Hn. rewrite (estimate_total record H) in Hn.
  apply bind_Ok in Hn as (p & [= <-] & Hn). apply bind_Ok in Hn as (u & Hp%throw_if_Ok & [= <-]). propify. done.
Qed.

(** What encoding a frame gives. *)
Lemma encodeTxnFrame_run g s record n : record_ok record -> u64 g -> u64 s -> txnFrameBytes record = Ok n ->
  exists payload, encodeTxnFrame (mkFrame g s record) = Ok (frame_bytes g s payload) /\
    Forall byte payload /\ byteLength payload <= MAX_FRAME_PAYLOAD_BYTES /\
    n = byteLength (frame_bytes g s payload) /\ decodeTxnRecord payload = Ok record.
Proof.
  intros H Hg Hs [Hm ->]%txnFrameBytes_Ok; [|done].
  destruct (encodeTxnRecord_decodes record H) as (payload & He & Hl & Hf & Hd); [ll|].
  exists payload. split; [apply encodeTxnFrame_layout; done || lia|]. split; [done|]. split; [lia|]. split; [|done].
  unfold frame_bytes, byteLength. rewrite frame_fields_length by apply length_le_bytes. unfold byteLength in Hl. lia.
Qed.

(** A transaction frame survives encoding: every frame whose record fits the wire format encodes
    to exactly the [txnFrameBytes] bytes the store reserved for it, and decoding gives the frame
    back. *)
Theorem frame_roundtrip (frame : TxnFrame) (n : Z)
  (Hrecord : record_ok (frame_record frame)) (Hgeneration : u64 (frame_generation frame))
  (Hsequence : u64 (frame_sequence frame)) (Hsize : txnFrameBytes (frame_record frame) = Ok n) :
  exists bytes, encodeTxnFrame frame = Ok bytes /\ Forall byte bytes /\ byteLength bytes = n /\
    decodeTxnFrame bytes = Ok frame.
Proof.
  destruct frame as [g s record]. cbn in *.
  destruct (encodeTxnFrame_run g s record n Hrecord Hgeneration Hsequence Hsize) as (payload & He & Hf & Hl & -> & Hd).
  exists (frame_bytes g s payload). split; [done|]. split; [|split; [done|by rewrite decode_frame, Hd]].
  unfold frame_bytes, frame_fields. rewrite !mjoin_cons.
  pose proof (frame_fields_byte g s payload Hf) as Hb. unfold frame_fields in Hb. rewrite !mjoin_cons in Hb.
  repeat (apply Forall_app in Hb as [? Hb]). repeat (apply Forall_app; split); try done. apply le_bytes_byte.
Qed.

(** The record of the witnesses: a file in a directory, with a name outside ASCII. *)
Definition example_frame : TxnFrame :=
  mkFrame 3 7 (CreateFile 1 [233; 8364] 2 420 5 6 7 9000 [mkRun 0 1; mkRun 4 1]).

Lemma example_name_ok : name_ok [233; 8364].
Proof.
  split; [exists 5; reflexivity|]. split; [|discriminate].
  repeat (apply Forall_cons; split; [split; discriminate|]). apply Forall_nil_2.
Qed.

Lemma example_frame_ok : record_ok (frame_record example_frame).
Proof.
  assert (H : forall v, 0 <= v <= 10000 -> u64 v) by (intros v Hv; ll).
  cbn [frame_record example_frame record_ok]. split; [apply H; lia|]. split; [apply example_name_ok|].
  split; [apply H; lia|]. split; [unfold u32_ok; lia|]. do 4 (split; [apply H; lia|]).
  split; [|vm_compute; discriminate].
  repeat (apply Forall_cons; split; [split; [apply H; cbn; lia|cbn; lia]|]). apply Forall_nil_2.
Qed.

Lemma frame_roundtrip_witness :
  exists bytes, encodeTxnFrame example_frame = Ok bytes /\ Forall byte bytes /\ byteLength bytes = 136 /\
    decodeTxnFrame bytes = Ok example_frame.
Proof.
  apply (frame_roundtrip example_frame 136);
    [exact example_frame_ok|split; discriminate|split; discriminate|vm_compute; reflexivity].
Defined.

(** ** Damaged frames *)

(** Decoding anything throws nothing but [CorruptStoreError]. *)
Lemma decodeTxnFrame_error bytes e : Forall byte bytes -> Z.of_nat (length bytes) <= MAX_SAFE_INTEGER ->
  decodeTxnFrame bytes = Throw e -> e = CorruptStoreError.
Proof.
  intros Hb Hl H. unfold decodeTxnFrame in H.
  apply bind_Throw in H as [H|(u & Hlen%throw_if_Ok & H)]; [by apply throw_corrupt in H|].
  apply bind_Throw in H as [H|(h & _ & H)]; [by apply inspect_error in H|].
  apply bind_Throw in H as [H|(u2 & _ & H)]; [by apply throw_corrupt in H|].
  apply Nat.ltb_ge in Hlen. rewrite requireChecksum_spec in H by (done || (unfold TXN_FRAME_HEADER_BYTES, FRAME_CHECKSUM_OFFSET in *; lia)).
  apply bind_Throw in H as [H|(u3 & _ & H)]; [by apply throw_corrupt in H|].
  apply bind_Throw in H as [H|(r & _ & H)]; [by apply decodeTxnRecord_error in H|]. done.
Qed.

(** A frame decodes only at the length its header states, with a matching checksum. *)
Lemma decodeTxnFrame_Ok_inv bytes frame : decodeTxnFrame bytes = Ok frame ->
  (exists h, inspectTxnFrameHeader (take TXN_FRAME_HEADER_BYTES bytes) = Ok h /\ byteLength bytes = fh_frameBytes h) /\
  requireChecksum bytes FRAME_CHECKSUM_OFFSET = Ok tt.
Proof.
  unfold decodeTxnFrame. intros H. apply bind_Ok in H as (u & _ & H). apply bind_Ok in H as (h & Hh & H).
  apply bind_Ok in H as (u1 & Hl%throw_if_Ok & H). apply bind_Ok in H as ([] & Hc & H). propify.
  split; [by exists h|done].
Qed.

(** Rejecting and throwing [CorruptStoreError] are the same. *)
Lemma decodeTxnFrame_rejects bytes : Forall byte bytes -> Z.of_nat (length bytes) <= MAX_SAFE_INTEGER ->
  (forall frame, decodeTxnFrame bytes <> Ok frame) -> decodeTxnFrame bytes = Throw CorruptStoreError.
Proof.
  intros Hb Hl Hno. destruct (decodeTxnFrame bytes) as [frame|e] eqn:E; [by destruct (Hno frame)|].
  by apply decodeTxnFrame_error in E as ->.
Qed.

(** No single-byte change of a valid frame goes unnoticed: replacing any byte of bytes that decode
    to a frame, in the header, the payload or the checksum itself, makes decoding throw
    [CorruptStoreError]. *)
Theorem frame_corruption_detected (bytes : list Z) (frame : TxnFrame) (i : nat) (old new : Z)
  (Hbytes : Forall byte bytes) (Hsafe : Z.of_nat (length bytes) <= MAX_SAFE_INTEGER)
  (Hdecodes : decodeTxnFrame bytes = Ok frame)
  (Hold : bytes !! i = Some old) (Hnew : byte new) (Hchanged : new <> old) :
  decodeTxnFrame (<[i := new]> bytes) = Throw CorruptStoreError.
Proof.
  destruct (decodeTxnFrame_Ok_inv bytes frame Hdecodes) as [(h & Hh & Hlen) Hc].
  apply decodeTxnFrame_rejects; [by apply Forall_insert|by rewrite length_insert|].
  intros frame' [_ Hc']%decodeTxnFrame_Ok_inv.
  rewrite (requireChecksum_corrupt bytes FRAME_CHECKSUM_OFFSET i old new) in Hc'; try done.
  unfold byteLength in Hlen. unfold decodeTxnFrame in Hdecodes.
  apply bind_Ok in Hdecodes as (u & Hd%throw_if_Ok & _). apply Nat.ltb_ge in Hd.
  unfold TXN_FRAME_HEADER_BYTES, FRAME_CHECKSUM_OFFSET in *. lia.
Qed.

Lemma frame_corruption_detected_witness :
  decodeTxnFrame (<[60%nat := 255]> (from_ok [] (encodeTxnFrame example_frame))) = Throw CorruptStoreError.
Proof.
  apply (frame_corruption_detected (from_ok [] (encodeTxnFrame example_frame)) example_frame 60 169 255).
  - apply bytes_check. vm_compute. reflexivity.
  - vm_compute. discriminate.
  - vm_compute. reflexivity.
  - vm_compute. reflexivity.
  - split; discriminate.
  - discriminate.
Defined.

(** A frame that was cut short or has trailing bytes does not decode: a torn write at the end of
    the log is never mistaken for a committed transaction. *)
Theorem frame_length_detected (bytes bytes' : list Z) (frame : TxnFrame)
  (Hbytes : Forall byte bytes') (Hsafe : Z.of_nat (length bytes') <= MAX_SAFE_INTEGER)
  (Hdecodes : decodeTxnFrame bytes = Ok frame)
  (Htorn : bytes' `prefix_of` bytes \/ bytes `prefix_of` bytes') (Hchanged : bytes' <> bytes) :
  decodeTxnFrame bytes' = Throw CorruptStoreError.
Proof.
  apply decodeTxnFrame_rejects; [done..|]. intros frame' H'.
  assert (Hl : forall b f, decodeTxnFrame b = Ok f -> (TXN_FRAME_HEADER_BYTES <= length b)%nat).
  { intros b f H. unfold decodeTxnFrame in H. apply bind_Ok in H as (u & Hd%throw_if_Ok & _). by apply Nat.ltb_ge in Hd. }
  assert (Hp : forall a b : list Z, a `prefix_of` b -> (TXN_FRAME_HEADER_BYTES <= length a)%nat ->
    take TXN_FRAME_HEADER_BYTES b = take TXN_FRAME_HEADER_BYTES a) by (intros a b [k ->] Ha; by rewrite take_app_le).
  pose proof (Hl _ _ Hdecodes) as L1. pose proof (Hl _ _ H') as L2.
  destruct (decodeTxnFrame_Ok_inv _ _ Hdecodes) as [(h & Hh & Hlen) _].
  destruct (decodeTxnFrame_Ok_inv _ _ H') as [(h' & Hh' & Hlen') _].
  assert (Hsame : length bytes' = length bytes).
  { assert (h' = h) as ->; [|unfold byteLength in *; lia].
    destruct Htorn as [Ht|Ht]; [rewrite (Hp _ _ Ht L2) in Hh|rewrite (Hp _ _ Ht L1) in Hh']; congruence. }
  apply Hchanged. destruct Htorn as [[k ->]|[k ->]]; rewrite length_app in Hsame;
    (destruct k; [by rewrite app_nil_r|cbn in Hsame; lia]).
Qed.

Lemma frame_length_detected_witness :
  decodeTxnFrame (take 100 (from_ok [] (encodeTxnFrame example_frame))) = Throw CorruptStoreError.
Proof.
  apply (frame_length_detected (from_ok [] (encodeTxnFrame example_frame)) _ example_frame).
  - apply bytes_check. vm_compute. reflexivity.
  - vm_compute. discriminate.
  - vm_compute. reflexivity.
  - left. exists (drop 100 (from_ok [] (encodeTxnFrame example_frame))). by rewrite take_drop.
  - intros H. apply (f_equal length) in H. vm_compute in H. discriminate.
Defined.

(** ** Names that start with a byte order mark *)

(** The writer half of [codec_string] needs no condition on the first character. *)
Lemma writes_string s : component_ok s -> js_string s ->
  writes (w_string s) (le_bytes 2 (ulen s) ++ utf8_encode s) /\ ulen s = byteLength (utf8_encode s) /\
  0 < ulen s <= MAX_COMPONENT_BYTES /\ well_formed s.
Proof.
  intros [n Hn] Hs. pose proof (component_ulen s n Hn) as <-.
  destruct (validatePathComponent_inv s n Hn) as (Hl & Hne & Hm).
  pose proof (utf8Length_encode s n Hs Hl) as Hlen. pose proof (utf8Length_pos s n Hs Hne Hl).
  split; [|split; [done|split; [lia|by exists n]]]. eapply writes_lift; [exact Hn|].
  unfold w_validatedString, byteLength. rewrite <- Hlen.
  apply writes_bind; [apply writes_unsigned; ll|apply writes_raw].
Qed.

(** The decoder drops the mark, so the length check of [string] fails. *)
Lemma r_string_bom s rest : component_ok s -> js_string s -> head s = Some BOM ->
  (r_string (le_bytes 2 (ulen s) ++ utf8_encode s ++ rest)).2 = Throw CorruptStoreError.
Proof.
  intros Hc Hs Hb. destruct (writes_string s Hc Hs) as (_ & Hl & Hr & Hw).
  destruct (utf8_encode_decodes s Hs Hw) as [Hd _]. destruct s as [|c u]; [done|]. injection Hb as ->.
  assert (H2 : reads r_u16 (le_bytes 2 (ulen (BOM :: u))) (ulen (BOM :: u))) by (apply reads_unsigned; ll).
  assert (H3 : reads (r_raw (ulen (BOM :: u))) (utf8_encode (BOM :: u)) (utf8_encode (BOM :: u))) by (apply reads_raw; [done|ll]).
  unfold r_string, r_text. rewrite (st_bind_run _ _ _ _ _ (H2 _)).
  rewrite st_bind_lift, (proj2 (Z.eqb_neq _ 0)), (proj2 (Z.ltb_ge _ _)) by lia. cbn [orb throw_if].
  rewrite (st_bind_run _ _ _ _ _ (H3 _)).
  rewrite st_bind_lift. unfold utf8_decode. rewrite Hd, Z.eqb_refl. cbn [or_throw]. rewrite st_bind_lift.
  replace (byteLength (utf8_encode u) =? ulen (BOM :: u)) with false; [done|].
  symmetry. apply Z.eqb_neq. rewrite Hl, encode_3 by (unfold BOM; lia). rewrite byteLength_app. unfold byteLength. cbn. lia.
Qed.

(** The codec does not carry every name the store accepts. A name that starts with U+FEFF passes
    [validatePathComponent], and creating a file under that name encodes to a frame without error;
    but the frame never decodes, because the text decoder drops the mark and the length check
    fails. Replaying the log takes that frame for a torn tail: the committed transaction and every
    one logged after it are discarded when the store is reopened. *)
Theorem bom_name_not_decodable (g s parentId inodeId mode atime mtime ctime : Z) (name : jsstr)
  (Hname : component_ok name) (Hunits : js_string name) (Hbom : head name = Some BOM)
  (Hg : u64 g) (Hs : u64 s) (Hp : u64 parentId) (Hi : u64 inodeId) (Hm : u32_ok mode)
  (Ha : u64 atime) (Ht : u64 mtime) (Hc : u64 ctime) :
  exists bytes, encodeTxnFrame (mkFrame g s (CreateFile parentId name inodeId mode atime mtime ctime 0 [])) = Ok bytes /\
    decodeTxnFrame bytes = Throw CorruptStoreError.
Proof.
  set (record := CreateFile parentId name inodeId mode atime mtime ctime 0 []).
  destruct (writes_string name Hname Hunits) as (Hw & Hl & Hr & Hwf).
  assert (Htail : codec (w_u64 inodeId ≫= fun _ => w_u32 mode ≫= fun _ => w_u64 atime ≫= fun _ => w_u64 mtime ≫= fun _ =>
      w_u64 ctime ≫= fun _ => w_u64 0 ≫= fun _ => writeExtentRuns [])
    (a ← r_u64; b ← r_u32; c ← r_u64; d ← r_u64; e ← r_u64; f ← r_u64; runs ← readExtentRuns; mret runs) [] 48).
  { assert (u64 0) by ll. assert (runs_ok []) by (split; [constructor|done]). eapply codec_eq; [fields|done]. }
  destruct Htail as (tail & Htw & _ & Htl & Htb).
  set (payload := le_bytes 1 2 ++ le_bytes 8 parentId ++ (le_bytes 2 (ulen name) ++ utf8_encode name) ++ tail).
  assert (Hpl : byteLength payload = 59 + ulen name).
  { unfold payload. rewrite !byteLength_app, !byteLength_le_bytes, <- Hl. lia. }
  assert (Hpb : Forall byte payload).
  { unfold payload. pose proof (proj2 (utf8_encode_decodes name Hunits Hwf)).
    repeat (apply Forall_app; split); auto using le_bytes_byte. }
  assert (He : encodeTxnRecord record = Ok payload).
  { unfold encodeTxnRecord. cbn [estimateTxnPayloadBytes record]. rewrite (ulen_total name Hname). cbn [mbind result_bind].
    apply w_run_writes; [|unfold extentRunsPayloadBytes; cbn [length]; lia|unfold extentRunsPayloadBytes; cbn [length]; ll].
    unfold writeTxnRecord, record, payload.
    apply writes_bind; [apply writes_unsigned; ll|]. apply writes_bind; [by apply writes_u64|]. by apply writes_bind. }
  exists (frame_bytes g s payload). split; [apply encodeTxnFrame_layout; first [done|rewrite Hpl; ll]|].
  assert (Hd : decodeTxnRecord payload = Throw CorruptStoreError).
  { apply (throws_later _ _ _ _ 2); [apply reads_unsigned; ll|]. apply throws_here.
    apply (throws_later _ _ _ _ parentId); [apply reads_unsigned; ll|]. apply throws_here.
    rewrite <- app_assoc. by apply r_string_bom. }
  apply decode_frame_throws; [done|done|done|rewrite Hpl; ll|done].
Qed.

Definition bom_name : jsstr := [BOM; 97].

Lemma bom_name_not_decodable_witness :
  exists bytes, encodeTxnFrame (mkFrame 1 1 (CreateFile 1 bom_name 2 420 0 0 0 0 [])) = Ok bytes /\
    decodeTxnFrame bytes = Throw CorruptStoreError.
Proof.
  apply (bom_name_not_decodable 1 1 1 2 420 0 0 0 bom_name).
  - exists 4. reflexivity.
  - apply Forall_cons. split; [split; discriminate|]. apply Forall_cons. split; [split; discriminate|]. apply Forall_nil_2.
  - reflexivity.
  - split; discriminate.
  - split; discriminate.
  - split; discriminate.
  - split; discriminate.
  - split; discriminate.
  - split; discriminate.
  - split; discriminate.
  - split; discriminate.
Defined.
