(* ===== verification/Slots.v ===== *)
(** * Arena header and activation slots

    The fixed-size headers of [packages/pgwasm/src/opfs/core/codec.ts]: the arena header, the
    activation slots and the choice between two slots. *)

From S2P Require Export Bytes CodecLaws.

(** ** Arena header *)

Record ArenaHeader : Type := mkArenaHeader {
  ah_extentSize : Z;
  ah_limitsProfileVersion : Z;
  ah_formatVersion : Z
}.

Definition encodeArenaHeader (extentSize : Z) : R (list Z) :=
  extentSize ← validateExtentSize extentSize;
  let bytes := replicate (Z.to_nat ARENA_HEADER_BYTES) 0 in
  let bytes := set_bytes 0 ARENA_MAGIC bytes in
  let bytes := set_le 4 8 FORMAT_VERSION bytes in
  let bytes := set_le 4 12 LIMITS_PROFILE_VERSION bytes in
  let bytes := set_le 4 16 extentSize bytes in
  sealChecksum ARENA_HEADER_CHECKSUM_OFFSET bytes.

Definition decodeArenaHeader (bytes : list Z) (configuredExtentSize : option Z) : R ArenaHeader :=
  match configuredExtentSize with
  | None => Ok tt
  | Some configured => validateExtentSize configured ≫= fun _ => Ok tt
  end ≫= fun _ =>
  throw_if (negb (byteLength bytes =? ARENA_HEADER_BYTES)) CorruptStoreError ≫= fun _ =>
  requireMagic bytes ARENA_MAGIC ≫= fun _ =>
  requireZero bytes 20 24 ≫= fun _ =>
  requireZero bytes 28 (length bytes) ≫= fun _ =>
  requireChecksum bytes ARENA_HEADER_CHECKSUM_OFFSET ≫= fun _ =>
  let formatVersion := get_le 4 bytes 8 in
  let limitsProfileVersion := get_le 4 bytes 12 in
  requireCurrentIdentity formatVersion limitsProfileVersion ≫= fun _ =>
  let extentSize := get_le 4 bytes 16 in
  rethrow_as CorruptStoreError (validateExtentSize extentSize) ≫= fun _ =>
  match configuredExtentSize with
  | Some configured =>
      throw_if (negb (configured =? extentSize)) (ExtentSizeMismatchError configured extentSize)
  | None => Ok tt
  end ≫= fun _ =>
  Ok (mkArenaHeader extentSize limitsProfileVersion formatVersion).

(** ** Activation slots *)

Definition metadataFileCode (file : MetadataFile) : Z := match file with MetaA => 0 | MetaB => 1 end.

Definition decodeMetadataFile (value : Z) : R MetadataFile :=
  if value =? 0 then Ok MetaA
  else if value =? 1 then Ok MetaB
  else Throw CorruptStoreError.

Record ActivationRecord : Type := mkActivation {
  act_sequence : Z;
  act_metadataFile : MetadataFile;
  act_generation : Z;
  act_baseEnd : Z;
  act_baseDigest : Z
}.

#[global] Instance ActivationRecord_eq_dec : EqDecision ActivationRecord.
Proof. solve_decision. Defined.

Definition encodeActivationSlot (record : ActivationRecord) : R (list Z) :=
  throw_if ((act_sequence record =? 0) || (act_generation record =? 0)
            || (act_baseEnd record <? Z.of_nat METADATA_HEADER_BYTES)) StoreLimitError ≫= fun _ =>
  let bytes := replicate ACTIVATION_SLOT_BYTES 0 in
  let bytes := set_bytes 0 ACTIVATION_MAGIC bytes in
  let bytes := set_le 4 8 FORMAT_VERSION bytes in
  let bytes := set_le 4 12 LIMITS_PROFILE_VERSION bytes in
  sequence ← checkedU64 (act_sequence record);
  let bytes := set_le 8 16 sequence bytes in
  let bytes := set_le 1 24 (metadataFileCode (act_metadataFile record)) bytes in
  generation ← checkedU64 (act_generation record);
  let bytes := set_le 8 32 generation bytes in
  baseEnd ← checkedU64 (act_baseEnd record);
  let bytes := set_le 8 40 baseEnd bytes in
  throw_if (negb (isSafeInteger (act_baseDigest record)) || (act_baseDigest record <? 0)
            || (0xffffffff <? act_baseDigest record)) StoreLimitError ≫= fun _ =>
  let bytes := set_le 4 48 (act_baseDigest record) bytes in
  sealChecksum ACTIVATION_CHECKSUM_OFFSET bytes.

Definition decodeActivationSlot (bytes : list Z) : R ActivationRecord :=
  throw_if (negb (Nat.eqb (length bytes) ACTIVATION_SLOT_BYTES)) CorruptStoreError ≫= fun _ =>
  requireMagic bytes ACTIVATION_MAGIC ≫= fun _ =>
  requireZero bytes 25 32 ≫= fun _ =>
  requireZero bytes 56 (length bytes) ≫= fun _ =>
  requireChecksum bytes ACTIVATION_CHECKSUM_OFFSET ≫= fun _ =>
  requireCurrentIdentity (get_le 4 bytes 8) (get_le 4 bytes 12) ≫= fun _ =>
  let sequence := get_le 8 bytes 16 in
  let generation := get_le 8 bytes 32 in
  let baseEnd := get_le 8 bytes 40 in
  throw_if ((sequence =? 0) || (generation =? 0) || (baseEnd <? Z.of_nat METADATA_HEADER_BYTES))
    CorruptStoreError ≫= fun _ =>
  metadataFile ← decodeMetadataFile (get_le 1 bytes 24);
  Ok (mkActivation sequence metadataFile generation baseEnd (get_le 4 bytes 48)).

Definition tryDecodeActivationSlot (bytes : list Z) : R (option ActivationRecord) :=
  match decodeActivationSlot bytes with
  | Ok record => Ok (Some record)
  | Throw CorruptStoreError => Ok None
  | Throw cause => Throw cause
  end.

Record ActivationPairSelection : Type := mkSelection {
  selected : ActivationRecord;
  sel_other : option ActivationRecord
}.

Definition selectActivationPair (leftBytes rightBytes : list Z) : R ActivationPairSelection :=
  l ← tryDecodeActivationSlot leftBytes;
  r ← tryDecodeActivationSlot rightBytes;
  match l, r with
  | None, None => Throw CorruptStoreError
  | None, Some r => Ok (mkSelection r None)
  | Some l, None => Ok (mkSelection l None)
  | Some l, Some r =>
      let '(older, newer) := if act_sequence l <? act_sequence r then (l, r) else (r, l) in
      throw_if (negb (act_sequence newer =? act_sequence older + 1)
                || bool_decide (act_metadataFile newer = act_metadataFile older)) CorruptStoreError ≫= fun _ =>
      Ok (mkSelection newer (Some older))
  end.

Definition selectActivation (leftBytes rightBytes : list Z) : R ActivationRecord :=
  pair ← selectActivationPair leftBytes rightBytes; Ok (selected pair).

Definition metadataBaseDigest (bytes : list Z) : Z := crc32 bytes.

(** ** Arena header and activation slots: the properties *)

Lemma zeros_byte n : Forall byte (replicate n 0).
Proof. apply Forall_replicate. unfold byte. lia. Qed.

(** The bytes of a layout, field by field. *)
Ltac layout_bytes :=
  rewrite ?mjoin_cons; repeat (apply Forall_app; split);
  first [apply le_bytes_byte | apply zeros_byte | apply bytes_check; reflexivity | apply Forall_nil_2 | idtac].

(** ** Activation slots *)

Definition slot_ok (r : ActivationRecord) : Prop :=
  0 < act_sequence r <= MAX_U64 /\ 0 < act_generation r <= MAX_U64 /\
  Z.of_nat METADATA_HEADER_BYTES <= act_baseEnd r <= MAX_U64 /\ 0 <= act_baseDigest r <= 0xffffffff.

Definition slot_fields (r : ActivationRecord) (checksum : list Z) : list (list Z) :=
  [ACTIVATION_MAGIC; le_bytes 4 FORMAT_VERSION; le_bytes 4 LIMITS_PROFILE_VERSION; le_bytes 8 (act_sequence r);
   le_bytes 1 (metadataFileCode (act_metadataFile r)); replicate 7 0; le_bytes 8 (act_generation r);
   le_bytes 8 (act_baseEnd r); le_bytes 4 (act_baseDigest r); checksum; replicate 72 0].

Definition slot_bytes (r : ActivationRecord) : list Z :=
  mjoin (slot_fields r (le_bytes 4 (crc_reference (mjoin (slot_fields r (replicate 4 0)))))).

Lemma slot_fields_byte r : Forall byte (mjoin (slot_fields r (replicate 4 0))).
Proof. unfold slot_fields. layout_bytes. Qed.

Lemma slot_fields_length r c : length c = 4%nat -> length (mjoin (slot_fields r c)) = ACTIVATION_SLOT_BYTES.
Proof. intros Hc. unfold slot_fields. rewrite !mjoin_cons, !length_app, !length_le_bytes, !length_replicate, Hc. done. Qed.

Lemma slot_bytes_length r : length (slot_bytes r) = ACTIVATION_SLOT_BYTES.
Proof. apply slot_fields_length, length_le_bytes. Qed.

Lemma slot_bytes_byte r : Forall byte (slot_bytes r).
Proof. unfold slot_bytes, slot_fields. layout_bytes. Qed.

Lemma encodeActivationSlot_Ok r : slot_ok r -> encodeActivationSlot r = Ok (slot_bytes r).
Proof.
  intros (Hs & Hg & He & Hd). unfold encodeActivationSlot.
  rewrite (proj2 (Z.eqb_neq (act_sequence r) 0)), (proj2 (Z.eqb_neq (act_generation r) 0)), (proj2 (Z.ltb_ge (act_baseEnd r) _)) by lia.
  assert (0 <= act_baseEnd r) by lia.
  rewrite !checkedU64_id by (unfold u64; lia). cbn [orb throw_if mbind result_bind].
  unfold isSafeInteger. rewrite (proj2 (Z.leb_le _ _)), (proj2 (Z.ltb_ge (act_baseDigest r) 0)), (proj2 (Z.ltb_ge _ (act_baseDigest r))) by ll.
  cbn [negb orb throw_if mbind result_bind].
  change (replicate ACTIVATION_SLOT_BYTES 0) with (mjoin [replicate 8 0; replicate 4 0; replicate 4 0; replicate 8 0;
    replicate 1 0; replicate 7 0; replicate 8 0; replicate 8 0; replicate 4 0; replicate 4 0; replicate 72 0]).
  unfold set_le.
  rewrite (set_field _ 0 _ 0) by done. cbn [insert list_insert].
  rewrite (set_field _ 1 _ 8) by done. cbn [insert list_insert].
  rewrite (set_field _ 2 _ 12) by done. cbn [insert list_insert].
  rewrite (set_field _ 3 _ 16) by done. cbn [insert list_insert].
  rewrite (set_field _ 4 _ 24) by done. cbn [insert list_insert].
  rewrite (set_field _ 6 _ 32) by done. cbn [insert list_insert].
  rewrite (set_field _ 7 _ 40) by done. cbn [insert list_insert].
  rewrite (set_field _ 8 _ 48) by done. cbn [insert list_insert].
  change (sealChecksum ACTIVATION_CHECKSUM_OFFSET (mjoin (slot_fields r (replicate 4 0))) = Ok (slot_bytes r)).
  rewrite (sealChecksum_field _ 9) by (done || apply slot_fields_byte || (rewrite slot_fields_length by done; vm_compute; discriminate)).
  done.
Qed.

Lemma slot_bytes_sealed r : requireChecksum (slot_bytes r) ACTIVATION_CHECKSUM_OFFSET = Ok tt.
Proof.
  apply (sealed_checksum (slot_fields r (replicate 4 0)) 9);
    [done|done|apply slot_fields_byte|rewrite slot_fields_length by done; vm_compute; discriminate].
Qed.

Lemma decode_slot_bytes r : slot_ok r -> decodeActivationSlot (slot_bytes r) = Ok r.
Proof.
  intros (Hs & Hg & He & Hd). assert (0 <= act_baseEnd r) by lia. unfold decodeActivationSlot.
  rewrite slot_bytes_length, slot_bytes_sealed, Nat.eqb_refl. cbn [negb throw_if mbind result_bind].
  unfold slot_bytes. set (c := crc_reference _). set (fields := slot_fields r (le_bytes 4 c)).
  rewrite (requireMagic_field fields ACTIVATION_MAGIC) by done. cbn [mbind result_bind].
  rewrite (requireZero_field fields 5 7 25 32) by done. cbn [mbind result_bind].
  rewrite (requireZero_field fields 10 72 56 ACTIVATION_SLOT_BYTES) by done. cbn [mbind result_bind].
  rewrite (get_le_field fields 1 4 8 FORMAT_VERSION) by (done || ll).
  rewrite (get_le_field fields 2 4 12 LIMITS_PROFILE_VERSION) by (done || ll).
  rewrite (get_le_field fields 3 8 16 (act_sequence r)) by (done || ll).
  rewrite (get_le_field fields 6 8 32 (act_generation r)) by (done || ll).
  rewrite (get_le_field fields 7 8 40 (act_baseEnd r)) by (done || ll).
  rewrite (get_le_field fields 8 4 48 (act_baseDigest r)) by (done || ll).
  rewrite (get_le_field fields 4 1 24 (metadataFileCode (act_metadataFile r))) by (done || destruct (act_metadataFile r); cbn; lia).
  unfold requireCurrentIdentity. rewrite !Z.eqb_refl.
  rewrite (proj2 (Z.eqb_neq (act_sequence r) 0)), (proj2 (Z.eqb_neq (act_generation r) 0)), (proj2 (Z.ltb_ge (act_baseEnd r) _)) by lia.
  cbn [negb orb throw_if mbind result_bind]. destruct r as [q [] g e d]; reflexivity.
Qed.

(** What is out of range is refused. *)
Lemma encodeActivationSlot_refuses r : ~ slot_ok r -> encodeActivationSlot r = Throw StoreLimitError.
Proof.
  intros H. unfold encodeActivationSlot. cbv zeta.
  assert (L : forall b A (k : unit -> R A), (b = false -> k tt = Throw StoreLimitError) ->
    throw_if b StoreLimitError ≫= k = Throw StoreLimitError) by (intros [] A k Hk; [done|by apply Hk]).
  assert (U : forall v A (k : Z -> R A), (u64 v -> k v = Throw StoreLimitError) ->
    checkedU64 v ≫= k = Throw StoreLimitError).
  { intros v A k Hk. destruct (checkedU64 v) as [w|e] eqn:E; [apply checkedU64_Ok in E as [-> Hv]; by apply Hk|].
    unfold checkedU64 in E. destruct (_ || _); [by injection E as <-|done]. }
  apply L. intros H1. apply U. intros H2. apply U. intros H3. apply U. intros H4. apply L. intros H5.
  exfalso. apply H. propify. unfold slot_ok, u64 in *. lia.
Qed.

(** An activation record survives encoding: every record with positive sequence and generation, a
    base end past the header and a 32-bit digest encodes to one 128-byte slot that decodes to the
    record; out-of-range records are refused with [StoreLimitError]. *)
Theorem activation_slot_roundtrip (r : ActivationRecord) :
  (slot_ok r -> exists bytes, encodeActivationSlot r = Ok bytes /\ length bytes = ACTIVATION_SLOT_BYTES /\
     Forall byte bytes /\ decodeActivationSlot bytes = Ok r) /\
  (~ slot_ok r -> encodeActivationSlot r = Throw StoreLimitError).
Proof.
  split.
  - intros H. exists (slot_bytes r). split; [by apply encodeActivationSlot_Ok|]. split; [apply slot_bytes_length|].
    split; [apply slot_bytes_byte|by apply decode_slot_bytes].
  - apply encodeActivationSlot_refuses.
Qed.

Definition example_slot : ActivationRecord := mkActivation 41 MetaB 7 4096 0xcafef00d.

Lemma activation_slot_roundtrip_witness :
  (slot_ok example_slot -> exists bytes, encodeActivationSlot example_slot = Ok bytes /\
     length bytes = ACTIVATION_SLOT_BYTES /\ Forall byte bytes /\ decodeActivationSlot bytes = Ok example_slot) /\
  slot_ok example_slot.
Proof.
  split; [exact (proj1 (activation_slot_roundtrip example_slot))|].
  repeat split; discriminate.
Defined.

(** ** Switching the active slot *)

Lemma decode_sealed bytes r : decodeActivationSlot bytes = Ok r ->
  length bytes = ACTIVATION_SLOT_BYTES /\ requireChecksum bytes ACTIVATION_CHECKSUM_OFFSET = Ok tt.
Proof.
  unfold decodeActivationSlot. intros H. apply bind_Ok in H as (u & Hl%throw_if_Ok & H).
  apply bind_Ok in H as (u1 & _ & H). apply bind_Ok in H as (u2 & _ & H). apply bind_Ok in H as (u3 & _ & H).
  apply bind_Ok in H as ([] & Hc & H). apply negb_false_iff, Nat.eqb_eq in Hl. done.
Qed.

(** A slot with one changed byte reads as an invalid slot, whichever byte it is. *)
Lemma slot_corruption bytes r i old new : Forall byte bytes -> decodeActivationSlot bytes = Ok r ->
  bytes !! i = Some old -> byte new -> new <> old -> tryDecodeActivationSlot (<[i := new]> bytes) = Ok None.
Proof.
  intros Hb Hd Hi Hn Hne. destruct (decode_sealed bytes r Hd) as [Hl Hc]. unfold tryDecodeActivationSlot.
  assert (decodeActivationSlot (<[i := new]> bytes) = Throw CorruptStoreError) as ->; [|done].
  unfold decodeActivationSlot. rewrite length_insert, Hl, Nat.eqb_refl. cbn [negb throw_if mbind result_bind].
  rewrite (requireChecksum_corrupt bytes _ i old new) by
    (done || (rewrite Hl; unfold ACTIVATION_CHECKSUM_OFFSET, ACTIVATION_SLOT_BYTES; ll)).
  unfold requireMagic, requireZero, throw_if. by repeat case_match.
Qed.

(** The activation slots switch the store atomically. While the store is on [old], a switch writes
    the successor [new] (next sequence, other metadata file) into the other slot, in either position.
    Before the write the selection is [old]; after it, [new], with [old] as the fallback; and if any
    byte of the new slot is wrong, the selection is [old] again. *)
Theorem activation_switch (old new : ActivationRecord) (oldBytes newBytes : list Z) (i : nat) (before after : Z)
  (Hold : decodeActivationSlot oldBytes = Ok old) (Hnew : decodeActivationSlot newBytes = Ok new)
  (Hbytes : Forall byte newBytes)
  (Hsequence : act_sequence new = act_sequence old + 1) (Hfile : act_metadataFile new <> act_metadataFile old)
  (Hwas : newBytes !! i = Some before) (His : byte after) (Hchanged : after <> before) :
  selectActivationPair oldBytes newBytes = Ok (mkSelection new (Some old)) /\
  selectActivationPair newBytes oldBytes = Ok (mkSelection new (Some old)) /\
  selectActivationPair oldBytes (<[i := after]> newBytes) = Ok (mkSelection old None) /\
  selectActivationPair (<[i := after]> newBytes) oldBytes = Ok (mkSelection old None) /\
  selectActivationPair oldBytes [] = Ok (mkSelection old None) /\
  selectActivationPair [] oldBytes = Ok (mkSelection old None).
Proof.
  pose proof (slot_corruption newBytes new i before after Hbytes Hnew Hwas His Hchanged) as Hbad.
  assert (Ho : tryDecodeActivationSlot oldBytes = Ok (Some old)) by (unfold tryDecodeActivationSlot; by rewrite Hold).
  assert (Hn : tryDecodeActivationSlot newBytes = Ok (Some new)) by (unfold tryDecodeActivationSlot; by rewrite Hnew).
  assert (Hempty : tryDecodeActivationSlot [] = Ok None) by reflexivity.
  unfold selectActivationPair. rewrite Ho, Hn, Hbad, Hempty. cbn [mbind result_bind].
  rewrite (proj2 (Z.ltb_lt (act_sequence old) (act_sequence new))), (proj2 (Z.ltb_ge (act_sequence new) (act_sequence old))) by lia.
  rewrite Hsequence, Z.eqb_refl, bool_decide_eq_false_2 by done. done.
Qed.

Definition next_slot : ActivationRecord := mkActivation 42 MetaA 8 5000 77.

Lemma activation_switch_witness :
  selectActivationPair (slot_bytes example_slot) (slot_bytes next_slot) = Ok (mkSelection next_slot (Some example_slot)) /\
  selectActivationPair (slot_bytes next_slot) (slot_bytes example_slot) = Ok (mkSelection next_slot (Some example_slot)) /\
  selectActivationPair (slot_bytes example_slot) (<[16%nat := 0]> (slot_bytes next_slot)) = Ok (mkSelection example_slot None) /\
  selectActivationPair (<[16%nat := 0]> (slot_bytes next_slot)) (slot_bytes example_slot) = Ok (mkSelection example_slot None) /\
  selectActivationPair (slot_bytes example_slot) [] = Ok (mkSelection example_slot None) /\
  selectActivationPair [] (slot_bytes example_slot) = Ok (mkSelection example_slot None).
Proof.
  apply (activation_switch example_slot next_slot (slot_bytes example_slot) (slot_bytes next_slot) 16 42 0).
  - vm_compute. reflexivity.
  - vm_compute. reflexivity.
  - apply bytes_check. vm_compute. reflexivity.
  - reflexivity.
  - discriminate.
  - vm_compute. reflexivity.
  - split; discriminate.
  - discriminate.
Defined.

(** ** The arena header *)

Section Arena.
(** The number of zeros after the checksum, kept abstract. *)
Context (arena_pad : nat) (arena_pad_size : Z.to_nat ARENA_HEADER_BYTES = (28 + arena_pad)%nat).

Definition arena_fields (extentSize : Z) (checksum : list Z) : list (list Z) :=
  [ARENA_MAGIC; le_bytes 4 FORMAT_VERSION; le_bytes 4 LIMITS_PROFILE_VERSION; le_bytes 4 extentSize;
   replicate 4 0; checksum; replicate arena_pad 0].

Definition arena_bytes (extentSize : Z) : list Z :=
  mjoin (arena_fields extentSize (le_bytes 4 (crc_reference (mjoin (arena_fields extentSize (replicate 4 0)))))).

Lemma arena_fields_length es c : length c = 4%nat -> length (mjoin (arena_fields es c)) = Z.to_nat ARENA_HEADER_BYTES.
Proof. intros Hc. rewrite arena_pad_size. unfold arena_fields. rewrite !mjoin_cons, !length_app, !length_le_bytes, !length_replicate, Hc. done. Qed.

Lemma arena_fields_byte es : Forall byte (mjoin (arena_fields es (replicate 4 0))).
Proof. unfold arena_fields. layout_bytes. Qed.

Lemma encodeArenaHeader_Ok es : extent_size_ok es -> encodeArenaHeader es = Ok (arena_bytes es).
Proof.
  intros H. unfold encodeArenaHeader. rewrite (proj2 (validateExtentSize_Ok es es)) by done. cbn [mbind result_bind].
  replace (replicate (Z.to_nat ARENA_HEADER_BYTES) 0) with (mjoin [replicate 8 0; replicate 4 0; replicate 4 0;
    replicate 4 0; replicate 4 0; replicate 4 0; replicate arena_pad 0])
    by (rewrite arena_pad_size, !mjoin_cons, app_nil_r, <- !replicate_add; done).
  unfold set_le.
  rewrite (set_field _ 0 _ 0) by done. cbn [insert list_insert].
  rewrite (set_field _ 1 _ 8) by done. cbn [insert list_insert].
  rewrite (set_field _ 2 _ 12) by done. cbn [insert list_insert].
  rewrite (set_field _ 3 _ 16) by done. cbn [insert list_insert].
  change (sealChecksum ARENA_HEADER_CHECKSUM_OFFSET (mjoin (arena_fields es (replicate 4 0))) = Ok (arena_bytes es)).
  rewrite (sealChecksum_field _ 5) by (first [reflexivity | apply arena_fields_byte | apply length_replicate | rewrite arena_fields_length by reflexivity; ll]).
  done.
Qed.

Lemma decode_arena_bytes es configured : extent_size_ok es ->
  (forall c, configured = Some c -> extent_size_ok c) ->
  decodeArenaHeader (arena_bytes es) configured =
  match configured with
  | Some c => if c =? es then Ok (mkArenaHeader es LIMITS_PROFILE_VERSION FORMAT_VERSION)
              else Throw (ExtentSizeMismatchError c es)
  | None => Ok (mkArenaHeader es LIMITS_PROFILE_VERSION FORMAT_VERSION)
  end.
Proof.
  intros H Hc. assert (Hr : 0 <= es < 256 ^ Z.of_nat 4) by (destruct H; ll). unfold decodeArenaHeader.
  assert (Hcfg : (match configured with None => Ok tt | Some c => validateExtentSize c ≫= fun _ => Ok tt end : R unit) = Ok tt).
  { destruct configured as [c|]; [|done]. by rewrite (proj2 (validateExtentSize_Ok c c)) by auto. }
  rewrite Hcfg. cbn [mbind result_bind].
  assert (Hlen : length (arena_bytes es) = Z.to_nat ARENA_HEADER_BYTES) by (apply arena_fields_length, length_le_bytes).
  unfold byteLength. rewrite Hlen, Z2Nat.id, Z.eqb_refl by ll. cbn [negb throw_if mbind result_bind].
  unfold arena_bytes. set (c := crc_reference _). set (fields := arena_fields es (le_bytes 4 c)).
  rewrite (requireMagic_field fields ARENA_MAGIC) by done. cbn [mbind result_bind].
  rewrite (requireZero_field fields 4 4 20 24) by done. cbn [mbind result_bind].
  rewrite (requireZero_field fields 6 arena_pad 28) by (reflexivity || exact arena_pad_size). cbn [mbind result_bind].
  unfold fields, c. rewrite (sealed_checksum (arena_fields es (replicate 4 0)) 5) by
    (first [reflexivity | apply arena_fields_byte | rewrite arena_fields_length by reflexivity; ll]).
  fold c fields. cbn [mbind result_bind].
  rewrite (get_le_field fields 1 4 8 FORMAT_VERSION) by (done || ll).
  rewrite (get_le_field fields 2 4 12 LIMITS_PROFILE_VERSION) by (done || ll).
  rewrite (get_le_field fields 3 4 16 es) by done.
  unfold requireCurrentIdentity. rewrite !Z.eqb_refl. cbn [negb orb throw_if mbind result_bind].
  rewrite (proj2 (validateExtentSize_Ok es es)) by done. cbn [rethrow_as mbind result_bind].
  destruct configured as [d|]; [|done]. by destruct (d =? es).
Qed.

End Arena.

(** The arena header records the extent size: the header encoded for a valid extent size decodes,
    with no configured size or the same one, to that size and the current versions, and throws
    [ExtentSizeMismatchError] when the store is opened with another valid size. *)
Theorem arena_header_roundtrip (es : Z) (configured : option Z)
  (Hes : extent_size_ok es) (Hconfigured : forall c, configured = Some c -> extent_size_ok c) :
  exists bytes, encodeArenaHeader es = Ok bytes /\ byteLength bytes = ARENA_HEADER_BYTES /\
    decodeArenaHeader bytes configured =
      match configured with
      | Some c => if c =? es then Ok (mkArenaHeader es LIMITS_PROFILE_VERSION FORMAT_VERSION)
                  else Throw (ExtentSizeMismatchError c es)
      | None => Ok (mkArenaHeader es LIMITS_PROFILE_VERSION FORMAT_VERSION)
      end.
Proof.
  assert (Hpad : exists pad, Z.to_nat ARENA_HEADER_BYTES = (28 + pad)%nat)
    by (exists (Z.to_nat ARENA_HEADER_BYTES - 28)%nat; ll).
  destruct Hpad as [pad Hpad]. exists (arena_bytes pad es). split; [by apply encodeArenaHeader_Ok|].
  split; [|by apply decode_arena_bytes]. unfold byteLength, arena_bytes.
  rewrite (arena_fields_length pad Hpad) by apply length_le_bytes. ll.
Qed.

Lemma arena_header_roundtrip_witness :
  exists bytes, encodeArenaHeader 8192 = Ok bytes /\ byteLength bytes = ARENA_HEADER_BYTES /\
    decodeArenaHeader bytes (Some 16384) = Throw (ExtentSizeMismatchError 16384 8192).
Proof.
  apply (arena_header_roundtrip 8192 (Some 16384)).
  - split; [split; discriminate|reflexivity].
  - intros c [= <-]. split; [split; discriminate|reflexivity].
Defined.
