(* ===== verification/BaseCodec.v ===== *)
(** * Metadata bases

    The canonical base encoding of [packages/pgwasm/src/opfs/core/codec.ts]. *)

From S2P Require Export Slots Repack.

(** ** Canonical order *)

Definition compareBigint (left right : Z) : Z :=
  if left <? right then -1 else if right <? left then 1 else 0.

(** [value.codePointAt(index)] on the units from [index] on. *)
Definition codePointAt (s : jsstr) : Z :=
  match s with
  | c :: d :: _ => if high_surrogate c && low_surrogate d then code_point c d else c
  | [c] => c
  | [] => 0
  end.

(** The loop of [compareUtf8Names]: the first difference between code points, if there is one. *)
Fixpoint comparePoints (left right : jsstr) : option Z :=
  match left, right with
  | _ :: left', _ :: right' =>
      let leftPoint := codePointAt left in
      let rightPoint := codePointAt right in
      if leftPoint =? rightPoint then
        if 0xffff <? leftPoint then
          match left', right' with
          | _ :: left'', _ :: right'' => comparePoints left'' right''
          | _, _ => None
          end
        else comparePoints left' right'
      else Some (leftPoint - rightPoint)
  | _, _ => None
  end.

Definition compareUtf8Names (left right : jsstr) : Z :=
  match comparePoints left right with
  | Some difference => difference
  | None => Z.of_nat (length left) - Z.of_nat (length right)
  end.

Section Sorting.
Context {A : Type} (compare : A -> A -> Z).

Definition not_after (x y : A) : Prop := compare x y <= 0.
#[export] Instance not_after_dec x y : Decision (not_after x y).
Proof. unfold not_after. apply _. Defined.

Fixpoint outOfOrder (values : list A) : bool :=
  match values with
  | x :: (y :: _) as rest => (0 <? compare x y) || outOfOrder rest
  | _ => false
  end.

(** [values.sort(compare)] is a stable sort. *)
Definition sortIfNeeded (values : list A) : list A :=
  if outOfOrder values then merge_sort not_after values else values.
End Sorting.

(** ** Encoding *)

Definition INODE_KIND_DIRECTORY : Z := 0.
Definition INODE_KIND_FILE : Z := 1.
Definition INODE_KIND_SYMLINK : Z := 2.

Definition sortedChildren (children : Children) : list (jsstr * Z) :=
  sortIfNeeded (fun left right => compareUtf8Names left.1 right.1) (map_to_list children).

Definition writeInode (inode : Inode) : W unit :=
  w_validatedU64 (inode_id inode) ≫= fun _ =>
  w_u8 (match inode_kind inode with
        | Directory _ => INODE_KIND_DIRECTORY
        | File _ _ => INODE_KIND_FILE
        | Symlink _ => INODE_KIND_SYMLINK
        end) ≫= fun _ =>
  w_u32 (inode_mode inode) ≫= fun _ =>
  w_validatedU64 (atimeMs inode) ≫= fun _ =>
  w_validatedU64 (mtimeMs inode) ≫= fun _ =>
  w_validatedU64 (ctimeMs inode) ≫= fun _ =>
  match inode_kind inode with
  | Directory children =>
      let children := sortedChildren children in
      w_u32 (Z.of_nat (length children)) ≫= fun _ =>
      forM (fun '(name, inodeId) =>
        w_validatedString (utf8_encode name) ≫= fun _ => w_validatedU64 inodeId) children
  | Symlink target => w_symlinkTarget target
  | File size extents =>
      w_validatedU64 size ≫= fun _ =>
      w_u32 (Z.of_nat (length extents)) ≫= fun _ =>
      forM w_validatedU64 extents
  end.

Definition sortedInodes (s : VfsState) : list Inode :=
  sortIfNeeded (fun left right => compareBigint (inode_id left) (inode_id right)) (map_to_list (inodes s)).*2.
Definition sortedAvailable (s : VfsState) : list Z :=
  sortIfNeeded compareBigint (ExtentSet.values (available (allocator s))).
Definition sortedQuarantine (s : VfsState) : list (Z * option Z) :=
  sortIfNeeded (fun left right => compareBigint left.1 right.1) (quarantine (allocator s)).

Definition writeMetadataPayload (s : VfsState) : W unit :=
  w_validatedU64 (totalExtents (allocator s)) ≫= fun _ =>
  w_validatedU64 (nextInodeId s) ≫= fun _ =>
  w_u32 (Z.of_nat (size (inodes s))) ≫= fun _ =>
  forM writeInode (sortedInodes s) ≫= fun _ =>
  forM w_validatedU64 (sortedAvailable s) ≫= fun _ =>
  forM (fun '(extentId, generation) =>
    w_validatedU64 extentId ≫= fun _ => w_validatedU64 (default 0 generation)) (sortedQuarantine s).

Definition encodeMetadataPayload (s : VfsState) (len prefixBytes : Z) : R (list Z) :=
  throw_if (MAX_METADATA_BASE_WRITER_BYTES <? len) StoreLimitError ≫= fun _ =>
  w ← newBinaryWriter (prefixBytes + len) prefixBytes;
  match writeMetadataPayload s w with
  | (w, Ok _) => w_finish w
  | (_, Throw e) => Throw e
  end.

Definition encodeValidatedMetadataBase (s : VfsState) : R (list Z) :=
  let baseEnd := Z.of_nat METADATA_HEADER_BYTES + basePayloadBytes s in
  bytes ← encodeMetadataPayload s (basePayloadBytes s) (Z.of_nat METADATA_HEADER_BYTES);
  let bytes := set_bytes 0 METADATA_MAGIC bytes in
  let bytes := set_le 4 8 FORMAT_VERSION bytes in
  let bytes := set_le 4 12 LIMITS_PROFILE_VERSION bytes in
  let bytes := set_le 8 16 (generation s) bytes in
  let bytes := set_le 4 24 (extentSize s) bytes in
  let bytes := set_le 1 28 (metadataFileCode (activeMetadataFile s)) bytes in
  let bytes := set_le 8 32 (rootInodeId s) bytes in
  let bytes := set_le 4 40 (basePayloadBytes s) bytes in
  let bytes := set_le 4 44 (ExtentSet.size (available (allocator s))) bytes in
  let bytes := set_le 4 48 (Z.of_nat (length (quarantine (allocator s)))) bytes in
  let bytes := set_le 8 56 baseEnd bytes in
  sealChecksum METADATA_HEADER_CHECKSUM_OFFSET bytes.

Definition encodeMetadataBase (s : VfsState) : R (list Z) :=
  validateState s ≫= fun _ => encodeValidatedMetadataBase s.

(** ** Decoding *)

Record MetadataBaseHeader : Type := mkBaseHeader {
  bh_formatVersion : Z;
  bh_limitsProfileVersion : Z;
  bh_generation : Z;
  bh_extentSize : Z;
  bh_metadataFileCode : Z;
  bh_rootInodeId : Z;
  bh_payloadLength : Z;
  bh_availableCount : Z;
  bh_quarantineCount : Z;
  bh_baseEnd : Z
}.

Record DecodedMetadataBase : Type := mkDecodedBase {
  db_state : VfsState;
  db_payloadBytes : Z;
  db_baseEnd : Z;
  db_baseDigest : Z
}.

Definition inspectMetadataBaseHeader (header : list Z) : R MetadataBaseHeader :=
  throw_if (negb (Nat.eqb (length header) METADATA_HEADER_BYTES)) CorruptStoreError ≫= fun _ =>
  requireMagic header METADATA_MAGIC ≫= fun _ =>
  requireZero header 29 32 ≫= fun _ =>
  requireZero header 52 56 ≫= fun _ =>
  requireZero header 68 80 ≫= fun _ =>
  let payloadLength := get_le 4 header 40 in
  throw_if (MAX_METADATA_BASE_READER_BYTES <? payloadLength) CorruptStoreError ≫= fun _ =>
  let baseEnd := get_le 8 header 56 in
  throw_if (negb (baseEnd =? Z.of_nat METADATA_HEADER_BYTES + payloadLength)) CorruptStoreError ≫= fun _ =>
  Ok (mkBaseHeader (get_le 4 header 8) (get_le 4 header 12) (get_le 8 header 16) (get_le 4 header 24)
        (get_le 1 header 28) (get_le 8 header 32) payloadLength (get_le 4 header 44) (get_le 4 header 48)
        baseEnd).

(** The loop of [readInode] over the entries of a directory. *)
Fixpoint readChildren (count : nat) (previousName : option jsstr) (children : Children) : Rd Children :=
  match count with
  | O => mret children
  | S count =>
      name ← r_string;
      st_lift (throw_if (match previousName with
                         | Some previousName => 0 <=? compareUtf8Names previousName name
                         | None => false
                         end) CorruptStoreError) ≫= fun _ =>
      inodeId ← r_u64;
      readChildren count (Some name) (<[name := inodeId]> children)
  end.

Definition readInode : Rd Inode :=
  id ← r_u64;
  kind ← r_u8;
  mode ← r_u32;
  atimeMs ← r_u64;
  mtimeMs ← r_u64;
  ctimeMs ← r_u64;
  if kind =? INODE_KIND_DIRECTORY then
    childCount ← readBoundedCount MAX_INODES;
    children ← readChildren (Z.to_nat childCount) None ∅;
    mret (mkInode id mode atimeMs mtimeMs ctimeMs (Directory children))
  else if kind =? INODE_KIND_FILE then
    size ← r_u64;
    extentCount ← readBoundedCount MAX_EXTENTS_PER_INODE;
    extents ← r_repeat (Z.to_nat extentCount) r_u64;
    mret (mkInode id mode atimeMs mtimeMs ctimeMs (File size extents))
  else if kind =? INODE_KIND_SYMLINK then
    target ← r_symlinkTarget;
    mret (mkInode id mode atimeMs mtimeMs ctimeMs (Symlink target))
  else st_lift (Throw CorruptStoreError).

(** [previous !== undefined && value <= previous] *)
Definition notIncreasing (previous : option Z) (value : Z) : bool :=
  match previous with Some previous => value <=? previous | None => false end.

Definition ownExtents (inodeId : Z) (ownedBy : gmap Z Z) (extents : list Z) : R (gmap Z Z) :=
  foldM (fun ownedBy extentId =>
    throw_if (bool_decide (is_Some (ownedBy !! extentId))) CorruptStoreError ≫= fun _ =>
    Ok (<[extentId := inodeId]> ownedBy)) ownedBy extents.

Fixpoint readInodes (count : nat) (previous : option Z) (inodes : gmap Z Inode) (ownedBy : gmap Z Z)
  : Rd (gmap Z Inode * gmap Z Z) :=
  match count with
  | O => mret (inodes, ownedBy)
  | S count =>
      inode ← readInode;
      st_lift (throw_if (notIncreasing previous (inode_id inode)) CorruptStoreError) ≫= fun _ =>
      ownedBy ← st_lift (match inode_kind inode with
                         | File _ extents => ownExtents (inode_id inode) ownedBy extents
                         | _ => Ok ownedBy
                         end);
      readInodes count (Some (inode_id inode)) (<[inode_id inode := inode]> inodes) ownedBy
  end.

Fixpoint readAvailable (count : nat) (previous : option Z) (available : ExtentSet.t) : Rd ExtentSet.t :=
  match count with
  | O => mret available
  | S count =>
      extentId ← r_u64;
      st_lift (throw_if (notIncreasing previous extentId) CorruptStoreError) ≫= fun _ =>
      readAvailable count (Some extentId) (ExtentSet.add available extentId)
  end.

Fixpoint readQuarantine (count : nat) (previous : option Z) (quarantine : list (Z * option Z))
  : Rd (list (Z * option Z)) :=
  match count with
  | O => mret quarantine
  | S count =>
      extentId ← r_u64;
      encodedGeneration ← r_u64;
      st_lift (throw_if (notIncreasing previous extentId) CorruptStoreError) ≫= fun _ =>
      readQuarantine count (Some extentId)
        (JsMap.set quarantine extentId (if encodedGeneration =? 0 then None else Some encodedGeneration))
  end.

(** The parent index, rebuilt from the directories. *)
Definition indexParents (inodes : gmap Z Inode) : R (gmap Z (Z * jsstr)) :=
  foldM (fun parents '(_, inode) =>
    match inode_kind inode with
    | Directory children =>
        foldM (fun (parents : gmap Z (Z * jsstr)) '(name, childId) =>
          throw_if (bool_decide (is_Some (parents !! childId))) CorruptStoreError ≫= fun _ =>
          Ok (<[childId := (inode_id inode, name)]> parents)) parents (map_to_list children)
    | _ => Ok parents
    end) ∅ (map_to_list inodes).

Record BasePayload : Type := mkPayload {
  bp_totalExtents : Z;
  bp_nextInodeId : Z;
  bp_inodes : gmap Z Inode;
  bp_ownedBy : gmap Z Z;
  bp_available : ExtentSet.t;
  bp_quarantine : list (Z * option Z)
}.

Definition readMetadataPayload (availableCount quarantineCount : Z) : Rd BasePayload :=
  totalExtents ← r_u64;
  st_lift (throw_if (MAX_TOTAL_EXTENTS <? totalExtents) CorruptStoreError) ≫= fun _ =>
  nextInodeId ← r_u64;
  inodeCount ← readBoundedCount MAX_INODES;
  '(inodes, ownedBy) ← readInodes (Z.to_nat inodeCount) None ∅ ∅;
  available ← readAvailable (Z.to_nat availableCount) None ExtentSet.empty;
  quarantine ← readQuarantine (Z.to_nat quarantineCount) None [];
  r_end ≫= fun _ =>
  mret (mkPayload totalExtents nextInodeId inodes ownedBy available quarantine).

Definition decodeMetadataBase (bytes : list Z) : R DecodedMetadataBase :=
  throw_if (Nat.ltb (length bytes) METADATA_HEADER_BYTES) CorruptStoreError ≫= fun _ =>
  h ← inspectMetadataBaseHeader (take METADATA_HEADER_BYTES bytes);
  throw_if (negb (byteLength bytes =? bh_baseEnd h)) CorruptStoreError ≫= fun _ =>
  requireChecksum bytes METADATA_HEADER_CHECKSUM_OFFSET ≫= fun _ =>
  requireCurrentIdentity (bh_formatVersion h) (bh_limitsProfileVersion h) ≫= fun _ =>
  throw_if (bh_generation h =? 0) CorruptStoreError ≫= fun _ =>
  rethrow_as CorruptStoreError (validateExtentSize (bh_extentSize h)) ≫= fun _ =>
  activeMetadataFile ← decodeMetadataFile (bh_metadataFileCode h);
  throw_if ((MAX_TOTAL_EXTENTS <? bh_availableCount h) || (MAX_TOTAL_EXTENTS <? bh_quarantineCount h))
    CorruptStoreError ≫= fun _ =>
  rethrow_as CorruptStoreError (
    p ← r_run (readMetadataPayload (bh_availableCount h) (bh_quarantineCount h))
              (drop METADATA_HEADER_BYTES bytes);
    parentByInode ← indexParents (bp_inodes p);
    let state := mkState (bh_generation h) (bp_nextInodeId p) (bh_rootInodeId h) (bh_extentSize h)
                   activeMetadataFile
                   (if decide (activeMetadataFile = MetaA) then Some (bh_generation h) else None)
                   (if decide (activeMetadataFile = MetaB) then Some (bh_generation h) else None)
                   (bh_payloadLength h) (bp_inodes p) parentByInode
                   (mkAllocator (bp_totalExtents p) (bp_ownedBy p) (bp_available p) (bp_quarantine p)) in
    validateState state ≫= fun _ =>
    Ok (mkDecodedBase state (bh_payloadLength h) (bh_baseEnd h) (crc32 bytes))).
