(* ===== verification/Port.v ===== *)
(** * The storage port

    [packages/pgwasm/src/opfs/core/port.ts]: the four owned files behind an abstract port, exact
    reads and writes over handles that may make partial progress, and the arena layout. *)

From S2P Require Export State.

(** ** Files *)

Inductive OwnedFileName : Type := ArenaBin | MetadataABin | MetadataBBin | ActivationBin.

#[global] Instance OwnedFileName_eq_dec : EqDecision OwnedFileName.
Proof. solve_decision. Defined.

#[global] Instance OwnedFileName_countable : Countable OwnedFileName.
Proof.
  refine (inj_countable' (fun n => match n with ArenaBin => 0%nat | MetadataABin => 1%nat | MetadataBBin => 2%nat
                                   | ActivationBin => 3%nat end)
            (fun k => match k with 0%nat => ArenaBin | 1%nat => MetadataABin | 2%nat => MetadataBBin
                      | _ => ActivationBin end) _).
  by intros [].
Defined.

Definition OWNED_FILE_NAMES : list OwnedFileName := [ArenaBin; MetadataABin; MetadataBBin; ActivationBin].

Definition fileName (name : OwnedFileName) : jsstr :=
  match name with
  | ArenaBin => js "arena.bin"
  | MetadataABin => js "metadata-a.bin"
  | MetadataBBin => js "metadata-b.bin"
  | ActivationBin => js "activation.bin"
  end.

Definition metadataFileName (file : MetadataFile) : OwnedFileName :=
  match file with MetaA => MetadataABin | MetaB => MetadataBBin end.

Inductive EntryKind : Type := EntryFile | EntryDirectory.
Record RepackedPortEntry : Type := mkEntry { entry_name : jsstr; entry_kind : EntryKind }.

(** ** The port, as an interface

    [RepackedPort] and [RepackedFileHandle] over a world [Wd]. A read reports a count and the bytes
    it stored from the start of the target; a write reports a count. *)
Class RepackedPort (Wd : Type) : Type := {
  enumerate : M Wd (list RepackedPortEntry);
  acquire : OwnedFileName -> M Wd unit;
  getSize : OwnedFileName -> M Wd Z;
  read : OwnedFileName -> Z -> Z -> M Wd (Z * list Z);
  write : OwnedFileName -> list Z -> Z -> M Wd Z;
  truncate : OwnedFileName -> Z -> M Wd unit;
  flush : OwnedFileName -> M Wd unit;
  close : OwnedFileName -> M Wd unit
}.

(** [try { m } catch (cause) { handler(cause) }] *)
Definition st_catch {S A} (m : M S A) (handler : error -> M S A) : M S A :=
  fun s => match m s with (s, Ok a) => (s, Ok a) | (s, Throw e) => handler e s end.

Definition checkedRange (offset len : Z) : R Z :=
  checkedU64 offset ≫= fun _ =>
  throw_if (negb (isSafeInteger len) || (len <? 0)) StoreLimitError ≫= fun _ =>
  stop ← checkedAdd offset len;
  checkedSafeNumber stop ≫= fun _ =>
  checkedSafeNumber offset.

Section Transfers.
Context {Wd : Type} `{RepackedPort Wd}.

(** The loop of [readExact]: every turn reads at least one byte, so [length] turns are enough. *)
Fixpoint readLoop (fuel : nat) (name : OwnedFileName) (start len : Z) (output : list Z) : M Wd (list Z) :=
  let completed := Z.of_nat (length output) in
  if completed <? len then
    match fuel with
    | O => st_lift (Throw FuelExhausted)
    | S fuel =>
        '(count, bytes) ← read name (len - completed) (start + completed);
        st_lift (throw_if (negb (isSafeInteger count) || (count <=? 0) || (len - completed <? count))
                   CorruptStoreError) ≫= fun _ =>
        readLoop fuel name start len (output ++ resize (Z.to_nat count) 0 bytes)
    end
  else mret output.

Definition readExact (name : OwnedFileName) (offset len maximumLength : Z) : M Wd (list Z) :=
  st_lift (throw_if (negb (isSafeInteger maximumLength) || (maximumLength <? 0) || (maximumLength <? len))
             StoreLimitError) ≫= fun _ =>
  start ← st_lift (checkedRange offset len);
  readLoop (Z.to_nat len) name start len [].

Fixpoint writeLoop (fuel : nat) (name : OwnedFileName) (start completed : Z) (bytes : list Z) : M Wd unit :=
  if completed <? Z.of_nat (length bytes) then
    match fuel with
    | O => st_lift (Throw FuelExhausted)
    | S fuel =>
        count ← write name (drop (Z.to_nat completed) bytes) (start + completed);
        st_lift (throw_if (negb (isSafeInteger count) || (count <=? 0)
                           || (Z.of_nat (length bytes) - completed <? count)) PortWriteError) ≫= fun _ =>
        writeLoop fuel name start (completed + count) bytes
    end
  else mret tt.

Definition writeExact (name : OwnedFileName) (offset : Z) (bytes : list Z) : M Wd unit :=
  start ← st_lift (checkedRange offset (Z.of_nat (length bytes)));
  writeLoop (length bytes) name start 0 bytes.

Definition truncateChecked (name : OwnedFileName) (size : Z) : M Wd unit :=
  size ← st_lift (checkedSafeNumber size); truncate name size.

End Transfers.

(** ** The arena *)

Definition arenaByteOffset (extentId extentSize withinExtent : Z) : R Z :=
  validateExtentSize extentSize ≫= fun _ =>
  checkedU64 extentId ≫= fun _ =>
  throw_if (MAX_TOTAL_EXTENTS <=? extentId) StoreLimitError ≫= fun _ =>
  throw_if (negb (isSafeInteger withinExtent) || (withinExtent <? 0) || (extentSize <=? withinExtent))
    StoreLimitError ≫= fun _ =>
  product ← checkedMultiply extentId extentSize;
  base ← checkedAdd ARENA_HEADER_BYTES product;
  checkedAdd base withinExtent.
