(* ===== verification/MetadataStore.v ===== *)
(** * Opening, bootstrapping and recovering a store

    [packages/pgwasm/src/opfs/core/metadata-store.ts] over the port interface. The promises of the
    port are awaited one after the other, so the asynchronous functions run in the same monad. *)

From S2P Require Export Port TxnCodec BaseCodec.

Record OpenedMetadataStore : Type := mkOpened {
  om_state : VfsState;
  om_activeLogEnd : Z;
  om_nextSequence : Z;
  om_activeLogBytes : Z;
  om_activeLogFrames : Z;
  om_activationSequence : Z;
  om_arenaHighWaterExtents : Z;
  om_arenaSize : Z;
  om_arenaDirty : bool;
  om_activeMetadataDirty : bool
}.

Definition validateEntries (entries : list RepackedPortEntry) : R unit :=
  foldM (fun _ entry =>
    throw_if (negb (bool_decide (entry_name entry ∈ fileName <$> OWNED_FILE_NAMES))
              || match entry_kind entry with EntryFile => false | EntryDirectory => true end)
      UnexpectedStoreEntryError) tt entries.

Definition isPrefix (bytes canonical : list Z) : bool :=
  negb (Nat.ltb (length canonical) (length bytes)) && bool_decide (take (length bytes) canonical = bytes).

(** [cause instanceof CorruptStoreError] *)
Definition is_corrupt (e : error) : bool := match e with CorruptStoreError => true | _ => false end.

(** [try { m } catch (cause) { if (!(cause instanceof CorruptStoreError)) throw cause; }] *)
Definition tolerateCorrupt {A} (m : R A) : R unit :=
  match m with
  | Ok _ => Ok tt
  | Throw cause => if is_corrupt cause then Ok tt else Throw cause
  end.

Definition requiredArenaEnd (s : VfsState) : R Z :=
  product ← checkedMultiply (totalExtents (allocator s)) (extentSize s);
  checkedAdd ARENA_HEADER_BYTES product.

(** The errors that end a replay at the last valid frame. *)
Definition endsReplay (e : error) : bool :=
  match e with CorruptStoreError | FsError _ | StoreLimitError => true | _ => false end.

Section Store.
Context {Wd : Type} `{RepackedPort Wd}.

Fixpoint closeReversed (handles : list OwnedFileName) : M Wd unit :=
  match handles with
  | [] => mret tt
  | handle :: rest => st_catch (close handle) (fun _ => mret tt) ≫= fun _ => closeReversed rest
  end.
Definition closeHandles (handles : list OwnedFileName) : M Wd unit := closeReversed (rev handles).

(** Acquire one by one; what was acquired is closed when a later step throws. *)
Fixpoint acquireAll (acquired names : list OwnedFileName) : M Wd (list OwnedFileName) :=
  match names with
  | [] => mret acquired
  | name :: names =>
      st_catch (acquire name)
        (fun cause => closeHandles acquired ≫= fun _ => st_lift (Throw cause)) ≫= fun _ =>
      acquireAll (acquired ++ [name]) names
  end.

Definition acquireHandles : M Wd (list OwnedFileName) :=
  entries ← enumerate;
  st_lift (validateEntries entries) ≫= fun _ =>
  acquire ActivationBin ≫= fun _ =>
  st_catch (entries ← enumerate; st_lift (validateEntries entries))
    (fun cause => closeHandles [ActivationBin] ≫= fun _ => st_lift (Throw cause)) ≫= fun _ =>
  acquireAll [ActivationBin] [ArenaBin; MetadataABin; MetadataBBin].

Record Sizes : Type := mkSizes { size_arena : Z; size_a : Z; size_b : Z; size_activation : Z }.
Definition sizeOf (sizes : Sizes) (name : OwnedFileName) : Z :=
  match name with
  | ArenaBin => size_arena sizes
  | MetadataABin => size_a sizes
  | MetadataBBin => size_b sizes
  | ActivationBin => size_activation sizes
  end.

Definition getSizes : M Wd Sizes :=
  arena ← getSize ArenaBin;
  a ← getSize MetadataABin;
  b ← getSize MetadataBBin;
  activation ← getSize ActivationBin;
  mret (mkSizes arena a b activation).

Definition slotBytes : Z := Z.of_nat ACTIVATION_SLOT_BYTES.
Definition baseHeaderBytes : Z := Z.of_nat METADATA_HEADER_BYTES.
Definition frameHeaderBytes : Z := Z.of_nat TXN_FRAME_HEADER_BYTES.

Definition readSlot (size index : Z) : M Wd (list Z) :=
  let offset := index * slotBytes in
  if size <=? offset then mret []
  else readExact ActivationBin offset (Z.min slotBytes (size - offset)) slotBytes.

Definition readWhole (name : OwnedFileName) (size maximum : Z) : M Wd (list Z) :=
  readExact name 0 size maximum.

(** The candidate sizes, in significance order and without repetitions, and the first that fits. *)
Definition addCandidate (candidates : list Z) (candidate : Z) : list Z :=
  if bool_decide (candidate ∈ candidates) then candidates else candidates ++ [candidate].

Definition bootstrapCandidates (arenaSize : Z) (configured partialExtentSize : option Z) : list Z :=
  let candidates := match configured with Some c => addCandidate [] c | None => [] end in
  let candidates := match partialExtentSize with Some c => addCandidate candidates c | None => candidates end in
  let candidates := addCandidate candidates DEFAULT_EXTENT_BYTES in
  if arenaSize <? 20
  then foldl addCandidate candidates
         ((fun i => MIN_EXTENT_BYTES + i * ARENA_HEADER_BYTES)
            <$> seqZ 0 ((MAX_EXTENT_BYTES - MIN_EXTENT_BYTES) / ARENA_HEADER_BYTES + 1))
  else candidates.

Fixpoint findCandidate (bytes : list Z) (candidates : list Z) : R (option Z) :=
  match candidates with
  | [] => Ok None
  | candidate :: candidates =>
      header ← encodeArenaHeader candidate;
      if isPrefix bytes header then Ok (Some candidate) else findCandidate bytes candidates
  end.

Definition bootstrapExtentSize (arenaSize : Z) (configured : option Z) : M Wd Z :=
  if arenaSize =? 0 then mret (default DEFAULT_EXTENT_BYTES configured)
  else if ARENA_HEADER_BYTES <=? arenaSize then
    header ← readExact ArenaBin 0 ARENA_HEADER_BYTES ARENA_HEADER_BYTES;
    decoded ← st_lift (decodeArenaHeader header None);
    st_lift (throw_if (ARENA_HEADER_BYTES <? arenaSize) CorruptStoreError) ≫= fun _ =>
    mret (ah_extentSize decoded)
  else
    bytes ← readWhole ArenaBin arenaSize ARENA_HEADER_BYTES;
    partialExtentSize ← st_lift (
      if 20 <=? arenaSize then
        match validateExtentSize (get_le 4 bytes 16) with
        | Ok size => Ok (Some size)
        | Throw TypeError => Ok None
        | Throw cause => Throw cause
        end
      else Ok None);
    matching ← st_lift (findCandidate bytes (bootstrapCandidates arenaSize configured partialExtentSize));
    match matching with
    | None => st_lift (Throw CorruptStoreError)
    | Some matching => mret (default matching partialExtentSize)
    end.

Definition detectArenaVersion (size : Z) : M Wd unit :=
  if size <? ARENA_HEADER_BYTES then mret tt
  else
    bytes ← readExact ArenaBin 0 ARENA_HEADER_BYTES ARENA_HEADER_BYTES;
    st_lift (tolerateCorrupt (decodeArenaHeader bytes None)).

(** The read of the header is inside the [try] too. *)
Definition detectCompleteMetadataVersion (name : OwnedFileName) (size : Z) : M Wd unit :=
  if size <? baseHeaderBytes then mret tt
  else
    header ← st_catch
      (bytes ← readExact name 0 baseHeaderBytes baseHeaderBytes;
       h ← st_lift (inspectMetadataBaseHeader bytes); mret (Some h))
      (fun cause => if is_corrupt cause then mret None else st_lift (Throw cause));
    match header with
    | None => mret tt
    | Some h =>
        if size <? bh_baseEnd h then mret tt
        else
          base ← readExact name 0 (bh_baseEnd h) (baseHeaderBytes + MAX_METADATA_BASE_READER_BYTES);
          st_lift (tolerateCorrupt (decodeMetadataBase base))
    end.

(** The canonical content of a bootstrapped store. *)
Definition initialSlot (base : list Z) : R (list Z) :=
  encodeActivationSlot (mkActivation 1 MetaA 1 (byteLength base) (metadataBaseDigest base)).

Definition checkBootstrapFile (name : OwnedFileName) (size : Z) (canonical : list Z) : M Wd unit :=
  detectCompleteMetadataVersion name size ≫= fun _ =>
  st_lift (throw_if (byteLength canonical <? size) CorruptStoreError) ≫= fun _ =>
  bytes ← readWhole name size (byteLength canonical);
  st_lift (throw_if (negb (isPrefix bytes canonical)) CorruptStoreError).

Definition classifyBootstrapResidue (sizes : Sizes) (configured : option Z) : M Wd Z :=
  extentSize ← bootstrapExtentSize (size_arena sizes) configured;
  initialA ← st_lift (createInitialState extentSize);
  baseA ← st_lift (encodeMetadataBase initialA);
  initialB ← st_lift (createInitialState extentSize);
  let initialB := set_activeMetadataFile MetaB initialB in
  let initialB := set_retained MetaB (Some 1) (set_retained MetaA None initialB) in
  baseB ← st_lift (encodeMetadataBase initialB);
  checkBootstrapFile MetadataABin (size_a sizes) baseA ≫= fun _ =>
  checkBootstrapFile MetadataBBin (size_b sizes) baseB ≫= fun _ =>
  st_lift (throw_if (slotBytes * 2 <? size_activation sizes) CorruptStoreError) ≫= fun _ =>
  slot ← st_lift (initialSlot baseA);
  let canonicalManifest := set_bytes 0 slot (replicate (ACTIVATION_SLOT_BYTES * 2) 0) in
  manifest ← readWhole ActivationBin (size_activation sizes) (byteLength canonicalManifest);
  st_lift (throw_if (negb (isPrefix manifest canonicalManifest)) CorruptStoreError) ≫= fun _ =>
  st_lift (match configured with
           | Some c => throw_if ((size_arena sizes =? ARENA_HEADER_BYTES) && negb (c =? extentSize))
                         (ExtentSizeMismatchError c extentSize)
           | None => Ok tt
           end) ≫= fun _ =>
  mret (if size_arena sizes <? ARENA_HEADER_BYTES then default extentSize configured else extentSize).

Definition bootstrap (extentSize : Z) : M Wd OpenedMetadataStore :=
  state ← st_lift (createInitialState extentSize);
  arenaBytes ← st_lift (encodeArenaHeader extentSize);
  baseBytes ← st_lift (encodeMetadataBase state);
  activationBytes ← st_lift (initialSlot baseBytes);
  truncate ArenaBin 0 ≫= fun _ =>
  writeExact ArenaBin 0 arenaBytes ≫= fun _ =>
  flush ArenaBin ≫= fun _ =>
  truncate MetadataABin 0 ≫= fun _ =>
  writeExact MetadataABin 0 baseBytes ≫= fun _ =>
  flush MetadataABin ≫= fun _ =>
  truncate MetadataBBin 0 ≫= fun _ =>
  truncate ActivationBin 0 ≫= fun _ =>
  writeExact ActivationBin 0 activationBytes ≫= fun _ =>
  flush ActivationBin ≫= fun _ =>
  decoded ← st_lift (decodeMetadataBase baseBytes);
  mret (mkOpened (db_state decoded) (db_baseEnd decoded) 1 0 0 1 0 (byteLength arenaBytes) false false).

Definition readSelectedBase (name : OwnedFileName) (fileSize : Z) (selected : ActivationRecord)
  : M Wd (DecodedMetadataBase * MetadataBaseHeader) :=
  st_lift (throw_if (fileSize <? baseHeaderBytes) CorruptStoreError) ≫= fun _ =>
  headerBytes ← readExact name 0 baseHeaderBytes baseHeaderBytes;
  header ← st_lift (inspectMetadataBaseHeader headerBytes);
  st_lift (throw_if (negb (bh_baseEnd header =? act_baseEnd selected) || (fileSize <? bh_baseEnd header))
             CorruptStoreError) ≫= fun _ =>
  baseBytes ← readExact name 0 (bh_baseEnd header) (baseHeaderBytes + MAX_METADATA_BASE_READER_BYTES);
  decoded ← st_lift (decodeMetadataBase baseBytes);
  st_lift (throw_if
    (negb (bool_decide (activeMetadataFile (db_state decoded) = act_metadataFile selected))
     || negb (generation (db_state decoded) =? act_generation selected)
     || negb (db_baseEnd decoded =? act_baseEnd selected)
     || negb (db_baseDigest decoded =? act_baseDigest selected)) CorruptStoreError) ≫= fun _ =>
  mret (decoded, header).

(** The replay loop: [frames] is [MAX_ACTIVE_LOG_FRAMES - frameCount]. *)
Fixpoint replayLoop (frames : nat) (name : OwnedFileName) (fileSize baseEnd : Z) (s : VfsState)
  (cursor sequence : Z) : M Wd (VfsState * Z * Z) :=
  match frames with
  | O => mret (s, cursor, sequence)
  | S frames =>
      let logBytes := cursor - baseEnd in
      let remaining := fileSize - cursor in
      if negb (cursor <? fileSize) then mret (s, cursor, sequence)
      else if (remaining <? frameHeaderBytes) || (MAX_ACTIVE_LOG_BYTES <? logBytes + frameHeaderBytes)
      then mret (s, cursor, sequence)
      else
        headerBytes ← readExact name cursor frameHeaderBytes frameHeaderBytes;
        match inspectTxnFrameHeader headerBytes with
        | Throw cause => if is_corrupt cause then mret (s, cursor, sequence) else st_lift (Throw cause)
        | Ok inspected =>
            if (remaining <? fh_frameBytes inspected)
               || (MAX_ACTIVE_LOG_BYTES <? logBytes + fh_frameBytes inspected)
            then mret (s, cursor, sequence)
            else
              frameBytes ← readExact name cursor (fh_frameBytes inspected)
                             (frameHeaderBytes + fh_payloadLength inspected);
              match decodeTxnFrame frameBytes with
              | Throw cause => if endsReplay cause then mret (s, cursor, sequence) else st_lift (Throw cause)
              | Ok frame =>
                  if negb (frame_generation frame =? generation s) || negb (frame_sequence frame =? sequence)
                  then mret (s, cursor, sequence)
                  else
                    match applyTxn (frame_record frame) None s with
                    | (s', Ok _) =>
                        replayLoop frames name fileSize baseEnd s' (cursor + fh_frameBytes inspected)
                          (sequence + 1)
                    | (s', Throw cause) =>
                        if endsReplay cause then mret (s', cursor, sequence) else st_lift (Throw cause)
                    end
              end
        end
  end.

Record ReplayResult : Type := mkReplay {
  rp_state : VfsState;
  rp_validEnd : Z;
  rp_nextSequence : Z;
  rp_requiredArenaEnd : Z
}.

Definition replayLog (name : OwnedFileName) (fileSize : Z) (s : VfsState) (baseEnd : Z) : M Wd ReplayResult :=
  start ← st_lift (checkedSafeNumber baseEnd);
  '(s, cursor, sequence) ←
    replayLoop (Z.to_nat MAX_ACTIVE_LOG_FRAMES) name fileSize baseEnd s start 1;
  st_lift (validateState s) ≫= fun _ =>
  required ← st_lift (requiredArenaEnd s);
  mret (mkReplay s cursor sequence required).

(** [catch (cause) { if (cause instanceof StoreLimitError) throw new CorruptStoreError(...); throw cause; }] *)
Definition limitAsCorrupt {A} (m : R A) : R A :=
  match m with Throw StoreLimitError => Throw CorruptStoreError | m => m end.

Definition recoverActivated (sizes : Sizes) (leftBytes rightBytes : list Z) (configured : option Z)
  : M Wd OpenedMetadataStore :=
  st_lift (throw_if (size_arena sizes <? ARENA_HEADER_BYTES) CorruptStoreError) ≫= fun _ =>
  headerBytes ← readExact ArenaBin 0 ARENA_HEADER_BYTES ARENA_HEADER_BYTES;
  arenaHeader ← st_lift (decodeArenaHeader headerBytes None);
  selection ← st_lift (selectActivationPair leftBytes rightBytes);
  let chosen := selected selection in
  let inactiveName := metadataFileName (otherMetadataFile (act_metadataFile chosen)) in
  detectCompleteMetadataVersion inactiveName (sizeOf sizes inactiveName) ≫= fun _ =>
  let name := metadataFileName (act_metadataFile chosen) in
  '(decoded, header) ← readSelectedBase name (sizeOf sizes name) chosen;
  st_lift (throw_if (negb (extentSize (db_state decoded) =? ah_extentSize arenaHeader)
                     || negb (bh_limitsProfileVersion header =? ah_limitsProfileVersion arenaHeader))
             CorruptStoreError) ≫= fun _ =>
  let state := match sel_other selection with
               | Some other => set_retained (act_metadataFile other) (Some (act_generation other)) (db_state decoded)
               | None => db_state decoded
               end in
  st_lift (limitAsCorrupt (validateState state)) ≫= fun _ =>
  replayed ← replayLog name (sizeOf sizes name) state (db_baseEnd decoded);
  st_lift (match configured with
           | Some c => throw_if (negb (c =? ah_extentSize arenaHeader))
                         (ExtentSizeMismatchError c (ah_extentSize arenaHeader))
           | None => Ok tt
           end) ≫= fun _ =>
  requiredEnd ← st_lift (checkedSafeNumber (rp_requiredArenaEnd replayed));
  let arenaDirty := size_arena sizes <? requiredEnd in
  (if arenaDirty then truncateChecked ArenaBin (rp_requiredArenaEnd replayed) else mret tt) ≫= fun _ =>
  let activeMetadataDirty := rp_validEnd replayed <? sizeOf sizes name in
  (if activeMetadataDirty then truncateChecked name (rp_validEnd replayed) else mret tt) ≫= fun _ =>
  let physicalArenaExtents :=
    (Z.max 0 (size_arena sizes - ARENA_HEADER_BYTES) + ah_extentSize arenaHeader - 1)
    / ah_extentSize arenaHeader in
  let state := rp_state replayed in
  mret (mkOpened state (rp_validEnd replayed) (rp_nextSequence replayed)
          (rp_validEnd replayed - db_baseEnd decoded) (rp_nextSequence replayed - 1) (act_sequence chosen)
          (Z.max physicalArenaExtents (totalExtents (allocator state)))
          (if arenaDirty then requiredEnd else size_arena sizes) arenaDirty activeMetadataDirty).

Definition openHandles (configured : option Z) : M Wd OpenedMetadataStore :=
  sizes ← getSizes;
  leftBytes ← readSlot (size_activation sizes) 0;
  rightBytes ← readSlot (size_activation sizes) 1;
  detectArenaVersion (size_arena sizes) ≫= fun _ =>
  detectCompleteMetadataVersion MetadataABin (size_a sizes) ≫= fun _ =>
  detectCompleteMetadataVersion MetadataBBin (size_b sizes) ≫= fun _ =>
  l ← st_lift (tryDecodeActivationSlot leftBytes);
  r ← st_lift (tryDecodeActivationSlot rightBytes);
  st_lift (throw_if (slotBytes * 2 <? size_activation sizes) CorruptStoreError) ≫= fun _ =>
  if bool_decide (is_Some l) || bool_decide (is_Some r)
  then recoverActivated sizes leftBytes rightBytes configured
  else
    extentSize ← classifyBootstrapResidue sizes configured;
    bootstrap extentSize.

(** [closeHandles(Object.values(handles))]: in the order of acquisition. *)
Definition openMetadataStore (configured : option Z) : M Wd OpenedMetadataStore :=
  st_lift (match configured with
           | Some c => validateExtentSize c ≫= fun _ => Ok tt
           | None => Ok tt
           end) ≫= fun _ =>
  handles ← acquireHandles;
  st_catch (openHandles configured)
    (fun cause => closeHandles handles ≫= fun _ => st_lift (Throw cause)).

End Store.
