(* ===== verification/PortLaws.v ===== *)
(** * What the port promises, and exact transfers over it

    The laws of a storage port as a class, and the theorems about [readExact], [writeExact] and
    [arenaByteOffset] proved against it. *)

From S2P Require Export Walks Port Bytes.

(** ** The laws *)

(** A file after [src] was written at [at]: a gap reads as zeros, an empty write changes nothing. *)
Definition write_at (at_ : nat) (src f : list Z) : list Z :=
  match src with
  | [] => f
  | _ => resize at_ 0 f ++ src ++ drop (at_ + length src) f
  end.

(** A port whose handles may read and write less than asked. [file] is the volatile content, [port_ok] an
    invariant of the port. *)
Class LawfulPort (Wd : Type) `{RepackedPort Wd} : Type := {
  file : Wd -> OwnedFileName -> list Z;
  port_ok : Wd -> Prop;
  read_law : forall name n pos w w' r, port_ok w -> read name n pos w = (w', r) -> 0 <= pos ->
    port_ok w' /\ (forall f, file w' f = file w f) /\ r <> Throw FuelExhausted /\
    forall count bytes, r = Ok (count, bytes) -> 0 < count <= n ->
      pos + count <= byteLength (file w name) /\
      bytes = subarray (file w name) (Z.to_nat pos) (Z.to_nat (pos + count));
  write_law : forall name src pos w w' r, port_ok w -> write name src pos w = (w', r) -> 0 <= pos ->
    port_ok w' /\ r <> Throw FuelExhausted /\
    exists k, (k <= length src)%nat /\ file w' name = write_at (Z.to_nat pos) (take k src) (file w name) /\
      (forall f, f <> name -> file w' f = file w f) /\
      forall count, r = Ok count -> 0 < count <= byteLength src -> k = Z.to_nat count;
  truncate_law : forall name size w w' r, port_ok w -> truncate name size w = (w', r) -> 0 <= size ->
    port_ok w' /\ r <> Throw FuelExhausted /\ (forall f, f <> name -> file w' f = file w f) /\
    (file w' name = file w name \/ file w' name = resize (Z.to_nat size) 0 (file w name)) /\
    (r = Ok tt -> file w' name = resize (Z.to_nat size) 0 (file w name));
  flush_law : forall name w w' r, port_ok w -> flush name w = (w', r) ->
    port_ok w' /\ r <> Throw FuelExhausted /\ forall f, file w' f = file w f;
  getSize_law : forall name w w' r, port_ok w -> getSize name w = (w', r) ->
    port_ok w' /\ r <> Throw FuelExhausted /\ (forall f, file w' f = file w f) /\
    forall size, r = Ok size -> size = byteLength (file w name)
}.

(** ** Consecutive writes *)

Lemma write_at_take_drop pos src f : src <> [] ->
  take (pos + length src) (write_at pos src f) = resize pos 0 f ++ src.
Proof.
  intros Hs. destruct src as [|x src]; [done|]. unfold write_at.
  rewrite app_assoc, take_app_le by (rewrite length_app, length_resize; lia).
  rewrite take_ge; [done|]. rewrite length_app, length_resize. done.
Qed.

Lemma write_at_length pos src f : src <> [] -> length (write_at pos src f) = Nat.max (pos + length src) (length f).
Proof.
  intros Hs. destruct src as [|x src]; [done|]. unfold write_at.
  rewrite !length_app, length_resize, length_drop. lia.
Qed.

Lemma write_at_drop pos src f n : src <> [] -> (pos + length src <= n)%nat -> drop n (write_at pos src f) = drop n f.
Proof.
  intros Hs Hn. destruct src as [|x src]; [done|]. unfold write_at.
  rewrite app_assoc, drop_app_ge by (rewrite length_app, length_resize; lia).
  rewrite drop_drop. f_equal. rewrite length_app, length_resize. lia.
Qed.

Lemma write_at_app pos a b f : write_at (pos + length a) b (write_at pos a f) = write_at pos (a ++ b) f.
Proof.
  destruct b as [|y b]; [by rewrite app_nil_r|]. destruct a as [|x a]; [by rewrite Nat.add_0_r|].
  set (A := x :: a) in *. set (B := y :: b) in *.
  assert (HA : A <> []) by done. assert (HAB : A ++ B <> []) by done.
  unfold write_at at 1. fold B. destruct B eqn:EB; [done|]. rewrite <- EB.
  assert (Hr : resize (pos + length A) 0 (write_at pos A f) = resize pos 0 f ++ A).
  { rewrite resize_le by (rewrite write_at_length by done; lia). by apply write_at_take_drop. }
  rewrite Hr, write_at_drop by (done || lia).
  unfold write_at. destruct (A ++ B) eqn:E; [done|]. rewrite <- E, <- !app_assoc, length_app.
  f_equal. f_equal. f_equal. f_equal. lia.
Qed.

Lemma subarray_extend (f : list Z) a b c : (a <= b)%nat -> (b <= c)%nat -> (b <= length f)%nat ->
  subarray f a b ++ subarray f b c = subarray f a c.
Proof.
  intros Hab Hbc Hl. unfold subarray. replace (c - a)%nat with ((b - a) + (c - b))%nat by lia.
  rewrite <- take_take_drop. f_equal. rewrite drop_drop. do 2 f_equal. lia.
Qed.

(** ** [readExact] *)

Section Transfers.
Context {Wd : Type} `{LawfulPort Wd}.

Lemma checkedRange_Ok offset len start : checkedRange offset len = Ok start ->
  start = offset /\ 0 <= offset /\ 0 <= len.
Proof.
  unfold checkedRange. intros Hr. apply bind_Ok in Hr as (a & [-> Ha]%checkedU64_Ok & Hr).
  apply bind_Ok in Hr as (u & Hl%throw_if_Ok & Hr). apply bind_Ok in Hr as (b & _ & Hr).
  apply bind_Ok in Hr as (c & _ & [-> ?]%checkedSafeNumber_Ok). propify. unfold u64 in *. lia.
Qed.

Lemma no_fuel_checkedRange offset len : checkedRange offset len <> Throw FuelExhausted.
Proof. unfold checkedRange, checkedAdd, checkedSafeNumber. nofuel. Qed.

(** What any run of the read loop establishes. *)
Definition read_outcome (name : OwnedFileName) (start len : Z) (w w' : Wd) (r : R (list Z)) : Prop :=
  port_ok w' /\ (forall f, file w' f = file w f) /\ r <> Throw FuelExhausted /\
  forall out, r = Ok out -> (0 < len -> start + len <= byteLength (file w name)) /\
    out = subarray (file w name) (Z.to_nat start) (Z.to_nat (start + len)).

Lemma readLoop_spec fuel name start len output w w' r :
  port_ok w -> 0 <= start -> byteLength output <= len -> (Z.to_nat (len - byteLength output) <= fuel)%nat ->
  (0 < byteLength output -> start + byteLength output <= byteLength (file w name)) ->
  output = subarray (file w name) (Z.to_nat start) (Z.to_nat (start + byteLength output)) ->
  readLoop fuel name start len output w = (w', r) -> read_outcome name start len w w' r.
Proof.
  intros Hok Hs. revert output w Hok. induction fuel as [|fuel IH]; intros output w Hok Hle Hf Hb Ho; cbn [readLoop];
    fold (byteLength output); destruct (byteLength output <? len) eqn:E; propify.
  - lia.
  - intros [= <- <-]. split; [done|]. split; [done|]. split; [done|]. intros out [= <-].
    assert (byteLength output = len) as Heq by lia. rewrite Heq in *. done.
  - intros Hrun. unfold mbind, ST_bind in Hrun.
    destruct (read name (len - byteLength output) (start + byteLength output) w) as [w1 r1] eqn:Er.
    assert (0 <= byteLength output) by (unfold byteLength; lia).
    apply read_law in Er as (Hok1 & Hsame & Hnf & Hread); [|done|lia].
    destruct r1 as [[count bytes]|e]; [|injection Hrun as <- <-; split; [done|]; split; [done|]; split; [by intros [= ->]; apply Hnf|done]].
    unfold st_lift in Hrun. destruct (throw_if _ _) as [u|e] eqn:Et.
    2:{ injection Hrun as <- <-. apply throw_if_Throw in Et as [_ <-]. split; [done|]. split; [done|]. by split. }
    apply throw_if_Ok in Et. propify. destruct (Hread count bytes eq_refl) as [Hin ->]; [lia|].
    set (stop := start + byteLength output + count) in *.
    assert (Hlen : length (subarray (file w name) (Z.to_nat (start + byteLength output)) (Z.to_nat stop)) = Z.to_nat count).
    { unfold subarray. rewrite length_take, length_drop. unfold stop, byteLength in *. lia. }
    assert (Hres : resize (Z.to_nat count) 0 (subarray (file w name) (Z.to_nat (start + byteLength output)) (Z.to_nat stop))
      = subarray (file w name) (Z.to_nat (start + byteLength output)) (Z.to_nat stop))
      by (rewrite resize_le by lia; apply take_ge; lia).
    rewrite Hres in Hrun. apply IH in Hrun; [| |clear Hrun..].
    + destruct Hrun as (Hok' & Hf' & Hnf' & Hout). split; [done|]. split; [intros f; by rewrite Hf', Hsame|]. split; [done|].
      intros out Hr. rewrite !Hsame in Hout. by apply Hout.
    + done.
    + unfold byteLength in *. rewrite length_app, Hlen. lia.
    + unfold byteLength in *. rewrite length_app, Hlen. lia.
    + unfold byteLength in *. rewrite length_app, Hlen, Hsame. unfold stop, byteLength in *. lia.
    + assert (Hbl : byteLength (output ++ subarray (file w name) (Z.to_nat (start + byteLength output)) (Z.to_nat stop))
        = byteLength output + count) by (unfold byteLength in *; rewrite length_app, Hlen; lia).
      rewrite Hbl, Hsame, Z.add_assoc. fold stop. rewrite Ho at 1. apply subarray_extend; unfold stop, byteLength in *; lia.
  - intros [= <- <-]. split; [done|]. split; [done|]. split; [done|]. intros out [= <-].
    assert (byteLength output = len) as Heq by lia. rewrite Heq in *. done.
Qed.

Lemma readExact_outcome name offset len maximum w w' r :
  port_ok w -> readExact name offset len maximum w = (w', r) -> read_outcome name offset len w w' r.
Proof.
  intros Hok. unfold readExact. rewrite st_bind_lift. destruct (throw_if _ _) as [u|e] eqn:Et.
  2:{ apply throw_if_Throw in Et as [_ <-]. intros [= <- <-]. split; [done|]. split; [done|]. by split. }
  rewrite st_bind_lift. destruct (checkedRange offset len) as [start|e] eqn:Er.
  2:{ intros [= <- <-]. pose proof (no_fuel_checkedRange offset len). split; [done|]. split; [done|]. split; [by intros [= ->]|done]. }
  apply checkedRange_Ok in Er as (-> & Ho & Hl). apply readLoop_spec; unfold byteLength; cbn; [done|done|lia|lia|lia|].
  unfold subarray. by rewrite Z.add_0_r, Nat.sub_diag.
Qed.

(** ** [writeExact] *)

Definition write_outcome (name : OwnedFileName) (start : Z) (bytes : list Z) (w w' : Wd) (r : R unit) : Prop :=
  port_ok w' /\ (forall f, f <> name -> file w' f = file w f) /\ r <> Throw FuelExhausted /\
  exists k, (k <= length bytes)%nat /\ file w' name = write_at (Z.to_nat start) (take k bytes) (file w name) /\
    (r = Ok tt -> k = length bytes).

Lemma writeLoop_spec fuel name start completed bytes w0 w w' r :
  port_ok w -> 0 <= start -> 0 <= completed <= byteLength bytes -> (Z.to_nat (byteLength bytes - completed) <= fuel)%nat ->
  (forall f, f <> name -> file w f = file w0 f) ->
  file w name = write_at (Z.to_nat start) (take (Z.to_nat completed) bytes) (file w0 name) ->
  writeLoop fuel name start completed bytes w = (w', r) -> write_outcome name start bytes w0 w' r.
Proof.
  intros Hok Hs. revert completed w Hok. induction fuel as [|fuel IH]; intros completed w Hok Hc Hf Hoth Hw; cbn [writeLoop];
    fold (byteLength bytes); destruct (completed <? byteLength bytes) eqn:E; propify.
  - lia.
  - intros [= <- <-]. split; [done|]. split; [done|]. split; [done|]. exists (Z.to_nat completed). unfold byteLength in *.
    split; [lia|]. split; [done|]. intros _. lia.
  - intros Hrun. unfold mbind, ST_bind in Hrun.
    destruct (write name (drop (Z.to_nat completed) bytes) (start + completed) w) as [w1 r1] eqn:Er.
    apply write_law in Er as (Hok1 & Hnf & k & Hk & Hw1 & Hoth1 & Hcount); [|done|lia].
    rewrite length_drop in Hk.
    assert (Hlen : length (take (Z.to_nat completed) bytes) = Z.to_nat completed)
      by (rewrite length_take; unfold byteLength in *; lia).
    assert (Hfile : file w1 name = write_at (Z.to_nat start) (take (Z.to_nat completed + k) bytes) (file w0 name)).
    { rewrite Hw1, Hw, <- take_take_drop, <- write_at_app, Hlen. f_equal. lia. }
    assert (Hoth' : forall f, f <> name -> file w1 f = file w0 f) by (intros f Hne; rewrite Hoth1, Hoth by done; done).
    destruct r1 as [count|e].
    2:{ injection Hrun as <- <-. split; [done|]. split; [done|]. split; [by intros [= ->]|]. exists (Z.to_nat completed + k)%nat.
        unfold byteLength in *. split; [lia|done]. }
    unfold st_lift in Hrun. destruct (throw_if _ _) as [u|e] eqn:Et.
    2:{ injection Hrun as <- <-. apply throw_if_Throw in Et as [_ <-]. split; [done|]. split; [done|]. split; [done|].
        exists (Z.to_nat completed + k)%nat. unfold byteLength in *. split; [lia|done]. }
    apply throw_if_Ok in Et. propify. unfold byteLength in *.
    specialize (Hcount count eq_refl). rewrite length_drop in Hcount. rewrite Hcount in Hfile by lia.
    apply IH in Hrun; [done|done|lia|lia|done|]. rewrite Hfile. f_equal. f_equal. lia.
  - intros [= <- <-]. split; [done|]. split; [done|]. split; [done|]. exists (Z.to_nat completed). unfold byteLength in *.
    split; [lia|]. split; [done|]. intros _. lia.
Qed.

Lemma writeExact_outcome name offset bytes w w' r :
  port_ok w -> writeExact name offset bytes w = (w', r) -> write_outcome name offset bytes w w' r.
Proof.
  intros Hok. unfold writeExact. rewrite st_bind_lift. destruct (checkedRange _ _) as [start|e] eqn:Er.
  2:{ intros [= <- <-]. pose proof (no_fuel_checkedRange offset (Z.of_nat (length bytes))). split; [done|]. split; [done|].
      split; [by intros [= ->]|]. exists 0%nat. split; [lia|]. split; [done|]. congruence. }
  apply checkedRange_Ok in Er as (-> & Ho & Hl). apply writeLoop_spec; unfold byteLength; [done|done|lia|lia|done|done].
Qed.
End Transfers.

(** ** Progress

    Reads that return at least one byte inside the file make every exact read inside the file
    succeed. *)
Section Progress.
Context {Wd : Type} `{LawfulPort Wd}.

Definition readable (good : Wd -> Prop) : Prop := forall name n pos w,
  good w -> port_ok w -> 0 < n -> 0 <= pos -> pos < byteLength (file w name) -> pos + n <= MAX_SAFE_INTEGER ->
  exists w' count bytes, read name n pos w = (w', Ok (count, bytes)) /\ 0 < count <= n /\ good w'.

Lemma readLoop_total good fuel name start len output w : readable good ->
  good w -> port_ok w -> 0 <= start -> (Z.to_nat (len - byteLength output) <= fuel)%nat ->
  start + len <= byteLength (file w name) -> start + len <= MAX_SAFE_INTEGER ->
  exists w' out, readLoop fuel name start len output w = (w', Ok out) /\ good w'.
Proof.
  intros Hread. revert output w. induction fuel as [|fuel IH]; intros output w Hg Hok Hs Hf Hin Hm; cbn [readLoop];
    fold (byteLength output); destruct (byteLength output <? len) eqn:E; propify; [lia|eauto| |eauto].
  assert (0 <= byteLength output) by (unfold byteLength; lia).
  destruct (Hread name (len - byteLength output) (start + byteLength output) w Hg Hok) as (w1 & count & bytes & Hr & Hc & Hg1);
    [lia|lia|lia|lia|].
  pose proof Hr as Hlaw. apply read_law in Hlaw as (Hok1 & Hsame & _ & _); [|done|lia].
  rewrite (st_bind_run _ _ _ _ _ Hr). cbv beta iota. rewrite st_bind_lift.
  assert (Hguard : (negb (isSafeInteger count) || (count <=? 0) || (len - byteLength output <? count)) = false).
  { unfold isSafeInteger. rewrite (proj2 (Z.leb_le (Z.abs count) _)), (proj2 (Z.leb_gt count 0)), (proj2 (Z.ltb_ge _ count)) by lia. done. }
  rewrite Hguard. cbn [throw_if].
  apply IH; [done|done|done| |by rewrite Hsame|done].
  unfold byteLength in *. rewrite length_app, length_resize. lia.
Qed.

Lemma readExact_total good name offset len maximum w : readable good -> good w -> port_ok w ->
  0 <= offset -> 0 <= len <= maximum -> maximum <= MAX_SAFE_INTEGER ->
  offset + len <= byteLength (file w name) -> offset + len <= MAX_SAFE_INTEGER ->
  exists w', readExact name offset len maximum w
             = (w', Ok (subarray (file w name) (Z.to_nat offset) (Z.to_nat (offset + len)))) /\ good w'.
Proof.
  intros Hread Hg Hok Ho Hl Hmax Hin Hsafe.
  assert (Hrange : checkedRange offset len = Ok offset).
  { unfold checkedRange, isSafeInteger. rewrite checkedU64_id by ll. cbn [mbind result_bind].
    rewrite (proj2 (Z.leb_le _ _)), (proj2 (Z.ltb_ge len 0)) by lia. cbn [negb orb throw_if mbind result_bind].
    unfold checkedAdd. rewrite checkedU64_id by ll. cbn [mbind result_bind].
    rewrite (proj2 (checkedSafeNumber_Ok (offset + len) _)) by (split; [done|lia]). cbn [mbind result_bind].
    apply checkedSafeNumber_Ok. split; [done|lia]. }
  destruct (readLoop_total good (Z.to_nat len) name offset len [] w Hread Hg Hok Ho) as (w' & out & Hr & Hg');
    [unfold byteLength; cbn; lia|lia|lia|].
  exists w'. split; [|done].
  assert (He : readExact name offset len maximum w = (w', Ok out)).
  { unfold readExact. rewrite st_bind_lift. unfold isSafeInteger.
    rewrite (proj2 (Z.leb_le _ _)), (proj2 (Z.ltb_ge maximum 0)), (proj2 (Z.ltb_ge maximum len)) by lia.
    cbn [negb orb throw_if]. by rewrite st_bind_lift, Hrange. }
  rewrite He. apply readExact_outcome in He as (_ & _ & _ & Hout); [|done].
  by destruct (Hout out eq_refl) as [_ ->].
Qed.
End Progress.

(** ** The arena *)

Lemma arenaByteOffset_Ok extentId es within pos : arenaByteOffset extentId es within = Ok pos <->
  pos = ARENA_HEADER_BYTES + extentId * es + within /\ extent_size_ok es /\ 0 <= extentId < MAX_TOTAL_EXTENTS /\
  0 <= within < es.
Proof.
  unfold arenaByteOffset, checkedAdd, checkedMultiply. split.
  - intros H. apply bind_Ok in H as (e & [-> He]%validateExtentSize_Ok & H).
    apply bind_Ok in H as (k & [-> Hk]%checkedU64_Ok & H). apply bind_Ok in H as (u & Hm%throw_if_Ok & H).
    apply bind_Ok in H as (u2 & Hw%throw_if_Ok & H). apply bind_Ok in H as (p & [-> Hp]%checkedU64_Ok & H).
    apply bind_Ok in H as (b & [-> Hb]%checkedU64_Ok & H). apply checkedU64_Ok in H as [-> H]. propify.
    unfold u64 in *. split; [done|]. split; [done|]. lia.
  - intros (-> & He & Hk & Hw). pose proof He as [Hes _].
    assert (extentId * es <= MAX_TOTAL_EXTENTS * MAX_EXTENT_BYTES) by (apply Z.mul_le_mono_nonneg; ll).
    assert (0 <= extentId * es) by (apply Z.mul_nonneg_nonneg; ll).
    rewrite (proj2 (validateExtentSize_Ok es es)) by done. cbn [mbind result_bind].
    rewrite (checkedU64_id extentId) by ll. cbn [mbind result_bind].
    rewrite (proj2 (Z.leb_gt MAX_TOTAL_EXTENTS extentId)) by lia. unfold isSafeInteger.
    rewrite (proj2 (Z.leb_le (Z.abs within) _)), (proj2 (Z.ltb_ge within 0)), (proj2 (Z.leb_gt es within)) by ll.
    cbn [negb orb throw_if mbind result_bind].
    rewrite !checkedU64_id by ll. cbn [mbind result_bind]. rewrite !checkedU64_id by ll. cbn [mbind result_bind].
    by rewrite !checkedU64_id by ll.
Qed.
