(* ===== verification/MemoryPort.v ===== *)
(** * The in-memory port

    [MemoryRepackedPort] and [MemoryHandle] of [packages/pgwasm/src/opfs/core/memory-port.ts]: volatile
    and durable images, the log of pending effects, injected faults and simulated termination. *)

From S2P Require Export Port Bytes.

(** ** Images

    A live image is a view of the first [view] bytes of a buffer it owns alone; the rest of the buffer
    is spare capacity that may hold stale bytes. *)
Record Image : Type := mkImage { buffer : list Z; view : nat }.

Definition image_bytes (im : Image) : list Z := take (view im) (buffer im).
Definition new_image (bytes : list Z) : Image := mkImage bytes (length bytes).
Definition clone_image (im : Image) : Image := new_image (image_bytes im).

(** [applyWrite] and [applyTruncate], on materialized copies. *)
Definition applyWrite (current : list Z) (at_ : nat) (source : list Z) : list Z :=
  let required := (at_ + length source)%nat in
  let next := if Nat.leb required (length current) then current
              else current ++ replicate (required - length current) 0 in
  set_bytes at_ source next.

Definition applyTruncate (current : list Z) (size : nat) : list Z :=
  if Nat.eqb size (length current) then current
  else take size current ++ replicate (size - length current) 0.

Definition resizeImage (current : Image) (size : nat) : Image :=
  if Nat.leb size (view current) then mkImage (buffer current) size
  else if Nat.leb size (length (buffer current))
  then mkImage (take (view current) (buffer current) ++ replicate (size - view current) 0
                ++ drop size (buffer current)) size
  else
    let capacity := Nat.max size (Nat.max (length (buffer current) * 2) 64) in
    mkImage (image_bytes current ++ replicate (capacity - view current) 0) size.

(** [image.set(data, at)]; the range was made to fit. *)
Definition image_set (im : Image) (at_ : nat) (data : list Z) : Image :=
  mkImage (set_bytes at_ data (buffer im)) (view im).

(** ** State *)

Inductive MemoryOperation : Type :=
| OpEnumerate | OpAcquire | OpGetSize | OpRead | OpWriteFile | OpTruncateFile | OpFlush.
Inductive FaultOutcome : Type := Short | ThrowBefore | ThrowAfter | Quota.

#[global] Instance MemoryOperation_eq_dec : EqDecision MemoryOperation.
Proof. solve_decision. Defined.
#[global] Instance FaultOutcome_eq_dec : EqDecision FaultOutcome.
Proof. solve_decision. Defined.

Record MemoryFault : Type := mkFault {
  fault_operation : MemoryOperation;
  fault_outcome : FaultOutcome;
  fault_file : option jsstr;
  fault_label : option jsstr;
  fault_bytes : option Z;
  fault_occurrence : option Z
}.

Inductive MemoryEffect : Type :=
| WriteEffect (id : Z) (file : OwnedFileName) (at_ : nat) (data : list Z)
| TruncateEffect (id : Z) (file : OwnedFileName) (size : nat).

Definition effect_id (e : MemoryEffect) : Z :=
  match e with WriteEffect id _ _ _ | TruncateEffect id _ _ => id end.
Definition effect_file (e : MemoryEffect) : OwnedFileName :=
  match e with WriteEffect _ file _ _ | TruncateEffect _ file _ => file end.

Inductive TerminationDecision : Type := Absent | Full | Prefix (bytes : Z).

Record MemoryOperationRecord : Type := mkOperation {
  mo_operation : MemoryOperation;
  mo_file : option OwnedFileName;
  mo_label : jsstr;
  mo_copiedBytes : option Z
}.

Record MemoryRepackedPort : Type := mkMemoryPort {
  durable : gmap OwnedFileName Image;
  volatile : gmap OwnedFileName Image;
  entryKinds : list (jsstr * EntryKind);
  open_names : gset OwnedFileName;
  faults : list MemoryFault;
  operations : list MemoryOperationRecord;
  effects : list MemoryEffect;
  nextEffectId : Z;
  epoch : Z
}.

Definition newMemoryPort : MemoryRepackedPort := mkMemoryPort ∅ ∅ [] ∅ [] [] [] 1 1.

Abbreviation P := (M MemoryRepackedPort).

Definition set_durable (f : gmap OwnedFileName Image -> gmap OwnedFileName Image) (p : MemoryRepackedPort) :=
  mkMemoryPort (f (durable p)) (volatile p) (entryKinds p) (open_names p) (faults p) (operations p) (effects p)
    (nextEffectId p) (epoch p).
Definition set_volatile (f : gmap OwnedFileName Image -> gmap OwnedFileName Image) (p : MemoryRepackedPort) :=
  mkMemoryPort (durable p) (f (volatile p)) (entryKinds p) (open_names p) (faults p) (operations p) (effects p)
    (nextEffectId p) (epoch p).
Definition set_entryKinds (f : list (jsstr * EntryKind) -> list (jsstr * EntryKind)) (p : MemoryRepackedPort) :=
  mkMemoryPort (durable p) (volatile p) (f (entryKinds p)) (open_names p) (faults p) (operations p) (effects p)
    (nextEffectId p) (epoch p).
Definition set_open (f : gset OwnedFileName -> gset OwnedFileName) (p : MemoryRepackedPort) :=
  mkMemoryPort (durable p) (volatile p) (entryKinds p) (f (open_names p)) (faults p) (operations p) (effects p)
    (nextEffectId p) (epoch p).
Definition set_faults (f : list MemoryFault -> list MemoryFault) (p : MemoryRepackedPort) :=
  mkMemoryPort (durable p) (volatile p) (entryKinds p) (open_names p) (f (faults p)) (operations p) (effects p)
    (nextEffectId p) (epoch p).
Definition set_operations (f : list MemoryOperationRecord -> list MemoryOperationRecord) (p : MemoryRepackedPort) :=
  mkMemoryPort (durable p) (volatile p) (entryKinds p) (open_names p) (faults p) (f (operations p)) (effects p)
    (nextEffectId p) (epoch p).
Definition set_effects (f : list MemoryEffect -> list MemoryEffect) (p : MemoryRepackedPort) :=
  mkMemoryPort (durable p) (volatile p) (entryKinds p) (open_names p) (faults p) (operations p) (f (effects p))
    (nextEffectId p) (epoch p).
Definition set_nextEffectId (n : Z) (p : MemoryRepackedPort) :=
  mkMemoryPort (durable p) (volatile p) (entryKinds p) (open_names p) (faults p) (operations p) (effects p)
    n (epoch p).

(** ** Private helpers *)

Definition recordOperation (operation : MemoryOperation) (file : option OwnedFileName) (label : jsstr) : P unit :=
  st_modify (set_operations (fun ops => ops ++ [mkOperation operation file label None])).

Definition fault_matches (operation : MemoryOperation) (file : option OwnedFileName) (label : jsstr)
  (fault : MemoryFault) : bool :=
  bool_decide (fault_operation fault = operation)
  && match fault_file fault with None => true | Some f => bool_decide (Some f = (fileName <$> file)) end
  && match fault_label fault with None => true | Some l => bool_decide (l = label) end.

(** [#takeFault] on the list: the fault that fires, if any, and what remains. *)
Fixpoint take_fault (operation : MemoryOperation) (file : option OwnedFileName) (label : jsstr)
  (fs : list MemoryFault) : option MemoryFault * list MemoryFault :=
  match fs with
  | [] => (None, [])
  | fault :: rest =>
      if fault_matches operation file label fault then
        if 0 <? default 0 (fault_occurrence fault)
        then (None, mkFault (fault_operation fault) (fault_outcome fault) (fault_file fault) (fault_label fault)
                      (fault_bytes fault) ((fun o => o - 1) <$> fault_occurrence fault) :: rest)
        else (Some fault, rest)
      else let '(found, rest) := take_fault operation file label rest in (found, fault :: rest)
  end.

Definition takeFault (operation : MemoryOperation) (file : option OwnedFileName) (label : jsstr)
  : P (option MemoryFault) :=
  p ← st_get;
  let '(found, rest) := take_fault operation file label (faults p) in
  st_modify (set_faults (fun _ => rest)) ≫= fun _ => mret found.

Definition has_outcome (fault : option MemoryFault) (outcome : FaultOutcome) : bool :=
  match fault with Some f => bool_decide (fault_outcome f = outcome) | None => false end.

Definition validateRange (at_ len : Z) : R unit :=
  throw_if (negb (isSafeInteger at_) || negb (isSafeInteger len) || (at_ <? 0) || (len <? 0)) RangeError ≫= fun _ =>
  throw_if (negb (isSafeInteger (at_ + len))) RangeError.

Definition file_of (name : OwnedFileName) : P Image :=
  p ← st_get; st_lift (or_throw (volatile p !! name) PlainError).

Definition pushEffect (effect : Z -> MemoryEffect) : P unit :=
  p ← st_get;
  st_modify (set_effects (fun es => es ++ [effect (nextEffectId p)])) ≫= fun _ =>
  st_modify (set_nextEffectId (nextEffectId p + 1)).

Definition recordWrite (name : OwnedFileName) (at_ : nat) (source : list Z) : P unit :=
  current ← file_of name;
  let required := (at_ + length source)%nat in
  let target := if Nat.ltb (view current) required then resizeImage current required else current in
  st_modify (set_volatile (fun v => <[name := image_set target at_ source]> v)) ≫= fun _ =>
  pushEffect (fun id => WriteEffect id name at_ source).

(** The part of [handleTruncate] that takes effect. *)
Definition recordTruncate (name : OwnedFileName) (size : nat) : P unit :=
  im ← file_of name;
  st_modify (set_volatile (fun v => <[name := resizeImage im size]> v)) ≫= fun _ =>
  pushEffect (fun id => TruncateEffect id name size).

(** [resized.buffer !== image.buffer]: a new buffer was allocated. *)
Definition reallocates (image : Image) (size : nat) : bool := Nat.ltb (length (buffer image)) size.

(** One effect of the file applied to its durable image, and the bytes copied so far. *)
Definition makeDurableStep (acc : Image * Z) (effect : MemoryEffect) : Image * Z :=
  let '(image, copied) := acc in
  match effect with
  | TruncateEffect _ _ size =>
      (resizeImage image size, if reallocates image size then copied + Z.of_nat (view image) else copied)
  | WriteEffect _ _ at_ data =>
      let required := (at_ + length data)%nat in
      let '(image, copied) :=
        if Nat.ltb (view image) required
        then (resizeImage image required, if reallocates image required then copied + Z.of_nat (view image) else copied)
        else (image, copied) in
      (image_set image at_ data, copied + Z.of_nat (length data))
  end.

Definition makeDurable (name : OwnedFileName) : P Z :=
  p ← st_get;
  let mine := filter (fun e => effect_file e = name) (effects p) in
  let remaining := filter (fun e => effect_file e <> name) (effects p) in
  let '(image, copied) := foldl makeDurableStep (default (new_image []) (durable p !! name), 0) mine in
  st_modify (set_durable (fun d => <[name := image]> d)) ≫= fun _ =>
  st_modify (set_effects (fun _ => remaining)) ≫= fun _ =>
  mret copied.

(** [record.copiedBytes = n] on the operation recorded last. *)
Definition setCopiedBytes (n : Z) : P unit :=
  st_modify (set_operations (fun ops =>
    match last ops with
    | Some op => removelast ops ++ [mkOperation (mo_operation op) (mo_file op) (mo_label op) (Some n)]
    | None => ops
    end)).

(** ** Operations of the port *)

Section MemoryPortOperations.
(** [localeCompare] of the host, and its stable sort of the entries by name. *)
Context (sortByName : list (jsstr * EntryKind) -> list (jsstr * EntryKind)).

Definition memory_enumerate (label : jsstr) : P (list RepackedPortEntry) :=
  recordOperation OpEnumerate None label ≫= fun _ =>
  fault ← takeFault OpEnumerate None label;
  st_lift (throw_if (bool_decide (is_Some fault)) PlainError) ≫= fun _ =>
  p ← st_get;
  mret ((fun '(name, kind) => mkEntry name kind) <$> sortByName (entryKinds p)).

End MemoryPortOperations.

Record MemoryHandle : Type := mkHandle { h_epoch : Z; h_closed : bool }.

Definition memory_acquire (name : OwnedFileName) (label : jsstr) : P MemoryHandle :=
  recordOperation OpAcquire (Some name) label ≫= fun _ =>
  fault ← takeFault OpAcquire (Some name) label;
  st_lift (throw_if (has_outcome fault ThrowBefore) PlainError) ≫= fun _ =>
  p ← st_get;
  st_lift (throw_if (bool_decide (name ∈ open_names p)) StoreOwnedError) ≫= fun _ =>
  st_lift (throw_if (match JsMap.get (entryKinds p) (fileName name) with Some EntryDirectory => true | _ => false end)
             PlainError) ≫= fun _ =>
  (if bool_decide (is_Some (volatile p !! name)) then mret tt
   else
     st_modify (set_volatile (fun v => <[name := new_image []]> v)) ≫= fun _ =>
     st_modify (set_durable (fun d => <[name := new_image []]> d)) ≫= fun _ =>
     st_modify (set_entryKinds (fun k => JsMap.set k (fileName name) EntryFile))) ≫= fun _ =>
  st_lift (throw_if (bool_decide (is_Some fault)) PlainError) ≫= fun _ =>
  st_modify (set_open (fun o => {[name]} ∪ o)) ≫= fun _ =>
  mret (mkHandle (epoch p) false).

Definition ownedFileName (name : jsstr) : option OwnedFileName :=
  list_find (fun n => fileName n = name) OWNED_FILE_NAMES ≫= fun '(_, n) => Some n.

Definition injectEntry (name : jsstr) (kind : EntryKind) : P unit :=
  p ← st_get;
  let owned := ownedFileName name in
  st_lift (throw_if (match owned with Some n => bool_decide (n ∈ open_names p) | None => false end) PlainError)
    ≫= fun _ =>
  st_modify (set_entryKinds (fun k => JsMap.set k name kind)) ≫= fun _ =>
  match owned with
  | None => mret tt
  | Some n =>
      st_modify (set_effects (filter (fun e => effect_file e <> n))) ≫= fun _ =>
      match kind with
      | EntryFile =>
          st_modify (set_volatile (fun v => <[n := new_image []]> v)) ≫= fun _ =>
          st_modify (set_durable (fun d => <[n := new_image []]> d))
      | EntryDirectory =>
          st_modify (set_volatile (delete n)) ≫= fun _ =>
          st_modify (set_durable (delete n))
      end
  end.

Definition invalid_count (n : option Z) : bool :=
  match n with Some v => negb (isSafeInteger v) || (v <? 0) | None => false end.

Definition injectFault (fault : MemoryFault) : P unit :=
  st_lift (throw_if (bool_decide (fault_outcome fault = Quota)
                     && negb (bool_decide (fault_operation fault = OpTruncateFile))) TypeError) ≫= fun _ =>
  st_lift (throw_if (invalid_count (fault_bytes fault)) TypeError) ≫= fun _ =>
  st_lift (throw_if (invalid_count (fault_occurrence fault)) TypeError) ≫= fun _ =>
  st_modify (set_faults (fun fs => fs ++ [fault])).

Definition durableBytes (p : MemoryRepackedPort) (name : OwnedFileName) : list Z :=
  image_bytes (default (new_image []) (durable p !! name)).

(** One effect of a termination: absent, whole, or a prefix of a write. *)
Definition terminateStep (decisions : Z -> TerminationDecision) (materialized : gmap OwnedFileName (list Z))
  (effect : MemoryEffect) : R (gmap OwnedFileName (list Z)) :=
  let decision := decisions (effect_id effect) in
  match decision with
  | Absent => Ok materialized
  | _ =>
      let current := default [] (materialized !! effect_file effect) in
      match effect with
      | TruncateEffect _ file size =>
          match decision with
          | Full => Ok (<[file := applyTruncate current size]> materialized)
          | _ => Throw TypeError
          end
      | WriteEffect _ file at_ data =>
          let bytes := match decision with Prefix n => n | _ => Z.of_nat (length data) end in
          throw_if (negb (isSafeInteger bytes) || (bytes <? 0) || (Z.of_nat (length data) <? bytes)) TypeError
            ≫= fun _ =>
          Ok (if 0 <? bytes then <[file := applyWrite current at_ (take (Z.to_nat bytes) data)]> materialized
              else materialized)
      end
  end.

Definition terminate (decisions : Z -> TerminationDecision) : P unit :=
  p ← st_get;
  materialized ← st_lift (foldM (terminateStep decisions) (image_bytes <$> durable p) (effects p));
  st_modify (fun p => mkMemoryPort (new_image <$> materialized) (new_image <$> materialized) (entryKinds p) ∅ []
               (operations p) [] (nextEffectId p) (epoch p + 1)).

(** ** Operations of the handles *)

Definition handleGetSize (name : OwnedFileName) (label : jsstr) : P Z :=
  recordOperation OpGetSize (Some name) label ≫= fun _ =>
  fault ← takeFault OpGetSize (Some name) label;
  st_lift (throw_if (bool_decide (is_Some fault)) PlainError) ≫= fun _ =>
  im ← file_of name;
  mret (Z.of_nat (view im)).

(** The count and the bytes stored into the target, of [length] bytes. *)
Definition handleRead (name : OwnedFileName) (len at_ : Z) (label : jsstr) : P (Z * list Z) :=
  st_lift (validateRange at_ len) ≫= fun _ =>
  recordOperation OpRead (Some name) label ≫= fun _ =>
  fault ← takeFault OpRead (Some name) label;
  st_lift (throw_if (has_outcome fault ThrowBefore || has_outcome fault ThrowAfter) PlainError) ≫= fun _ =>
  source ← file_of name;
  let available := Z.max 0 (Z.min len (Z.of_nat (view source) - at_)) in
  let count := match fault with
               | Some f => if bool_decide (fault_outcome f = Short) then Z.min available (default 0 (fault_bytes f))
                           else available
               | None => available
               end in
  mret (count, subarray (image_bytes source) (Z.to_nat at_) (Z.to_nat (at_ + count))).

Definition handleWrite (name : OwnedFileName) (source : list Z) (at_ : Z) (label : jsstr) : P Z :=
  st_lift (validateRange at_ (Z.of_nat (length source))) ≫= fun _ =>
  recordOperation OpWriteFile (Some name) label ≫= fun _ =>
  fault ← takeFault OpWriteFile (Some name) label;
  st_lift (throw_if (has_outcome fault ThrowBefore) PlainError) ≫= fun _ =>
  let len := Z.of_nat (length source) in
  let count := match fault with
               | Some f => if bool_decide (fault_outcome f = Short) || bool_decide (fault_outcome f = ThrowAfter)
                           then Z.min len (default len (fault_bytes f)) else len
               | None => len
               end in
  (if 0 <? count then recordWrite name (Z.to_nat at_) (take (Z.to_nat count) source) else mret tt) ≫= fun _ =>
  st_lift (throw_if (has_outcome fault ThrowAfter) PlainError) ≫= fun _ =>
  mret count.

Definition handleTruncate (name : OwnedFileName) (size : Z) (label : jsstr) : P unit :=
  st_lift (validateRange size 0) ≫= fun _ =>
  recordOperation OpTruncateFile (Some name) label ≫= fun _ =>
  fault ← takeFault OpTruncateFile (Some name) label;
  st_lift (throw_if (has_outcome fault Quota) QuotaExceededError) ≫= fun _ =>
  st_lift (throw_if (has_outcome fault ThrowBefore) PlainError) ≫= fun _ =>
  recordTruncate name (Z.to_nat size) ≫= fun _ =>
  st_lift (throw_if (has_outcome fault ThrowAfter) PlainError).

Definition handleFlush (name : OwnedFileName) (label : jsstr) : P unit :=
  recordOperation OpFlush (Some name) label ≫= fun _ =>
  setCopiedBytes 0 ≫= fun _ =>
  fault ← takeFault OpFlush (Some name) label;
  st_lift (throw_if (has_outcome fault ThrowBefore) PlainError) ≫= fun _ =>
  copied ← makeDurable name;
  setCopiedBytes copied ≫= fun _ =>
  st_lift (throw_if (has_outcome fault ThrowAfter) PlainError).

Definition handleClose (name : OwnedFileName) : P unit :=
  st_modify (set_open (fun o => o ∖ {[name]})).

(** ** Observation *)

Record MemoryEffectSummary : Type := mkSummary {
  summary_id : Z;
  summary_file : OwnedFileName;
  summary_operation : MemoryOperation;
  summary_bytes : Z
}.

Definition pendingEffects (p : MemoryRepackedPort) : list MemoryEffectSummary :=
  (fun e => match e with
            | WriteEffect id file _ data => mkSummary id file OpWriteFile (Z.of_nat (length data))
            | TruncateEffect id file size => mkSummary id file OpTruncateFile (Z.of_nat size)
            end) <$> effects p.

Definition openHandleCount (p : MemoryRepackedPort) : Z := Z.of_nat (size (open_names p)).
Definition observedOperations (p : MemoryRepackedPort) : list MemoryOperationRecord := operations p.
Definition clearObservedOperations : P unit := st_modify (set_operations (fun _ => [])).

(** ** The handles, and the port they implement

    The store keeps one handle per file; a handle is dead once it is closed or the port's epoch moved
    on. *)
Record MemoryWorld : Type := mkMemoryWorld {
  mw_port : MemoryRepackedPort;
  mw_handles : gmap OwnedFileName MemoryHandle
}.

Definition on_port {A} (m : P A) : M MemoryWorld A := fun w =>
  let '(p, r) := m (mw_port w) in (mkMemoryWorld p (mw_handles w), r).

Definition assertOpen (name : OwnedFileName) : M MemoryWorld unit :=
  w ← st_get;
  st_lift (match mw_handles w !! name with
           | Some h => throw_if (h_closed h || negb (h_epoch h =? epoch (mw_port w))) PlainError
           | None => Throw PlainError
           end).

Definition memory_close (name : OwnedFileName) : M MemoryWorld unit :=
  w ← st_get;
  match mw_handles w !! name with
  | None => st_lift (Throw PlainError)
  | Some h =>
      if h_closed h then mret tt
      else
        st_modify (fun w => mkMemoryWorld (mw_port w) (<[name := mkHandle (h_epoch h) true]> (mw_handles w)))
          ≫= fun _ =>
        if h_epoch h =? epoch (mw_port w) then on_port (handleClose name) else mret tt
  end.

Definition memory_open (name : OwnedFileName) (label : jsstr) : M MemoryWorld unit :=
  h ← on_port (memory_acquire name label);
  st_modify (fun w => mkMemoryWorld (mw_port w) (<[name := h]> (mw_handles w))).

(** The labels only select injected faults: the interface fixes one per operation. *)
Definition MemoryPortInterface (sortByName : list (jsstr * EntryKind) -> list (jsstr * EntryKind))
  (label : jsstr) : RepackedPort MemoryWorld := {|
  enumerate := on_port (memory_enumerate sortByName label);
  acquire name := memory_open name label;
  getSize name := assertOpen name ≫= fun _ => on_port (handleGetSize name label);
  read name len at_ := assertOpen name ≫= fun _ => on_port (handleRead name len at_ label);
  write name source at_ := assertOpen name ≫= fun _ => on_port (handleWrite name source at_ label);
  truncate name size := assertOpen name ≫= fun _ => on_port (handleTruncate name size label);
  flush name := assertOpen name ≫= fun _ => on_port (handleFlush name label);
  close name := memory_close name
|}.
