(* ===== verification/MemoryPortLaws.v ===== *)
(** * The in-memory port: its images, its invariant and its laws *)

From S2P Require Export PortLaws MemoryPort.

(** ** Images *)

Definition image_ok (im : Image) : Prop := (view im <= length (buffer im))%nat.

Lemma image_bytes_length im : image_ok im -> length (image_bytes im) = view im.
Proof. unfold image_ok, image_bytes. intros. rewrite length_take. lia. Qed.

Lemma new_image_ok bs : image_ok (new_image bs).
Proof. unfold image_ok. cbn. lia. Qed.
Lemma new_image_bytes bs : image_bytes (new_image bs) = bs.
Proof. unfold image_bytes, new_image. cbn. by rewrite take_ge by lia. Qed.

(** Resizing a live image keeps the bytes and zeroes the growth, whatever the spare capacity holds. *)
Lemma resizeImage_spec im n : image_ok im ->
  image_ok (resizeImage im n) /\ view (resizeImage im n) = n /\
  image_bytes (resizeImage im n) = resize n 0 (image_bytes im).
Proof.
  unfold image_ok. intros Hok. unfold resizeImage.
  destruct (Nat.leb_spec n (view im)) as [H1|H1]; [|destruct (Nat.leb_spec n (length (buffer im))) as [H2|H2]].
  - cbn. split; [lia|]. split; [done|]. unfold image_bytes. cbn.
    rewrite resize_le by (rewrite length_take; lia). rewrite take_take. f_equal. lia.
  - cbn. split; [rewrite !length_app, length_take, length_replicate, length_drop; lia|]. split; [done|].
    unfold image_bytes. cbn. rewrite resize_ge by (rewrite length_take; lia).
    rewrite app_assoc, take_app_le by (rewrite length_app, length_take, length_replicate; lia).
    rewrite take_ge by (rewrite length_app, length_take, length_replicate; lia).
    f_equal. f_equal. rewrite length_take. lia.
  - cbv zeta. cbn [buffer view]. assert (Hl : length (image_bytes im) = view im) by (by apply image_bytes_length).
    split; [rewrite length_app, length_replicate, Hl; lia|]. split; [done|].
    unfold image_bytes at 1. cbn [buffer view]. rewrite resize_ge by lia. rewrite take_app, Hl.
    rewrite take_ge by lia. f_equal. rewrite take_replicate. f_equal. lia.
Qed.

Lemma image_set_spec im at_ data : image_ok im -> (at_ + length data <= view im)%nat ->
  image_ok (image_set im at_ data) /\ view (image_set im at_ data) = view im /\
  image_bytes (image_set im at_ data) = set_bytes at_ data (image_bytes im).
Proof.
  unfold image_ok. intros Hok Hle. unfold image_set, image_bytes, set_bytes. cbn.
  split; [rewrite !length_app, length_take, length_drop; lia|]. split; [done|].
  rewrite take_app, length_take, take_take. replace (Nat.min (view im) at_) with at_ by lia.
  rewrite take_app. rewrite take_take. replace (Nat.min at_ (view im)) with at_ by lia. f_equal.
  replace (Nat.min at_ (length (buffer im))) with at_ by lia.
  rewrite (take_ge data) by lia. f_equal. rewrite take_drop_commute. f_equal. f_equal. lia.
Qed.

(** ** Effects on plain bytes *)

Definition effect_bytes (f : list Z) (e : MemoryEffect) : list Z :=
  match e with
  | WriteEffect _ _ at_ data => write_at at_ data f
  | TruncateEffect _ _ size => resize size 0 f
  end.

Lemma set_bytes_write_at at_ data f : data <> [] -> (at_ + length data <= length f)%nat ->
  set_bytes at_ data f = write_at at_ data f.
Proof.
  intros Hd Hl. destruct data as [|x data]; [done|]. unfold set_bytes, write_at.
  by rewrite resize_le by lia.
Qed.

Lemma set_resized at_ data f : data <> [] -> (length f < at_ + length data)%nat ->
  set_bytes at_ data (resize (at_ + length data) 0 f) = write_at at_ data f.
Proof.
  intros Hd Hl. rewrite set_bytes_write_at by (done || by rewrite length_resize).
  destruct data as [|x data]; [done|]. unfold write_at. f_equal.
  - rewrite resize_resize by lia. done.
  - f_equal. rewrite !drop_ge; [done| |]; rewrite ?length_resize; lia.
Qed.

(** The termination model's pure helpers and the live images agree. *)
Lemma applyWrite_bytes f at_ data : data <> [] -> applyWrite f at_ data = write_at at_ data f.
Proof.
  intros Hd. unfold applyWrite. destruct (Nat.leb_spec (at_ + length data) (length f)) as [H|H].
  - by apply set_bytes_write_at.
  - rewrite <- set_resized by (done || lia). by rewrite resize_ge by lia.
Qed.

Lemma applyTruncate_bytes f n : applyTruncate f n = resize n 0 f.
Proof.
  unfold applyTruncate. destruct (Nat.eqb_spec n (length f)) as [->|H]; [by rewrite resize_all|by rewrite resize_spec].
Qed.

(** ** The invariant: durable bytes plus pending effects are the volatile bytes *)

Definition bytes_of (m : gmap OwnedFileName Image) (name : OwnedFileName) : list Z :=
  image_bytes (default (new_image []) (m !! name)).

Definition effects_of (name : OwnedFileName) (es : list MemoryEffect) : list MemoryEffect :=
  filter (fun e => effect_file e = name) es.

Definition effect_nonempty (e : MemoryEffect) : Prop :=
  match e with WriteEffect _ _ _ data => data <> [] | TruncateEffect _ _ _ => True end.

Record MemInv (p : MemoryRepackedPort) : Prop := {
  mi_volatile : forall name im, volatile p !! name = Some im -> image_ok im;
  mi_durable : forall name im, durable p !! name = Some im -> image_ok im;
  mi_effects : forall name,
    bytes_of (volatile p) name = foldl effect_bytes (bytes_of (durable p) name) (effects_of name (effects p));
  mi_nonempty : forall e, e ∈ effects p -> effect_nonempty e;
  mi_present : forall e, e ∈ effects p -> is_Some (volatile p !! effect_file e)
}.

Lemma newMemoryPort_inv : MemInv newMemoryPort.
Proof.
  split; cbn.
  - intros name im. by rewrite lookup_empty.
  - intros name im. by rewrite lookup_empty.
  - done.
  - by intros e ?%elem_of_nil.
  - by intros e ?%elem_of_nil.
Qed.

(** [m] keeps the invariant, whether it returns or throws. *)
Definition keeps {A} (m : P A) : Prop := forall p, MemInv p -> MemInv (m p).1.

Lemma keeps_bind {A B} (m : P A) (k : A -> P B) : keeps m -> (forall a, keeps (k a)) -> keeps (m ≫= k).
Proof.
  intros Hm Hk p Hp. unfold mbind, ST_bind. specialize (Hm p Hp). destruct (m p) as [p' [a|e]]; cbn in *; [|done].
  by apply Hk.
Qed.

Lemma keeps_ret {A} (a : A) : keeps (mret a).
Proof. by intros p. Qed.
Lemma keeps_get : keeps st_get.
Proof. by intros p. Qed.
Lemma keeps_lift {A} (r : R A) : keeps (st_lift r).
Proof. by intros p. Qed.

(** What the invariant depends on. *)
Lemma MemInv_frame p p' : durable p' = durable p -> volatile p' = volatile p -> effects p' = effects p ->
  MemInv p -> MemInv p'.
Proof. intros Hd Hv He []. split; rewrite ?Hd, ?Hv, ?He; done. Qed.

Lemma keeps_modify f : (forall p, durable (f p) = durable p /\ volatile (f p) = volatile p /\ effects (f p) = effects p) ->
  keeps (st_modify f).
Proof. intros Hf p Hp. cbn. destruct (Hf p) as (?&?&?). by eapply MemInv_frame. Qed.

(** A check on the way: the state does not change. *)
Lemma keeps_lift_bind {A B} (r : R A) (k : A -> P B) p :
  MemInv p -> (forall a, r = Ok a -> MemInv (k a p).1) -> MemInv ((st_lift r ≫= k) p).1.
Proof. intros Hp Hk. rewrite st_bind_lift. destruct r; [by apply Hk|done]. Qed.

Create HintDb keeps.
#[export] Hint Resolve keeps_ret keeps_get keeps_lift : keeps.

Lemma keeps_recordOperation op file label : keeps (recordOperation op file label).
Proof. by apply keeps_modify. Qed.
Lemma keeps_setCopiedBytes n : keeps (setCopiedBytes n).
Proof. by apply keeps_modify. Qed.
Lemma keeps_takeFault op file label : keeps (takeFault op file label).
Proof. intros p Hp. unfold takeFault. rewrite st_bind_get. destruct (take_fault _ _ _ _). by apply (MemInv_frame p). Qed.
#[export] Hint Resolve keeps_recordOperation keeps_setCopiedBytes keeps_takeFault : keeps.

Ltac keeps := repeat first [ solve [eauto 2 with keeps] | apply keeps_bind; [|intros] ].

Lemma effects_of_app name es1 es2 : effects_of name (es1 ++ es2) = effects_of name es1 ++ effects_of name es2.
Proof. apply filter_app. Qed.

Lemma bytes_of_insert (m : gmap OwnedFileName Image) name im x : bytes_of (<[name := im]> m) x = if decide (name = x) then image_bytes im else bytes_of m x.
Proof. unfold bytes_of. rewrite lookup_insert. by case_decide. Qed.

(** One more effect on a file that exists: the volatile image and the log advance together. *)
Lemma MemInv_effect p name im e :
  MemInv p -> image_ok im -> effect_file e = name -> effect_nonempty e ->
  image_bytes im = effect_bytes (bytes_of (volatile p) name) e ->
  forall p', volatile p' = <[name := im]> (volatile p) -> durable p' = durable p -> effects p' = effects p ++ [e] ->
  MemInv p'.
Proof.
  intros [I1 I2 I4 I5 I6] Him He Hne Hb p' Hv Hd Hes. split; rewrite ?Hv, ?Hd, ?Hes.
  - intros x im'. rewrite lookup_insert_Some. intros [[_ <-]|[_ ?]]; eauto.
  - done.
  - intros x. rewrite bytes_of_insert, effects_of_app, foldl_app, <- I4. unfold effects_of at 1.
    rewrite filter_cons, filter_nil, He. case_decide; [by subst|done].
  - intros e' [?| ->%list_elem_of_singleton]%elem_of_app; [eauto|done].
  - intros e' [?| ->%list_elem_of_singleton]%elem_of_app; rewrite lookup_insert; case_decide; eauto; congruence.
Qed.

Lemma write_target_spec im at_ data : image_ok im -> data <> [] ->
  let required := (at_ + length data)%nat in
  let target := if Nat.ltb (view im) required then resizeImage im required else im in
  image_ok (image_set target at_ data) /\ image_bytes (image_set target at_ data) = write_at at_ data (image_bytes im).
Proof.
  intros Hok Hd required target. pose proof (image_bytes_length im Hok) as Hlen. unfold target.
  destruct (Nat.ltb_spec (view im) required) as [Hlt|Hge].
  - destruct (resizeImage_spec im required Hok) as (Hok' & Hv & Hb).
    destruct (image_set_spec (resizeImage im required) at_ data Hok') as (H1 & _ & H2); [rewrite Hv; unfold required; lia|].
    split; [done|]. rewrite H2, Hb. apply set_resized; [done|unfold required in *; lia].
  - destruct (image_set_spec im at_ data Hok) as (H1 & _ & H2); [done|]. split; [done|].
    rewrite H2. apply set_bytes_write_at; [done|unfold required in *; lia].
Qed.

Lemma recordWrite_run name at_ data p :
  recordWrite name at_ data p =
  match volatile p !! name with
  | None => (p, Throw PlainError)
  | Some im =>
      let required := (at_ + length data)%nat in
      let target := if Nat.ltb (view im) required then resizeImage im required else im in
      (set_nextEffectId (nextEffectId p + 1)
         (set_effects (fun es => es ++ [WriteEffect (nextEffectId p) name at_ data])
            (set_volatile (fun v => <[name := image_set target at_ data]> v) p)), Ok tt)
  end.
Proof.
  unfold recordWrite, file_of, mbind, ST_bind, st_get, st_lift, or_throw. by destruct (volatile p !! name).
Qed.

Lemma keeps_recordWrite name at_ data : data <> [] -> keeps (recordWrite name at_ data).
Proof.
  intros Hd p Hp. rewrite recordWrite_run. destruct (volatile p !! name) as [im|] eqn:E; [|done].
  destruct (write_target_spec im at_ data (mi_volatile p Hp _ _ E) Hd) as [Hok Hb]. cbn [fst].
  eapply (MemInv_effect p name _ (WriteEffect (nextEffectId p) name at_ data) Hp);
    [exact Hok|done|exact Hd| |reflexivity..].
  rewrite Hb. unfold bytes_of. by rewrite E.
Qed.

Lemma recordTruncate_run name size p :
  recordTruncate name size p =
  match volatile p !! name with
  | None => (p, Throw PlainError)
  | Some im =>
      (set_nextEffectId (nextEffectId p + 1)
         (set_effects (fun es => es ++ [TruncateEffect (nextEffectId p) name size])
            (set_volatile (fun v => <[name := resizeImage im size]> v) p)), Ok tt)
  end.
Proof.
  unfold recordTruncate, file_of, mbind, ST_bind, st_get, st_lift, or_throw. by destruct (volatile p !! name).
Qed.

Lemma keeps_recordTruncate name size : keeps (recordTruncate name size).
Proof.
  intros p Hp. rewrite recordTruncate_run. destruct (volatile p !! name) as [im|] eqn:E; [|done].
  destruct (resizeImage_spec im size (mi_volatile p Hp _ _ E)) as (Hok & _ & Hb). cbn [fst].
  eapply (MemInv_effect p name _ (TruncateEffect (nextEffectId p) name size) Hp);
    [exact Hok|done|done| |reflexivity..].
  rewrite Hb. unfold bytes_of. by rewrite E.
Qed.

(** *** Making a file durable *)

Lemma makeDurableStep_spec im copied e : image_ok im -> effect_nonempty e ->
  image_ok (makeDurableStep (im, copied) e).1 /\
  image_bytes (makeDurableStep (im, copied) e).1 = effect_bytes (image_bytes im) e.
Proof.
  intros Hok Hne. destruct e as [id f at_ data|id f size]; unfold makeDurableStep, effect_bytes; cbv zeta.
  - destruct (write_target_spec im at_ data Hok Hne) as [H1 H2]. revert H1 H2. cbv zeta.
    by destruct (Nat.ltb (view im) (at_ + length data)).
  - destruct (resizeImage_spec im size Hok) as (H1 & _ & H2). done.
Qed.

Lemma makeDurable_fold es im copied : image_ok im -> Forall effect_nonempty es ->
  image_ok (foldl makeDurableStep (im, copied) es).1 /\
  image_bytes (foldl makeDurableStep (im, copied) es).1 = foldl effect_bytes (image_bytes im) es.
Proof.
  intros Hok Hes. revert im copied Hok. induction Hes as [|e es He Hes IH]; intros im copied Hok; [done|].
  cbn [foldl]. destruct (makeDurableStep_spec im copied e Hok He) as [H1 H2].
  destruct (makeDurableStep (im, copied) e) as [im' copied'] eqn:E. cbn in H1, H2.
  destruct (IH im' copied' H1) as [H3 H4]. split; [done|]. by rewrite H4, H2.
Qed.

Definition durable_image (p : MemoryRepackedPort) (name : OwnedFileName) : Image * Z :=
  foldl makeDurableStep (default (new_image []) (durable p !! name), 0) (effects_of name (effects p)).

Lemma makeDurable_run name p :
  makeDurable name p =
  (set_effects (fun _ => filter (fun e => effect_file e <> name) (effects p))
     (set_durable (fun d => <[name := (durable_image p name).1]> d) p), Ok (durable_image p name).2).
Proof.
  unfold makeDurable, durable_image, effects_of. rewrite st_bind_get.
  by destruct (foldl makeDurableStep _ _) as [im copied].
Qed.

Lemma durable_image_spec p name : MemInv p ->
  image_ok (durable_image p name).1 /\ image_bytes (durable_image p name).1 = bytes_of (volatile p) name.
Proof.
  intros Hp. unfold durable_image. rewrite (mi_effects p Hp). apply makeDurable_fold.
  - destruct (durable p !! name) eqn:E; cbn; [by eapply (mi_durable p Hp)|apply new_image_ok].
  - apply Forall_forall. intros e [_ He]%list_elem_of_filter. apply (mi_nonempty p Hp e He).
Qed.

Lemma effects_of_others name x es : name <> x ->
  effects_of x (filter (fun e => effect_file e <> name) es) = effects_of x es.
Proof.
  intros Hne. unfold effects_of. induction es as [|e es IH]; [done|]. rewrite !filter_cons.
  destruct (decide (effect_file e <> name)) as [H|H].
  - rewrite filter_cons. case_decide; by rewrite IH.
  - assert (effect_file e <> x) by (intros Hx; apply H; congruence). rewrite (decide_False (P := effect_file e = x)) by done. done.
Qed.

Lemma effects_of_self name es : effects_of name (filter (fun e => effect_file e <> name) es) = [].
Proof.
  unfold effects_of. induction es as [|e es IH]; [done|]. rewrite filter_cons. case_decide; [|done].
  rewrite filter_cons, decide_False by done. done.
Qed.

(** ** The in-memory port: every operation, and the properties *)

(** ** Every operation keeps the invariant *)

Lemma elem_of_others name (es : list MemoryEffect) e :
  e ∈ filter (fun e => effect_file e <> name) es -> e ∈ es.
Proof. by intros [_ ?]%list_elem_of_filter. Qed.

Lemma keeps_makeDurable name : keeps (makeDurable name).
Proof.
  intros p Hp. rewrite makeDurable_run. cbn [fst]. destruct (durable_image_spec p name Hp) as [Hok Hb].
  pose proof Hp as [I1 I2 I3 I4 I5].
  split; cbn [effects durable volatile set_effects set_durable].
  - done.
  - intros x im. rewrite lookup_insert_Some. intros [[_ <-]|[_ ?]]; eauto.
  - intros x. rewrite bytes_of_insert. destruct (decide (name = x)) as [<-|Hne].
    + by rewrite effects_of_self, Hb.
    + by rewrite effects_of_others, I3.
  - intros e He%elem_of_others. eauto.
  - intros e He%elem_of_others. eauto.
Qed.
#[export] Hint Resolve keeps_makeDurable : keeps.

(** Replacing both images of a file by empty ones, once its effects are gone. *)
Lemma MemInv_reset p name (f : gmap OwnedFileName Image -> gmap OwnedFileName Image) p' :
  MemInv p -> effects_of name (effects p') = [] -> (forall e, e ∈ effects p' -> e ∈ effects p) ->
  (forall x, x <> name -> effects_of x (effects p') = effects_of x (effects p)) ->
  f = <[name := new_image []]> \/ f = delete name ->
  volatile p' = f (volatile p) -> durable p' = f (durable p) -> MemInv p'.
Proof.
  intros [I1 I2 I3 I4 I5] Hself Hsub Hoth Hf Hv Hd.
  assert (Hlook : forall m x im, f m !! x = Some im -> m !! x = Some im \/ im = new_image []).
  { intros m x im. destruct Hf as [->| ->]; [rewrite lookup_insert_Some|rewrite lookup_delete_Some]; naive_solver. }
  assert (Hbytes : forall m x, bytes_of (f m) x = if decide (name = x) then [] else bytes_of m x).
  { intros m x. unfold bytes_of. destruct Hf as [->| ->]; [rewrite lookup_insert|rewrite lookup_delete]; by case_decide. }
  split; rewrite ?Hv, ?Hd.
  - intros x im [?| ->]%Hlook; [eauto|apply new_image_ok].
  - intros x im [?| ->]%Hlook; [eauto|apply new_image_ok].
  - intros x. rewrite !Hbytes. destruct (decide (name = x)) as [<-|Hne]; [by rewrite Hself|].
    by rewrite Hoth, I3.
  - eauto.
  - intros e He. assert (name <> effect_file e).
    { intros ->. apply elem_of_nil with e. rewrite <- Hself. by apply list_elem_of_filter. }
    destruct Hf as [->| ->]; [rewrite lookup_insert_ne|rewrite lookup_delete_ne]; eauto.
Qed.

Lemma effects_of_absent p name : MemInv p -> volatile p !! name = None -> effects_of name (effects p) = [].
Proof.
  intros Hp Hn. destruct (effects_of name (effects p)) as [|e es] eqn:E; [done|]. exfalso.
  assert (He : e ∈ effects_of name (effects p)) by (rewrite E; set_solver).
  apply list_elem_of_filter in He as [<- He]. destruct (mi_present p Hp e He). congruence.
Qed.

Lemma keeps_acquire name label : keeps (memory_acquire name label).
Proof.
  unfold memory_acquire. do 3 (apply keeps_bind; [eauto with keeps|intros ?]). intros p Hp.
  rewrite st_bind_get. apply keeps_lift_bind; [done|]. intros _ _. apply keeps_lift_bind; [done|]. intros _ _.
  assert (Hrest : forall q, MemInv q -> MemInv ((st_lift (throw_if (bool_decide (is_Some a0)) PlainError) ≫= fun _ =>
    st_modify (set_open (fun o => {[name]} ∪ o)) ≫= fun _ => mret (mkHandle (epoch p) false)) q).1).
  { intros q Hq. apply keeps_lift_bind; [done|]. intros _ _. by apply (MemInv_frame q). }
  destruct (bool_decide (is_Some (volatile p !! name))) eqn:E; propify; [by apply Hrest|]. apply eq_None_not_Some in E.
  apply Hrest. apply (MemInv_reset p name (<[name := new_image []]>)); [done|exact (effects_of_absent p name Hp E)|done|done|by left|done|done].
Qed.

Lemma keeps_injectEntry name kind : keeps (injectEntry name kind).
Proof.
  unfold injectEntry. intros p Hp. rewrite st_bind_get. apply keeps_lift_bind; [done|]. intros _ _.
  destruct (ownedFileName name) as [n|]; [|by apply (MemInv_frame p)].
  destruct kind.
  - apply (MemInv_reset p n (<[n := new_image []]>));
      [done|apply effects_of_self|intros e; apply elem_of_others|intros x Hx; by apply effects_of_others|by left|done|done].
  - apply (MemInv_reset p n (delete n));
      [done|apply effects_of_self|intros e; apply elem_of_others|intros x Hx; by apply effects_of_others|by right|done|done].
Qed.

Lemma keeps_terminate decisions : keeps (terminate decisions).
Proof.
  unfold terminate. intros p Hp. rewrite st_bind_get. apply keeps_lift_bind; [done|]. intros m _.
  assert (Hok : forall x im, (new_image <$> m) !! x = Some im -> image_ok im).
  { intros x im Him. apply lookup_fmap_Some in Him as (bs & <- & _). apply new_image_ok. }
  split; cbn; [done|done|done| |]; by intros e ?%elem_of_nil.
Qed.

Lemma keeps_injectFault fault : keeps (injectFault fault).
Proof. unfold injectFault. do 3 (apply keeps_bind; [eauto with keeps|intros _]). by apply keeps_modify. Qed.

Lemma keeps_file_of name : keeps (file_of name).
Proof. unfold file_of. keeps. Qed.
#[export] Hint Resolve keeps_file_of : keeps.

Lemma keeps_getSize name label : keeps (handleGetSize name label).
Proof. unfold handleGetSize. keeps. Qed.
Lemma keeps_read name len at_ label : keeps (handleRead name len at_ label).
Proof. unfold handleRead. keeps. Qed.
Lemma keeps_flush name label : keeps (handleFlush name label).
Proof. unfold handleFlush. keeps. Qed.
Lemma keeps_close name : keeps (handleClose name).
Proof. by apply keeps_modify. Qed.
Lemma keeps_enumerate sort label : keeps (memory_enumerate sort label).
Proof. unfold memory_enumerate. keeps. Qed.
Lemma keeps_clear : keeps clearObservedOperations.
Proof. by apply keeps_modify. Qed.

Lemma keeps_write name source at_ label : keeps (handleWrite name source at_ label).
Proof.
  unfold handleWrite. do 4 (apply keeps_bind; [eauto with keeps|intros ?]). cbv zeta.
  set (count := match a1 with Some _ => _ | None => _ end).
  apply keeps_bind; [|intros ?; keeps]. destruct (0 <? count) eqn:E; [|apply keeps_ret]. propify.
  destruct source as [|x source].
  - exfalso. revert E. subst count. destruct a1 as [f|]; cbn; [|lia]. destruct (_ || _); lia.
  - apply keeps_recordWrite. destruct (Z.to_nat count) eqn:Ec; [lia|done].
Qed.

#[export] Hint Resolve keeps_recordTruncate : keeps.
Lemma keeps_truncate name size label : keeps (handleTruncate name size label).
Proof. unfold handleTruncate. keeps. Qed.

(** ** Histories *)

(** The calls a client can make, on the port or through its handles. *)
Inductive MemoryCall : Type :=
| CallEnumerate (label : jsstr)
| CallAcquire (name : OwnedFileName) (label : jsstr)
| CallInjectEntry (name : jsstr) (kind : EntryKind)
| CallInjectFault (fault : MemoryFault)
| CallGetSize (name : OwnedFileName) (label : jsstr)
| CallRead (name : OwnedFileName) (len at_ : Z) (label : jsstr)
| CallWrite (name : OwnedFileName) (source : list Z) (at_ : Z) (label : jsstr)
| CallTruncate (name : OwnedFileName) (size : Z) (label : jsstr)
| CallFlush (name : OwnedFileName) (label : jsstr)
| CallClose (name : OwnedFileName)
| CallTerminate (decisions : Z -> TerminationDecision)
| CallClearObserved.

Section Histories.
Context (sortByName : list (jsstr * EntryKind) -> list (jsstr * EntryKind)).

(** The state a call leaves behind, whether it returned or threw. *)
Definition run_call (p : MemoryRepackedPort) (call : MemoryCall) : MemoryRepackedPort :=
  match call with
  | CallEnumerate label => (memory_enumerate sortByName label p).1
  | CallAcquire name label => (memory_acquire name label p).1
  | CallInjectEntry name kind => (injectEntry name kind p).1
  | CallInjectFault fault => (injectFault fault p).1
  | CallGetSize name label => (handleGetSize name label p).1
  | CallRead name len at_ label => (handleRead name len at_ label p).1
  | CallWrite name source at_ label => (handleWrite name source at_ label p).1
  | CallTruncate name size label => (handleTruncate name size label p).1
  | CallFlush name label => (handleFlush name label p).1
  | CallClose name => (handleClose name p).1
  | CallTerminate decisions => (terminate decisions p).1
  | CallClearObserved => (clearObservedOperations p).1
  end.

Definition history (calls : list MemoryCall) : MemoryRepackedPort := foldl run_call newMemoryPort calls.

Lemma run_call_inv p call : MemInv p -> MemInv (run_call p call).
Proof.
  intros Hp. destruct call; cbn [run_call].
  - by apply keeps_enumerate.
  - by apply keeps_acquire.
  - by apply keeps_injectEntry.
  - by apply keeps_injectFault.
  - by apply keeps_getSize.
  - by apply keeps_read.
  - by apply keeps_write.
  - by apply keeps_truncate.
  - by apply keeps_flush.
  - by apply keeps_close.
  - by apply keeps_terminate.
  - by apply keeps_clear.
Qed.

Lemma history_inv calls : MemInv (history calls).
Proof.
  unfold history. assert (H : forall p, MemInv p -> MemInv (foldl run_call p calls)); [|apply H, newMemoryPort_inv].
  induction calls as [|call calls IH]; intros p Hp; [done|]. by apply IH, run_call_inv.
Qed.
End Histories.

(** ** Termination *)

(** What a decision makes of one effect on the bytes of its file. *)
Definition decided (decisions : Z -> TerminationDecision) (f : list Z) (e : MemoryEffect) : list Z :=
  match decisions (effect_id e), e with
  | Absent, _ => f
  | Prefix n, WriteEffect _ _ at_ data => write_at at_ (take (Z.to_nat n) data) f
  | _, _ => effect_bytes f e
  end.

Definition content (m : gmap OwnedFileName (list Z)) (name : OwnedFileName) : list Z := default [] (m !! name).

Lemma content_insert m name bs x : content (<[name := bs]> m) x = if decide (name = x) then bs else content m x.
Proof. unfold content. rewrite lookup_insert. by case_decide. Qed.

Lemma write_at_nil at_ f : write_at at_ [] f = f.
Proof. done. Qed.

Lemma terminateStep_Ok decisions m e m' : effect_nonempty e -> terminateStep decisions m e = Ok m' ->
  forall x, content m' x = if decide (effect_file e = x) then decided decisions (content m x) e else content m x.
Proof.
  intros Hne H x. unfold terminateStep in H. unfold decided.
  assert (Hw : forall at_ data k, data <> [] ->
    (if 0 <? k then <[effect_file e := applyWrite (content m (effect_file e)) at_ (take (Z.to_nat k) data)]> m else m) = m' ->
    content m' x = if decide (effect_file e = x) then write_at at_ (take (Z.to_nat k) data) (content m x) else content m x).
  { intros at_ data k Hd <-. destruct (0 <? k) eqn:E; propify.
    - rewrite content_insert. case_decide as Hx; [subst x|done]. apply applyWrite_bytes.
      destruct data; [done|]. destruct (Z.to_nat k) eqn:Ek; [lia|done].
    - replace (Z.to_nat k) with 0%nat by lia. rewrite take_0, write_at_nil. by case_decide. }
  destruct (decisions (effect_id e)) as [| |n]; [injection H as <-; by case_decide| |];
    destruct e as [id f at_ data|id f size]; cbn [effect_file effect_bytes effect_nonempty] in *; try done.
  - apply bind_Ok in H as (u & _ & [= H]). rewrite (Hw at_ data _ Hne H). by rewrite Nat2Z.id, take_ge by lia.
  - injection H as <-. rewrite content_insert. case_decide as Hx; [subst x|done]. apply applyTruncate_bytes.
  - apply bind_Ok in H as (u & _ & [= H]). exact (Hw at_ data n Hne H).
Qed.

Lemma terminate_fold decisions es m m' : Forall effect_nonempty es -> foldM (terminateStep decisions) m es = Ok m' ->
  forall x, content m' x = foldl (decided decisions) (content m x) (effects_of x es).
Proof.
  intros Hes. revert m. induction Hes as [|e es He Hes IH]; intros m H x; cbn [foldM] in H; [by injection H as <-|].
  apply bind_Ok in H as (m1 & H1 & H). rewrite (IH m1 H). rewrite (terminateStep_Ok decisions m e m1 He H1).
  unfold effects_of. rewrite filter_cons. by case_decide.
Qed.

Lemma content_images (m : gmap OwnedFileName Image) x : content (image_bytes <$> m) x = bytes_of m x.
Proof. unfold content, bytes_of. rewrite lookup_fmap. by destruct (m !! x). Qed.

Lemma bytes_of_new (m : gmap OwnedFileName (list Z)) x : bytes_of (new_image <$> m) x = content m x.
Proof. unfold content, bytes_of. rewrite lookup_fmap. destruct (m !! x); cbn; [apply new_image_bytes|done]. Qed.

Lemma terminate_Ok decisions p p' : MemInv p -> terminate decisions p = (p', Ok tt) ->
  forall x, bytes_of (volatile p') x = bytes_of (durable p') x /\
    bytes_of (durable p') x = foldl (decided decisions) (bytes_of (durable p) x) (effects_of x (effects p)).
Proof.
  intros Hp H x. unfold terminate in H. rewrite st_bind_get, st_bind_lift in H.
  destruct (foldM _ _ _) as [m|e] eqn:E; [|done]. injection H as <-. cbn. rewrite bytes_of_new. split; [done|].
  rewrite (terminate_fold _ _ _ _ ltac:(apply Forall_forall; intros e; apply (mi_nonempty p Hp)) E x).
  by rewrite content_images.
Qed.

(** Decisions that keep whole effects or drop them always succeed. *)
Lemma terminate_total decisions p : (forall id, decisions id = Absent \/ decisions id = Full) ->
  (forall e, e ∈ effects p -> match e with WriteEffect _ _ _ data => Z.of_nat (length data) <= MAX_SAFE_INTEGER | _ => True end) ->
  exists p', terminate decisions p = (p', Ok tt).
Proof.
  intros Hd Hs. unfold terminate. rewrite st_bind_get, st_bind_lift.
  assert (H : forall m es, (forall e, e ∈ es -> e ∈ effects p) -> exists m', foldM (terminateStep decisions) m es = Ok m').
  { intros m es. revert m. induction es as [|e es IH]; intros m Hes; [by exists m|]. cbn [foldM].
    assert (Hstep : exists m1, terminateStep decisions m e = Ok m1).
    { unfold terminateStep. destruct (Hd (effect_id e)) as [->| ->]; [eauto|].
      specialize (Hs e (Hes e ltac:(set_solver))). destruct e as [id f at_ data|id f size]; [|eauto].
      unfold isSafeInteger. rewrite (proj2 (Z.leb_le _ _)) by lia.
      rewrite (proj2 (Z.ltb_ge (Z.of_nat (length data)) 0)), Z.ltb_irrefl by lia. cbn. eauto. }
    destruct Hstep as [m1 ->]. cbn. apply IH. intros e' He'. apply Hes. set_solver. }
  destruct (H (image_bytes <$> durable p) (effects p)) as [m' ->]; [done|]. eexists. reflexivity.
Qed.
