(* ===== verification/Transfers.v ===== *)
(** * The in-memory port is lawful, and the transfer properties *)

From S2P Require Export MemoryPortLaws.

(** ** Runs of the port's operations *)

(** Operations that touch only the fault and operation lists. *)
Definition same_files (p p' : MemoryRepackedPort) : Prop :=
  durable p' = durable p /\ volatile p' = volatile p /\ effects p' = effects p /\ nextEffectId p' = nextEffectId p.

Lemma prologue_run {B} op name label (k : option MemoryFault -> P B) p :
  exists p1 fault, same_files p p1 /\
    (recordOperation op (Some name) label ≫= fun _ => fault ← takeFault op (Some name) label; k fault) p = k fault p1 /\
    (faults p = [] -> fault = None /\ faults p1 = []).
Proof.
  unfold takeFault, recordOperation, mbind, ST_bind, st_modify, st_get, mret, ST_ret. cbn [faults set_operations].
  destruct (take_fault op (Some name) label (faults p)) as [found rest] eqn:E.
  eexists _, found. split; [|split; [reflexivity|]]; [done|].
  intros Hnil. rewrite Hnil in E. cbn in E. by injection E as <- <-.
Qed.

(** Split off the two calls that start every operation. *)
Ltac prologue p1 fault H :=
  cbv beta iota;
  match goal with
  | |- (recordOperation ?o (Some ?n) ?l ≫= fun _ => takeFault _ _ _ ≫= ?k) ?p = _ -> _ =>
      destruct (prologue_run o n l k p) as (p1 & fault & H & -> & _)
  end.

Lemma file_of_bind {B} name (k : Image -> P B) p :
  (file_of name ≫= k) p = match volatile p !! name with Some im => k im p | None => (p, Throw PlainError) end.
Proof. unfold file_of, mbind, ST_bind, st_get, st_lift, or_throw. by destruct (volatile p !! name). Qed.

Lemma handleRead_spec name n pos label p p' r : MemInv p -> 0 <= pos -> handleRead name n pos label p = (p', r) ->
  volatile p' = volatile p /\ r <> Throw FuelExhausted /\
  forall count bs, r = Ok (count, bs) -> 0 < count <= n ->
    pos + count <= byteLength (bytes_of (volatile p) name) /\
    bs = subarray (bytes_of (volatile p) name) (Z.to_nat pos) (Z.to_nat (pos + count)).
Proof.
  intros Hp Hpos. unfold handleRead. rewrite st_bind_lift. destruct (validateRange pos n) as [u|e] eqn:Ev.
  2:{ intros [= <- <-]. split; [done|]. split; [|done]. unfold validateRange in Ev.
      apply bind_Throw in Ev as [Ev|(?&_&Ev)]; apply throw_if_Throw in Ev as [_ <-]; done. }
  prologue p1 fault Hs. destruct Hs as (_ & Hv & _).
  rewrite st_bind_lift. destruct (throw_if _ _) as [u'|e] eqn:Et.
  2:{ intros [= <- <-]. apply throw_if_Throw in Et as [_ <-]. done. }
  rewrite file_of_bind, Hv. unfold bytes_of. destruct (volatile p !! name) as [im|] eqn:E; [|by intros [= <- <-]].
  cbv zeta. set (available := Z.max 0 _). intros [= <- <-]. split; [done|]. split; [done|].
  intros count bs [= Hc Hbs] Hcount. subst bs.
  change (default (new_image []) (Some im)) with im.
  pose proof (image_bytes_length im (mi_volatile p Hp _ _ E)) as Hl. unfold byteLength. rewrite Hl, Hc.
  split; [|done]. assert (count <= available) by (rewrite <- Hc; destruct fault; [destruct (bool_decide _)|]; lia).
  unfold available in *. lia.
Qed.

Lemma recordWrite_file name at_ data p p' r : MemInv p -> data <> [] -> recordWrite name at_ data p = (p', r) ->
  r <> Throw FuelExhausted /\
  ((r = Ok tt /\ bytes_of (volatile p') name = write_at at_ data (bytes_of (volatile p) name)) \/
   (r <> Ok tt /\ bytes_of (volatile p') name = bytes_of (volatile p) name)) /\
  forall f, f <> name -> bytes_of (volatile p') f = bytes_of (volatile p) f.
Proof.
  intros Hp Hd. rewrite recordWrite_run. destruct (volatile p !! name) as [im|] eqn:E.
  - intros [= <- <-]. destruct (write_target_spec im at_ data (mi_volatile p Hp _ _ E) Hd) as [_ Hb].
    split; [done|]. cbn [volatile set_nextEffectId set_effects set_volatile]. split.
    + left. split; [done|]. rewrite bytes_of_insert, decide_True, Hb by done. unfold bytes_of. by rewrite E.
    + intros f Hf. by rewrite bytes_of_insert, decide_False.
  - intros [= <- <-]. split; [done|]. split; [by right|done].
Qed.

Lemma handleWrite_spec name src pos label p p' r : MemInv p -> 0 <= pos -> handleWrite name src pos label p = (p', r) ->
  r <> Throw FuelExhausted /\ exists k, (k <= length src)%nat /\
    bytes_of (volatile p') name = write_at (Z.to_nat pos) (take k src) (bytes_of (volatile p) name) /\
    (forall f, f <> name -> bytes_of (volatile p') f = bytes_of (volatile p) f) /\
    forall count, r = Ok count -> 0 < count <= byteLength src -> k = Z.to_nat count.
Proof.
  intros Hp Hpos. unfold handleWrite. rewrite st_bind_lift. destruct (validateRange _ _) as [u|e] eqn:Ev.
  2:{ intros [= <- <-]. split.
      - unfold validateRange in Ev. apply bind_Throw in Ev as [Ev|(?&_&Ev)]; apply throw_if_Throw in Ev as [_ <-]; done.
      - exists 0%nat. split; [lia|done]. }
  prologue p1 fault Hs. destruct Hs as (Hd & Hv & He & _).
  assert (Hp1 : MemInv p1) by (by apply (MemInv_frame p)).
  rewrite st_bind_lift. destruct (throw_if _ _) as [u'|e] eqn:Et.
  2:{ intros [= <- <-]. apply throw_if_Throw in Et as [_ <-]. rewrite Hv. split; [done|]. exists 0%nat. split; [lia|done]. }
  cbv zeta. set (count := match fault with Some _ => _ | None => _ end).
  assert (Hcount : count <= Z.of_nat (length src)) by (unfold count; destruct fault; [destruct (_ || _)|]; lia).
  destruct (0 <? count) eqn:Ec; propify.
  - unfold mbind at 1, ST_bind at 1. destruct (recordWrite _ _ _ p1) as [p2 r2] eqn:Er.
    apply recordWrite_file in Er as (Hnf & Hfile & Hoth); [|done|].
    2:{ destruct src; [cbn in *; lia|]. destruct (Z.to_nat count) eqn:?; [lia|done]. }
    rewrite Hv in *. destruct Hfile as [[-> Hfile]|[Hr Hfile]].
    + unfold mbind, ST_bind, st_lift, mret, ST_ret. destruct (throw_if (has_outcome fault ThrowAfter) _) as [u2|e2] eqn:E2; cbv beta iota; intros Hrun; injection Hrun as Hp2 Hr2; subst p' r.
      * split; [done|]. exists (Z.to_nat count). split; [lia|]. split; [done|]. split; [done|]. by intros c [= <-].
      * apply throw_if_Throw in E2 as [_ <-]. split; [done|]. exists (Z.to_nat count). split; [lia|done].
    + destruct r2 as [[]|e2]; [done|]. intros [= <- <-]. split; [by intros [= ->]|]. exists 0%nat. split; [lia|done].
  - unfold mbind, ST_bind, st_lift, mret, ST_ret.
    destruct (throw_if (has_outcome fault ThrowAfter) _) as [u2|e2] eqn:E2; cbv beta iota; intros Hrun; injection Hrun as Hp2 Hr2; subst p' r.
    + rewrite Hv. split; [done|]. exists 0%nat. split; [lia|]. split; [done|]. split; [done|].
      intros c [= <-]. lia.
    + apply throw_if_Throw in E2 as [_ <-]. rewrite Hv. split; [done|]. exists 0%nat. split; [lia|done].
Qed.

Lemma handleTruncate_spec name size label p p' r : MemInv p -> 0 <= size -> handleTruncate name size label p = (p', r) ->
  r <> Throw FuelExhausted /\ (forall f, f <> name -> bytes_of (volatile p') f = bytes_of (volatile p) f) /\
  (bytes_of (volatile p') name = bytes_of (volatile p) name \/
   bytes_of (volatile p') name = resize (Z.to_nat size) 0 (bytes_of (volatile p) name)) /\
  (r = Ok tt -> bytes_of (volatile p') name = resize (Z.to_nat size) 0 (bytes_of (volatile p) name)).
Proof.
  intros Hp Hsize. unfold handleTruncate. rewrite st_bind_lift. destruct (validateRange _ _) as [u|e] eqn:Ev.
  2:{ intros [= <- <-]. unfold validateRange in Ev.
      apply bind_Throw in Ev as [Ev|(?&_&Ev)]; apply throw_if_Throw in Ev as [_ <-]; (split; [done|]); (split; [done|]); (split; [by left|done]). }
  prologue p1 fault Hs. destruct Hs as (Hd & Hv & He & _). rewrite <- Hv.
  assert (Hp1 : MemInv p1) by (by apply (MemInv_frame p)).
  rewrite st_bind_lift. destruct (throw_if (has_outcome fault Quota) _) as [u1|e1] eqn:E1.
  2:{ intros [= <- <-]. apply throw_if_Throw in E1 as [_ <-]. split; [done|]. split; [done|]. split; [by left|done]. }
  rewrite st_bind_lift. destruct (throw_if (has_outcome fault ThrowBefore) _) as [u2|e2] eqn:E2.
  2:{ intros [= <- <-]. apply throw_if_Throw in E2 as [_ <-]. split; [done|]. split; [done|]. split; [by left|done]. }
  unfold mbind at 1, ST_bind at 1. rewrite recordTruncate_run.
  destruct (volatile p1 !! name) as [im|] eqn:E; [|intros [= <- <-]; split; [done|]; split; [done|]; split; [by left|done]].
  unfold st_lift. cbv beta iota. intros Hrun. injection Hrun as <- <-. split.
  { by apply no_fuel_throw_if. }
  destruct (resizeImage_spec im (Z.to_nat size) (mi_volatile p1 Hp1 _ _ E)) as (_ & _ & Hb).
  assert (Hres : bytes_of (<[name := resizeImage im (Z.to_nat size)]> (volatile p1)) name
                 = resize (Z.to_nat size) 0 (bytes_of (volatile p1) name)).
  { rewrite bytes_of_insert, decide_True, Hb by done. unfold bytes_of. by rewrite E. }
  cbn [volatile set_nextEffectId set_effects set_volatile]. split; [intros f Hf; by rewrite bytes_of_insert, decide_False|].
  rewrite Hres. split; [by right|done].
Qed.

Lemma handleFlush_spec name label p p' r : handleFlush name label p = (p', r) ->
  r <> Throw FuelExhausted /\ forall f, bytes_of (volatile p') f = bytes_of (volatile p) f.
Proof.
  unfold handleFlush, recordOperation, setCopiedBytes. rewrite !st_bind_modify. unfold takeFault, mbind, ST_bind, st_get, st_modify, mret, ST_ret.
  cbv beta iota. destruct (take_fault _ _ _ _) as [found rest]. cbv beta iota. unfold st_lift at 1.
  destruct (throw_if (has_outcome found ThrowBefore) PlainError) as [u|e] eqn:E1.
  2:{ intros [= <- <-]. by apply throw_if_Throw in E1 as [_ <-]. }
  rewrite makeDurable_run. unfold st_lift. intros Hrun. injection Hrun as <- <-. split; [|done]. by apply no_fuel_throw_if.
Qed.

Lemma handleGetSize_spec name label p p' r : MemInv p -> handleGetSize name label p = (p', r) ->
  r <> Throw FuelExhausted /\ (forall f, bytes_of (volatile p') f = bytes_of (volatile p) f) /\
  forall size, r = Ok size -> size = byteLength (bytes_of (volatile p) name).
Proof.
  intros Hp. unfold handleGetSize. prologue p1 fault Hs. destruct Hs as (_ & Hv & _). rewrite <- Hv.
  rewrite st_bind_lift. destruct (throw_if _ _) as [u|e] eqn:E1.
  2:{ intros [= <- <-]. by apply throw_if_Throw in E1 as [_ <-]. }
  rewrite file_of_bind. unfold bytes_of. destruct (volatile p1 !! name) as [im|] eqn:E; [|by intros [= <- <-]].
  unfold mret, ST_ret. intros [= <- <-]. split; [done|]. split; [done|]. intros size [= <-].
  rewrite Hv in E. pose proof (image_bytes_length im (mi_volatile p Hp _ _ E)) as Hl.
  change (Z.of_nat (view im) = byteLength (image_bytes im)). unfold byteLength. by rewrite Hl.
Qed.

(** ** The instance *)

Section Lawful.
Context (sortByName : list (jsstr * EntryKind) -> list (jsstr * EntryKind)) (label : jsstr).

Lemma assertOpen_run {B} name (k : unit -> M MemoryWorld B) w :
  (assertOpen name ≫= k) w = k tt w \/ (assertOpen name ≫= k) w = (w, Throw PlainError).
Proof.
  unfold assertOpen, mbind, ST_bind, st_get, st_lift. destruct (mw_handles w !! name) as [h|]; [|by right].
  destruct (throw_if _ _) as [u|e] eqn:E; [destruct u; by left|]. apply throw_if_Throw in E as [_ <-]. by right.
Qed.

Lemma on_port_inv {A} (m : P A) w w' r : on_port m w = (w', r) ->
  exists p', m (mw_port w) = (p', r) /\ mw_port w' = p'.
Proof. unfold on_port. destruct (m (mw_port w)) as [p' r']. intros [= <- <-]. eauto. Qed.

#[local] Instance memory_port : RepackedPort MemoryWorld := MemoryPortInterface sortByName label.

#[local] Instance memory_lawful : LawfulPort MemoryWorld.
Proof.
  refine {| file w name := bytes_of (volatile (mw_port w)) name; port_ok w := MemInv (mw_port w) |}.
  - intros name n pos w w' r Hok Hrun Hpos. cbn in Hrun.
    destruct (assertOpen_run name (fun _ => on_port (handleRead name n pos label)) w) as [E|E]; rewrite E in Hrun.
    + apply on_port_inv in Hrun as (p' & Hrun & Hp'). pose proof (keeps_read name n pos label _ Hok) as Hk.
      rewrite Hrun in Hk. cbn in Hk. rewrite Hp'. apply handleRead_spec in Hrun as (Hv & Hnf & Hout); [|done|done].
      split; [done|]. split; [by rewrite Hv|]. done.
    + injection Hrun as <- <-. done.
  - intros name src pos w w' r Hok Hrun Hpos. cbn in Hrun.
    destruct (assertOpen_run name (fun _ => on_port (handleWrite name src pos label)) w) as [E|E]; rewrite E in Hrun.
    + apply on_port_inv in Hrun as (p' & Hrun & Hp'). pose proof (keeps_write name src pos label _ Hok) as Hk.
      rewrite Hrun in Hk. cbn in Hk. rewrite Hp'. split; [done|]. by apply handleWrite_spec in Hrun.
    + injection Hrun as <- <-. split; [done|]. split; [done|]. exists 0%nat. split; [lia|done].
  - intros name size w w' r Hok Hrun Hsize. cbn in Hrun.
    destruct (assertOpen_run name (fun _ => on_port (handleTruncate name size label)) w) as [E|E]; rewrite E in Hrun.
    + apply on_port_inv in Hrun as (p' & Hrun & Hp'). pose proof (keeps_truncate name size label _ Hok) as Hk.
      rewrite Hrun in Hk. cbn in Hk. rewrite Hp'. split; [done|]. by apply handleTruncate_spec in Hrun.
    + injection Hrun as <- <-. split; [done|]. split; [done|]. split; [done|]. split; [by left|done].
  - intros name w w' r Hok Hrun. cbn in Hrun.
    destruct (assertOpen_run name (fun _ => on_port (handleFlush name label)) w) as [E|E]; rewrite E in Hrun.
    + apply on_port_inv in Hrun as (p' & Hrun & Hp'). pose proof (keeps_flush name label _ Hok) as Hk.
      rewrite Hrun in Hk. cbn in Hk. rewrite Hp'. split; [done|]. by apply handleFlush_spec in Hrun.
    + by injection Hrun as <- <-.
  - intros name w w' r Hok Hrun. cbn in Hrun.
    destruct (assertOpen_run name (fun _ => on_port (handleGetSize name label)) w) as [E|E]; rewrite E in Hrun.
    + apply on_port_inv in Hrun as (p' & Hrun & Hp'). pose proof (keeps_getSize name label _ Hok) as Hk.
      rewrite Hrun in Hk. cbn in Hk. rewrite Hp'. split; [done|]. by apply handleGetSize_spec in Hrun.
    + by injection Hrun as <- <-.
Defined.

(** A world without injected faults whose handle for [name] is live. *)
Definition live (name : OwnedFileName) (w : MemoryWorld) : Prop :=
  faults (mw_port w) = [] /\ is_Some (volatile (mw_port w) !! name) /\
  exists h, mw_handles w !! name = Some h /\ h_closed h = false /\ h_epoch h = epoch (mw_port w).

End Lawful.

(** *** A concrete world: a 7-byte arena file, with a read fault that returns two bytes *)

Definition run_world {A} (m : M MemoryWorld A) (w : MemoryWorld) : MemoryWorld := (m w).1.

Definition arena_world : MemoryWorld :=
  run_world (assertOpen ArenaBin ≫= fun _ => on_port (handleWrite ArenaBin [1; 2; 3; 4; 5; 6; 7] 0 []))
    (run_world (memory_open ArenaBin []) (mkMemoryWorld newMemoryPort ∅)).

Definition short_fault (operation : MemoryOperation) : MemoryFault := mkFault operation Short None None (Some 2) None.

Definition faulty_world (operation : MemoryOperation) : MemoryWorld :=
  run_world (on_port (injectFault (short_fault operation))) arena_world.

Lemma arena_world_ok : MemInv (mw_port arena_world).
Proof.
  assert (E : mw_port arena_world = history id [CallAcquire ArenaBin []; CallWrite ArenaBin [1; 2; 3; 4; 5; 6; 7] 0 []])
    by (vm_compute; reflexivity).
  rewrite E. apply history_inv.
Qed.

Lemma faulty_world_ok operation : MemInv (mw_port (faulty_world operation)).
Proof.
  assert (E : mw_port (faulty_world operation) = (injectFault (short_fault operation) (mw_port arena_world)).1)
    by (unfold faulty_world, run_world, on_port; by destruct (injectFault _ _)).
  rewrite E. apply keeps_injectFault, arena_world_ok.
Qed.

#[local] Instance example_port : RepackedPort MemoryWorld := memory_port id [].
#[local] Instance example_lawful : LawfulPort MemoryWorld := memory_lawful id [].

(** ** The properties *)

(** [readExact] over any lawful port, however short its reads are, changes no file, and when it
    returns, it returns exactly the requested range of the file, which lies inside the file. Its loop
    ends: each turn reads at least one byte. *)
Theorem readExact_exact (Wd : Type) (port : RepackedPort Wd) (lawful : LawfulPort Wd)
  (name : OwnedFileName) (offset len maximum : Z) (w w' : Wd) (r : R (list Z))
  (Hok : port_ok w) (Hrun : readExact name offset len maximum w = (w', r)) :
  (forall f, file w' f = file w f) /\ r <> Throw FuelExhausted /\
  forall out, r = Ok out ->
    byteLength out = len /\ out = subarray (file w name) (Z.to_nat offset) (Z.to_nat (offset + len)).
Proof.
  pose proof Hrun as Hr. apply readExact_outcome in Hr as (_ & Hf & Hnf & Hout); [|done].
  split; [done|]. split; [done|]. intros out ->. destruct (Hout out eq_refl) as [Hin ->]. split; [|done].
  unfold readExact in Hrun. rewrite st_bind_lift in Hrun. destruct (throw_if _ _) eqn:E1; [|done].
  rewrite st_bind_lift in Hrun. destruct (checkedRange offset len) as [start|e] eqn:E2; [|done].
  apply checkedRange_Ok in E2 as (_ & Ho & Hl). unfold byteLength, subarray in *. rewrite length_take, length_drop.
  destruct (decide (len = 0)); lia.
Qed.

Lemma readExact_exact_witness :
  (forall f, file (readExact ArenaBin 1 5 5 (faulty_world OpRead)).1 f = file (faulty_world OpRead) f) /\
  (Ok [2; 3; 4; 5; 6] : R (list Z)) <> Throw FuelExhausted /\
  forall out, (Ok [2; 3; 4; 5; 6] : R (list Z)) = Ok out ->
    byteLength out = 5 /\ out = subarray (file (faulty_world OpRead) ArenaBin) (Z.to_nat 1) (Z.to_nat (1 + 5)).
Proof.
  apply (readExact_exact MemoryWorld example_port example_lawful ArenaBin 1 5 5 (faulty_world OpRead)
           (readExact ArenaBin 1 5 5 (faulty_world OpRead)).1 (Ok [2; 3; 4; 5; 6])).
  - apply faulty_world_ok.
  - vm_compute. reflexivity.
Defined.

(** [writeExact] over any lawful port, however short its writes are, touches only the named file,
    and leaves it with a prefix of the bytes written at the offset: all of them when it returns, and
    some number of them when it throws. Its loop ends: each turn writes at least one byte. *)
Theorem writeExact_exact (Wd : Type) (port : RepackedPort Wd) (lawful : LawfulPort Wd)
  (name : OwnedFileName) (offset : Z) (bytes : list Z) (w w' : Wd) (r : R unit)
  (Hok : port_ok w) (Hrun : writeExact name offset bytes w = (w', r)) :
  (forall f, f <> name -> file w' f = file w f) /\ r <> Throw FuelExhausted /\
  exists k, (k <= length bytes)%nat /\ file w' name = write_at (Z.to_nat offset) (take k bytes) (file w name) /\
    (r = Ok tt -> k = length bytes).
Proof. by apply writeExact_outcome in Hrun as (_ & ? & ? & ?). Qed.

Lemma writeExact_exact_witness :
  (forall f, f <> ArenaBin ->
     file (writeExact ArenaBin 5 [8; 9; 10; 11] (faulty_world OpWriteFile)).1 f = file (faulty_world OpWriteFile) f) /\
  (Ok tt : R unit) <> Throw FuelExhausted /\
  exists k, (k <= 4)%nat /\
    file (writeExact ArenaBin 5 [8; 9; 10; 11] (faulty_world OpWriteFile)).1 ArenaBin
    = write_at (Z.to_nat 5) (take k [8; 9; 10; 11]) (file (faulty_world OpWriteFile) ArenaBin) /\
    ((Ok tt : R unit) = Ok tt -> k = 4%nat).
Proof.
  apply (writeExact_exact MemoryWorld example_port example_lawful ArenaBin 5 [8; 9; 10; 11] (faulty_world OpWriteFile)
           (writeExact ArenaBin 5 [8; 9; 10; 11] (faulty_world OpWriteFile)).1 (Ok tt)).
  - apply faulty_world_ok.
  - vm_compute. reflexivity.
Defined.

(** An exact read inside the file succeeds on every port whose reads inside a file return at least
    one byte: it completes with the bytes of the range. *)
Theorem readExact_completes (Wd : Type) (port : RepackedPort Wd) (lawful : LawfulPort Wd) (good : Wd -> Prop)
  (name : OwnedFileName) (offset len maximum : Z) (w : Wd)
  (Hreadable : readable good) (Hgood : good w) (Hok : port_ok w)
  (Hoffset : 0 <= offset) (Hlen : 0 <= len <= maximum) (Hmaximum : maximum <= MAX_SAFE_INTEGER)
  (Hinside : offset + len <= byteLength (file w name)) (Hsafe : offset + len <= MAX_SAFE_INTEGER) :
  exists w', readExact name offset len maximum w
             = (w', Ok (subarray (file w name) (Z.to_nat offset) (Z.to_nat (offset + len)))).
Proof.
  destruct (readExact_total good name offset len maximum w) as (w' & H & _); try done. by exists w'.
Qed.

Definition fault_free (w : MemoryWorld) : Prop :=
  faults (mw_port w) = [] /\ forall name, is_Some (volatile (mw_port w) !! name) ->
  exists h, mw_handles w !! name = Some h /\ h_closed h = false /\ h_epoch h = epoch (mw_port w).

Lemma fault_free_readable : readable fault_free.
Proof.
  intros name n pos w [Hf Hh] Hok Hn Hpos Hin Hs. cbn in Hin, Hok. unfold bytes_of in Hin.
  destruct (volatile (mw_port w) !! name) as [im|] eqn:E; [|change (pos < 0) in Hin; lia].
  change (default (new_image []) (Some im)) with im in Hin. unfold byteLength in Hin.
  rewrite image_bytes_length in Hin by (by eapply mi_volatile).
  destruct (Hh name ltac:(rewrite E; by eexists)) as (h & Hh1 & Hh2 & Hh3).
  destruct w as [p hs]. cbn in *. unfold assertOpen, mbind, ST_bind, st_get, st_lift. cbn.
  rewrite Hh1, Hh2, Hh3, Z.eqb_refl. cbn [negb orb throw_if]. unfold on_port. cbn [mw_port mw_handles].
  destruct (handleRead name n pos [] p) as [p' r] eqn:Er.
  assert (Hrun : exists q, p' = q /\ r = Ok (Z.min n (Z.of_nat (view im) - pos),
     subarray (image_bytes im) (Z.to_nat pos) (Z.to_nat (pos + Z.min n (Z.of_nat (view im) - pos)))) /\
     faults q = [] /\ volatile q = volatile p /\ epoch q = epoch p).
  { revert Er. unfold handleRead. rewrite st_bind_lift.
    assert (Hv : validateRange pos n = Ok tt).
    { unfold validateRange, isSafeInteger. rewrite !(proj2 (Z.leb_le _ _)) by lia.
      rewrite (proj2 (Z.ltb_ge pos 0)), (proj2 (Z.ltb_ge n 0)) by lia. done. }
    rewrite Hv. unfold recordOperation, takeFault, mbind, ST_bind, st_modify, st_get, st_lift, mret, ST_ret.
    cbn. rewrite Hf. cbn. unfold file_of, mbind, ST_bind, st_get, st_lift. cbn. rewrite E. cbn.
    intros [= <- <-]. eexists. split; [reflexivity|]. cbn. split; [|done].
    replace (Z.max 0 (Z.min n (Z.of_nat (view im) - pos))) with (Z.min n (Z.of_nat (view im) - pos)) by lia. done. }
  destruct Hrun as (q & -> & -> & Hq1 & Hq2 & Hq3). eexists _, _, _. split; [reflexivity|]. split; [lia|].
  split; cbn; [done|]. intros x. rewrite Hq2, Hq3. apply Hh.
Qed.

Lemma readExact_completes_witness :
  exists w', readExact ArenaBin 2 4 10 arena_world
             = (w', Ok (subarray (file arena_world ArenaBin) (Z.to_nat 2) (Z.to_nat (2 + 4)))).
Proof.
  apply (readExact_completes MemoryWorld example_port example_lawful fault_free ArenaBin 2 4 10 arena_world).
  - exact fault_free_readable.
  - split; [vm_compute; reflexivity|]. intros name Hn. destruct name.
    + exists (mkHandle 1 false). vm_compute. done.
    + vm_compute in Hn. by destruct Hn.
    + vm_compute in Hn. by destruct Hn.
    + vm_compute in Hn. by destruct Hn.
  - exact arena_world_ok.
  - lia.
  - lia.
  - vm_compute. discriminate.
  - vm_compute. discriminate.
  - vm_compute. discriminate.
Defined.
