(* ===== verification/Recovery.v ===== *)
(** * Replaying the metadata log

    [replayLog] against the log a store wrote: the committed frames are replayed, a torn frame after
    them is not, and nothing else happens. *)

From S2P Require Export Validity Frames MetadataStore PortLaws Transfers.

(** ** The log a store writes *)

(** [record] is committed on [s] as the frame [bytes], with sequence number [seq], giving [s1]. *)
Record commits (s : VfsState) (seq : Z) (record : TxnRecord) (bytes : list Z) (s1 : VfsState) : Prop := {
  cm_ok : record_ok record;
  cm_fits : record_fits s record;
  cm_size : txnFrameBytes record = Ok (byteLength bytes);
  cm_encode : encodeTxnFrame (mkFrame (generation s) seq record) = Ok bytes;
  cm_apply : applyTxn record None s = (s1, Ok tt)
}.

(** [committed s seq log s' n]: the [n] frames of [log] take [s] to [s']. *)
Inductive committed : VfsState -> Z -> list Z -> VfsState -> nat -> Prop :=
| committed_nil s seq : committed s seq [] s 0
| committed_cons s seq record bytes s1 log s' n :
    commits s seq record bytes s1 -> committed s1 (seq + 1) log s' n ->
    committed s seq (bytes ++ log) s' (S n).

(** What a write that did not complete leaves behind the log: part of a frame, or nothing. *)
Definition torn (t : list Z) : Prop :=
  t = [] \/ exists g seq record bytes, u64 g /\ u64 seq /\ record_ok record /\
    txnFrameBytes record = Ok (byteLength bytes) /\ encodeTxnFrame (mkFrame g seq record) = Ok bytes /\
    t `prefix_of` bytes /\ t <> bytes.

Lemma committed_snoc s seq log s' n record bytes s1 :
  committed s seq log s' n -> commits s' (seq + Z.of_nat n) record bytes s1 ->
  committed s seq (log ++ bytes) s1 (S n).
Proof.
  intros H Hc. induction H as [s seq|s seq r b s2 log s' n Hr H IH].
  - rewrite Z.add_0_r in Hc. rewrite <- (app_nil_r ([] ++ bytes)). eapply committed_cons; [done|constructor].
  - rewrite <- app_assoc. eapply committed_cons; [done|]. apply IH.
    by replace (seq + 1 + Z.of_nat n) with (seq + Z.of_nat (S n)) by lia.
Qed.

(** A frame, its header and its record. *)
Lemma frame_facts g seq record bytes : record_ok record -> u64 g -> u64 seq ->
  txnFrameBytes record = Ok (byteLength bytes) -> encodeTxnFrame (mkFrame g seq record) = Ok bytes ->
  exists payload, inspectTxnFrameHeader (take TXN_FRAME_HEADER_BYTES bytes)
      = Ok (mkFrameHeader g seq payload (byteLength bytes)) /\
    0 <= payload <= MAX_FRAME_PAYLOAD_BYTES /\ byteLength bytes = frameHeaderBytes + payload /\
    decodeTxnFrame bytes = Ok (mkFrame g seq record).
Proof.
  intros Hr Hg Hs Hn He. destruct (encodeTxnFrame_run g seq record _ Hr Hg Hs Hn) as (payload & He' & Hb & Hl & Hlen & Hd).
  rewrite He in He'. injection He' as ->. exists (byteLength payload).
  assert (Hsize : byteLength (frame_bytes g seq payload) = frameHeaderBytes + byteLength payload).
  { unfold frame_bytes, byteLength, frameHeaderBytes. rewrite frame_fields_length by apply length_le_bytes. lia. }
  split; [|split; [unfold byteLength in *; lia|split; [done|by rewrite decode_frame, Hd]]].
  unfold frame_bytes. rewrite inspect_frame by (done || apply length_le_bytes).
  exact (f_equal (fun n => Ok (mkFrameHeader g seq (byteLength payload) n)) (eq_sym Hsize)).
Qed.

Lemma commits_Inv s seq record bytes s1 : Inv s -> commits s seq record bytes s1 -> Inv s1 /\ generation s1 = generation s.
Proof.
  intros Hs [Ho Hf Hn He Ha]. split; [by eapply (applyTxn_Inv s record None)|].
  destruct Hs as [C Hb Hl]. destruct (applyTxn_run s record None s1 I Ha) as (projected & s2 & Hpre & Hr & ->).
  apply preflightTxn_Ok in Hpre as (delta & Hd & -> & ?).
  destruct (reduceTxn_step _ _ _ _ C Hf Hd Hr) as [_ _ [Hg _]]. exact Hg.
Qed.

Lemma committed_Inv s seq log s' n : committed s seq log s' n -> Inv s -> Inv s'.
Proof.
  induction 1 as [s seq|s seq r b s1 log s' n Hr H IH]; intros Hs; [done|].
  apply IH. by destruct (commits_Inv _ _ _ _ _ Hs Hr).
Qed.

(** ** The loop *)

Section Loop.
Context {Wd : Type} `{LawfulPort Wd} (good : Wd -> Prop) (name : OwnedFileName) (baseEnd : Z).
Context (Hread : readable good).

(** What a step of the replay keeps of the world. *)
Definition untouched (w w' : Wd) : Prop := good w' /\ port_ok w' /\ forall f, file w' f = file w f.

Lemma readExact_run offset len maximum w : good w -> port_ok w -> 0 <= offset -> 0 <= len <= maximum ->
  maximum <= MAX_SAFE_INTEGER -> offset + len <= byteLength (file w name) -> offset + len <= MAX_SAFE_INTEGER ->
  exists w', readExact name offset len maximum w
             = (w', Ok (subarray (file w name) (Z.to_nat offset) (Z.to_nat (offset + len)))) /\ untouched w w'.
Proof.
  intros Hg Hok Ho Hl Hm Hin Hs. destruct (readExact_total good name offset len maximum w) as (w' & Hr & Hg'); try done.
  exists w'. split; [done|]. apply readExact_outcome in Hr as (? & ? & _); [|done]. by split.
Qed.

Lemma subarray_app (a b c : list Z) offset stop : offset = byteLength a -> stop = offset + byteLength b ->
  subarray (a ++ b ++ c) (Z.to_nat offset) (Z.to_nat stop) = b.
Proof.
  intros -> ->. unfold subarray, byteLength. rewrite Z2Nat.inj_add, !Nat2Z.id by lia.
  rewrite drop_app_length, Nat.add_sub_swap, Nat.sub_diag by lia. apply take_app_length.
Qed.

(** The torn end of the log stops the loop. *)
Lemma replayLoop_torn frames s before t w seq :
  good w -> port_ok w -> byteLength (file w name) <= MAX_SAFE_INTEGER ->
  file w name = before ++ t -> torn t -> 
  exists w', replayLoop frames name (byteLength (file w name)) baseEnd s (byteLength before) seq w
             = (w', Ok (s, byteLength before, seq)) /\ untouched w w'.
Proof.
  intros Hg Hok Hs Hf Ht. assert (Hsame : untouched w w) by done.
  assert (Hlen : byteLength (file w name) = byteLength before + byteLength t)
    by (rewrite Hf; unfold byteLength; rewrite length_app; lia).
  destruct frames as [|frames]; cbn [replayLoop]; [by exists w|].
  destruct (negb _) eqn:E1; [by exists w|]. destruct (_ || _) eqn:E2; [by exists w|]. propify.
  unfold frameHeaderBytes in *. assert (H48 : Z.of_nat TXN_FRAME_HEADER_BYTES = 48) by done.
  assert (0 <= byteLength before) by (unfold byteLength; lia).
  destruct (readExact_run (byteLength before) (Z.of_nat TXN_FRAME_HEADER_BYTES) (Z.of_nat TXN_FRAME_HEADER_BYTES) w Hg Hok)
    as (w1 & Hr & Hsame1); [done|lia|ll|lia|lia|].
  rewrite (st_bind_run _ _ _ _ _ Hr). clear Hr. exists w1. split; [|done].
  assert (Hhead : subarray (file w name) (Z.to_nat (byteLength before))
    (Z.to_nat (byteLength before + Z.of_nat TXN_FRAME_HEADER_BYTES)) = take TXN_FRAME_HEADER_BYTES t).
  { rewrite Hf, <- (take_drop TXN_FRAME_HEADER_BYTES t) at 1. apply subarray_app; [done|].
    unfold byteLength in *. rewrite length_take. lia. }
  rewrite Hhead. destruct Ht as [->|(g & q & record & bytes & Hg' & Hq & Hro & Hn & He & [rest ->] & Hne)].
  { change (byteLength []) with 0 in Hlen. lia. }
  destruct (frame_facts g q record (t ++ rest) Hro Hg' Hq Hn He) as (payload & Hi & _).
  rewrite take_app_le in Hi by (unfold byteLength in *; lia). rewrite Hi. cbn [fh_frameBytes].
  assert (Hshort : byteLength (file w name) - byteLength before < byteLength (t ++ rest)).
  { rewrite Hlen. unfold byteLength. rewrite length_app. destruct rest; [by rewrite app_nil_r in Hne|]. cbn. lia. }
  by rewrite (proj2 (Z.ltb_lt _ _) Hshort).
Qed.

(** One committed frame. *)
Lemma replayLoop_frame frames s before bytes rest w seq record s1 :
  good w -> port_ok w -> byteLength (file w name) <= MAX_SAFE_INTEGER ->
  file w name = before ++ bytes ++ rest -> byteLength before + byteLength bytes - baseEnd <= MAX_ACTIVE_LOG_BYTES ->
  u64 (generation s) -> u64 seq -> commits s seq record bytes s1 ->
  exists w', replayLoop (S frames) name (byteLength (file w name)) baseEnd s (byteLength before) seq w
             = replayLoop frames name (byteLength (file w name)) baseEnd s1 (byteLength before + byteLength bytes)
                 (seq + 1) w' /\ untouched w w'.
Proof.
  intros Hg Hok Hs Hf Hlog Hgen Hseq [Ho Hfit Hn He Ha].
  destruct (frame_facts (generation s) seq record bytes Ho Hgen Hseq Hn He) as (payload & Hi & Hp & Hsize & Hd).
  unfold frameHeaderBytes in Hsize. assert (H48 : Z.of_nat TXN_FRAME_HEADER_BYTES = 48) by done.
  assert (Hlen : byteLength (file w name) = byteLength before + byteLength bytes + byteLength rest)
    by (rewrite Hf; unfold byteLength; rewrite !length_app; lia).
  assert (0 <= byteLength before /\ 0 <= byteLength rest) as [Hb0 Hr0] by (unfold byteLength; lia).
  cbn [replayLoop]. unfold frameHeaderBytes.
  rewrite (proj2 (Z.ltb_lt (byteLength before) (byteLength (file w name)))) by lia.
  rewrite (proj2 (Z.ltb_ge _ (Z.of_nat TXN_FRAME_HEADER_BYTES))) by lia.
  rewrite (proj2 (Z.ltb_ge MAX_ACTIVE_LOG_BYTES _)) by lia. cbn [negb orb].
  destruct (readExact_run (byteLength before) (Z.of_nat TXN_FRAME_HEADER_BYTES) (Z.of_nat TXN_FRAME_HEADER_BYTES) w Hg Hok)
    as (w1 & Hr1 & Hg1 & Hok1 & Hsame1); [done|lia|ll|lia|lia|].
  rewrite (st_bind_run _ _ _ _ _ Hr1). clear Hr1.
  assert (Hhead : subarray (file w name) (Z.to_nat (byteLength before))
    (Z.to_nat (byteLength before + Z.of_nat TXN_FRAME_HEADER_BYTES)) = take TXN_FRAME_HEADER_BYTES bytes).
  { rewrite Hf, <- (take_drop TXN_FRAME_HEADER_BYTES bytes) at 1. rewrite <- app_assoc. apply subarray_app; [done|].
    unfold byteLength in *. rewrite length_take. lia. }
  rewrite Hhead, Hi. cbn [fh_frameBytes fh_payloadLength].
  rewrite (proj2 (Z.ltb_ge _ (byteLength bytes))), (proj2 (Z.ltb_ge MAX_ACTIVE_LOG_BYTES _)) by lia. cbn [orb].
  destruct (readExact_run (byteLength before) (byteLength bytes) (Z.of_nat TXN_FRAME_HEADER_BYTES + payload) w1 Hg1 Hok1)
    as (w2 & Hr2 & Hg2 & Hok2 & Hsame2); [done|lia|ll|rewrite Hsame1; lia|lia|].
  rewrite (st_bind_run _ _ _ _ _ Hr2), Hsame1. clear Hr2.
  rewrite Hf, subarray_app, <- Hf by (done || lia). rewrite Hd. cbn [frame_generation frame_sequence frame_record].
  rewrite !Z.eqb_refl, Ha. cbn [negb orb]. exists w2. split; [done|]. split; [done|]. split; [done|].
  intros f. by rewrite Hsame2, Hsame1.
Qed.

(** The committed frames are replayed, and the loop stops at their end. *)
Lemma replayLoop_committed frames s seq log s' n : committed s seq log s' n -> forall before t w,
  Inv s -> 0 <= seq -> seq + Z.of_nat n <= MAX_U64 -> (n <= frames)%nat ->
  good w -> port_ok w -> byteLength (file w name) <= MAX_SAFE_INTEGER ->
  file w name = before ++ log ++ t -> torn t -> byteLength before + byteLength log - baseEnd <= MAX_ACTIVE_LOG_BYTES ->
  exists w', replayLoop frames name (byteLength (file w name)) baseEnd s (byteLength before) seq w
             = (w', Ok (s', byteLength before + byteLength log, seq + Z.of_nat n)) /\ untouched w w'.
Proof.
  intros Hcm. revert frames. induction Hcm as [s seq|s seq record bytes s1 log s' n Hc Hcm IH];
    intros frames before t w Hs Hseq Hmax Hn Hg Hok Hsafe Hf Ht Hlog.
  - change (byteLength []) with 0. rewrite !Z.add_0_r. by apply (replayLoop_torn frames s before t).
  - destruct frames as [|frames]; [lia|].
    assert (Hbl : byteLength (bytes ++ log) = byteLength bytes + byteLength log)
      by (unfold byteLength; rewrite length_app; lia).
    assert (Hab : byteLength (before ++ bytes) = byteLength before + byteLength bytes)
      by (unfold byteLength; rewrite length_app; lia).
    assert (0 <= byteLength log) by (unfold byteLength; lia).
    pose proof (c_generation s (inv_core s Hs)) as Hgen.
    destruct (replayLoop_frame frames s before bytes (log ++ t) w seq record s1) as (w1 & Hr & Hg1 & Hok1 & Hsame1);
      [done|done|done|by rewrite Hf, <- app_assoc|lia|unfold u64; lia|unfold u64; lia|done|].
    rewrite Hr, <- Hab. destruct (commits_Inv _ _ _ _ _ Hs Hc) as [Hs1 _].
    destruct (IH frames (before ++ bytes) t w1) as (w2 & Hr2 & Hg2 & Hok2 & Hsame2);
      [done|lia|lia|lia|done|done|by rewrite Hsame1|rewrite Hsame1, Hf, <- !app_assoc; done|done|lia|].
    rewrite Hsame1 in Hr2. exists w2. rewrite Hr2, Hab, Hbl. split; [do 3 f_equal; [f_equal|]; lia|].
    split; [done|]. split; [done|]. intros f. by rewrite Hsame2, Hsame1.
Qed.
End Loop.

(** ** Durability and recovery: the properties

    What a flush makes durable, what a termination leaves of the rest, and what the replay of a log
    that a termination cut short recovers. *)

#[local] Existing Instance example_port.
#[local] Existing Instance example_lawful.

(** ** Runs of the port's operations *)

Lemma takeFault_run op file label p : exists fault p1,
  takeFault op file label p = (p1, Ok fault) /\ same_files p p1.
Proof.
  unfold takeFault, mbind, ST_bind, st_get, st_modify, mret, ST_ret.
  destruct (take_fault op file label (faults p)) as [found rest]. by eexists _, _.
Qed.

Lemma handleFlush_run name label p p' : handleFlush name label p = (p', Ok tt) ->
  exists p1, same_files p p1 /\
    durable p' = <[name := (durable_image p1 name).1]> (durable p1) /\ volatile p' = volatile p1 /\
    effects p' = filter (fun e => effect_file e <> name) (effects p1).
Proof.
  unfold handleFlush, recordOperation, setCopiedBytes. rewrite !st_bind_modify.
  match goal with |- (takeFault ?o ?f ?l ≫= _) ?q = _ -> _ => set (q0 := q); destruct (takeFault_run o f l q0) as (fault & p1 & Ht & Hs) end.
  rewrite (st_bind_run _ _ _ _ _ Ht), st_bind_lift. destruct (throw_if _ _) as [u|e]; [|done].
  rewrite (st_bind_run _ _ _ _ _ (makeDurable_run name p1)), st_bind_modify. unfold st_lift.
  intros [= <- _]. exists p1. split; [|done]. exact Hs.
Qed.

Lemma handleWrite_effects name src pos label p p' r : handleWrite name src pos label p = (p', r) ->
  durable p' = durable p /\
  (effects p' = effects p \/ exists id k, (k <= length src)%nat /\ take k src <> [] /\
     effects p' = effects p ++ [WriteEffect id name (Z.to_nat pos) (take k src)]).
Proof.
  unfold handleWrite. rewrite st_bind_lift. destruct (validateRange _ _) as [u|e]; [|by intros [= <- <-]; auto].
  prologue p1 fault Hs. destruct Hs as (Hd & Hv & He & _). rewrite <- Hd, <- He.
  rewrite st_bind_lift. destruct (throw_if _ _) as [u'|e]; [|by intros [= <- <-]; auto].
  cbv zeta. set (count := match fault with Some _ => _ | None => _ end).
  assert (Hcount : count <= Z.of_nat (length src)) by (unfold count; destruct fault; [destruct (_ || _)|]; lia).
  destruct (0 <? count) eqn:Ec; propify.
  - unfold mbind at 1, ST_bind at 1. rewrite recordWrite_run. destruct (volatile p1 !! name) as [im|]; [|by intros [= <- <-]; auto].
    cbv beta iota zeta. rewrite st_bind_lift. destruct (throw_if _ _); intros [= <- <-]; (split; [done|]); right;
      exists (nextEffectId p1), (Z.to_nat count); (split; [lia|]); (split; [|done]);
      (destruct src; [cbn in Hcount; lia|]); (destruct (Z.to_nat count) eqn:E; [lia|done]).
  - unfold mbind, ST_bind, st_lift, mret, ST_ret. destruct (throw_if _ _); intros [= <- <-]; auto.
Qed.

(** ** Durability *)

(** Whatever calls a client makes, faults and terminations included, the volatile content of each
    file is its durable content after the pending effects of the file, in order. *)
Theorem history_accounts (sortByName : list (jsstr * EntryKind) -> list (jsstr * EntryKind))
  (calls : list MemoryCall) (name : OwnedFileName) :
  bytes_of (volatile (history sortByName calls)) name
  = foldl effect_bytes (bytes_of (durable (history sortByName calls)) name)
      (effects_of name (effects (history sortByName calls))).
Proof. apply (mi_effects _ (history_inv sortByName calls)). Qed.

(** A flush that returns makes the volatile content of its file durable and leaves no effect of the
    file pending; the other files keep their durable content and their pending effects, and no volatile
    content changes. *)
Theorem flush_durable (p p' : MemoryRepackedPort) (name : OwnedFileName) (label : jsstr)
  (Hinv : MemInv p) (Hflush : handleFlush name label p = (p', Ok tt)) :
  bytes_of (durable p') name = bytes_of (volatile p) name /\ effects_of name (effects p') = [] /\
  (forall x, bytes_of (volatile p') x = bytes_of (volatile p) x) /\
  forall x, name <> x -> bytes_of (durable p') x = bytes_of (durable p) x /\
                         effects_of x (effects p') = effects_of x (effects p).
Proof.
  apply handleFlush_run in Hflush as (p1 & (Hd & Hv & He & _) & Hd' & Hv' & He').
  assert (Hp1 : MemInv p1) by (by apply (MemInv_frame p)). destruct (durable_image_spec p1 name Hp1) as [_ Hb].
  rewrite Hd', He', Hv', Hv. split; [rewrite bytes_of_insert, decide_True, Hb by done; by rewrite Hv|].
  split; [apply effects_of_self|]. split; [done|]. intros x Hx.
  by rewrite bytes_of_insert, decide_False, effects_of_others, Hd, He.
Qed.

(** The witnesses' port: a file with one flushed and one pending write. *)
Definition pending_calls : list MemoryCall :=
  [CallAcquire MetadataABin []; CallWrite MetadataABin [1; 2; 3] 0 []; CallFlush MetadataABin [];
   CallWrite MetadataABin [8; 9] 4 []].
Definition pending_port : MemoryRepackedPort := history id pending_calls.

Lemma flush_durable_witness :
  bytes_of (durable (handleFlush MetadataABin [] pending_port).1) MetadataABin
    = bytes_of (volatile pending_port) MetadataABin /\
  effects_of MetadataABin (effects (handleFlush MetadataABin [] pending_port).1) = [] /\
  (forall x, bytes_of (volatile (handleFlush MetadataABin [] pending_port).1) x
             = bytes_of (volatile pending_port) x) /\
  forall x, MetadataABin <> x ->
    bytes_of (durable (handleFlush MetadataABin [] pending_port).1) x = bytes_of (durable pending_port) x /\
    effects_of x (effects (handleFlush MetadataABin [] pending_port).1) = effects_of x (effects pending_port).
Proof.
  apply (flush_durable pending_port (handleFlush MetadataABin [] pending_port).1 MetadataABin []).
  - exact (history_inv id pending_calls).
  - vm_compute. reflexivity.
Defined.

(** A termination that returns leaves each file, volatile and durable, with its durable content after
    what the decisions let through of its pending effects: nothing, all or a prefix of each, in order. A
    file without pending effects survives whatever the decisions are. *)
Theorem terminate_materialises (decisions : Z -> TerminationDecision) (p p' : MemoryRepackedPort)
  (Hinv : MemInv p) (Hrun : terminate decisions p = (p', Ok tt)) :
  effects p' = [] /\ open_names p' = ∅ /\ epoch p' = epoch p + 1 /\
  forall name, bytes_of (volatile p') name = bytes_of (durable p') name /\
    bytes_of (durable p') name = foldl (decided decisions) (bytes_of (durable p) name) (effects_of name (effects p)) /\
    (effects_of name (effects p) = [] -> bytes_of (durable p') name = bytes_of (volatile p) name).
Proof.
  assert (Hfields : effects p' = [] /\ open_names p' = ∅ /\ epoch p' = epoch p + 1).
  { unfold terminate in Hrun. rewrite st_bind_get, st_bind_lift in Hrun. destruct (foldM _ _ _); [|done]. by injection Hrun as <-. }
  destruct Hfields as (He & Ho & Hep). split; [done|]. split; [done|]. split; [done|]. intros name.
  destruct (terminate_Ok decisions p p' Hinv Hrun name) as [Hv Hd]. split; [done|]. split; [done|].
  intros Hnil. by rewrite Hd, (mi_effects p Hinv), Hnil.
Qed.

Lemma terminate_materialises_witness :
  let p' := (terminate (fun _ => Prefix 1) pending_port).1 in
  effects p' = [] /\ open_names p' = ∅ /\ epoch p' = epoch pending_port + 1 /\
  forall name, bytes_of (volatile p') name = bytes_of (durable p') name /\
    bytes_of (durable p') name
      = foldl (decided (fun _ => Prefix 1)) (bytes_of (durable pending_port) name) (effects_of name (effects pending_port)) /\
    (effects_of name (effects pending_port) = [] -> bytes_of (durable p') name = bytes_of (volatile pending_port) name).
Proof.
  cbv zeta. apply (terminate_materialises (fun _ => Prefix 1) pending_port).
  - exact (history_inv id pending_calls).
  - vm_compute. reflexivity.
Defined.

(** ** Recovery *)

Lemma requiredArenaEnd_Inv s : Inv s ->
  requiredArenaEnd s = Ok (ARENA_HEADER_BYTES + totalExtents (allocator s) * extentSize s).
Proof.
  intros [C _ _]. pose proof (c_extentSize s C) as [He _]. pose proof (a_total _ (c_alloc s C)) as Ht.
  assert (totalExtents (allocator s) * extentSize s <= MAX_TOTAL_EXTENTS * MAX_EXTENT_BYTES)
    by (apply Z.mul_le_mono_nonneg; ll).
  assert (0 <= totalExtents (allocator s) * extentSize s) by (apply Z.mul_nonneg_nonneg; ll).
  unfold requiredArenaEnd, checkedAdd, checkedMultiply.
  rewrite (checkedU64_id (_ * _)) by ll. cbn [mbind result_bind]. apply checkedU64_id. ll.
Qed.

Definition replayed (s : VfsState) (validEnd : Z) (n : nat) : ReplayResult :=
  mkReplay s validEnd (1 + Z.of_nat n) (ARENA_HEADER_BYTES + totalExtents (allocator s) * extentSize s).

Lemma replayLog_run {Wd} `{LawfulPort Wd} (good : Wd -> Prop) name base log t w s s' n :
  readable good -> good w -> port_ok w -> Inv s -> committed s 1 log s' n -> torn t ->
  file w name = base ++ log ++ t -> Z.of_nat n <= MAX_ACTIVE_LOG_FRAMES -> byteLength log <= MAX_ACTIVE_LOG_BYTES ->
  byteLength (file w name) <= MAX_SAFE_INTEGER ->
  exists w', replayLog name (byteLength (file w name)) s (byteLength base) w
             = (w', Ok (replayed s' (byteLength base + byteLength log) n)) /\ untouched good w w'.
Proof.
  intros Hread Hg Hok Hs Hc Ht Hf Hn Hlog Hsafe.
  assert (Hlen : byteLength (file w name) = byteLength base + byteLength log + byteLength t)
    by (rewrite Hf; unfold byteLength; rewrite !length_app; lia).
  assert (0 <= byteLength base /\ 0 <= byteLength log /\ 0 <= byteLength t) as (? & ? & ?) by (unfold byteLength; lia).
  destruct (replayLoop_committed good name (byteLength base) Hread (Z.to_nat MAX_ACTIVE_LOG_FRAMES) s 1 log s' n Hc base t w)
    as (w' & Hr & Hu); [done|lia|ll|lia|done|done|done|done|done|lia|].
  exists w'. split; [|done]. unfold replayLog. rewrite st_bind_lift.
  rewrite (proj2 (checkedSafeNumber_Ok (byteLength base) (byteLength base))) by (split; [done|lia]).
  rewrite (st_bind_run _ _ _ _ _ Hr). cbv beta iota. rewrite st_bind_lift.
  pose proof (committed_Inv _ _ _ _ _ Hc Hs) as Hs'.
  rewrite (validateState_complete s' Hs'), st_bind_lift, (requiredArenaEnd_Inv s' Hs'). reflexivity.
Qed.

(** Replay recovers exactly the committed transactions: over any lawful port, when the metadata file
    holds a base, the frames of a history of committed transactions and then a torn frame (or nothing),
    [replayLog] returns the state after the last committed transaction, the end of its frame and the next
    sequence number, and the file is not modified. *)
Theorem replayLog_recovers (Wd : Type) (port : RepackedPort Wd) (lawful : LawfulPort Wd) (good : Wd -> Prop)
  (name : OwnedFileName) (base log t : list Z) (w : Wd) (s s' : VfsState) (n : nat)
  (Hreadable : readable good) (Hgood : good w) (Hok : port_ok w) (Hinv : Inv s)
  (Hlog : committed s 1 log s' n) (Htorn : torn t) (Hfile : file w name = base ++ log ++ t)
  (Hframes : Z.of_nat n <= MAX_ACTIVE_LOG_FRAMES) (Hbytes : byteLength log <= MAX_ACTIVE_LOG_BYTES)
  (Hsafe : byteLength (file w name) <= MAX_SAFE_INTEGER) :
  exists w', replayLog name (byteLength (file w name)) s (byteLength base) w
             = (w', Ok (replayed s' (byteLength base + byteLength log) n)) /\
    (forall f, file w' f = file w f) /\ Inv s'.
Proof.
  destruct (replayLog_run good name base log t w s s' n) as (w' & Hr & _ & _ & Hf); try done.
  exists w'. split; [done|]. split; [done|]. exact (committed_Inv _ _ _ _ _ Hlog Hinv).
Qed.

(** A write that a termination cut short leaves a prefix of its bytes. *)
Lemma crashed_write p p1 p2 name label bytes frame r decisions :
  MemInv p -> effects_of name (effects p) = [] -> bytes_of (durable p) name = bytes ->
  handleWrite name frame (byteLength bytes) label p = (p1, r) -> terminate decisions p1 = (p2, Ok tt) ->
  exists k, (k <= length frame)%nat /\ bytes_of (durable p2) name = bytes ++ take k frame.
Proof.
  intros Hp Hnil Hbytes Hw Ht. pose proof (keeps_write name frame (byteLength bytes) label p Hp) as Hp1. rewrite Hw in Hp1.
  destruct (terminate_Ok decisions p1 p2 Hp1 Ht name) as [_ Hd]. apply handleWrite_effects in Hw as [Hdur Heff].
  rewrite Hdur, Hbytes in Hd. unfold byteLength in *. rewrite Nat2Z.id in Heff.
  assert (Hat : forall k, write_at (length bytes) (take k frame) bytes = bytes ++ take k frame).
  { intros k. unfold write_at. destruct (take k frame) as [|x l]; [by rewrite app_nil_r|].
    rewrite resize_all, drop_ge, app_nil_r by lia. done. }
  destruct Heff as [Heff|(id & k & Hk & _ & Heff)]; rewrite Heff in Hd.
  - exists 0%nat. split; [lia|]. by rewrite Hd, Hnil, app_nil_r.
  - rewrite effects_of_app, Hnil in Hd. unfold effects_of in Hd. rewrite filter_cons, decide_True, filter_nil in Hd by done.
    cbn [foldl app] in Hd. rewrite Hd. unfold decided. cbn [effect_id effect_bytes].
    destruct (decisions id) as [| |m].
    + exists 0%nat. split; [lia|]. by rewrite app_nil_r.
    + exists k. split; [lia|]. apply Hat.
    + rewrite take_take. exists (Z.to_nat m `min` k)%nat. split; [lia|]. apply Hat.
Qed.

(** C1. A commit is atomic under termination. On the in-memory port, let a metadata file be durable with a
    base and the frames of the committed transactions, and let one write append the frame of the next
    transaction; the write may fall short, throw, or be cut short by a termination that lets any prefix of
    it through. Replay of what is left then recovers either the state before the transaction or the state
    after it, with the log cut at the end of the last whole frame. *)
Theorem commit_crash_atomic (Wd : Type) (port : RepackedPort Wd) (lawful : LawfulPort Wd) (good : Wd -> Prop)
  (p p1 p2 : MemoryRepackedPort) (name : OwnedFileName) (label : jsstr) (base log frame : list Z) (r : R Z)
  (decisions : Z -> TerminationDecision) (s s1 s2 : VfsState) (n : nat) (record : TxnRecord) (w : Wd)
  (Hp : MemInv p) (Hflushed : effects_of name (effects p) = []) (Hdurable : bytes_of (durable p) name = base ++ log)
  (Hinv : Inv s) (Hlog : committed s 1 log s1 n) (Hnext : commits s1 (1 + Z.of_nat n) record frame s2)
  (Hwrite : handleWrite name frame (byteLength (base ++ log)) label p = (p1, r))
  (Hcrash : terminate decisions p1 = (p2, Ok tt))
  (Hreadable : readable good) (Hgood : good w) (Hok : port_ok w) (Hfile : file w name = bytes_of (durable p2) name)
  (Hframes : Z.of_nat (S n) <= MAX_ACTIVE_LOG_FRAMES) (Hbytes : byteLength (log ++ frame) <= MAX_ACTIVE_LOG_BYTES)
  (Hsafe : byteLength (base ++ log ++ frame) <= MAX_SAFE_INTEGER) :
  exists w' result, replayLog name (byteLength (file w name)) s (byteLength base) w = (w', Ok result) /\
    (result = replayed s1 (byteLength (base ++ log)) n \/
     result = replayed s2 (byteLength (base ++ log ++ frame)) (S n)).
Proof.
  destruct (crashed_write p p1 p2 name label (base ++ log) frame r decisions) as (k & Hk & Hleft); try done.
  rewrite Hleft, <- app_assoc in Hfile.
  assert (Hsum : forall a b : list Z, byteLength (a ++ b) = byteLength a + byteLength b)
    by (intros a b; unfold byteLength; rewrite length_app; lia).
  assert (Htake : byteLength (take k frame) <= byteLength frame) by (unfold byteLength; rewrite length_take; lia).
  assert (0 <= byteLength frame) by (unfold byteLength; lia).
  rewrite !Hsum in *.
  destruct (decide (take k frame = frame)) as [Hall|Hpart].
  - rewrite Hall in Hfile. destruct (replayLog_run good name base (log ++ frame) [] w s s2 (S n)) as (w' & Hr & _).
    + done.
    + done.
    + done.
    + done.
    + by eapply committed_snoc.
    + by left.
    + by rewrite app_nil_r.
    + done.
    + by rewrite Hsum.
    + rewrite Hfile, !Hsum. lia.
    + exists w', (replayed s2 (byteLength base + (byteLength log + byteLength frame)) (S n)).
      rewrite Hr, Hsum. split; [done|by right].
  - assert (Hgen : u64 (generation s1)).
    { pose proof (c_generation s1 (inv_core s1 (committed_Inv _ _ _ _ _ Hlog Hinv))). unfold u64. lia. }
    destruct (replayLog_run good name base log (take k frame) w s s1 n) as (w' & Hr & _).
    + done.
    + done.
    + done.
    + done.
    + done.
    + right. exists (generation s1), (1 + Z.of_nat n), record, frame. destruct Hnext as [? ? ? ? ?].
      split; [done|]. split; [ll|]. split; [done|]. split; [done|]. split; [done|]. split; [apply prefix_take|done].
    + done.
    + lia.
    + lia.
    + rewrite Hfile, !Hsum. lia.
    + exists w', (replayed s1 (byteLength base + byteLength log) n). split; [done|by left].
Qed.

(** *** The witnesses: one committed transaction on the empty store, and the next one in flight *)

Definition first_record : TxnRecord := example_record.
Definition second_record : TxnRecord := ChangeMode 2 384 8000.
Definition after (record : TxnRecord) (s : VfsState) : VfsState := (applyTxn record None s).1.
Definition first_state : VfsState := after first_record example_store.
Definition second_state : VfsState := after second_record first_state.
Definition frame_at (s : VfsState) (seq : Z) (record : TxnRecord) : list Z :=
  from_ok [] (encodeTxnFrame (mkFrame (generation s) seq record)).
Definition first_frame : list Z := Eval vm_compute in frame_at example_store 1 first_record.
Definition second_frame : list Z := Eval vm_compute in frame_at first_state 2 second_record.
Definition example_base : list Z := [7; 7; 7].

Definition logged_calls : list MemoryCall :=
  [CallAcquire MetadataABin []; CallWrite MetadataABin (example_base ++ first_frame) 0 []; CallFlush MetadataABin []].
Definition logged_port : MemoryRepackedPort := history id logged_calls.
Definition next_write : MemoryRepackedPort := (handleWrite MetadataABin second_frame (byteLength (example_base ++ first_frame)) [] logged_port).1.
Definition cut_short : Z -> TerminationDecision := fun _ => Prefix 50.
Definition crashed_port : MemoryRepackedPort := (terminate cut_short next_write).1.

(** The crashed port, its metadata file opened again. *)
Definition reopened : MemoryWorld := run_world (memory_open MetadataABin []) (mkMemoryWorld crashed_port ∅).

Lemma first_record_commits : commits example_store 1 first_record first_frame first_state.
Proof.
  assert (H : forall v, 0 <= v <= 10000 -> u64 v) by (intros v Hv; ll).
  split.
  - cbn [first_record example_record record_ok]. split; [apply H; lia|]. split.
    { split; [exists 1; reflexivity|]. split; [|discriminate].
      repeat (apply Forall_cons; split; [split; discriminate|]). apply Forall_nil_2. }
    split; [apply H; lia|]. split; [unfold u32_ok; lia|]. do 4 (split; [apply H; lia|]).
    split; [|vm_compute; discriminate].
    repeat (apply Forall_cons; split; [split; [apply H; cbn; lia|cbn; lia]|]). apply Forall_nil_2.
  - exact example_record_fits.
  - vm_compute. reflexivity.
  - vm_compute. reflexivity.
  - vm_compute. reflexivity.
Qed.

Lemma second_record_commits : commits first_state 2 second_record second_frame second_state.
Proof.
  split.
  - cbn [second_record record_ok]. split; [ll|]. split; [unfold u32_ok; lia|ll].
  - exact I.
  - vm_compute. reflexivity.
  - vm_compute. reflexivity.
  - vm_compute. reflexivity.
Qed.

Lemma first_log_committed : committed example_store 1 first_frame first_state 1.
Proof. rewrite <- (app_nil_r first_frame). eapply committed_cons; [exact first_record_commits|apply committed_nil]. Qed.

Lemma reopened_ok : MemInv (mw_port reopened).
Proof.
  assert (E : mw_port reopened = history id (logged_calls ++
    [CallWrite MetadataABin second_frame (byteLength (example_base ++ first_frame)) []; CallTerminate cut_short; CallAcquire MetadataABin []]))
    by (vm_compute; reflexivity).
  rewrite E. apply history_inv.
Qed.

Lemma reopened_good : fault_free reopened.
Proof.
  split; [vm_compute; reflexivity|]. intros name Hn. destruct name.
  - vm_compute in Hn. by destruct Hn.
  - exists (mkHandle 2 false). vm_compute. done.
  - vm_compute in Hn. by destruct Hn.
  - vm_compute in Hn. by destruct Hn.
Qed.

Lemma replayLog_recovers_witness :
  exists w', replayLog MetadataABin (byteLength (file reopened MetadataABin)) example_store (byteLength example_base) reopened
             = (w', Ok (replayed first_state (byteLength example_base + byteLength first_frame) 1)) /\
    (forall f, file w' f = file reopened f) /\ Inv first_state.
Proof.
  apply (replayLog_recovers MemoryWorld example_port example_lawful fault_free MetadataABin example_base first_frame
           (take 50 second_frame) reopened example_store first_state 1).
  - exact fault_free_readable.
  - exact reopened_good.
  - exact reopened_ok.
  - exact example_store_Inv.
  - exact first_log_committed.
  - right. exists (generation first_state), 2, second_record, second_frame.
    destruct second_record_commits as [Ho _ Hs He _]. split; [vm_compute; split; discriminate|].
    split; [split; discriminate|]. split; [exact Ho|]. split; [exact Hs|]. split; [exact He|].
    split; [apply prefix_take|vm_compute; discriminate].
  - vm_compute. reflexivity.
  - vm_compute. discriminate.
  - vm_compute. discriminate.
  - vm_compute. discriminate.
Defined.

Lemma commit_crash_atomic_witness :
  exists w' result, replayLog MetadataABin (byteLength (file reopened MetadataABin)) example_store (byteLength example_base)
                      reopened = (w', Ok result) /\
    (result = replayed first_state (byteLength (example_base ++ first_frame)) 1 \/
     result = replayed second_state (byteLength (example_base ++ first_frame ++ second_frame)) 2).
Proof.
  apply (commit_crash_atomic MemoryWorld example_port example_lawful fault_free logged_port next_write crashed_port
           MetadataABin [] example_base first_frame second_frame (Ok 69) cut_short example_store first_state second_state 1
           second_record reopened).
  - exact (history_inv id logged_calls).
  - vm_compute. reflexivity.
  - vm_compute. reflexivity.
  - exact example_store_Inv.
  - exact first_log_committed.
  - exact second_record_commits.
  - vm_compute. reflexivity.
  - vm_compute. reflexivity.
  - exact fault_free_readable.
  - exact reopened_good.
  - exact reopened_ok.
  - vm_compute. reflexivity.
  - vm_compute. discriminate.
  - vm_compute. discriminate.
  - vm_compute. discriminate.
Defined.
