(* ===== verification/VfsCore.v ===== *)
(** * The repacked store: state and commit protocol

    [packages/pgwasm/src/opfs/core/repacked-vfs.ts]: the live store over a storage port. This file has its
    state, the transfers over the arena, the commit protocol of the metadata log and the repack; the
    operations on paths and descriptors are in [VfsOps]. *)

From S2P Require Export Port MetadataStore.
From coqutil Require Export Datatypes.RecordSetters.
Export DoubleBraceUpdate.

(** ** Data *)

(** An orphan is an object that several descriptors can share, so a descriptor names it by reference. *)
Record Descriptor : Type := mkDescriptor {
  d_inodeId : Z;
  d_offset : Z;
  d_readable : bool;
  d_writable : bool;
  d_append : bool;
  d_orphan : option Z
}.

Definition set_offset (offset : Z) (d : Descriptor) : Descriptor :=
  mkDescriptor (d_inodeId d) offset (d_readable d) (d_writable d) (d_append d) (d_orphan d).
Definition set_orphan (orphan : Z) (d : Descriptor) : Descriptor :=
  mkDescriptor (d_inodeId d) (d_offset d) (d_readable d) (d_writable d) (d_append d) (Some orphan).

Record ParsedFlags : Type := mkFlags {
  fl_readable : bool;
  fl_writable : bool;
  fl_create : bool;
  fl_exclusive : bool;
  fl_truncate : bool;
  fl_append : bool
}.

Record WriteProgress : Type := mkProgress { wp_bytes : Z; wp_error : option error }.

Record PreparedCommit : Type := mkPreparedCommit {
  pc_frame : option (list Z);
  pc_frameBytes : Z;
  pc_projection : PreparedTxnProjection;
  pc_materializedRecord : TxnRecord;
  pc_deferResize : bool;
  pc_replacesPendingResize : bool
}.

Record PendingResizeCommit : Type := mkPending {
  pr_record : TxnRecord;
  pr_frameBytes : Z;
  pr_sequence : Z
}.

Inductive FlushKind : Type := FlushAmortized | FlushArena | FlushMetadata | FlushZeroBarrier | FlushManifest.

Inductive RepackReason : Type :=
| Manual | ByTime | LogBytes | LogFrames | WriterLimit | QuarantinePressure | Quota.

Inductive VfsStatus : Type := StatusOpen | StatusFailed | StatusClosed.

#[global] Instance VfsStatus_eq_dec : EqDecision VfsStatus.
Proof. solve_decision. Defined.

Definition REPACK_INTERVAL_MS : Z := 30000.
Definition AMORTIZED_ARENA_FLUSH_BYTES : Z := 4 * 1024 * 1024.
Definition BASE_REPACK_PRESSURE_BYTES : Z := MAX_METADATA_BASE_WRITER_BYTES * 3 / 4.
Definition QUARANTINE_PRESSURE_EXTENTS : Z := 64.

Definition isQuotaExceeded (cause : error) : bool :=
  match cause with QuotaExceededError => true | _ => false end.

Definition mergeExtentRuns (left right : list ExtentRun) : list ExtentRun :=
  foldl (fun merged run =>
    match last merged with
    | Some lst =>
        if (run_start lst + run_count lst =? run_start run) && (run_count lst + run_count run <=? 0xffffffff)
        then removelast merged ++ [mkRun (run_start lst) (run_count lst + run_count run)]
        else merged ++ [run]
    | None => merged ++ [run]
    end) left right.

Record Flushes : Type := mkFlushes {
  f_amortized : Z; f_arena : Z; f_metadata : Z; f_zeroBarrier : Z; f_manifest : Z
}.

Definition countFlush (kind : FlushKind) (f : Flushes) : Flushes :=
  match kind with
  | FlushAmortized => mkFlushes (f_amortized f + 1) (f_arena f) (f_metadata f) (f_zeroBarrier f) (f_manifest f)
  | FlushArena => mkFlushes (f_amortized f) (f_arena f + 1) (f_metadata f) (f_zeroBarrier f) (f_manifest f)
  | FlushMetadata => mkFlushes (f_amortized f) (f_arena f) (f_metadata f + 1) (f_zeroBarrier f) (f_manifest f)
  | FlushZeroBarrier => mkFlushes (f_amortized f) (f_arena f) (f_metadata f) (f_zeroBarrier f + 1) (f_manifest f)
  | FlushManifest => mkFlushes (f_amortized f) (f_arena f) (f_metadata f) (f_zeroBarrier f) (f_manifest f + 1)
  end.

(** ** The live store *)

(** [#arenaSize], [#arenaDirty] and [#arenaDirtyBytesSinceFlush]. *)
Record ArenaCache : Type := mkArenaCache {
  ar_size : option Z;
  ar_dirty : bool;
  ar_dirtyBytes : Z
}.

Record RepackStatus : Type := mkRepackStatus {
  rs_repacking : bool;
  rs_lastReason : option RepackReason;
  rs_lastDurationMs : option Z;
  rs_pendingReason : option RepackReason;
  rs_count : Z;
  rs_lastAtMs : Z
}.

(** [#descriptors] and [#nextDescriptor], and the orphan objects the descriptors refer to. *)
Record DescriptorTable : Type := mkTable {
  dt_descriptors : gmap Z Descriptor;
  dt_nextDescriptor : Z;
  dt_orphans : gmap Z OrphanRecord;
  dt_nextOrphan : Z
}.

Record Vfs : Type := mkVfs {
  v_store : OpenedMetadataStore;
  v_status : VfsStatus;
  v_failure : option error;
  v_table : DescriptorTable;
  v_pendingResizeCommit : option PendingResizeCommit;
  v_arena : ArenaCache;
  v_metadataDirtySinceFlush : bool;
  v_repack : RepackStatus;
  v_flushes : Flushes
}.

(** The store and the world its handles act on. *)
Record Host (Wd : Type) : Type := mkHost { h_world : Wd; h_vfs : Vfs }.
Arguments mkHost {Wd} _ _.
Arguments h_world {Wd} _.
Arguments h_vfs {Wd} _.

Definition v_state (v : Vfs) : VfsState := om_state (v_store v).

(** [try { m } finally { fin }] *)
Definition st_finally {S A} (m : M S A) (fin : M S unit) : M S A := fun s =>
  let '(s1, r) := m s in
  match fin s1 with
  | (s2, Ok _) => (s2, r)
  | (s2, Throw e) => (s2, Throw e)
  end.

Section Store.
Context {Wd : Type} `{RepackedPort Wd}.
(** The clocks: [Date.now] and [performance.now]. *)
Context (dateNow performanceNow : M Wd Z).

Abbreviation V := (M (Host Wd)).

Definition on_world {A} (m : M Wd A) : V A := fun h =>
  let '(w, r) := m (h_world h) in (mkHost w (h_vfs h), r).
Definition vfs : V Vfs := fun h => (h, Ok (h_vfs h)).
Definition modify (f : Vfs -> Vfs) : V unit := st_modify (fun h => mkHost (h_world h) (f (h_vfs h))).
Definition throw {A} (e : error) : V A := st_lift (Throw e).
Definition when (b : bool) (m : V unit) : V unit := if b then m else mret tt.

(** *** Status *)

Definition assertOpen : V unit :=
  v ← vfs;
  match v_status v with
  | StatusFailed => throw (StoreFailedError (v_failure v))
  | StatusClosed => throw StoreClosedError
  | StatusOpen => mret tt
  end.

Definition poison (cause : error) : V unit :=
  modify (fun v => match v_status v with
                   | StatusOpen => v {{ v_status := StatusFailed; v_failure := Some cause }}
                   | _ => v
                   end).

(** [catch (cause) { this.#poison(cause); throw cause; }] *)
Definition poisoning {A} (m : V A) : V A := st_catch m (fun cause => poison cause ≫= fun _ => throw cause).

Definition failStore {A} (cause : error) : V A :=
  poison cause ≫= fun _ =>
  v ← vfs; throw (StoreFailedError (v_failure v)).

(** *** The arena cache *)

Definition flushFile (name : OwnedFileName) (kind : FlushKind) : V unit :=
  modify (fun v => v {{ v_flushes ::= countFlush kind }}) ≫= fun _ =>
  on_world (flush name).

Definition setArenaSize (size : option Z) : V unit := modify (fun v => v {{ v_arena -> ar_size := size }}).
Definition setArenaDirty : V unit := modify (fun v => v {{ v_arena -> ar_dirty := true }}).
Definition cleanArena : V unit := modify (fun v => v {{ v_arena -> ar_dirty := false; v_arena -> ar_dirtyBytes := 0 }}).

Definition flushPreparedArena : V unit :=
  flushFile ArenaBin FlushZeroBarrier ≫= fun _ => cleanArena.

Definition recordArenaWrite (bytes : Z) : V unit :=
  st_lift (throw_if (negb (isSafeInteger bytes) || (bytes <? 0)) TypeError) ≫= fun _ =>
  modify (fun v => v {{ v_arena -> ar_dirtyBytes ::= fun n => Z.min MAX_SAFE_INTEGER (n + bytes) }}).

Definition arenaSizeChecked : V Z :=
  v ← vfs;
  match ar_size (v_arena v) with
  | Some size => mret size
  | None =>
      size ← on_world (getSize ArenaBin);
      st_lift (throw_if (negb (isSafeInteger size) || (size <? 0)) PlainError) ≫= fun _ =>
      setArenaSize (Some size) ≫= fun _ =>
      mret size
  end.

Definition writeArena (source : list Z) (at_ : Z) : V Z :=
  v ← vfs;
  let sizeBefore := ar_size (v_arena v) in
  setArenaSize None ≫= fun _ =>
  written ← on_world (write ArenaBin source at_);
  match sizeBefore with
  | Some sizeBefore =>
      if isSafeInteger written && (0 <=? written) && (written <=? Z.of_nat (length source))
         && isSafeInteger (at_ + written)
      then setArenaSize (Some (Z.max sizeBefore (at_ + written))) ≫= fun _ => mret written
      else mret written
  | None => mret written
  end.

Definition writeArenaExact (at_ : Z) (source : list Z) : V unit :=
  v ← vfs;
  let sizeBefore := ar_size (v_arena v) in
  setArenaSize None ≫= fun _ =>
  on_world (writeExact ArenaBin at_ source) ≫= fun _ =>
  match sizeBefore with
  | Some sizeBefore =>
      stop ← st_lift (checkedAdd at_ (Z.of_nat (length source)));
      stop ← st_lift (checkedSafeNumber stop);
      setArenaSize (Some (Z.max sizeBefore stop))
  | None => mret tt
  end.

Definition truncateArena (size : Z) : V unit :=
  setArenaSize None ≫= fun _ =>
  on_world (truncateChecked ArenaBin size) ≫= fun _ =>
  size ← st_lift (checkedSafeNumber size);
  setArenaSize (Some size).

(** *** The commit protocol *)

Definition activeName (v : Vfs) : OwnedFileName := metadataFileName (activeMetadataFile (v_state v)).

Definition appendFrame (frame : list Z) : V unit :=
  v ← vfs;
  st_catch
    (on_world (writeExact (activeName v) (om_activeLogEnd (v_store v)) frame) ≫= fun _ =>
     modify (fun v => v {{ v_metadataDirtySinceFlush := true;
                           v_store -> om_activeLogEnd ::= fun e => e + Z.of_nat (length frame) }}))
    failStore.

Definition materializePendingResize : V unit :=
  v ← vfs;
  match v_pendingResizeCommit v with
  | None => mret tt
  | Some pending =>
      frame ← poisoning (
        frame ← st_lift (encodeTxnFrame (mkFrame (generation (v_state v)) (pr_sequence pending) (pr_record pending)));
        st_lift (throw_if (negb (Z.of_nat (length frame) =? pr_frameBytes pending)) PlainError) ≫= fun _ =>
        mret frame);
      appendFrame frame ≫= fun _ =>
      modify (fun v => v {{ v_pendingResizeCommit := None }})
  end.

(** [#scheduleRepack]; the pressure of the quarantine never replaces an earlier reason. *)
Definition quarantineSize (s : VfsState) : Z := Z.of_nat (length (quarantine (allocator s))).

Definition scheduledReason (v : Vfs) : option RepackReason :=
  let s := v_state v in
  let pending := rs_pendingReason (v_repack v) in
  if SOFT_ACTIVE_LOG_BYTES <=? om_activeLogBytes (v_store v) then Some LogBytes
  else if SOFT_ACTIVE_LOG_FRAMES <=? om_activeLogFrames (v_store v) then Some LogFrames
  else if BASE_REPACK_PRESSURE_BYTES <=? basePayloadBytes s then Some WriterLimit
  else if (QUARANTINE_PRESSURE_EXTENTS <=? quarantineSize s)
          || ((0 <? quarantineSize s) && (ExtentSet.size (available (allocator s)) =? 0))
  then match pending with Some reason => Some reason | None => Some QuarantinePressure end
  else pending.

Definition scheduleRepack : V unit := modify (fun v => v {{ v_repack -> rs_pendingReason := scheduledReason v }}).

Definition isDeferrableResize (s : VfsState) (record : TxnRecord) : bool :=
  match record with
  | ResizeFile OpWrite inodeId size _ _ _ =>
      match inodes s !! inodeId with
      | Some inode => match inode_kind inode with File fsize _ => fsize <? size | _ => false end
      | None => false
      end
  | _ => false
  end.

(** The pending resize that [record] extends, when it is deferred onto the same inode. *)
Definition replacedPending (v : Vfs) (record : TxnRecord) : option PendingResizeCommit :=
  match v_pendingResizeCommit v, record with
  | Some pending, ResizeFile _ inodeId _ _ _ _ =>
      match pr_record pending with
      | ResizeFile _ inodeId' _ _ _ _ =>
          if isDeferrableResize (v_state v) record && (inodeId' =? inodeId) then Some pending else None
      | _ => None
      end
  | _, _ => None
  end.

Definition mergedRecord (pending : PendingResizeCommit) (record : TxnRecord) : TxnRecord :=
  match pr_record pending, record with
  | ResizeFile _ _ _ before _ _, ResizeFile operation inodeId size allocated mtimeMs ctimeMs =>
      ResizeFile operation inodeId size (mergeExtentRuns before allocated) mtimeMs ctimeMs
  | _, _ => record
  end.

Definition preflightCommit (record : TxnRecord) : V PreparedCommit :=
  assertOpen ≫= fun _ =>
  v ← vfs;
  projection ← st_lift (prepareTxnProjection (v_state v) record);
  let deferResize := isDeferrableResize (v_state v) record in
  let replaced := replacedPending v record in
  let materializedRecord := match replaced with Some pending => mergedRecord pending record | None => record end in
  let sequence := match replaced with Some pending => pr_sequence pending | None => om_nextSequence (v_store v) end in
  frameBytes ← st_lift (txnFrameBytes materializedRecord);
  frame ← st_lift (if deferResize then Ok None
                   else frame ← encodeTxnFrame (mkFrame (generation (v_state v)) sequence materializedRecord);
                        Ok (Some frame));
  let projectedLogBytes := match replaced with
                           | Some pending => om_activeLogBytes (v_store v) - pr_frameBytes pending + frameBytes
                           | None => om_activeLogBytes (v_store v) + frameBytes
                           end in
  st_lift (throw_if ((negb (bool_decide (is_Some replaced)) && (MAX_ACTIVE_LOG_FRAMES <=? om_activeLogFrames (v_store v)))
                     || (MAX_ACTIVE_LOG_BYTES <? projectedLogBytes)) StoreLimitError) ≫= fun _ =>
  mret (mkPreparedCommit frame frameBytes projection materializedRecord deferResize (bool_decide (is_Some replaced))).

(** [applyTxn(this.#store.state, record, prepared.projection)] *)
Definition applyToStore (record : TxnRecord) (projection : PreparedTxnProjection) : V unit := fun h =>
  let '(s, r) := applyTxn record (Some projection) (v_state (h_vfs h)) in
  (mkHost (h_world h) ((h_vfs h) {{ v_store -> om_state := s }}), r).

Definition commitReplacing (record : TxnRecord) (prepared : PreparedCommit) : V unit :=
  v ← vfs;
  match v_pendingResizeCommit v, pc_materializedRecord prepared with
  | Some pending, ResizeFile _ _ _ _ _ _ =>
      poisoning (applyToStore record (pc_projection prepared)) ≫= fun _ =>
      modify (fun v => v {{ v_store -> om_activeLogBytes ::= fun n => n + (pc_frameBytes prepared - pr_frameBytes pending);
                            v_pendingResizeCommit := Some (mkPending (pc_materializedRecord prepared)
                                                             (pc_frameBytes prepared) (pr_sequence pending)) }}) ≫= fun _ =>
      scheduleRepack
  | _, _ => poison PlainError ≫= fun _ => throw PlainError
  end.

(** The counters of the log after one more frame. *)
Definition countFrame (frameBytes : Z) (v : Vfs) : Vfs :=
  v {{ v_store -> om_activeLogBytes ::= fun n => n + frameBytes;
       v_store -> om_activeLogFrames ::= fun n => n + 1;
       v_store -> om_nextSequence ::= fun n => n + 1 }}.

Definition commitDeferred (record : TxnRecord) (prepared : PreparedCommit) : V unit :=
  poisoning (applyToStore record (pc_projection prepared)) ≫= fun _ =>
  modify (fun v => countFrame (pc_frameBytes prepared)
    (v {{ v_pendingResizeCommit := Some (mkPending (pc_materializedRecord prepared) (pc_frameBytes prepared)
                                           (om_nextSequence (v_store v))) }})) ≫= fun _ =>
  scheduleRepack.

Definition commitImmediate (record : TxnRecord) (prepared : PreparedCommit) : V unit :=
  match pc_frame prepared with
  | None => poison PlainError ≫= fun _ => throw PlainError
  | Some frame =>
      appendFrame frame ≫= fun _ =>
      poisoning (applyToStore record (pc_projection prepared)) ≫= fun _ =>
      modify (countFrame (pc_frameBytes prepared)) ≫= fun _ =>
      scheduleRepack
  end.

Definition is_resize (record : TxnRecord) : bool := match record with ResizeFile _ _ _ _ _ _ => true | _ => false end.

Definition commit (record : TxnRecord) (preparedCommit : option PreparedCommit) : V unit :=
  assertOpen ≫= fun _ =>
  prepared ← match preparedCommit with Some prepared => mret prepared | None => preflightCommit record end;
  if pc_replacesPendingResize prepared then commitReplacing record prepared
  else
    materializePendingResize ≫= fun _ =>
    if pc_deferResize prepared && is_resize (pc_materializedRecord prepared)
    then commitDeferred record prepared
    else commitImmediate record prepared.

(** *** Synchronisation and repack *)

Definition strictSync : V unit :=
  assertOpen ≫= fun _ =>
  poisoning (
    v ← vfs;
    when (ar_dirty (v_arena v)) (flushFile ArenaBin FlushArena) ≫= fun _ =>
    materializePendingResize ≫= fun _ =>
    v ← vfs;
    when (v_metadataDirtySinceFlush v) (flushFile (activeName v) FlushMetadata) ≫= fun _ =>
    cleanArena ≫= fun _ =>
    modify (fun v => v {{ v_metadataDirtySinceFlush := false }})).

Definition fail {A} (cause : error) : V A :=
  assertOpen ≫= fun _ => poison cause ≫= fun _ => throw cause.

(** The extents that open orphans still use. *)
Definition pinnedExtents (t : DescriptorTable) : gset Z :=
  map_fold (fun _ d pinned =>
    match d_orphan d ≫= fun o => dt_orphans t !! o with
    | Some orphan => list_to_set (orphan_extents orphan) ∪ pinned
    | None => pinned
    end) ∅ (dt_descriptors t).

(** What [repack] writes: the projected state, its base and the slot that activates it. *)
Definition prepareRepack (activationSequence : Z) (v : Vfs) : R (VfsState * list Z * list Z) :=
  projected ← projectRepackForActivation (v_state v) (pinnedExtents (v_table v));
  base ← encodeValidatedMetadataBase projected;
  activation ← encodeActivationSlot
    (mkActivation activationSequence (activeMetadataFile projected) (generation projected) (byteLength base)
       (metadataBaseDigest base));
  Ok (projected, base, activation).

(** The inactive base, written and flushed before the slot that activates it. *)
Definition writeInactiveBase (projected : VfsState) (base : list Z) : V unit :=
  flushFile ArenaBin FlushArena ≫= fun _ =>
  cleanArena ≫= fun _ =>
  let inactive := metadataFileName (activeMetadataFile projected) in
  on_world (truncate inactive 0) ≫= fun _ =>
  on_world (writeExact inactive 0 base) ≫= fun _ =>
  flushFile inactive FlushMetadata.

Definition writeActivation (activationSequence : Z) (activation : list Z) : V unit :=
  let activationOffset := (activationSequence - 1) mod 2 * Z.of_nat ACTIVATION_SLOT_BYTES in
  poisoning (
    on_world (writeExact ActivationBin activationOffset activation) ≫= fun _ =>
    flushFile ActivationBin FlushManifest).

(** The live store moves to the activated base. *)
Definition switchStore (projected : VfsState) (baseLength activationSequence : Z) (v : Vfs) : Vfs :=
  v {{ v_store -> om_state := projected;
       v_store -> om_activeLogEnd := baseLength;
       v_store -> om_nextSequence := 1;
       v_store -> om_activeLogBytes := 0;
       v_store -> om_activeLogFrames := 0;
       v_store -> om_activationSequence := activationSequence;
       v_metadataDirtySinceFlush := false }}.

Definition adoptBase (reason : RepackReason) (projected : VfsState) (baseLength activationSequence : Z) : V unit :=
  poisoning (
    modify (fun v => switchStore projected baseLength activationSequence v
                       {{ v_repack -> rs_lastReason := Some reason;
                          v_repack -> rs_pendingReason := None;
                          v_repack -> rs_count ::= fun n => n + 1 }}) ≫= fun _ =>
    now ← on_world dateNow;
    modify (fun v => v {{ v_repack -> rs_lastAtMs := now }}) ≫= fun _ =>
    scheduleRepack).

(** The arena tail behind the activated allocator; failing to trim it is harmless. *)
Definition trimArena (requiredEnd : Z) : V unit :=
  st_catch
    (size ← arenaSizeChecked;
     when (requiredEnd <? size) (setArenaDirty ≫= fun _ => truncateArena requiredEnd))
    (fun _ => mret tt).

Definition repackBody (reason : RepackReason) (activationSequence startedAt : Z) : V unit :=
  materializePendingResize ≫= fun _ =>
  v ← vfs;
  '(projected, base, activation) ← st_lift (prepareRepack activationSequence v);
  writeInactiveBase projected base ≫= fun _ =>
  writeActivation activationSequence activation ≫= fun _ =>
  adoptBase reason projected (byteLength base) activationSequence ≫= fun _ =>
  requiredArenaEnd ← st_lift (requiredArenaEnd projected);
  trimArena requiredArenaEnd ≫= fun _ =>
  now ← on_world performanceNow;
  modify (fun v => v {{ v_repack -> rs_lastDurationMs := Some (now - startedAt) }}).

Definition repack (reason : RepackReason) : V unit :=
  assertOpen ≫= fun _ =>
  v ← vfs;
  st_lift (throw_if (rs_repacking (v_repack v)) PlainError) ≫= fun _ =>
  st_lift (checkedAdd (generation (v_state v)) 1) ≫= fun _ =>
  activationSequence ← st_lift (checkedAdd (om_activationSequence (v_store v)) 1);
  modify (fun v => v {{ v_repack -> rs_repacking := true }}) ≫= fun _ =>
  startedAt ← on_world performanceNow;
  st_finally (repackBody reason activationSequence startedAt)
    (modify (fun v => v {{ v_repack -> rs_repacking := false }})).

Definition dueRepackReason (nowMs : Z) (v : Vfs) : option RepackReason :=
  match rs_pendingReason (v_repack v) with
  | Some reason => Some reason
  | None =>
      if SOFT_ACTIVE_LOG_BYTES <=? om_activeLogBytes (v_store v) then Some LogBytes
      else if SOFT_ACTIVE_LOG_FRAMES <=? om_activeLogFrames (v_store v) then Some LogFrames
      else if BASE_REPACK_PRESSURE_BYTES <=? basePayloadBytes (v_state v) then Some WriterLimit
      else if (0 <? om_activeLogFrames (v_store v)) && (REPACK_INTERVAL_MS <=? nowMs - rs_lastAtMs (v_repack v))
      then Some ByTime
      else None
  end.

Definition runScheduledRepack (nowMs : option Z) : V bool :=
  nowMs ← match nowMs with Some now => mret now | None => on_world dateNow end;
  assertOpen ≫= fun _ =>
  st_lift (throw_if (negb (isSafeInteger nowMs) || (nowMs <? 0)) TypeError) ≫= fun _ =>
  materializePendingResize ≫= fun _ =>
  v ← vfs;
  when (AMORTIZED_ARENA_FLUSH_BYTES <=? ar_dirtyBytes (v_arena v))
    (poisoning (flushFile ArenaBin FlushAmortized ≫= fun _ => cleanArena)) ≫= fun _ =>
  v ← vfs;
  match dueRepackReason nowMs v with
  | None => mret false
  | Some reason =>
      repack reason ≫= fun _ =>
      modify (fun v => v {{ v_repack -> rs_lastAtMs := nowMs }}) ≫= fun _ =>
      mret true
  end.

(** *** Opening and closing *)

Definition newVfs (store : OpenedMetadataStore) (now : Z) : Vfs :=
  mkVfs store StatusOpen None (mkTable ∅ 3 ∅ 1) None
    (mkArenaCache (Some (om_arenaSize store)) (om_arenaDirty store) 0) (om_activeMetadataDirty store)
    (mkRepackStatus false None None None 0 now) (mkFlushes 0 0 0 0 0).

Definition open_vfs (extentSize : option Z) : M Wd Vfs :=
  store ← openMetadataStore extentSize;
  now ← dateNow;
  mret (newVfs store now).

(** [#closeHandles]: every handle is closed, and the first error is kept. *)
Fixpoint closeAll (names : list OwnedFileName) (firstError : option error) : V (option error) :=
  match names with
  | [] => mret firstError
  | name :: names =>
      firstError ← st_catch (on_world (close name) ≫= fun _ => mret firstError)
        (fun cause => mret (match firstError with None => Some cause | Some _ => firstError end));
      closeAll names firstError
  end.

Definition closeAllHandles : V (option error) := closeAll [MetadataBBin; MetadataABin; ArenaBin; ActivationBin] None.

Definition shutDown : V (option error) :=
  modify (fun v => v {{ v_status := StatusClosed; v_table -> dt_descriptors := ∅ }}) ≫= fun _ =>
  closeAllHandles.

Definition throw_some (e : option error) : V unit := match e with Some cause => throw cause | None => mret tt end.

Definition closeStore : V unit :=
  v ← vfs;
  match v_status v with
  | StatusClosed => mret tt
  | status =>
      firstError ← (if bool_decide (status = StatusOpen)
                    then st_catch (strictSync ≫= fun _ => mret None) (fun cause => mret (Some cause))
                    else mret (Some (StoreFailedError (v_failure v))));
      closeError ← shutDown;
      throw_some (match firstError with Some cause => Some cause | None => closeError end)
  end.

Definition cleanupFailedInit : V unit :=
  v ← vfs;
  match v_status v with
  | StatusClosed => mret tt
  | _ => closeError ← shutDown; throw_some closeError
  end.
End Store.
