(* ===== verification/VfsArena.v ===== *)
(** * The repacked store: data in the arena

    The part of [packages/pgwasm/src/opfs/core/repacked-vfs.ts] that reads, writes, zeroes and allocates
    the extents of files, and the searches for the longest write the store admits. *)

From S2P Require Export VfsCore.

Definition extentAt (head tail : list Z) (index : Z) : option Z :=
  if index <? Z.of_nat (length head) then head !! Z.to_nat index else tail !! (Z.to_nat index - length head)%nat.

Definition ZERO_CHUNK : Z := 64 * 1024.

Definition is_limit (cause : error) : bool := match cause with StoreLimitError => true | _ => false end.

Section Arena.
Context {Wd : Type} `{RepackedPort Wd} (dateNow performanceNow : M Wd Z).

Abbreviation V := (M (Host Wd)).

(** ** Reads *)

(** The inner loop: one extent is read until [count] bytes arrived; every turn reads at least one. *)
Fixpoint readExtent (fuel : nat) (extentId within count : Z) (output : list Z) : V (list Z) :=
  let completed := Z.of_nat (length output) in
  if completed <? count then
    match fuel with
    | O => throw FuelExhausted
    | S fuel =>
        v ← vfs;
        offset ← st_lift (arenaByteOffset extentId (extentSize (v_state v)) (within + completed));
        offset ← st_lift (checkedSafeNumber offset);
        '(n, bytes) ← on_world (read ArenaBin (count - completed) offset);
        st_lift (throw_if (negb (isSafeInteger n) || (n <=? 0) || (count - completed <? n)) CorruptStoreError) ≫= fun _ =>
        readExtent fuel extentId within count (output ++ resize (Z.to_nat n) 0 bytes)
    end
  else mret output.

(** [len] is the length of the target that remains; every turn reads at least one byte. *)
Fixpoint readLogicalLoop (fuel : nat) (extents : list Z) (position len : Z) (output : list Z) : V (list Z) :=
  let completed := Z.of_nat (length output) in
  if completed <? len then
    match fuel with
    | O => throw FuelExhausted
    | S fuel =>
        v ← vfs;
        let es := extentSize (v_state v) in
        logical ← st_lift (checkedAdd position completed);
        extentIndex ← st_lift (checkedSafeNumber (logical / es));
        extentId ← st_lift (or_throw (extentAt extents [] extentIndex) CorruptStoreError);
        let within := logical mod es in
        let count := Z.min (len - completed) (es - within) in
        bytes ← readExtent (Z.to_nat count) extentId within count [];
        readLogicalLoop fuel extents position len (output ++ bytes)
    end
  else mret output.

Definition readLogical (extents : list Z) (position len : Z) : V (list Z) :=
  st_lift (checkedU64 position) ≫= fun _ =>
  readLogicalLoop (Z.to_nat len) extents position len [].

(** ** Writes *)

(** One transfer of the loop of [#writeLogical]: the body of its [try]. *)
Definition writeStep (extentId within : Z) (source : list Z) : V Z :=
  v ← vfs;
  setArenaDirty ≫= fun _ =>
  offset ← st_lift (arenaByteOffset extentId (extentSize (v_state v)) within);
  offset ← st_lift (checkedSafeNumber offset);
  written ← writeArena source offset;
  st_lift (throw_if (negb (isSafeInteger written) || (written <=? 0) || (Z.of_nat (length source) <? written))
             PortWriteError) ≫= fun _ =>
  recordArenaWrite written ≫= fun _ =>
  mret written.

(** An error of a transfer ends the loop with what was written so far; every transfer writes at least one
    byte. *)
Fixpoint writeLogicalLoop (fuel : nat) (extents : list Z) (position : Z) (source allocated : list Z) (completed : Z)
  : V WriteProgress :=
  if completed <? Z.of_nat (length source) then
    match fuel with
    | O => throw FuelExhausted
    | S fuel =>
        v ← vfs;
        let es := extentSize (v_state v) in
        logical ← st_lift (checkedAdd position completed);
        extentIndex ← st_lift (checkedSafeNumber (logical / es));
        extentId ← st_lift (or_throw (extentAt extents allocated extentIndex) StoreLimitError);
        let within := logical mod es in
        let requested := Z.min (Z.of_nat (length source) - completed) (es - within) in
        step ← st_catch (written ← writeStep extentId within
                           (subarray source (Z.to_nat completed) (Z.to_nat (completed + requested)));
                         mret (inl written))
                 (fun cause => mret (inr cause));
        match step with
        | inl written => writeLogicalLoop fuel extents position source allocated (completed + written)
        | inr cause => mret (mkProgress completed (Some cause))
        end
    end
  else mret (mkProgress completed None).

Definition writeLogical (extents : list Z) (position : Z) (source allocated : list Z) : V WriteProgress :=
  st_lift (checkedU64 position) ≫= fun _ =>
  writeLogicalLoop (length source) extents position source allocated 0.

(** ** Zeroes *)

(** A gap reads as zeros by itself behind the old end of the arena; before it, it is written. *)
Definition zeroStep (physical count previousEnd : Z) : V bool :=
  if physical <? previousEnd then
    existing ← st_lift (checkedSafeNumber (previousEnd - physical));
    let existingCount := Z.min count existing in
    setArenaDirty ≫= fun _ =>
    writeArenaExact physical (replicate (Z.to_nat existingCount) 0) ≫= fun _ =>
    recordArenaWrite existingCount ≫= fun _ =>
    mret true
  else mret false.

Fixpoint zeroLogicalLoop (fuel : nat) (extents : list Z) (position len previousEnd : Z) (allocated : list Z)
  (completed : Z) (touchedExisting : bool) : V bool :=
  if completed <? len then
    match fuel with
    | O => throw FuelExhausted
    | S fuel =>
        v ← vfs;
        let es := extentSize (v_state v) in
        logical ← st_lift (checkedAdd position completed);
        extentIndex ← st_lift (checkedSafeNumber (logical / es));
        extentId ← st_lift (or_throw (extentAt extents allocated extentIndex) StoreLimitError);
        let within := logical mod es in
        remaining ← st_lift (checkedSafeNumber (len - completed));
        let count := Z.min (Z.min ZERO_CHUNK (es - within)) remaining in
        physical ← st_lift (arenaByteOffset extentId es within);
        touched ← zeroStep physical count previousEnd;
        zeroLogicalLoop fuel extents position len previousEnd allocated (completed + count) (touchedExisting || touched)
    end
  else mret touchedExisting.

Definition zeroLogical (extents : list Z) (position len arenaSizeBefore : Z) (allocated : list Z) : V bool :=
  st_lift (checkedU64 position) ≫= fun _ =>
  st_lift (checkedU64 len) ≫= fun _ =>
  zeroLogicalLoop (Z.to_nat len) extents position len arenaSizeBefore allocated 0 false.

(** ** Allocation *)

(** Growing the arena before fresh extents are used. *)
Definition growArena (fresh : list Z) (arenaSizeBefore : Z) : V unit :=
  match last fresh with
  | None => mret tt
  | Some lst =>
      v ← vfs;
      requiredExtents ← st_lift (checkedAdd lst 1);
      product ← st_lift (checkedMultiply requiredExtents (extentSize (v_state v)));
      requiredEnd ← st_lift (checkedAdd ARENA_HEADER_BYTES product);
      when (arenaSizeBefore <? requiredEnd) (
        setArenaDirty ≫= fun _ =>
        when (om_arenaHighWaterExtents (v_store v) <? requiredExtents)
          (modify (fun v => v {{ v_store -> om_arenaHighWaterExtents := requiredExtents }})) ≫= fun _ =>
        st_catch (truncateArena requiredEnd)
          (fun cause => throw (if isQuotaExceeded cause then ArenaGrowthQuotaError cause else cause)))
  end.

(** One reused extent, in chunks. *)
Fixpoint zeroExtentLoop (fuel : nat) (extentId within : Z) : V unit :=
  v ← vfs;
  let es := extentSize (v_state v) in
  if within <? es then
    match fuel with
    | O => throw FuelExhausted
    | S fuel =>
        let count := Z.min (Z.min es ZERO_CHUNK) (es - within) in
        setArenaDirty ≫= fun _ =>
        offset ← st_lift (arenaByteOffset extentId es within);
        writeArenaExact offset (replicate (Z.to_nat count) 0) ≫= fun _ =>
        recordArenaWrite count ≫= fun _ =>
        zeroExtentLoop fuel extentId (within + count)
    end
  else mret tt.

Definition zeroExtent (extentId : Z) : V unit :=
  v ← vfs; zeroExtentLoop (Z.to_nat (extentSize (v_state v))) extentId 0.

Definition prepareAllocated (extents : list Z) : V unit :=
  if bool_decide (extents = []) then mret tt
  else
    v ← vfs;
    let totalBefore := totalExtents (allocator (v_state v)) in
    let highWaterBefore := om_arenaHighWaterExtents (v_store v) in
    arenaSizeBefore ← arenaSizeChecked;
    growArena (filter (fun e => totalBefore <= e) extents) arenaSizeBefore ≫= fun _ =>
    let reused := filter (fun e => e < totalBefore \/ e < highWaterBefore) extents in
    if bool_decide (reused = []) then mret tt
    else forM zeroExtent reused ≫= fun _ => flushPreparedArena.

(** When the arena cannot grow, repack twice, plan again and try once more. *)
Definition prepareAllocationWithQuotaRetry {T} (allocated : T -> list Z) (initial : T) (retry : V T) : V T :=
  st_catch (prepareAllocated (allocated initial) ≫= fun _ => mret initial)
    (fun cause =>
       match cause with
       | ArenaGrowthQuotaError _ =>
           repack dateNow performanceNow Quota ≫= fun _ =>
           repack dateNow performanceNow Quota ≫= fun _ =>
           retried ← retry;
           st_catch (prepareAllocated (allocated retried))
             (fun retryCause => throw (match retryCause with ArenaGrowthQuotaError c => c | c => c end)) ≫= fun _ =>
           mret retried
       | _ => throw cause
       end).

(** ** The longest admitted write *)

(** [attempt] throws [StoreLimitError] on lengths the store does not admit: binary search between [low]
    and [high] for the last length whose attempt returned. The interval shrinks in every turn. *)
Fixpoint searchAdmitted {T} (attempt : Z -> V T) (fuel : nat) (low high : Z) (admitted : Z * option T)
  : V (Z * option T) :=
  if low <=? high then
    match fuel with
    | O => throw FuelExhausted
    | S fuel =>
        let candidate := low + (high - low) / 2 in
        outcome ← st_catch (plan ← attempt candidate; mret (Some plan))
                    (fun cause => if is_limit cause then mret None else throw cause);
        match outcome with
        | Some plan => searchAdmitted attempt fuel (candidate + 1) high (candidate, Some plan)
        | None => searchAdmitted attempt fuel low (candidate - 1) admitted
        end
    end
  else mret admitted.

Definition admitLongest {T} (attempt : Z -> V T) (requestedLength : Z) : V (Z * option T) :=
  st_catch (plan ← attempt requestedLength; mret (requestedLength, Some plan))
    (fun cause =>
       if is_limit cause then
         admitted ← searchAdmitted attempt (Z.to_nat requestedLength) 0 (requestedLength - 1) (0, None);
         st_lift (throw_if (admitted.1 =? 0) cause) ≫= fun _ =>
         mret admitted
       else throw cause).

(** A linked write of [length] bytes at [start]: no plan when it stays inside the file. *)
Definition attemptLinked (inode : FileInode) (start nowMs length : Z) : V (option (TxnRecord * PreparedCommit)) :=
  stop ← st_lift (checkedAdd start length);
  if stop <=? file_size inode then mret None
  else
    v ← vfs;
    record ← st_lift (planResizeFileForInode (v_state v) inode stop nowMs OpWrite);
    prepared ← preflightCommit record;
    mret (Some (record, prepared)).

Definition planLinkedWrite (inode : FileInode) (start requestedLength nowMs : Z)
  : V (Z * option (TxnRecord * PreparedCommit)) :=
  '(length, plan) ← admitLongest (attemptLinked inode start nowMs) requestedLength;
  mret (length, mjoin plan).

Definition extentCount (size : Z) : V Z :=
  v ← vfs;
  let es := extentSize (v_state v) in
  st_lift (checkedU64 size) ≫= fun _ =>
  if size =? 0 then mret 0
  else
    result ← st_lift (checkedSafeNumber ((size + es - 1) / es));
    st_lift (throw_if (MAX_EXTENTS_PER_INODE <? result) StoreLimitError) ≫= fun _ =>
    mret result.

(** An orphan's extra extents are reserved in the quarantine. *)
Definition attemptOrphan (orphan : OrphanRecord) (start len : Z) : V (option TxnRecord) :=
  stop ← st_lift (checkedAdd start len);
  required ← extentCount stop;
  let additional := Z.max 0 (required - Z.of_nat (length (orphan_extents orphan))) in
  if additional =? 0 then mret None
  else
    v ← vfs;
    record ← st_lift (planReserveQuarantine (v_state v) additional);
    preflightCommit record ≫= fun _ =>
    mret (Some record).

Definition planOrphanWrite (orphan : OrphanRecord) (start requestedLength : Z) : V (Z * option TxnRecord) :=
  '(length, reservation) ← admitLongest (attemptOrphan orphan start) requestedLength;
  mret (length, mjoin reservation).

End Arena.
