(* ===== verification/VfsOps.v ===== *)
(** * The repacked store: operations on paths and descriptors

    The public operations of [RepackedVfs] in [packages/pgwasm/src/opfs/core/repacked-vfs.ts]. *)

From S2P Require Export VfsArena.

Inductive StatKind : Type := KindDirectory | KindFile | KindSymlink.

Record RepackedStat : Type := mkStat {
  st_kind : StatKind;
  st_mode : Z;
  st_size : Z;
  st_atimeMs : Z;
  st_mtimeMs : Z;
  st_ctimeMs : Z
}.

Definition statValue (inode : Inode) : R RepackedStat :=
  '(kind, size) ← match inode_kind inode with
                  | Directory _ => Ok (KindDirectory, 0)
                  | File size _ => Ok (KindFile, size)
                  | Symlink target => n ← encodedUtf8Length target; Ok (KindSymlink, n)
                  end;
  Ok (mkStat kind (inode_mode inode) size (atimeMs inode) (mtimeMs inode) (ctimeMs inode)).

Definition statOrphan (o : OrphanRecord) : RepackedStat :=
  mkStat KindFile (orphan_mode o) (orphan_size o) (orphan_atimeMs o) (orphan_mtimeMs o) (orphan_ctimeMs o).

(** The names every JavaScript object inherits. Looking one of them up in the table of flags gives a function
    or an object, not [undefined], and none of them has a field the flags are read from. *)
Definition INHERITED_NAMES : list jsstr :=
  [js "constructor"; js "__proto__"; js "hasOwnProperty"; js "isPrototypeOf"; js "propertyIsEnumerable";
   js "toLocaleString"; js "toString"; js "valueOf"; js "__defineGetter__"; js "__defineSetter__";
   js "__lookupGetter__"; js "__lookupSetter__"].

Definition parseFlags (flags : jsstr) : R ParsedFlags :=
  if bool_decide (flags = js "r") then Ok (mkFlags true false false false false false)
  else if bool_decide (flags = js "r+") then Ok (mkFlags true true false false false false)
  else if bool_decide (flags = js "w") then Ok (mkFlags false true true false true false)
  else if bool_decide (flags = js "w+") then Ok (mkFlags true true true false true false)
  else if bool_decide (flags = js "wx") then Ok (mkFlags false true true true true false)
  else if bool_decide (flags = js "wx+") then Ok (mkFlags true true true true true false)
  else if bool_decide (flags = js "a") then Ok (mkFlags false true true false false true)
  else if bool_decide (flags = js "a+") then Ok (mkFlags true true true false false true)
  else if bool_decide (flags = js "ax") then Ok (mkFlags false true true true false true)
  else if bool_decide (flags = js "ax+") then Ok (mkFlags true true true true false true)
  else if bool_decide (flags ∈ INHERITED_NAMES) then Ok (mkFlags false false false false false false)
  else Throw (FsError EINVAL).

Definition validateEncoding (encoding : jsstr) : R unit :=
  throw_if (negb (bool_decide (encoding = js "utf8")) && negb (bool_decide (encoding = js "utf-8"))) (FsError EINVAL).

(** [data: string | Uint8Array] *)
Inductive FileData : Type := DataText (text : jsstr) | DataBytes (bytes : list Z).

(** Keys compare by UTF-16 code units in [Array.prototype.sort]. *)
Fixpoint compareUnits (xs ys : jsstr) : Z :=
  match xs, ys with
  | [], [] => 0
  | [], _ => -1
  | _, [] => 1
  | x :: xs, y :: ys => if x =? y then compareUnits xs ys else x - y
  end.

Definition sortNames (names : list jsstr) : list jsstr := merge_sort (not_after compareUnits) names.

(** A file inode, or the error the caller reports for another kind. *)
Definition fileView (inode : Inode) (otherwise : error) : R FileInode :=
  match inode_kind inode with
  | File size extents => Ok (mkFileInode inode size extents)
  | _ => Throw otherwise
  end.

Definition is_enoent (cause : error) : bool := match cause with FsError ENOENT => true | _ => false end.

Record PreparedFileWrite : Type := mkFileWrite {
  fw_existing : option FileInode;
  fw_start : Z;
  fw_record : TxnRecord;
  fw_preparedCommit : PreparedCommit;
  fw_allocated : list Z
}.

Record PreparedGrowth : Type := mkGrowth {
  pg_inode : FileInode;
  pg_record : TxnRecord;
  pg_preparedCommit : PreparedCommit;
  pg_allocated : list Z;
  pg_arenaSizeBefore : Z
}.

Record PreparedLinkedWrite : Type := mkLinkedWrite {
  lw_inode : FileInode;
  lw_length : Z;
  lw_plan : option (TxnRecord * PreparedCommit);
  lw_allocated : list Z;
  lw_arenaSizeBefore : Z
}.

Record PreparedOrphanWrite : Type := mkOrphanWrite {
  ow_length : Z;
  ow_reservation : option TxnRecord;
  ow_allocated : list Z;
  ow_arenaSizeBefore : Z
}.

(** The extent runs a plan allocates. *)
Definition plannedRuns (record : TxnRecord) : list ExtentRun :=
  match record with
  | CreateFile _ _ _ _ _ _ _ _ extents => extents
  | ResizeFile _ _ _ allocated _ _ => allocated
  | ReserveQuarantine extents => extents
  | _ => []
  end.

Definition plannedExtents (record : TxnRecord) : R (list Z) := expandExtentRuns (plannedRuns record) MAX_EXTENTS_PER_INODE.

(** The size a resize record gives its file. *)
Definition plannedSize (record : TxnRecord) : option Z :=
  match record with ResizeFile _ _ size _ _ _ => Some size | _ => None end.

Section Operations.
Context {Wd : Type} `{RepackedPort Wd} (dateNow performanceNow : M Wd Z).

Abbreviation V := (M (Host Wd)).
Abbreviation retryQuota := (prepareAllocationWithQuotaRetry dateNow performanceNow).

Definition state : V VfsState := v ← vfs; mret (v_state v).

Definition resolve (path : jsstr) (follow : bool) : V jsstr := s ← state; st_lift (resolveLinks s path follow).

Definition resolvePath (path : jsstr) (follow : bool) : V jsstr := assertOpen ≫= fun _ => resolve path follow.

Definition inodeAt (path : jsstr) : V Inode := s ← state; st_lift (getInodeAtPath s path).

(** ** Paths *)

Definition statPath (follow : bool) (requestPath : jsstr) : V RepackedStat :=
  assertOpen ≫= fun _ =>
  path ← resolve requestPath follow;
  inode ← inodeAt path;
  st_lift (statValue inode).

Definition stat : jsstr -> V RepackedStat := statPath true.
Definition lstat : jsstr -> V RepackedStat := statPath false.

(** Plan on the resolved path and commit. *)
Definition planAndCommit (follow : bool) (requestPath : jsstr) (plan : VfsState -> jsstr -> R TxnRecord) : V unit :=
  assertOpen ≫= fun _ =>
  path ← resolve requestPath follow;
  s ← state;
  record ← st_lift (plan s path);
  commit record None.

Definition symlink (target requestPath : jsstr) (nowMs : Z) : V unit :=
  planAndCommit false requestPath (fun s path => planSymlink s path target None nowMs).

Definition mkdir (requestPath : jsstr) (recursive : bool) (mode : option Z) (nowMs : Z) : V unit :=
  planAndCommit false requestPath (fun s path => planMkdir s path recursive mode nowMs).

Definition chmod (requestPath : jsstr) (mode nowMs : Z) : V unit :=
  planAndCommit true requestPath (fun s path => planChmod s path mode nowMs).

Definition utimes (requestPath : jsstr) (atimeMs mtimeMs ctimeMs : Z) : V unit :=
  planAndCommit true requestPath (fun s path => planUtimes s path atimeMs mtimeMs ctimeMs).

Definition rmdir (requestPath : jsstr) (nowMs : Z) : V unit :=
  planAndCommit false requestPath (fun s path => planRmdir s path nowMs).

Definition readlink (requestPath : jsstr) : V jsstr :=
  assertOpen ≫= fun _ =>
  path ← resolve requestPath false;
  inode ← inodeAt path;
  match inode_kind inode with Symlink target => mret target | _ => throw (FsError EINVAL) end.

Definition readdir (requestPath : jsstr) : V (list jsstr) :=
  assertOpen ≫= fun _ =>
  path ← resolve requestPath true;
  inode ← inodeAt path;
  match inode_kind inode with
  | Directory children => mret (sortNames ((map_to_list children).*1))
  | _ => throw (FsError ENOTDIR)
  end.

Definition readFile (requestPath : jsstr) : V (list Z) :=
  assertOpen ≫= fun _ =>
  path ← resolve requestPath true;
  inode ← inodeAt path;
  f ← st_lift (fileView inode (FsError EISDIR));
  len ← st_lift (checkedSafeNumber (file_size f));
  readLogical (file_extents f) 0 len.

(** ** Orphans *)

(** [makeOrphanRecord] for the open descriptors of a file: the descriptors and the new object. *)
Definition orphanFor (f : FileInode) (t : DescriptorTable) : option OrphanRecord :=
  if existsb (fun d => bool_decide (d_orphan d = None) && (d_inodeId d =? inode_id (file_inode f)))
       ((map_to_list (dt_descriptors t)).*2)
  then Some (makeOrphanRecord f) else None.

Definition attachOrphan (inodeId : Z) (orphan : OrphanRecord) (t : DescriptorTable) : DescriptorTable :=
  let key := dt_nextOrphan t in
  mkTable
    ((fun d => if bool_decide (d_orphan d = None) && (d_inodeId d =? inodeId) then set_orphan key d else d)
       <$> dt_descriptors t)
    (dt_nextDescriptor t) (<[key := orphan]> (dt_orphans t)) (key + 1).

(** Commit a record that unlinks [file]; its open descriptors keep its extents as an orphan. *)
Definition commitUnlinking (file : option FileInode) (plan : VfsState -> R TxnRecord) : V unit :=
  v ← vfs;
  let orphan := file ≫= fun f => orphanFor f (v_table v) in
  record ← st_lift (plan (v_state v));
  commit record None ≫= fun _ =>
  match file, orphan with
  | Some f, Some o => modify (fun v => v {{ v_table ::= attachOrphan (inode_id (file_inode f)) o }})
  | _, _ => mret tt
  end.

Definition unlink (requestPath : jsstr) (nowMs : Z) : V unit :=
  assertOpen ≫= fun _ =>
  path ← resolve requestPath false;
  inode ← inodeAt path;
  st_lift (throw_if (is_directory inode) (FsError EISDIR)) ≫= fun _ =>
  let file := match fileView inode (FsError EISDIR) with Ok f => Some f | Throw _ => None end in
  commitUnlinking file (fun s => planUnlink s path nowMs).

Definition rename (oldRequestPath newRequestPath : jsstr) (nowMs : Z) : V unit :=
  assertOpen ≫= fun _ =>
  oldPath ← resolve oldRequestPath false;
  newPath ← resolve newRequestPath false;
  destination ← st_catch (inode ← inodeAt newPath;
                          mret (match fileView inode (FsError EISDIR) with Ok f => Some f | Throw _ => None end))
                  (fun cause => if is_enoent cause then mret None else throw cause);
  commitUnlinking destination (fun s => planRename s oldPath newPath nowMs).

(** ** Truncation *)

Definition fileAt (path : jsstr) : V FileInode :=
  inode ← inodeAt path; st_lift (fileView inode (FsError EISDIR)).

Definition growthPlan (path : jsstr) (size nowMs : Z) : V PreparedGrowth :=
  current ← fileAt path;
  s ← state;
  record ← st_lift (planResizeFile s path size nowMs OpTruncate);
  prepared ← preflightCommit record;
  allocated ← st_lift (plannedExtents record);
  arenaSizeBefore ← arenaSizeChecked;
  mret (mkGrowth current record prepared allocated arenaSizeBefore).

Definition truncatePath (requestPath : jsstr) (size nowMs : Z) : V unit :=
  assertOpen ≫= fun _ =>
  path ← resolve requestPath true;
  f ← fileAt path;
  if size =? file_size f then mret tt
  else if file_size f <? size then
    initial ← growthPlan path size nowMs;
    prepared ← retryQuota pg_allocated initial (growthPlan path size nowMs);
    let inode := pg_inode prepared in
    touchedExisting ← zeroLogical (file_extents inode) (file_size inode) (size - file_size inode)
                        (pg_arenaSizeBefore prepared) (pg_allocated prepared);
    when touchedExisting flushPreparedArena ≫= fun _ =>
    commit (pg_record prepared) (Some (pg_preparedCommit prepared))
  else
    s ← state;
    record ← st_lift (planResizeFile s path size nowMs OpTruncate);
    prepared ← preflightCommit record;
    commit record (Some prepared).

(** ** Descriptors *)

Definition descriptor (fd : Z) : V Descriptor :=
  st_lift (throw_if (negb (isSafeInteger fd)) (FsError EBADF)) ≫= fun _ =>
  v ← vfs;
  st_lift (or_throw (dt_descriptors (v_table v) !! fd) (FsError EBADF)).

Definition linkedFile (inodeId : Z) : V FileInode :=
  s ← state;
  inode ← st_lift (or_throw (inodes s !! inodeId) (FsError EBADF));
  st_lift (fileView inode (FsError EBADF)).

(** The orphan object of a descriptor. *)
Definition orphanOf (d : Descriptor) : V (option (Z * OrphanRecord)) :=
  v ← vfs;
  mret (match d_orphan d with
        | Some key => (fun o => (key, o)) <$> dt_orphans (v_table v) !! key
        | None => None
        end).

Definition updateDescriptor (fd : Z) (f : Descriptor -> Descriptor) : V unit :=
  modify (fun v => v {{ v_table -> dt_descriptors ::= alter f fd }}).

Definition updateOrphan (key : Z) (f : OrphanRecord -> OrphanRecord) : V unit :=
  modify (fun v => v {{ v_table -> dt_orphans ::= alter f key }}).

(** A missing file is created on the way, when the flags say so. *)
Definition openTarget (path : jsstr) (flags : ParsedFlags) (mode nowMs : Z) : V FileInode :=
  st_catch
    (found ← fileAt path;
     st_lift (throw_if (fl_exclusive flags && fl_create flags) (FsError EEXIST)) ≫= fun _ =>
     if fl_truncate flags then truncatePath path 0 nowMs ≫= fun _ => fileAt path
     else mret found)
    (fun cause =>
       if negb (is_enoent cause) || negb (fl_create flags) then throw cause
       else
         s ← state;
         record ← st_lift (planCreateFile s path (Some mode) nowMs (Some 0));
         commit record None ≫= fun _ =>
         fileAt path).

Definition openPath (requestPath flags : jsstr) (mode nowMs : Z) : V Z :=
  assertOpen ≫= fun _ =>
  path ← resolve requestPath true;
  parsed ← st_lift (parseFlags flags);
  f ← openTarget path parsed mode nowMs;
  v ← vfs;
  let fd := dt_nextDescriptor (v_table v) in
  let d := mkDescriptor (inode_id (file_inode f)) (if fl_append parsed then file_size f else 0)
             (fl_readable parsed) (fl_writable parsed) (fl_append parsed) None in
  modify (fun v => v {{ v_table -> dt_nextDescriptor := fd + 1; v_table -> dt_descriptors ::= insert fd d }}) ≫= fun _ =>
  mret fd.

Definition fstat (fd : Z) : V RepackedStat :=
  assertOpen ≫= fun _ =>
  d ← descriptor fd;
  orphan ← orphanOf d;
  match orphan with
  | Some (_, o) => mret (statOrphan o)
  | None => f ← linkedFile (d_inodeId d); st_lift (statValue (file_inode f))
  end.

Definition validateBufferRange (bufferLength offset len : Z) : R unit :=
  throw_if (negb (isSafeInteger offset) || negb (isSafeInteger len) || (offset <? 0) || (len <? 0)
            || (bufferLength <? offset + len)) (FsError EINVAL).

(** The bytes stored at [offset] of the buffer; their number is the result of the call. *)
Definition readFd (fd bufferLength offset len : Z) (position : option Z) : V (list Z) :=
  assertOpen ≫= fun _ =>
  st_lift (validateBufferRange bufferLength offset len) ≫= fun _ =>
  d ← descriptor fd;
  st_lift (throw_if (negb (d_readable d)) (FsError EBADF)) ≫= fun _ =>
  orphan ← orphanOf d;
  '(size, extents) ← match orphan with
                     | Some (_, o) => mret (orphan_size o, orphan_extents o)
                     | None => f ← linkedFile (d_inodeId d); mret (file_size f, file_extents f)
                     end;
  let start := default (d_offset d) position in
  st_lift (throw_if (start <? 0) (FsError EINVAL)) ≫= fun _ =>
  available ← st_lift (if size <=? start then Ok 0
                       else remaining ← checkedSafeNumber (size - start); Ok (Z.min len remaining));
  bytes ← (if 0 <? available then readLogical extents start available else mret []);
  match position with
  | None => updateDescriptor fd (set_offset (start + available))
  | Some _ => mret tt
  end ≫= fun _ =>
  mret bytes.

(** ** Writes *)

Definition writeOrphanPlan (key start len : Z) : V PreparedOrphanWrite :=
  v ← vfs;
  o ← st_lift (or_throw (dt_orphans (v_table v) !! key) TypeError);
  '(admitted, reservation) ← planOrphanWrite o start len;
  allocated ← st_lift (match reservation with Some record => plannedExtents record | None => Ok [] end);
  arenaSizeBefore ← arenaSizeChecked;
  mret (mkOrphanWrite admitted reservation allocated arenaSizeBefore).

(** The object after its reservation was committed. *)
Definition extendOrphan (allocated : list Z) (o : OrphanRecord) : OrphanRecord :=
  mkOrphan (orphan_inodeId o) (orphan_mode o) (orphan_atimeMs o) (orphan_mtimeMs o) (orphan_ctimeMs o)
    (orphan_size o) (orphan_extents o ++ allocated).

Definition touchOrphan (completedEnd nowMs : Z) (o : OrphanRecord) : OrphanRecord :=
  mkOrphan (orphan_inodeId o) (orphan_mode o) (orphan_atimeMs o) nowMs nowMs
    (if orphan_size o <? completedEnd then completedEnd else orphan_size o) (orphan_extents o).

Definition writeOrphan (fd : Z) (d : Descriptor) (key : Z) (orphan : OrphanRecord) (source : list Z)
  (position : option Z) (nowMs : Z) : V Z :=
  let len := Z.of_nat (length source) in
  let start := if d_append d then orphan_size orphan else default (d_offset d) position in
  st_lift (throw_if (start <? 0) (FsError EINVAL)) ≫= fun _ =>
  if len =? 0 then mret 0
  else
    initial ← writeOrphanPlan key start len;
    prepared ← retryQuota ow_allocated initial (writeOrphanPlan key start len);
    match ow_reservation prepared with
    | Some record => commit record None ≫= fun _ => updateOrphan key (extendOrphan (ow_allocated prepared))
    | None => mret tt
    end ≫= fun _ =>
    v ← vfs;
    o ← st_lift (or_throw (dt_orphans (v_table v) !! key) TypeError);
    when (orphan_size o <? start) (
      touchedExisting ← zeroLogical (orphan_extents o) (orphan_size o) (start - orphan_size o)
                          (ow_arenaSizeBefore prepared) [];
      when touchedExisting flushPreparedArena) ≫= fun _ =>
    progress ← writeLogical (orphan_extents o) start (take (Z.to_nat (ow_length prepared)) source) [];
    when (wp_bytes progress =? 0) (failStore (default PlainError (wp_error progress))) ≫= fun _ =>
    completedEnd ← st_lift (checkedAdd start (wp_bytes progress));
    updateOrphan key (touchOrphan completedEnd nowMs) ≫= fun _ =>
    match position with
    | None => updateDescriptor fd (set_offset completedEnd)
    | Some _ => mret tt
    end ≫= fun _ =>
    mret (wp_bytes progress).

Definition linkedWritePlan (inodeId start len nowMs : Z) : V PreparedLinkedWrite :=
  current ← linkedFile inodeId;
  '(admitted, plan) ← planLinkedWrite current start len nowMs;
  allocated ← st_lift (match plan with Some (record, _) => plannedExtents record | None => Ok [] end);
  arenaSizeBefore ← (if file_size current <? start then arenaSizeChecked else mret 0);
  mret (mkLinkedWrite current admitted plan allocated arenaSizeBefore).

(** The plan of a write that ends behind the file; a gap before it is zeroed. *)
Definition prepareLinkedWrite (inodeId start len nowMs : Z) : V PreparedLinkedWrite :=
  initial ← linkedWritePlan inodeId start len nowMs;
  prepared ← retryQuota lw_allocated initial (linkedWritePlan inodeId start len nowMs);
  let inode := lw_inode prepared in
  when (bool_decide (is_Some (lw_plan prepared)) && (file_size inode <? start)) (
    touchedExisting ← zeroLogical (file_extents inode) (file_size inode) (start - file_size inode)
                        (lw_arenaSizeBefore prepared) (lw_allocated prepared);
    when touchedExisting flushPreparedArena) ≫= fun _ =>
  mret prepared.

(** The size of the file after the write, committed when it grew; the plan is reused when the write was
    complete. *)
Definition commitLinkedWrite (prepared : PreparedLinkedWrite) (completedEnd nowMs : Z) : V unit :=
  if file_size (lw_inode prepared) <? completedEnd then
    match lw_plan prepared with
    | Some (record, preparedCommit) =>
        if bool_decide (plannedSize record = Some completedEnd) then commit record (Some preparedCommit)
        else
          s ← state;
          record ← st_lift (planResizeFileForInode s (lw_inode prepared) completedEnd nowMs OpWrite);
          commit record None
    | None =>
        s ← state;
        record ← st_lift (planResizeFileForInode s (lw_inode prepared) completedEnd nowMs OpWrite);
        commit record None
    end
  else mret tt.

Definition writeFd (fd : Z) (buffer : list Z) (offset len : Z) (position : option Z) (nowMs : Z) : V Z :=
  assertOpen ≫= fun _ =>
  st_lift (validateBufferRange (Z.of_nat (length buffer)) offset len) ≫= fun _ =>
  st_lift (checkedU64 nowMs) ≫= fun _ =>
  d ← descriptor fd;
  st_lift (throw_if (negb (d_writable d)) (FsError EBADF)) ≫= fun _ =>
  let source := subarray buffer (Z.to_nat offset) (Z.to_nat (offset + len)) in
  orphan ← orphanOf d;
  match orphan with
  | Some (key, o) => writeOrphan fd d key o source position nowMs
  | None =>
      f ← linkedFile (d_inodeId d);
      let start := if d_append d then file_size f else default (d_offset d) position in
      st_lift (throw_if (start <? 0) (FsError EINVAL)) ≫= fun _ =>
      if len =? 0 then mret 0
      else
        requestedEnd ← st_lift (checkedAdd start len);
        prepared ← (if file_size f <? requestedEnd then prepareLinkedWrite (d_inodeId d) start len nowMs
                    else mret (mkLinkedWrite f len None [] 0));
        progress ← writeLogical (file_extents (lw_inode prepared)) start (take (Z.to_nat (lw_length prepared)) source)
                     (lw_allocated prepared);
        when (wp_bytes progress =? 0) (failStore (default PlainError (wp_error progress))) ≫= fun _ =>
        completedEnd ← st_lift (checkedAdd start (wp_bytes progress));
        commitLinkedWrite prepared completedEnd nowMs ≫= fun _ =>
        match position with
        | None => updateDescriptor fd (set_offset completedEnd)
        | Some _ => mret tt
        end ≫= fun _ =>
        mret (wp_bytes progress)
  end.

Definition closeFd (fd : Z) : V unit :=
  assertOpen ≫= fun _ =>
  v ← vfs;
  st_lift (throw_if (negb (bool_decide (is_Some (dt_descriptors (v_table v) !! fd)))) (FsError EBADF)) ≫= fun _ =>
  modify (fun v => v {{ v_table -> dt_descriptors ::= delete fd }}).

(** ** Whole files *)

(** The file at [path], or nothing when the path does not exist. *)
Definition existingFile (path : jsstr) : V (option FileInode) :=
  st_catch (f ← fileAt path; mret (Some f)) (fun cause => if is_enoent cause then mret None else throw cause).

Definition writeFileSize (flags : ParsedFlags) (current : option FileInode) (len : Z) : R Z :=
  match current with
  | None => Ok len
  | Some f =>
      if fl_append flags then checkedAdd (file_size f) len
      else if fl_truncate flags then Ok len
      else Ok (if len <? file_size f then file_size f else len)
  end.

(** [planCreateFile] for a new file, [planResizeFile] for an old one. *)
Definition writeFileRecord (path : jsstr) (existing : bool) (mode : option Z) (nowMs size : Z) : V TxnRecord :=
  s ← state;
  st_lift (if existing then planResizeFile s path size nowMs OpWrite
           else planCreateFile s path mode nowMs (Some size)).

Definition writeFilePlan (path : jsstr) (flags : ParsedFlags) (wasExisting : bool) (mode : option Z) (nowMs len : Z)
  : V PreparedFileWrite :=
  current ← (if wasExisting then f ← fileAt path; mret (Some f) else mret None);
  let start := match current with Some f => if fl_append flags then file_size f else 0 | None => 0 end in
  targetSize ← st_lift (writeFileSize flags current len);
  record ← writeFileRecord path wasExisting mode nowMs targetSize;
  prepared ← preflightCommit record;
  allocated ← st_lift (plannedExtents record);
  mret (mkFileWrite current start record prepared allocated).

(** The size after a write of [written] bytes. *)
Definition partialFileSize (flags : ParsedFlags) (existing : option FileInode) (start written : Z) : R Z :=
  match existing with
  | Some f =>
      if fl_truncate flags then Ok written
      else stop ← checkedAdd start written; Ok (if stop <? file_size f then file_size f else stop)
  | None => Ok written
  end.

Definition writeFileData (path : jsstr) (flags : ParsedFlags) (prepared : PreparedFileWrite) (bytes : list Z)
  (mode : option Z) (nowMs : Z) : V unit :=
  let existing := fw_existing prepared in
  let extents := match existing with Some f => file_extents f | None => [] end in
  progress ← writeLogical extents (fw_start prepared) bytes (fw_allocated prepared);
  when (wp_bytes progress =? 0) (failStore (default PlainError (wp_error progress))) ≫= fun _ =>
  partialSize ← st_lift (partialFileSize flags existing (fw_start prepared) (wp_bytes progress));
  let complete := wp_bytes progress =? Z.of_nat (length bytes) in
  record ← (if complete then mret (fw_record prepared)
            else writeFileRecord path (bool_decide (is_Some existing)) mode nowMs partialSize);
  when (negb (bool_decide (is_Some (wp_error progress))) || negb (bool_decide (Some partialSize = file_size <$> existing)))
    (commit record (if complete then Some (fw_preparedCommit prepared) else None)) ≫= fun _ =>
  throw_some (wp_error progress).

Definition writeFile (requestPath : jsstr) (data : FileData) (encoding : option jsstr) (mode : option Z)
  (flag : option jsstr) (nowMs : Z) : V unit :=
  assertOpen ≫= fun _ =>
  path ← resolve requestPath true;
  flags ← st_lift (parseFlags (default (js "w") flag));
  st_lift (throw_if (negb (fl_writable flags)) (FsError EBADF)) ≫= fun _ =>
  bytes ← st_lift (match data with
                   | DataText text => validateEncoding (default (js "utf8") encoding) ≫= fun _ => Ok (utf8_encode text)
                   | DataBytes bytes => Ok bytes
                   end);
  st_lift (checkedU64 nowMs) ≫= fun _ =>
  existing ← existingFile path;
  let wasExisting := bool_decide (is_Some existing) in
  st_lift (throw_if (wasExisting && fl_create flags && fl_exclusive flags) (FsError EEXIST)) ≫= fun _ =>
  st_lift (throw_if (negb wasExisting && negb (fl_create flags)) (FsError ENOENT)) ≫= fun _ =>
  let len := Z.of_nat (length bytes) in
  if (len =? 0) && wasExisting && negb (fl_truncate flags) then mret tt
  else
    initial ← writeFilePlan path flags wasExisting mode nowMs len;
    prepared ← retryQuota fw_allocated initial (writeFilePlan path flags wasExisting mode nowMs len);
    if len =? 0 then commit (fw_record prepared) (Some (fw_preparedCommit prepared))
    else writeFileData path flags prepared bytes mode nowMs.

(** ** Metrics *)

Record RepackedVfsMetrics : Type := mkMetricsOf {
  m_generation : Z;
  m_totalExtents : Z;
  m_availableExtents : Z;
  m_quarantineExtents : Z;
  m_quarantineBytes : Z;
  m_activeLogBytes : Z;
  m_activeLogFrames : Z;
  m_repack : RepackStatus;
  m_flushes : Flushes
}.

Definition metricsOf : V RepackedVfsMetrics :=
  assertOpen ≫= fun _ =>
  v ← vfs;
  let s := v_state v in
  mret (mkMetricsOf (generation s) (totalExtents (allocator s)) (ExtentSet.size (available (allocator s)))
          (quarantineSize s) (quarantineSize s * extentSize s) (om_activeLogBytes (v_store v))
          (om_activeLogFrames (v_store v)) (v_repack v) (v_flushes v)).

End Operations.
