(* ===== verification/Coalesce.v ===== *)
(** * Coalescing the resizes of one file

    The store keeps the resize of a growing file in memory and merges the next one into it. The merged
    record has the effect of the two records in a row. *)

From S2P Require Export ApplyTxn FrameLaws VfsCore.

(** ** Merging runs *)

Lemma expand_run_join r1 r2 : 0 <= run_count r1 -> 0 <= run_count r2 -> run_start r1 + run_count r1 = run_start r2 ->
  expand_run (mkRun (run_start r1) (run_count r1 + run_count r2)) = expand_run r1 ++ expand_run r2.
Proof. intros H1 H2 He. unfold expand_run. cbn. by rewrite seqZ_app, He. Qed.

Lemma run_total_flat runs : Forall run_ok runs -> run_total runs = Z.of_nat (length (flat runs)).
Proof.
  induction 1 as [|r runs Hr _ IH]; [done|]. change (run_total (r :: runs)) with (run_count r + run_total runs).
  change (flat (r :: runs)) with (expand_run r ++ flat runs).
  rewrite length_app, Nat2Z.inj_add, (length_expand_run r Hr). lia.
Qed.

Lemma mergeExtentRuns_flat left right : Forall run_ok left -> Forall run_ok right ->
  flat (mergeExtentRuns left right) = flat left ++ flat right /\ Forall run_ok (mergeExtentRuns left right).
Proof.
  unfold mergeExtentRuns. intros Hl Hr. revert left Hl. induction Hr as [|r right Hr _ IH]; intros left Hl.
  { cbn. by rewrite app_nil_r. }
  cbn [foldl]. set (left' := match last left with Some _ => _ | None => _ end).
  assert (Hstep : flat left' = flat left ++ expand_run r /\ Forall run_ok left').
  { subst left'. destruct left as [|lst runs _] using rev_ind; cbn [last]; [rewrite (flat_snoc []); split; [done|by constructor]|].
    rewrite last_snoc, removelast_last. apply Forall_app in Hl as [Hl [Hlst _]%Forall_cons].
    destruct (_ && _) eqn:E; [|rewrite flat_snoc; split; [done|]; rewrite !Forall_app, !Forall_singleton; done].
    propify. destruct Hlst as (? & ? & ?), Hr as (? & ? & ?). rewrite !flat_snoc, expand_run_join, app_assoc by lia.
    split; [done|]. apply Forall_app. split; [done|]. constructor; [|done]. split; [|split]; cbn; ll. }
  destruct Hstep as [Hf Hok]. destruct (IH left' Hok) as [-> ?]. rewrite Hf.
  change (flat (r :: right)) with (expand_run r ++ flat right). by rewrite app_assoc.
Qed.

(** ** A resize that grows its file *)

Definition grown (k sz : Z) (added : list Z) (m t : Z) (i : Inode) : Inode :=
  set_ctime t (set_mtime m (set_kind (fun kind => match kind with
    | File _ extents => File sz (extents ++ added) | other => other end) i)).

Definition grow_state (k sz : Z) (added : list Z) (m t : Z) (s : VfsState) : VfsState :=
  set_inodes (alter (grown k sz added m t) k) (set_allocator (own_all k added) s).

(** What the reducer checks of a resize that needs at least the extents the file has. *)
Record growth_ok (s : VfsState) (k sz : Z) (runs : list ExtentRun) (m t : Z) (f : FileInode) (required : Z)
  (added : list Z) : Prop := {
  go_file : fileById s k = Ok f;
  go_size : u64 sz;
  go_required : extentCountForSize sz (extentSize s) = Ok required;
  go_grows : Z.of_nat (length (file_extents f)) <= required;
  go_added : validateExtentAssignment s runs (required - Z.of_nat (length (file_extents f))) = Ok added;
  go_mtime : u64 m;
  go_ctime : u64 t
}.

Lemma fileById_inode s k f : fileById s k = Ok f ->
  inodes s !! k = Some (file_inode f) /\ inode_kind (file_inode f) = File (file_size f) (file_extents f).
Proof.
  unfold fileById, inodeById. intros H. apply bind_Ok in H as (i & Hi%or_throw_Ok & H).
  destruct (inode_kind i) eqn:E; try done. by injection H as <-.
Qed.

(** *** Running the reducer *)

Lemma set_grown k sz added m t (I : gmap Z Inode) i es sz0 :
  I !! k = Some i -> inode_kind i = File sz0 es ->
  alter (set_ctime t) k (alter (set_mtime m) k (alter (set_kind (fun _ => File sz (es ++ added))) k I))
  = alter (grown k sz added m t) k I.
Proof.
  intros Hi Hk. apply map_eq. intros j.
  destruct (decide (j = k)) as [->|Hne]; [|by rewrite !lookup_alter_ne by done]. rewrite !lookup_alter.
  rewrite !(decide_True (P := k = k)), Hi by done. cbn. unfold grown, set_kind. by rewrite Hk.
Qed.

Lemma grow_reduces s op k sz runs m t f required added : Core s -> growth_ok s k sz runs m t f required added ->
  reduceTxn (ResizeFile op k sz runs m t) s = (grow_state k sz added m t s, Ok tt).
Proof.
  intros C [Hf Hsz Hreq Hle Hadd Hm Ht]. pose proof (fileById_inode s k f Hf) as [Hi Hk].
  pose proof (io_id _ _ _ _ (inode_at_ok s k _ C Hi)) as Hid.
  cbn [reduceTxn]. unfold applyResizeFile.
  apply checked_Ok. exists f. split; [done|]. apply lift_Ok. exists sz. split; [by apply checkedU64_id|].
  apply checked_Ok. exists required. split; [done|].
  apply checked_Ok. exists added. split; [by rewrite Z.max_r by lia|].
  rewrite (proj2 (Z.leb_le _ _)) by done. rewrite drop_ge by lia.
  apply checked_Ok. exists tt. split; [done|]. apply lift_Ok. exists m. split; [by apply checkedU64_id|].
  apply lift_Ok. exists t. split; [by apply checkedU64_id|].
  apply (forM_bind_Ok _ _ _ _ _ _ _ (forM_ownExtent _ _ _)). cbn [forM].
  rewrite Hid. set (s1 := set_allocator _ s). rewrite (st_bind_run (mret tt) _ s1 s1 tt eq_refl).
  rewrite !mutateInode_bind, mutateInode_run. f_equal. unfold grow_state, s1, set_inodes. cbn.
  by rewrite (set_grown k sz added m t _ _ _ _ Hi Hk).
Qed.

Lemma grow_accepts s op k sz runs m t f s' required : Core s -> fileById s k = Ok f ->
  extentCountForSize sz (extentSize s) = Ok required -> Z.of_nat (length (file_extents f)) <= required ->
  reduceTxn (ResizeFile op k sz runs m t) s = (s', Ok tt) ->
  exists added, growth_ok s k sz runs m t f required added /\ s' = grow_state k sz added m t s.
Proof.
  intros C Hf Hreq Hle H. pose proof H as Hrun. cbn [reduceTxn] in H. unfold applyResizeFile in H.
  apply checked_Ok in H as (f' & Hf' & H). rewrite Hf in Hf'. injection Hf' as <-.
  apply lift_Ok in H as (sz' & [-> Hsz]%checkedU64_Ok & H).
  apply checked_Ok in H as (r & Hr & H). rewrite Hreq in Hr. injection Hr as <-.
  apply checked_Ok in H as (added & Hadd & H). rewrite Z.max_r in Hadd by lia.
  apply checked_Ok in H as (u & _ & H).
  apply lift_Ok in H as (m' & [-> Hm]%validateTimestamp_Ok & H).
  apply lift_Ok in H as (t' & [-> Ht]%validateTimestamp_Ok & _).
  assert (Hok : growth_ok s k sz runs m t f required added) by done.
  exists added. split; [done|]. rewrite (grow_reduces s op k sz runs m t f required added C Hok) in Hrun.
  by injection Hrun.
Qed.

(** ** Two assignments in a row *)

Lemma foldM_app {B} (f : B -> Z -> R B) acc l1 l2 :
  foldM f acc (l1 ++ l2) = (acc' ← foldM f acc l1; foldM f acc' l2).
Proof. revert acc. induction l1 as [|x l1 IH]; intros acc; [done|]. cbn. destruct (f acc x); cbn; [apply IH|done]. Qed.

Lemma validate_spec s runs n es : validateExtentAssignment s runs n = Ok es <->
  expandExtentRuns runs MAX_EXTENTS_PER_INODE = Ok es /\ Z.of_nat (length es) = n /\ NoDup es /\
  exists nf, foldM (assignExtent s) (totalExtents (allocator s)) es = Ok nf /\ nf <= MAX_TOTAL_EXTENTS.
Proof.
  unfold validateExtentAssignment. split.
  - intros H. apply bind_Ok in H as (es' & He & H). apply bind_Ok in H as (u1 & Hl%throw_if_Ok & H).
    apply bind_Ok in H as (u2 & Hs%throw_if_Ok & H). apply bind_Ok in H as (nf & Hnf & H).
    apply bind_Ok in H as (u3 & Hm%throw_if_Ok & [= ->]). apply negb_false_iff, Nat.eqb_eq, size_list_to_set_NoDup in Hs.
    propify. eauto 8.
  - intros (He & Hl & Hs & nf & Hnf & Hm). rewrite He. cbn [mbind result_bind].
    rewrite (proj2 (Z.eqb_eq _ _)) by done. rewrite (proj2 (Nat.eqb_eq _ _)) by (by apply size_list_to_set_NoDup).
    cbn [negb throw_if mbind result_bind]. rewrite Hnf. cbn [mbind result_bind].
    by rewrite (proj2 (Z.ltb_ge _ _)).
Qed.

Lemma assign_all_total s es nf nf' a : totalExtents a = nf -> totalExtents (allocator s) <= nf ->
  foldM (assignExtent s) nf es = Ok nf' -> totalExtents (take_all es a) = nf'.
Proof.
  unfold take_all. revert nf a. induction es as [|e es IH]; intros nf a Ha Hle; cbn [foldM foldl]; [by intros [= <-]|].
  intros (nf1 & H1 & H2)%bind_Ok. apply assignExtent_Ok in H1 as [(Hlt & _ & ->)|(Hge & -> & ->)].
  - apply (IH nf); [|done|done]. unfold take_extent. rewrite (proj2 (Z.ltb_lt _ _)) by lia. done.
  - apply (IH (nf + 1)); [|lia|done]. unfold take_extent. rewrite (proj2 (Z.ltb_ge _ _)) by lia. cbn. lia.
Qed.

Lemma take_all_available es a e : ExtentSet.wf (available a) ->
  e ∈ ExtentSet.items (available (take_all es a)) -> e ∈ ExtentSet.items (available a).
Proof.
  unfold take_all. revert a. induction es as [|x es IH]; intros a W; cbn [foldl]; [done|]. intros H.
  unfold take_extent in H at 2. destruct (x <? totalExtents a).
  - apply IH in H; [|by apply ExtentSet.delete_wf]. cbn in H. by apply ExtentSet.elem_of_delete in H as [_ ?].
  - by apply IH in H.
Qed.

Lemma assign_earlier sm v es nf nf' : AllocOk (allocator sm) -> ExtentSet.wf (available (allocator v)) ->
  totalExtents (allocator sm) <= totalExtents (allocator v) ->
  (forall e, e ∈ ExtentSet.items (available (allocator v)) -> e ∈ ExtentSet.items (available (allocator sm))) ->
  foldM (assignExtent v) nf es = Ok nf' -> foldM (assignExtent sm) nf es = Ok nf'.
Proof.
  intros A W Ht Hsub. revert nf. induction es as [|e es IH]; intros nf; [done|]. cbn [foldM].
  intros (nf1 & H1 & H2)%bind_Ok. apply bind_Ok. exists nf1. split; [|by apply IH].
  unfold assignExtent. apply assignExtent_Ok in H1 as [(Hlt & Hhas & ->)|(Hge & -> & ->)].
  - apply ExtentSet.mem_true in Hhas; [|done]. apply Hsub in Hhas.
    assert (He : 0 <= e < totalExtents (allocator sm)) by (apply (a_cover _ A); auto).
    rewrite (proj2 (Z.ltb_lt _ _)) by lia. by rewrite (proj2 (ExtentSet.mem_true _ _ (a_available _ A)) Hhas).
  - rewrite (proj2 (Z.ltb_ge _ _)) by lia. by rewrite Z.eqb_refl.
Qed.

Lemma validate_merged sm v k runs1 runs2 n1 n2 a1 a2 : AllocOk (allocator sm) ->
  allocator v = own_all k a1 (allocator sm) -> n1 + n2 <= MAX_EXTENTS_PER_INODE ->
  validateExtentAssignment sm runs1 n1 = Ok a1 -> validateExtentAssignment v runs2 n2 = Ok a2 ->
  validateExtentAssignment sm (mergeExtentRuns runs1 runs2) (n1 + n2) = Ok (a1 ++ a2).
Proof.
  intros A Ha Hn H1 H2. pose proof (validateExtentAssignment_Ok _ _ _ _ A H1) as (_ & _ & _ & Has1).
  assert (A' : AllocOk (allocator v)) by (rewrite Ha; by apply own_all_ok).
  pose proof (validateExtentAssignment_Ok _ _ _ _ A' H2) as (_ & _ & _ & Has2).
  pose proof (own_all_free k a1 (allocator sm)) as [Ht Hav]. rewrite <- Ha in Ht, Hav.
  apply validate_spec in H1 as (E1 & L1 & N1 & nf1 & F1 & M1), H2 as (E2 & L2 & N2 & nf2 & F2 & M2).
  apply expandExtentRuns_Ok in E1 as (-> & R1 & _), E2 as (-> & R2 & _).
  destruct (mergeExtentRuns_flat runs1 runs2 R1 R2) as [Hflat Hok].
  apply validate_spec. split; [|split; [rewrite length_app; lia|split]].
  - apply expandExtentRuns_Ok. rewrite Hflat. split; [done|]. split; [done|]. right. rewrite length_app. lia.
  - apply NoDup_app. split; [done|]. split; [|done]. intros e He1 He2.
    pose proof (assignable_unowned _ _ e A' Has2 He2) as Hnone. rewrite Ha, own_all_ownedBy in Hnone.
    by rewrite decide_True in Hnone.
  - exists nf2. split; [|done]. rewrite foldM_app, F1. cbn [mbind result_bind].
    pose proof (assign_all_total sm (flat runs1) _ nf1 (allocator sm) eq_refl ltac:(lia) F1) as Htot.
    rewrite <- Ht in Htot. rewrite Htot in F2.
    apply (assign_earlier sm v); [done|apply A'| | |done].
    + rewrite Htot. by eapply assign_all_mono.
    + intros e He. rewrite Hav in He. eapply take_all_available; [apply A|done].
Qed.

(** ** The coalesced record *)

Lemma extentCount_mono a b es n m : 0 < es -> a <= b -> extentCountForSize a es = Ok n ->
  extentCountForSize b es = Ok m -> n <= m.
Proof.
  intros Hes Hab Ha Hb. unfold extentCountForSize in *.
  apply bind_Ok in Ha as (u & [-> Hua]%checkedU64_Ok & Ha), Hb as (u' & [-> Hub]%checkedU64_Ok & Hb).
  unfold u64 in *. destruct (a =? 0) eqn:Ea, (b =? 0) eqn:Eb; propify.
  - by injection Ha as <-; injection Hb as <-.
  - injection Ha as <-. apply bind_Ok in Hb as (? & _ & [= <-]). apply Z.div_pos; lia.
  - lia.
  - apply bind_Ok in Ha as (? & _ & [= <-]), Hb as (? & _ & [= <-]). apply Z.div_le_mono; lia.
Qed.

(** What an accepted deferrable resize is. *)
Lemma deferred_grows s op k sz runs m t s' : Inv s -> isDeferrableResize s (ResizeFile op k sz runs m t) = true ->
  applyTxn (ResizeFile op k sz runs m t) None s = (s', Ok tt) ->
  exists f required added projected, growth_ok s k sz runs m t f required added /\
    s' = set_basePayloadBytes projected (grow_state k sz added m t s) /\ file_size f < sz /\
    required <= MAX_EXTENTS_PER_INODE.
Proof.
  intros [C _ _] Hd H. unfold isDeferrableResize in Hd. destruct op; [done|].
  destruct (inodes s !! k) as [i|] eqn:Ei; [|done]. destruct (inode_kind i) as [|fsz es|] eqn:Ek; try done. propify.
  assert (Hf : fileById s k = Ok (mkFileInode i fsz es)) by (unfold fileById, inodeById; rewrite Ei; cbn; by rewrite Ek).
  destruct (applyTxn_run s _ None s' I H) as (projected & s1 & _ & Hr & ->).
  pose proof (io_kind _ _ _ _ (inode_at_ok s k i C Ei)) as Hkind. rewrite Ek in Hkind. cbn in Hkind.
  assert (exists required, extentCountForSize sz (extentSize s) = Ok required) as [required Hreq].
  { cbn [reduceTxn] in Hr. unfold applyResizeFile in Hr. apply checked_Ok in Hr as (f' & _ & Hr).
    apply lift_Ok in Hr as (sz' & [-> _]%checkedU64_Ok & Hr). apply checked_Ok in Hr as (r & Hr' & _). eauto. }
  destruct (grow_accepts s OpWrite k sz runs m t (mkFileInode i fsz es) s1 required C Hf Hreq) as (added & Hgo & ->); [|done|].
  { cbn. apply (extentCount_mono fsz sz (extentSize s)); [eauto using extent_size_pos, c_extentSize|lia|done|done]. }
  exists (mkFileInode i fsz es), required, added, projected. split; [done|]. split; [done|]. split; [cbn; lia|].
  unfold extentCountForSize in Hreq. apply bind_Ok in Hreq as (u & _ & Hreq). destruct (sz =? 0); [injection Hreq as <-; ll|].
  apply bind_Ok in Hreq as (u' & Hm%throw_if_Ok & [= <-]). propify. done.
Qed.

Lemma grown_twice k s1 a1 m1 t1 s2 a2 m2 t2 (I : gmap Z Inode) :
  alter (grown k s2 a2 m2 t2) k (alter (grown k s1 a1 m1 t1) k I) = alter (grown k s2 (a1 ++ a2) m2 t2) k I.
Proof.
  apply map_eq. intros j. destruct (decide (j = k)) as [->|Hne]; [|by rewrite !lookup_alter_ne by done].
  rewrite !lookup_alter, !(decide_True (P := k = k)) by done. destruct (I !! k) as [[id mode a m t kind]|]; [|done]. cbn.
  unfold grown, set_kind, set_mtime, set_ctime. cbn. destruct kind; cbn; [done| |done]. by rewrite app_assoc.
Qed.

Lemma fileById_grown s k sz added m t projected f : fileById s k = Ok f ->
  exists i, fileById (set_basePayloadBytes projected (grow_state k sz added m t s)) k
            = Ok (mkFileInode i sz (file_extents f ++ added)).
Proof.
  intros [Hi Hk]%fileById_inode. exists (grown k sz added m t (file_inode f)). unfold fileById, inodeById. cbn.
  rewrite lookup_alter, (decide_True (P := k = k)), Hi by done. cbn. unfold grown, set_kind. by rewrite Hk.
Qed.

(** The sizes of the merged record. *)
Lemma merged_delta s op k sz runs m t f required added : growth_ok s k sz runs m t f required added ->
  exists delta, projectedBaseDelta s (ResizeFile op k sz runs m t) = Ok delta.
Proof.
  intros [Hf _ Hreq _ Hadd _ _]. apply validate_spec in Hadd as (He & _). cbn [projectedBaseDelta].
  unfold selectedExtentsAlreadyAvailable. rewrite Hf, He. cbn [mbind result_bind]. rewrite Hreq. cbn. eauto.
Qed.

Lemma coalesce_applies sm v v2 op1 op2 k s1 r1 m1 t1 s2 r2 m2 t2 n : Inv sm ->
  isDeferrableResize sm (ResizeFile op1 k s1 r1 m1 t1) = true ->
  applyTxn (ResizeFile op1 k s1 r1 m1 t1) None sm = (v, Ok tt) ->
  isDeferrableResize v (ResizeFile op2 k s2 r2 m2 t2) = true ->
  applyTxn (ResizeFile op2 k s2 r2 m2 t2) None v = (v2, Ok tt) ->
  txnFrameBytes (ResizeFile op2 k s2 (mergeExtentRuns r1 r2) m2 t2) = Ok n ->
  applyTxn (ResizeFile op2 k s2 (mergeExtentRuns r1 r2) m2 t2) None sm = (v2, Ok tt).
Proof.
  intros Hsm D1 A1 D2 A2 Hn. assert (Hv : Inv v) by (exact (applyTxn_Inv sm (ResizeFile op1 k s1 r1 m1 t1) None v Hsm I I A1)).
  assert (Hv2 : Inv v2) by (exact (applyTxn_Inv v (ResizeFile op2 k s2 r2 m2 t2) None v2 Hv I I A2)).
  destruct (deferred_grows _ _ _ _ _ _ _ _ Hsm D1 A1) as (f & req1 & a1 & p1 & G1 & -> & Hlt1 & Hmax1).
  destruct (deferred_grows _ _ _ _ _ _ _ _ Hv D2 A2) as (f2 & req2 & a2 & p2 & G2 & -> & Hlt2 & Hmax2).
  destruct (fileById_grown sm k s1 a1 m1 t1 p1 f (go_file _ _ _ _ _ _ _ _ _ G1)) as [i Hi].
  rewrite (go_file _ _ _ _ _ _ _ _ _ G2) in Hi. injection Hi as ->.
  pose proof G1 as [F1 S1 Q1 L1 V1 M1 T1]. pose proof G2 as [F2 S2 Q2 L2 V2 M2 T2]. cbn [file_extents] in L2, V2.
  cbn [extentSize set_basePayloadBytes grow_state set_inodes set_allocator] in Q2. rewrite length_app in L2, V2.
  pose proof V1 as V1'. apply validate_spec in V1' as (_ & Hlen1 & _).
  assert (G : growth_ok sm k s2 (mergeExtentRuns r1 r2) m2 t2 f req2 (a1 ++ a2)).
  { split; [done..|lia| |done|done].
    replace (req2 - Z.of_nat (length (file_extents f)))
      with ((req1 - Z.of_nat (length (file_extents f))) + (req2 - Z.of_nat (length (file_extents f) + length a1))) by lia.
    apply (validate_merged sm (set_basePayloadBytes p1 (grow_state k s1 a1 m1 t1 sm)) k r1 r2 _ _ a1 a2);
      [exact (c_alloc _ (inv_core _ Hsm))|reflexivity|lia|exact V1|exact V2]. }
  pose proof (grow_reduces sm op2 _ _ _ _ _ _ _ _ (inv_core _ Hsm) G) as Hred.
  destruct (merged_delta sm op2 _ _ _ _ _ _ _ _ G) as [delta Hdelta].
  set (v2' := set_basePayloadBytes p2 _) in *. set (g := grow_state k s2 (a1 ++ a2) m2 t2 sm) in *.
  assert (Hg : set_basePayloadBytes p2 g = v2').
  { subst g v2'. unfold grow_state, set_basePayloadBytes, set_inodes, set_allocator. cbn. f_equal.
    - by rewrite grown_twice.
    - unfold own_all. by rewrite foldl_app. }
  destruct (reduceTxn_step sm (ResizeFile op2 k s2 (mergeExtentRuns r1 r2) m2 t2) g delta (inv_core _ Hsm) I Hdelta Hred) as [_ Hb _].
  assert (Hp : basePayloadBytes sm + delta = p2).
  { rewrite (inv_bytes _ Hsm), <- Hb. change (base_bytes g) with (base_bytes (set_basePayloadBytes p2 g)).
    rewrite Hg, <- (inv_bytes _ Hv2). done. }
  unfold applyTxn. apply checked_Ok. exists tt. split; [done|]. apply checked_Ok. exists p2. split; [|].
  2:{ rewrite (st_bind_run _ _ _ _ _ Hred). unfold st_modify. by rewrite Hg. }
  destruct (applyTxn_run _ (ResizeFile op2 k s2 r2 m2 t2) None _ I A2) as (p2' & g' & Hpre & Hr2 & Heq).
  apply preflightTxn_Ok in Hpre as (d2 & _ & _ & Hrange).
  assert (p2' = p2) as -> by (apply (f_equal basePayloadBytes) in Heq; done).
  unfold txnFrameBytes in Hn. apply bind_Ok in Hn as (payload & Hpay & Hn). apply bind_Ok in Hn as (u & Hu & _).
  unfold preflightTxn, preflightTxnWith. rewrite Hpay. cbn [mbind result_bind maxFramePayloadBytes defaultLimits].
  rewrite Hu, Hdelta. cbn [mbind result_bind maxBasePayloadBytes]. rewrite Hp.
  change (maxBasePayloadBytes defaultLimits) with MAX_METADATA_BASE_WRITER_BYTES. unfold isSafeInteger.
  rewrite (proj2 (Z.leb_le (Z.abs p2) MAX_SAFE_INTEGER)), (proj2 (Z.ltb_ge p2 0)),
    (proj2 (Z.ltb_ge MAX_METADATA_BASE_WRITER_BYTES p2))
    by (unfold MAX_METADATA_BASE_WRITER_BYTES, MAX_SAFE_INTEGER in *; lia). done.
Qed.
