(* ===== verification/Triples.v ===== *)
(** * Reasoning about runs of the store

    A weakest precondition for the state and error monad, with its rules for the calls the store is
    made of. *)

From S2P Require Export PortLaws VfsCore.

(** [wp m Q s]: the run of [m] from [s] ends with a result and a state that satisfy [Q]. *)
Definition wp {S A} (m : M S A) (Q : R A -> S -> Prop) (s : S) : Prop := let '(s', r) := m s in Q r s'.

Section Rules.
Context {S : Type}.
Implicit Types (s : S).

Lemma wp_run {A} (m : M S A) Q s s' r : wp m Q s -> m s = (s', r) -> Q r s'.
Proof. unfold wp. by intros H E; rewrite E in H. Qed.

Lemma wp_intro {A} (m : M S A) (Q : R A -> S -> Prop) s : (forall s' r, m s = (s', r) -> Q r s') -> wp m Q s.
Proof. unfold wp. intros H. destruct (m s) as [s' r]. by apply H. Qed.

Lemma wp_conseq {A} (m : M S A) (Q Q' : R A -> S -> Prop) s : wp m Q s -> (forall r s', Q r s' -> Q' r s') -> wp m Q' s.
Proof. unfold wp. destruct (m s). auto. Qed.

Lemma wp_bind {A B} (m : M S A) (k : A -> M S B) Q s :
  wp m (fun r s' => match r with Ok a => wp (k a) Q s' | Throw e => Q (Throw e) s' end) s -> wp (m ≫= k) Q s.
Proof. unfold wp, mbind, ST_bind. by destruct (m s) as [s' [a|e]]. Qed.

(** The bind after a call whose outcome is known. *)
Lemma wp_seq {A B} (m : M S A) (k : A -> M S B) (P : R A -> S -> Prop) Q s :
  wp m P s -> (forall a s', P (Ok a) s' -> wp (k a) Q s') -> (forall e s', P (Throw e) s' -> Q (Throw e) s') ->
  wp (m ≫= k) Q s.
Proof. intros H Hk He. apply wp_bind. eapply wp_conseq; [exact H|]. intros [a|e] s' HP; auto. Qed.

Lemma wp_bind_run {A B} (m : M S A) (k : A -> M S B) Q s s' a : m s = (s', Ok a) -> wp (k a) Q s' -> wp (m ≫= k) Q s.
Proof. intros Hm Hk. unfold wp. by rewrite (st_bind_run _ _ _ _ _ Hm). Qed.

Lemma wp_ret {A} (a : A) (Q : R A -> S -> Prop) s : Q (Ok a) s -> wp (mret a) Q s.
Proof. done. Qed.

Lemma wp_lift {A} (m : R A) (Q : R A -> S -> Prop) s : Q m s -> wp (st_lift m) Q s.
Proof. done. Qed.

Lemma wp_lift_bind {A B} (m : R A) (k : A -> M S B) Q s :
  (forall a, m = Ok a -> wp (k a) Q s) -> (forall e, m = Throw e -> Q (Throw e) s) -> wp (st_lift m ≫= k) Q s.
Proof. intros H1 H2. apply wp_bind, wp_lift. destruct m; auto. Qed.

Lemma wp_catch {A} (m : M S A) handler Q s :
  wp m (fun r s' => match r with Ok a => Q (Ok a) s' | Throw e => wp (handler e) Q s' end) s ->
  wp (st_catch m handler) Q s.
Proof. unfold wp, st_catch. by destruct (m s) as [s' [a|e]]. Qed.
End Rules.

Section Store.
Context {Wd : Type} `{RepackedPort Wd}.
Implicit Types (h : Host Wd) (w : Wd).

Lemma wp_vfs {B} (k : Vfs -> M (Host Wd) B) Q h : wp (k (h_vfs h)) Q h -> wp (vfs ≫= k) Q h.
Proof. done. Qed.

Lemma wp_modify (f : Vfs -> Vfs) (Q : R unit -> Host Wd -> Prop) h :
  Q (Ok tt) (mkHost (h_world h) (f (h_vfs h))) -> wp (modify f) Q h.
Proof. done. Qed.

Lemma wp_modify_bind {B} (f : Vfs -> Vfs) (k : unit -> M (Host Wd) B) Q h :
  wp (k tt) Q (mkHost (h_world h) (f (h_vfs h))) -> wp (modify f ≫= k) Q h.
Proof. done. Qed.

Lemma wp_world {A} (m : M Wd A) Q h :
  wp m (fun r w => Q r (mkHost w (h_vfs h))) (h_world h) -> wp (on_world m) Q h.
Proof. unfold wp, on_world. by destruct (m (h_world h)). Qed.

Lemma wp_when b (m : M (Host Wd) unit) Q h :
  (b = true -> wp m Q h) -> (b = false -> Q (Ok tt) h) -> wp (when b m) Q h.
Proof. unfold when. destruct b; intros H1 H2; [by apply H1|by apply wp_ret, H2]. Qed.

Lemma wp_assertOpen {B} (k : unit -> M (Host Wd) B) Q h :
  v_status (h_vfs h) = StatusOpen -> wp (k tt) Q h -> wp (assertOpen ≫= k) Q h.
Proof. intros Ho Hk. unfold assertOpen. apply wp_bind, wp_vfs. by rewrite Ho. Qed.

(** The store after [poison]. *)
Definition poisoned (cause : error) (v : Vfs) : Vfs := v {{ v_status := StatusFailed; v_failure := Some cause }}.

Lemma wp_poison {B} cause (k : unit -> M (Host Wd) B) Q h : v_status (h_vfs h) = StatusOpen ->
  wp (k tt) Q (mkHost (h_world h) (poisoned cause (h_vfs h))) -> wp (poison cause ≫= k) Q h.
Proof. intros Ho Hk. unfold poison. apply wp_modify_bind. by rewrite Ho. Qed.

Lemma wp_failStore {A} cause (Q : R A -> Host Wd -> Prop) h : v_status (h_vfs h) = StatusOpen ->
  Q (Throw (StoreFailedError (Some cause))) (mkHost (h_world h) (poisoned cause (h_vfs h))) -> wp (failStore cause) Q h.
Proof. intros Ho HQ. unfold failStore. apply wp_poison; [done|]. by apply wp_vfs. Qed.

Lemma wp_poisoning {A} (m : M (Host Wd) A) Q h :
  wp m (fun r h' => match r with
        | Ok a => Q (Ok a) h'
        | Throw e => (v_status (h_vfs h') = StatusOpen /\ Q (Throw e) (mkHost (h_world h') (poisoned e (h_vfs h')))) \/
                     (v_status (h_vfs h') <> StatusOpen /\ Q (Throw e) h')
        end) h ->
  wp (poisoning m) Q h.
Proof.
  intros Hm. unfold poisoning. apply wp_catch. eapply wp_conseq; [exact Hm|]. intros [a|e] h' HQ; [done|].
  destruct HQ as [[Ho HQ]|[Ho HQ]]; [by apply wp_poison|]. unfold poison. apply wp_modify_bind.
  destruct h' as [w v]. cbn [h_vfs h_world] in *. by destruct (v_status v).
Qed.

Lemma poisoning_Ok {A} (m : M (Host Wd) A) h h' a : m h = (h', Ok a) -> poisoning m h = (h', Ok a).
Proof. unfold poisoning, st_catch. by intros ->. Qed.
End Store.

(** ** The port *)

Section Port.
Context {Wd : Type} `{LawfulPort Wd}.

Lemma wp_writeExact name offset bytes w : port_ok w ->
  wp (writeExact name offset bytes) (fun r w' => write_outcome name offset bytes w w' r) w.
Proof. intros Hok. apply wp_intro. intros w' r Hr. by eapply writeExact_outcome. Qed.

Lemma wp_flush name w : port_ok w ->
  wp (flush name) (fun _ w' => port_ok w' /\ forall f, file w' f = file w f) w.
Proof. intros Hok. apply wp_intro. intros w' r Hr. by destruct (flush_law _ _ _ _ Hok Hr) as (? & _ & ?). Qed.
End Port.

Lemma write_at_end src f : write_at (length f) src f = f ++ src.
Proof. unfold write_at. destruct src; [by rewrite app_nil_r|]. by rewrite resize_all, drop_ge, app_nil_r by lia. Qed.

(** Evaluate the fields of an updated store, keeping the projections of the store it updates. *)
Ltac refold :=
  repeat match goal with
  | |- context [match ?v with mkVfs a _ _ _ _ _ _ _ _ => a end] => change (match v with mkVfs a _ _ _ _ _ _ _ _ => a end) with (v_store v)
  | |- context [match ?v with mkVfs _ a _ _ _ _ _ _ _ => a end] => change (match v with mkVfs _ a _ _ _ _ _ _ _ => a end) with (v_status v)
  | |- context [match ?v with mkVfs _ _ _ _ a _ _ _ _ => a end] => change (match v with mkVfs _ _ _ _ a _ _ _ _ => a end) with (v_pendingResizeCommit v)
  | |- context [match ?v with mkVfs _ _ _ _ _ a _ _ _ => a end] => change (match v with mkVfs _ _ _ _ _ a _ _ _ => a end) with (v_arena v)
  | |- context [match ?v with mkVfs _ _ _ _ _ _ a _ _ => a end] => change (match v with mkVfs _ _ _ _ _ _ a _ _ => a end) with (v_metadataDirtySinceFlush v)
  | |- context [match ?o with mkOpened a _ _ _ _ _ _ _ _ _ => a end] => change (match o with mkOpened a _ _ _ _ _ _ _ _ _ => a end) with (om_state o)
  | |- context [match ?o with mkOpened _ a _ _ _ _ _ _ _ _ => a end] => change (match o with mkOpened _ a _ _ _ _ _ _ _ _ => a end) with (om_activeLogEnd o)
  | |- context [match ?o with mkOpened _ _ a _ _ _ _ _ _ _ => a end] => change (match o with mkOpened _ _ a _ _ _ _ _ _ _ => a end) with (om_nextSequence o)
  | |- context [match ?o with mkOpened _ _ _ a _ _ _ _ _ _ => a end] => change (match o with mkOpened _ _ _ a _ _ _ _ _ _ => a end) with (om_activeLogBytes o)
  | |- context [match ?o with mkOpened _ _ _ _ a _ _ _ _ _ => a end] => change (match o with mkOpened _ _ _ _ a _ _ _ _ _ => a end) with (om_activeLogFrames o)
  | |- context [match ?h with mkHost a _ => a end] => change (match h with mkHost a _ => a end) with (h_world h)
  | |- context [match ?h with mkHost _ a => a end] => change (match h with mkHost _ a => a end) with (h_vfs h)
  end.
Ltac vsimpl := cbn; refold.
