(* ===== verification/DurablePort.v ===== *)
(** * Ports whose flushes survive a crash

    What the commit protocol needs of a port beyond exact transfers: a flush settles a file, and a crash
    keeps what is settled. The in-memory port is such a port, [terminate] being its crash. *)

From S2P Require Export Recovery.

(** [settled w name]: a crash of [w] cannot change the content of [name]. *)
Class DurablePort (Wd : Type) `{LawfulPort Wd} : Type := {
  settled : Wd -> OwnedFileName -> Prop;
  crash : Wd -> Wd -> Prop;
  flush_settles : forall name w w', port_ok w -> flush name w = (w', Ok tt) -> settled w' name;
  flush_keeps : forall name w w' r f, port_ok w -> flush name w = (w', r) -> settled w f -> settled w' f;
  write_keeps : forall name src pos w w' r f, port_ok w -> write name src pos w = (w', r) -> f <> name ->
    settled w f -> settled w' f;
  truncate_keeps : forall name size w w' r f, port_ok w -> truncate name size w = (w', r) -> f <> name ->
    settled w f -> settled w' f;
  getSize_keeps : forall name w w' r f, port_ok w -> getSize name w = (w', r) -> settled w f -> settled w' f;
  read_keeps : forall name n pos w w' r f, port_ok w -> read name n pos w = (w', r) -> settled w f -> settled w' f;
  crash_settled : forall w w' name, port_ok w -> crash w w' -> settled w name -> file w' name = file w name;
  crash_settles : forall w w' name, crash w w' -> settled w' name
}.

Section Exact.
Context {Wd : Type} `{DurablePort Wd}.

Lemma writeLoop_keeps fuel name start completed bytes w w' r f : port_ok w -> 0 <= start -> 0 <= completed ->
  writeLoop fuel name start completed bytes w = (w', r) -> f <> name -> settled w f -> settled w' f.
Proof.
  intros Hok Hs. revert completed w Hok. induction fuel as [|fuel IH]; intros completed w Hok Hc; cbn [writeLoop];
    destruct (completed <? _); try (by intros [= <- <-]).
  unfold mbind at 1, ST_bind at 1. destruct (write _ _ _ w) as [w1 r1] eqn:E. intros Hrun Hf Hset.
  pose proof (write_keeps _ _ _ _ _ _ f Hok E Hf Hset) as Hset1. apply write_law in E as (Hok1 & _); [|done|lia].
  destruct r1 as [count|e]; [|by injection Hrun as <- <-]. rewrite st_bind_lift in Hrun.
  destruct (throw_if _ _) as [u|e] eqn:Et; [|by injection Hrun as <- <-]. apply throw_if_Ok in Et. propify.
  apply (IH (completed + count) w1); [done|lia|done|done|done].
Qed.

Lemma writeExact_keeps name offset bytes w w' r f : port_ok w -> writeExact name offset bytes w = (w', r) ->
  f <> name -> settled w f -> settled w' f.
Proof.
  intros Hok. unfold writeExact. rewrite st_bind_lift. destruct (checkedRange _ _) as [start|e] eqn:Er;
    [|by intros [= <- <-]].
  apply checkedRange_Ok in Er as (-> & Ho & _). by apply writeLoop_keeps.
Qed.
End Exact.

(** ** The in-memory port *)

(** A termination, and the port as the next process finds it: acquiring the files changes no content. *)
Definition memory_crash (w w' : MemoryWorld) : Prop :=
  MemInv (mw_port w') /\ effects (mw_port w') = [] /\ exists decisions p', terminate decisions (mw_port w) = (p', Ok tt) /\
    forall name, bytes_of (volatile (mw_port w')) name = bytes_of (volatile p') name.

Section Memory.
Context (sortByName : list (jsstr * EntryKind) -> list (jsstr * EntryKind)) (label : jsstr).

#[local] Instance memory_port : RepackedPort MemoryWorld := MemoryPortInterface sortByName label.
#[local] Instance memory_lawful : LawfulPort MemoryWorld := Transfers.memory_lawful sortByName label.

Lemma handleFlush_effects name p p' r : handleFlush name label p = (p', r) ->
  effects p' = effects p \/ effects p' = filter (fun e => effect_file e <> name) (effects p).
Proof.
  unfold handleFlush, recordOperation, setCopiedBytes. rewrite !st_bind_modify.
  match goal with |- (takeFault ?o ?f ?l ≫= _) ?q = _ -> _ => set (q0 := q); destruct (takeFault_run o f l q0) as (fault & p1 & Ht & Hs) end.
  rewrite (st_bind_run _ _ _ _ _ Ht), st_bind_lift. destruct Hs as (_ & _ & He & _).
  destruct (throw_if _ _) as [u|e]; [|by intros [= <- <-]; left].
  rewrite (st_bind_run _ _ _ _ _ (makeDurable_run name p1)), st_bind_modify. unfold st_lift.
  intros [= <- _]. right. cbn. by rewrite He.
Qed.

Lemma handleTruncate_effects name size p p' r : handleTruncate name size label p = (p', r) ->
  effects p' = effects p \/ exists id n, effects p' = effects p ++ [TruncateEffect id name n].
Proof.
  unfold handleTruncate. rewrite st_bind_lift. destruct (validateRange _ _) as [u|e]; [|by intros [= <- <-]; left].
  prologue p1 fault Hs. destruct Hs as (_ & _ & He & _). rewrite <- He.
  rewrite st_bind_lift. destruct (throw_if (has_outcome fault Quota) _); [|by intros [= <- <-]; left].
  rewrite st_bind_lift. destruct (throw_if (has_outcome fault ThrowBefore) _); [|by intros [= <- <-]; left].
  unfold mbind at 1, ST_bind at 1. rewrite recordTruncate_run. destruct (volatile p1 !! name); [|by intros [= <- <-]; left].
  unfold st_lift. cbv beta iota. intros [= <- _]. right. by eexists _, _.
Qed.

Lemma handleGetSize_effects name p p' r : handleGetSize name label p = (p', r) -> effects p' = effects p.
Proof.
  unfold handleGetSize. prologue p1 fault Hs. destruct Hs as (_ & _ & He & _). rewrite <- He.
  rewrite st_bind_lift. destruct (throw_if _ _) as [u|e]; [|by intros [= <- _]].
  rewrite file_of_bind. by destruct (volatile p1 !! name); intros [= <- _].
Qed.

Lemma handleRead_effects name n pos p p' r : handleRead name n pos label p = (p', r) -> effects p' = effects p.
Proof.
  unfold handleRead. rewrite st_bind_lift. destruct (validateRange _ _) as [u|e]; [|by intros [= <- _]].
  prologue p1 fault Hs. destruct Hs as (_ & _ & He & _). rewrite <- He.
  rewrite st_bind_lift. destruct (throw_if _ _) as [u'|e]; [|by intros [= <- _]].
  rewrite file_of_bind. destruct (volatile p1 !! name); [|by intros [= <- _]].
  unfold setCopiedBytes. cbv zeta. rewrite ?st_bind_modify. intros [= <- _]. done.
Qed.

#[local] Instance memory_durable : DurablePort MemoryWorld.
Proof.
  refine {| settled w name := effects_of name (effects (mw_port w)) = []; crash := memory_crash |}.
  - intros name w w' Hok Hrun. cbn in Hrun.
    destruct (assertOpen_run name (fun _ => on_port (handleFlush name label)) w) as [E|E]; rewrite E in Hrun; [|done].
    apply on_port_inv in Hrun as (p' & Hrun & ->). apply handleFlush_run in Hrun as (p1 & _ & _ & _ & ->).
    apply effects_of_self.
  - intros name w w' r f Hok Hrun Hset. cbn in Hrun.
    destruct (assertOpen_run name (fun _ => on_port (handleFlush name label)) w) as [E|E]; rewrite E in Hrun; [|by injection Hrun as <- _].
    apply on_port_inv in Hrun as (p' & Hrun & ->). apply handleFlush_effects in Hrun as [-> | ->]; [done|].
    destruct (decide (name = f)) as [->|Hne]; [apply effects_of_self|by rewrite effects_of_others].
  - intros name src pos w w' r f Hok Hrun Hf Hset. cbn in Hrun.
    destruct (assertOpen_run name (fun _ => on_port (handleWrite name src pos label)) w) as [E|E]; rewrite E in Hrun; [|by injection Hrun as <- _].
    apply on_port_inv in Hrun as (p' & Hrun & ->). apply handleWrite_effects in Hrun as [_ [->|(id & k & _ & _ & ->)]]; [done|].
    rewrite effects_of_app, Hset. unfold effects_of. by rewrite filter_cons, decide_False, filter_nil by (cbn; congruence).
  - intros name size w w' r f Hok Hrun Hf Hset. cbn in Hrun.
    destruct (assertOpen_run name (fun _ => on_port (handleTruncate name size label)) w) as [E|E]; rewrite E in Hrun; [|by injection Hrun as <- _].
    apply on_port_inv in Hrun as (p' & Hrun & ->). apply handleTruncate_effects in Hrun as [->|(id & n & ->)]; [done|].
    rewrite effects_of_app, Hset. unfold effects_of. by rewrite filter_cons, decide_False, filter_nil by (cbn; congruence).
  - intros name w w' r f Hok Hrun Hset. cbn in Hrun.
    destruct (assertOpen_run name (fun _ => on_port (handleGetSize name label)) w) as [E|E]; rewrite E in Hrun; [|by injection Hrun as <- _].
    apply on_port_inv in Hrun as (p' & Hrun & ->). cbn. by rewrite (handleGetSize_effects _ _ _ _ Hrun).
  - intros name n pos w w' r f Hok Hrun Hset. cbn in Hrun.
    destruct (assertOpen_run name (fun _ => on_port (handleRead name n pos label)) w) as [E|E]; rewrite E in Hrun; [|by injection Hrun as <- _].
    apply on_port_inv in Hrun as (p' & Hrun & ->). cbn. by rewrite (handleRead_effects _ _ _ _ _ _ Hrun).
  - intros w w' name Hok (_ & _ & d & p' & Ht & Hsame) Hset. cbn. rewrite Hsame.
    destruct (terminate_Ok d _ p' Hok Ht name) as [Hv Hd]. by rewrite Hv, Hd, Hset, (mi_effects _ Hok), Hset.
  - intros w w' name (_ & E & _). cbn. by rewrite E.
Defined.
End Memory.
