(* ===== verification/CommitLaws.v ===== *)
(** * The commit protocol

    The live store, the frames in its log and the resize it still keeps in memory: what every commit and
    every synchronisation keeps of their relation, and what a failed one leaves behind. *)

From S2P Require Export Triples Coalesce DurablePort.

(** ** Records and their projections *)

Lemma applyTxn_prepared s record p : prepareTxnProjection s record = Ok p -> applyTxn record (Some p) s = applyTxn record None s.
Proof.
  unfold prepareTxnProjection. intros H. apply bind_Ok in H as (projected & Hp & [= <-]).
  unfold applyTxn, checked, mbind, ST_bind, st_get, st_lift, mret, ST_ret. cbn [prepared_state prepared_record projectedBasePayloadBytes].
  rewrite !bool_decide_true by done. cbn [negb orb throw_if]. by rewrite Hp.
Qed.

Lemma applyTxn_header s record s' : Inv s -> record_fits s record -> applyTxn record None s = (s', Ok tt) ->
  generation s' = generation s /\ activeMetadataFile s' = activeMetadataFile s.
Proof.
  intros [C _ _] Hf Ha. destruct (applyTxn_run s record None s' I Ha) as (projected & s2 & Hpre & Hr & ->).
  apply preflightTxn_Ok in Hpre as (delta & Hd & _ & _).
  by destruct (reduceTxn_step _ _ _ _ C Hf Hd Hr) as [_ _ (Hg & _ & _ & Hm & _)].
Qed.

(** An accepted record whose projection was computed has a frame. *)
Lemma commits_intro s seq record n s1 : Inv s -> u64 seq -> record_ok record -> record_fits s record ->
  txnFrameBytes record = Ok n -> applyTxn record None s = (s1, Ok tt) ->
  exists bytes, commits s seq record bytes s1 /\ n = byteLength bytes /\
    encodeTxnFrame (mkFrame (generation s) seq record) = Ok bytes.
Proof.
  intros Hs Hq Ho Hf Hn Ha. pose proof (c_generation s (inv_core s Hs)).
  destruct (encodeTxnFrame_run (generation s) seq record n Ho) as (payload & He & _ & _ & -> & _); [ll|done|done|].
  eexists. split; [by split|]. done.
Qed.

(** A resize merged into the pending one commits on the state before it. *)
Lemma merged_commits sm seq op1 op2 k s1 r1 m1 t1 s2 r2 m2 t2 b1 v v2 n : Inv sm -> u64 seq ->
  isDeferrableResize sm (ResizeFile op1 k s1 r1 m1 t1) = true -> commits sm seq (ResizeFile op1 k s1 r1 m1 t1) b1 v ->
  isDeferrableResize v (ResizeFile op2 k s2 r2 m2 t2) = true -> record_ok (ResizeFile op2 k s2 r2 m2 t2) ->
  applyTxn (ResizeFile op2 k s2 r2 m2 t2) None v = (v2, Ok tt) ->
  txnFrameBytes (ResizeFile op2 k s2 (mergeExtentRuns r1 r2) m2 t2) = Ok n ->
  exists bytes, commits sm seq (ResizeFile op2 k s2 (mergeExtentRuns r1 r2) m2 t2) bytes v2 /\ n = byteLength bytes /\
    isDeferrableResize sm (ResizeFile op2 k s2 (mergeExtentRuns r1 r2) m2 t2) = true.
Proof.
  intros Hsm Hq D1 [_ _ _ _ A1] D2 (Hk & Hs & _ & Hm & Ht) A2 Hn.
  pose proof (coalesce_applies sm v v2 op1 op2 k s1 r1 m1 t1 s2 r2 m2 t2 n Hsm D1 A1 D2 A2 Hn) as A.
  assert (Hv : Inv v) by (exact (applyTxn_Inv sm (ResizeFile op1 k s1 r1 m1 t1) None v Hsm I I A1)).
  destruct (deferred_grows _ _ _ _ _ _ _ _ Hsm D1 A1) as (f & req1 & a1 & p1 & G1 & -> & Hlt1 & _).
  destruct (deferred_grows _ _ _ _ _ _ _ _ Hv D2 A2) as (f2 & req2 & a2 & p2 & G2 & _ & Hlt2 & _).
  destruct (fileById_grown sm k s1 a1 m1 t1 p1 f (go_file _ _ _ _ _ _ _ _ _ G1)) as [i Hi].
  rewrite (go_file _ _ _ _ _ _ _ _ _ G2) in Hi. injection Hi as ->. cbn [file_size] in Hlt2.
  assert (D : isDeferrableResize sm (ResizeFile op2 k s2 (mergeExtentRuns r1 r2) m2 t2) = true).
  { pose proof (fileById_inode sm k f (go_file _ _ _ _ _ _ _ _ _ G1)) as [Hi1 Hk1].
    cbn in D2 |- *. destruct op2; [done|]. rewrite Hi1, Hk1. apply Z.ltb_lt. lia. }
  destruct (deferred_grows _ _ _ _ _ _ _ _ Hsm D A) as (f' & req & a & p & [_ _ _ _ Ha _ _] & _ & _ & _).
  apply validate_spec in Ha as (Ha%expandExtentRuns_Ok & _). destruct Ha as (_ & Hruns & Hlen).
  destruct (commits_intro sm seq (ResizeFile op2 k s2 (mergeExtentRuns r1 r2) m2 t2) n v2) as (bytes & Hc & Hb & _); [done|done| |done|done|done|by exists bytes].
  split; [done|]. split; [done|]. split; [|done]. split.
  - eapply Forall_impl; [exact Hruns|]. intros r (? & ? & ?). split; [done|lia].
  - rewrite (run_total_flat _ Hruns). destruct Hlen as [->|Hlen]; [done|exact Hlen].
Qed.

(** ** The log *)

Section Log.
Context {Wd : Type} `{DurablePort Wd}.
Implicit Types (h : Host Wd) (v : Vfs) (w : Wd).

(** The active metadata file: the base [base] of [s0], [n] committed frames that lead to [sm], and [t]. *)
Record on_disk (s0 : VfsState) (base log t : list Z) (sm : VfsState) (n : nat) (h : Host Wd) : Prop := {
  od_port : port_ok (h_world h);
  od_file : file (h_world h) (activeName (h_vfs h)) = base ++ log ++ t;
  od_base : Inv s0;
  od_log : committed s0 1 log sm n
}.

(** The resize that is still in memory takes the state on disk [sm] to the live state [s]. *)
Definition pending_on (sm : VfsState) (seq : Z) (pending : option PendingResizeCommit) (s : VfsState)
  (frame : list Z) (k : nat) : Prop :=
  match pending with
  | None => s = sm /\ frame = [] /\ k = 0%nat
  | Some p => commits sm seq (pr_record p) frame s /\ isDeferrableResize sm (pr_record p) = true /\
      pr_sequence p = seq /\ pr_frameBytes p = byteLength frame /\ k = 1%nat
  end.

(** An open store whose log accounts for its state. *)
Record Live (s0 : VfsState) (base log : list Z) (sm : VfsState) (n : nat) (frame : list Z) (k : nat) (h : Host Wd) : Prop := {
  lv_disk : on_disk s0 base log [] sm n h;
  lv_open : v_status (h_vfs h) = StatusOpen;
  lv_pending : pending_on sm (1 + Z.of_nat n) (v_pendingResizeCommit (h_vfs h)) (v_state (h_vfs h)) frame k;
  lv_end : om_activeLogEnd (v_store (h_vfs h)) = byteLength (base ++ log);
  lv_bytes : om_activeLogBytes (v_store (h_vfs h)) = byteLength (log ++ frame);
  lv_frames : om_activeLogFrames (v_store (h_vfs h)) = Z.of_nat (n + k);
  lv_sequence : om_nextSequence (v_store (h_vfs h)) = 1 + Z.of_nat (n + k);
  lv_max_bytes : byteLength (log ++ frame) <= MAX_ACTIVE_LOG_BYTES;
  lv_max_frames : Z.of_nat (n + k) <= MAX_ACTIVE_LOG_FRAMES;
  lv_settled : v_metadataDirtySinceFlush (h_vfs h) = false -> settled (h_world h) (activeName (h_vfs h))
}.

Definition live (s0 : VfsState) (base : list Z) (h : Host Wd) : Prop :=
  exists log sm n frame k, Live s0 base log sm n frame k h.

(** A store that failed after the state [s] was live: its log holds committed frames that lead to [s], to
    the state [sd] before the resize the store still has in memory or to the state after [record], and then at
    most a torn frame, or a frame whose record does not apply. *)
Definition broken_from (sd s0 : VfsState) (base : list Z) (record : option TxnRecord) (h : Host Wd) : Prop :=
  let s := v_state (h_vfs h) in
  v_status (h_vfs h) = StatusFailed /\ exists log t sm n, on_disk s0 base log t sm n h /\
    (sm = s \/
     (sm = sd /\ exists pending frame, v_pendingResizeCommit (h_vfs h) = Some pending /\
        commits sm (1 + Z.of_nat n) (pr_record pending) frame s) \/
     exists r, record = Some r /\ applyTxn r None s = (sm, Ok tt)) /\
    (torn t \/ exists r e, record = Some r /\ sm = s /\ applyTxn r None s = (s, Throw e) /\
                 encodeTxnFrame (mkFrame (generation s) (1 + Z.of_nat n) r) = Ok t) /\
    byteLength log <= MAX_ACTIVE_LOG_BYTES /\ Z.of_nat n <= MAX_ACTIVE_LOG_FRAMES.

Definition broken (s0 : VfsState) (base : list Z) (record : option TxnRecord) (h : Host Wd) : Prop :=
  exists sd, broken_from sd s0 base record h.

(** Nothing is left in memory once the log leads to the live state. *)
Lemma broken_from_state s0 base record h sd : broken_from (v_state (h_vfs h)) s0 base record h -> broken_from sd s0 base record h.
Proof.
  intros (Ho & log & t & sm & n & Hd & Hsm & H'). split; [done|]. exists log, t, sm, n. split; [done|]. split; [|done].
  destruct Hsm as [?|[[-> _]|?]]; [by left|by left|by right; right].
Qed.

Lemma broken_record sd s0 base record h : broken_from sd s0 base None h -> broken_from sd s0 base record h.
Proof.
  intros (Ho & log & t & sm & n & Hd & Hsm & Ht & Hm). split; [done|]. exists log, t, sm, n. split; [done|]. split; [|split; [|done]].
  - destruct Hsm as [?|[?|(r & ? & _)]]; [by left|by right; left|done].
  - destruct Ht as [?|(r & e' & ? & _)]; [by left|done].
Qed.

Lemma Live_Inv s0 base log sm n frame k h : Live s0 base log sm n frame k h -> Inv sm /\ Inv (v_state (h_vfs h)).
Proof.
  intros [[_ _ Hb Hl] _ Hp _ _ _ _ _ _ _]. pose proof (committed_Inv _ _ _ _ _ Hl Hb) as Hsm. split; [done|].
  unfold pending_on in Hp. destruct (v_pendingResizeCommit _); [|by destruct Hp as [-> _]].
  destruct Hp as [Hc _]. by destruct (commits_Inv _ _ _ _ _ Hsm Hc).
Qed.

(** [Live] looks at the world and at four fields of the store. *)
Definition same_log v v' : Prop :=
  v_store v' = v_store v /\ v_status v' = v_status v /\ v_pendingResizeCommit v' = v_pendingResizeCommit v /\
  v_metadataDirtySinceFlush v' = v_metadataDirtySinceFlush v.

Lemma same_log_refl v : same_log v v.
Proof. by repeat split. Qed.

Lemma Live_world s0 base log sm n frame k h h' : Live s0 base log sm n frame k h -> same_log (h_vfs h) (h_vfs h') ->
  port_ok (h_world h') -> file (h_world h') (activeName (h_vfs h)) = file (h_world h) (activeName (h_vfs h)) ->
  (settled (h_world h) (activeName (h_vfs h)) -> settled (h_world h') (activeName (h_vfs h))) ->
  Live s0 base log sm n frame k h'.
Proof.
  intros [[] ? ? ? ? ? ? ? ? ?] (Hs & Ho & Hp & Hd) Hok Hf Hset. unfold activeName, v_state in *.
  split; [split|..]; unfold activeName, v_state; rewrite ?Hs, ?Hf, ?Ho, ?Hp, ?Hd; auto.
Qed.

Lemma Live_same s0 base log sm n frame k h h' : Live s0 base log sm n frame k h ->
  h_world h' = h_world h -> same_log (h_vfs h) (h_vfs h') -> Live s0 base log sm n frame k h'.
Proof. intros L Hw Hs. apply (Live_world _ _ _ _ _ _ _ h); [done|done|rewrite Hw; apply L|by rewrite Hw|by rewrite Hw]. Qed.

(** Part of the next frame is a torn end. *)
Lemma torn_part s seq record bytes k : Inv s -> u64 seq -> record_ok record ->
  txnFrameBytes record = Ok (byteLength bytes) -> encodeTxnFrame (mkFrame (generation s) seq record) = Ok bytes ->
  take k bytes <> bytes -> torn (take k bytes).
Proof.
  intros Hs Hq Ho Hn He Hne. pose proof (c_generation s (inv_core s Hs)). right.
  exists (generation s), seq, record, bytes. split; [ll|]. split; [done|]. split; [done|]. split; [done|]. split; [done|].
  split; [apply prefix_take|done].
Qed.

(** *** Appending a frame *)

Lemma wp_appendFrame bytes h :
  port_ok (h_world h) -> v_status (h_vfs h) = StatusOpen ->
  om_activeLogEnd (v_store (h_vfs h)) = byteLength (file (h_world h) (activeName (h_vfs h))) ->
  wp (appendFrame bytes) (fun r h' =>
    port_ok (h_world h') /\ (forall f, f <> activeName (h_vfs h) -> file (h_world h') f = file (h_world h) f) /\
    (forall f, f <> activeName (h_vfs h) -> settled (h_world h) f -> settled (h_world h') f) /\
    exists k, (k <= length bytes)%nat /\
      file (h_world h') (activeName (h_vfs h)) = file (h_world h) (activeName (h_vfs h)) ++ take k bytes /\
      match r with
      | Ok _ => k = length bytes /\ h_vfs h' = (h_vfs h) {{ v_metadataDirtySinceFlush := true;
                                                           v_store -> om_activeLogEnd ::= fun e => e + byteLength bytes }}
      | Throw _ => exists e, h_vfs h' = poisoned e (h_vfs h)
      end) h.
Proof.
  intros Hok Hopen Hend. unfold appendFrame. apply wp_vfs, wp_catch.
  eapply (wp_seq _ _ (fun r h' => h_vfs h' = h_vfs h /\ (forall f, f <> activeName (h_vfs h) -> settled (h_world h) f -> settled (h_world h') f) /\
    write_outcome (activeName (h_vfs h)) (om_activeLogEnd (v_store (h_vfs h))) bytes (h_world h) (h_world h') r)).
  - apply wp_world, wp_intro. intros w' r Hr. split; [done|]. split; [|by eapply writeExact_outcome].
    intros f Hf. by eapply writeExact_keeps.
  - intros [] h' (Hv & Hset & Hok' & Hoth & _ & k & Hk & Hf & Hall). apply wp_modify. cbn. split; [done|]. split; [done|].
    split; [done|]. exists k. split; [done|]. rewrite Hv. split; [|by rewrite Hall].
    rewrite Hf, Hend. unfold byteLength. by rewrite Nat2Z.id, write_at_end.
  - intros e h' (Hv & Hset & Hok' & Hoth & _ & k & Hk & Hf & _). apply wp_failStore; [by rewrite Hv|]. cbn. split; [done|].
    split; [done|]. split; [done|]. exists k. split; [done|]. rewrite Hv. split; [|by exists e].
    rewrite Hf, Hend. unfold byteLength. by rewrite Nat2Z.id, write_at_end.
Qed.

(** *** Writing the pending resize *)

Lemma wp_materialize s0 base log sm n frame k h : Live s0 base log sm n frame k h ->
  wp materializePendingResize (fun r h' =>
    v_state (h_vfs h') = v_state (h_vfs h) /\
    match r with
    | Ok _ => Live s0 base (log ++ frame) (v_state (h_vfs h)) (n + k) [] 0 h'
    | Throw _ => broken_from sm s0 base None h'
    end) h.
Proof.
  intros L. pose proof (Live_Inv _ _ _ _ _ _ _ _ L) as [Ism Isv]. destruct L as [[Hok Hf Hb Hl] Hopen Hp He Hby Hfr Hsq Hmb Hmf Hset].
  unfold materializePendingResize. apply wp_vfs. unfold pending_on in Hp.
  destruct (v_pendingResizeCommit (h_vfs h)) as [p|] eqn:Ep.
  2:{ destruct Hp as (Hs & -> & ->). apply wp_ret. split; [done|]. rewrite !Nat.add_0_r in *. rewrite app_nil_r in *.
      split; rewrite ?Nat.add_0_r, ?app_nil_r; try done.
      - rewrite Hs. split; [done| |done|done]. by rewrite app_nil_r.
      - unfold pending_on. by rewrite Ep. }
  destruct Hp as (Hc & Hd & Hseq & Hlen & ->). destruct (commits_Inv _ _ _ _ _ Ism Hc) as [_ Hgen].
  apply (wp_bind_run _ _ _ _ h frame).
  { apply poisoning_Ok. rewrite st_bind_lift, Hgen, Hseq, (cm_encode _ _ _ _ _ Hc), st_bind_lift, Hlen.
    by rewrite (proj2 (Z.eqb_eq _ _)). }
  assert (Hu : u64 (1 + Z.of_nat n)) by ll.
  eapply wp_seq; [apply (wp_appendFrame frame h Hok Hopen); by rewrite He, Hf, app_nil_r| |].
  - intros [] h' (Hok' & _ & _ & k & _ & Hf' & -> & Hv). apply wp_modify. cbn [h_vfs h_world]. rewrite Hv. split; [done|].
    rewrite firstn_all, Hf, app_nil_r in Hf'.
    assert (Hc' : committed s0 1 (log ++ frame) (v_state (h_vfs h)) (n + 1)) by (rewrite Nat.add_1_r; by eapply committed_snoc).
    split; try done.
    + split; [done| |done|done]. cbn [h_vfs h_world]. rewrite app_nil_r. etransitivity; [exact Hf'|]. by rewrite app_assoc.
    + vsimpl. rewrite He. unfold byteLength. rewrite !length_app. lia.
    + vsimpl. by rewrite app_nil_r.
    + vsimpl. by rewrite Nat.add_0_r.
    + vsimpl. by rewrite Nat.add_0_r.
    + by rewrite app_nil_r.
    + by rewrite Nat.add_0_r.
  - intros e h' (Hok' & _ & _ & k & Hk & Hf' & e' & Hv). rewrite Hf, app_nil_r in Hf'. unfold broken_from. rewrite Hv. split; [done|].
    split; [done|]. destruct (decide (take k frame = frame)) as [Hall|Hpart].
    + rewrite Hall in Hf'. exists (log ++ frame), [], (v_state (h_vfs h)), (n + 1)%nat.
      split; [|split; [by left|split; [by left; left|done]]].
      split; [done| |done|rewrite Nat.add_1_r; by eapply committed_snoc]. rewrite Hv, app_nil_r, app_assoc. exact Hf'.
    + exists log, (take k frame), sm, n. split; [|split; [|split; [|split]]].
      * split; [done| |done|done]. rewrite Hv, app_assoc. exact Hf'.
      * right; left. split; [done|]. by exists p, frame.
      * left. destruct Hc. by apply (torn_part sm (1 + Z.of_nat n) (pr_record p) frame).
      * unfold byteLength in *. rewrite length_app in Hmb. lia.
      * lia.
Qed.
(** *** Preparing a commit *)

Definition materialized (v : Vfs) (record : TxnRecord) : TxnRecord :=
  match replacedPending v record with Some pending => mergedRecord pending record | None => record end.

(** What [preflightCommit] returns for [record] on the store [v]. *)
Record prepared_ok (v : Vfs) (record : TxnRecord) (pc : PreparedCommit) : Prop := {
  po_projection : prepareTxnProjection (v_state v) record = Ok (pc_projection pc);
  po_record : pc_materializedRecord pc = materialized v record;
  po_bytes : txnFrameBytes (materialized v record) = Ok (pc_frameBytes pc);
  po_defer : pc_deferResize pc = isDeferrableResize (v_state v) record;
  po_replaces : pc_replacesPendingResize pc = bool_decide (is_Some (replacedPending v record));
  po_frame : pc_deferResize pc = false -> exists frame, pc_frame pc = Some frame /\
    encodeTxnFrame (mkFrame (generation (v_state v)) (om_nextSequence (v_store v)) record) = Ok frame;
  po_frames : replacedPending v record = None -> om_activeLogFrames (v_store v) < MAX_ACTIVE_LOG_FRAMES;
  po_log : match replacedPending v record with
           | Some pending => om_activeLogBytes (v_store v) - pr_frameBytes pending + pc_frameBytes pc
           | None => om_activeLogBytes (v_store v) + pc_frameBytes pc
           end <= MAX_ACTIVE_LOG_BYTES
}.

Lemma replaced_defers v record pending : replacedPending v record = Some pending ->
  isDeferrableResize (v_state v) record = true /\ v_pendingResizeCommit v = Some pending.
Proof.
  unfold replacedPending. destruct (v_pendingResizeCommit v) as [p|]; [|done]. destruct record; try done.
  destruct (pr_record p); try done. destruct (_ && _) eqn:E; [|done]. intros [= ->]. by propify.
Qed.

Lemma wp_preflightCommit record h : v_status (h_vfs h) = StatusOpen ->
  wp (preflightCommit record) (fun r h' => h' = h /\
    match r with Ok pc => prepared_ok (h_vfs h) record pc | Throw _ => True end) h.
Proof.
  intros Ho. unfold preflightCommit. apply wp_assertOpen; [done|]. apply wp_vfs.
  apply wp_lift_bind; [|by split]. intros projection Hp. cbv zeta.
  apply wp_lift_bind; [|by split]. intros n Hn.
  apply wp_lift_bind; [|by split]. intros fr Hf.
  apply wp_lift_bind; [|by split]. intros u [Hu Hb%Z.ltb_ge]%throw_if_Ok%orb_false_iff. apply wp_ret. split; [done|].
  split; cbn; try done.
  - intros Hd. rewrite Hd in Hf. apply bind_Ok in Hf as (frame & Hf & [= <-]). exists frame. split; [done|].
    destruct (replacedPending (h_vfs h) record) as [p|] eqn:E; [|done]. apply replaced_defers in E as [E _]. congruence.
  - intros Hnone. rewrite Hnone, bool_decide_false in Hu by by intros [? ?]. by apply Z.leb_gt in Hu.
Qed.
(** *** The three ways to commit *)

Lemma applyToStore_run record projection h : prepareTxnProjection (v_state (h_vfs h)) record = Ok projection ->
  Inv (v_state (h_vfs h)) ->
  (exists s, applyTxn record None (v_state (h_vfs h)) = (s, Ok tt) /\
     applyToStore record projection h = (mkHost (h_world h) ((h_vfs h) {{ v_store -> om_state := s }}), Ok tt)) \/
  (exists e h', applyTxn record None (v_state (h_vfs h)) = (v_state (h_vfs h), Throw e) /\
     applyToStore record projection h = (h', Throw e) /\ h' = h).
Proof.
  intros Hp Hi. unfold applyToStore. rewrite (applyTxn_prepared _ _ _ Hp).
  destruct (applyTxn record None (v_state (h_vfs h))) as [s [[]|e]] eqn:E; [left; by exists s|].
  right. destruct (applyTxn_safe record None _ (inv_core _ Hi) s e E) as [-> _]. eexists e, _. split; [done|]. split; [done|].
  destruct h as [w [[] ? ? ? ? ? ? ? ?]]. reflexivity.
Qed.

Lemma broken_untouched s0 base log sm n frame k h e r : Live s0 base log sm n frame k h ->
  broken_from sm s0 base r (mkHost (h_world h) (poisoned e (h_vfs h))).
Proof.
  intros L. destruct L as [[Hok Hf Hb Hl] Hopen Hp He Hby Hfr Hsq Hmb Hmf Hset]. split; [done|].
  exists log, [], sm, n. split; [by split|]. split; [|split; [by left; left|]].
  - unfold pending_on in Hp. destruct (v_pendingResizeCommit (h_vfs h)) as [p|] eqn:Ep; [|left; symmetry; apply Hp].
    right; left. split; [done|]. exists p, frame. split; [exact Ep|apply Hp].
  - unfold byteLength in *. rewrite length_app in Hmb. lia.
Qed.

Lemma wp_scheduleRepack s0 base s h : live s0 base h -> v_state (h_vfs h) = s ->
  wp scheduleRepack (fun r h' => r = Ok tt /\ live s0 base h' /\ v_state (h_vfs h') = s) h.
Proof.
  intros (log & sm & n & frame & k & L) Hs. apply wp_modify. split; [done|]. split; [|exact Hs].
  exists log, sm, n, frame, k. by apply (Live_same _ _ _ _ _ _ _ h).
Qed.

(** The outcome of a commit of [record] on the live state [s], of which [sd] is on disk. *)
Definition commit_outcome (sd s0 : VfsState) (base : list Z) (record : TxnRecord) (s : VfsState) (r : R unit) (h : Host Wd) : Prop :=
  match r with
  | Ok _ => live s0 base h /\ applyTxn record None s = (v_state (h_vfs h), Ok tt)
  | Throw _ => broken_from sd s0 base (Some record) h /\ v_state (h_vfs h) = s
  end.

Lemma wp_commitDeferred s0 base log n record pc h :
  Live s0 base log (v_state (h_vfs h)) n [] 0 h -> record_ok record -> record_fits (v_state (h_vfs h)) record ->
  prepareTxnProjection (v_state (h_vfs h)) record = Ok (pc_projection pc) -> txnFrameBytes record = Ok (pc_frameBytes pc) ->
  pc_materializedRecord pc = record -> isDeferrableResize (v_state (h_vfs h)) record = true ->
  om_activeLogFrames (v_store (h_vfs h)) < MAX_ACTIVE_LOG_FRAMES ->
  om_activeLogBytes (v_store (h_vfs h)) + pc_frameBytes pc <= MAX_ACTIVE_LOG_BYTES ->
  wp (commitDeferred record pc) (commit_outcome (v_state (h_vfs h)) s0 base record (v_state (h_vfs h))) h.
Proof.
  intros L Ho Hfit Hproj Hn Hrec Hd Hframes Hbytes. pose proof (Live_Inv _ _ _ _ _ _ _ _ L) as [_ Hi].
  unfold commitDeferred.
  destruct (applyToStore_run record (pc_projection pc) h Hproj Hi) as [(s & Ha & Hrun)|(e & h' & Ha & Hrun & ->)].
  - apply (wp_bind_run _ _ _ _ _ tt (poisoning_Ok _ _ _ _ Hrun)). apply wp_modify_bind.
    eapply wp_conseq; [apply (wp_scheduleRepack s0 base s)|intros r h' (-> & ? & Hv); split; [done|by rewrite Hv]]; [|done].
    destruct L as [[Hok Hf Hb Hl] Hopen Hp He Hby Hfr Hsq Hmb Hmf Hset]. rewrite !Nat.add_0_r, !app_nil_r in *.
    destruct (commits_intro (v_state (h_vfs h)) (1 + Z.of_nat n) record (pc_frameBytes pc) s) as (bytes & Hc & Hlen & _); [done|ll|done..|].
    destruct (applyTxn_header _ _ _ Hi Hfit Ha) as [_ Hact].
    exists log, (v_state (h_vfs h)), n, bytes, 1%nat.
    assert (Hactive : forall v', om_state (v_store v') = s -> activeName v' = activeName (h_vfs h))
      by (intros v' Hv'; unfold activeName, v_state in *; by rewrite Hv', Hact).
    split; [|done| | | | | | | |].
    + split; [done| |done|done]. cbn [h_world h_vfs]. rewrite Hactive by done. by rewrite app_nil_r.
    + cbn [h_vfs]. unfold pending_on. cbn. rewrite Hrec. split; [exact Hc|]. split; [done|]. split; [exact Hsq|]. by rewrite Hlen.
    + exact He.
    + vsimpl. rewrite Hby, Hlen. unfold byteLength. rewrite length_app. lia.
    + vsimpl. rewrite Hfr. lia.
    + vsimpl. rewrite Hsq. lia.
    + rewrite Hby, Hlen in Hbytes. unfold byteLength in *. rewrite length_app. lia.
    + lia.
    + cbn [h_world h_vfs]. rewrite Hactive by done. exact Hset.
  - unfold poisoning. apply wp_bind, wp_catch. unfold wp at 1. rewrite Hrun. apply wp_poison; [apply L|].
    split; [|done]. by eapply broken_untouched.
Qed.
Lemma activeName_applied h s record : Inv (v_state (h_vfs h)) -> record_fits (v_state (h_vfs h)) record ->
  applyTxn record None (v_state (h_vfs h)) = (s, Ok tt) ->
  forall v', om_state (v_store v') = s -> activeName v' = activeName (h_vfs h).
Proof.
  intros Hi Hfit Ha v' Hv'. destruct (applyTxn_header _ _ _ Hi Hfit Ha) as [_ Hact].
  unfold activeName, v_state in *. by rewrite Hv', Hact.
Qed.

Lemma wp_commitReplacing s0 base log sm n frame k record pc pending h :
  Live s0 base log sm n frame k h -> record_ok record -> replacedPending (h_vfs h) record = Some pending ->
  prepared_ok (h_vfs h) record pc ->
  wp (commitReplacing record pc) (commit_outcome sm s0 base record (v_state (h_vfs h))) h.
Proof.
  intros L Ho Hrep [Hproj Hrec Hbytes Hdefer _ _ _ Hmax]. pose proof (Live_Inv _ _ _ _ _ _ _ _ L) as [Ism Hi].
  unfold commitReplacing. apply wp_vfs. rewrite Hrec. unfold materialized in *. rewrite Hrep in *.
  assert (Hfit : record_fits (v_state (h_vfs h)) record) by (unfold replacedPending in Hrep; destruct (v_pendingResizeCommit _), record; done).
  destruct (replaced_defers _ _ _ Hrep) as [Hd Hpend]. rewrite Hpend.
  unfold replacedPending in Hrep. rewrite Hpend in Hrep. destruct record as [| | | | |op2 i2 s2 r2 m2 t2| | | |]; try done.
  destruct (pr_record pending) as [| | | | |op1 i1 s1 r1 m1 t1| | | |] eqn:Erec; try done.
  destruct (_ && _) eqn:E in Hrep; [|done]. clear Hrep. apply andb_true_iff in E as [_ ->%Z.eqb_eq].
  unfold mergedRecord in *. rewrite Erec in *.
  destruct (applyToStore_run _ (pc_projection pc) h Hproj Hi) as [(s & Ha & Hrun)|(e & h' & Ha & Hrun & ->)].
  - apply (wp_bind_run _ _ _ _ _ tt (poisoning_Ok _ _ _ _ Hrun)). apply wp_modify_bind.
    eapply wp_conseq; [apply (wp_scheduleRepack s0 base s)|intros r h' (-> & ? & Hv); split; [done|by rewrite Hv]]; [|done].
    pose proof (activeName_applied h s _ Hi Hfit Ha) as Hactive.
    destruct L as [[Hok Hf Hb Hl] Hopen Hp He Hby Hfr Hsq Hmb Hmf Hset]. unfold pending_on in Hp. rewrite Hpend in Hp.
    destruct Hp as (Hc & Hdp & Hseq & Hlen & ->). rewrite Erec in *.
    destruct (merged_commits sm (1 + Z.of_nat n) op1 op2 i2 s1 r1 m1 t1 s2 r2 m2 t2 frame (v_state (h_vfs h)) s (pc_frameBytes pc))
      as (bytes & Hc' & Hlen' & Hd'); [done|ll|done..|].
    assert (Hnew : byteLength (log ++ bytes) = byteLength (log ++ frame) - byteLength frame + byteLength bytes)
      by (unfold byteLength; rewrite !length_app; lia).
    exists log, sm, n, bytes, 1%nat. split; [|done| | | | | | | |].
    + split; [done| |done|done]. cbn [h_world h_vfs]. by rewrite Hactive.
    + cbn [h_vfs]. unfold pending_on. cbn. split; [exact Hc'|]. split; [exact Hd'|]. by split.
    + exact He.
    + vsimpl. rewrite Hby, Hnew. lia.
    + exact Hfr.
    + exact Hsq.
    + rewrite Hnew. lia.
    + exact Hmf.
    + cbn [h_world h_vfs]. rewrite Hactive by done. exact Hset.
  - unfold poisoning. apply wp_bind, wp_catch. unfold wp at 1. rewrite Hrun. apply wp_poison; [apply L|].
    split; [|done]. by eapply broken_untouched.
Qed.
(** A record on disk behind the live state: it was appended whole or in part. *)
Lemma broken_appended s0 base log n record bytes h h' e k :
  Live s0 base log (v_state (h_vfs h)) n [] 0 h -> record_ok record -> record_fits (v_state (h_vfs h)) record ->
  txnFrameBytes record = Ok (byteLength bytes) ->
  encodeTxnFrame (mkFrame (generation (v_state (h_vfs h))) (1 + Z.of_nat n) record) = Ok bytes ->
  Z.of_nat n < MAX_ACTIVE_LOG_FRAMES -> byteLength log + byteLength bytes <= MAX_ACTIVE_LOG_BYTES ->
  port_ok (h_world h') -> file (h_world h') (activeName (h_vfs h)) = base ++ log ++ take k bytes ->
  v_state (h_vfs h') = v_state (h_vfs h) ->
  broken_from (v_state (h_vfs h)) s0 base (Some record) (mkHost (h_world h') (poisoned e (h_vfs h'))).
Proof.
  intros L Ho Hfit Hn He Hframes Hbytes Hok' Hf' Hst. pose proof (Live_Inv _ _ _ _ _ _ _ _ L) as [_ Hi].
  destruct L as [[Hok Hf Hb Hl] Hopen Hp Hend Hby Hfr Hsq Hmb Hmf Hset].
  assert (Hu : u64 (1 + Z.of_nat n)) by ll.
  assert (Hname : activeName (poisoned e (h_vfs h')) = activeName (h_vfs h))
    by (unfold activeName; change (v_state (poisoned e (h_vfs h'))) with (v_state (h_vfs h')); by rewrite Hst).
  assert (Hdisk : forall log' t' sm m, file (h_world h') (activeName (h_vfs h)) = base ++ log' ++ t' ->
    committed s0 1 log' sm m -> on_disk s0 base log' t' sm m (mkHost (h_world h') (poisoned e (h_vfs h')))).
  { intros log' t' sm m Hf1 Hc1. split; [done| |done|done]. cbn [h_world h_vfs]. by rewrite Hname. }
  split; [done|]. cbn [h_vfs]. change (v_state (poisoned e (h_vfs h'))) with (v_state (h_vfs h')). rewrite Hst.
  destruct (decide (take k bytes = bytes)) as [Hall|Hpart].
  - rewrite Hall in Hf'. destruct (applyTxn record None (v_state (h_vfs h))) as [s [[]|e']] eqn:Ha.
    + exists (log ++ bytes), [], s, (S n). split; [apply Hdisk; [by rewrite app_nil_r|]|].
      { eapply committed_snoc; [done|]. by split. }
      split; [right; right; by exists record|]. split; [by left; left|]. unfold byteLength in *. rewrite length_app. lia.
    + destruct (applyTxn_safe record None _ (inv_core _ Hi) s e' Ha) as [-> _].
      exists log, bytes, (v_state (h_vfs h)), n. split; [by apply Hdisk|]. split; [by left|].
      split; [right; by exists record, e'|]. unfold byteLength in *. lia.
  - exists log, (take k bytes), (v_state (h_vfs h)), n. split; [by apply Hdisk|]. split; [by left|].
    split; [left; by apply (torn_part (v_state (h_vfs h)) (1 + Z.of_nat n) record)|]. unfold byteLength in *. lia.
Qed.

Lemma wp_commitImmediate s0 base log n record pc frame h :
  Live s0 base log (v_state (h_vfs h)) n [] 0 h -> record_ok record -> record_fits (v_state (h_vfs h)) record ->
  prepareTxnProjection (v_state (h_vfs h)) record = Ok (pc_projection pc) -> txnFrameBytes record = Ok (pc_frameBytes pc) ->
  pc_frame pc = Some frame ->
  encodeTxnFrame (mkFrame (generation (v_state (h_vfs h))) (om_nextSequence (v_store (h_vfs h))) record) = Ok frame ->
  om_activeLogFrames (v_store (h_vfs h)) < MAX_ACTIVE_LOG_FRAMES ->
  om_activeLogBytes (v_store (h_vfs h)) + pc_frameBytes pc <= MAX_ACTIVE_LOG_BYTES ->
  wp (commitImmediate record pc) (commit_outcome (v_state (h_vfs h)) s0 base record (v_state (h_vfs h))) h.
Proof.
  intros L Ho Hfit Hproj Hn Hframe He Hframes Hbytes. pose proof (Live_Inv _ _ _ _ _ _ _ _ L) as [_ Hi].
  pose proof L as [[Hok Hf Hb Hl] Hopen Hp Hend Hby Hfr Hsq Hmb Hmf Hset]. rewrite !Nat.add_0_r, !app_nil_r in *.
  rewrite Hsq in He. rewrite Hfr, Hby in *. assert (Hu : u64 (1 + Z.of_nat n)) by ll.
  assert (Hlen : pc_frameBytes pc = byteLength frame).
  { pose proof (c_generation _ (inv_core _ Hi)).
    destruct (encodeTxnFrame_run (generation (v_state (h_vfs h))) (1 + Z.of_nat n) record (pc_frameBytes pc) Ho) as (payload & He' & _ & _ & Hl' & _); [ll|done|done|].
    rewrite He in He'. injection He' as ->. exact Hl'. }
  rewrite Hlen in *. unfold commitImmediate. rewrite Hframe.
  eapply wp_seq; [apply (wp_appendFrame frame h Hok Hopen); by rewrite Hend, Hf| |].
  - intros [] h1 (Hok1 & _ & _ & k & _ & Hf1 & -> & Hv1). rewrite firstn_all, Hf, <- app_assoc in Hf1.
    assert (Hst : v_state (h_vfs h1) = v_state (h_vfs h)) by (by rewrite Hv1).
    destruct (applyToStore_run record (pc_projection pc) h1) as [(s & Ha & Hrun)|(e & h' & Ha & Hrun & ->)]; [by rewrite Hst..| |]; rewrite Hst in Ha.
    + apply (wp_bind_run _ _ _ _ _ tt (poisoning_Ok _ _ _ _ Hrun)). apply wp_modify_bind.
      eapply wp_conseq; [apply (wp_scheduleRepack s0 base s)|intros r h' (-> & ? & Hv); split; [done|by rewrite Hv]]; [|done].
      pose proof (activeName_applied h s _ Hi Hfit Ha) as Hactive. cbn [h_vfs h_world]. rewrite Hv1.
      exists (log ++ frame), s, (S n), [], 0%nat. split; rewrite ?app_nil_r, ?Nat.add_0_r.
      * split; [done| |done|eapply committed_snoc; [done|by split]]. cbn [h_world h_vfs].
        rewrite Hactive, Hf1, app_nil_r by done. done.
      * exact Hopen.
      * cbn [h_vfs]. unfold pending_on in *. vsimpl. destruct (v_pendingResizeCommit (h_vfs h)); [|done].
        by destruct Hp as (_ & _ & _ & _ & ?).
      * vsimpl. rewrite Hend. unfold byteLength. rewrite !length_app. lia.
      * vsimpl. rewrite Hby, Hlen. unfold byteLength. rewrite !length_app. lia.
      * vsimpl. rewrite Hfr. lia.
      * vsimpl. rewrite Hsq. lia.
      * unfold byteLength in *. rewrite length_app. lia.
      * lia.
      * done.
    + unfold poisoning. apply wp_bind, wp_catch. unfold wp at 1. rewrite Hrun. apply wp_poison; [by rewrite Hv1|].
      split; [|by rewrite <- Hst]. eapply (broken_appended s0 base log n record frame h h1 e (length frame)); try done.
      rewrite firstn_all. by rewrite Hf1.
  - intros e h1 (Hok1 & _ & _ & k & Hk & Hf1 & e' & Hv1). split; [|by rewrite Hv1].
    destruct h1 as [w1 v1]. cbn [h_vfs h_world] in *. subst v1.
    apply (broken_appended s0 base log n record frame h (mkHost w1 (h_vfs h)) e' k); try done.
    cbn [h_world]. by rewrite Hf1, Hf, <- app_assoc.
Qed.
(** *** Every commit *)

Lemma wp_prepared s0 base log sm n frame k record pc h : Live s0 base log sm n frame k h -> record_ok record -> record_fits (v_state (h_vfs h)) record ->
  prepared_ok (h_vfs h) record pc ->
  wp (if pc_replacesPendingResize pc then commitReplacing record pc
      else materializePendingResize ≫= fun _ =>
           if pc_deferResize pc && is_resize (pc_materializedRecord pc) then commitDeferred record pc
           else commitImmediate record pc)
    (commit_outcome sm s0 base record (v_state (h_vfs h))) h.
Proof.
  intros L Ho Hfit P. pose proof P as [Hproj Hrec Hbytes Hdefer Hreps Hframe Hframes Hmax].
  rewrite Hreps. destruct (replacedPending (h_vfs h) record) as [pending|] eqn:Hrep.
  { rewrite bool_decide_true by by eexists. by eapply wp_commitReplacing. }
  rewrite bool_decide_false by by intros [? ?]. unfold materialized in *. rewrite Hrep in *. specialize (Hframes eq_refl).
  eapply wp_seq; [exact (wp_materialize _ _ _ _ _ _ _ _ L)| |].
  2:{ intros e h1 [Hs1 Hb]. split; [by apply broken_record|done]. }
  intros [] h1 [Hs1 L1]. rewrite <- Hs1 in L1, Hfit, Hproj, Hdefer, Hframe |- *.
  assert (Hb1 : om_activeLogBytes (v_store (h_vfs h1)) = om_activeLogBytes (v_store (h_vfs h)))
    by (rewrite (lv_bytes _ _ _ _ _ _ _ _ L1), (lv_bytes _ _ _ _ _ _ _ _ L); by rewrite app_nil_r).
  assert (Hf1 : om_activeLogFrames (v_store (h_vfs h1)) = om_activeLogFrames (v_store (h_vfs h)))
    by (rewrite (lv_frames _ _ _ _ _ _ _ _ L1), (lv_frames _ _ _ _ _ _ _ _ L); by rewrite Nat.add_0_r).
  assert (Hq1 : om_nextSequence (v_store (h_vfs h1)) = om_nextSequence (v_store (h_vfs h)))
    by (rewrite (lv_sequence _ _ _ _ _ _ _ _ L1), (lv_sequence _ _ _ _ _ _ _ _ L); by rewrite Nat.add_0_r).
  assert (Hdone : forall r h', commit_outcome (v_state (h_vfs h1)) s0 base record (v_state (h_vfs h1)) r h' ->
    commit_outcome sm s0 base record (v_state (h_vfs h1)) r h').
  { intros [[]|e] h'; [done|]. intros [B Hs]. split; [|done]. apply broken_from_state. by rewrite Hs. }
  destruct (pc_deferResize pc && is_resize (pc_materializedRecord pc)) eqn:Ed; (eapply wp_conseq; [|exact Hdone]).
  - apply andb_true_iff in Ed as [Ed _]. eapply wp_commitDeferred; [done|done|done|done|done|done| |lia|lia]. by rewrite <- Hdefer.
  - assert (Hnd : pc_deferResize pc = false).
    { rewrite Hrec, Hdefer in Ed. destruct (isDeferrableResize (v_state (h_vfs h1)) record) eqn:E; [|by rewrite Hdefer].
      by destruct record. }
    destruct (Hframe Hnd) as (fr & Hfr & He). rewrite <- Hq1 in He. eapply wp_commitImmediate; done || lia.
Qed.

Lemma wp_commit_from s0 base log sm n frame k record prepared h : Live s0 base log sm n frame k h -> record_ok record ->
  record_fits (v_state (h_vfs h)) record -> (forall pc, prepared = Some pc -> prepared_ok (h_vfs h) record pc) ->
  wp (commit record prepared) (fun r h' => commit_outcome sm s0 base record (v_state (h_vfs h)) r h' \/
                                           prepared = None /\ h' = h /\ exists e, r = Throw e) h.
Proof.
  intros L Ho Hfit Hp. unfold commit. apply wp_assertOpen; [apply L|]. destruct prepared as [pc|].
  - apply (wp_bind_run (mret pc) _ _ h h pc eq_refl). eapply wp_conseq; [apply (wp_prepared _ _ _ _ _ _ _ record pc h L); auto|]. intros r h1 Hr. by left.
  - eapply wp_seq; [apply (wp_preflightCommit record h), L| |].
    + intros pc h1 [-> P]. eapply wp_conseq; [by apply (wp_prepared _ _ _ _ _ _ _ record pc h L)|]. intros r h2 Hr. by left.
    + intros e h1 [-> _]. right. eauto.
Qed.

Lemma wp_commit s0 base record prepared h : live s0 base h -> record_ok record -> record_fits (v_state (h_vfs h)) record ->
  (forall pc, prepared = Some pc -> prepared_ok (h_vfs h) record pc) ->
  wp (commit record prepared) (fun r h' => (exists sd, commit_outcome sd s0 base record (v_state (h_vfs h)) r h') \/
                                           prepared = None /\ h' = h /\ exists e, r = Throw e) h.
Proof.
  intros (log & sm & n & frame & k & L) Ho Hfit Hp.
  eapply wp_conseq; [by apply (wp_commit_from _ _ _ _ _ _ _ record prepared h L)|]. intros r h1 [?|?]; [left; by exists sm|by right].
Qed.

(** *** Synchronisation *)

Lemma wp_flushFile s0 base log sm n frame k name kind h : Live s0 base log sm n frame k h ->
  wp (flushFile name kind) (fun r h' => Live s0 base log sm n frame k h' /\ same_log (h_vfs h) (h_vfs h') /\
    (r = Ok tt -> settled (h_world h') name) /\ (forall f, file (h_world h') f = file (h_world h) f) /\
    forall f, settled (h_world h) f -> settled (h_world h') f) h.
Proof.
  intros L. pose proof (od_port _ _ _ _ _ _ _ (lv_disk _ _ _ _ _ _ _ _ L)) as Hok.
  unfold flushFile. apply wp_modify_bind, wp_world, wp_intro. intros w' r Hr. cbn [h_world h_vfs] in *.
  destruct (flush_law _ _ _ _ Hok Hr) as (Hok' & _ & Hf). split; [|split; [done|]].
  - apply (Live_world _ _ _ _ _ _ _ h); [done|done|done|apply Hf|]. intros Hs. exact (flush_keeps _ _ _ _ _ Hok Hr Hs).
  - split; [intros ->; exact (flush_settles _ _ _ Hok Hr)|]. split; [exact Hf|].
    intros f. exact (flush_keeps _ _ _ _ _ Hok Hr).
Qed.

Definition synchronised (s0 : VfsState) (base : list Z) (s : VfsState) (h : Host Wd) : Prop :=
  exists log n, Live s0 base log s n [] 0 h /\ v_state (h_vfs h) = s /\ settled (h_world h) (activeName (h_vfs h)).

Lemma wp_strictSync s0 base h : live s0 base h ->
  wp strictSync (fun r h' => match r with
                             | Ok _ => synchronised s0 base (v_state (h_vfs h)) h'
                             | Throw _ => broken s0 base None h' /\ v_state (h_vfs h') = v_state (h_vfs h)
                             end) h.
Proof.
  intros (log & sm & n & frame & k & L). unfold strictSync. apply wp_assertOpen; [apply L|]. apply wp_poisoning, wp_vfs.
  eapply (wp_seq _ _ (fun _ h1 => Live s0 base log sm n frame k h1 /\ same_log (h_vfs h) (h_vfs h1))).
  { apply wp_when; [intros _|by split]. eapply wp_conseq; [apply (wp_flushFile _ _ _ _ _ _ _ ArenaBin FlushArena h L)|]. by intros ? ? (? & ? & _). }
  2:{ intros e h1 [L1 (Hs & _)]. left. split; [apply L1|]. split; [eexists; by eapply broken_untouched|].
      change (v_state (h_vfs h1) = v_state (h_vfs h)). unfold v_state. by rewrite Hs. }
  intros [] h1 [L1 (Hs1 & _)]. assert (Hst : v_state (h_vfs h1) = v_state (h_vfs h)) by (unfold v_state; by rewrite Hs1).
  eapply wp_seq; [exact (wp_materialize _ _ _ _ _ _ _ _ L1)| |].
  2:{ intros e h2 [Hs2 B]. right. split; [by rewrite (proj1 B)|]. split; [by eexists|by rewrite Hs2]. }
  intros [] h2 [Hs2 L2]. rewrite <- Hs2 in L2. apply wp_vfs.
  eapply (wp_seq _ _ (fun r h3 => Live s0 base (log ++ frame) (v_state (h_vfs h2)) (n + k) [] 0 h3 /\ same_log (h_vfs h2) (h_vfs h3) /\
    (r = Ok tt -> settled (h_world h3) (activeName (h_vfs h2))))).
  { apply wp_when; [intros _; eapply wp_conseq; [by apply wp_flushFile|]; intros r h3 (? & ? & ? & _); done|]. intros Hd. split; [done|]. split; [done|]. intros _. by apply L2. }
  - intros [] h3 (L3 & (Hs3 & Ho3 & Hp3 & Hd3) & Hset). specialize (Hset eq_refl). apply wp_modify_bind, wp_modify. cbn [h_world h_vfs].
    exists (log ++ frame), (n + k)%nat. unfold cleanArena.
    assert (Hst3 : v_state (h_vfs h3) = v_state (h_vfs h)) by (rewrite <- Hst, <- Hs2; unfold v_state; by rewrite Hs3).
    assert (Hname : activeName (h_vfs h3) = activeName (h_vfs h2)) by (unfold activeName, v_state; by rewrite Hs3).
    rewrite <- Hname in Hset. rewrite Hs2, Hst in L3. split; [|split; [exact Hst3|exact Hset]].
    destruct L3 as [[Hok Hf Hb Hl] Hopen Hp He Hby Hfr Hsq Hmb Hmf _].
    split; [by split|exact Hopen|exact Hp|exact He|exact Hby|exact Hfr|exact Hsq|exact Hmb|exact Hmf|by intros _].
  - intros e h3 (L3 & (Hs3 & _) & _). left. split; [apply L3|]. split; [eexists; by eapply broken_untouched|].
    change (v_state (h_vfs h3) = v_state (h_vfs h)). rewrite <- Hst, <- Hs2. unfold v_state. by rewrite Hs3.
Qed.
End Log.
