(* ===== verification/CommitProps.v ===== *)
(** * The commit protocol: the properties

    Commits keep the log in step with the state, a synchronised store survives a crash, a failed commit is
    recoverable, and coalesced resizes are the resizes they stand for. *)

From S2P Require Export CommitLaws.

#[local] Existing Instance example_port.
#[local] Existing Instance example_lawful.
#[local] Instance example_durable : DurablePort MemoryWorld := memory_durable id [].

(** C4. Every commit keeps the log in step with the state. From a live store, a commit that returns leaves a
    live store whose state is the one [applyTxn] gives; one that throws leaves the store exactly as it was,
    or failed, with the state unchanged and a log that holds committed frames and at most one torn or
    inapplicable frame. *)
Theorem commit_keeps_log (Wd : Type) (port : RepackedPort Wd) (lawful : LawfulPort Wd) (durable : DurablePort Wd)
  (s0 : VfsState) (base : list Z) (record : TxnRecord) (prepared : option PreparedCommit) (h h' : Host Wd) (r : R unit)
  (Hlive : live s0 base h) (Hrecord : record_ok record) (Hfits : record_fits (v_state (h_vfs h)) record)
  (Hprepared : forall pc, prepared = Some pc -> prepared_ok (h_vfs h) record pc)
  (Hrun : commit record prepared h = (h', r)) :
  match r with
  | Ok _ => live s0 base h' /\ applyTxn record None (v_state (h_vfs h)) = (v_state (h_vfs h'), Ok tt)
  | Throw _ => h' = h \/ broken s0 base (Some record) h' /\ v_state (h_vfs h') = v_state (h_vfs h)
  end.
Proof.
  pose proof (wp_run _ _ _ _ _ (wp_commit s0 base record prepared h Hlive Hrecord Hfits Hprepared) Hrun) as H.
  destruct H as [[sd H]|(_ & Hh & e' & ->)]; [|by left]. destruct r as [[]|e]; [done|]. destruct H as [H Hs]. right. split; [by exists sd|done].
Qed.

(** C7. What was synchronised survives a crash. From a live store, when [strictSync] returns, any crash of the
    port leaves a metadata file whose replay gives exactly the live state, to the last byte of the file. *)
Theorem strictSync_durable (Wd : Type) (port : RepackedPort Wd) (lawful : LawfulPort Wd) (durable : DurablePort Wd)
  (good : Wd -> Prop) (s0 : VfsState) (base : list Z) (h h' : Host Wd) (w : Wd)
  (Hlive : live s0 base h) (Hsync : strictSync h = (h', Ok tt)) (Hcrash : crash (h_world h') w)
  (Hreadable : readable good) (Hgood : good w) (Hok : port_ok w)
  (Hsafe : byteLength (file w (activeName (h_vfs h))) <= MAX_SAFE_INTEGER) :
  exists w' result,
    replayLog (activeName (h_vfs h)) (byteLength (file w (activeName (h_vfs h)))) s0 (byteLength base) w = (w', Ok result) /\
    rp_state result = v_state (h_vfs h) /\ v_state (h_vfs h') = v_state (h_vfs h) /\
    rp_validEnd result = byteLength (file w (activeName (h_vfs h))).
Proof.
  pose proof (wp_run _ _ _ _ _ (wp_strictSync s0 base h Hlive) Hsync) as (log & n & L & Hs & Hset).
  assert (Hname : activeName (h_vfs h') = activeName (h_vfs h)) by (unfold activeName; by rewrite Hs).
  destruct L as [[Hok' Hf Hb Hl] _ _ _ _ _ _ Hmb Hmf _]. rewrite Hname in *. rewrite app_nil_r in *. rewrite Nat.add_0_r in Hmf.
  pose proof (crash_settled _ _ _ Hok' Hcrash Hset) as Hfile. rewrite Hf in Hfile.
  destruct (replayLog_run good (activeName (h_vfs h)) base log [] w s0 (v_state (h_vfs h)) n) as (w' & Hr & _);
    try done; [by left|by rewrite app_nil_r|].
  eexists w', _. split; [exact Hr|]. split; [done|]. split; [done|]. cbn. rewrite Hfile. unfold byteLength. rewrite length_app. lia.
Qed.

(** C21. A failed commit is recoverable. When a commit of an applicable record fails a store whose log on disk
    leads to the state [disk], the replay of the file it leaves gives the live state, the state after the record,
    or [disk] where a resize was still in memory, which is the resize that takes [disk] to the live state. No
    other state is recovered. *)
Theorem failed_commit_recovers (Wd : Type) (port : RepackedPort Wd) (lawful : LawfulPort Wd) (durable : DurablePort Wd)
  (good : Wd -> Prop) (s0 : VfsState) (base log : list Z) (disk : VfsState) (n : nat) (frame : list Z) (k : nat)
  (record : TxnRecord) (h h' : Host Wd) (e : error) (s' : VfsState)
  (Hlive : Live s0 base log disk n frame k h) (Hrecord : record_ok record) (Hfits : record_fits (v_state (h_vfs h)) record)
  (Happlies : applyTxn record None (v_state (h_vfs h)) = (s', Ok tt))
  (Hrun : commit record None h = (h', Throw e)) (Hfailed : v_status (h_vfs h') = StatusFailed)
  (Hreadable : readable good) (Hgood : good (h_world h'))
  (Hsafe : byteLength (file (h_world h') (activeName (h_vfs h))) <= MAX_SAFE_INTEGER) :
  exists w' result,
    replayLog (activeName (h_vfs h)) (byteLength (file (h_world h') (activeName (h_vfs h)))) s0 (byteLength base) (h_world h')
      = (w', Ok result) /\
    (rp_state result = v_state (h_vfs h) \/ rp_state result = s' \/
     exists pending, v_pendingResizeCommit (h_vfs h) = Some pending /\
       applyTxn (pr_record pending) None disk = (v_state (h_vfs h), Ok tt) /\ rp_state result = disk).
Proof.
  pose proof (wp_run _ _ _ _ _ (wp_commit_from _ _ _ _ _ _ _ record None h Hlive Hrecord Hfits ltac:(done)) Hrun) as H.
  destruct H as [[B Hs]|(_ & -> & _)]; [|by rewrite (lv_open _ _ _ _ _ _ _ _ Hlive) in Hfailed].
  destruct B as (_ & log' & t & sm & m & [Hok Hf Hb Hl] & Hsm & Ht & Hmb & Hmf).
  assert (Hname : activeName (h_vfs h') = activeName (h_vfs h)) by (unfold activeName; by rewrite Hs).
  rewrite Hs in *. rewrite Hname in Hf.
  destruct (replayLog_run good (activeName (h_vfs h)) base log' t (h_world h') s0 sm m) as (w' & Hr & _); try done.
  { destruct Ht as [?|(r & e' & [= <-] & _ & Ha & _)]; [done|congruence]. }
  eexists w', _. split; [exact Hr|]. cbn [rp_state replayed].
  destruct Hsm as [?|[(-> & _)|(r & [= <-] & Ha)]]; [by left| |right; left; congruence].
  pose proof (lv_pending _ _ _ _ _ _ _ _ Hlive) as Hp. unfold pending_on in Hp.
  destruct (v_pendingResizeCommit (h_vfs h)) as [p|]; [|left; symmetry; apply Hp].
  right; right. exists p. split; [done|]. split; [|done]. apply (cm_apply _ _ _ _ _ (proj1 Hp)).
Qed.

(** C23. Coalescing is transparent. A deferred resize of a file followed by another one, and the single resize
    the store merges them into, lead to the same state; the merged record commits wherever the first did. *)
Theorem resizes_coalesce (s v v2 : VfsState) (k s1 m1 t1 s2 m2 t2 n : Z) (r1 r2 : list ExtentRun)
  (Hinv : Inv s)
  (Hdefer1 : isDeferrableResize s (ResizeFile OpWrite k s1 r1 m1 t1) = true)
  (Hfirst : applyTxn (ResizeFile OpWrite k s1 r1 m1 t1) None s = (v, Ok tt))
  (Hdefer2 : isDeferrableResize v (ResizeFile OpWrite k s2 r2 m2 t2) = true)
  (Hsecond : applyTxn (ResizeFile OpWrite k s2 r2 m2 t2) None v = (v2, Ok tt))
  (Hbytes : txnFrameBytes (ResizeFile OpWrite k s2 (mergeExtentRuns r1 r2) m2 t2) = Ok n) :
  applyTxn (ResizeFile OpWrite k s2 (mergeExtentRuns r1 r2) m2 t2) None s = (v2, Ok tt).
Proof. by eapply coalesce_applies. Qed.

(** ** The witnesses: a store with an empty log on the in-memory port *)

Definition host_world : MemoryWorld :=
  run_world (write MetadataABin example_base 0) (run_world (acquire MetadataABin) (mkMemoryWorld newMemoryPort ∅)).

Definition host : Host MemoryWorld :=
  mkHost host_world (newVfs (mkOpened example_store (byteLength example_base) 1 0 0 1 0 ARENA_HEADER_BYTES false true) 0).

Definition step {A} (m : M (Host MemoryWorld) A) (h : Host MemoryWorld) : Host MemoryWorld := (m h).1.

Lemma host_world_ok : MemInv (mw_port host_world).
Proof.
  assert (E : mw_port host_world = history id [CallAcquire MetadataABin []; CallWrite MetadataABin example_base 0 []])
    by (vm_compute; reflexivity).
  rewrite E. apply history_inv.
Qed.

Lemma host_live : live example_store example_base host.
Proof.
  exists [], example_store, 0%nat, [], 0%nat. split.
  - split; [exact host_world_ok|vm_compute; reflexivity|exact example_store_Inv|apply committed_nil].
  - reflexivity.
  - split; [reflexivity|]. split; reflexivity.
  - vm_compute. reflexivity.
  - reflexivity.
  - reflexivity.
  - reflexivity.
  - vm_compute. discriminate.
  - vm_compute. discriminate.
  - discriminate.
Qed.

Definition created : Host MemoryWorld := Eval vm_compute in step (commit first_record None) host.

Lemma commit_keeps_log_witness :
  live example_store example_base created /\
  applyTxn first_record None (v_state (h_vfs host)) = (v_state (h_vfs created), Ok tt).
Proof.
  apply (commit_keeps_log MemoryWorld example_port example_lawful example_durable example_store example_base first_record None
           host created (Ok tt) host_live).
  - exact (cm_ok _ _ _ _ _ first_record_commits).
  - exact example_record_fits.
  - discriminate.
  - vm_compute. reflexivity.
Defined.

Lemma created_live : live example_store example_base created.
Proof.
  assert (E : commit first_record None host = (created, Ok tt)) by (vm_compute; reflexivity).
  pose proof (wp_run _ _ _ _ _ (wp_commit _ _ first_record None host host_live (cm_ok _ _ _ _ _ first_record_commits)
    example_record_fits ltac:(done)) E) as [(sd & H & _)|(_ & _ & e & H)]; done.
Qed.

Definition synced : Host MemoryWorld := Eval vm_compute in step strictSync created.
Definition after_crash : MemoryWorld := run_world (memory_open MetadataABin [])
  (mkMemoryWorld (terminate cut_short (mw_port (h_world synced))).1 ∅).

Lemma after_crash_history : mw_port after_crash = history id
  [CallAcquire MetadataABin []; CallWrite MetadataABin example_base 0 []; CallWrite MetadataABin first_frame 3 []; CallFlush MetadataABin []; CallTerminate cut_short; CallAcquire MetadataABin []].
Proof. vm_compute. reflexivity. Qed.

Lemma after_crash_ok : MemInv (mw_port after_crash).
Proof. rewrite after_crash_history. apply history_inv. Qed.

Lemma after_crash_good : fault_free after_crash.
Proof.
  split; [vm_compute; reflexivity|]. intros name Hn. destruct name.
  - vm_compute in Hn. by destruct Hn.
  - exists (mkHandle 2 false). vm_compute. done.
  - vm_compute in Hn. by destruct Hn.
  - vm_compute in Hn. by destruct Hn.
Qed.

Lemma strictSync_durable_witness :
  exists w' result,
    replayLog (activeName (h_vfs created)) (byteLength (file after_crash (activeName (h_vfs created)))) example_store
      (byteLength example_base) after_crash = (w', Ok result) /\
    rp_state result = v_state (h_vfs created) /\ v_state (h_vfs synced) = v_state (h_vfs created) /\
    rp_validEnd result = byteLength (file after_crash (activeName (h_vfs created))).
Proof.
  apply (strictSync_durable MemoryWorld example_port example_lawful example_durable fault_free example_store example_base
           created synced after_crash created_live).
  - vm_compute. reflexivity.
  - split; [exact after_crash_ok|]. split; [vm_compute; reflexivity|]. exists cut_short, (terminate cut_short (mw_port (h_world synced))).1.
    split; [vm_compute; reflexivity|]. intros name. destruct name; vm_compute; reflexivity.
  - exact fault_free_readable.
  - exact after_crash_good.
  - exact after_crash_ok.
  - vm_compute. discriminate.
Defined.

Lemma memory_settled (w w' : MemoryWorld) f : effects (mw_port w') = effects (mw_port w) -> settled w f -> settled w' f.
Proof. intros E Hs. change (effects_of f (effects (mw_port w')) = []). by rewrite E. Qed.

(** A file grows, which the store keeps in memory; the next commit meets a port that stores twenty bytes of the
    resize's frame and then throws. *)
Definition grown_record : TxnRecord := ResizeFile OpWrite 2 12000 [] 6000 6001.
Definition grown : Host MemoryWorld := Eval vm_compute in step (commit grown_record None) created.
Definition grown_frame : list Z := Eval vm_compute in frame_at first_state 2 grown_record.
Definition write_faults : list MemoryFault :=
  [mkFault OpWriteFile Short None None (Some 20) None; mkFault OpWriteFile ThrowBefore None None None None].
Definition faulted : Host MemoryWorld :=
  mkHost (foldl (fun w fault => run_world (on_port (injectFault fault)) w) (h_world grown) write_faults) (h_vfs grown).
Definition failed : Host MemoryWorld := Eval vm_compute in step (commit second_record None) faulted.

Lemma faulted_ok : MemInv (mw_port (h_world faulted)).
Proof.
  destruct created_live as (? & ? & ? & ? & ? & [[Hok _ _ _] _ _ _ _ _ _ _ _ _]).
  assert (E : mw_port (h_world faulted) = foldl (fun p f => (injectFault f p).1) (mw_port (h_world created)) write_faults)
    by (vm_compute; reflexivity).
  rewrite E. cbn [foldl write_faults]. by repeat apply keeps_injectFault.
Qed.

Lemma faulted_live : Live example_store example_base first_frame first_state 1 grown_frame 1 faulted.
Proof.
  split.
  - split; [exact faulted_ok|vm_compute; reflexivity|exact example_store_Inv|exact first_log_committed].
  - vm_compute. reflexivity.
  - change (v_pendingResizeCommit (h_vfs faulted)) with (Some (mkPending grown_record (byteLength grown_frame) 2)).
    split; [|split; [vm_compute; reflexivity|by split]].
    split; [|exact I|vm_compute; reflexivity..].
    split; [ll|]. split; [ll|]. split; [by split; [constructor|vm_compute; discriminate]|]. split; ll.
  - vm_compute. reflexivity.
  - vm_compute. reflexivity.
  - vm_compute. reflexivity.
  - vm_compute. reflexivity.
  - vm_compute. discriminate.
  - vm_compute. discriminate.
  - intros Hd. vm_compute in Hd. discriminate Hd.
Qed.

Lemma failed_good : fault_free (h_world failed).
Proof.
  split; [vm_compute; reflexivity|]. intros name Hn. destruct name.
  - vm_compute in Hn. by destruct Hn.
  - exists (mkHandle 1 false). vm_compute. done.
  - vm_compute in Hn. by destruct Hn.
  - vm_compute in Hn. by destruct Hn.
Qed.

Lemma failed_commit_recovers_witness :
  exists w' result,
    replayLog (activeName (h_vfs faulted)) (byteLength (file (h_world failed) (activeName (h_vfs faulted)))) example_store
      (byteLength example_base) (h_world failed) = (w', Ok result) /\
    (rp_state result = v_state (h_vfs faulted) \/ rp_state result = after second_record (v_state (h_vfs faulted)) \/
     exists pending, v_pendingResizeCommit (h_vfs faulted) = Some pending /\
       applyTxn (pr_record pending) None first_state = (v_state (h_vfs faulted), Ok tt) /\ rp_state result = first_state).
Proof.
  apply (failed_commit_recovers MemoryWorld example_port example_lawful example_durable fault_free example_store example_base
           first_frame first_state 1 grown_frame 1 second_record faulted failed (StoreFailedError (Some PlainError))
           (after second_record (v_state (h_vfs faulted))) faulted_live).
  - exact (cm_ok _ _ _ _ _ second_record_commits).
  - exact I.
  - vm_compute. reflexivity.
  - vm_compute. reflexivity.
  - vm_compute. reflexivity.
  - exact fault_free_readable.
  - exact failed_good.
  - vm_compute. discriminate.
Defined.

(** A file that grows twice. *)
Definition resized_once : VfsState := after grown_record first_state.
Definition resized_twice : VfsState := after (ResizeFile OpWrite 2 30000 [mkRun 2 2] 7000 7001) resized_once.

Lemma resizes_coalesce_witness :
  applyTxn (ResizeFile OpWrite 2 30000 (mergeExtentRuns [] [mkRun 2 2]) 7000 7001) None first_state = (resized_twice, Ok tt).
Proof.
  apply (resizes_coalesce first_state resized_once resized_twice 2 12000 6000 6001 30000 7000 7001 98 [] [mkRun 2 2]).
  - exact (proj1 (commits_Inv _ _ _ _ _ example_store_Inv first_record_commits)).
  - vm_compute. reflexivity.
  - vm_compute. reflexivity.
  - vm_compute. reflexivity.
  - vm_compute. reflexivity.
  - vm_compute. reflexivity.
Defined.
