(* ===== verification/FailStop.v ===== *)
(** * Failing and closing

    A store that failed or was closed refuses every operation and touches nothing, and closing is final. *)

From S2P Require Export ApplyTxn Transfers Triples VfsOps.

(** The public operations of [RepackedVfs], all but [close] and [cleanupFailedInit]. *)
Inductive VfsCall : Type :=
| CallStrictSync
| CallAssertHealthy
| CallFail (cause : error)
| CallMetrics
| CallRepack (reason : RepackReason)
| CallRunScheduledRepack (nowMs : Z)
| CallResolvePath (path : jsstr) (follow : bool)
| CallStat (path : jsstr)
| CallLstat (path : jsstr)
| CallSymlink (target path : jsstr) (nowMs : Z)
| CallReadlink (path : jsstr)
| CallReaddir (path : jsstr)
| CallMkdir (path : jsstr) (recursive : bool) (mode : option Z) (nowMs : Z)
| CallWriteFile (path : jsstr) (data : FileData) (encoding : option jsstr) (mode : option Z) (flag : option jsstr) (nowMs : Z)
| CallReadFile (path : jsstr)
| CallTruncatePath (path : jsstr) (size nowMs : Z)
| CallOpen (path flags : jsstr) (mode nowMs : Z)
| CallFstat (fd : Z)
| CallReadFd (fd bufferLength offset len : Z) (position : option Z)
| CallWriteFd (fd : Z) (buffer : list Z) (offset len : Z) (position : option Z) (nowMs : Z)
| CallChmod (path : jsstr) (mode nowMs : Z)
| CallUtimes (path : jsstr) (atimeMs mtimeMs ctimeMs : Z)
| CallUnlink (path : jsstr) (nowMs : Z)
| CallRmdir (path : jsstr) (nowMs : Z)
| CallRename (oldPath newPath : jsstr) (nowMs : Z)
| CallCloseFd (fd : Z).

Section Calls.
Context {Wd : Type} `{RepackedPort Wd} (dateNow performanceNow : M Wd Z).

Definition discard {A} (m : M (Host Wd) A) : M (Host Wd) unit := m ≫= fun _ => mret tt.

(** A call, its result dropped. *)
Definition run_vfs_call (call : VfsCall) : M (Host Wd) unit :=
  match call with
  | CallStrictSync => strictSync
  | CallAssertHealthy => assertOpen
  | CallFail cause => fail cause
  | CallMetrics => discard metricsOf
  | CallRepack reason => repack dateNow performanceNow reason
  | CallRunScheduledRepack nowMs => discard (runScheduledRepack dateNow performanceNow (Some nowMs))
  | CallResolvePath path follow => discard (resolvePath path follow)
  | CallStat path => discard (stat path)
  | CallLstat path => discard (lstat path)
  | CallSymlink target path nowMs => symlink target path nowMs
  | CallReadlink path => discard (readlink path)
  | CallReaddir path => discard (readdir path)
  | CallMkdir path recursive mode nowMs => mkdir path recursive mode nowMs
  | CallWriteFile path data encoding mode flag nowMs => writeFile dateNow performanceNow path data encoding mode flag nowMs
  | CallReadFile path => discard (readFile path)
  | CallTruncatePath path size nowMs => truncatePath dateNow performanceNow path size nowMs
  | CallOpen path flags mode nowMs => discard (openPath dateNow performanceNow path flags mode nowMs)
  | CallFstat fd => discard (fstat fd)
  | CallReadFd fd bufferLength offset len position => discard (readFd fd bufferLength offset len position)
  | CallWriteFd fd buffer offset len position nowMs =>
      discard (writeFd dateNow performanceNow fd buffer offset len position nowMs)
  | CallChmod path mode nowMs => chmod path mode nowMs
  | CallUtimes path atimeMs mtimeMs ctimeMs => utimes path atimeMs mtimeMs ctimeMs
  | CallUnlink path nowMs => unlink path nowMs
  | CallRmdir path nowMs => rmdir path nowMs
  | CallRename oldPath newPath nowMs => rename oldPath newPath nowMs
  | CallCloseFd fd => closeFd fd
  end.

(** The error of a store that is not open. *)
Definition refusal (v : Vfs) : error :=
  match v_status v with StatusFailed => StoreFailedError (v_failure v) | _ => StoreClosedError end.

Definition refuses {A} (m : M (Host Wd) A) (h : Host Wd) : Prop := m h = (h, Throw (refusal (h_vfs h))).

Lemma refuses_bind {A B} (m : M (Host Wd) A) (k : A -> M (Host Wd) B) h : refuses m h -> refuses (m ≫= k) h.
Proof. unfold refuses, mbind, ST_bind. by intros ->. Qed.

Lemma refuses_assertOpen h : v_status (h_vfs h) <> StatusOpen -> refuses assertOpen h.
Proof.
  intros Hs. unfold refuses, assertOpen, refusal. unfold mbind, ST_bind, vfs. by destruct (v_status (h_vfs h)).
Qed.

Lemma call_refused call h : v_status (h_vfs h) <> StatusOpen -> refuses (run_vfs_call call) h.
Proof.
  intros Hs%refuses_assertOpen.
  assert (Hop : forall A (k : unit -> M (Host Wd) A), refuses (assertOpen ≫= k) h) by (intros; by apply refuses_bind).
  destruct call; cbn [run_vfs_call]; first [exact Hs|apply Hop|apply refuses_bind, Hop|idtac].
Qed.

(** *** Closing *)

Definition closed (h : Host Wd) : Prop := v_status (h_vfs h) = StatusClosed.

Lemma wp_closeAll names firstError h : closed h -> wp (closeAll names firstError) (fun _ h' => closed h') h.
Proof.
  revert firstError h. induction names as [|name names IH]; intros firstError h Hc; cbn [closeAll]; [exact Hc|].
  eapply (wp_seq _ _ (fun _ h' => closed h')); [|intros a h' Hc'; by apply IH|done].
  apply wp_catch, wp_bind, wp_world, wp_intro. by intros w' [u|e] _.
Qed.

Lemma wp_shutDown (k : option error -> M (Host Wd) unit) h :
  (forall e h', closed h' -> wp (k e) (fun _ h'' => closed h'') h') -> wp (shutDown ≫= k) (fun _ h' => closed h') h.
Proof.
  intros Hk. eapply (wp_seq _ _ (fun _ h' => closed h')); [|auto|done].
  unfold shutDown. apply wp_modify_bind. by apply wp_closeAll.
Qed.

Lemma wp_closeStore h : wp closeStore (fun _ h' => closed h') h.
Proof.
  unfold closeStore. apply wp_vfs. assert (Hthrow : forall e h', closed h' -> wp (throw_some e) (fun _ h'' => closed h'') h') by (by intros []).
  destruct (v_status (h_vfs h)) eqn:Es; [| |by apply wp_ret].
  all: eapply (wp_seq _ _ (fun r _ => exists e, r = Ok e)); [|intros a h1 _; apply wp_shutDown; intros; by apply Hthrow|by intros ? ? [? ?]].
  - rewrite bool_decide_true by done. apply wp_catch, wp_bind, wp_intro. intros h1 [u|e] _; [by exists None|by exists (Some e)].
  - rewrite bool_decide_false by done. apply wp_ret. eauto.
Qed.

(** A store that failed or was closed is inert: every public operation throws the error that tells why and
    leaves the store and its port exactly as they were, so any sequence of operations does. *)
Theorem inert_unless_open (h : Host Wd) (calls : list VfsCall) (Hdown : v_status (h_vfs h) <> StatusOpen) :
  Forall (fun call => run_vfs_call call h = (h, Throw (refusal (h_vfs h)))) calls /\
  foldl (fun h call => (run_vfs_call call h).1) h calls = h.
Proof.
  induction calls as [|call calls IH]; [done|]. destruct IH as [IHf IHr]. pose proof (call_refused call h Hdown) as Hcall.
  split; [by constructor|]. cbn [foldl]. unfold refuses in Hcall. by rewrite Hcall.
Qed.

(** Closing is final. Whatever state the store is in and whatever the port does meanwhile, after
    [close] the store is closed and every operation is refused as closed. *)
Theorem close_is_final (h h' : Host Wd) (r : R unit) (call : VfsCall) (Hclose : closeStore h = (h', r)) :
  v_status (h_vfs h') = StatusClosed /\ run_vfs_call call h' = (h', Throw StoreClosedError).
Proof.
  pose proof (wp_run _ _ _ _ _ (wp_closeStore h) Hclose) as Hc. unfold closed in Hc. split; [done|].
  assert (Hr : refuses (run_vfs_call call) h') by (apply call_refused; by rewrite Hc).
  unfold refuses, refusal in Hr. by rewrite Hc in Hr.
Qed.
End Calls.

(** ** The witnesses *)

Definition no_clock : M MemoryWorld Z := mret 0.
Definition quiet_host : Host MemoryWorld :=
  mkHost (mkMemoryWorld newMemoryPort ∅)
    (newVfs (mkOpened example_store 61 1 0 0 1 0 ARENA_HEADER_BYTES false false) 0).
Definition failed_host : Host MemoryWorld := mkHost (h_world quiet_host) (poisoned PlainError (h_vfs quiet_host)).
Definition some_calls : list VfsCall := [CallMkdir (js "/a") false None 1; CallStrictSync; CallStat (js "/"); CallCloseFd 3].

#[local] Existing Instance example_port.

Lemma inert_unless_open_witness :
  Forall (fun call => run_vfs_call no_clock no_clock call failed_host
                      = (failed_host, Throw (refusal (h_vfs failed_host)))) some_calls /\
  foldl (fun h call => (run_vfs_call no_clock no_clock call h).1) failed_host some_calls = failed_host.
Proof. apply (inert_unless_open no_clock no_clock failed_host some_calls). discriminate. Defined.

Lemma close_is_final_witness :
  v_status (h_vfs (closeStore quiet_host).1) = StatusClosed /\
  run_vfs_call no_clock no_clock (CallStat (js "/")) (closeStore quiet_host).1 = ((closeStore quiet_host).1, Throw StoreClosedError).
Proof.
  apply (close_is_final no_clock no_clock quiet_host (closeStore quiet_host).1 (closeStore quiet_host).2 (CallStat (js "/"))).
  vm_compute. reflexivity.
Defined.
