(* ===== verification/ArenaLaws.v ===== *)
(** * Data in the arena

    The extents of a file, laid out one after the other, are a flat array of bytes: reads return it, writes
    replace a range of it and leave every other extent alone. *)

From S2P Require Export Triples VfsArena.

(** ** Bytes of a file *)

(** The byte at [i]; behind the end everything reads as zero. *)
Definition byte_at (f : list Z) (i : Z) : Z := default 0 (f !! Z.to_nat i).
Definition bytes_at (f : list Z) (start n : Z) : list Z := byte_at f <$> seqZ start n.

Lemma subarray_bytes f a b : 0 <= a -> b <= byteLength f -> subarray f (Z.to_nat a) (Z.to_nat b) = bytes_at f a (b - a).
Proof.
  intros Ha Hb. unfold subarray, bytes_at, byteLength in *. apply list_eq. intros i. rewrite list_lookup_fmap.
  destruct (decide (i < Z.to_nat (b - a))%nat) as [Hi|Hi].
  - rewrite lookup_seqZ_lt by lia. cbn. rewrite lookup_take_lt, lookup_drop by lia. unfold byte_at.
    destruct (lookup_lt_is_Some_2 f (Z.to_nat a + i)) as [x Hx]; [lia|]. rewrite Hx.
    replace (Z.to_nat (a + Z.of_nat i)) with (Z.to_nat a + i)%nat by lia. by rewrite Hx.
  - rewrite lookup_seqZ_ge by lia. rewrite lookup_take_ge by lia. done.
Qed.

Lemma length_bytes_at f a n : length (bytes_at f a n) = Z.to_nat n.
Proof. unfold bytes_at. by rewrite length_fmap, length_seqZ. Qed.

Lemma bytes_at_app f a n m : 0 <= n -> 0 <= m -> bytes_at f a (n + m) = bytes_at f a n ++ bytes_at f (a + n) m.
Proof. intros Hn Hm. unfold bytes_at. by rewrite seqZ_app, fmap_app. Qed.

Lemma write_at_lookup pos src f i : (write_at pos src f) !! i =
  if decide (pos <= i < pos + length src)%nat then src !! (i - pos)%nat
  else if decide (i < pos /\ src <> [])%nat then (resize pos 0 f) !! i else f !! i.
Proof.
  unfold write_at. destruct src as [|x src].
  { cbn [length]. rewrite decide_False by lia. by rewrite decide_False by naive_solver. }
  set (s := x :: src). destruct (decide (pos <= i < pos + length s)%nat) as [H|H].
  - rewrite lookup_app_r by (rewrite length_resize; lia). rewrite length_resize, lookup_app_l by lia. done.
  - destruct (decide (i < pos /\ s <> [])%nat) as [[H1 _]|H1].
    + by rewrite lookup_app_l by (rewrite length_resize; lia).
    + assert (pos <= i)%nat by (destruct (decide (i < pos)%nat); [exfalso; by apply H1|lia]).
      rewrite lookup_app_r, length_resize, lookup_app_r, lookup_drop by (rewrite ?length_resize; lia).
      f_equal. lia.
Qed.

Lemma byte_at_write pos src f i : 0 <= pos -> 0 <= i -> byte_at (write_at (Z.to_nat pos) src f) i =
  if decide (pos <= i < pos + byteLength src) then default 0 (src !! Z.to_nat (i - pos)) else byte_at f i.
Proof.
  intros Hp Hi. unfold byte_at, byteLength. rewrite write_at_lookup.
  destruct (decide (pos <= i < pos + Z.of_nat (length src))) as [H|H].
  - rewrite decide_True by lia. do 3 f_equal. lia.
  - rewrite decide_False by lia. case_decide as H2; [|done]. destruct (decide (Z.to_nat i < length f)%nat).
    + by rewrite lookup_resize by lia.
    + rewrite lookup_resize_new by lia. by rewrite (lookup_ge_None_2 f) by lia.
Qed.

(** ** Logical positions *)

(** Where the byte at [position] of a file with the extents [xs] is in the arena. *)
Definition physical (es : Z) (xs : list Z) (position : Z) : Z :=
  ARENA_HEADER_BYTES + default 0 (xs !! Z.to_nat (position / es)) * es + position mod es.

Definition content (arena : list Z) (es : Z) (xs : list Z) (position : Z) : Z := byte_at arena (physical es xs position).
Definition contents (arena : list Z) (es : Z) (xs : list Z) (position n : Z) : list Z :=
  content arena es xs <$> seqZ position n.

Lemma contents_app arena es xs a n m : 0 <= n -> 0 <= m ->
  contents arena es xs a (n + m) = contents arena es xs a n ++ contents arena es xs (a + n) m.
Proof. intros Hn Hm. unfold contents. by rewrite seqZ_app, fmap_app. Qed.

(** A piece inside one extent. *)
Lemma contents_run arena es xs position n e : 0 < es -> 0 <= position -> xs !! Z.to_nat (position / es) = Some e ->
  0 <= n <= es - position mod es ->
  contents arena es xs position n = bytes_at arena (ARENA_HEADER_BYTES + e * es + position mod es) n.
Proof.
  intros Hes Hp He Hn. unfold contents, bytes_at. apply list_eq. intros i. rewrite !list_lookup_fmap.
  destruct (decide (Z.of_nat i < n)) as [Hi|Hi]; [|by rewrite !lookup_seqZ_ge by lia].
  rewrite !lookup_seqZ_lt by lia. cbn. f_equal. unfold content, physical. f_equal.
  pose proof (Z.div_mod position es ltac:(lia)) as Hdm. pose proof (Z.mod_pos_bound position es Hes).
  assert (Hd : (position + Z.of_nat i) / es = position / es).
  { symmetry. apply (Z.div_unique _ es _ (position mod es + Z.of_nat i)); lia. }
  assert (Hm : (position + Z.of_nat i) mod es = position mod es + Z.of_nat i).
  { symmetry. apply (Z.mod_unique _ es (position / es)); lia. }
  rewrite Hd, Hm, He. cbn. lia.
Qed.

Lemma extentAt_app head tail index : 0 <= index -> extentAt head tail index = (head ++ tail) !! Z.to_nat index.
Proof.
  intros Hi. unfold extentAt. destruct (index <? Z.of_nat (length head)) eqn:E; propify.
  - by rewrite lookup_app_l by lia.
  - by rewrite lookup_app_r by lia.
Qed.

(** Distinct extents do not share bytes. *)
Lemma extents_disjoint es e1 e2 w1 w2 : 0 < es -> 0 <= w1 < es -> 0 <= w2 < es ->
  ARENA_HEADER_BYTES + e1 * es + w1 = ARENA_HEADER_BYTES + e2 * es + w2 -> e1 = e2 /\ w1 = w2.
Proof. intros Hes H1 H2 H. apply (Z.div_mod_unique es); [by left|by left|lia]. Qed.

(** The extents of one file: no extent twice. *)
Record file_layout (es : Z) (xs : list Z) : Prop := {
  fl_size : 0 < es;
  fl_nodup : NoDup xs;
  fl_ids : Forall (fun e => 0 <= e) xs
}.

Lemma byte_after es e within (chunk f : list Z) e' w : 0 < es -> 0 <= e -> 0 <= e' -> 0 <= within -> 0 <= w < es ->
  within + byteLength chunk <= es ->
  byte_at (write_at (Z.to_nat (ARENA_HEADER_BYTES + e * es + within)) chunk f) (ARENA_HEADER_BYTES + e' * es + w) =
    if decide (e' = e /\ within <= w < within + byteLength chunk) then default 0 (chunk !! Z.to_nat (w - within))
    else byte_at f (ARENA_HEADER_BYTES + e' * es + w).
Proof.
  intros Hes He He' Hw Hw' Hlen. assert (0 <= e * es /\ 0 <= e' * es) as [? ?] by (split; apply Z.mul_nonneg_nonneg; lia).
  assert (0 < ARENA_HEADER_BYTES) by done.
  rewrite byte_at_write by lia. destruct (decide (e' = e)) as [->|Hne].
  - destruct (decide (within <= w < within + byteLength chunk)); [rewrite !decide_True by (split; lia || lia)|rewrite !decide_False by lia]; [|done].
    do 3 f_equal. lia.
  - rewrite (decide_False (P := e' = e /\ _)) by tauto. apply decide_False. intros Hin.
    destruct (extents_disjoint es e' e w (w + e' * es - e * es)) as [? _]; lia.
Qed.

Lemma lookup_position es (xs : list Z) position e : 0 < es -> 0 <= position -> xs !! Z.to_nat (position / es) = Some e ->
  position < Z.of_nat (length xs) * es.
Proof.
  intros Hes Hp Hl%lookup_lt_Some. pose proof (Z.div_pos position es Hp Hes). pose proof (Z.div_mod position es ltac:(lia)).
  pose proof (Z.mod_pos_bound position es Hes). nia.
Qed.

Lemma lookup_inside es (xs : list Z) position : 0 < es -> 0 <= position < Z.of_nat (length xs) * es ->
  exists e, xs !! Z.to_nat (position / es) = Some e.
Proof.
  intros Hes Hp. apply lookup_lt_is_Some_2. assert (position / es < Z.of_nat (length xs)) by (apply Z.div_lt_upper_bound; lia).
  pose proof (Z.div_pos position es ltac:(lia) Hes). lia.
Qed.

(** Writing a chunk inside one extent of the file. *)
Lemma content_after es xs (f : list Z) l0 e (chunk : list Z) l : file_layout es xs -> 0 <= l0 -> xs !! Z.to_nat (l0 / es) = Some e ->
  byteLength chunk <= es - l0 mod es -> 0 <= l < Z.of_nat (length xs) * es ->
  content (write_at (Z.to_nat (ARENA_HEADER_BYTES + e * es + l0 mod es)) chunk f) es xs l =
    if decide (l0 <= l < l0 + byteLength chunk) then default 0 (chunk !! Z.to_nat (l - l0)) else content f es xs l.
Proof.
  intros [Hes Hnd Hids] Hl0 He Hlen Hl. destruct (lookup_inside es xs l Hes Hl) as [e' He']. unfold content, physical. rewrite He'. change (default 0 (Some e')) with e'.
  pose proof (Forall_lookup_1 _ _ _ _ Hids He) as Hpe. pose proof (Forall_lookup_1 _ _ _ _ Hids He') as Hpe'. cbn in Hpe, Hpe'.
  pose proof (Z.mod_pos_bound l es Hes) as Hml. pose proof (Z.mod_pos_bound l0 es Hes) as Hml0.
  rewrite byte_after by lia.
  pose proof (Z.div_mod l es ltac:(lia)) as Dl. pose proof (Z.div_mod l0 es ltac:(lia)) as Dl0.
  destruct (decide (l0 <= l < l0 + byteLength chunk)) as [Hin|Hout].
  - assert (Hd : l / es = l0 / es) by (symmetry; apply (Z.div_unique l es (l0 / es) (l0 mod es + (l - l0))); lia).
    rewrite Hd, He in He'. injection He' as <-. rewrite Hd in Dl. rewrite decide_True by lia. do 3 f_equal. lia.
  - apply decide_False. intros [-> Hw]. apply Hout. pose proof (NoDup_lookup _ _ _ _ Hnd He' He) as Hi.
    pose proof (Z.div_pos l es ltac:(lia) Hes). pose proof (Z.div_pos l0 es Hl0 Hes). assert (l / es = l0 / es) by lia. nia.
Qed.

(** ** Reads *)

Section Arena.
Context {Wd : Type} `{LawfulPort Wd}.
Implicit Types (h : Host Wd).

(** The content of the arena, and what a call keeps when it only touches the arena and its cache. *)
Definition arena h : list Z := file (h_world h) ArenaBin.

Definition kept h h' : Prop :=
  port_ok (h_world h') /\ (forall f, f <> ArenaBin -> file (h_world h') f = file (h_world h) f) /\
  v_state (h_vfs h') = v_state (h_vfs h) /\ v_status (h_vfs h') = v_status (h_vfs h).

Lemma kept_refl h : port_ok (h_world h) -> kept h h.
Proof. done. Qed.

Lemma kept_trans h1 h2 h3 : kept h1 h2 -> kept h2 h3 -> kept h1 h3.
Proof.
  intros (H1 & F1 & S1 & O1) (H2 & F2 & S2 & O2). split; [done|]. split; [|split; congruence].
  intros f Hf. by rewrite F2, F1.
Qed.

(** A read leaves everything as it was. *)
Definition only_read h h' : Prop :=
  port_ok (h_world h') /\ h_vfs h' = h_vfs h /\ forall f, file (h_world h') f = file (h_world h) f.

Lemma only_read_trans h1 h2 h3 : only_read h1 h2 -> only_read h2 h3 -> only_read h1 h3.
Proof. intros (H1 & V1 & F1) (H2 & V2 & F2). split; [done|]. split; [congruence|]. intros f. by rewrite F2, F1. Qed.

Lemma no_fuel_arenaByteOffset e es within : no_fuel (arenaByteOffset e es within).
Proof. unfold arenaByteOffset, validateExtentSize, checkedAdd, checkedMultiply. nofuel. Qed.

Lemma no_fuel_safe v : no_fuel (checkedSafeNumber v).
Proof. unfold checkedSafeNumber. nofuel. Qed.

Lemma wp_readExtent fuel e within count output h :
  port_ok (h_world h) -> 0 <= within -> byteLength output <= count -> (Z.to_nat (count - byteLength output) <= fuel)%nat ->
  let es := extentSize (v_state (h_vfs h)) in
  wp (readExtent fuel e within count output) (fun r h' => only_read h h' /\ r <> Throw FuelExhausted /\
    forall out, r = Ok out -> out = output ++ bytes_at (arena h) (ARENA_HEADER_BYTES + e * es + within + byteLength output)
                                               (count - byteLength output)) h.
Proof.
  intros Hok Hw. revert output h Hok. induction fuel as [|fuel IH]; intros output h Hok Hle Hfuel es; cbn [readExtent];
    fold (byteLength output); destruct (byteLength output <? count) eqn:E; propify.
  1: lia.
  1, 3: apply wp_ret; split; [done|]; split; [done|]; intros out [= <-];
    replace (count - byteLength output) with 0 by lia; by rewrite app_nil_r.
  apply wp_vfs. fold es. apply wp_lift_bind; [|intros e' He'; split; [done|]; split; [|done]; intros [= ->]; by eapply no_fuel_arenaByteOffset].
  intros offset (-> & Hes & He & Hb)%arenaByteOffset_Ok.
  apply wp_lift_bind; [|intros e' He'; split; [done|]; split; [|done]; intros [= ->]; by eapply no_fuel_safe].
  intros offset' (-> & Hsafe)%checkedSafeNumber_Ok.
  pose proof Hes as [Hrange _].
  eapply (wp_seq _ _ (fun r h' => only_read h h' /\ r <> Throw FuelExhausted /\ forall n bytes, r = Ok (n, bytes) -> 0 < n <= count - byteLength output ->
    bytes = bytes_at (arena h) (ARENA_HEADER_BYTES + e * es + (within + byteLength output)) n)).
  - apply wp_world, wp_intro. intros w' r Hr. apply read_law in Hr as (Hok' & Hf & Hnf & Hout); [|done|].
    2:{ assert (0 <= e * es) by (apply Z.mul_nonneg_nonneg; ll). ll. }
    split; [done|]. split; [done|]. intros n bytes -> Hn. destruct (Hout n bytes eq_refl Hn) as [Hin ->].
    rewrite subarray_bytes; [f_equal; lia| |done]. assert (0 <= e * es) by (apply Z.mul_nonneg_nonneg; ll). ll.
  - intros [n bytes] h1 (Hread & _ & Hb1). apply wp_lift_bind; [|intros e' [_ <-]%throw_if_Throw; split; [done|]; by split].
    intros u Hn%throw_if_Ok. propify. specialize (Hb1 n bytes eq_refl ltac:(lia)).
    assert (Hlen : byteLength (output ++ resize (Z.to_nat n) 0 bytes) = byteLength output + n)
      by (unfold byteLength; rewrite length_app, length_resize; lia).
    pose proof Hread as (Hok1 & Hv1 & Hf1).
    eapply wp_conseq; [apply (IH (output ++ resize (Z.to_nat n) 0 bytes) h1 Hok1); rewrite Hlen; lia|].
    intros r h2 (Hread2 & Hnf & Hout). split; [by eapply only_read_trans|]. split; [done|]. intros out Ho.
    rewrite (Hout out Ho), Hlen, Hv1, <- app_assoc. f_equal. fold es. unfold arena. rewrite Hf1.
    assert (Hb2 : resize (Z.to_nat n) 0 bytes = bytes) by (apply resize_all_alt; subst bytes; by rewrite length_bytes_at).
    rewrite Hb2, Hb1. unfold arena.
    replace (count - byteLength output) with (n + (count - (byteLength output + n))) by lia.
    rewrite bytes_at_app by lia. f_equal; [|f_equal; lia]. f_equal. lia.
  - intros e' h1 (Hread & Hnf & _). split; [done|]. split; [|done]. intros [= ->]. by apply Hnf.
Qed.
Lemma wp_readLogicalLoop fuel extents position len output h :
  let es := extentSize (v_state (h_vfs h)) in
  port_ok (h_world h) -> extent_size_ok es -> 0 <= position -> byteLength output <= len ->
  (Z.to_nat (len - byteLength output) <= fuel)%nat ->
  wp (readLogicalLoop fuel extents position len output) (fun r h' => only_read h h' /\ r <> Throw FuelExhausted /\
    forall out, r = Ok out -> out = output ++ contents (arena h) es extents (position + byteLength output) (len - byteLength output)) h.
Proof.
  intros es Hok Hes Hp. pose proof Hes as [Hrange _]. assert (Hpos : 0 < es) by ll.
  revert output h es Hok Hes Hrange Hpos.
  induction fuel as [|fuel IH]; intros output h es Hok Hes Hrange Hpos Hle Hfuel; cbn [readLogicalLoop];
    fold (byteLength output); destruct (byteLength output <? len) eqn:E; propify.
  1: lia.
  1, 3: apply wp_ret; split; [done|]; split; [done|]; intros out [= <-];
    replace (len - byteLength output) with 0 by lia; by rewrite app_nil_r.
  apply wp_vfs. fold es.
  apply wp_lift_bind; [|intros e' He'; split; [done|]; split; [|done]; intros [= ->]; revert He'; apply no_fuel_checkedU64].
  intros logical (-> & _)%checkedU64_Ok.
  apply wp_lift_bind; [|intros e' He'; split; [done|]; split; [|done]; intros [= ->]; by eapply no_fuel_safe].
  intros index (-> & _)%checkedSafeNumber_Ok.
  assert (Hl0 : 0 <= position + byteLength output) by (unfold byteLength; lia).
  apply wp_lift_bind; [|intros e' [_ <-]%or_throw_Throw; split; [done|]; by split].
  intros e He%or_throw_Ok. rewrite extentAt_app, app_nil_r in He by (apply Z.div_pos; lia).
  pose proof (Z.mod_pos_bound (position + byteLength output) es Hpos) as Hm.
  set (count := Z.min (len - byteLength output) (es - (position + byteLength output) mod es)).
  assert (Hc : 0 < count <= len - byteLength output /\ count <= es - (position + byteLength output) mod es) by lia.
  clearbody count.
  eapply wp_seq; [apply (wp_readExtent (Z.to_nat count) e ((position + byteLength output) mod es) count [] h Hok); change (byteLength []) with 0; lia| |].
  - intros bytes h1 (Hread & _ & Hb). specialize (Hb bytes eq_refl). cbn [byteLength length app] in Hb.
    change (byteLength []) with 0 in Hb. rewrite Z.add_0_r, Z.sub_0_r in Hb. fold es in Hb.
    rewrite <- (contents_run _ es extents _ count e) in Hb by (done || lia).
    assert (Hlen : byteLength (output ++ bytes) = byteLength output + count).
    { rewrite Hb. unfold byteLength, contents. rewrite length_app, length_fmap, length_seqZ. lia. }
    pose proof Hread as (Hok1 & Hv1 & Hf1). assert (Hes1 : extentSize (v_state (h_vfs h1)) = es) by (by rewrite Hv1).
    eapply wp_conseq; [apply (IH (output ++ bytes) h1 Hok1); rewrite ?Hes1, ?Hlen; done || lia|].
    intros r h2 (Hread2 & Hnf & Hout). split; [by eapply only_read_trans|]. split; [done|]. intros out Ho.
    rewrite (Hout out Ho), Hlen, Hes1, <- app_assoc, Hb. f_equal. unfold arena. rewrite Hf1.
    replace (len - byteLength output) with (count + (len - (byteLength output + count))) by lia.
    rewrite contents_app by lia. f_equal. f_equal. lia.
  - intros e' h1 (Hread & Hnf & _). split; [done|]. split; [|done]. intros [= ->]. by apply Hnf.
Qed.

(** [#readLogical] returns the content of the file. *)
Lemma wp_readLogical extents position len h :
  port_ok (h_world h) -> extent_size_ok (extentSize (v_state (h_vfs h))) -> 0 <= len ->
  wp (readLogical extents position len) (fun r h' => only_read h h' /\ r <> Throw FuelExhausted /\
    forall out, r = Ok out -> out = contents (arena h) (extentSize (v_state (h_vfs h))) extents position len) h.
Proof.
  intros Hok Hes Hlen. unfold readLogical.
  apply wp_lift_bind; [|intros e' He'; split; [done|]; split; [|done]; intros [= ->]; revert He'; apply no_fuel_checkedU64].
  intros u [_ Hu]%checkedU64_Ok. eapply wp_conseq.
  - apply (wp_readLogicalLoop (Z.to_nat len) extents position len [] h Hok Hes); change (byteLength []) with 0; unfold u64 in Hu; lia.
  - change (byteLength []) with 0. intros r h' (? & ? & Hout). split; [done|]. split; [done|]. intros out Ho.
    by rewrite (Hout out Ho), Z.add_0_r, Z.sub_0_r.
Qed.
(** ** Writes *)

Lemma kept_vfs h w v : port_ok (h_world h) -> (forall f, f <> ArenaBin -> file w f = file (h_world h) f) -> port_ok w ->
  v_state v = v_state (h_vfs h) -> v_status v = v_status (h_vfs h) -> kept h (mkHost w v).
Proof. done. Qed.

Lemma wp_writeArena src pos h : port_ok (h_world h) -> 0 <= pos ->
  wp (writeArena src pos) (fun r h' => kept h h' /\ r <> Throw FuelExhausted /\ exists k, (k <= length src)%nat /\
    arena h' = write_at (Z.to_nat pos) (take k src) (arena h) /\
    forall n, r = Ok n -> 0 < n <= byteLength src -> k = Z.to_nat n) h.
Proof.
  intros Hok Hp. unfold writeArena. apply wp_vfs. cbv zeta. unfold setArenaSize. apply wp_modify_bind.
  eapply (wp_seq _ _ (fun r h' => kept h h' /\ r <> Throw FuelExhausted /\ exists k, (k <= length src)%nat /\
    arena h' = write_at (Z.to_nat pos) (take k src) (arena h) /\ forall n, r = Ok n -> 0 < n <= byteLength src -> k = Z.to_nat n)).
  - apply wp_world, wp_intro. intros w' r Hr. cbn [h_world h_vfs] in *.
    destruct (write_law _ _ _ _ _ _ Hok Hr Hp) as (Hok' & Hnf & k & Hk & Hf & Hoth & Hn).
    split; [by split|]. split; [done|]. exists k. split; [done|]. split; [exact Hf|done].
  - intros n h1 (K & _ & k & Hk & Ha & Hn). destruct (ar_size (v_arena (h_vfs h))) as [before|]; [destruct (_ && _)|];
      [apply wp_modify_bind; apply wp_ret|apply wp_ret..]; (split; [done|]); (split; [done|]); exists k;
      (split; [done|]); (split; [done|]); exact Hn.
  - intros e h1 (K & Hnf & k & Hk & Ha & Hn). split; [done|]. split; [intros [= ->]; by apply Hnf|]. by exists k.
Qed.

(** One transfer: what it stored begins at the given place of the extent. *)
Lemma wp_writeStep e within src h :
  let es := extentSize (v_state (h_vfs h)) in
  port_ok (h_world h) ->
  wp (writeStep e within src) (fun r h' => kept h h' /\ r <> Throw FuelExhausted /\ exists k, (k <= length src)%nat /\
    arena h' = write_at (Z.to_nat (ARENA_HEADER_BYTES + e * es + within)) (take k src) (arena h) /\
    forall n, r = Ok n -> 0 < n <= byteLength src /\ k = Z.to_nat n) h.
Proof.
  intros es Hok. unfold writeStep. apply wp_vfs. fold es. unfold setArenaDirty. apply wp_modify_bind. set (h1 := mkHost _ _).
  assert (K1 : kept h h1) by done. assert (Hnone : forall r, r <> Throw FuelExhausted -> (forall n, r = Ok n -> False) ->
    kept h h1 /\ r <> Throw FuelExhausted /\ exists k, (k <= length src)%nat /\
    arena h1 = write_at (Z.to_nat (ARENA_HEADER_BYTES + e * es + within)) (take k src) (arena h) /\
    forall n : Z, r = Ok n -> 0 < n <= byteLength src /\ k = Z.to_nat n).
  { intros r Hr Hno. split; [done|]. split; [done|]. exists 0%nat. split; [lia|]. split; [done|]. by intros n Hn%Hno. }
  apply wp_lift_bind; [|intros e' He'; apply Hnone; [intros [= ->]; by eapply no_fuel_arenaByteOffset|done]].
  intros offset (-> & Hes & He & Hw)%arenaByteOffset_Ok. pose proof Hes as [Hrange _].
  apply wp_lift_bind; [|intros e' He'; apply Hnone; [intros [= ->]; by eapply no_fuel_safe|done]].
  intros offset' (-> & Hsafe)%checkedSafeNumber_Ok. assert (0 <= e * es) by (apply Z.mul_nonneg_nonneg; ll).
  eapply wp_seq; [apply (wp_writeArena src (ARENA_HEADER_BYTES + e * es + within) h1 Hok); ll| |].
  - intros n h2 (K2 & _ & k & Hk & Ha & Hn). assert (K : kept h h2) by (by apply (kept_trans _ h1)).
    apply wp_lift_bind; [|intros e' [_ <-]%throw_if_Throw; split; [done|]; split; [done|]; exists k; by split].
    intros u Hu%throw_if_Ok. propify. specialize (Hn n eq_refl ltac:(unfold byteLength; lia)).
    unfold recordArenaWrite. apply wp_bind, wp_lift_bind; [|intros e' He'; exfalso; apply throw_if_Throw in He' as [[He'|He']%orb_true_iff _]; propify; [congruence|lia]].
    intros u' _. apply wp_modify, wp_ret. split; [done|]. split; [done|].
    exists k. split; [done|]. split; [done|]. intros m [= <-]. split; [unfold byteLength; lia|done].
  - intros e' h2 (K2 & Hnf & k & Hk & Ha & _). split; [by apply (kept_trans _ h1)|]. split; [intros [= ->]; by apply Hnf|].
    exists k. by split.
Qed.
(** What a write of [source] at [position] may do to the arena, from [done] bytes on: it stays inside the
    range, and inside the extents [xs]. *)
Definition confined (es : Z) (xs : list Z) (from stop : Z) (f f' : list Z) : Prop :=
  (forall l, 0 <= l < Z.of_nat (length xs) * es -> ~ (from <= l < stop) -> content f' es xs l = content f es xs l) /\
  (forall e w, e ∉ xs -> 0 <= e -> 0 <= w < es ->
     byte_at f' (ARENA_HEADER_BYTES + e * es + w) = byte_at f (ARENA_HEADER_BYTES + e * es + w)).

Lemma confined_refl es xs a b f : confined es xs a b f f.
Proof. done. Qed.

Lemma confined_trans es xs a b c d f1 f2 f3 : a <= c -> d <= b ->
  confined es xs a b f1 f2 -> confined es xs c d f2 f3 -> confined es xs a b f1 f3.
Proof.
  intros Hac Hdb [A1 B1] [A2 B2]. split.
  - intros l Hl Hout. rewrite A2, A1 by (done || lia). done.
  - intros e w He H1 H2. by rewrite B2, B1.
Qed.

(** One chunk inside one extent is confined to its range. *)
Lemma confined_step es xs f l0 e chunk : file_layout es xs -> 0 <= l0 -> xs !! Z.to_nat (l0 / es) = Some e ->
  byteLength chunk <= es - l0 mod es ->
  confined es xs l0 (l0 + byteLength chunk) f (write_at (Z.to_nat (ARENA_HEADER_BYTES + e * es + l0 mod es)) chunk f).
Proof.
  intros L Hl0 He Hlen. pose proof L as [Hes Hnd Hids]. split.
  - intros l Hl Hout. rewrite (content_after es xs f l0 e chunk l) by done. by rewrite decide_False.
  - intros e' w Hne He' Hw. pose proof (Forall_lookup_1 _ _ _ _ Hids He) as Hpe. cbn in Hpe.
    pose proof (Z.mod_pos_bound l0 es Hes). rewrite byte_after by lia. apply decide_False. intros [-> _].
    apply Hne. by eapply list_elem_of_lookup_2.
Qed.

Definition write_progress (es : Z) (xs : list Z) (position : Z) (source : list Z) (from : Z) (f f' : list Z) (p : WriteProgress) : Prop :=
  from <= wp_bytes p <= byteLength source /\ (wp_error p = None -> wp_bytes p = byteLength source) /\
  forall l, position + from <= l < position + wp_bytes p ->
    0 <= l < Z.of_nat (length xs) * es /\ content f' es xs l = default 0 (source !! Z.to_nat (l - position)).

Lemma wp_writeLogicalLoop fuel extents position source allocated completed h :
  let es := extentSize (v_state (h_vfs h)) in
  let xs := extents ++ allocated in
  port_ok (h_world h) -> file_layout es xs -> 0 <= position -> 0 <= completed <= byteLength source ->
  (Z.to_nat (byteLength source - completed) <= fuel)%nat ->
  wp (writeLogicalLoop fuel extents position source allocated completed) (fun r h' => kept h h' /\ r <> Throw FuelExhausted /\
    confined es xs (position + completed) (position + byteLength source) (arena h) (arena h') /\
    forall p, r = Ok p -> write_progress es xs position source completed (arena h) (arena h') p) h.
Proof.
  intros es xs Hok L Hp. pose proof L as [Hes Hnd Hids]. revert completed h es Hok L Hes Hids.
  induction fuel as [|fuel IH]; intros completed h es Hok L Hes Hids Hc Hfuel; cbn [writeLogicalLoop];
    fold (byteLength source); destruct (completed <? byteLength source) eqn:E; propify.
  1: lia.
  1, 3: apply wp_ret; split; [done|]; split; [done|]; split; [apply confined_refl|]; intros p [= <-];
    (split; [cbn; lia|split; [cbn; lia|intros l Hl; cbn in Hl; lia]]).
  assert (Hstop : forall r, r <> Throw FuelExhausted -> (forall p, r = Ok p -> False) ->
    kept h h /\ r <> Throw FuelExhausted /\ confined es xs (position + completed) (position + byteLength source) (arena h) (arena h) /\
    forall p, r = Ok p -> write_progress es xs position source completed (arena h) (arena h) p).
  { intros r Hr Hno. split; [done|]. split; [done|]. split; [apply confined_refl|]. by intros p Hpr%Hno. }
  apply wp_vfs. fold es.
  apply wp_lift_bind; [|intros e' He'; apply Hstop; [intros [= ->]; revert He'; apply no_fuel_checkedU64|done]].
  intros logical (-> & _)%checkedU64_Ok.
  apply wp_lift_bind; [|intros e' He'; apply Hstop; [intros [= ->]; by eapply no_fuel_safe|done]].
  intros index (-> & _)%checkedSafeNumber_Ok.
  apply wp_lift_bind; [|intros e' [_ <-]%or_throw_Throw; by apply Hstop].
  intros e He%or_throw_Ok. rewrite extentAt_app in He by (apply Z.div_pos; lia). fold xs in He.
  set (l0 := position + completed) in *. pose proof (Z.mod_pos_bound l0 es Hes) as Hm.
  set (count := Z.min (byteLength source - completed) (es - l0 mod es)).
  assert (Hcnt : 0 < count <= byteLength source - completed /\ count <= es - l0 mod es) by lia. clearbody count.
  set (chunk := subarray source (Z.to_nat completed) (Z.to_nat (completed + count))).
  assert (Hchunk : byteLength chunk = count).
  { unfold chunk, subarray, byteLength in *. rewrite length_take, length_drop. lia. }
  assert (Htake : forall k, byteLength (take k chunk) <= count) by (intros k; unfold byteLength in *; rewrite length_take; lia).
  eapply (wp_seq _ _ (fun r h1 => kept h h1 /\ exists k, (k <= length chunk)%nat /\
    arena h1 = write_at (Z.to_nat (ARENA_HEADER_BYTES + e * es + l0 mod es)) (take k chunk) (arena h) /\
    exists step, r = Ok step /\ forall n, step = inl n -> 0 < n <= count /\ k = Z.to_nat n)).
  - apply wp_catch. eapply wp_seq; [apply (wp_writeStep e (l0 mod es) chunk h Hok)| |].
    + intros n h1 (K & _ & k & Hk & Ha & Hn). apply wp_ret. split; [done|]. exists k. split; [done|]. split; [done|].
      eexists. split; [done|]. intros m [= <-]. rewrite <- Hchunk. by apply Hn.
    + intros e' h1 (K & _ & k & Hk & Ha & _). apply wp_ret. split; [done|]. exists k. split; [done|]. split; [done|]. by eexists.
  - intros step h1 (K & k & Hk & Ha & step' & [= <-] & Hstep).
    assert (Hconf : confined es xs l0 (l0 + count) (arena h) (arena h1)).
    { rewrite Ha. eapply confined_trans; [reflexivity| |apply confined_refl|apply confined_step; [done|lia|done|]].
      - specialize (Htake k). lia.
      - specialize (Htake k). lia. }
    destruct step as [n|cause].
    + destruct (Hstep n eq_refl) as [Hn ->]. pose proof K as (Hok1 & _ & Hst1 & _).
      assert (Hes1 : extentSize (v_state (h_vfs h1)) = es) by (by rewrite Hst1).
      eapply wp_conseq; [apply (IH (completed + n) h1 Hok1); rewrite ?Hes1; done || lia|]. rewrite Hes1. fold xs.
      intros r h2 (K2 & Hnf & Hconf2 & Hout). split; [by eapply kept_trans|]. split; [done|]. split.
      { eapply (confined_trans es xs l0 (position + byteLength source) (position + (completed + n)) (position + byteLength source) _ (arena h1)); [lia|lia| |done].
        eapply confined_trans; [reflexivity| |apply confined_refl|exact Hconf]. lia. }
      intros p Hpr. destruct (Hout p Hpr) as (Hb & Hnone & Hread). split; [lia|]. split; [done|]. intros l Hl.
      destruct (decide (position + (completed + n) <= l)) as [Hge|Hlt]; [apply Hread; lia|].
      assert (Hin : 0 <= l < Z.of_nat (length xs) * es).
      { split; [lia|]. pose proof (Z.div_mod l0 es ltac:(lia)). assert (Hd : l0 / es = l / es)
          by (apply (Z.div_unique l es (l0 / es) (l0 mod es + (l - l0))); lia).
        rewrite Hd in He. by eapply lookup_position; [| |exact He]; lia. }
      split; [done|]. destruct Hconf2 as [Hsame _]. rewrite Hsame by (done || lia). rewrite Ha.
      rewrite content_after by (done || lia || (specialize (Htake (Z.to_nat n)); lia)).
      rewrite decide_True by (unfold byteLength in *; rewrite length_take; lia).
      rewrite lookup_take_lt by lia. unfold chunk, subarray. rewrite lookup_take_lt, lookup_drop by lia. do 2 f_equal. lia.
    + apply wp_ret. split; [done|]. split; [done|]. split.
      { eapply confined_trans; [reflexivity| |apply confined_refl|exact Hconf]. lia. }
      intros p [= <-]. split; [cbn; lia|]. split; [done|]. intros l Hl. cbn in Hl. lia.
  - by intros e' h1 (_ & k & _ & _ & step & ? & _).
Qed.

Lemma wp_writeLogical extents position source allocated h :
  let es := extentSize (v_state (h_vfs h)) in
  let xs := extents ++ allocated in
  port_ok (h_world h) -> file_layout es xs ->
  wp (writeLogical extents position source allocated) (fun r h' => kept h h' /\ r <> Throw FuelExhausted /\
    confined es xs position (position + byteLength source) (arena h) (arena h') /\
    forall p, r = Ok p -> write_progress es xs position source 0 (arena h) (arena h') p) h.
Proof.
  intros es xs Hok L. unfold writeLogical. apply wp_lift_bind.
  - intros u [_ Hu]%checkedU64_Ok. eapply wp_conseq.
    + apply (wp_writeLogicalLoop (length source) extents position source allocated 0 h Hok L); unfold u64, byteLength in *; lia.
    + cbv zeta. by rewrite Z.add_0_r.
  - intros e He. split; [done|]. split; [intros [= ->]; revert He; apply no_fuel_checkedU64|]. split; [apply confined_refl|done].
Qed.
(** ** Fresh extents *)

(** Only bytes of the extent [e], from [within] on, were cleared. *)
Definition cleared (es e within : Z) (f f' : list Z) : Prop :=
  forall e' w, 0 <= e' -> 0 <= w < es -> byte_at f' (ARENA_HEADER_BYTES + e' * es + w) =
    if decide (e' = e /\ within <= w) then 0 else byte_at f (ARENA_HEADER_BYTES + e' * es + w).

Lemma wp_writeArenaExact pos src h : port_ok (h_world h) -> 0 <= pos ->
  wp (writeArenaExact pos src) (fun r h' => kept h h' /\ (r = Ok tt -> arena h' = write_at (Z.to_nat pos) src (arena h))) h.
Proof.
  intros Hok Hp. unfold writeArenaExact. apply wp_vfs. cbv zeta. unfold setArenaSize. apply wp_modify_bind.
  eapply (wp_seq _ _ (fun r h' => kept h h' /\ (r = Ok tt -> arena h' = write_at (Z.to_nat pos) src (arena h)))).
  - apply wp_world. cbn [h_world h_vfs]. eapply wp_conseq; [by apply wp_writeExact|].
    intros r w' (Hok' & Hoth & _ & k & Hk & Hf & Hall). split; [by split|]. intros Hr. unfold arena. cbn [h_world].
    by rewrite Hf, (Hall Hr), firstn_all.
  - intros [] h1 [K Ha]. specialize (Ha eq_refl). destruct (ar_size _); [|by apply wp_ret].
    apply wp_lift_bind; [|by intros]. intros stop _. apply wp_lift_bind; [|by intros]. intros stop' _. by apply wp_modify.
  - by intros e h1 [K _].
Qed.

Lemma wp_zeroExtentLoop fuel e within h :
  let es := extentSize (v_state (h_vfs h)) in
  port_ok (h_world h) -> 0 <= e -> 0 < es -> 0 <= within <= es ->
  wp (zeroExtentLoop fuel e within) (fun r h' => kept h h' /\ (r = Ok tt -> cleared es e within (arena h) (arena h'))) h.
Proof.
  intros es Hok He Hes. revert within h es Hok Hes.
  induction fuel as [|fuel IH]; intros within h es Hok Hes Hw; cbn [zeroExtentLoop]; apply wp_vfs; fold es;
    destruct (within <? es) eqn:E; propify.
  1: by split.
  1, 3: apply wp_ret; split; [done|]; intros _ e' w He' Hw'; by rewrite decide_False by lia.
  set (count := Z.min (Z.min es ZERO_CHUNK) (es - within)).
  assert (Hc : 0 < count <= es - within) by (unfold count, ZERO_CHUNK; lia). clearbody count.
  unfold setArenaDirty. apply wp_modify_bind. set (h0 := mkHost _ _). assert (K0 : kept h h0) by done.
  apply wp_lift_bind; [|by intros]. intros offset (-> & _)%arenaByteOffset_Ok.
  assert (0 <= e * es) by (apply Z.mul_nonneg_nonneg; lia).
  eapply wp_seq; [apply (wp_writeArenaExact (ARENA_HEADER_BYTES + e * es + within) (replicate (Z.to_nat count) 0) h0 Hok); ll| |].
  2:{ intros e' h1 [K _]. split; [by apply (kept_trans _ h0)|done]. }
  intros [] h1 [K1 Ha]. specialize (Ha eq_refl). assert (K : kept h h1) by (by apply (kept_trans _ h0)).
  eapply (wp_seq _ _ (fun r h2 => kept h h2 /\ arena h2 = arena h1)).
  { unfold recordArenaWrite. apply wp_lift_bind; [|by intros]. intros u _. by apply wp_modify. }
  2:{ by intros e' h2 [K2 _]. }
  intros [] h2 [K2 Ha2]. pose proof K2 as (Hok2 & _ & Hst2 & _).
  assert (Hes2 : extentSize (v_state (h_vfs h2)) = es) by (by rewrite Hst2).
  eapply wp_conseq; [apply (IH (within + count) h2 Hok2); rewrite ?Hes2; lia|]. rewrite Hes2.
  intros r h3 [K3 Hcl]. split; [by apply (kept_trans _ h2)|]. intros Hr e' w He' Hw'. rewrite (Hcl Hr e' w He' Hw'), Ha2, Ha.
  rewrite byte_after by (unfold byteLength; rewrite ?length_replicate; lia).
  assert (Hlen : byteLength (replicate (Z.to_nat count) 0) = count) by (unfold byteLength; rewrite length_replicate; lia).
  rewrite Hlen. destruct (decide (e' = e /\ within + count <= w)) as [D1|D1]; [by rewrite decide_True by lia|].
  destruct (decide (e' = e /\ within <= w < within + count)) as [D2|D2].
  - rewrite (decide_True (P := e' = e /\ within <= w)) by lia. by rewrite lookup_replicate_2 by lia.
  - by rewrite (decide_False (P := e' = e /\ within <= w)) by lia.
Qed.

Lemma wp_zeroExtents es ids h : extentSize (v_state (h_vfs h)) = es -> 0 < es ->
  port_ok (h_world h) -> Forall (fun e => 0 <= e) ids ->
  wp (forM zeroExtent ids) (fun r h' => kept h h' /\ (r = Ok tt -> forall e w, 0 <= e -> 0 <= w < es ->
    byte_at (arena h') (ARENA_HEADER_BYTES + e * es + w) =
      if decide (e ∈ ids) then 0 else byte_at (arena h) (ARENA_HEADER_BYTES + e * es + w))) h.
Proof.
  intros Hes Hpos Hok Hids. revert h Hes Hok. induction Hids as [|x ids Hx _ IH]; intros h Hes Hok; cbn [forM].
  { apply wp_ret. split; [done|]. intros _ e w _ _. by rewrite decide_False by apply not_elem_of_nil. }
  eapply (wp_seq _ _ (fun r h' => kept h h' /\ (r = Ok tt -> cleared es x 0 (arena h) (arena h')))).
  { unfold zeroExtent. apply wp_vfs. rewrite <- Hes. apply wp_zeroExtentLoop; rewrite ?Hes; done || lia. }
  2:{ by intros e h1 [K _]. }
  intros [] h1 [K Hcl]. specialize (Hcl eq_refl). pose proof K as (Hok1 & _ & Hst & _).
  eapply wp_conseq; [apply (IH h1); [by rewrite Hst|done]|]. intros r h2 [K2 Hrest]. split; [by apply (kept_trans _ h1)|].
  intros Hr e w He Hw. rewrite (Hrest Hr e w He Hw), (Hcl e w He Hw).
  destruct (decide (e ∈ ids)) as [Hin|Hout]; [by rewrite decide_True by (by constructor)|].
  destruct (decide (e = x)) as [->|Hne].
  - rewrite decide_True by lia. by rewrite decide_True by constructor.
  - rewrite decide_False by tauto. rewrite decide_False; [done|]. rewrite elem_of_cons. tauto.
Qed.
(** The cached size, when there is one, is the size of the arena. *)
Definition cache_ok h : Prop :=
  match ar_size (v_arena (h_vfs h)) with Some size => size = byteLength (arena h) | None => True end.

(** Nothing was ever stored above the highest extent in use so far. *)
Definition clean_above h : Prop :=
  forall i, ARENA_HEADER_BYTES + om_arenaHighWaterExtents (v_store (h_vfs h)) * extentSize (v_state (h_vfs h)) <= i ->
    byte_at (arena h) i = 0.

Lemma wp_arenaSizeChecked h : port_ok (h_world h) -> cache_ok h ->
  wp arenaSizeChecked (fun r h' => kept h h' /\ arena h' = arena h /\ v_store (h_vfs h') = v_store (h_vfs h) /\
    forall n, r = Ok n -> n = byteLength (arena h)) h.
Proof.
  intros Hok Hcache. unfold arenaSizeChecked. apply wp_vfs. unfold cache_ok in Hcache.
  destruct (ar_size (v_arena (h_vfs h))) as [size|]; [apply wp_ret; split; [done|]; split; [done|]; split; [done|]; by intros n [= <-]|].
  eapply (wp_seq _ _ (fun r h' => kept h h' /\ arena h' = arena h /\ v_store (h_vfs h') = v_store (h_vfs h) /\
    forall n, r = Ok n -> n = byteLength (arena h))).
  - apply wp_world, wp_intro. intros w' r Hr. destruct (getSize_law _ _ _ _ Hok Hr) as (Hok' & _ & Hf & Hn).
    split; [split; [done|]; split; [intros f _; apply Hf|done]|]. split; [apply Hf|]. by split.
  - intros n h1 (K & Ha & Hs & Hn). apply wp_lift_bind; [|by intros]. intros u _. unfold setArenaSize. apply wp_modify_bind, wp_ret.
    split; [done|]. split; [done|]. split; [exact Hs|]. intros m [= <-]. by apply Hn.
  - intros e h1 (K & Ha & Hs & _). by split.
Qed.

Lemma byte_at_grow f n i : (length f <= n)%nat -> byte_at (resize n 0 f) i = byte_at f i.
Proof.
  intros Hn. unfold byte_at. destruct (decide (Z.to_nat i < length f)%nat); [by rewrite lookup_resize by lia|].
  rewrite (lookup_ge_None_2 f) by lia. destruct (decide (Z.to_nat i < n)%nat).
  - by rewrite lookup_resize_new by lia.
  - by rewrite lookup_resize_old by lia.
Qed.

Lemma wp_growArena fresh before h : port_ok (h_world h) -> before = byteLength (arena h) ->
  wp (growArena fresh before) (fun r h' => kept h h' /\ (r = Ok tt -> forall i, byte_at (arena h') i = byte_at (arena h) i)) h.
Proof.
  intros Hok ->. unfold growArena. destruct (last fresh) as [lst|]; [|by apply wp_ret].
  apply wp_vfs. apply wp_lift_bind; [|by intros]. intros required _. apply wp_lift_bind; [|by intros]. intros product _.
  apply wp_lift_bind; [|by intros]. intros stop [-> Hstop]%checkedU64_Ok. apply wp_when; [|by split]. intros Hlt. propify.
  unfold setArenaDirty. apply wp_modify_bind. set (h0 := mkHost _ _).
  eapply (wp_seq _ _ (fun _ h1 => kept h h1 /\ arena h1 = arena h)); [by apply wp_when; [intros _; apply wp_modify|]| |by intros e h1 [K _]].
  intros [] h1 [K Ha]. pose proof K as (Hok1 & _). apply wp_catch. unfold truncateArena, setArenaSize. apply wp_modify_bind.
  eapply (wp_seq _ _ (fun r h2 => kept h h2 /\ (r = Ok tt -> arena h2 = resize (Z.to_nat (ARENA_HEADER_BYTES + product)) 0 (arena h)))).
  - apply wp_world. cbn [h_world h_vfs]. unfold truncateChecked. apply wp_lift_bind; [|by intros].
    intros size [-> Hsize]%checkedSafeNumber_Ok. apply wp_intro. intros w' r Hr.
    destruct (truncate_law _ _ _ _ _ Hok1 Hr) as (Hok' & _ & Hoth & _ & Hf); [lia|].
    split; [|intros Hr'; rewrite <- Ha; by apply Hf]. apply (kept_trans _ h1); [done|]. by apply kept_vfs.
  - intros [] h2 [K2 Ha2]. specialize (Ha2 eq_refl). apply wp_lift_bind; [|by intros]. intros size _. apply wp_modify. split; [done|].
    intros _ i. change (byte_at (arena h2) i = byte_at (arena h) i). rewrite Ha2. apply byte_at_grow. unfold byteLength in Hlt. lia.
  - by intros e h2 [K2 _].
Qed.

Lemma wp_flushPreparedArena h : port_ok (h_world h) ->
  wp flushPreparedArena (fun _ h' => kept h h' /\ arena h' = arena h) h.
Proof.
  intros Hok. unfold flushPreparedArena, flushFile.
  eapply (wp_seq _ _ (fun _ h1 => kept h h1 /\ arena h1 = arena h)); [|intros [] h1 [K Ha]; by apply wp_modify|done].
  apply wp_modify_bind, wp_world. cbn [h_world h_vfs]. eapply wp_conseq; [by apply wp_flush|]. intros r w' [Hok' Hf].
  split; [by split|]. apply Hf.
Qed.

Lemma wp_prepareAllocated ids h :
  let es := extentSize (v_state (h_vfs h)) in
  port_ok (h_world h) -> cache_ok h -> clean_above h -> 0 < es -> Forall (fun e => 0 <= e) ids ->
  wp (prepareAllocated ids) (fun r h' => kept h h' /\ (r = Ok tt -> forall e w, 0 <= e -> 0 <= w < es ->
    byte_at (arena h') (ARENA_HEADER_BYTES + e * es + w) =
      if decide (e ∈ ids) then 0 else byte_at (arena h) (ARENA_HEADER_BYTES + e * es + w))) h.
Proof.
  intros es Hok Hcache Hclean Hes Hids. unfold prepareAllocated. case_bool_decide as Hnil.
  { subst ids. apply wp_ret. split; [done|]. intros _ e w _ _. by rewrite decide_False by apply not_elem_of_nil. }
  apply wp_vfs. cbv zeta. eapply wp_seq; [apply (wp_arenaSizeChecked h Hok Hcache)| |by intros e h1 [K _]].
  intros before h1 (K1 & Ha1 & _ & Hn). specialize (Hn before eq_refl). pose proof K1 as (Hok1 & _).
  eapply wp_seq; [apply (wp_growArena _ before h1 Hok1); by rewrite Ha1| |by intros e h2 [K _]; split; [by apply (kept_trans _ h1)|]].
  intros [] h2 [K2 Hgrow]. specialize (Hgrow eq_refl). assert (K12 : kept h h2) by (by apply (kept_trans _ h1)).
  pose proof K12 as (Hok2 & _ & Hst2 & _). set (reused := filter _ ids).
  assert (Hfresh : forall e w, e ∈ ids -> e ∉ reused -> 0 <= w < es -> byte_at (arena h) (ARENA_HEADER_BYTES + e * es + w) = 0).
  { intros e w He Hnot Hw. apply Hclean. fold es. assert (om_arenaHighWaterExtents (v_store (h_vfs h)) <= e); [|nia].
    destruct (decide (e < om_arenaHighWaterExtents (v_store (h_vfs h)))) as [Hlt|]; [|lia].
    destruct Hnot. apply list_elem_of_filter. by split; [right|]. }
  assert (Hsub : forall e, e ∈ reused -> e ∈ ids) by (by intros e [_ ?]%list_elem_of_filter).
  case_bool_decide as Hr0.
  { apply wp_ret. split; [done|]. intros _ e w He Hw. rewrite Hgrow, Ha1. destruct (decide (e ∈ ids)) as [Hin|]; [|done].
    apply Hfresh; [done| |done]. rewrite Hr0. apply not_elem_of_nil. }
  assert (Hpos : Forall (fun e => 0 <= e) reused) by (apply Forall_forall; intros e He%Hsub; by apply (Forall_forall (fun e => 0 <= e) ids)).
  eapply (wp_seq _ _ (fun r h3 => kept h h3 /\ (r = Ok tt -> forall e w, 0 <= e -> 0 <= w < es ->
    byte_at (arena h3) (ARENA_HEADER_BYTES + e * es + w) =
      if decide (e ∈ ids) then 0 else byte_at (arena h) (ARENA_HEADER_BYTES + e * es + w)))).
  - eapply wp_conseq; [apply (wp_zeroExtents es reused h2); [by rewrite Hst2|done..]|]. intros r h3 [K3 Hz].
    split; [by apply (kept_trans _ h2)|]. intros Hr e w He Hw. rewrite (Hz Hr e w He Hw), Hgrow, Ha1.
    destruct (decide (e ∈ reused)) as [Hin|Hout]; [by rewrite decide_True by auto|].
    destruct (decide (e ∈ ids)); [by apply Hfresh|done].
  - intros [] h3 [K3 Hz]. eapply wp_conseq; [apply wp_flushPreparedArena, K3|]. intros r h4 [K4 Ha4].
    split; [by apply (kept_trans _ h3)|]. intros _. rewrite Ha4. by apply Hz.
  - by intros e h3 [K3 _].
Qed.
End Arena.
