(* ===== verification/ArenaProps.v ===== *)
(** * Data in the arena: the properties

    A file reads back what was written to it, a write to one file never shows in another, and extents are
    handed out cleared. *)

From S2P Require Export ApplyTxn ArenaLaws.

(** The content a file should have after [source] was written at [position] over the content [before]. *)
Definition overlay (position : Z) (source : list Z) (before : Z -> Z) (l : Z) : Z :=
  if decide (position <= l < position + byteLength source) then default 0 (source !! Z.to_nat (l - position)) else before l.

(** C24. Reads return what was written. When [#writeLogical] reports no error, a read that returns gives, byte
    for byte, the source in the range that was written and the earlier content everywhere else, however short
    the transfers of the port were. *)
Theorem write_then_read (Wd : Type) (port : RepackedPort Wd) (lawful : LawfulPort Wd) (h h1 h2 : Host Wd)
  (extents allocated : list Z) (position a n : Z) (source out : list Z) (p : WriteProgress)
  (Hok : port_ok (h_world h)) (Hes : extent_size_ok (extentSize (v_state (h_vfs h))))
  (Hlayout : file_layout (extentSize (v_state (h_vfs h))) (extents ++ allocated))
  (Hwrite : writeLogical extents position source allocated h = (h1, Ok p)) (Hcomplete : wp_error p = None)
  (Ha : 0 <= a) (Hn : 0 <= n) (Hinside : a + n <= Z.of_nat (length (extents ++ allocated)) * extentSize (v_state (h_vfs h)))
  (Hread : readLogical (extents ++ allocated) a n h1 = (h2, Ok out)) :
  out = overlay position source (content (arena h) (extentSize (v_state (h_vfs h))) (extents ++ allocated)) <$> seqZ a n.
Proof.
  pose proof (wp_run _ _ _ _ _ (wp_writeLogical extents position source allocated h Hok Hlayout) Hwrite)
    as ((Hok1 & _ & Hst & _) & _ & [Hsame _] & Hp).
  destruct (Hp p eq_refl) as (_ & Hall & Hin). specialize (Hall Hcomplete). rewrite Hall in Hin.
  rewrite <- Hst in Hes. pose proof (wp_run _ _ _ _ _ (wp_readLogical (extents ++ allocated) a n h1 Hok1 Hes Hn) Hread) as (_ & _ & Hout).
  rewrite (Hout out eq_refl), Hst. unfold contents. apply list_fmap_ext. intros i l Hl%lookup_seqZ. unfold overlay.
  case_decide as D; [by destruct (Hin l) as [_ ->]; [lia|]|apply Hsame; [lia|done]].
Qed.

(** Files are isolated. Whatever [#writeLogical] does, complete, short or failing, a read of a file that
    shares no extent with the one written returns what it would have returned before, and no other file of
    the port changes. *)
Theorem writes_isolated (Wd : Type) (port : RepackedPort Wd) (lawful : LawfulPort Wd) (h h1 h2 : Host Wd)
  (extents allocated other : list Z) (position a n : Z) (source out : list Z) (r : R WriteProgress)
  (Hok : port_ok (h_world h)) (Hes : extent_size_ok (extentSize (v_state (h_vfs h))))
  (Hlayout : file_layout (extentSize (v_state (h_vfs h))) (extents ++ allocated))
  (Hother : file_layout (extentSize (v_state (h_vfs h))) other) (Hdisjoint : forall e, e ∈ other -> e ∉ extents ++ allocated)
  (Hwrite : writeLogical extents position source allocated h = (h1, r))
  (Ha : 0 <= a) (Hn : 0 <= n) (Hinside : a + n <= Z.of_nat (length other) * extentSize (v_state (h_vfs h)))
  (Hread : readLogical other a n h1 = (h2, Ok out)) :
  out = contents (arena h) (extentSize (v_state (h_vfs h))) other a n /\
  forall f, f <> ArenaBin -> file (h_world h1) f = file (h_world h) f.
Proof.
  pose proof (wp_run _ _ _ _ _ (wp_writeLogical extents position source allocated h Hok Hlayout) Hwrite)
    as ((Hok1 & Hfiles & Hst & _) & _ & [_ Houtside] & _).
  rewrite <- Hst in Hes. pose proof (wp_run _ _ _ _ _ (wp_readLogical other a n h1 Hok1 Hes Hn) Hread) as (_ & _ & Hout).
  rewrite (Hout out eq_refl), Hst in *. split; [|done]. unfold contents. apply list_fmap_ext. intros i l Hl%lookup_seqZ.
  destruct Hother as [Hpos _ Hids]. unfold content, physical.
  destruct (lookup_inside (extentSize (v_state (h_vfs h))) other l Hpos ltac:(lia)) as [e He].
  rewrite He. apply Houtside.
  - apply Hdisjoint. by eapply list_elem_of_lookup_2.
  - exact (Forall_lookup_1 _ _ _ _ Hids He).
  - by apply Z.mod_pos_bound.
Qed.

(** Extents are handed out cleared. When [#prepareAllocated] returns, every byte of every extent it
    prepared is zero, a reused one's too, and no byte of any other extent has changed. *)
Theorem allocation_zeroes (Wd : Type) (port : RepackedPort Wd) (lawful : LawfulPort Wd) (h h' : Host Wd) (ids : list Z)
  (Hok : port_ok (h_world h)) (Hcache : cache_ok h) (Hclean : clean_above h)
  (Hes : 0 < extentSize (v_state (h_vfs h))) (Hids : Forall (fun e => 0 <= e) ids)
  (Hrun : prepareAllocated ids h = (h', Ok tt)) :
  forall e w, 0 <= e -> 0 <= w < extentSize (v_state (h_vfs h)) ->
    byte_at (arena h') (ARENA_HEADER_BYTES + e * extentSize (v_state (h_vfs h)) + w) =
      if decide (e ∈ ids) then 0 else byte_at (arena h) (ARENA_HEADER_BYTES + e * extentSize (v_state (h_vfs h)) + w).
Proof.
  pose proof (wp_run _ _ _ _ _ (wp_prepareAllocated ids h Hok Hcache Hclean Hes Hids) Hrun) as [_ Hz].
  intros e w. by apply Hz.
Qed.

(** ** The witnesses: a port that keeps its files as lists *)

Definition FlatWorld : Type := OwnedFileName -> list Z.
Definition flat_set (name : OwnedFileName) (f : list Z) (w : FlatWorld) : FlatWorld :=
  fun x => if bool_decide (x = name) then f else w x.

#[local] Instance flat_port : RepackedPort FlatWorld := {|
  enumerate := mret [];
  acquire := fun _ => mret tt;
  getSize := fun name w => (w, Ok (byteLength (w name)));
  read := fun name n pos w =>
    let count := Z.min n (Z.max 0 (byteLength (w name) - pos)) in
    (w, Ok (count, subarray (w name) (Z.to_nat pos) (Z.to_nat (pos + count))));
  write := fun name src pos w => (flat_set name (write_at (Z.to_nat pos) src (w name)) w, Ok (byteLength src));
  truncate := fun name size w => (flat_set name (resize (Z.to_nat size) 0 (w name)) w, Ok tt);
  flush := fun _ => mret tt;
  close := fun _ => mret tt
|}.

Lemma flat_set_same name f w : flat_set name f w name = f.
Proof. unfold flat_set. by rewrite bool_decide_true. Qed.
Lemma flat_set_other name f w x : x <> name -> flat_set name f w x = w x.
Proof. intros Hx. unfold flat_set. by rewrite bool_decide_false. Qed.

#[local] Instance flat_lawful : LawfulPort FlatWorld.
Proof.
  refine {| file w := w; port_ok _ := True |}.
  - intros name n pos w w' r _ [= <- <-] Hp. split; [done|]. split; [done|]. split; [done|].
    intros count bytes [= <- <-] Hc. split; [lia|done].
  - intros name src pos w w' r _ [= <- <-] Hp. split; [done|]. split; [done|]. exists (length src). split; [done|].
    rewrite firstn_all, flat_set_same. split; [done|]. split; [intros f Hf; by apply flat_set_other|].
    intros count [= <-] _. unfold byteLength. lia.
  - intros name size w w' r _ [= <- <-] Hs. split; [done|]. split; [done|]. split; [intros f Hf; by apply flat_set_other|].
    rewrite flat_set_same. split; [by right|done].
  - by intros name w w' r _ [= <- <-].
  - intros name w w' r _ [= <- <-]. split; [done|]. split; [done|]. split; [done|]. by intros size [= <-].
Defined.

(** A store with extents of 8 KiB whose arena holds one byte in the second extent. *)
Definition flat_host : Host FlatWorld :=
  mkHost (flat_set ArenaBin (replicate (Z.to_nat 16384) 0 ++ [42]) (fun _ => []))
    (newVfs (mkOpened example_store 61 1 0 0 1 2 16385 false false) 0).

Lemma example_extent_size : extent_size_ok (extentSize (v_state (h_vfs flat_host))).
Proof. vm_compute. split; [split|]; congruence || reflexivity. Qed.

Lemma run_result {A} (m : M (Host FlatWorld) A) h r : (m h).2 = r -> m h = ((m h).1, r).
Proof. intros <-. apply surjective_pairing. Qed.

Definition after_write : Host FlatWorld := (writeLogical [0] 8190 [1; 2; 3] [2] flat_host).1.
Definition after_read : Host FlatWorld := (readLogical [0; 2] 8189 4 after_write).1.

Lemma example_layout : file_layout (extentSize (v_state (h_vfs flat_host))) [0; 2].
Proof. split; [reflexivity| |repeat (apply Forall_cons; split; [discriminate|]); apply Forall_nil_2]. repeat constructor; set_solver. Qed.

(** The write crosses from the first extent into the second. *)
Lemma write_then_read_witness :
  [0; 1; 2; 3] = overlay 8190 [1; 2; 3] (content (arena flat_host) (extentSize (v_state (h_vfs flat_host))) [0; 2]) <$> seqZ 8189 4.
Proof.
  apply (write_then_read FlatWorld flat_port flat_lawful flat_host after_write after_read [0] [2] 8190 8189 4 [1; 2; 3]
           [0; 1; 2; 3] (mkProgress 3 None)).
  - exact I.
  - exact example_extent_size.
  - exact example_layout.
  - apply run_result. vm_compute. reflexivity.
  - reflexivity.
  - discriminate.
  - discriminate.
  - vm_compute. discriminate.
  - apply run_result. vm_compute. reflexivity.
Defined.

Lemma writes_isolated_witness :
  [42] = contents (arena flat_host) (extentSize (v_state (h_vfs flat_host))) [1] 0 1 /\
  forall f, f <> ArenaBin -> file (h_world after_write) f = file (h_world flat_host) f.
Proof.
  apply (writes_isolated FlatWorld flat_port flat_lawful flat_host after_write (readLogical [1] 0 1 after_write).1 [0] [2] [1]
           8190 0 1 [1; 2; 3] [42] (Ok (mkProgress 3 None))).
  - exact I.
  - exact example_extent_size.
  - exact example_layout.
  - split; [reflexivity|repeat constructor; set_solver|apply Forall_singleton; discriminate].
  - intros e He%list_elem_of_singleton. subst e. apply (bool_decide_unpack _). vm_compute. exact I.
  - apply run_result. vm_compute. reflexivity.
  - discriminate.
  - discriminate.
  - vm_compute. discriminate.
  - apply run_result. vm_compute. reflexivity.
Defined.

Lemma flat_host_clean : clean_above flat_host.
Proof.
  intros i Hi. change (8192 + 2 * 8192 <= i) in Hi. unfold byte_at, arena. cbn [h_world flat_host file flat_lawful].
  rewrite flat_set_same, lookup_ge_None_2; [done|]. rewrite length_app, length_replicate. cbn [length]. lia.
Qed.

(** The second extent is handed out again. *)
Lemma allocation_zeroes_witness :
  byte_at (arena (prepareAllocated [1] flat_host).1) (ARENA_HEADER_BYTES + 1 * extentSize (v_state (h_vfs flat_host)) + 5) =
    (if decide (1 ∈ [1]) then 0
     else byte_at (arena flat_host) (ARENA_HEADER_BYTES + 1 * extentSize (v_state (h_vfs flat_host)) + 5)).
Proof.
  apply (allocation_zeroes FlatWorld flat_port flat_lawful flat_host (prepareAllocated [1] flat_host).1 [1]).
  - exact I.
  - vm_compute. reflexivity.
  - exact flat_host_clean.
  - reflexivity.
  - apply Forall_singleton. discriminate.
  - apply run_result. vm_compute. reflexivity.
  - discriminate.
  - split; [discriminate|vm_compute; reflexivity].
Defined.
