(* ===== verification/RepackProps.v ===== *)
(** * The repack

    What a repack projects of a state, and what it does to the store: the base it writes, the slot that
    activates it and the live store it leaves behind. *)

From S2P Require Export ApplyTxn Validity CommitLaws ArenaLaws CommitProps Slots.

(** ** The quarantine, entry by entry *)

Lemma set_middle {V} (pre post : list (Z * V)) k v v' : k ∉ JsMap.keys pre ->
  JsMap.set (pre ++ (k, v) :: post) k v' = pre ++ (k, v') :: post.
Proof.
  induction pre as [|[k0 v0] pre IH]; intros Hk; [unfold JsMap.set; cbn; by rewrite decide_True|].
  apply not_elem_of_cons in Hk as [? ?]. unfold JsMap.set. cbn. rewrite decide_False by done. f_equal. by apply IH.
Qed.

Lemma del_middle {V} (pre post : list (Z * V)) k v : k ∉ JsMap.keys pre ->
  JsMap.del (pre ++ (k, v) :: post) k = pre ++ post.
Proof.
  induction pre as [|[k0 v0] pre IH]; intros Hk; [unfold JsMap.del; cbn; by rewrite decide_True|].
  apply not_elem_of_cons in Hk as [? ?]. unfold JsMap.del. cbn. rewrite decide_False by done. f_equal. by apply IH.
Qed.

(** What becomes of a quarantined extent: a pinned one stays without a generation, a fresh one gets the next
    generation, and one that a generation already excludes is released. *)
Definition requarantined (next : Z) (pinned : gset Z) (entry : Z * option Z) : option (Z * option Z) :=
  if bool_decide (entry.1 ∈ pinned) then Some (entry.1, None)
  else match entry.2 with None => Some (entry.1, Some next) | Some _ => None end.

Definition is_released (pinned : gset Z) (entry : Z * option Z) : bool :=
  negb (bool_decide (entry.1 ∈ pinned)) && bool_decide (is_Some entry.2).

Definition released (pinned : gset Z) (q : list (Z * option Z)) : list Z :=
  (filter (fun entry => is_released pinned entry = true) q).*1.

Lemma elem_of_released pinned q e : e ∈ released pinned q <-> (e ∉ pinned) /\ (exists g, (e, Some g) ∈ q).
Proof.
  unfold released, is_released. rewrite list_elem_of_fmap. split.
  - intros ([e' [g|]] & -> & [Hr Hin]%list_elem_of_filter); cbn in *; [|by rewrite andb_false_r in Hr].
    propify. eauto.
  - intros (Hp & g & Hin). exists (e, Some g). split; [done|]. apply list_elem_of_filter. split; [|done].
    cbn. by rewrite bool_decide_false.
Qed.

Lemma requarantined_key next pinned entry entry' : requarantined next pinned entry = Some entry' -> entry'.1 = entry.1.
Proof. unfold requarantined. destruct entry as [e [g|]]; cbn; case_bool_decide; by intros [= <-]. Qed.

Lemma elem_of_requarantined next pinned q x : x ∈ JsMap.keys (omap (requarantined next pinned) q) <->
  exists g, (x, g) ∈ q /\ (x ∈ pinned \/ g = None).
Proof.
  unfold JsMap.keys. rewrite list_elem_of_fmap. split.
  - intros (entry' & -> & ([e g] & Hin & Hr)%list_elem_of_omap). rewrite (requarantined_key _ _ _ _ Hr).
    exists g. split; [done|]. unfold requarantined in Hr. cbn in Hr. case_bool_decide; [by left|]. destruct g; [done|by right].
  - intros (g & Hin & Hor). destruct (requarantined next pinned (x, g)) as [entry'|] eqn:E.
    + exists entry'. split; [by rewrite (requarantined_key _ _ _ _ E)|]. apply list_elem_of_omap. eauto.
    + unfold requarantined in E. cbn in E. case_bool_decide; [done|]. by destruct Hor as [ | -> ].
Qed.

Lemma requarantined_wf next pinned q : JsMap.wf q -> JsMap.wf (omap (requarantined next pinned) q).
Proof.
  unfold JsMap.wf. induction q as [|entry q IH]; [done|]. cbn. intros [Hn Hq]%NoDup_cons.
  destruct (requarantined next pinned entry) as [entry'|] eqn:E; [|by apply IH]. cbn. apply NoDup_cons. split; [|by apply IH].
  rewrite (requarantined_key _ _ _ _ E). intros (g & Hin & _)%elem_of_requarantined. apply Hn, list_elem_of_fmap. by exists (entry.1, g).
Qed.

(** The loop over the quarantine. *)
Lemma repackQuarantined_run next target pinned rest pre a n :
  quarantine a = pre ++ rest -> JsMap.wf (pre ++ rest) ->
  (forall e g, (e, Some g) ∈ rest -> (match target with None => true | Some t => t <? g end) = true) ->
  foldl (repackQuarantined next target pinned) (a, n) rest =
    (mkAllocator (totalExtents a) (ownedBy a) (fold_left ExtentSet.add (released pinned rest) (available a))
       (pre ++ omap (requarantined next pinned) rest), n - 8 * Z.of_nat (length (released pinned rest))).
Proof.
  revert pre a n. induction rest as [|[e g] rest IH]; intros pre a n Hq Hwf Hg.
  { cbn. rewrite app_nil_r in *. rewrite <- Hq, Z.sub_0_r. by destruct a. }
  assert (Hg' : forall e g, (e, Some g) ∈ rest -> (match target with None => true | Some t => t <? g end) = true)
    by (intros e' g' ?; apply (Hg e'); by right).
  assert (Hpre : e ∉ JsMap.keys pre).
  { intros Hin. unfold JsMap.wf, JsMap.keys in *. rewrite fmap_app in Hwf. apply NoDup_app in Hwf as (_ & Hd & _).
    apply (Hd e Hin). by left. }
  assert (Hkeep : forall g', JsMap.wf ((pre ++ [(e, g')]) ++ rest))
    by (intros g'; revert Hwf; unfold JsMap.wf, JsMap.keys; by rewrite !fmap_app, <- app_assoc).
  assert (Hdrop : JsMap.wf (pre ++ rest)).
  { revert Hwf. unfold JsMap.wf, JsMap.keys. rewrite !fmap_app. cbn. rewrite !NoDup_app, NoDup_cons.
    intros (? & Hd & ? & ?). split; [done|]. split; [|done]. intros x Hx Hr. apply (Hd x Hx). by right. }
  cbn [foldl]. unfold repackQuarantined at 2. unfold released, is_released, requarantined. cbn [omap list_omap fst snd].
  rewrite filter_cons. cbn [fst snd]. fold (requarantined next pinned). case_bool_decide as Hp; cbn [negb andb].
  - rewrite decide_False by done. fold (is_released pinned). fold (released pinned rest).
    rewrite (IH (pre ++ [(e, None)])); cbn; [by rewrite <- app_assoc| |done|done]. by rewrite Hq, set_middle, <- app_assoc.
  - destruct g as [g|].
    + rewrite (Hg e g) by (by left). rewrite decide_True by done.
      rewrite (IH pre); cbn; [|by rewrite Hq, del_middle|done|done]. f_equal. unfold released, is_released. lia.
    + rewrite decide_False by done. rewrite (IH (pre ++ [(e, Some next)])); cbn; [by rewrite <- app_assoc| |done|done].
      by rewrite Hq, set_middle, <- app_assoc.
Qed.

(** ** The allocator a repack leaves *)

Lemma elem_of_fold_add l av x : ExtentSet.wf av ->
  x ∈ ExtentSet.items (fold_left ExtentSet.add l av) <-> x ∈ ExtentSet.items av \/ x ∈ l.
Proof.
  revert av. induction l as [|y l IH]; intros av Hw; cbn; [rewrite elem_of_nil; tauto|].
  rewrite IH by (by apply ExtentSet.add_wf). rewrite (ExtentSet.elem_of_add av y x Hw), elem_of_cons. tauto.
Qed.

Lemma size_fold_add l av : ExtentSet.wf av -> NoDup l -> (forall x, x ∈ l -> x ∉ ExtentSet.items av) ->
  ExtentSet.size (fold_left ExtentSet.add l av) = ExtentSet.size av + Z.of_nat (length l).
Proof. intros Hw Hn Hd. unfold ExtentSet.size. rewrite ExtentSet.fold_add_items, length_app by done. lia. Qed.

Lemma released_keys pinned q e : e ∈ released pinned q -> e ∈ JsMap.keys q.
Proof. intros (_ & g & Hin)%elem_of_released. apply list_elem_of_fmap. by exists (e, Some g). Qed.

Lemma released_NoDup pinned q : JsMap.wf q -> NoDup (released pinned q).
Proof. unfold JsMap.wf, JsMap.keys, released. intros Hq. eapply sublist_NoDup; [exact Hq|]. apply fmap_sublist, sublist_filter. Qed.

(** Every entry stays or is released. *)
Lemma requarantined_length next pinned q :
  (length (omap (requarantined next pinned) q) + length (released pinned q) = length q)%nat.
Proof.
  unfold released. induction q as [|[e g] q IH]; [done|]. cbn [omap list_omap]. rewrite filter_cons.
  unfold requarantined at 1. cbn [fst snd]. case_bool_decide as Hp.
  - rewrite decide_False by (unfold is_released; cbn; by rewrite bool_decide_true). cbn in *. lia.
  - destruct g as [g|]; [rewrite decide_True by (unfold is_released; cbn; by rewrite bool_decide_false)|
      rewrite decide_False by (unfold is_released; cbn; by rewrite andb_false_r)]; cbn in *; lia.
Qed.

Definition requarantine (next : Z) (pinned : gset Z) (a : AllocatorState) : AllocatorState :=
  mkAllocator (totalExtents a) (ownedBy a) (fold_left ExtentSet.add (released pinned (quarantine a)) (available a))
    (omap (requarantined next pinned) (quarantine a)).

Lemma requarantine_ok next pinned a : AllocOk a -> AllocOk (requarantine next pinned a).
Proof.
  intros [Ht Hav Hq Hcov Hoa Hoq Haq]. pose proof (released_keys pinned (quarantine a)) as Hrk.
  assert (Hk : forall e, e ∈ JsMap.keys (omap (requarantined next pinned) (quarantine a)) ->
    e ∈ JsMap.keys (quarantine a) /\ e ∉ released pinned (quarantine a)).
  { intros e (g & Hin & Hor)%elem_of_requarantined. split; [apply list_elem_of_fmap; by exists (e, g)|].
    intros (Hp & g' & Hin')%elem_of_released. destruct Hor as [ | -> ]; [done|].
    apply (JsMap.elem_of_get _ _ _ Hq) in Hin, Hin'. congruence. }
  split; cbn; [done|by apply ExtentSet.fold_add_wf|by apply requarantined_wf| | | |].
  - intros e. rewrite Hcov, (elem_of_fold_add _ _ _ Hav). split.
    + intros [?|[?|Hin]]; [tauto|tauto|]. apply list_elem_of_fmap in Hin as ([e' g] & -> & Hin). cbn.
      destruct (decide (e' ∈ pinned)); [right; right; apply elem_of_requarantined; eauto|].
      destruct g as [g|]; [|right; right; apply elem_of_requarantined; eauto].
      right; left; right. apply elem_of_released. eauto.
    + intros [?|[[?|?]|?]]; [tauto|tauto|right; right; auto|]. right; right. by apply Hk.
  - intros e He. rewrite (elem_of_fold_add _ _ _ Hav). intros [?|?]; [by apply (Hoa e)|by apply (Hoq e), Hrk].
  - intros e He [? _]%Hk. by apply (Hoq e).
  - intros e. rewrite (elem_of_fold_add _ _ _ Hav). intros [?|?] [? ?]%Hk; [by apply (Haq e)|done].
Qed.

Lemma requarantine_available next pinned a e : AllocOk a ->
  e ∈ ExtentSet.items (available (requarantine next pinned a)) <->
  e ∈ ExtentSet.items (available a) \/ e ∈ released pinned (quarantine a).
Proof. intros A. apply elem_of_fold_add, A. Qed.

Lemma requarantine_bytes next pinned a : AllocOk a ->
  alloc_bytes (requarantine next pinned a) = alloc_bytes a - 8 * Z.of_nat (length (released pinned (quarantine a))).
Proof.
  intros A. unfold alloc_bytes. cbn. rewrite size_fold_add; [|apply A|apply released_NoDup, A|].
  - pose proof (requarantined_length next pinned (quarantine a)). lia.
  - intros e He%released_keys Hin. by apply (a_available_quarantine _ A e).
Qed.

(** ** The tail trim *)

Record trimmed (a a' : AllocatorState) : Prop := {
  tr_ok : AllocOk a';
  tr_total : totalExtents a' <= totalExtents a;
  tr_owned : ownedBy a' = ownedBy a;
  tr_quarantine : quarantine a' = quarantine a;
  tr_available : forall e, e ∈ ExtentSet.items (available a') <-> e ∈ ExtentSet.items (available a) /\ e < totalExtents a'
}.

Lemma trimTail_run n a b : AllocOk a -> (Z.to_nat (totalExtents a) <= n)%nat ->
  exists a', trimTail n a b = (a', b - alloc_bytes a + alloc_bytes a') /\ trimmed a a' /\
    totalExtents a' - 1 ∉ ExtentSet.items (available a').
Proof.
  revert a b. induction n as [|n IH]; intros a b A Hn; cbn [trimTail].
  - pose proof (a_total _ A). assert (Hz : totalExtents a = 0) by lia. exists a. split; [f_equal; lia|].
    assert (Hin : forall e, e ∈ ExtentSet.items (available a) -> 0 <= e < totalExtents a) by (intros e ?; apply A; auto).
    split; [split; try done; intros e; split; [intros He; specialize (Hin e He); split; [done|lia]|tauto]|].
    intros He%Hin. lia.
  - assert (Hin : forall e, e ∈ ExtentSet.items (available a) -> 0 <= e < totalExtents a) by (intros e ?; apply A; auto).
    assert (Hsame : trimmed a a) by (split; try done; intros e; split; [intros He; specialize (Hin e He); split; [done|lia]|tauto]).
    pose proof (a_available _ A) as Hw.
    destruct (0 <? totalExtents a) eqn:E0; propify.
    2:{ exists a. split; [f_equal; lia|]. split; [done|]. intros He%Hin. lia. }
    destruct (decide (totalExtents a - 1 ∈ ExtentSet.items (available a))) as [Hm|Hm].
    2:{ rewrite (ExtentSet.delete_absent _ _ Hw Hm). exists a. split; [f_equal; lia|]. done. }
    destruct (ExtentSet.delete_perm _ _ Hw Hm) as [Hd _].
    destruct (ExtentSet.delete (available a) (totalExtents a - 1)) as [av d] eqn:Ed. cbn in Hd. subst d.
    assert (Hav : av = (ExtentSet.delete (available a) (totalExtents a - 1)).1) by (by rewrite Ed).
    set (a1 := set_totalExtents _ _).
    assert (A1 : AllocOk a1).
    { destruct A as [Ht _ Hq Hcov Hoa Hoq Haq]. split; cbn; rewrite ?Hav; [lia|by apply ExtentSet.delete_wf|done| | |done|].
      - intros e. rewrite (ExtentSet.elem_of_delete _ _ _ Hw). pose proof (Hcov e) as Hc. split.
        + intros He. assert (e <> totalExtents a - 1) by lia. assert (0 <= e < totalExtents a) by lia. tauto.
        + intros He. assert (e <> totalExtents a - 1).
          { intros ->. destruct He as [He|[He|He]]; [by apply (Hoa _ He)|tauto|by apply (Haq _ Hm)]. }
          assert (0 <= e < totalExtents a) by tauto. lia.
      - intros e He. rewrite (ExtentSet.elem_of_delete _ _ _ Hw). intros [_ ?]. by apply (Hoa e).
      - intros e. rewrite (ExtentSet.elem_of_delete _ _ _ Hw). intros [_ ?]. by apply Haq. }
    assert (Hb : alloc_bytes a1 = alloc_bytes a - 8).
    { unfold alloc_bytes. cbn. rewrite Hav, ExtentSet.size_delete by done. lia. }
    destruct (IH a1 (b - 8) A1) as (a' & -> & [Hok Ht Ho Hq Hav'] & Hmax); [cbn; lia|].
    exists a'. split; [f_equal; lia|]. split; [|done]. cbn in *. split; try done; [lia|].
    intros e. rewrite Hav', Hav, (ExtentSet.elem_of_delete _ _ _ Hw). split; [tauto|]. intros [He ?]. split; [|done]. split; [lia|done].
Qed.

(** ** The projection *)

(** What a repack makes of the state [s]: the same files in the other metadata file and the next
    generation; of the quarantine, what is neither pinned nor fresh is available again. *)
Record repacked (s : VfsState) (pinned : gset Z) (p : VfsState) : Prop := {
  rp_generation : generation p = generation s + 1;
  rp_file : activeMetadataFile p = otherMetadataFile (activeMetadataFile s);
  rp_retained : retainedGenerations p (activeMetadataFile s) = Some (generation s);
  rp_inodes : inodes p = inodes s;
  rp_parents : parentByInode p = parentByInode s;
  rp_header : rootInodeId p = rootInodeId s /\ nextInodeId p = nextInodeId s /\ extentSize p = extentSize s;
  rp_owned : ownedBy (allocator p) = ownedBy (allocator s);
  rp_quarantine : quarantine (allocator p) = omap (requarantined (generation s + 1) pinned) (quarantine (allocator s));
  rp_available : forall e, e ∈ ExtentSet.items (available (allocator p)) <->
    (e ∈ ExtentSet.items (available (allocator s)) \/ e ∈ released pinned (quarantine (allocator s))) /\
    e < totalExtents (allocator p);
  rp_total : totalExtents (allocator p) <= totalExtents (allocator s);
  rp_trimmed : totalExtents (allocator p) - 1 ∉ ExtentSet.items (available (allocator p))
}.

Lemma elem_of_requarantined_some next pinned (q : list (Z * option Z)) e g : (e, Some g) ∈ omap (requarantined next pinned) q -> g = next.
Proof.
  intros ([e' g'] & _ & Hr)%list_elem_of_omap. unfold requarantined in Hr. cbn in Hr.
  case_bool_decide; [done|]. destruct g'; [done|]. congruence.
Qed.

Lemma alloc_bytes_nonneg a : 0 <= alloc_bytes a.
Proof. unfold alloc_bytes, ExtentSet.size. lia. Qed.

Lemma trimmed_bytes a a' : trimmed a a' -> AllocOk a -> alloc_bytes a' <= alloc_bytes a.
Proof.
  intros [Hok _ _ Hq Hav] A. unfold alloc_bytes, ExtentSet.size. rewrite Hq.
  assert (length (ExtentSet.items (available a')) <= length (ExtentSet.items (available a)))%nat; [|lia].
  apply submseteq_length, NoDup_submseteq; [apply Hok|]. by intros e [? _]%Hav.
Qed.

Lemma retained_set file g s f : retainedGenerations (set_retained file g s) f = if decide (f = file) then g else retainedGenerations s f.
Proof. destruct file, f; cbn; reflexivity. Qed.

Lemma other_file_ne f : otherMetadataFile f <> f.
Proof. by destruct f. Qed.

Lemma other_file_twice f : otherMetadataFile (otherMetadataFile f) = f.
Proof. by destruct f. Qed.

Lemma projectRepack_run s pinned : Inv s -> generation s < MAX_U64 ->
  exists p, projectRepackForActivation s pinned = Ok p /\ Inv p /\ repacked s pinned p.
Proof.
  intros [C Hb Hl] Hg. pose proof (c_alloc s C) as A. pose proof (c_retained s C) as [Hr1 Hr2].
  unfold projectRepackForActivation, projectRepackFromCopy. rewrite (proj2 (Z.eqb_neq _ _)) by lia.
  cbn [throw_if mbind result_bind]. set (copied := set_allocator _ s).
  assert (Hc : copied = s) by (unfold copied; destruct s as [? ? ? ? ? ? ? ? ? ? []]; unfold set_allocator, set_available; cbn in *; by rewrite ExtentSet.clone_id by apply A).
  rewrite Hc. rewrite (repackQuarantined_run _ _ _ (quarantine (allocator s)) []); [|done|apply A|].
  2:{ intros e g Hin. rewrite (c_quarantine s C e g Hin). destruct (retainedGenerations s (otherMetadataFile (activeMetadataFile s))) as [t|]; [|done].
      destruct (Hr2 t eq_refl). apply Z.ltb_lt. lia. }
  cbn [app]. fold (requarantine (generation s + 1) pinned (allocator s)). set (a1 := requarantine _ _ _).
  pose proof (requarantine_ok (generation s + 1) pinned _ A) as A1. fold a1 in A1.
  destruct (trimTail_run (Z.to_nat (totalExtents a1)) a1
              (basePayloadBytes s - 8 * Z.of_nat (length (released pinned (quarantine (allocator s))))) A1) as (a' & -> & Ht & Hmax);
    [lia|].
  pose proof (requarantine_bytes (generation s + 1) pinned _ A) as Hbytes. fold a1 in Hbytes.
  assert (Hn : basePayloadBytes s - 8 * Z.of_nat (length (released pinned (quarantine (allocator s)))) - alloc_bytes a1 + alloc_bytes a'
    = basePayloadBytes s - alloc_bytes (allocator s) + alloc_bytes a') by lia. rewrite Hn.
  pose proof (trimmed_bytes _ _ Ht A1) as Hle. pose proof (tr_total _ _ Ht) as Htot. destruct Ht as [A' _ Ho Hq Hav]. set (p := set_basePayloadBytes _ _).
  assert (P : repacked s pinned p).
  { split; try done; try exact Hq; try exact Hmax; try exact Htot.
    - unfold p. cbn. unfold retainedGenerations. cbn. unfold retainedGenerations in Hr1. by destruct (activeMetadataFile s).
    - intros e. unfold p. cbn. rewrite Hav. unfold a1. by rewrite requarantine_available. }
  assert (Ip : Inv p).
  { split; [split; try apply C| |]; cbn.
    - pose proof (c_generation s C). lia.
    - exact A'.
    - rewrite Ho. apply C.
    - split; [unfold p; cbn; unfold retainedGenerations; cbn; by destruct (activeMetadataFile s)|].
      intros g. unfold p. cbn. rewrite other_file_twice. unfold retainedGenerations in *. cbn.
      pose proof (c_generation s C). destruct (activeMetadataFile s); cbn in *; rewrite Hr1; intros [= <-]; lia.
    - intros e g. rewrite Hq. apply elem_of_requarantined_some.
    - unfold base_bytes. cbn. rewrite Hb. unfold base_bytes. lia.
    - lia. }
  rewrite (validateState_complete p Ip). by exists p.
Qed.

(** ** What recovery selects after an interrupted activation *)

(** The bytes [readSlot] returns. *)
Definition slot_at (f : list Z) (index : Z) : list Z :=
  subarray f (Z.to_nat (index * slotBytes)) (Z.to_nat (Z.min ((index + 1) * slotBytes) (byteLength f))).

(** The slot of a sequence number. *)
Definition slotIndex (seq : Z) : Z := (seq - 1) mod 2.
Definition activationOffset (seq : Z) : Z := slotIndex seq * Z.of_nat ACTIVATION_SLOT_BYTES.

(** What recovery selects from an activation file. *)
Definition selects (slots : list Z) (selection : ActivationPairSelection) : Prop :=
  selectActivationPair (slot_at slots 0) (slot_at slots 1) = Ok selection.

(** The activation file [slots] of a store on [cur]. *)
Record activated (slots : list Z) (cur : ActivationRecord) : Prop := {
  av_bytes : Forall byte slots;
  av_slot : decodeActivationSlot (slot_at slots (slotIndex (act_sequence cur))) = Ok cur;
  av_selected : exists older, selects slots (mkSelection cur older)
}.

(** A slot that was cut short and whose checksum holds all the same. *)
Definition undetected (slot before after : list Z) : Prop :=
  after <> slot /\ after <> before /\ requireChecksum after ACTIVATION_CHECKSUM_OFFSET = Ok tt.

Lemma slot_at_take f i : 0 <= i -> slot_at f i = take ACTIVATION_SLOT_BYTES (drop (Z.to_nat i * ACTIVATION_SLOT_BYTES) f).
Proof.
  intros Hi. assert (H128 : slotBytes = Z.of_nat ACTIVATION_SLOT_BYTES) by done. unfold slot_at, subarray. rewrite H128.
  set (k := ACTIVATION_SLOT_BYTES). replace (Z.to_nat (i * Z.of_nat k)) with (Z.to_nat i * k)%nat by lia.
  destruct (Z.le_gt_cases ((i + 1) * Z.of_nat k) (byteLength f)) as [H|H].
  - rewrite Z.min_l by done. f_equal. lia.
  - rewrite Z.min_r by lia. unfold byteLength in *. rewrite !take_ge; [done| |]; rewrite length_drop; lia.
Qed.

Lemma slot_written f i m slot : 0 <= i <= 1 -> (Z.to_nat i * ACTIVATION_SLOT_BYTES <= length f)%nat -> length slot = ACTIVATION_SLOT_BYTES ->
  (m <= length slot)%nat ->
  let f' := write_at (Z.to_nat i * ACTIVATION_SLOT_BYTES) (take m slot) f in
  slot_at f' i = take m slot ++ drop m (slot_at f i) /\ ((ACTIVATION_SLOT_BYTES <= length f)%nat -> slot_at f' (1 - i) = slot_at f (1 - i)).
Proof.
  intros Hi Hf Hl Hm. cbv zeta. rewrite !slot_at_take by lia. set (k := ACTIVATION_SLOT_BYTES) in *. set (at_ := (Z.to_nat i * k)%nat) in *.
  destruct m as [|m]; [by rewrite take_0|]. set (src := take (S m) slot).
  assert (Hs : length src = S m) by (unfold src; rewrite length_take; lia). destruct src as [|x src'] eqn:Es; [done|]. rewrite <- Es in *. clear Es.
  assert (E : write_at at_ src f = take at_ f ++ src ++ drop (at_ + S m) f).
  { unfold write_at. destruct src; [done|]. by rewrite resize_le, Hs by lia. } rewrite E. split.
  - rewrite drop_app_ge, length_take, Nat.min_l, Nat.sub_diag, drop_0 by (rewrite ?length_take; lia).
    rewrite take_app_ge by (rewrite Hs; lia). f_equal. rewrite Hs.
    replace (take k (drop at_ f)) with (take (S m + (k - S m)) (drop at_ f)) by (f_equal; lia). rewrite <- (firstn_skipn_comm (k - S m) (S m)), drop_drop. done.
  - intros Hk. assert (i = 0 \/ i = 1) as [-> | ->] by lia; cbn [Z.to_nat Nat.mul Z.sub] in *; unfold at_ in *; cbn [Z.to_nat Nat.mul Pos.to_nat] in *.
    + change (Z.to_nat (1 - 0)) with 1%nat. rewrite Nat.mul_1_l, take_0. cbn [app]. rewrite drop_app_ge, Hs, drop_drop by lia. do 2 f_equal. lia.
    + change (Z.to_nat (1 - 1)) with 0%nat. change (Z.to_nat 1) with 1%nat in *. rewrite Nat.mul_1_l, !Nat.mul_0_l, !drop_0 in *.
      rewrite take_app_le by (rewrite length_take; lia). by rewrite take_take, Nat.min_id.
Qed.

(** A slot without a valid checksum is no slot. *)
Lemma unchecked_slot bytes : Forall byte bytes -> requireChecksum bytes ACTIVATION_CHECKSUM_OFFSET <> Ok tt ->
  tryDecodeActivationSlot bytes = Ok None.
Proof.
  intros Hb Hc. unfold tryDecodeActivationSlot. assert (decodeActivationSlot bytes = Throw CorruptStoreError) as ->; [|done].
  unfold decodeActivationSlot. destruct (Nat.eqb_spec (length bytes) ACTIVATION_SLOT_BYTES) as [Hl|]; [|done]. cbn [negb throw_if mbind result_bind].
  assert (requireChecksum bytes ACTIVATION_CHECKSUM_OFFSET = Throw CorruptStoreError) as ->.
  { assert (E := requireChecksum_spec bytes ACTIVATION_CHECKSUM_OFFSET Hb). rewrite Hl in E. specialize (E ltac:(apply Nat.leb_le; vm_compute; reflexivity) ltac:(vm_compute; discriminate)).
    rewrite E in *. unfold throw_if in *. by destruct (negb _). }
  unfold requireMagic, requireZero, throw_if. by repeat case_match.
Qed.

Lemma slotIndex_next seq : slotIndex (seq + 1) = 1 - slotIndex seq /\ 0 <= slotIndex seq <= 1.
Proof. unfold slotIndex. Z.to_euclidean_division_equations. lia. Qed.

(** The pair of the slot of [cur] and of another one, in either position. *)
Lemma select_pair slots cur other : (slotIndex (act_sequence cur) = 0 \/ slotIndex (act_sequence cur) = 1) ->
  tryDecodeActivationSlot (slot_at slots (slotIndex (act_sequence cur))) = Ok (Some cur) ->
  tryDecodeActivationSlot (slot_at slots (1 - slotIndex (act_sequence cur))) = Ok other ->
  match other with Some new => act_sequence new = act_sequence cur + 1 /\ act_metadataFile new <> act_metadataFile cur | None => True end ->
  selects slots (match other with Some new => mkSelection new (Some cur) | None => mkSelection cur None end).
Proof.
  intros Hi Hc Ho Hn. unfold selects, selectActivationPair. destruct Hi as [Hi|Hi]; rewrite Hi in *; [change (1 - 0) with 1 in Ho|change (1 - 1) with 0 in Ho];
    rewrite Hc, Ho; cbn [mbind result_bind]; (destruct other as [new|]; [destruct Hn as [Hs Hf]|done]).
  - rewrite (proj2 (Z.ltb_lt _ _)), Hs, Z.eqb_refl, bool_decide_eq_false_2 by (done || lia). done.
  - rewrite (proj2 (Z.ltb_ge _ _)), Hs, Z.eqb_refl, bool_decide_eq_false_2 by (done || lia). done.
Qed.

Lemma try_decoded bytes r : decodeActivationSlot bytes = Ok r -> tryDecodeActivationSlot bytes = Ok (Some r).
Proof. unfold tryDecodeActivationSlot. by intros ->. Qed.

Lemma encoded_slot r slot : encodeActivationSlot r = Ok slot -> slot = slot_bytes r /\ decodeActivationSlot slot = Ok r.
Proof.
  intros He. assert (H : slot_ok r).
  { assert (D : Decision (slot_ok r)) by (unfold slot_ok; apply _). destruct D as [|Hn]; [done|]. by rewrite (encodeActivationSlot_refuses r Hn) in He. }
  rewrite (encodeActivationSlot_Ok r H) in He. injection He as <-. split; [done|by apply decode_slot_bytes].
Qed.

(** However much of the slot of the next record has been written, recovery selects the record the store is on or
    the next one, with the other as the older one. *)
Lemma selects_interrupted slots cur new slot m : activated slots cur -> encodeActivationSlot new = Ok slot ->
  act_sequence new = act_sequence cur + 1 -> act_metadataFile new <> act_metadataFile cur -> (m <= length slot)%nat ->
  let slots' := write_at (Z.to_nat (activationOffset (act_sequence new))) (take m slot) slots in
  (m = length slot -> selects slots' (mkSelection new (Some cur))) /\
  ((exists older, selects slots' (mkSelection cur older)) \/ selects slots' (mkSelection new (Some cur)) \/
   undetected slot (slot_at slots (slotIndex (act_sequence new))) (slot_at slots' (slotIndex (act_sequence new)))).
Proof.
  intros [Hb Hcur [older Hsel]] He Hs Hf Hm slots'. destruct (encoded_slot new slot He) as [Hslot Hdec].
  assert (Hl : length slot = ACTIVATION_SLOT_BYTES) by (rewrite Hslot; apply slot_bytes_length).
  destruct (slotIndex_next (act_sequence cur)) as [Hnext Hrange]. rewrite <- Hs in Hnext. set (i := slotIndex (act_sequence new)) in *.
  set (j := slotIndex (act_sequence cur)) in *.
  destruct (decode_sealed _ _ Hcur) as [Hlc _]. rewrite slot_at_take, length_take, length_drop in Hlc by lia.
  assert (Hlen : (Z.to_nat j * ACTIVATION_SLOT_BYTES + ACTIVATION_SLOT_BYTES <= length slots)%nat).
  { assert (0 < ACTIVATION_SLOT_BYTES)%nat by (unfold ACTIVATION_SLOT_BYTES; lia). lia. }
  destruct (slot_written slots i m slot) as [Hi Hj]; [lia| |done|done|].
  { assert (i = 0 \/ j = 0) as [-> | E] by lia; [cbn; lia|]. rewrite E in *. replace i with 1 by lia. change (Z.to_nat 1) with 1%nat. lia. }
  assert (Eo : Z.to_nat (activationOffset (act_sequence new)) = (Z.to_nat i * ACTIVATION_SLOT_BYTES)%nat) by (unfold activationOffset; fold i; lia).
  rewrite <- Eo in Hi, Hj. fold slots' in Hi, Hj. specialize (Hj ltac:(lia)).
  replace (1 - i) with j in Hj by lia. assert (Hcur' : tryDecodeActivationSlot (slot_at slots' j) = Ok (Some cur)) by (rewrite Hj; by apply try_decoded).
  assert (Hij : 1 - j = i) by lia. assert (Hpos : j = 0 \/ j = 1) by lia. unfold j in Hpos, Hcur', Hij.
  pose proof (select_pair slots' cur) as Hpair. rewrite Hij in Hpair. fold j in Hpair, Hpos, Hcur'.
  assert (Hnew : slot_at slots' i = slot -> selects slots' (mkSelection new (Some cur))).
  { intros E. apply (Hpair (Some new)); [done|done|rewrite E; by apply try_decoded|done]. }
  split; [intros ->; apply Hnew; rewrite Hi, firstn_all, drop_ge, app_nil_r by (rewrite slot_at_take, length_take by lia; lia); done|].
  destruct (decide (slot_at slots' i = slot)) as [E|Hns]; [right; left; by apply Hnew|].
  destruct (decide (slot_at slots' i = slot_at slots i)) as [E|Hnb].
  - left. exists older. unfold selects in *. rewrite <- Hsel. assert (i = 0 /\ j = 1 \/ i = 1 /\ j = 0) as [[E1 E2]|[E1 E2]] by lia;
      rewrite E1, E2 in *; congruence.
  - destruct (requireChecksum (slot_at slots' i) ACTIVATION_CHECKSUM_OFFSET) as [[]|e] eqn:Hc; [right; right; done|left].
    exists None. apply (Hpair None); [done|done| |done]. apply unchecked_slot; [|by rewrite Hc]. rewrite Hi. apply Forall_app. split.
    + apply Forall_take. rewrite Hslot. apply slot_bytes_byte.
    + rewrite slot_at_take by lia. by apply Forall_drop, Forall_take, Forall_drop.
Qed.

(** ** The repack of a live store

    The base of the next generation is complete and settled before the slot that activates it is touched, and
    the store moves to it only when the slot is settled too. *)

Section Repack.
Context {Wd : Type} `{DurablePort Wd} (dateNow performanceNow : M Wd Z).
Implicit Types (h : Host Wd) (v : Vfs) (w : Wd).

(** A clock returns and leaves the port alone. *)
Definition is_clock (clock : M Wd Z) : Prop := forall w, exists now, clock w = (w, Ok now).

Lemma wp_clock {B} (clock : M Wd Z) (k : Z -> M (Host Wd) B) Q h : is_clock clock ->
  (forall now, wp (k now) Q h) -> wp (on_world clock ≫= k) Q h.
Proof.
  intros Hc Hk. destruct (Hc (h_world h)) as [now E]. apply (wp_bind_run _ _ _ _ h now); [|done].
  unfold on_world. rewrite E. by destruct h.
Qed.

(** ** What is written *)

Definition inactiveName (s : VfsState) : OwnedFileName := metadataFileName (otherMetadataFile (activeMetadataFile s)).

Lemma metadata_names f : metadataFileName f <> ArenaBin /\ metadataFileName f <> ActivationBin /\
  metadataFileName f <> metadataFileName (otherMetadataFile f).
Proof. by destruct f. Qed.

(** The base of a repack of [s]. *)
Record repack_base (s : VfsState) (pinned : gset Z) (p : VfsState) (base : list Z) : Prop := {
  rb_inv : Inv p;
  rb_repacked : repacked s pinned p;
  rb_encoded : encodeValidatedMetadataBase p = Ok base
}.

Definition activation_of (seq : Z) (p : VfsState) (base : list Z) : ActivationRecord :=
  mkActivation seq (activeMetadataFile p) (generation p) (byteLength base) (metadataBaseDigest base).

Lemma prepareRepack_Ok seq v p base slot : Inv (v_state v) -> prepareRepack seq v = Ok (p, base, slot) ->
  repack_base (v_state v) (pinnedExtents (v_table v)) p base /\ encodeActivationSlot (activation_of seq p base) = Ok slot.
Proof.
  intros Hs Hp. unfold prepareRepack in Hp. apply bind_Ok in Hp as (p' & Hproj & Hp).
  apply bind_Ok in Hp as (b & Hb & Hp). apply bind_Ok in Hp as (a & Ha & [= -> -> ->]).
  destruct (decide (generation (v_state v) < MAX_U64)) as [Hg|Hg].
  - destruct (projectRepack_run (v_state v) (pinnedExtents (v_table v)) Hs Hg) as (p'' & E & Hi & Hr).
    rewrite Hproj in E. injection E as <-. done.
  - pose proof (c_generation _ (inv_core _ Hs)). unfold projectRepackForActivation, projectRepackFromCopy in Hproj.
    by rewrite (proj2 (Z.eqb_eq _ _)) in Hproj by lia.
Qed.

(** ** Writing the inactive base *)

(** The inactive metadata file holds the settled base [base]. *)
Definition base_settled (s : VfsState) (base : list Z) w : Prop := file w (inactiveName s) = base /\ settled w (inactiveName s).

Definition keeps_files (except : OwnedFileName) h h' : Prop :=
  forall f, f <> except -> file (h_world h') f = file (h_world h) f.

Lemma Live_moved s0 base log sm n frame k name h w : Live s0 base log sm n frame k h -> port_ok w -> name <> activeName (h_vfs h) ->
  (forall f, f <> name -> file w f = file (h_world h) f) -> (forall f, f <> name -> settled (h_world h) f -> settled w f) ->
  Live s0 base log sm n frame k (mkHost w (h_vfs h)).
Proof.
  intros L Hok Hn Hf Hset. apply (Live_world _ _ _ _ _ _ _ h); [done|done|done|apply Hf; congruence|apply Hset; congruence].
Qed.

Lemma write_at_empty src : write_at 0 src [] = src.
Proof. unfold write_at. destruct src; [done|]. by rewrite drop_nil, app_nil_r. Qed.

Lemma wp_writeInactiveBase s0 b0 log sm n frame k p base h : Live s0 b0 log sm n frame k h ->
  activeMetadataFile p = otherMetadataFile (activeMetadataFile (v_state (h_vfs h))) ->
  wp (writeInactiveBase p base) (fun r h' => Live s0 b0 log sm n frame k h' /\ same_log (h_vfs h) (h_vfs h') /\
    keeps_files (inactiveName (v_state (h_vfs h))) h h' /\
    (r = Ok tt -> base_settled (v_state (h_vfs h)) base (h_world h'))) h.
Proof.
  intros L Hp. unfold writeInactiveBase. rewrite Hp. fold (inactiveName (v_state (h_vfs h))). set (B := inactiveName _).
  assert (HB : B <> activeName (h_vfs h)) by apply not_eq_sym, metadata_names.
  eapply wp_seq; [exact (wp_flushFile _ _ _ _ _ _ _ ArenaBin FlushArena h L)| |].
  2:{ intros e h1 (L1 & Hs1 & _ & Hf1 & _). split; [done|]. split; [done|]. split; [by intros f _|done]. }
  intros [] h1 (L1 & Hs1 & _ & Hf1 & _). apply wp_modify_bind. set (h2 := mkHost _ _).
  assert (L2 : Live s0 b0 log sm n frame k h2) by (by apply (Live_same _ _ _ _ _ _ _ h1)).
  assert (Hs2 : same_log (h_vfs h) (h_vfs h2)) by exact Hs1.
  assert (Hn2 : activeName (h_vfs h2) = activeName (h_vfs h)) by (unfold activeName, v_state; by rewrite (proj1 Hs2)).
  assert (Hf2 : forall f, file (h_world h2) f = file (h_world h) f) by exact Hf1. clearbody h2. clear L1 Hs1 Hf1 h1.
  assert (Hok2 : port_ok (h_world h2)) by apply L2.
  eapply (wp_seq _ _ (fun r h3 => Live s0 b0 log sm n frame k h3 /\ h_vfs h3 = h_vfs h2 /\ keeps_files B h2 h3 /\
    (r = Ok tt -> file (h_world h3) B = []))).
  { apply wp_world, wp_intro. intros w r Hr. pose proof (fun f => truncate_keeps _ _ _ _ _ f Hok2 Hr) as Hkeep.
    apply truncate_law in Hr as (Hok & _ & Hoth & _ & Hall); [|done|lia].
    split; [apply (Live_moved _ _ _ _ _ _ _ B); by rewrite ?Hn2|]. split; [done|]. split; [done|].
    intros Hr. cbn. rewrite (Hall Hr). by rewrite resize_0. }
  2:{ intros e h3 (L3 & Hv3 & Hf3 & _). split; [done|]. rewrite Hv3. split; [done|]. split; [|done]. intros f Hf. by rewrite Hf3. }
  intros [] h3 (L3 & Hv3 & Hf3 & He3). specialize (He3 eq_refl). assert (Hok3 : port_ok (h_world h3)) by apply L3.
  eapply (wp_seq _ _ (fun r h4 => Live s0 b0 log sm n frame k h4 /\ h_vfs h4 = h_vfs h2 /\ keeps_files B h2 h4 /\
    (r = Ok tt -> file (h_world h4) B = base))).
  { apply wp_world, wp_intro. intros w r Hr. pose proof (fun f => writeExact_keeps _ _ _ _ _ _ f Hok3 Hr) as Hkeep.
    destruct (writeExact_outcome _ _ _ _ _ _ Hok3 Hr) as (Hok & Hoth & _ & m & _ & Hw & Hall).
    split; [apply (Live_moved _ _ _ _ _ _ _ B); rewrite ?Hv3, ?Hn2; done|]. split; [done|].
    split; [intros f Hf; cbn; by rewrite Hoth, Hf3|]. intros Hr'. cbn.
    by rewrite Hw, (Hall Hr'), firstn_all, He3, write_at_empty. }
  2:{ intros e h4 (L4 & Hv4 & Hf4 & _). split; [done|]. rewrite Hv4. split; [done|]. split; [|done]. intros f Hf. by rewrite Hf4. }
  intros [] h4 (L4 & Hv4 & Hf4 & He4). specialize (He4 eq_refl).
  eapply wp_conseq; [exact (wp_flushFile _ _ _ _ _ _ _ B FlushMetadata h4 L4)|]. intros r h5 (L5 & Hs5 & Hset & Hf5 & _).
  split; [done|]. split; [|split].
  - rewrite Hv4 in Hs5. destruct Hs2 as (? & ? & ? & ?), Hs5 as (? & ? & ? & ?). repeat split; congruence.
  - intros f Hf. by rewrite Hf5, Hf4, Hf2.
  - intros Hr. split; [fold B; by rewrite Hf5|by apply Hset].
Qed.

(** ** Activating it *)

(** The slot of the sequence number [seq], with the settled record [slot]. *)
Definition slot_settled (seq : Z) (slot before : list Z) w : Prop :=
  file w ActivationBin = write_at (Z.to_nat (activationOffset seq)) slot before /\ settled w ActivationBin.

(** The slot of the sequence number [seq], as far as the first [m] bytes of the record [slot]. *)
Definition slot_started (seq : Z) (slot before : list Z) w : Prop :=
  exists m, (m <= length slot)%nat /\ file w ActivationBin = write_at (Z.to_nat (activationOffset seq)) (take m slot) before.

(** What a step that is at work on the file [name] keeps of the others. *)
Definition others_kept (name : OwnedFileName) w w' : Prop := forall f, f <> name ->
  file w' f = file w f /\ (settled w f -> settled w' f).

Lemma others_kept_trans name w1 w2 w3 : others_kept name w1 w2 -> others_kept name w2 w3 -> others_kept name w1 w3.
Proof. intros K1 K2 f Hf. destruct (K1 f Hf), (K2 f Hf). split; [congruence|auto]. Qed.

Lemma Live_others s0 base log sm n frame k name h h' : Live s0 base log sm n frame k h -> same_log (h_vfs h) (h_vfs h') ->
  port_ok (h_world h') -> name <> activeName (h_vfs h) -> others_kept name (h_world h) (h_world h') ->
  Live s0 base log sm n frame k h'.
Proof. intros L Hs Hok Hn Ho. apply (Live_world _ _ _ _ _ _ _ h); try done; apply Ho; congruence. Qed.

Lemma active_not_activation v : ActivationBin <> activeName v.
Proof. apply not_eq_sym, metadata_names. Qed.

Lemma wp_writeActivation s0 b0 log sm n frame k seq slot h : Live s0 b0 log sm n frame k h ->
  wp (writeActivation seq slot) (fun r h' => others_kept ActivationBin (h_world h) (h_world h') /\ v_state (h_vfs h') = v_state (h_vfs h) /\
    match r with
    | Ok _ => Live s0 b0 log sm n frame k h' /\ same_log (h_vfs h) (h_vfs h') /\
        slot_settled seq slot (file (h_world h) ActivationBin) (h_world h')
    | Throw _ => broken s0 b0 None h' /\ slot_started seq slot (file (h_world h) ActivationBin) (h_world h')
    end) h.
Proof.
  intros L. unfold writeActivation. apply wp_poisoning. pose proof (active_not_activation (h_vfs h)) as Hname.
  assert (Hok : port_ok (h_world h)) by apply L.
  assert (Hfail : forall e h1, Live s0 b0 log sm n frame k h1 -> same_log (h_vfs h) (h_vfs h1) ->
    others_kept ActivationBin (h_world h) (h_world h1) -> slot_started seq slot (file (h_world h) ActivationBin) (h_world h1) ->
    (v_status (h_vfs h1) = StatusOpen /\ others_kept ActivationBin (h_world h) (h_world h1) /\
      v_state (poisoned e (h_vfs h1)) = v_state (h_vfs h) /\ broken s0 b0 None (mkHost (h_world h1) (poisoned e (h_vfs h1))) /\
      slot_started seq slot (file (h_world h) ActivationBin) (h_world h1)) \/
    (v_status (h_vfs h1) <> StatusOpen /\ others_kept ActivationBin (h_world h) (h_world h1) /\
      v_state (h_vfs h1) = v_state (h_vfs h) /\ broken s0 b0 None h1 /\ slot_started seq slot (file (h_world h) ActivationBin) (h_world h1))).
  { intros e h1 L1 Hs1 Ho Hst. left. split; [apply L1|]. split; [done|]. split; [|split; [eexists; by eapply broken_untouched|done]].
    change (v_state (h_vfs h1) = v_state (h_vfs h)). unfold v_state. by rewrite (proj1 Hs1). }
  eapply (wp_seq _ _ (fun r h1 => Live s0 b0 log sm n frame k h1 /\ h_vfs h1 = h_vfs h /\
    others_kept ActivationBin (h_world h) (h_world h1) /\ slot_started seq slot (file (h_world h) ActivationBin) (h_world h1) /\
    (r = Ok tt -> file (h_world h1) ActivationBin = write_at (Z.to_nat (activationOffset seq)) slot (file (h_world h) ActivationBin)))).
  - apply wp_world, wp_intro. intros w r Hr. fold (activationOffset seq) in Hr.
    pose proof (fun f => writeExact_keeps _ _ _ _ _ _ f Hok Hr) as Hkeep.
    destruct (writeExact_outcome _ _ _ _ _ _ Hok Hr) as (Hok1 & Hoth & _ & m & Hm & Hw & Hall).
    assert (Ho : others_kept ActivationBin (h_world h) w) by (intros f Hf; split; auto).
    split; [by eapply (Live_others _ _ _ _ _ _ _ ActivationBin h)|]. split; [done|]. split; [done|]. split; [by exists m|].
    intros Hr'. cbn. by rewrite Hw, (Hall Hr'), firstn_all.
  - intros [] h1 (L1 & Hv1 & Ho1 & (m & Hm & Hw) & Hf1). specialize (Hf1 eq_refl).
    eapply wp_conseq; [exact (wp_flushFile _ _ _ _ _ _ _ ActivationBin FlushManifest h1 L1)|].
    intros r h2 (L2 & Hs2 & Hset & Hf2 & Hk2). rewrite Hv1 in Hs2.
    assert (Ho2 : others_kept ActivationBin (h_world h) (h_world h2)).
    { intros f Hf. destruct (Ho1 f Hf) as [E Hk]. split; [by rewrite Hf2|auto]. }
    destruct r as [[]|e]; [|apply (Hfail e h2 L2 Hs2 Ho2); exists m; by rewrite Hf2]. split; [done|]. split; [unfold v_state; by rewrite (proj1 Hs2)|].
    split; [done|]. split; [done|]. split; [by rewrite Hf2|by apply Hset].
  - intros e h1 (L1 & Hv1 & Ho1 & Hst1 & _). apply (Hfail e h1 L1); [by rewrite Hv1|done|done].
Qed.

(** ** Moving to it *)

Lemma wp_adoptBase s0 b0 log sm n pinned p base seq reason h : is_clock dateNow -> Live s0 b0 log sm n [] 0 h ->
  repack_base (v_state (h_vfs h)) pinned p base -> base_settled (v_state (h_vfs h)) base (h_world h) ->
  wp (adoptBase dateNow reason p (byteLength base) seq) (fun r h' => r = Ok tt /\ h_world h' = h_world h /\
    v_state (h_vfs h') = p /\ Live p base [] p 0 [] 0 h') h.
Proof.
  intros Hclock L P [Hf Hset]. pose proof (rp_file _ _ _ (rb_repacked _ _ _ _ P)) as Hfile.
  assert (Hname : metadataFileName (activeMetadataFile p) = inactiveName (v_state (h_vfs h))) by (unfold inactiveName; by rewrite Hfile).
  destruct L as [[Hok _ _ _] Hopen Hp _ _ _ _ _ _ _].
  assert (Hpend : v_pendingResizeCommit (h_vfs h) = None).
  { unfold pending_on in Hp. destruct (v_pendingResizeCommit (h_vfs h)); [|done]. by destruct Hp as (_ & _ & _ & _ & ?). }
  unfold adoptBase. apply wp_poisoning, wp_modify_bind, wp_clock; [done|]. intros now.
  apply wp_modify_bind, wp_modify. split; [done|]. split; [done|]. split; [done|].
  split; [split; [done| |apply P|constructor]|done| | | | | | | |].
  - change (file (h_world h) (metadataFileName (activeMetadataFile p)) = base ++ [] ++ []). by rewrite Hname, Hf, app_nil_r.
  - unfold pending_on. vsimpl. by rewrite Hpend.
  - by rewrite app_nil_r.
  - done.
  - done.
  - done.
  - done.
  - done.
  - intros _. change (settled (h_world h) (metadataFileName (activeMetadataFile p))). by rewrite Hname.
Qed.

(** ** Trimming the arena *)

Lemma wp_trimArena s0 b0 log sm n frame k stop h : 0 <= stop -> Live s0 b0 log sm n frame k h ->
  wp (trimArena stop) (fun r h' => r = Ok tt /\ Live s0 b0 log sm n frame k h' /\ v_state (h_vfs h') = v_state (h_vfs h) /\
    others_kept ArenaBin (h_world h) (h_world h')) h.
Proof.
  intros Hstop L. unfold trimArena. apply wp_catch.
  assert (Hn : ArenaBin <> activeName (h_vfs h)) by apply not_eq_sym, metadata_names.
  set (Q := fun h' => port_ok (h_world h') /\ same_log (h_vfs h) (h_vfs h') /\ others_kept ArenaBin (h_world h) (h_world h')).
  assert (HQ : forall h', Q h' -> Ok tt = Ok tt (E := error) /\ Live s0 b0 log sm n frame k h' /\
    v_state (h_vfs h') = v_state (h_vfs h) /\ others_kept ArenaBin (h_world h) (h_world h')).
  { intros h' (Hok & Hs & Ho). split; [done|]. split; [by eapply Live_others|]. split; [|done]. unfold v_state. by rewrite (proj1 Hs). }
  assert (Hok : port_ok (h_world h)) by apply L.
  apply (wp_conseq _ (fun _ h' => Q h')); [|intros [[]|e] h' H'; [by apply HQ|by apply wp_ret, HQ]].
  eapply (wp_seq _ _ (fun _ h' => Q h')); [| |done].
  - unfold arenaSizeChecked. apply wp_vfs. destruct (ar_size _); [by apply wp_ret|].
    eapply (wp_seq _ _ (fun _ h' => Q h')); [| |done].
    + apply wp_world, wp_intro. intros w r Hr. pose proof (fun f => getSize_keeps _ _ _ _ f Hok Hr) as Hk.
      apply getSize_law in Hr as (Hok' & _ & Hf & _); [|done]. split; [done|]. split; [done|]. intros f _. auto.
    + intros size h1 Q1. apply wp_lift_bind; [|done]. intros _ _. by apply wp_modify_bind, wp_ret.
  - intros size h1 (Hok1 & Hs1 & Ho1). apply wp_when; [intros _|done]. apply wp_modify_bind, wp_modify_bind.
    eapply (wp_seq _ _ (fun _ h' => Q h')); [| |done].
    + apply wp_world. unfold truncateChecked. apply wp_lift_bind; [|done].
      intros size' [-> _]%checkedSafeNumber_Ok. apply wp_intro. intros w r Hr.
      pose proof (fun f => truncate_keeps _ _ _ _ _ f Hok1 Hr) as Hk. apply truncate_law in Hr as (Hok2 & _ & Hoth & _); [|done|done].
      split; [done|]. split; [done|]. eapply others_kept_trans; [exact Ho1|]. intros f Hf. auto.
    + intros [] h2 Q2. apply wp_lift_bind; [|done]. intros size' _. by apply wp_modify.
Qed.

(** ** The whole repack *)

Lemma wp_and {S A} (m : M S A) P Q s : wp m P s -> wp m Q s -> wp m (fun r s' => P r s' /\ Q r s') s.
Proof. unfold wp. by destruct (m s). Qed.

(** The pending resize is written to the active metadata file only. *)
Lemma wp_materialize_frame s0 b0 log sm n frame k h : Live s0 b0 log sm n frame k h ->
  wp materializePendingResize (fun _ h' => v_table (h_vfs h') = v_table (h_vfs h) /\ keeps_files (activeName (h_vfs h)) h h') h.
Proof.
  intros [[Hok Hf _ _] Hopen Hp He _ _ _ _ _ _]. unfold materializePendingResize. apply wp_vfs.
  destruct (v_pendingResizeCommit (h_vfs h)); [|by apply wp_ret].
  eapply (wp_seq _ _ (fun r h1 => h_world h1 = h_world h /\ v_table (h_vfs h1) = v_table (h_vfs h) /\
    (r <> Throw FuelExhausted -> is_ok r = true -> h_vfs h1 = h_vfs h))).
  - apply wp_poisoning. apply wp_lift_bind.
    + intros f _. apply wp_lift_bind; [intros _ _; by apply wp_ret|]. intros e _. by left.
    + intros e _. by left.
  - intros bytes h1 (Hw & _ & Hv). specialize (Hv ltac:(done) eq_refl).
    eapply wp_seq; [apply wp_appendFrame; rewrite ?Hv, ?Hw; try done; by rewrite He, Hf, app_nil_r| |].
    + intros [] h2 (_ & Hoth & _ & k' & _ & _ & _ & Hv2). apply wp_modify. rewrite Hw, Hv in Hoth. cbn. rewrite Hv2, Hv.
      split; [done|]. exact Hoth.
    + intros e h2 (_ & Hoth & _ & k' & _ & _ & e' & Hv2). rewrite Hw, Hv in Hoth. rewrite Hv2, Hv. split; [done|]. exact Hoth.
  - intros e h1 (Hw & Ht & _). split; [done|]. intros f _. by rewrite Hw.
Qed.

(** A repack that returned. *)
Record repack_completed (s : VfsState) (pinned : gset Z) (seq : Z) (slots : list Z) h : Prop := {
  rc_base : exists base slot, repack_base s pinned (v_state (h_vfs h)) base /\ Live (v_state (h_vfs h)) base [] (v_state (h_vfs h)) 0 [] 0 h /\
    settled (h_world h) (activeName (h_vfs h)) /\
    encodeActivationSlot (activation_of seq (v_state (h_vfs h)) base) = Ok slot /\ slot_settled seq slot slots (h_world h) /\
    forall cur, activated slots cur -> act_sequence cur + 1 = seq -> act_metadataFile cur = activeMetadataFile s ->
      selects (file (h_world h) ActivationBin) (mkSelection (activation_of seq (v_state (h_vfs h)) base) (Some cur))
}.

(** A repack that threw. The activation file is as it was, or holds a part of the slot that names the settled
    base of the next generation; and where the store was on the record [cur], recovery selects [cur] or that
    base, unless the part has a checksum that holds by chance. *)
Record repack_failed (s : VfsState) (pinned : gset Z) (seq : Z) (s0 : VfsState) (b0 slots : list Z) h : Prop := {
  rf_state : v_state (h_vfs h) = s;
  rf_log : live s0 b0 h \/ broken s0 b0 None h;
  rf_slots : file (h_world h) ActivationBin = slots \/
    exists p base slot, repack_base s pinned p base /\ base_settled s base (h_world h) /\
      encodeActivationSlot (activation_of seq p base) = Ok slot /\ slot_started seq slot slots (h_world h);
  rf_selects : forall cur, activated slots cur -> act_sequence cur + 1 = seq -> act_metadataFile cur = activeMetadataFile s ->
    (exists older, selects (file (h_world h) ActivationBin) (mkSelection cur older)) \/
    exists p base slot, repack_base s pinned p base /\ base_settled s base (h_world h) /\
      encodeActivationSlot (activation_of seq p base) = Ok slot /\
      (selects (file (h_world h) ActivationBin) (mkSelection (activation_of seq p base) (Some cur)) \/
       undetected slot (slot_at slots (slotIndex seq)) (slot_at (file (h_world h) ActivationBin) (slotIndex seq)))
}.

Definition repack_outcome (s : VfsState) (pinned : gset Z) (seq : Z) (s0 : VfsState) (b0 slots : list Z) (r : R unit) h : Prop :=
  match r with Ok _ => repack_completed s pinned seq slots h | Throw _ => repack_failed s pinned seq s0 b0 slots h end.

Lemma next_file s pinned p base cur seq : repack_base s pinned p base -> act_metadataFile cur = activeMetadataFile s ->
  act_metadataFile (activation_of seq p base) <> act_metadataFile cur.
Proof. intros [_ [_ Hf _ _ _ _ _ _ _ _ _] _] ->. unfold activation_of. cbn. rewrite Hf. apply other_file_ne. Qed.

(** Before the slot is touched. *)
Lemma repack_failed_before s pinned seq s0 b0 slots h : v_state (h_vfs h) = s -> live s0 b0 h \/ broken s0 b0 None h ->
  file (h_world h) ActivationBin = slots -> repack_failed s pinned seq s0 b0 slots h.
Proof.
  intros Hs Hl Hf. split; [done|done|by left|]. intros cur [_ _ Hsel] _ _. left. by rewrite Hf.
Qed.

(** While it is written. *)
Lemma repack_failed_during s pinned seq s0 b0 slots h p base slot : v_state (h_vfs h) = s -> broken s0 b0 None h ->
  repack_base s pinned p base -> base_settled s base (h_world h) -> encodeActivationSlot (activation_of seq p base) = Ok slot ->
  slot_started seq slot slots (h_world h) -> repack_failed s pinned seq s0 b0 slots h.
Proof.
  intros Hs Hl P Hb He Hst. split; [done|by right|right; by exists p, base, slot|]. intros cur Ha Hseq Hfile.
  destruct Hst as (m & Hm & Hw). rewrite Hw.
  destruct (selects_interrupted slots cur (activation_of seq p base) slot m) as [_ Hsel]; try done; [by eapply next_file|].
  destruct Hsel as [?|Hsel]; [by left|right]. exists p, base, slot. split; [done|]. split; [done|]. split; [done|]. exact Hsel.
Qed.

Lemma live_of s0 base log sm n frame k h : Live s0 base log sm n frame k h -> live s0 base h.
Proof. intros L. by exists log, sm, n, frame, k. Qed.

Lemma wp_repackBody s0 b0 reason seq startedAt h : is_clock dateNow -> is_clock performanceNow -> live s0 b0 h ->
  wp (repackBody dateNow performanceNow reason seq startedAt)
    (repack_outcome (v_state (h_vfs h)) (pinnedExtents (v_table (h_vfs h))) seq s0 b0 (file (h_world h) ActivationBin)) h.
Proof.
  intros Hdate Hperf (log & sm & n & frame & k & L). set (s := v_state (h_vfs h)). unfold repackBody.
  eapply wp_seq; [exact (wp_and _ _ _ _ (wp_materialize _ _ _ _ _ _ _ _ L) (wp_materialize_frame _ _ _ _ _ _ _ _ L))| |].
  2:{ intros e h1 [[Hs1 B] [_ Hk]]. apply repack_failed_before; [done|right; by eexists|]. by apply Hk, active_not_activation. }
  intros [] h1 [[Hs1 L1] [Ht1 Hk1]]. rewrite <- Ht1. assert (Hslots : file (h_world h1) ActivationBin = file (h_world h) ActivationBin)
    by (by apply Hk1, active_not_activation). rewrite <- Hslots. fold s in Hs1, L1. clear L Ht1 Hk1 Hslots.
  apply wp_vfs, wp_lift_bind.
  2:{ intros e _. apply repack_failed_before; [done|left; by eapply live_of|done]. }
  intros [[p base] slot] Hp. assert (Hi : Inv (v_state (h_vfs h1))) by (by apply (Live_Inv _ _ _ _ _ _ _ _ L1)).
  apply prepareRepack_Ok in Hp as [P Hslot]; [|done]. rewrite Hs1 in P. pose proof (rp_file _ _ _ (rb_repacked _ _ _ _ P)) as Hfile.
  eapply wp_seq; [apply (wp_writeInactiveBase _ _ _ _ _ _ _ p base h1 L1); by rewrite Hs1| |].
  2:{ intros e h2 (L2 & Hs2 & Hk2 & _). apply repack_failed_before; [unfold v_state; by rewrite (proj1 Hs2)|left; by eapply live_of|].
      apply Hk2. unfold inactiveName. by apply not_eq_sym, metadata_names. }
  intros [] h2 (L2 & Hl2 & Hk2 & Hb2). specialize (Hb2 eq_refl).
  assert (Hs2 : v_state (h_vfs h2) = s) by (unfold v_state; by rewrite (proj1 Hl2)).
  assert (Hslots : file (h_world h2) ActivationBin = file (h_world h1) ActivationBin)
    by (apply Hk2; unfold inactiveName; by apply not_eq_sym, metadata_names). rewrite <- Hslots. rewrite Hs1 in Hb2. clear Hslots Hk2.
  assert (Hbs : forall w, others_kept ActivationBin (h_world h2) w -> base_settled s base w).
  { intros w Ho. destruct Hb2 as [Hf Hset], (Ho (inactiveName s)) as [E K]; [by apply metadata_names|]. split; [by rewrite E|by apply K]. }
  eapply wp_seq; [exact (wp_writeActivation _ _ _ _ _ _ _ seq slot h2 L2)| |].
  2:{ intros e h3 (Ho & Hs3 & B & Hst). apply (repack_failed_during _ _ _ _ _ _ _ p base slot); [by rewrite Hs3|done|done|by apply Hbs|done|done]. }
  intros [] h3 (Ho3 & Hs3 & L3 & _ & Hslot3). rewrite Hs2 in Hs3.
  assert (L3' : Live s0 b0 (log ++ frame) s (n + k) [] 0 h3) by exact L3.
  eapply wp_seq; [apply (wp_adoptBase _ _ _ _ _ (pinnedExtents (v_table (h_vfs h1))) p base seq reason h3 Hdate L3); rewrite Hs3; [done|by apply Hbs]| |].
  2:{ by intros e h4 [? _]. }
  intros [] h4 (_ & Hw4 & Hs4 & L4). apply wp_lift_bind.
  2:{ intros e. by rewrite (requiredArenaEnd_Inv p (rb_inv _ _ _ _ P)). }
  intros stop. rewrite (requiredArenaEnd_Inv p (rb_inv _ _ _ _ P)). intros [= <-].
  assert (0 <= ARENA_HEADER_BYTES + totalExtents (allocator p) * extentSize p).
  { destruct (rb_inv _ _ _ _ P) as [C _ _]. pose proof (a_total _ (c_alloc p C)). pose proof (extent_size_pos _ (c_extentSize p C)).
    assert (0 <= totalExtents (allocator p) * extentSize p) by (apply Z.mul_nonneg_nonneg; lia). ll. }
  eapply wp_seq; [exact (wp_trimArena _ _ _ _ _ _ _ _ h4 ltac:(done) L4)| |by intros e h5 [? _]].
  intros [] h5 (_ & L5 & Hs5 & Ho5). apply wp_clock; [done|]. intros now. apply wp_modify. rewrite Hs4 in Hs5.
  assert (Hset : settled (h_world h5) (activeName (h_vfs h5))).
  { unfold activeName. rewrite Hs5. apply Ho5; [by apply metadata_names|]. rewrite Hw4.
    destruct (Hbs _ Ho3) as [_ Hset]. unfold inactiveName in Hset. by rewrite <- Hfile in Hset. }
  match goal with |- repack_outcome _ _ _ _ _ _ _ ?h => set (h6 := h) end.
  assert (Hs6 : v_state (h_vfs h6) = p) by exact Hs5. split. exists base, slot. rewrite Hs6.
  split; [done|]. split; [by apply (Live_same _ _ _ _ _ _ _ h5)|]. split; [exact Hset|].
  split; [done|]. destruct Hslot3 as [E K].
  assert (Hfile6 : file (h_world h6) ActivationBin = write_at (Z.to_nat (activationOffset seq)) slot (file (h_world h2) ActivationBin)).
  { change (file (h_world h6)) with (file (h_world h5)). by rewrite (proj1 (Ho5 ActivationBin ltac:(done))), Hw4. }
  split; [split; [done|]|].
  - apply (Ho5 ActivationBin); [done|]. by rewrite Hw4.
  - intros cur Ha Hseq Hcur. rewrite Hfile6.
    destruct (selects_interrupted (file (h_world h2) ActivationBin) cur (activation_of seq p base) slot (length slot)) as [Hsel _]; try done; [by eapply next_file|].
    rewrite firstn_all in Hsel. by apply Hsel.
Qed.

Lemma broken_same s0 b0 r h h' : broken s0 b0 r h -> h_world h' = h_world h -> v_store (h_vfs h') = v_store (h_vfs h) ->
  v_status (h_vfs h') = v_status (h_vfs h) -> v_pendingResizeCommit (h_vfs h') = v_pendingResizeCommit (h_vfs h) -> broken s0 b0 r h'.
Proof.
  unfold broken, broken_from, v_state. intros (sd & Ho & log & t & sm & n & [Hok Hf Hb Hl] & H') Hw Hs Hst Hp. exists sd. rewrite Hst, Hs, Hp. split; [done|].
  exists log, t, sm, n. split; [|done]. split; [by rewrite Hw| |done|done]. unfold activeName, v_state in *. by rewrite Hw, Hs.
Qed.

(** [repack] ends by clearing the flag that guards it against itself. *)
Lemma repack_outcome_same s pinned seq s0 b0 slots r h h' : repack_outcome s pinned seq s0 b0 slots r h ->
  h_world h' = h_world h -> same_log (h_vfs h) (h_vfs h') -> repack_outcome s pinned seq s0 b0 slots r h'.
Proof.
  intros Ho Hw Hs. pose proof Hs as (Est & Eo & Ep & _). destruct r as [u|e].
  - destruct Ho as [(base & slot & P & L & Hset & Hslot & Hdone)]. split. exists base, slot.
    assert (E : v_state (h_vfs h') = v_state (h_vfs h)) by (unfold v_state; by rewrite Est).
    unfold activeName. rewrite E, Hw. split; [done|]. split; [by apply (Live_same _ _ _ _ _ _ _ h)|]. done.
  - destruct Ho as [Hst Hl Hf Hsel]. unfold slot_started in Hf. split; unfold slot_started; rewrite ?Hw; [unfold v_state in *; by rewrite Est| |done|done].
    destruct Hl as [(log & sm & n & frame & k & L)|B]; [left|right; by apply (broken_same _ _ _ h)].
    eapply live_of. by apply (Live_same _ _ _ _ _ _ _ h).
Qed.

Lemma wp_finally {A} (m : M (Host Wd) A) f Q h :
  wp m (fun r h' => Q r (mkHost (h_world h') (f (h_vfs h')))) h -> wp (st_finally m (modify f)) Q h.
Proof. unfold wp, st_finally. by destruct (m h) as [h' r]. Qed.

Lemma wp_repack s0 b0 reason h : is_clock dateNow -> is_clock performanceNow -> live s0 b0 h ->
  wp (repack dateNow performanceNow reason)
    (repack_outcome (v_state (h_vfs h)) (pinnedExtents (v_table (h_vfs h))) (om_activationSequence (v_store (h_vfs h)) + 1) s0 b0
       (file (h_world h) ActivationBin)) h.
Proof.
  intros Hdate Hperf Hl. unfold repack. assert (Hopen : v_status (h_vfs h) = StatusOpen) by (destruct Hl as (? & ? & ? & ? & ? & L); apply L).
  assert (Hstay : forall e, repack_outcome (v_state (h_vfs h)) (pinnedExtents (v_table (h_vfs h)))
    (om_activationSequence (v_store (h_vfs h)) + 1) s0 b0 (file (h_world h) ActivationBin) (Throw e) h) by (intros e; apply repack_failed_before; [done|by left|done]).
  apply wp_assertOpen; [done|]. apply wp_vfs, wp_lift_bind; [|intros; apply Hstay]. intros _ _.
  apply wp_lift_bind; [|intros; apply Hstay]. intros _ _. apply wp_lift_bind; [|intros; apply Hstay].
  intros seq (-> & _)%checkedAdd_Ok. apply wp_modify_bind, wp_clock; [done|]. intros now. apply wp_finally.
  set (h1 := mkHost _ _). assert (Hl1 : live s0 b0 h1) by (destruct Hl as (? & ? & ? & ? & ? & L); eapply live_of; by apply (Live_same _ _ _ _ _ _ _ h)).
  eapply wp_conseq; [exact (wp_repackBody s0 b0 reason _ now h1 Hdate Hperf Hl1)|]. intros r h2 Ho.
  by eapply repack_outcome_same.
Qed.
End Repack.

(** ** The repack: the properties

    The projection of a repack is total on valid states and frees what nothing refers to any more; the repack
    of a live store activates a settled base of the same files, or leaves the store as it was. *)

(** A repack projects every valid state. Below the largest generation the projection returns a valid
    state with the same files, in the other metadata file and the next generation. A quarantined extent that
    is pinned stays, one quarantined since the last repack stays with the next generation, every other one
    is available again; and the highest extent left is never a free one. *)
Theorem projectRepack_total (s : VfsState) (pinned : gset Z) (Hs : Inv s) (Hg : generation s < MAX_U64) :
  exists p, projectRepackForActivation s pinned = Ok p /\ Inv p /\ repacked s pinned p.
Proof. by apply projectRepack_run. Qed.

(** C8. A repack activates a settled base or changes nothing that recovery sees. When it returns, the live
    state has the same files as before, its canonical encoding is the settled content of the other metadata
    file, and the settled activation slot of the next sequence number names it: recovery selects it, with the
    record the store was on as the older one. When it throws, the state is unchanged and the store is live or
    failed with a recoverable log; the activation file is as it was, or only the slot of the next sequence number
    holds a part of the record that names the base of the next generation, which is complete and settled.
    Recovery then selects the record the store was on or that base, unless a slot that was cut short has a
    checksum that holds by chance. *)
Theorem repack_keeps_log (Wd : Type) (port : RepackedPort Wd) (lawful : LawfulPort Wd) (durable : DurablePort Wd)
  (dateNow performanceNow : M Wd Z) (s0 : VfsState) (base : list Z) (reason : RepackReason) (h h' : Host Wd) (r : R unit)
  (Hdate : is_clock dateNow) (Hperf : is_clock performanceNow) (Hlive : live s0 base h)
  (Hrun : repack dateNow performanceNow reason h = (h', r)) :
  match r with
  | Ok _ => repack_completed (v_state (h_vfs h)) (pinnedExtents (v_table (h_vfs h)))
              (om_activationSequence (v_store (h_vfs h)) + 1) (file (h_world h) ActivationBin) h'
  | Throw _ => repack_failed (v_state (h_vfs h)) (pinnedExtents (v_table (h_vfs h)))
                 (om_activationSequence (v_store (h_vfs h)) + 1) s0 base (file (h_world h) ActivationBin) h'
  end.
Proof. exact (wp_run _ _ _ _ _ (wp_repack dateNow performanceNow s0 base reason h Hdate Hperf Hlive) Hrun). Qed.

(** ** The witnesses *)

#[local] Existing Instance example_port.
#[local] Existing Instance example_lawful.
#[local] Existing Instance example_durable.

(** A file of two extents was removed, then the store was repacked: its extents are in the quarantine. *)
Definition removed_store : VfsState :=
  from_ok example_store (projectRepackForActivation (after (RemoveFile 1 (js "a") 8 9) (after example_record example_store)) ∅).

Lemma removed_store_Inv : Inv removed_store.
Proof.
  apply validateState_sound; [|vm_compute; reflexivity].
  assert (E : available (allocator removed_store) = ExtentSet.empty) by (vm_compute; reflexivity). rewrite E. apply ExtentSet.empty_wf.
Qed.

Lemma projectRepack_total_witness :
  (exists p, projectRepackForActivation removed_store {[0]} = Ok p /\ Inv p /\ repacked removed_store {[0]} p) /\
  quarantine (allocator removed_store) = [(0, Some 2); (1, Some 2)].
Proof.
  split; [|vm_compute; reflexivity]. apply (projectRepack_total removed_store {[0]} removed_store_Inv). vm_compute. reflexivity.
Defined.

(** The store of the commits, with its four files and an activation record of its first generation. *)
Definition first_activation : ActivationRecord := mkActivation 1 MetaA 1 80 724290803.
Definition full_world : MemoryWorld :=
  run_world (write ActivationBin (slot_bytes first_activation) 0) (run_world (write MetadataABin example_base 0)
    (foldl (fun w name => run_world (acquire name) w) (mkMemoryWorld newMemoryPort ∅) OWNED_FILE_NAMES)).
Definition full_host : Host MemoryWorld := Eval vm_compute in step (commit first_record None) (mkHost full_world (h_vfs host)).
Definition stopped_clock : M MemoryWorld Z := mret 0.
Definition repacked_host : Host MemoryWorld := Eval vm_compute in step (repack stopped_clock stopped_clock Manual) full_host.

(** The same repack, whose write of the slot throws after sixty bytes. *)
Definition slot_fault : MemoryFault := mkFault OpWriteFile ThrowAfter (Some (fileName ActivationBin)) None (Some 60) None.
Definition faulty_host : Host MemoryWorld := Eval vm_compute in mkHost (run_world (on_port (injectFault slot_fault)) (h_world full_host)) (h_vfs full_host).
Definition interrupted_host : Host MemoryWorld := Eval vm_compute in step (repack stopped_clock stopped_clock Manual) faulty_host.

Lemma full_world_ok : MemInv (mw_port full_world).
Proof.
  assert (E : mw_port full_world = history id (((fun name => CallAcquire name []) <$> OWNED_FILE_NAMES) ++
    [CallWrite MetadataABin example_base 0 []; CallWrite ActivationBin (slot_bytes first_activation) 0 []]))
    by (vm_compute; reflexivity).
  rewrite E. apply history_inv.
Qed.

Lemma full_host_live : live example_store example_base full_host.
Proof.
  assert (L : live example_store example_base (mkHost full_world (h_vfs host))).
  { exists [], example_store, 0%nat, [], 0%nat.
    assert (F : file full_world MetadataABin = example_base) by (vm_compute; reflexivity).
    split.
    - split; [exact full_world_ok| |exact example_store_Inv|apply committed_nil]. rewrite app_nil_r. exact F.
    - reflexivity.
    - split; [reflexivity|]. split; reflexivity.
    - vm_compute. reflexivity.
    - reflexivity.
    - reflexivity.
    - reflexivity.
    - vm_compute. discriminate.
    - vm_compute. discriminate.
    - discriminate. }
  assert (E : commit first_record None (mkHost full_world (h_vfs host)) = (full_host, Ok tt)) by (vm_compute; reflexivity).
  pose proof (wp_run _ _ _ _ _ (wp_commit _ _ first_record None _ L (cm_ok _ _ _ _ _ first_record_commits)
    example_record_fits ltac:(done)) E) as [(sd & H & _)|(_ & _ & e & H)]; done.
Qed.

Lemma stopped : is_clock stopped_clock.
Proof. intros w. by exists 0. Qed.

(** A fault that is waiting changes no file. *)
Lemma faulty_host_live : live example_store example_base faulty_host.
Proof.
  destruct full_host_live as (log & sm & n & frame & k & L). exists log, sm, n, frame, k.
  change faulty_host with (mkHost (h_world faulty_host) (h_vfs full_host)).
  assert (Hw : mw_port (h_world faulty_host) = set_faults (fun fs => fs ++ [slot_fault]) (mw_port (h_world full_host))) by (vm_compute; reflexivity).
  apply (Live_world _ _ _ _ _ _ _ full_host); [done|done| | |].
  - change (MemInv (mw_port (h_world faulty_host))). rewrite Hw. apply (MemInv_frame (mw_port (h_world full_host))); try done. apply L.
  - vm_compute. reflexivity.
  - intros Hs. vm_compute in Hs |- *. exact Hs.
Qed.

Lemma first_activated : activated (file (h_world faulty_host) ActivationBin) first_activation.
Proof.
  split; [apply bytes_check; vm_compute; reflexivity|vm_compute; reflexivity|]. exists None. vm_compute. reflexivity.
Qed.

(** Recovery selects the first activation over the sixty bytes. *)
Example interrupted_selects : file (h_world interrupted_host) ActivationBin <> file (h_world faulty_host) ActivationBin /\
  selects (file (h_world interrupted_host) ActivationBin) (mkSelection first_activation None) /\
  selects (file (h_world repacked_host) ActivationBin) (mkSelection (activation_of 2 (v_state (h_vfs repacked_host)) (file (h_world repacked_host) MetadataBBin)) (Some first_activation)).
Proof. split; [vm_compute; discriminate|]. split; vm_compute; reflexivity. Qed.

Lemma repack_keeps_log_witness :
  repack_completed (v_state (h_vfs full_host)) (pinnedExtents (v_table (h_vfs full_host)))
    (om_activationSequence (v_store (h_vfs full_host)) + 1) (file (h_world full_host) ActivationBin) repacked_host /\
  repack_failed (v_state (h_vfs faulty_host)) (pinnedExtents (v_table (h_vfs faulty_host)))
    (om_activationSequence (v_store (h_vfs faulty_host)) + 1) example_store example_base (file (h_world faulty_host) ActivationBin) interrupted_host.
Proof.
  split.
  - apply (repack_keeps_log MemoryWorld example_port example_lawful example_durable stopped_clock stopped_clock example_store
             example_base Manual full_host repacked_host (Ok tt) stopped stopped full_host_live).
    vm_compute. reflexivity.
  - apply (repack_keeps_log MemoryWorld example_port example_lawful example_durable stopped_clock stopped_clock example_store
             example_base Manual faulty_host interrupted_host (Throw PlainError) stopped stopped faulty_host_live).
    vm_compute. reflexivity.
Defined.
