(* ===== verification/Reorder.v ===== *)
(** * States up to the order of their free extents

    Reading a base back gives the free and the quarantined extents in another order, and may forget the
    generation of the inactive file. No transaction can tell the difference. *)

From S2P Require Export ApplyTxn.

(** The same state with other orders, and other retained generations. *)
Definition reorder (av : ExtentSet.t) (q : list (Z * option Z)) (ra rb : option Z) (s : VfsState) : VfsState :=
  mkState (generation s) (nextInodeId s) (rootInodeId s) (extentSize s) (activeMetadataFile s) ra rb (basePayloadBytes s)
    (inodes s) (parentByInode s) (mkAllocator (totalExtents (allocator s)) (ownedBy (allocator s)) av q).

Record same_extents (a a' : AllocatorState) : Prop := {
  se_available : ExtentSet.items (available a') ≡ₚ ExtentSet.items (available a);
  se_wf : ExtentSet.wf (available a);
  se_wf' : ExtentSet.wf (available a');
  se_quarantine : quarantine a' ≡ₚ quarantine a;
  se_quarantine_wf : JsMap.wf (quarantine a)
}.

(** [s'] is [s] up to the order of its free and quarantined extents, and up to the retained generations. *)
Definition same (s s' : VfsState) : Prop :=
  s' = reorder (available (allocator s')) (quarantine (allocator s')) (retained_a s') (retained_b s') s /\
  same_extents (allocator s) (allocator s').

Lemma same_refl s : AllocOk (allocator s) -> same s s.
Proof. intros A. split; [destruct s as [? ? ? ? ? ? ? ? ? ? []]; reflexivity|]. split; try done; apply A. Qed.

#[export] Instance same_symmetric : Symmetric same.
Proof.
  intros s s' [E [Ha Hw Hw' Hq Hqw]]. split.
  - destruct s as [? ? ? ? ? ? ? ? ? ? []], s' as [? ? ? ? ? ? ? ? ? ? []]. unfold reorder in *. cbn in *. by injection E as -> -> -> -> -> -> -> -> -> ->.
  - split; try done. unfold JsMap.wf, JsMap.keys in *. by rewrite Hq.
Qed.

#[export] Instance same_transitive : Transitive same.
Proof.
  intros s1 s2 s3 [E1 [Ha1 Hw1 Hw1' Hq1 Hqw1]] [E2 [Ha2 Hw2 Hw2' Hq2 Hqw2]]. split.
  - rewrite E2. rewrite E1 at 1. reflexivity.
  - split; try done; etrans; done.
Qed.

Lemma has_same s s' e : same s s' -> ExtentSet.has (available (allocator s')) e = ExtentSet.has (available (allocator s)) e.
Proof.
  intros [_ [Ha Hw Hw' _ _]]. apply eq_true_iff_eq. rewrite !ExtentSet.mem_true by done. by rewrite Ha.
Qed.

Lemma quarantined_same s s' e : same s s' -> JsMap.has (quarantine (allocator s')) e = JsMap.has (quarantine (allocator s)) e.
Proof. intros [_ [_ _ _ Hq _]]. apply eq_true_iff_eq. rewrite !JsMap.has_true. unfold JsMap.keys. by rewrite Hq. Qed.

(** ** What reads a state *)

(** A function of states that does not see the order. *)
Definition blind {A} (f : VfsState -> A) : Prop := forall s s', same s s' -> f s' = f s.

(** A function that looks at neither free nor quarantined extents. *)
Lemma blind_reorder {A} (f : VfsState -> A) : (forall av q ra rb s, f (reorder av q ra rb s) = f s) -> blind f.
Proof. intros Hf s s' [-> _]. apply Hf. Qed.

Lemma anyM_ext {A} (f g : A -> R bool) l : (forall x, f x = g x) -> anyM f l = anyM g l.
Proof. intros H. induction l as [|x l IH]; cbn; [done|]. by rewrite H, IH. Qed.

Lemma directoryContains_reorder av q ra rb fuel s d c : directoryContains fuel (reorder av q ra rb s) d c = directoryContains fuel s d c.
Proof.
  revert d. induction fuel as [|fuel IH]; intros d; cbn [directoryContains]; [done|]. destruct (_ =? _); [done|].
  apply anyM_ext. intros childId. change (inodeById (reorder av q ra rb s) childId) with (inodeById s childId).
  destruct (inodeById s childId) as [i|]; cbn; [|done]. by destruct (inode_kind i).
Qed.

Lemma climb_reorder av q ra rb fuel s visited k d n : climb fuel (reorder av q ra rb s) visited k d n = climb fuel s visited k d n.
Proof.
  revert visited k d n. induction fuel as [|fuel IH]; intros visited k d n; cbn [climb]; [done|].
  change (rootInodeId (reorder av q ra rb s)) with (rootInodeId s). change (parentByInode (reorder av q ra rb s)) with (parentByInode s).
  destruct (_ =? _); [done|]. destruct (throw_if _ _); cbn; [|done]. destruct (parentByInode s !! k); cbn; [|done].
  destruct (encodedUtf8Length _); cbn; [apply IH|done].
Qed.

Lemma visitBounds_reorder av q ra rb fuel s i m : visitBounds fuel (reorder av q ra rb s) i m = visitBounds fuel s i m.
Proof.
  revert i m. induction fuel as [|fuel IH]; intros i m; cbn [visitBounds]; [done|].
  destruct (throw_if _ _); cbn; [|done]. destruct (throw_if _ _); cbn; [|done]. destruct (inode_kind i); [|done|done].
  apply foldM_ext. intros _ [n c]. change (inodeById (reorder av q ra rb s) c) with (inodeById s c).
  destruct (inodeById s c); cbn; [|done]. destruct (childPathMetrics m n); cbn; [apply IH|done].
Qed.

Lemma blind_moves source parentId : blind (fun s => movesIntoItself s source parentId).
Proof. apply blind_reorder. intros. unfold movesIntoItself. destruct (inode_kind source); [|done|done]. apply directoryContains_reorder. Qed.

Lemma blind_bounds source parent name : blind (fun s => validateRenamedSubtreeBounds s source parent name).
Proof.
  apply blind_reorder. intros. unfold validateRenamedSubtreeBounds, findPathMetrics. rewrite climb_reorder.
  change (parentByInode (reorder av q ra rb s)) with (parentByInode s).
  destruct (climb _ s _ _ _ _); cbn; [|done]. destruct (childPathMetrics _ _); cbn; [apply visitBounds_reorder|done].
Qed.

Lemma blind_assignment runs n : blind (fun s => validateExtentAssignment s runs n).
Proof.
  intros s s' S. unfold validateExtentAssignment. assert (Ht : totalExtents (allocator s') = totalExtents (allocator s)) by (by rewrite (proj1 S)).
  rewrite Ht. destruct (expandExtentRuns _ _); cbn; [|done]. destruct (throw_if _ _); cbn; [|done]. destruct (throw_if _ _); cbn; [|done].
  rewrite (foldM_ext (assignExtent s') (assignExtent s)); [done|]. intros b e. unfold assignExtent. by rewrite Ht, (has_same s s').
Qed.

Lemma blind_sized_assignment runs sz :
  blind (fun s => count ← extentCountForSize sz (extentSize s); validateExtentAssignment s runs count).
Proof.
  intros s s' S. assert (E : extentSize s' = extentSize s) by (by rewrite (proj1 S)). rewrite E.
  destruct (extentCountForSize _ _); cbn; [by apply blind_assignment|done].
Qed.

Lemma blind_owned owner l : blind (fun s => checkOwned s owner l).
Proof.
  intros s s' S. unfold checkOwned. apply foldM_ext. intros u e. rewrite (quarantined_same s s') by done. by rewrite (proj1 S).
Qed.

Lemma blind_replaced destination : blind (fun s => checkReplaced s destination).
Proof.
  destruct destination as [[id m a mt c [ch|sz extents|t]]|]; cbn; try (by apply blind_reorder). apply blind_owned.
Qed.

Lemma blind_preflight record : blind (fun s => preflightTxn s record).
Proof. apply blind_reorder. intros. reflexivity. Qed.

(** ** What mutates it *)

Definition respects {A} (m : M VfsState A) : Prop := forall s s' t r, same s s' -> m s = (t, r) ->
  exists t', m s' = (t', r) /\ same t t'.

Lemma respects_ret {A} (a : A) : respects (mret a).
Proof. intros s s' t r S [= <- <-]. by exists s'. Qed.

Lemma respects_lift {A} (m : R A) : respects (st_lift m).
Proof. intros s s' t r S [= <- <-]. by exists s'. Qed.

Lemma respects_checked {A} (f : VfsState -> R A) : blind f -> respects (checked f).
Proof.
  intros Hf s s' t r S. unfold checked. rewrite !st_bind_get. unfold st_lift. intros [= <- <-]. exists s'. by rewrite (Hf s s' S).
Qed.

Lemma respects_bind {A B} (m : M VfsState A) (k : A -> M VfsState B) : respects m -> (forall a, respects (k a)) -> respects (m ≫= k).
Proof.
  intros Hm Hk s s' t r S. unfold mbind, ST_bind. destruct (m s) as [t1 r1] eqn:E. destruct (Hm s s' t1 r1 S E) as (t1' & -> & S1).
  destruct r1 as [a|e]; [apply (Hk a t1 t1' t r S1)|]. intros [= <- <-]. by exists t1'.
Qed.

Lemma respects_modify f : (forall s s', same s s' -> same (f s) (f s')) -> respects (st_modify f).
Proof. intros Hf s s' t r S [= <- <-]. exists (f s'). split; [done|by apply Hf]. Qed.

Lemma respects_forM {A} (f : A -> M VfsState unit) l : (forall x, respects (f x)) -> respects (forM f l).
Proof. intros Hf. induction l as [|x l IH]; cbn; [apply respects_ret|]. by apply respects_bind. Qed.

(** A change that leaves the extents alone. *)
Lemma respects_set f : (forall av q ra rb s, f (reorder av q ra rb s) = reorder av q ra rb (f s)) ->
  (forall s, allocator (f s) = allocator s) -> (forall s, retained_a (f s) = retained_a s) -> (forall s, retained_b (f s) = retained_b s) ->
  respects (st_modify f).
Proof.
  intros Hf Ha Hra Hrb. apply respects_modify. intros s s' [E X]. split; [|by rewrite !Ha].
  rewrite Ha, Hra, Hrb. rewrite E at 1. apply Hf.
Qed.

Lemma respects_allocator f :
  (forall a a', same_extents a a' -> totalExtents a' = totalExtents a -> ownedBy a' = ownedBy a ->
     same_extents (f a) (f a') /\ totalExtents (f a') = totalExtents (f a) /\ ownedBy (f a') = ownedBy (f a)) ->
  respects (with_allocator f).
Proof.
  intros Hf. apply respects_modify. intros s s' [E X].
  destruct (Hf _ _ X) as (X' & Ht & Ho); [by rewrite E..|]. split; [|exact X'].
  unfold set_allocator, reorder. cbn. rewrite <- Ht, <- Ho.
  destruct s, s'. unfold reorder in E. cbn in *. injection E as -> -> -> -> -> -> -> -> _. by destruct (f allocator0).
Qed.

Lemma respects_own k e : respects (with_allocator (set_ownedBy (insert k e))).
Proof. apply respects_allocator. intros a a' [] Ht Ho. cbn. rewrite Ho. by split; [split|]. Qed.

Lemma respects_disown e : respects (with_allocator (set_ownedBy (delete e))).
Proof. apply respects_allocator. intros a a' [] Ht Ho. cbn. rewrite Ho. by split; [split|]. Qed.

Lemma set_Permutation (q q' : list (Z * option Z)) e v : q' ≡ₚ q -> JsMap.wf q -> JsMap.set q' e v ≡ₚ JsMap.set q e v.
Proof.
  intros Hq Hw. assert (Hw' : JsMap.wf q') by (unfold JsMap.wf, JsMap.keys in *; by rewrite Hq).
  apply NoDup_Permutation.
  - apply (NoDup_fmap_1 fst), JsMap.wf_set, Hw'.
  - apply (NoDup_fmap_1 fst), JsMap.wf_set, Hw.
  - intros [x w]. rewrite !JsMap.elem_of_get by (by apply JsMap.wf_set). destruct (decide (e = x)) as [<-|Hne].
    + by rewrite !JsMap.get_set_eq.
    + rewrite !JsMap.get_set_ne by done. rewrite <- !JsMap.elem_of_get by done. by rewrite Hq.
Qed.

Lemma respects_quarantine e : respects (quarantineExtent e).
Proof.
  apply respects_allocator. intros a a' [Ha Hw Hw' Hq Hqw] Ht Ho. cbn. split; [|done].
  split; cbn; [done|done|done|by apply set_Permutation|by apply JsMap.wf_set].
Qed.

Lemma delete_Permutation av av' e : ExtentSet.wf av -> ExtentSet.wf av' -> ExtentSet.items av' ≡ₚ ExtentSet.items av ->
  ExtentSet.items (ExtentSet.delete av' e).1 ≡ₚ ExtentSet.items (ExtentSet.delete av e).1.
Proof.
  intros Hw Hw' Hp. destruct (decide (e ∈ ExtentSet.items av)) as [Hin|Hout].
  - destruct (ExtentSet.delete_perm av e Hw Hin) as [_ P]. destruct (ExtentSet.delete_perm av' e Hw') as [_ P']; [by rewrite Hp|].
    rewrite P, P' in Hp. by apply Permutation_cons_inv in Hp.
  - rewrite !ExtentSet.delete_absent; [done|done|done|done|by rewrite Hp].
Qed.

Lemma respects_take e : respects (takeExtent e).
Proof.
  intros s s' t r S. unfold takeExtent. rewrite !st_bind_get.
  assert (Ht : totalExtents (allocator s') = totalExtents (allocator s)) by (by rewrite (proj1 S)). rewrite Ht.
  destruct (_ <? _).
  - apply respects_allocator; [|done]. intros a a' [Ha Hw Hw' Hq Hqw] Hta Ho. cbn. split; [|done].
    split; cbn; [by apply delete_Permutation|by apply ExtentSet.delete_wf..|done|done].
  - apply respects_allocator; [|done]. intros a a' [] Hta Ho. cbn. by split; [split|].
Qed.

(** ** The reducers *)

Lemma respects_mutate k f : respects (mutateInode k f).
Proof. by apply respects_set. Qed.
Lemma respects_insert k i : respects (insertInode k i).
Proof. by apply respects_set. Qed.
Lemma respects_remove k : respects (removeInode k).
Proof. by apply respects_set. Qed.
Lemma respects_setParent k e : respects (setParent k e).
Proof. by apply respects_set. Qed.
Lemma respects_dropParent k : respects (dropParent k).
Proof. by apply respects_set. Qed.
Lemma respects_next n : respects (st_modify (set_nextInodeId n)).
Proof. by apply respects_set. Qed.
Lemma respects_bytes n : respects (st_modify (set_basePayloadBytes n)).
Proof. by apply respects_set. Qed.

Lemma respects_ownExtent k e : respects (ownExtent k e).
Proof. apply respects_bind; [apply respects_take|intros; apply respects_own]. Qed.
Lemma respects_release e : respects (releaseExtent e).
Proof. apply respects_bind; [apply respects_disown|intros; apply respects_quarantine]. Qed.

Create HintDb respects.
#[export] Hint Resolve respects_ret respects_lift respects_mutate respects_insert respects_remove respects_setParent
  respects_dropParent respects_next respects_bytes respects_ownExtent respects_release respects_take respects_quarantine
  blind_moves blind_bounds blind_assignment blind_sized_assignment blind_owned blind_replaced blind_preflight : respects.

(** One call after the other. *)
Ltac respect :=
  repeat first
    [ progress (intros; cbv zeta)
    | solve [eauto 2 with respects]
    | apply respects_checked; first [solve [eauto 2 with respects] | apply blind_reorder; reflexivity]
    | apply respects_forM
    | apply respects_bind
    | case_match ].

Lemma respects_reduce record : respects (reduceTxn record).
Proof.
  destruct record; cbn [reduceTxn].
  all: unfold applyCreateDirectories, applyCreateDirectory, applyCreateFile, applyRemoveFile, applyCreateSymlink, applyChangeMode,
    applyChangeTimes, applyResizeFile, applyRemoveDirectory, applyRename, removeReplaced, applyReserveQuarantine; respect.
Qed.

(** Transactions do not see the order. *)
Lemma applyTxn_same record : respects (applyTxn record None).
Proof. unfold applyTxn. pose proof (respects_reduce record). respect. Qed.
