(* ===== verification/BaseLaws.v ===== *)
(** * Metadata bases: round trip

    The canonical base of a state decodes to the state, up to the order of its free and quarantined extents. *)

From S2P Require Export FrameLaws BaseCodec Validity Reorder.

(** ** The canonical order *)

Lemma comparePoints_swap left right : comparePoints right left = Z.opp <$> comparePoints left right.
Proof.
  remember (length left) as n eqn:Hn. revert left right Hn. induction (lt_wf n) as [n _ IH]. intros [|c left] [|d right] ->; try done.
  cbn [comparePoints]. rewrite (Z.eqb_sym (codePointAt (d :: right))).
  destruct (_ =? _) eqn:E; propify; [|cbn; f_equal; lia]. rewrite <- E. destruct (0xffff <? _).
  - destruct left as [|c' left], right as [|d' right]; try done. by apply (IH (length left)); cbn; [lia|].
  - apply (IH (length left)); cbn; [lia|done].
Qed.

Lemma compareUtf8Names_swap left right : compareUtf8Names right left = - compareUtf8Names left right.
Proof. unfold compareUtf8Names. rewrite comparePoints_swap. destruct (comparePoints left right); cbn; lia. Qed.

(** Strings of code units with the same code points are equal. *)
Lemma comparePoints_None left right : js_string left -> js_string right -> length left = length right ->
  comparePoints left right = None -> left = right.
Proof.
  remember (length left) as n eqn:Hn. revert left right Hn. induction (lt_wf n) as [n _ IH].
  intros [|c left] [|d right] -> Hl Hr Hlen; try done. cbn [comparePoints]. cbn in Hlen. injection Hlen as Hlen.
  apply Forall_cons in Hl as [Hc Hl], Hr as [Hd Hr].
  destruct (_ =? _) eqn:E; propify; [|done]. destruct (0xffff <? _) eqn:Ep; propify.
  - assert (Hpair : forall c l, 0 <= c <= 0xffff -> 0xffff < codePointAt (c :: l) ->
      exists e l', l = e :: l' /\ high_surrogate c = true /\ low_surrogate e = true /\ codePointAt (c :: l) = code_point c e).
    { intros c0 [|e l'] H0; cbn; [lia|]. destruct (high_surrogate c0 && low_surrogate e) eqn:Es; [|lia].
      apply andb_true_iff in Es as [? ?]. eauto 10. }
    destruct (Hpair c left) as (c' & left' & -> & Hh1 & Hl1 & P1); [by unfold js_string in *|done|].
    destruct (Hpair d right) as (d' & right' & -> & Hh2 & Hl2 & P2); [done|by rewrite <- E|].
    rewrite P1, P2 in E. unfold code_point, high_surrogate, low_surrogate in *. propify.
    assert (c = d) as -> by lia. assert (c' = d') as -> by lia.
    intros Hnone. cbn in Hlen. injection Hlen as Hlen. apply Forall_cons in Hl as [_ Hl], Hr as [_ Hr].
    rewrite (IH (length left') ltac:(cbn; lia) left' right'); done.
  - assert (Hsingle : forall c l, codePointAt (c :: l) <= 0xffff -> codePointAt (c :: l) = c).
    { intros c0 [|e l']; cbn; [done|]. destruct (high_surrogate c0 && low_surrogate e) eqn:Es; [|done].
      apply andb_true_iff in Es as [? ?]. unfold code_point, high_surrogate, low_surrogate in *. propify. lia. }
    pose proof Ep as Ep2. rewrite E in Ep2. rewrite (Hsingle d right Ep2), (Hsingle c left Ep) in E. subst d. intros Hnone.
    rewrite (IH (length left) ltac:(cbn; lia) left right); done.
Qed.

Lemma compareUtf8Names_eq left right : js_string left -> js_string right -> compareUtf8Names left right = 0 -> left = right.
Proof.
  intros Hl Hr. unfold compareUtf8Names. destruct (comparePoints left right) as [d|] eqn:E.
  - intros ->. exfalso. revert E. clear Hl Hr. remember (length left) as n eqn:Hn. revert left right Hn.
    induction (lt_wf n) as [n _ IH]. intros [|c left] [|d right] ->; try done. cbn [comparePoints].
    destruct (_ =? _) eqn:E; propify; [|intros Hd; apply (inj Some) in Hd; lia]. destruct (0xffff <? _).
    + destruct left as [|c' left], right as [|d' right]; try done. by apply (IH (length left)); cbn; [lia|].
    + apply (IH (length left)); cbn; [lia|done].
  - intros H. apply comparePoints_None; [done|done|lia|done].
Qed.

(** Sorted, and without repetitions: strictly increasing from one entry to the next. *)
Section Order.
Context {A : Type} (compare : A -> A -> Z).
Hypothesis Hswap : forall x y, compare y x = - compare x y.

Fixpoint increasing (l : list A) : Prop :=
  match l with
  | x :: (y :: _) as rest => compare x y < 0 /\ increasing rest
  | _ => True
  end.

Lemma sortIfNeeded_Permutation l : sortIfNeeded compare l ≡ₚ l.
Proof. unfold sortIfNeeded. destruct (outOfOrder compare l); [apply merge_sort_Permutation|done]. Qed.

Lemma sortIfNeeded_Sorted l : Sorted (not_after compare) (sortIfNeeded compare l).
Proof.
  unfold sortIfNeeded. destruct (outOfOrder compare l) eqn:E.
  - apply Sorted_merge_sort. intros x y. unfold not_after. rewrite (Hswap x y). lia.
  - induction l as [|x [|y l] IH]; [constructor|by repeat constructor|].
    cbn [outOfOrder] in E. apply orb_false_iff in E as [Exy E]. propify. constructor; [by apply IH|by constructor].
Qed.

Lemma increasing_Sorted l : Sorted (not_after compare) l -> NoDup l ->
  (forall x y, x ∈ l -> y ∈ l -> compare x y = 0 -> x = y) -> increasing l.
Proof.
  induction 1 as [|x l Hs IH Hx]; [done|]. intros Hn Heq. destruct l as [|y l]; [done|]. split.
  - inversion_clear Hx. apply NoDup_cons in Hn as [Hn _]. unfold not_after in *.
    destruct (decide (compare x y = 0)) as [E|]; [|lia]. apply Heq in E; [|set_solver..]. subst. set_solver.
  - apply IH; [by apply NoDup_cons in Hn as [_ ?]|]. intros a b Ha Hb. apply Heq; by right.
Qed.
End Order.

(** ** Inodes *)

Lemma codec_validatedU64 v : u64 v -> codec (w_validatedU64 v) r_u64 v 8.
Proof.
  intros Hv. exists (le_bytes 8 v). split_and!; [|apply reads_unsigned; ll|apply byteLength_le_bytes|apply le_bytes_byte].
  apply writes_require_bind; [by rewrite byteLength_le_bytes|apply writes_append].
Qed.

Lemma codec_validatedString s : name_ok s -> codec (w_validatedString (utf8_encode s)) r_string s (2 + ulen s).
Proof.
  intros [[n Hn] Ht]. pose proof (component_ulen s n Hn) as <-.
  destruct (validatePathComponent_inv s n Hn) as (Hl & Hne & Hm).
  apply (codec_text MAX_COMPONENT_BYTES n validatePathComponent s); [done|done|done| |ll].
  split; [by eapply utf8Length_pos, Hl; [apply Ht|]|done].
Qed.

Definition child_order (x y : jsstr * Z) : Z := compareUtf8Names x.1 y.1.

Lemma child_order_swap x y : child_order y x = - child_order x y.
Proof. apply compareUtf8Names_swap. Qed.

Definition entries_bytes (l : list (jsstr * Z)) : Z := foldr (fun e sum => child_bytes e.1 + sum) 0 l.

Definition insert_all {K V} `{Countable K} (m : gmap K V) (l : list (K * V)) : gmap K V :=
  foldl (fun m e => <[e.1 := e.2]> m) m l.

Lemma insert_all_list_to_map {K V} `{Countable K} (l : list (K * V)) (acc : gmap K V) : NoDup l.*1 ->
  (forall k, k ∈ l.*1 -> acc !! k = None) -> insert_all acc l = list_to_map l ∪ acc.
Proof.
  revert acc. induction l as [|[k v] l IH]; intros acc Hn Hd; cbn; [by rewrite map_empty_union|].
  apply NoDup_cons in Hn as [Hk Hn]. unfold insert_all in IH. rewrite IH; [|done|].
  - rewrite <- insert_union_l. symmetry. apply insert_union_r. by apply not_elem_of_list_to_map_1.
  - intros k' Hk'. rewrite lookup_insert_ne; [apply Hd; by right|]. intros ->. done.
Qed.

(** The entries of a map, in any order, make the map. *)
Lemma insert_all_entries {K V} `{Countable K} (m : gmap K V) l : l ≡ₚ map_to_list m -> insert_all ∅ l = m.
Proof.
  intros Hl. assert (Hn : NoDup l.*1) by (rewrite Hl; apply NoDup_fst_map_to_list).
  rewrite insert_all_list_to_map; [|done|by intros; apply lookup_empty].
  rewrite map_union_empty, (list_to_map_proper l (map_to_list m)) by done. apply list_to_map_to_list.
Qed.

Lemma codec_children l previous acc : Forall (fun e => name_ok e.1 /\ u64 e.2) l -> increasing child_order l ->
  (match previous, l with Some p, e :: _ => compareUtf8Names p e.1 < 0 | _, _ => True end) ->
  codec (forM (fun '(name, inodeId) => w_validatedString (utf8_encode name) ≫= fun _ => w_validatedU64 inodeId) l)
    (readChildren (length l) previous acc) (insert_all acc l) (entries_bytes l).
Proof.
  intros Hf. revert previous acc. induction Hf as [|[name id] l [Hn Hid] Hf IH]; intros previous acc Hi Hp; [apply codec_nil|].
  cbn [forM readChildren length insert_all foldl entries_bytes foldr fst snd] in *.
  apply codec_assoc. apply (codec_eq _ _ _ ((2 + ulen name) + (8 + entries_bytes l))); [|fold (entries_bytes l); unfold child_bytes, CHILD_FIXED_BYTES; lia].
  apply (codec_bind _ _ _ _ name); [by apply codec_validatedString|].
  apply (codec_check _ _ _ tt). { apply throw_if_Ok. destruct previous; [|done]. by apply Z.leb_gt. }
  apply (codec_bind _ _ _ _ id); [by apply codec_validatedU64|]. apply IH.
  - destruct l; [done|]. apply Hi.
  - destruct l as [|e l]; [done|]. apply Hi.
Qed.

Lemma sortedChildren_Permutation ch : sortedChildren ch ≡ₚ map_to_list ch.
Proof. apply sortIfNeeded_Permutation. Qed.

Lemma entries_bytes_sorted ch : entries_bytes (sortedChildren ch) = children_bytes ch.
Proof.
  unfold children_bytes. rewrite map_sum_to_list. unfold entries_bytes.
  transitivity (foldr (fun e sum => child_bytes e.1 + sum) 0 (map_to_list ch)).
  - apply (foldr_permutation (=) _ _ _ _); [intros; lia|]. apply sortedChildren_Permutation.
  - induction (map_to_list ch) as [|[k v] l IH]; cbn; [done|]. by rewrite IH.
Qed.

Lemma children_increasing ch : (forall n, is_Some (ch !! n) -> js_string n) -> increasing child_order (sortedChildren ch).
Proof.
  intros Hjs. assert (Hin : forall e, e ∈ sortedChildren ch -> ch !! e.1 = Some e.2).
  { intros [n c]. rewrite sortedChildren_Permutation. by intros ?%elem_of_map_to_list. }
  apply (increasing_Sorted child_order child_order_swap).
  - apply (sortIfNeeded_Sorted child_order child_order_swap).
  - rewrite sortedChildren_Permutation. apply NoDup_map_to_list.
  - intros [n c] [n' c'] H1%Hin H2%Hin Heq. cbn in *. unfold child_order in Heq. cbn in Heq. apply compareUtf8Names_eq in Heq as ->; [congruence|apply Hjs; eauto..].
Qed.

(** Collecting pairs into a map that must not have their keys yet. *)
Definition add_new {K V} `{Countable K} (m : gmap K V) (entry : K * V) : R (gmap K V) :=
  throw_if (bool_decide (is_Some (m !! entry.1))) CorruptStoreError ≫= fun _ => Ok (<[entry.1 := entry.2]> m).

Lemma collect_run {K V} `{Countable K} (l : list (K * V)) (m : gmap K V) : NoDup l.*1 -> (forall k, k ∈ l.*1 -> m !! k = None) ->
  exists m', foldM add_new m l = Ok m' /\ forall k v, m' !! k = Some v <-> m !! k = Some v \/ (k, v) ∈ l.
Proof.
  revert m. induction l as [|[k v] l IH]; intros m Hn Hd; cbn [foldM]; [exists m; split; [done|]; set_solver|].
  apply NoDup_cons in Hn as [Hk Hn]. assert (Hmk : m !! k = None) by (apply Hd; by left).
  change (add_new m (k, v)) with (throw_if (bool_decide (is_Some (m !! k))) CorruptStoreError ≫= fun _ => Ok (<[k := v]> m)).
  rewrite Hmk. cbn [bool_decide throw_if mbind result_bind].
  destruct (IH (<[k := v]> m) Hn) as (m' & Hm' & Hspec).
  - intros k' Hk'. rewrite lookup_insert_ne; [apply Hd; by right|]. intros <-. done.
  - exists m'. split; [exact Hm'|]. intros k' v'. rewrite Hspec, elem_of_cons. destruct (decide (k = k')) as [<-|Hne].
    + rewrite lookup_insert_eq, Hmk. split; [intros [[= <-]|Hin]; [by right; left|by right; right]|].
      intros [?|[[= ->]|Hin]]; [done|by left|by right].
    + rewrite lookup_insert_ne by done. split; [intros [?|?]; tauto|]. intros [?|[[= -> ->]|?]]; tauto.
Qed.

Lemma foldM_flat {A B C} (f : C -> B -> R C) (g : A -> list B) l acc :
  foldM (fun acc x => foldM f acc (g x)) acc l = foldM f acc (l ≫= g).
Proof.
  assert (Happ : forall l1 l2 acc, foldM f acc (l1 ++ l2) = (foldM f acc l1 ≫= fun acc => foldM f acc l2)).
  { induction l1 as [|x l1 IH]; intros l2 a; cbn; [done|]. destruct (f a x); cbn; [apply IH|done]. }
  revert acc. induction l as [|x l IH]; intros acc; cbn; [done|]. rewrite Happ. destruct (foldM f acc (g x)); cbn; [apply IH|done].
Qed.

Lemma foldM_fmap {A B C} (f : C -> B -> R C) (g : A -> B) l acc :
  foldM f acc (g <$> l) = foldM (fun acc x => f acc (g x)) acc l.
Proof. revert acc. induction l as [|x l IH]; intros acc; cbn; [done|]. destruct (f acc (g x)); cbn; [apply IH|done]. Qed.

(** The owners of the extents of the inodes [l]. *)
Definition owned_pairs (l : list Inode) : list (Z * Z) :=
  l ≫= fun i => (fun e => (e, inode_id i)) <$> kind_extents (inode_kind i).

Definition ownInode (ownedBy : gmap Z Z) (i : Inode) : R (gmap Z Z) :=
  match inode_kind i with File _ extents => ownExtents (inode_id i) ownedBy extents | _ => Ok ownedBy end.

Lemma ownInodes_pairs l owned : foldM ownInode owned l = foldM add_new owned (owned_pairs l).
Proof.
  unfold owned_pairs. rewrite <- foldM_flat. apply foldM_ext. intros ob i. unfold ownInode, kind_extents.
  destruct (inode_kind i) as [ch|sz extents|t]; [done| |done]. unfold ownExtents. by rewrite foldM_fmap.
Qed.

Definition inode_order (x y : Inode) : Z := compareBigint (inode_id x) (inode_id y).

Definition kind_fits (k : InodeKind) : Prop :=
  match k with
  | Directory ch => (forall n c, ch !! n = Some c -> name_ok n /\ u64 c) /\ Z.of_nat (size ch) <= MAX_INODES
  | File size extents => u64 size /\ Forall u64 extents /\ Z.of_nat (length extents) <= MAX_EXTENTS_PER_INODE
  | Symlink target => link_ok target
  end.

(** An inode whose fields fit the wire format. *)
Record inode_fits (i : Inode) : Prop := {
  if_id : u64 (inode_id i);
  if_mode : u32_ok (inode_mode i);
  if_atime : u64 (atimeMs i);
  if_mtime : u64 (mtimeMs i);
  if_ctime : u64 (ctimeMs i);
  if_kind : kind_fits (inode_kind i)
}.

Lemma codec_last_const {A B} (w : W unit) (r : Rd A) (f : A -> B) x n : codec w r x n -> codec w (r ≫= fun a => mret (f a)) (f x) n.
Proof. intros H. by eapply codec_last. Qed.

Lemma codec_u64s l : Forall u64 l -> codec (forM w_validatedU64 l) (r_repeat (length l) r_u64) l (Z.of_nat (length l) * 8).
Proof.
  intros Hl. eapply codec_eq; [apply (codec_repeat _ _ (fun _ => 8)); eapply Forall_impl; [exact Hl|]; apply codec_validatedU64|].
  clear Hl. induction l as [|x l IH]; cbn [foldr length]; lia.
Qed.

(** The fields every inode starts with. *)
Ltac header_field :=
  first [apply codec_validatedU64; assumption | apply codec_u8; vm_compute; split; discriminate | apply codec_u32; assumption].

Lemma codec_inode i : inode_fits i -> codec (writeInode i) readInode i (inode_bytes i).
Proof.
  destruct i as [id mode a m c k]. intros [Hid Hmode Ha Hm Hc Hk]. cbn in Hid, Hmode, Ha, Hm, Hc, Hk.
  unfold writeInode, readInode, inode_bytes. cbn [inode_id inode_kind inode_mode atimeMs mtimeMs ctimeMs].
  destruct k as [ch|sz extents|target]; cbn [kind_fits] in Hk.
  - destruct Hk as [Hch Hsize]. eapply codec_eq; [do 6 (eapply codec_bind; [header_field|])|].
    + cbn [Z.eqb INODE_KIND_DIRECTORY].
      assert (Hlen : Z.of_nat (length (sortedChildren ch)) = Z.of_nat (size ch)).
      { rewrite sortedChildren_Permutation. by rewrite length_map_to_list. }
      eapply codec_bind; [apply codec_boundedCount; ll|]. rewrite Nat2Z.id.
      apply (codec_last_const _ _ (fun ch => mkInode id mode a m c (Directory ch))).
      pose proof (codec_children (sortedChildren ch) None ∅) as Hcodec.
      rewrite (insert_all_entries ch) in Hcodec by apply sortedChildren_Permutation. apply Hcodec; [|apply children_increasing|done].
      * apply Forall_forall. intros [n cid]. rewrite sortedChildren_Permutation. intros Hin%elem_of_map_to_list. by apply Hch.
      * intros n [cid Hn]. by apply (Hch n cid).
    + rewrite entries_bytes_sorted. unfold DIRECTORY_INODE_FIXED_BYTES. lia.
  - destruct Hk as (Hsz & Hex & Hlen). eapply codec_eq; [do 6 (eapply codec_bind; [header_field|])|].
    + cbn [Z.eqb INODE_KIND_DIRECTORY INODE_KIND_FILE]. eapply codec_bind; [header_field|].
      eapply codec_bind; [apply codec_boundedCount; ll|]. rewrite Nat2Z.id.
      apply (codec_last_const _ _ (fun extents => mkInode id mode a m c (File sz extents))). by apply codec_u64s.
    + unfold FILE_INODE_FIXED_BYTES. lia.
  - eapply codec_eq; [do 6 (eapply codec_bind; [header_field|])|].
    + cbn [Z.eqb INODE_KIND_DIRECTORY INODE_KIND_FILE INODE_KIND_SYMLINK].
      apply (codec_last_const _ _ (fun target => mkInode id mode a m c (Symlink target))). by apply codec_symlinkTarget.
    + unfold SYMLINK_INODE_FIXED_BYTES. lia.
Qed.

(** ** The lists of the payload *)

Definition inodes_sum (l : list Inode) : Z := foldr (fun i sum => inode_bytes i + sum) 0 l.

Lemma codec_inodes l previous acc owned owned' : Forall inode_fits l -> increasing inode_order l ->
  (match previous, l with Some p, i :: _ => p < inode_id i | _, _ => True end) -> foldM ownInode owned l = Ok owned' ->
  codec (forM writeInode l) (readInodes (length l) previous acc owned)
    (insert_all acc ((fun i => (inode_id i, i)) <$> l), owned') (inodes_sum l).
Proof.
  intros Hf. revert previous acc owned. induction Hf as [|i l Hi Hf IH]; intros previous acc owned Hinc Hp Hown.
  { injection Hown as <-. apply codec_nil. }
  cbn [forM readInodes length fmap list_fmap insert_all foldl inodes_sum foldr]. cbn [foldM] in Hown. apply bind_Ok in Hown as (owned1 & Ho & Hown).
  apply (codec_bind _ _ _ _ i); [by apply codec_inode|].
  apply (codec_check _ _ _ tt). { apply throw_if_Ok. destruct previous; [|done]. by apply Z.leb_gt. }
  apply (codec_check _ _ _ owned1); [exact Ho|]. apply IH; [by destruct l; [|apply Hinc]| |done].
  destruct l as [|j l]; [done|]. destruct Hinc as [Hlt _]. unfold inode_order, compareBigint in Hlt.
  destruct (inode_id i <? inode_id j) eqn:E; propify; [done|]. by destruct (inode_id j <? inode_id i).
Qed.

Lemma codec_available l previous acc : Forall u64 l -> increasing compareBigint l ->
  (match previous, l with Some p, e :: _ => p < e | _, _ => True end) ->
  codec (forM w_validatedU64 l) (readAvailable (length l) previous acc) (fold_left ExtentSet.add l acc) (Z.of_nat (length l) * 8).
Proof.
  intros Hf. revert previous acc. induction Hf as [|e l He Hf IH]; intros previous acc Hinc Hp; [apply codec_nil|].
  cbn [forM readAvailable length fold_left]. apply (codec_eq _ _ _ (8 + Z.of_nat (length l) * 8)); [|lia].
  apply (codec_bind _ _ _ _ e); [by apply codec_validatedU64|].
  apply (codec_check _ _ _ tt). { apply throw_if_Ok. destruct previous; [|done]. by apply Z.leb_gt. }
  apply IH; [by destruct l; [|apply Hinc]|].
  destruct l as [|j l]; [done|]. destruct Hinc as [Hlt _]. unfold compareBigint in Hlt.
  destruct (e <? j) eqn:E; propify; [done|]. by destruct (j <? e).
Qed.

Definition quarantine_order (x y : Z * option Z) : Z := compareBigint x.1 y.1.

Lemma codec_quarantine l previous acc : Forall (fun e => u64 e.1 /\ forall g, e.2 = Some g -> 0 < g <= MAX_U64) l ->
  increasing quarantine_order l -> (match previous, l with Some p, e :: _ => p < e.1 | _, _ => True end) ->
  codec (forM (fun '(extentId, generation) => w_validatedU64 extentId ≫= fun _ => w_validatedU64 (default 0 generation)) l)
    (readQuarantine (length l) previous acc) (foldl (fun q e => JsMap.set q e.1 e.2) acc l) (Z.of_nat (length l) * 16).
Proof.
  intros Hf. revert previous acc. induction Hf as [|[e g] l [He Hg] Hf IH]; intros previous acc Hinc Hp; [apply codec_nil|].
  cbn [forM readQuarantine length foldl fst snd] in *. apply codec_assoc.
  apply (codec_eq _ _ _ (8 + (8 + Z.of_nat (length l) * 16))); [|lia].
  apply (codec_bind _ _ _ _ e); [by apply codec_validatedU64|].
  apply (codec_bind _ _ _ _ (default 0 g)).
  { apply codec_validatedU64. destruct g as [g|]; cbn; [|ll]. specialize (Hg g eq_refl). ll. }
  apply (codec_check _ _ _ tt). { apply throw_if_Ok. destruct previous; [|done]. by apply Z.leb_gt. }
  assert (Eg : (if default 0 g =? 0 then None else Some (default 0 g)) = g).
  { destruct g as [g|]; [|done]. specialize (Hg g eq_refl). cbn. by rewrite (proj2 (Z.eqb_neq _ _)) by lia. }
  rewrite Eg. apply IH; [by destruct l; [|apply Hinc]|].
  destruct l as [|j l]; [done|]. destruct Hinc as [Hlt _]. unfold quarantine_order, compareBigint in Hlt. cbn in Hlt.
  destruct (e <? j.1) eqn:E; propify; [done|]. by destruct (j.1 <? e).
Qed.

(** ** The payload *)

(** A pair whose reader is at its end. *)
Definition codec_end {A} (w : W unit) (rd : Rd A) (v : A) (n : Z) : Prop :=
  exists bs, writes w bs /\ rd bs = ([], Ok v) /\ byteLength bs = n /\ Forall byte bs.

Lemma codec_end_bind {A B} (w1 w2 : W unit) (r1 : Rd A) (k : A -> Rd B) x y a b :
  codec w1 r1 x a -> codec_end w2 (k x) y b -> codec_end (w1 ≫= fun _ => w2) (r1 ≫= k) y (a + b).
Proof.
  intros (b1 & W1 & R1 & L1 & F1) (b2 & W2 & R2 & L2 & F2). exists (b1 ++ b2). split_and!.
  - by apply writes_bind.
  - by rewrite (st_bind_run _ _ _ _ _ (R1 b2)).
  - rewrite byteLength_app. lia.
  - by apply Forall_app.
Qed.

Lemma codec_end_check {A B} (w : W unit) (m : R B) (k : B -> Rd A) u y n :
  m = Ok u -> codec_end w (k u) y n -> codec_end w (st_lift m ≫= k) y n.
Proof. intros -> (bs & Hw & Hr & Hl & Hf). exists bs. by rewrite st_bind_lift. Qed.

Lemma codec_end_last {A B} (w : W unit) (r : Rd A) (k : A -> Rd B) x y n :
  codec w r x n -> k x = (r_end ≫= fun _ => mret y) -> codec_end w (r ≫= k) y n.
Proof.
  intros (bs & Hw & Hr & Hl & Hf) Hk. exists bs. split_and!; [done| |done|done].
  specialize (Hr []). rewrite app_nil_r in Hr. by rewrite (st_bind_run _ _ _ _ _ Hr), Hk.
Qed.

(** The strings of a state are strings the codec can carry. *)
Definition texts_ok (s : VfsState) : Prop := forall k i, inodes s !! k = Some i ->
  match inode_kind i with
  | Directory ch => forall n c, ch !! n = Some c -> text_ok n
  | Symlink target => text_ok target
  | File _ _ => True
  end.

Lemma children_count s k i ch : Core s -> inodes s !! k = Some i -> inode_kind i = Directory ch ->
  Z.of_nat (size ch) <= MAX_INODES.
Proof.
  intros C Hi Hk. pose proof (c_tree s C) as T. pose proof (c_count s C) as Hc.
  assert (Hd : is_dir_at (inodes s) k ch) by (by exists i).
  assert (Hle : (length (map_to_list ch).*2 <= length (map_to_list (inodes s)).*1)%nat).
  { apply submseteq_length, NoDup_submseteq.
    - apply NoDup_fmap_2_strong; [|apply NoDup_map_to_list]. intros [n c] [n' c'] H1%elem_of_map_to_list H2%elem_of_map_to_list E.
      cbn in E. subst c'. pose proof (t_child _ _ _ _ _ T _ _ _ _ Hd H1) as E1. rewrite (t_child _ _ _ _ _ T _ _ _ _ Hd H2) in E1. congruence.
    - intros c ([n c'] & -> & Hn%elem_of_map_to_list)%list_elem_of_fmap. destruct (child_present T k ch n c' Hd Hn) as [j Hj].
      apply list_elem_of_fmap. exists (c', j). split; [done|]. by apply elem_of_map_to_list. }
  rewrite !length_fmap, !length_map_to_list in Hle. lia.
Qed.

Lemma extentCountForSize_bounds sz es n : extentCountForSize sz es = Ok n -> u64 sz /\ n <= MAX_EXTENTS_PER_INODE.
Proof.
  unfold extentCountForSize. intros (z & [_ Hz]%checkedU64_Ok & H)%bind_Ok. split; [done|].
  destruct (sz =? 0); [injection H as <-; ll|]. apply bind_Ok in H as (u & Hu%throw_if_Ok & [= <-]). by propify.
Qed.

Lemma state_inode_fits s k i : Inv s -> texts_ok s -> inodes s !! k = Some i -> inode_fits i.
Proof.
  intros [C _ _] Ht Hi. pose proof (c_tree s C) as T. pose proof (t_inode _ _ _ _ _ T k i Hi) as [Hid Hkey Hm Ha Hmt Hct Hk].
  pose proof (c_next s C) as Hn. specialize (Ht k i Hi). split; try done; [rewrite Hid; ll|].
  destruct (inode_kind i) as [ch|sz extents|target] eqn:Ek; cbn [kind_ok kind_fits] in *.
  - split; [|by eapply children_count]. intros n c Hc. split; [split; [by eapply Hk|by eapply Ht]|].
    destruct (child_present T k ch n c ltac:(by exists i) Hc) as [j Hj].
    destruct (t_inode _ _ _ _ _ T c j Hj) as [_ Hck _ _ _ _ _]. ll.
  - split; [|split].
    + by apply extentCountForSize_bounds in Hk as [? ?].
    + apply Forall_forall. intros e He. pose proof (a_total _ (c_alloc s C)).
      assert (Ho : ownedBy (allocator s) !! e = Some k) by (apply (own_iff _ _ (c_own s C)); unfold extents_of; by rewrite Hi, Ek).
      assert (0 <= e < totalExtents (allocator s)) by (apply (a_cover _ (c_alloc s C)); eauto). ll.
    + by apply extentCountForSize_bounds in Hk as [? ?].
  - done.
Qed.

Lemma compareBigint_swap x y : compareBigint y x = - compareBigint x y.
Proof. unfold compareBigint. destruct (x <? y) eqn:E1, (y <? x) eqn:E2; propify; lia. Qed.

Lemma compareBigint_eq x y : compareBigint x y = 0 -> x = y.
Proof. unfold compareBigint. destruct (x <? y) eqn:E1; [done|]. destruct (y <? x) eqn:E2; [done|]. intros _. propify. lia. Qed.

(** Sorting by a key that no two elements share. *)
Lemma increasing_by {A} (key : A -> Z) (l : list A) : NoDup (key <$> l) ->
  increasing (fun x y => compareBigint (key x) (key y)) (sortIfNeeded (fun x y => compareBigint (key x) (key y)) l).
Proof.
  intros Hn. set (cmp := fun x y : A => compareBigint (key x) (key y)).
  assert (Hs : forall x y, cmp y x = - cmp x y) by (intros; apply compareBigint_swap).
  assert (Hperm : sortIfNeeded cmp l ≡ₚ l) by apply sortIfNeeded_Permutation.
  apply (increasing_Sorted cmp Hs); [by apply (sortIfNeeded_Sorted cmp)|rewrite Hperm; by eapply NoDup_fmap_1|].
  intros x y. rewrite Hperm. intros [i Hi]%list_elem_of_lookup [j Hj]%list_elem_of_lookup E%compareBigint_eq.
  assert (i = j); [|congruence]. eapply (NoDup_lookup (key <$> l)); [done|rewrite list_lookup_fmap, Hi; done|].
  rewrite list_lookup_fmap, Hj. cbn. by rewrite E.
Qed.

(** The state as its base gives it back: the free and the quarantined extents in increasing order, and only
    the generation of the active file. *)
Definition canonical (s : VfsState) : VfsState :=
  mkState (generation s) (nextInodeId s) (rootInodeId s) (extentSize s) (activeMetadataFile s)
    (if decide (activeMetadataFile s = MetaA) then Some (generation s) else None)
    (if decide (activeMetadataFile s = MetaB) then Some (generation s) else None)
    (basePayloadBytes s) (inodes s) (parentByInode s)
    (mkAllocator (totalExtents (allocator s)) (ownedBy (allocator s))
       (fold_left ExtentSet.add (sortedAvailable s) ExtentSet.empty) (sortedQuarantine s)).

Definition payload_of (s : VfsState) : BasePayload :=
  mkPayload (totalExtents (allocator s)) (nextInodeId s) (inodes s) (ownedBy (allocator s))
    (available (allocator (canonical s))) (sortedQuarantine s).

Lemma sortedInodes_Permutation s : sortedInodes s ≡ₚ (map_to_list (inodes s)).*2.
Proof. apply sortIfNeeded_Permutation. Qed.
Lemma sortedAvailable_Permutation s : sortedAvailable s ≡ₚ ExtentSet.items (available (allocator s)).
Proof. apply sortIfNeeded_Permutation. Qed.
Lemma sortedQuarantine_Permutation s : sortedQuarantine s ≡ₚ quarantine (allocator s).
Proof. apply sortIfNeeded_Permutation. Qed.

(** The identifiers of the inodes are their keys. *)
Lemma inode_keys s : Core s -> (fun i => (inode_id i, i)) <$> (map_to_list (inodes s)).*2 = map_to_list (inodes s).
Proof.
  intros C. rewrite <- list_fmap_compose. rewrite <- (list_fmap_id (map_to_list (inodes s))) at 2. apply list_fmap_ext.
  intros n [k i] Hn. cbn. f_equal. assert (Hi : inodes s !! k = Some i) by (apply elem_of_map_to_list; by eapply list_elem_of_lookup_2).
  by apply (t_inode _ _ _ _ _ (c_tree s C) k i Hi).
Qed.

Lemma inode_ids s : Core s -> NoDup (inode_id <$> (map_to_list (inodes s)).*2).
Proof.
  intros C. pose proof (inode_keys s C) as E. apply (f_equal (fmap fst)) in E. rewrite <- list_fmap_compose in E.
  change (fst ∘ (fun i => (inode_id i, i))) with inode_id in E. rewrite E. apply NoDup_fst_map_to_list.
Qed.

Lemma fmap_bind {A B C} (g : B -> C) (f : A -> list B) l : g <$> (l ≫= f) = l ≫= fun x => g <$> f x.
Proof. induction l as [|x l IH]; [done|]. cbn. by rewrite fmap_app, IH. Qed.

Lemma owned_again s : Core s -> foldM ownInode ∅ (sortedInodes s) = Ok (ownedBy (allocator s)).
Proof.
  intros C. pose proof (c_own s C) as [Hiff Hnd]. rewrite ownInodes_pairs.
  assert (Hin : forall i, i ∈ sortedInodes s -> inodes s !! inode_id i = Some i /\ extents_of (inodes s) (inode_id i) = kind_extents (inode_kind i)).
  { intros i. rewrite sortedInodes_Permutation. intros ([k j] & -> & Hk%elem_of_map_to_list)%list_elem_of_fmap. cbn.
    rewrite (io_id _ _ _ _ (t_inode _ _ _ _ _ (c_tree s C) k j Hk)). split; [done|]. unfold extents_of. by rewrite Hk. }
  assert (Hkeys : (owned_pairs (sortedInodes s)).*1 = sortedInodes s ≫= fun i => kind_extents (inode_kind i)).
  { unfold owned_pairs. rewrite fmap_bind. apply list_bind_ext; [|done]. intros i. cbn. rewrite <- list_fmap_compose.
    rewrite <- (list_fmap_id (kind_extents _)) at 2. by apply list_fmap_ext. }
  destruct (collect_run (owned_pairs (sortedInodes s)) ∅) as (m' & -> & Hspec).
  - rewrite Hkeys. apply NoDup_bind.
    + intros i j e Hi%Hin Hj%Hin He1 He2. destruct Hi as [Hi Ei], Hj as [Hj Ej]. rewrite <- Ei in He1. rewrite <- Ej in He2.
      apply Hiff in He1, He2. congruence.
    + intros i [_ Ei]%Hin. rewrite <- Ei. apply Hnd.
    + rewrite sortedInodes_Permutation. by apply (NoDup_fmap_1 inode_id), inode_ids.
  - intros; apply lookup_empty.
  - f_equal. apply map_eq. intros e. apply option_eq. intros k. rewrite Hspec, lookup_empty, Hiff. unfold owned_pairs. rewrite list_elem_of_bind. split.
    + intros [?|(i & Hp & Hi)]; [done|]. apply list_elem_of_fmap in Hp as (e' & [= -> ->] & He). apply Hin in Hi as [_ ->]. done.
    + intros He. right. unfold extents_of in He. destruct (inodes s !! k) as [i|] eqn:Hk; [|by apply elem_of_nil in He].
      exists i. assert (Hid : inode_id i = k) by apply (t_inode _ _ _ _ _ (c_tree s C) k i Hk). split.
      * apply list_elem_of_fmap. exists e. by rewrite Hid.
      * rewrite sortedInodes_Permutation. apply list_elem_of_fmap. exists (k, i). split; [done|]. by apply elem_of_map_to_list.
Qed.

Definition parent_pairs (entry : Z * Inode) : list (Z * (Z * jsstr)) :=
  match inode_kind entry.2 with
  | Directory ch => (fun '(n, c) => (c, (inode_id entry.2, n))) <$> map_to_list ch
  | _ => []
  end.

Lemma parents_again s : Core s -> indexParents (inodes s) = Ok (parentByInode s).
Proof.
  intros C. pose proof (c_tree s C) as T.
  assert (E : indexParents (inodes s) = foldM add_new ∅ (map_to_list (inodes s) ≫= parent_pairs)).
  { unfold indexParents. rewrite <- foldM_flat. apply foldM_ext. intros m [k i]. unfold parent_pairs. cbn [snd].
    destruct (inode_kind i); [|done|done]. rewrite foldM_fmap. apply foldM_ext. by intros m' [n c]. }
  rewrite E. clear E.
  assert (Hin : forall c p n, (c, (p, n)) ∈ map_to_list (inodes s) ≫= parent_pairs <-> parentByInode s !! c = Some (p, n)).
  { intros c p n. rewrite list_elem_of_bind. split.
    - intros ([k i] & Hp & Hk%elem_of_map_to_list). unfold parent_pairs in Hp. cbn in Hp.
      destruct (inode_kind i) as [ch| |] eqn:Ek; [|by apply elem_of_nil in Hp..].
      apply list_elem_of_fmap in Hp as ([n' c'] & [= -> -> ->] & Hch%elem_of_map_to_list).
      rewrite (io_id _ _ _ _ (t_inode _ _ _ _ _ T k i Hk)). eapply (t_child _ _ _ _ _ T); [by exists i|done].
    - intros Hp. destruct (t_parent _ _ _ _ _ T _ _ _ Hp) as (_ & ch & (i & Hi & Ek) & Hch).
      exists (p, i). split; [|by apply elem_of_map_to_list]. unfold parent_pairs. cbn. rewrite Ek. apply list_elem_of_fmap.
      exists (n, c). split; [|by apply elem_of_map_to_list]. by rewrite (io_id _ _ _ _ (t_inode _ _ _ _ _ T p i Hi)). }
  destruct (collect_run (map_to_list (inodes s) ≫= parent_pairs) ∅) as (m' & -> & Hspec).
  - rewrite fmap_bind. apply NoDup_bind.
    + intros [k i] [k' i'] c Hk%elem_of_map_to_list Hk'%elem_of_map_to_list H1 H2.
      assert (Hp : forall k i, inodes s !! k = Some i -> c ∈ (parent_pairs (k, i)).*1 -> exists n, parentByInode s !! c = Some (k, n)).
      { intros k0 i0 H0 ([c' [p n]] & -> & Hc)%list_elem_of_fmap. exists n. apply Hin, list_elem_of_bind. exists (k0, i0).
        split; [|by apply elem_of_map_to_list]. unfold parent_pairs in *. cbn in *. destruct (inode_kind i0); [|by apply elem_of_nil in Hc..].
        apply list_elem_of_fmap in Hc as ([n' c0] & [= -> -> ->] & Hc). rewrite (io_id _ _ _ _ (t_inode _ _ _ _ _ T k0 i0 H0)).
        apply list_elem_of_fmap. by exists (n', c0). }
      destruct (Hp k i Hk H1) as [n E1], (Hp k' i' Hk' H2) as [n' E2]. rewrite E1 in E2. injection E2 as <- <-. congruence.
    + intros [k i] Hk%elem_of_map_to_list. unfold parent_pairs. cbn. destruct (inode_kind i) as [ch| |] eqn:Ek; [|constructor..].
      rewrite <- list_fmap_compose. apply NoDup_fmap_2_strong; [|apply NoDup_map_to_list].
      intros [n c] [n' c'] H1%elem_of_map_to_list H2%elem_of_map_to_list Ec. cbn in Ec. subst c'.
      assert (Hd : is_dir_at (inodes s) k ch) by (by exists i).
      pose proof (t_child _ _ _ _ _ T _ _ _ _ Hd H1) as E1. rewrite (t_child _ _ _ _ _ T _ _ _ _ Hd H2) in E1. congruence.
    + apply NoDup_map_to_list.
  - intros; apply lookup_empty.
  - f_equal. apply map_eq. intros c. apply option_eq. intros [p n]. rewrite Hspec, lookup_empty, <- Hin. naive_solver.
Qed.

Lemma inodes_sum_sorted s : inodes_sum (sortedInodes s) = inodes_bytes (inodes s).
Proof.
  unfold inodes_bytes, inodes_sum. rewrite map_sum_to_list.
  transitivity (foldr (fun i sum => inode_bytes i + sum) 0 (map_to_list (inodes s)).*2).
  - apply (foldr_permutation (=) _ _ _ _); [intros; lia|]. apply sortedInodes_Permutation.
  - induction (map_to_list (inodes s)) as [|[k i] l IH]; cbn; [done|]. by rewrite IH.
Qed.

Lemma quarantine_again l : NoDup l.*1 -> forall acc, (forall k, k ∈ l.*1 -> k ∉ JsMap.keys acc) ->
  foldl (fun q e => JsMap.set q e.1 e.2) acc l = acc ++ l :> list (Z * option Z).
Proof.
  induction l as [|[k v] l IH]; intros Hn acc Hd; cbn; [by rewrite app_nil_r|]. apply NoDup_cons in Hn as [Hk Hn].
  rewrite JsMap.set_fresh by (apply Hd; by left). rewrite IH; [by rewrite <- app_assoc|done|].
  intros k' Hk' Hin. unfold JsMap.keys in Hin. rewrite fmap_app, elem_of_app in Hin. destruct Hin as [Hin|Hin%list_elem_of_singleton].
  - apply (Hd k'); [by right|done].
  - by subst.
Qed.

Lemma codec_payload s : Inv s -> texts_ok s ->
  codec_end (writeMetadataPayload s)
    (readMetadataPayload (ExtentSet.size (available (allocator s))) (Z.of_nat (length (quarantine (allocator s)))))
    (payload_of s) (basePayloadBytes s).
Proof.
  intros I Ht. pose proof I as [C Hb _]. pose proof (c_alloc s C) as A. pose proof (a_total _ A) as Htot.
  assert (Hall : forall e, e ∈ ExtentSet.items (available (allocator s)) \/ e ∈ JsMap.keys (quarantine (allocator s)) -> u64 e).
  { intros e He. assert (0 <= e < totalExtents (allocator s)) by (apply (a_cover _ A); tauto). ll. }
  unfold writeMetadataPayload, readMetadataPayload. rewrite Hb. unfold base_bytes, BASE_STATE_FIXED_BYTES, alloc_bytes.
  assert (Hli : length (sortedInodes s) = size (inodes s))
    by (rewrite sortedInodes_Permutation, length_fmap; apply length_map_to_list).
  assert (Hla : Z.of_nat (length (sortedAvailable s)) = ExtentSet.size (available (allocator s)))
    by (unfold ExtentSet.size; by rewrite sortedAvailable_Permutation).
  assert (Hlq : length (sortedQuarantine s) = length (quarantine (allocator s))) by (by rewrite sortedQuarantine_Permutation).
  rewrite <- Hli, <- Hla, <- Hlq, <- inodes_sum_sorted.
  match goal with |- codec_end _ _ _ ?n => replace n with (8 + (8 + (4 + (inodes_sum (sortedInodes s) +
    (Z.of_nat (length (sortedAvailable s)) * 8 + Z.of_nat (length (sortedQuarantine s)) * 16))))) by lia end.
  eapply codec_end_bind; [apply codec_validatedU64; ll|].
  eapply (codec_end_check _ _ _ tt); [apply throw_if_Ok; apply Z.ltb_ge; lia|].
  eapply codec_end_bind; [apply codec_validatedU64; apply C|].
  eapply codec_end_bind; [apply codec_boundedCount; [lia|rewrite Hli; apply C|ll]|]. rewrite !Nat2Z.id.
  eapply codec_end_bind.
  { apply (codec_inodes _ None ∅ ∅ (ownedBy (allocator s))); [|by apply (increasing_by inode_id), inode_ids|done|by apply owned_again].
    apply Forall_forall. intros i. rewrite sortedInodes_Permutation. intros ([k j] & -> & Hk%elem_of_map_to_list)%list_elem_of_fmap.
    by eapply state_inode_fits. }
  rewrite (insert_all_entries (inodes s)) by (rewrite sortedInodes_Permutation; by rewrite inode_keys).
  eapply codec_end_bind.
  { apply (codec_available _ None ExtentSet.empty); [|apply (increasing_by id); rewrite list_fmap_id; apply A|done].
    apply Forall_forall. intros e. rewrite sortedAvailable_Permutation. auto. }
  eapply codec_end_last.
  { apply (codec_quarantine _ None []); [|apply (increasing_by fst), (a_quarantine _ A)|done].
    apply Forall_forall. intros [e g]. rewrite sortedQuarantine_Permutation. intros Hin. split.
    - apply Hall. right. apply list_elem_of_fmap. by exists (e, g).
    - cbn. intros g' ->. rewrite (c_quarantine s C e g' Hin). apply C. }
  rewrite quarantine_again; [done| |by intros k _ Hk%elem_of_nil].
  rewrite sortedQuarantine_Permutation. apply (a_quarantine _ A).
Qed.

(** ** The header *)

Definition base_fields (s : VfsState) (payload checksum : list Z) : list (list Z) :=
  [METADATA_MAGIC; le_bytes 4 FORMAT_VERSION; le_bytes 4 LIMITS_PROFILE_VERSION; le_bytes 8 (generation s);
   le_bytes 4 (extentSize s); le_bytes 1 (metadataFileCode (activeMetadataFile s)); replicate 3 0; le_bytes 8 (rootInodeId s);
   le_bytes 4 (basePayloadBytes s); le_bytes 4 (ExtentSet.size (available (allocator s)));
   le_bytes 4 (Z.of_nat (length (quarantine (allocator s)))); replicate 4 0;
   le_bytes 8 (Z.of_nat METADATA_HEADER_BYTES + basePayloadBytes s); checksum; replicate 12 0; payload].

Definition base_bytes_of (s : VfsState) (payload : list Z) : list Z :=
  mjoin (base_fields s payload (le_bytes 4 (crc_reference (mjoin (base_fields s payload (replicate 4 0)))))).

Lemma base_fields_byte s payload : Forall byte payload -> Forall byte (mjoin (base_fields s payload (replicate 4 0))).
Proof.
  intros Hp. unfold base_fields. rewrite !mjoin_cons.
  assert (Hz : forall n, Forall byte (replicate n 0)) by (intros n; apply Forall_replicate; unfold byte; lia).
  assert (Hm : Forall byte METADATA_MAGIC) by (by apply bytes_check).
  repeat (apply Forall_app; split); eauto using le_bytes_byte.
Qed.

Lemma base_fields_length s payload c : length c = 4%nat ->
  length (mjoin (base_fields s payload c)) = (METADATA_HEADER_BYTES + length payload)%nat.
Proof.
  intros Hc. unfold base_fields. rewrite !mjoin_cons, !length_app, !length_le_bytes, !length_replicate, Hc. cbn. lia.
Qed.

Lemma encodeBase_layout s payload : Inv s -> writes (writeMetadataPayload s) payload -> byteLength payload = basePayloadBytes s ->
  Forall byte payload -> encodeValidatedMetadataBase s = Ok (base_bytes_of s payload).
Proof.
  intros [C _ Hl] Hw Hlen Hb. assert (H0 : 0 <= basePayloadBytes s) by (rewrite <- Hlen; unfold byteLength; lia).
  unfold encodeValidatedMetadataBase, encodeMetadataPayload. rewrite (proj2 (Z.ltb_ge _ _)) by done. cbn [throw_if mbind result_bind].
  change (Z.of_nat METADATA_HEADER_BYTES) with 80.
  unfold newBinaryWriter, isSafeInteger. rewrite !(proj2 (Z.leb_le _ _)) by ll. rewrite !(proj2 (Z.ltb_ge _ _)) by ll.
  cbn [negb orb throw_if mbind result_bind]. rewrite Hw.
  2:{ cbn [w_length w_bytes]. unfold byteLength in *. rewrite length_replicate. lia. }
  unfold w_finish. cbn [w_length w_bytes]. rewrite byteLength_app, (proj2 (Z.eqb_eq _ _))
    by (unfold byteLength in *; rewrite length_replicate; lia). cbn [negb throw_if mbind result_bind].
  set (zeros := [replicate 8 0; replicate 4 0; replicate 4 0; replicate 8 0; replicate 4 0; replicate 1 0; replicate 3 0;
                 replicate 8 0; replicate 4 0; replicate 4 0; replicate 4 0; replicate 4 0; replicate 8 0; replicate 4 0;
                 replicate 12 0; payload]).
  replace (replicate (Z.to_nat 80) 0 ++ payload) with (mjoin zeros)
    by (unfold zeros; rewrite !mjoin_cons; cbn; by rewrite app_nil_r).
  unfold set_le, zeros.
  rewrite (set_field _ 0 _ 0) by done. cbn [insert list_insert].
  rewrite (set_field _ 1 _ 8) by done. cbn [insert list_insert].
  rewrite (set_field _ 2 _ 12) by done. cbn [insert list_insert].
  rewrite (set_field _ 3 _ 16) by done. cbn [insert list_insert].
  rewrite (set_field _ 4 _ 24) by done. cbn [insert list_insert].
  rewrite (set_field _ 5 _ 28) by done. cbn [insert list_insert].
  rewrite (set_field _ 7 _ 32) by done. cbn [insert list_insert].
  rewrite (set_field _ 8 _ 40) by done. cbn [insert list_insert].
  rewrite (set_field _ 9 _ 44) by done. cbn [insert list_insert].
  rewrite (set_field _ 10 _ 48) by done. cbn [insert list_insert].
  rewrite (set_field _ 12 _ 56) by done. cbn [insert list_insert].
  change (sealChecksum METADATA_HEADER_CHECKSUM_OFFSET (mjoin (base_fields s payload (replicate 4 0))) = Ok (base_bytes_of s payload)).
  rewrite (sealChecksum_field _ 13) by
    (done || (by apply base_fields_byte) || (rewrite base_fields_length by done; unfold byteLength in Hlen; cbn; ll)).
  done.
Qed.

(** ** Decoding it *)

Lemma canonical_available s : Core s -> ExtentSet.items (available (allocator (canonical s))) = sortedAvailable s.
Proof.
  intros C. cbn. rewrite ExtentSet.fold_add_items; [done|apply ExtentSet.empty_wf| |by intros x _ Hx%elem_of_nil].
  rewrite sortedAvailable_Permutation. apply (a_available _ (c_alloc s C)).
Qed.

(** The canonical state is the state up to the order of its extents. *)
Lemma canonical_same s : Core s -> same s (canonical s).
Proof.
  intros C. pose proof (c_alloc s C) as A. split; [reflexivity|]. split.
  - by rewrite canonical_available, sortedAvailable_Permutation.
  - apply A.
  - apply ExtentSet.fold_add_wf, ExtentSet.empty_wf.
  - apply sortedQuarantine_Permutation.
  - apply A.
Qed.

Lemma canonical_Inv s : Inv s -> Inv (canonical s).
Proof.
  intros [C Hb Hl]. pose proof (c_alloc s C) as A. pose proof (canonical_available s C) as Hav.
  assert (Hin : forall e, e ∈ ExtentSet.items (available (allocator (canonical s))) <-> e ∈ ExtentSet.items (available (allocator s)))
    by (intros e; by rewrite Hav, sortedAvailable_Permutation).
  assert (Hq : forall e, e ∈ JsMap.keys (sortedQuarantine s) <-> e ∈ JsMap.keys (quarantine (allocator s)))
    by (intros e; unfold JsMap.keys; by rewrite sortedQuarantine_Permutation).
  split; [split; try apply C| |exact Hl].
  - destruct A as [Ht _ Hqw Hcov Hoa Hoq Haq]. split; try exact Ht.
    + apply ExtentSet.fold_add_wf, ExtentSet.empty_wf.
    + cbn. unfold JsMap.wf, JsMap.keys. by rewrite sortedQuarantine_Permutation.
    + intros e. rewrite Hin. cbn [allocator canonical quarantine ownedBy totalExtents]. by rewrite Hq.
    + intros e. rewrite Hin. apply Hoa.
    + intros e. cbn [allocator canonical quarantine ownedBy]. rewrite Hq. apply Hoq.
    + intros e. rewrite Hin. cbn [allocator canonical quarantine]. rewrite Hq. apply Haq.
  - split.
    + unfold retainedGenerations. cbn. by destruct (activeMetadataFile s).
    + intros g. unfold retainedGenerations. cbn. by destruct (activeMetadataFile s).
  - intros e g. cbn. rewrite sortedQuarantine_Permutation. apply C.
  - cbn. rewrite Hb. unfold base_bytes. f_equal. unfold alloc_bytes, ExtentSet.size. rewrite Hav, sortedAvailable_Permutation.
    cbn. by rewrite sortedQuarantine_Permutation.
Qed.

Lemma root_u64 s : Core s -> u64 (rootInodeId s).
Proof.
  intros C. destruct (t_root _ _ _ _ _ (c_tree s C)) as (ch & i & Hi & _). pose proof (c_next s C) as Hn.
  destruct (t_inode _ _ _ _ _ (c_tree s C) _ _ Hi) as [_ Hk _ _ _ _ _]. ll.
Qed.

Lemma inodes_bytes_nonneg s : Inv s -> texts_ok s -> 0 <= inodes_bytes (inodes s).
Proof.
  intros I Ht. apply map_sum_nonneg. intros k i Hi. destruct (codec_inode i) as (bs & _ & _ & <- & _); [by eapply state_inode_fits|].
  unfold byteLength. lia.
Qed.

Lemma inspect_base s payload c : Inv s -> texts_ok s -> length c = 4%nat -> byteLength payload = basePayloadBytes s ->
  inspectMetadataBaseHeader (take METADATA_HEADER_BYTES (mjoin (base_fields s payload c))) =
    Ok (mkBaseHeader FORMAT_VERSION LIMITS_PROFILE_VERSION (generation s) (extentSize s) (metadataFileCode (activeMetadataFile s))
          (rootInodeId s) (basePayloadBytes s) (ExtentSet.size (available (allocator s))) (Z.of_nat (length (quarantine (allocator s))))
          (Z.of_nat METADATA_HEADER_BYTES + basePayloadBytes s)).
Proof.
  intros I Ht Hc Hlen. pose proof (inodes_bytes_nonneg s I Ht) as Hnn. destruct I as [C Hb Hl].
  assert (H0 : 0 <= basePayloadBytes s) by (rewrite <- Hlen; unfold byteLength; lia).
  pose proof (c_generation s C) as Hg. pose proof (c_extentSize s C) as [Hes _]. pose proof (root_u64 s C) as Hroot.
  assert (Hsizes : 0 <= ExtentSet.size (available (allocator s)) * 8 <= basePayloadBytes s /\
    0 <= Z.of_nat (length (quarantine (allocator s))) * 16 <= basePayloadBytes s).
  { rewrite Hb. unfold base_bytes, alloc_bytes, ExtentSet.size, BASE_STATE_FIXED_BYTES. lia. }
  rewrite (take_fields _ 15) by (unfold base_fields; cbn [take]; rewrite !mjoin_cons, !length_app, Hc; done).
  unfold base_fields. cbn [take]. unfold inspectMetadataBaseHeader.
  rewrite (requireMagic_field _ METADATA_MAGIC) by done.
  rewrite (requireZero_field _ 6 3 29 32) by done.
  rewrite (requireZero_field _ 11 4 52 56) by done.
  rewrite (requireZero_field _ 14 12 68 80) by (done || (cbn [take]; rewrite !mjoin_cons, !length_app, Hc; done)).
  rewrite (get_le_field _ 1 4 8 FORMAT_VERSION) by (done || ll).
  rewrite (get_le_field _ 2 4 12 LIMITS_PROFILE_VERSION) by (done || ll).
  rewrite (get_le_field _ 3 8 16 (generation s)) by (done || ll).
  rewrite (get_le_field _ 4 4 24 (extentSize s)) by (done || ll).
  rewrite (get_le_field _ 5 1 28 (metadataFileCode (activeMetadataFile s))) by (done || destruct (activeMetadataFile s); cbn; lia).
  rewrite (get_le_field _ 7 8 32 (rootInodeId s)) by (done || ll).
  rewrite (get_le_field _ 8 4 40 (basePayloadBytes s)) by (done || ll).
  rewrite (get_le_field _ 9 4 44 (ExtentSet.size (available (allocator s)))) by (done || ll).
  rewrite (get_le_field _ 10 4 48 (Z.of_nat (length (quarantine (allocator s))))) by (done || ll).
  rewrite (get_le_field _ 12 8 56 (Z.of_nat METADATA_HEADER_BYTES + basePayloadBytes s)) by (done || (change (Z.of_nat METADATA_HEADER_BYTES) with 80; ll)).
  rewrite !mjoin_cons, !length_app, Hc. cbn [length Nat.add].
  rewrite (proj2 (Z.ltb_ge _ _)) by ll. rewrite Z.eqb_refl. done.
Qed.

(** The decoder on the base of a state. *)
Lemma decode_base s payload : Inv s -> texts_ok s -> byteLength payload = basePayloadBytes s -> Forall byte payload ->
  readMetadataPayload (ExtentSet.size (available (allocator s))) (Z.of_nat (length (quarantine (allocator s)))) payload
    = ([], Ok (payload_of s)) ->
  decodeMetadataBase (base_bytes_of s payload) =
    Ok (mkDecodedBase (canonical s) (basePayloadBytes s) (Z.of_nat METADATA_HEADER_BYTES + basePayloadBytes s)
          (crc32 (base_bytes_of s payload))).
Proof.
  intros I Ht Hlen Hb Hread. pose proof I as [C _ Hl]. unfold decodeMetadataBase, base_bytes_of. set (c := crc_reference _).
  assert (Hc : length (le_bytes 4 c) = 4%nat) by apply length_le_bytes.
  pose proof (base_fields_length s payload (le_bytes 4 c) Hc) as Hbl.
  rewrite (proj2 (Nat.ltb_ge _ _)) by lia. cbn [throw_if mbind result_bind].
  rewrite (inspect_base s payload _ I Ht Hc Hlen). cbn [mbind result_bind bh_baseEnd].
  assert (Hbl' : byteLength (mjoin (base_fields s payload (le_bytes 4 c))) = Z.of_nat METADATA_HEADER_BYTES + basePayloadBytes s)
    by (unfold byteLength in *; lia).
  rewrite Hbl', Z.eqb_refl. cbn [negb throw_if mbind result_bind].
  assert (Hseal : requireChecksum (mjoin (base_fields s payload (le_bytes 4 c))) METADATA_HEADER_CHECKSUM_OFFSET = Ok tt).
  { apply (sealed_checksum (base_fields s payload (replicate 4 0)) 13);
      [done|done|by apply base_fields_byte|rewrite base_fields_length by done; unfold byteLength in Hlen; cbn; ll]. }
  rewrite Hseal. cbn [mbind result_bind bh_formatVersion bh_limitsProfileVersion bh_generation bh_extentSize bh_metadataFileCode
    bh_availableCount bh_quarantineCount bh_rootInodeId bh_payloadLength].
  unfold requireCurrentIdentity. rewrite !Z.eqb_refl. cbn [negb orb throw_if mbind result_bind].
  pose proof (c_generation s C) as Hg. rewrite (proj2 (Z.eqb_neq _ _)) by lia. cbn [throw_if mbind result_bind].
  rewrite (proj2 (validateExtentSize_Ok (extentSize s) (extentSize s))) by (split; [done|apply C]). cbn [rethrow_as mbind result_bind].
  assert (Hf : decodeMetadataFile (metadataFileCode (activeMetadataFile s)) = Ok (activeMetadataFile s)) by (by destruct (activeMetadataFile s)).
  rewrite Hf. cbn [mbind result_bind].
  assert (Hcounts : ExtentSet.size (available (allocator s)) <= MAX_TOTAL_EXTENTS /\ Z.of_nat (length (quarantine (allocator s))) <= MAX_TOTAL_EXTENTS).
  { pose proof (c_alloc s C) as A. pose proof (a_total _ A).
    assert (Hle : forall l, NoDup l -> (forall e, e ∈ l -> 0 <= e < totalExtents (allocator s)) -> Z.of_nat (length l) <= MAX_TOTAL_EXTENTS).
    { intros l Hn Hin. assert (length l <= length (seqZ 0 (totalExtents (allocator s))))%nat; [|rewrite length_seqZ in *; lia].
      apply submseteq_length, NoDup_submseteq; [done|]. intros e He. apply elem_of_seqZ. specialize (Hin e He). lia. }
    rewrite <- JsMap.length_keys. split; apply Hle; try apply A; intros e He; apply (a_cover _ A); tauto. }
  rewrite !(proj2 (Z.ltb_ge _ _)) by apply Hcounts. cbn [orb throw_if mbind result_bind].
  assert (Hdrop : drop METADATA_HEADER_BYTES (mjoin (base_fields s payload (le_bytes 4 c))) = payload).
  { rewrite (drop_fields _ 15) by (unfold base_fields; cbn [take]; rewrite !mjoin_cons, !length_app, Hc; done).
    cbn [drop base_fields]. by rewrite mjoin_cons, app_nil_r. }
  rewrite Hdrop. unfold r_run. rewrite Hread. cbn [snd mbind result_bind bp_inodes payload_of].
  rewrite (parents_again s C). cbn [mbind result_bind].
  pose proof (validateState_complete (canonical s) (canonical_Inv s I)) as Hv.
  match goal with |- context [validateState ?x] => change x with (canonical s) end.
  rewrite Hv. done.
Qed.

(** The base of a valid state has a canonical encoding, which decodes to the state in canonical order. *)
Lemma base_run s : Inv s -> texts_ok s ->
  exists bytes, encodeValidatedMetadataBase s = Ok bytes /\ Forall byte bytes /\
    byteLength bytes = Z.of_nat METADATA_HEADER_BYTES + basePayloadBytes s /\
    decodeMetadataBase bytes = Ok (mkDecodedBase (canonical s) (basePayloadBytes s) (byteLength bytes) (crc32 bytes)).
Proof.
  intros I Ht. destruct (codec_payload s I Ht) as (payload & Hw & Hr & Hl & Hb). exists (base_bytes_of s payload).
  assert (Hlen : byteLength (base_bytes_of s payload) = Z.of_nat METADATA_HEADER_BYTES + basePayloadBytes s).
  { unfold byteLength, base_bytes_of in *. rewrite base_fields_length by apply length_le_bytes. lia. }
  split; [by apply encodeBase_layout|]. split.
  { unfold base_bytes_of, base_fields. rewrite !mjoin_cons.
    assert (Hz : forall n, Forall byte (replicate n 0)) by (intros n; apply Forall_replicate; unfold byte; lia).
    assert (Hm : Forall byte METADATA_MAGIC) by (by apply bytes_check).
    repeat (apply Forall_app; split); eauto using le_bytes_byte. }
  split; [done|]. rewrite Hlen. by apply decode_base.
Qed.

(** What a reader sees of the base of [s]. *)
Record base_facts (s : VfsState) (bytes : list Z) : Prop := {
  bf_length : byteLength bytes = Z.of_nat METADATA_HEADER_BYTES + basePayloadBytes s;
  bf_header : exists header, inspectMetadataBaseHeader (take METADATA_HEADER_BYTES bytes) = Ok header /\
    bh_baseEnd header = byteLength bytes /\ bh_limitsProfileVersion header = LIMITS_PROFILE_VERSION;
  bf_decode : decodeMetadataBase bytes = Ok (mkDecodedBase (canonical s) (basePayloadBytes s) (byteLength bytes) (crc32 bytes))
}.

Lemma base_encoded s bytes : Inv s -> texts_ok s -> encodeValidatedMetadataBase s = Ok bytes -> base_facts s bytes.
Proof.
  intros I Ht He. destruct (codec_payload s I Ht) as (payload & Hw & Hr & Hl & Hb).
  assert (E : bytes = base_bytes_of s payload) by (rewrite (encodeBase_layout s payload I Hw Hl Hb) in He; congruence).
  destruct (base_run s I Ht) as (bytes' & He' & _ & Hlen & Hd). rewrite He in He'. injection He' as <-. split; [done| |done].
  pose proof (inspect_base s payload _ I Ht (length_le_bytes 4 (crc_reference (mjoin (base_fields s payload (replicate 4 0))))) Hl) as Hh.
  fold (base_bytes_of s payload) in Hh. rewrite <- E in Hh. eexists. split; [exact Hh|]. by rewrite Hlen.
Qed.
