(* ===== verification/BaseProps.v ===== *)
(** * The metadata base: the properties

    A base is a canonical encoding: it determines the state up to the order of the free extents, no order
    shows in it, and no transaction sees what it loses. *)

From S2P Require Export BaseLaws.

(** ** Canonical encodings *)

(** Sorting by a key forgets the order. *)
Lemma sort_unique {A} (key : A -> Z) l l' : l' ≡ₚ l -> NoDup (key <$> l) ->
  sortIfNeeded (fun x y => compareBigint (key x) (key y)) l' = sortIfNeeded (fun x y => compareBigint (key x) (key y)) l.
Proof.
  intros Hp Hn. set (compare := fun x y : A => _).
  assert (Hswap : forall x y, compare y x = - compare x y) by (intros; apply compareBigint_swap).
  assert (Htrans : Transitive (not_after compare))
    by (intros x y z; unfold not_after, compare, compareBigint; repeat case_match; propify; lia).
  apply (Sorted_unique_strong (not_after compare)); try by apply sortIfNeeded_Sorted.
  - intros x y Hx Hy Hxy Hyx. rewrite sortIfNeeded_Permutation in Hx, Hy. rewrite Hp in Hx.
    assert (E : key x = key y) by (unfold not_after, compare, compareBigint in *; repeat case_match; propify; lia).
    apply list_elem_of_lookup in Hx as [i Hi], Hy as [j Hj]. rewrite NoDup_alt in Hn.
    rewrite (Hn i j (key x)) in Hi; [congruence|by rewrite list_lookup_fmap, Hi|by rewrite list_lookup_fmap, Hj, E].
  - by rewrite !sortIfNeeded_Permutation.
Qed.

Lemma encodes_same s s' : same s s' -> encodeValidatedMetadataBase s' = encodeValidatedMetadataBase s.
Proof.
  intros [E [Ha Hw Hw' Hq Hqw]].
  assert (Ea : sortedAvailable s' = sortedAvailable s).
  { apply (sort_unique (fun e => e)); [done|]. rewrite list_fmap_id. apply Hw. }
  assert (Eq : sortedQuarantine s' = sortedQuarantine s) by (by apply (sort_unique fst)).
  assert (Es : ExtentSet.size (available (allocator s')) = ExtentSet.size (available (allocator s))) by (unfold ExtentSet.size; by rewrite Ha).
  assert (El : length (quarantine (allocator s')) = length (quarantine (allocator s))) by (by rewrite Hq).
  unfold encodeValidatedMetadataBase, encodeMetadataPayload, writeMetadataPayload. rewrite Ea, Eq, Es, El. rewrite E. reflexivity.
Qed.

(** What a base gives back is in increasing order. *)
Lemma increasing_of_sorted {A} (key : A -> Z) (l : list A) : Sorted (not_after (fun x y => compareBigint (key x) (key y))) l -> NoDup (key <$> l) ->
  StronglySorted Z.lt (key <$> l).
Proof.
  assert (Htrans : Transitive (not_after (fun x y : A => compareBigint (key x) (key y))))
    by (intros x y z; unfold not_after, compareBigint; repeat case_match; propify; lia).
  intros Hs%Sorted_StronglySorted Hn; [|done]. induction Hs as [|x l _ IH Hx]; cbn; [constructor|].
  apply NoDup_cons in Hn as [Hni Hn]. constructor; [by apply IH|]. apply Forall_fmap, Forall_forall. intros y Hy. cbn.
  rewrite Forall_forall in Hx. specialize (Hx y Hy). assert (key x <> key y) by (intros E; apply Hni; rewrite E; by apply list_elem_of_fmap_2).
  unfold not_after, compareBigint in Hx. repeat case_match; propify; lia.
Qed.

Lemma canonical_sorted s : Inv s ->
  StronglySorted Z.lt (ExtentSet.items (available (allocator (canonical s)))) /\ StronglySorted Z.lt (quarantine (allocator (canonical s))).*1.
Proof.
  intros [I Hb Hl]. pose proof (c_alloc s I) as A. split.
  - rewrite canonical_available by done. rewrite <- (list_fmap_id (sortedAvailable s)). apply increasing_of_sorted.
    + apply (sortIfNeeded_Sorted (fun x y => compareBigint x y)). intros. apply compareBigint_swap.
    + rewrite list_fmap_id, sortedAvailable_Permutation. apply (a_available _ A).
  - cbn. apply increasing_of_sorted; [apply (sortIfNeeded_Sorted (fun x y : Z * option Z => compareBigint x.1 y.1)); intros; apply compareBigint_swap|].
    rewrite sortedQuarantine_Permutation. apply A.
Qed.

(** ** The properties *)

(** C40. A metadata base survives its round trip. The canonical encoding of a valid state, none of whose names and
    link targets starts with U+FEFF, succeeds. It does not depend on the order of the free and the quarantined extents,
    nor on the retained generations, which a base does not hold. Its length is the one the state accounts for. Decoding
    returns the digest of the bytes and a valid state that is the same but for two things: its free and its quarantined
    extents are in increasing order, and it retains the generation of its active file only. *)
Theorem base_roundtrip (s : VfsState) (Hs : Inv s) (Htexts : texts_ok s) :
  exists bytes, encodeValidatedMetadataBase s = Ok bytes /\
    (forall s', same s s' -> encodeValidatedMetadataBase s' = Ok bytes) /\
    byteLength bytes = Z.of_nat METADATA_HEADER_BYTES + basePayloadBytes s /\
    exists s', decodeMetadataBase bytes = Ok (mkDecodedBase s' (basePayloadBytes s) (byteLength bytes) (crc32 bytes)) /\
      Inv s' /\ same s s' /\
      StronglySorted Z.lt (ExtentSet.items (available (allocator s'))) /\ StronglySorted Z.lt (quarantine (allocator s')).*1 /\
      retainedGenerations s' (activeMetadataFile s) = Some (generation s) /\
      retainedGenerations s' (otherMetadataFile (activeMetadataFile s)) = None.
Proof.
  destruct (base_run s Hs Htexts) as (bytes & He & _ & Hlen & Hd). exists bytes. split; [done|]. split.
  - intros s' S. by rewrite (encodes_same s s' S).
  - split; [done|]. exists (canonical s). split; [done|]. split; [by apply canonical_Inv|]. split; [by apply canonical_same, Hs|].
    destruct (canonical_sorted s Hs) as [Ha Hq]. split; [done|]. split; [done|].
    unfold retainedGenerations. cbn. by destruct (activeMetadataFile s).
Qed.

(** Transactions see neither the order of the free extents nor the retained generations. On two states that differ in
    those and in the order of their quarantined extents only, [applyTxn] of one record returns or throws the same, and
    leaves states that differ in these only. *)
Theorem applyTxn_ignores_order (record : TxnRecord) (s1 s2 s1' : VfsState) (r : R unit)
  (Hsame : same s1 s2) (Hrun : applyTxn record None s1 = (s1', r)) :
  exists s2', applyTxn record None s2 = (s2', r) /\ same s1' s2'.
Proof. by eapply applyTxn_same. Qed.

(** ** The witnesses *)

(** Two files and a link were created, the first file was removed, and two repacks made its extents free. *)
Definition base_step (s : VfsState) (record : TxnRecord) : VfsState := (applyTxn record None s).1.
Definition base_repack (s : VfsState) : VfsState := from_ok s (projectRepackForActivation s ∅).
Definition base_example : VfsState :=
  base_repack (base_repack (foldl base_step example_store
    [example_record; CreateFile 1 (js "b") 3 420 5 6 7 9 [mkRun 2 1]; CreateSymlink 1 (js "c") 4 SYMLINK_MODE 5 6 7 (js "/b");
     RemoveFile 1 (js "a") 8 9])).

(** The same with its two free extents the other way round. *)
Definition base_shuffled : VfsState :=
  reorder (ExtentSet.add (ExtentSet.add ExtentSet.empty 1) 0) [] (Some 3) (Some 2) base_example.

Lemma base_example_Inv : Inv base_example.
Proof.
  apply validateState_sound; [|vm_compute; reflexivity].
  assert (E : available (allocator base_example) = ExtentSet.add (ExtentSet.add ExtentSet.empty 0) 1) by (vm_compute; reflexivity).
  rewrite E. apply (ExtentSet.fold_add_wf [0; 1]), ExtentSet.empty_wf.
Qed.

(** The texts of an inode, by computation. *)
Definition text_check (s : jsstr) : bool := forallb (fun c => (0 <=? c) && (c <=? 0xffff)) s && bool_decide (head s <> Some BOM).
Definition texts_check (i : Inode) : bool :=
  match inode_kind i with
  | Directory ch => forallb text_check (map_to_list ch).*1
  | Symlink target => text_check target
  | File _ _ => true
  end.

Lemma text_check_ok s : text_check s = true -> text_ok s.
Proof. unfold text_check. intros [H1 H2]%andb_true_iff. split; [|by eapply bool_decide_eq_true].
  apply Forall_forall. intros c Hc. rewrite forallb_forall in H1. specialize (H1 c ltac:(by apply list_elem_of_In)). unfold code_unit. propify. lia. Qed.

Lemma texts_check_ok i : texts_check i = true -> match inode_kind i with
  | Directory ch => forall n c, ch !! n = Some c -> text_ok n
  | Symlink target => text_ok target
  | File _ _ => True
  end.
Proof.
  unfold texts_check. destruct (inode_kind i) as [ch|sz ex|target]; [|done|apply text_check_ok].
  intros Hall n c Hn. rewrite forallb_forall in Hall. apply text_check_ok, Hall, list_elem_of_In, list_elem_of_fmap.
  exists (n, c). split; [done|by apply elem_of_map_to_list].
Qed.

Lemma texts_checked s : Forall (fun e => texts_check e.2 = true) (map_to_list (inodes s)) -> texts_ok s.
Proof.
  intros Hall k i Hi. apply texts_check_ok. rewrite Forall_forall in Hall. apply (Hall (k, i)). by apply elem_of_map_to_list.
Qed.

Lemma base_example_texts : texts_ok base_example.
Proof. apply texts_checked. vm_compute. repeat constructor. Qed.

Lemma base_roundtrip_witness :
  exists bytes, encodeValidatedMetadataBase base_example = Ok bytes /\
    (forall s', same base_example s' -> encodeValidatedMetadataBase s' = Ok bytes) /\
    byteLength bytes = Z.of_nat METADATA_HEADER_BYTES + basePayloadBytes base_example /\
    exists s', decodeMetadataBase bytes = Ok (mkDecodedBase s' (basePayloadBytes base_example) (byteLength bytes) (crc32 bytes)) /\
      Inv s' /\ same base_example s' /\
      StronglySorted Z.lt (ExtentSet.items (available (allocator s'))) /\ StronglySorted Z.lt (quarantine (allocator s')).*1 /\
      retainedGenerations s' (activeMetadataFile base_example) = Some (generation base_example) /\
      retainedGenerations s' (otherMetadataFile (activeMetadataFile base_example)) = None.
Proof. exact (base_roundtrip base_example base_example_Inv base_example_texts). Defined.

Lemma base_shuffled_same : same base_example base_shuffled.
Proof.
  split; [vm_compute; reflexivity|]. split.
  - vm_compute. constructor.
  - apply base_example_Inv.
  - apply (ExtentSet.fold_add_wf [1; 0]), ExtentSet.empty_wf.
  - vm_compute. reflexivity.
  - apply base_example_Inv.
Qed.

Lemma applyTxn_ignores_order_witness :
  applyTxn (CreateFile 1 (js "d") 5 420 5 6 7 8200 [mkRun 0 2]) None base_example =
    (base_step base_example (CreateFile 1 (js "d") 5 420 5 6 7 8200 [mkRun 0 2]), Ok tt) /\
  exists s2', applyTxn (CreateFile 1 (js "d") 5 420 5 6 7 8200 [mkRun 0 2]) None base_shuffled = (s2', Ok tt) /\
    same (base_step base_example (CreateFile 1 (js "d") 5 420 5 6 7 8200 [mkRun 0 2])) s2'.
Proof.
  assert (E : applyTxn (CreateFile 1 (js "d") 5 420 5 6 7 8200 [mkRun 0 2]) None base_example =
    (base_step base_example (CreateFile 1 (js "d") 5 420 5 6 7 8200 [mkRun 0 2]), Ok tt)) by (vm_compute; reflexivity).
  split; [exact E|]. exact (applyTxn_ignores_order _ _ _ _ _ base_shuffled_same E).
Defined.
