(* ===== verification/Reopen.v ===== *)
(** * Opening a store again

    Recovery over the four files a crash left: the slots select the base, the base decodes, the log is
    replayed, and the opened store is live again, on the state that was acknowledged. *)

From S2P Require Export BaseLaws Slots RepackProps.

(** ** Ports that answer *)

Section Open.
Context {Wd : Type} `{LawfulPort Wd} (good : Wd -> Prop).

(** Every call on the handles succeeds; what was truncated last need not be [good] any more. *)
Record responsive : Prop := {
  re_read : readable good;
  re_size : forall name w, good w -> port_ok w -> exists w', getSize name w = (w', Ok (byteLength (file w name))) /\ good w';
  re_truncate : forall name size w, good w -> port_ok w -> 0 <= size <= MAX_SAFE_INTEGER ->
    exists w', truncate name size w = (w', Ok tt) /\ (name = ArenaBin -> good w')
}.

Context (Hport : responsive).
Implicit Types w : Wd.

Local Abbreviation untouched := (untouched good).

Lemma untouched_trans w1 w2 w3 : untouched w1 w2 -> untouched w2 w3 -> untouched w1 w3.
Proof. intros (? & ? & F1) (? & ? & F2). split; [done|]. split; [done|]. intros f. by rewrite F2, F1. Qed.

Lemma getSize_run name w : good w -> port_ok w -> exists w', getSize name w = (w', Ok (byteLength (file w name))) /\ untouched w w'.
Proof.
  intros Hg Hok. destruct (re_size Hport name w Hg Hok) as (w' & Hr & Hg'). exists w'. split; [done|].
  apply getSize_law in Hr as (? & _ & ? & _); [|done]. by split.
Qed.

Definition sizes_of w : Sizes :=
  mkSizes (byteLength (file w ArenaBin)) (byteLength (file w MetadataABin)) (byteLength (file w MetadataBBin)) (byteLength (file w ActivationBin)).

Lemma sizeOf_file w name : sizeOf (sizes_of w) name = byteLength (file w name).
Proof. by destruct name. Qed.

Lemma getSizes_run w : good w -> port_ok w -> exists w', getSizes w = (w', Ok (sizes_of w)) /\ untouched w w'.
Proof.
  intros Hg Hok. unfold getSizes.
  destruct (getSize_run ArenaBin w Hg Hok) as (w1 & R1 & U1). rewrite (st_bind_run _ _ _ _ _ R1). pose proof U1 as (Hg1 & Hok1 & F1).
  destruct (getSize_run MetadataABin w1 Hg1 Hok1) as (w2 & R2 & U2). rewrite (st_bind_run _ _ _ _ _ R2). pose proof U2 as (Hg2 & Hok2 & F2).
  destruct (getSize_run MetadataBBin w2 Hg2 Hok2) as (w3 & R3 & U3). rewrite (st_bind_run _ _ _ _ _ R3). pose proof U3 as (Hg3 & Hok3 & F3).
  destruct (getSize_run ActivationBin w3 Hg3 Hok3) as (w4 & R4 & U4). rewrite (st_bind_run _ _ _ _ _ R4).
  exists w4. split; [|by eapply untouched_trans, untouched_trans, untouched_trans]. unfold mret, ST_ret, sizes_of. by rewrite !F3, !F2, !F1.
Qed.

(** ** Slots *)

Lemma readSlot_run index w : good w -> port_ok w -> 0 <= index <= 1 -> byteLength (file w ActivationBin) <= MAX_SAFE_INTEGER ->
  exists w', readSlot (byteLength (file w ActivationBin)) index w = (w', Ok (slot_at (file w ActivationBin) index)) /\ untouched w w'.
Proof.
  intros Hg Hok Hi Hs. unfold readSlot, slot_at. assert (H128 : slotBytes = 128) by done. rewrite H128.
  destruct (_ <=? _) eqn:E; propify.
  - exists w. split; [|done]. unfold mret, ST_ret, subarray. do 2 f_equal.
    replace (Z.to_nat (Z.min ((index + 1) * 128) (byteLength (file w ActivationBin))) - Z.to_nat (index * 128))%nat with 0%nat by lia. done.
  - destruct (readExact_run good ActivationBin (re_read Hport) (index * 128) (Z.min 128 (byteLength (file w ActivationBin) - index * 128)) 128 w Hg Hok)
      as (w' & Hr & U); [lia|lia|ll|lia|ll|]. exists w'. rewrite Hr. split; [|done]. do 4 f_equal. lia.
Qed.

(** ** Versions *)

(** What [detectCompleteMetadataVersion] finds in a file. *)
Definition version_ok (f : list Z) : Prop := Z.of_nat METADATA_HEADER_BYTES <= byteLength f ->
  Forall byte (take METADATA_HEADER_BYTES f) /\
  forall header, inspectMetadataBaseHeader (take METADATA_HEADER_BYTES f) = Ok header -> bh_baseEnd header <= byteLength f ->
    tolerateCorrupt (decodeMetadataBase (take (Z.to_nat (bh_baseEnd header)) f)) = Ok tt.

Lemma inspectBase_error bytes e : inspectMetadataBaseHeader bytes = Throw e -> e = CorruptStoreError.
Proof.
  unfold inspectMetadataBaseHeader, requireMagic, requireZero, throw_if. repeat case_match; cbn; congruence.
Qed.

Lemma inspectBase_end bytes header : inspectMetadataBaseHeader bytes = Ok header -> Forall byte bytes ->
  Z.of_nat METADATA_HEADER_BYTES <= bh_baseEnd header <= Z.of_nat METADATA_HEADER_BYTES + MAX_METADATA_BASE_READER_BYTES.
Proof.
  unfold inspectMetadataBaseHeader. intros Hi Hb.
  assert (Hp : 0 <= get_le 4 bytes 40) by (apply le_value_range, Forall_take, Forall_drop, Hb).
  repeat (let u := fresh in let E := fresh in apply bind_Ok in Hi as (u & E & Hi); try apply throw_if_Ok in E).
  injection Hi as <-. cbn [bh_baseEnd]. propify. lia.
Qed.

Lemma subarray_take (f : list Z) n : subarray f 0 n = take n f.
Proof. unfold subarray. by rewrite Nat.sub_0_r, drop_0. Qed.

Lemma detectMetadata_run name w : good w -> port_ok w -> byteLength (file w name) <= MAX_SAFE_INTEGER -> version_ok (file w name) ->
  exists w', detectCompleteMetadataVersion name (byteLength (file w name)) w = (w', Ok tt) /\ untouched w w'.
Proof.
  intros Hg Hok Hs Hv. unfold detectCompleteMetadataVersion. unfold baseHeaderBytes. destruct (_ <? _) eqn:E; propify; [by exists w|].
  assert (H80 : Z.of_nat METADATA_HEADER_BYTES = 80) by done.
  destruct (readExact_run good name (re_read Hport) 0 (Z.of_nat METADATA_HEADER_BYTES) (Z.of_nat METADATA_HEADER_BYTES) w Hg Hok)
    as (w1 & R1 & U1); [lia|ll|ll|lia|ll|]. pose proof U1 as (Hg1 & Hok1 & F1).
  rewrite subarray_take, Z.add_0_l, Nat2Z.id in R1.
  set (inspected := st_catch _ _).
  assert (Hi : inspected w = (w1, Ok (match inspectMetadataBaseHeader (take METADATA_HEADER_BYTES (file w name)) with Ok h => Some h | Throw _ => None end))).
  { unfold inspected, st_catch. rewrite (st_bind_run _ _ _ _ _ R1), st_bind_lift.
    destruct (inspectMetadataBaseHeader _) as [h|e] eqn:Ei; [done|]. by apply inspectBase_error in Ei as ->. }
  rewrite (st_bind_run _ _ _ _ _ Hi). destruct (inspectMetadataBaseHeader _) as [h|e] eqn:Ei; [|by exists w1].
  destruct (_ <? _) eqn:Es; propify; [by exists w1|].
  destruct (Hv E) as [Hb Hd]. pose proof (inspectBase_end _ _ Ei Hb) as Hend.
  destruct (readExact_run good name (re_read Hport) 0 (bh_baseEnd h) (Z.of_nat METADATA_HEADER_BYTES + MAX_METADATA_BASE_READER_BYTES) w1 Hg1 Hok1)
    as (w2 & R2 & U2); [lia|lia|ll|rewrite F1; lia|ll|].
  rewrite (st_bind_run _ _ _ _ _ R2). unfold st_lift. rewrite subarray_take, Z.add_0_l, F1. exists w2. split; [|by eapply untouched_trans].
  by rewrite (Hd h Ei Es).
Qed.
End Open.

(** ** Histories up to order *)

Lemma PathTo_eq s s' k names : parentByInode s' = parentByInode s -> rootInodeId s' = rootInodeId s ->
  PathTo (parentByInode s') (rootInodeId s') k names -> PathTo (parentByInode s) (rootInodeId s) k names.
Proof. by intros -> ->. Qed.

Lemma entry_fits_same s s' k name : same s s' -> entry_fits s k name -> entry_fits s' k name.
Proof. intros [-> _] Hf names Hp. by apply Hf. Qed.

Lemma respects_createDirectory e : respects (applyCreateDirectory e).
Proof. unfold applyCreateDirectory. respect. Qed.

Lemma entries_fit_same s s' entries : same s s' -> entries_fit s entries -> entries_fit s' entries.
Proof.
  revert s s'. induction entries as [|e entries IH]; intros s s' S; [done|]. intros [Hf Hr].
  split; [by eapply entry_fits_same|]. destruct (applyCreateDirectory e s) as [t r] eqn:E.
  destruct (respects_createDirectory e s s' t r S E) as (t' & E' & S'). rewrite E'. by eapply IH.
Qed.

Lemma record_fits_same s s' record : same s s' -> record_fits s record -> record_fits s' record.
Proof. destruct record; cbn; try done; [apply entries_fit_same|apply entry_fits_same|apply entry_fits_same]. Qed.

Lemma commits_same s s' seq record bytes s1 : same s s' -> commits s seq record bytes s1 ->
  exists s1', commits s' seq record bytes s1' /\ same s1 s1'.
Proof.
  intros S [Ho Hf Hn He Ha]. destruct (applyTxn_same record s s' s1 (Ok tt) S Ha) as (s1' & Ha' & S').
  exists s1'. split; [|done]. split; [done|by eapply record_fits_same|done| |done].
  destruct S as [-> _]. exact He.
Qed.

Lemma committed_header s seq log s' n : committed s seq log s' n -> Inv s ->
  generation s' = generation s /\ activeMetadataFile s' = activeMetadataFile s.
Proof.
  induction 1 as [|s seq record bytes s1 log s' n Hc H IH]; [done|]. intros Hs.
  destruct (applyTxn_header s record s1 Hs (cm_fits _ _ _ _ _ Hc) (cm_apply _ _ _ _ _ Hc)) as [E1 E2].
  destruct (IH ltac:(by eapply commits_Inv)) as [-> ->]. done.
Qed.

Lemma committed_same s0 seq log s n : committed s0 seq log s n -> forall c0, same s0 c0 ->
  exists s', committed c0 seq log s' n /\ same s s'.
Proof.
  induction 1 as [s seq|s seq record bytes s1 log s' n Hc H IH]; intros c0 S; [exists c0; split; [constructor|done]|].
  destruct (commits_same _ _ _ _ _ _ S Hc) as (c1 & Hc1 & S1). destruct (IH c1 S1) as (c' & Hcc & S'). 
  exists c'. split; [by econstructor|done].
Qed.

(** ** The recovered base *)

(** The older slot, when there is one, names the other metadata file and the generation before. *)
Definition older_ok (s : VfsState) (older : option ActivationRecord) : Prop := forall o, older = Some o ->
  act_metadataFile o = otherMetadataFile (activeMetadataFile s) /\ 0 < act_generation o /\ act_generation o + 1 = generation s.

Definition recoveredBase (s : VfsState) (older : option ActivationRecord) : VfsState :=
  match older with
  | Some o => set_retained (act_metadataFile o) (Some (act_generation o)) (canonical s)
  | None => canonical s
  end.

Lemma recoveredBase_same s older : Core s -> same s (recoveredBase s older).
Proof.
  intros C. destruct (canonical_same s C) as [E X]. destruct older as [o|]; [|by split]. split; [|exact X].
  cbn [recoveredBase]. unfold set_retained at 1. reflexivity.
Qed.

Lemma recoveredBase_Inv s older : Inv s -> older_ok s older -> Inv (recoveredBase s older).
Proof.
  intros I Ho. pose proof (canonical_Inv s I) as [C Hb Hl]. destruct older as [o|]; [|by split].
  destruct (Ho o eq_refl) as (Hf & Hg & Hn). split; [split; try apply C|exact Hb|exact Hl].
  unfold RetainedOk, retainedGenerations, recoveredBase. cbn. rewrite Hf.
  destruct (activeMetadataFile s); cbn; (split; [done|]); intros g [= <-]; done.
Qed.

(** ** The files of a store *)

Section Boot.
Context {Wd : Type} `{LawfulPort Wd}.

(** [w] holds the base [base] of [s0], activated by the slot [seq]; the active log is not looked at. *)
Record bootable (seq : Z) (s0 : VfsState) (base : list Z) (older : option ActivationRecord) (w : Wd) : Prop := {
  bt_inv : Inv s0;
  bt_texts : texts_ok s0;
  bt_encoded : encodeValidatedMetadataBase s0 = Ok base;
  bt_arena : encodeArenaHeader (extentSize s0) = Ok (take (Z.to_nat ARENA_HEADER_BYTES) (file w ArenaBin));
  bt_slots : byteLength (file w ActivationBin) <= slotBytes * 2;
  bt_selection : selectActivationPair (slot_at (file w ActivationBin) 0) (slot_at (file w ActivationBin) 1)
    = Ok (mkSelection (activation_of seq s0 base) older);
  bt_older : older_ok s0 older;
  bt_inactive : version_ok (file w (inactiveName s0));
  bt_sizes : forall name, byteLength (file w name) <= MAX_SAFE_INTEGER
}.
End Boot.

(** ** Reading the base *)

Section Recover.
Context {Wd : Type} `{LawfulPort Wd} (good : Wd -> Prop) (Hport : responsive good).
Context (seq : Z) (s0 : VfsState) (base rest : list Z) (older : option ActivationRecord).
Implicit Types w : Wd.

Local Abbreviation untouched := (untouched good).

(** The active metadata file. *)
Local Abbreviation active := (metadataFileName (activeMetadataFile s0)).

(** A world whose files are those of the store. *)
Record readies w : Prop := {
  rd_good : good w;
  rd_ok : port_ok w;
  rd_boot : bootable seq s0 base older w;
  rd_active : file w active = base ++ rest
}.

Lemma readies_untouched w w' : readies w -> untouched w w' -> readies w'.
Proof.
  intros [Hg Hok [] Ha] (Hg' & Hok' & Hf). split; [done|done| |by rewrite Hf].
  split; rewrite ?Hf; try done. intros name. by rewrite Hf.
Qed.

Lemma active_facts w : readies w -> base_facts s0 base /\ Forall byte base /\ Z.of_nat METADATA_HEADER_BYTES <= byteLength base.
Proof.
  intros [_ _ [Hi Ht He _ _ _ _ _ _] _]. pose proof (base_encoded s0 base Hi Ht He) as F. split; [done|].
  destruct (base_run s0 Hi Ht) as (bytes & He' & Hb & Hl & _). rewrite He in He'. injection He' as <-. split; [done|].
  rewrite Hl. destruct (codec_payload s0 Hi Ht) as (payload & _ & _ & Hp & _). unfold byteLength in Hp. lia.
Qed.

Lemma take_active w n : readies w -> (n <= length base)%nat -> take n (file w active) = take n base.
Proof. intros R Hn. by rewrite (rd_active w R), take_app_le. Qed.

Lemma active_length w : readies w -> byteLength (file w active) = byteLength base + byteLength rest.
Proof. intros R. rewrite (rd_active w R). unfold byteLength. rewrite length_app. lia. Qed.

Lemma active_version w : readies w -> version_ok (file w active).
Proof.
  intros R _. destruct (active_facts w R) as ([Hl (header & Hh & He & _) Hd] & Hb & Hlen).
  rewrite take_active by (done || (unfold byteLength in Hlen; lia)). split; [by apply Forall_take|].
  intros h Hh' _. rewrite Hh in Hh'. injection Hh' as <-. rewrite He.
  assert (Ht : take (Z.to_nat (byteLength base)) (file w active) = base)
    by (rewrite take_active by (done || (unfold byteLength; lia)); apply take_ge; unfold byteLength; lia).
  by rewrite Ht, Hd.
Qed.

Lemma metadata_version w f : readies w -> version_ok (file w (metadataFileName f)).
Proof.
  intros R. destruct (decide (f = activeMetadataFile s0)) as [->|Hne]; [by apply active_version|].
  replace f with (otherMetadataFile (activeMetadataFile s0)); [apply (bt_inactive _ _ _ _ _ (rd_boot w R))|].
  by destruct f, (activeMetadataFile s0).
Qed.

Lemma detect_run w f : readies w -> exists w', detectCompleteMetadataVersion (metadataFileName f)
  (byteLength (file w (metadataFileName f))) w = (w', Ok tt) /\ untouched w w'.
Proof.
  intros R. apply detectMetadata_run; [done|apply R|apply R|apply (bt_sizes _ _ _ _ _ (rd_boot w R))|by apply metadata_version].
Qed.

Lemma readSelected_run w : readies w -> exists w' header,
  readSelectedBase active (byteLength (file w active)) (activation_of seq s0 base) w =
    (w', Ok (mkDecodedBase (canonical s0) (basePayloadBytes s0) (byteLength base) (crc32 base), header)) /\
  bh_limitsProfileVersion header = LIMITS_PROFILE_VERSION /\ untouched w w'.
Proof.
  intros R. destruct (active_facts w R) as ([Hl (header & Hh & He & Hv) Hd] & _ & Hlen).
  pose proof (bt_sizes _ _ _ _ _ (rd_boot w R) active) as Hs. pose proof (active_length w R) as Ha.
  assert (H80 : Z.of_nat METADATA_HEADER_BYTES = 80) by done. assert (0 <= byteLength rest) by (unfold byteLength; lia).
  pose proof (rd_good w R) as Hg. pose proof (rd_ok w R) as Hok. unfold readSelectedBase, baseHeaderBytes.
  rewrite st_bind_lift, (proj2 (Z.ltb_ge _ _)) by lia. cbn [throw_if].
  destruct (readExact_run good active (re_read good Hport) 0 (Z.of_nat METADATA_HEADER_BYTES) (Z.of_nat METADATA_HEADER_BYTES) w Hg Hok)
    as (w1 & R1 & U1); [lia|ll|ll|lia|ll|]. pose proof U1 as (Hg1 & Hok1 & F1).
  rewrite (st_bind_run _ _ _ _ _ R1), subarray_take, Z.add_0_l, Nat2Z.id, take_active by (done || (unfold byteLength in Hlen; lia)).
  rewrite st_bind_lift, Hh, st_bind_lift. cbn [act_baseEnd activation_of]. rewrite He, Z.eqb_refl, (proj2 (Z.ltb_ge _ _)) by lia.
  cbn [negb orb throw_if].
  assert (Hmax : byteLength base <= Z.of_nat METADATA_HEADER_BYTES + MAX_METADATA_BASE_READER_BYTES).
  { rewrite <- He. destruct (active_facts w R) as (_ & Hb & _). apply (inspectBase_end _ _ Hh). by apply Forall_take. }
  destruct (readExact_run good active (re_read good Hport) 0 (byteLength base) (Z.of_nat METADATA_HEADER_BYTES + MAX_METADATA_BASE_READER_BYTES) w1 Hg1 Hok1)
    as (w2 & R2 & U2); [lia|lia|ll|rewrite F1; lia|lia|]. rewrite (st_bind_run _ _ _ _ _ R2), subarray_take, Z.add_0_l, F1.
  assert (Ht : take (Z.to_nat (byteLength base)) (file w active) = base)
    by (rewrite take_active by (done || (unfold byteLength; lia)); apply take_ge; unfold byteLength; lia).
  rewrite Ht, st_bind_lift, Hd, st_bind_lift. cbn [db_state db_baseEnd db_baseDigest act_metadataFile act_generation act_baseDigest].
  unfold activation_of, metadataBaseDigest. cbn [act_metadataFile act_generation act_baseEnd act_baseDigest].
  rewrite (bool_decide_true _ (eq_refl : activeMetadataFile (canonical s0) = activeMetadataFile s0)).
  change (generation (canonical s0)) with (generation s0). rewrite !Z.eqb_refl. cbn [negb orb throw_if].
  exists w2, header. split; [done|]. split; [done|]. by eapply untouched_trans.
Qed.

(** ** Recovery *)

Lemma arena_header_decodes es bytes : extent_size_ok es -> encodeArenaHeader es = Ok bytes ->
  byteLength bytes = ARENA_HEADER_BYTES /\ decodeArenaHeader bytes None = Ok (mkArenaHeader es LIMITS_PROFILE_VERSION FORMAT_VERSION).
Proof.
  intros Hes He. assert (Hpad : exists pad, Z.to_nat ARENA_HEADER_BYTES = (28 + pad)%nat)
    by (exists (Z.to_nat ARENA_HEADER_BYTES - 28)%nat; ll).
  destruct Hpad as [pad Hpad]. rewrite (encodeArenaHeader_Ok pad Hpad es Hes) in He. injection He as <-.
  split; [|by apply decode_arena_bytes]. unfold byteLength, arena_bytes.
  rewrite (arena_fields_length pad Hpad) by apply length_le_bytes. ll.
Qed.

Lemma readArena_run w : readies w -> ARENA_HEADER_BYTES <= byteLength (file w ArenaBin) /\
  exists w' bytes, readExact ArenaBin 0 ARENA_HEADER_BYTES ARENA_HEADER_BYTES w = (w', Ok bytes) /\
    decodeArenaHeader bytes None = Ok (mkArenaHeader (extentSize s0) LIMITS_PROFILE_VERSION FORMAT_VERSION) /\ untouched w w'.
Proof.
  intros R. pose proof (rd_boot w R) as [Hi _ _ Ha _ _ _ _ Hs].
  destruct (arena_header_decodes _ _ (c_extentSize s0 (inv_core _ Hi)) Ha) as [Hl Hd].
  assert (Hle : ARENA_HEADER_BYTES <= byteLength (file w ArenaBin)) by (unfold byteLength in *; rewrite length_take in Hl; lia).
  split; [done|]. destruct (readExact_run good ArenaBin (re_read good Hport) 0 ARENA_HEADER_BYTES ARENA_HEADER_BYTES w)
    as (w1 & R1 & U1); [apply R|apply R|lia|ll|ll|lia|ll|].
  exists w1. eexists. split; [exact R1|]. split; [|done]. by rewrite subarray_take, Z.add_0_l.
Qed.

Lemma required_bounds s : Inv s -> 0 <= ARENA_HEADER_BYTES + totalExtents (allocator s) * extentSize s <= MAX_SAFE_INTEGER.
Proof.
  intros [C _ _]. pose proof (c_extentSize s C) as [He _]. pose proof (a_total _ (c_alloc s C)) as Ht.
  assert (totalExtents (allocator s) * extentSize s <= MAX_TOTAL_EXTENTS * MAX_EXTENT_BYTES) by (apply Z.mul_le_mono_nonneg; ll).
  assert (0 <= totalExtents (allocator s) * extentSize s) by (apply Z.mul_nonneg_nonneg; ll). ll.
Qed.

(** The store that recovery returns. *)
Definition openedStore (s : VfsState) (logBytes : Z) (n : nat) (arenaSize fileSize : Z) : OpenedMetadataStore :=
  let required := ARENA_HEADER_BYTES + totalExtents (allocator s) * extentSize s in
  mkOpened s (byteLength base + logBytes) (1 + Z.of_nat n) logBytes (Z.of_nat n) seq
    (Z.max ((Z.max 0 (arenaSize - ARENA_HEADER_BYTES) + extentSize s0 - 1) / extentSize s0) (totalExtents (allocator s)))
    (Z.max arenaSize required) (arenaSize <? required) (byteLength base + logBytes <? fileSize).

Lemma truncate_run name size w : good w -> port_ok w -> 0 <= size <= MAX_SAFE_INTEGER ->
  exists w', truncateChecked name size w = (w', Ok tt) /\ port_ok w' /\ file w' name = resize (Z.to_nat size) 0 (file w name) /\
    (forall f, f <> name -> file w' f = file w f) /\ (name = ArenaBin -> good w').
Proof.
  intros Hg Hok Hs. destruct (re_truncate good Hport name size w Hg Hok Hs) as (w' & Hr & Hg'). exists w'.
  unfold truncateChecked. rewrite st_bind_lift, (proj2 (checkedSafeNumber_Ok size size)) by (split; [done|lia]).
  split; [done|]. apply truncate_law in Hr as (Hok' & _ & Hoth & _ & Hall); [|done|lia]. auto.
Qed.

(** What recovery leaves in the files: a complete arena and a log without its torn tail. *)
Record recovered (log t : list Z) (s : VfsState) w w' : Prop := {
  rv_port : port_ok w';
  rv_active : file w' active = base ++ log;
  rv_arena : file w' ArenaBin = resize (Nat.max (length (file w ArenaBin))
    (Z.to_nat (ARENA_HEADER_BYTES + totalExtents (allocator s) * extentSize s))) 0 (file w ArenaBin);
  rv_others : forall f, f <> active -> f <> ArenaBin -> file w' f = file w f;
  rv_good : t = [] -> good w'
}.

(** The two truncations at the end of a recovery. *)
Lemma finish_run w (log t : list Z) (s : VfsState) : readies w -> rest = log ++ t -> Inv s ->
  exists w', ((if byteLength (file w ArenaBin) <? ARENA_HEADER_BYTES + totalExtents (allocator s) * extentSize s
               then truncateChecked ArenaBin (ARENA_HEADER_BYTES + totalExtents (allocator s) * extentSize s) else mret tt) ≫= fun _ =>
              (if byteLength base + byteLength log <? byteLength (file w active)
               then truncateChecked active (byteLength base + byteLength log) else mret tt)) w = (w', Ok tt) /\
    recovered log t s w w'.
Proof.
  intros R Hrest Hs. pose proof (required_bounds s Hs) as Hreq. set (required := ARENA_HEADER_BYTES + _) in *.
  pose proof (active_length w R) as Ha. pose proof (bt_sizes _ _ _ _ _ (rd_boot w R) active) as Hsafe.
  pose proof (metadata_names (activeMetadataFile s0)) as (Hna & _ & _).
  set (m1 := if byteLength (file w ArenaBin) <? required then _ else _).
  assert (H1 : exists w1, m1 w = (w1, Ok tt) /\ port_ok w1 /\ good w1 /\ (forall f, f <> ArenaBin -> file w1 f = file w f) /\
    file w1 ArenaBin = resize (Nat.max (length (file w ArenaBin)) (Z.to_nat required)) 0 (file w ArenaBin)).
  { unfold m1. destruct (_ <? required) eqn:E; propify.
    - destruct (truncate_run ArenaBin required w) as (w1 & R1 & Hok1 & Hf1 & Ho1 & Hg1); [apply R|apply R|lia|].
      exists w1. split; [done|]. split; [done|]. split; [by apply Hg1|]. split; [done|]. rewrite Hf1. f_equal.
      unfold byteLength in E. lia.
    - exists w. split; [done|]. split; [apply R|]. split; [apply R|]. split; [done|]. unfold byteLength in E.
      rewrite Nat.max_l by lia. by rewrite resize_all. }
  destruct H1 as (w1 & R1 & Hok1 & Hg1 & Ho1 & Hf1). rewrite (st_bind_run _ _ _ _ _ R1).
  assert (Hlen : byteLength rest = byteLength log + byteLength t) by (rewrite Hrest; unfold byteLength; rewrite length_app; lia).
  assert (0 <= byteLength base /\ 0 <= byteLength log /\ 0 <= byteLength t) as (? & ? & ?) by (unfold byteLength; lia).
  destruct (_ <? byteLength (file w active)) eqn:E; propify.
  - destruct (truncate_run active (byteLength base + byteLength log) w1) as (w2 & R2 & Hok2 & Hf2 & Ho2 & _); [done|done|lia|].
    exists w2. split; [done|]. split; [done| | | |].
    + rewrite Hf2, Ho1, (rd_active w R), Hrest, app_assoc by done.
      rewrite resize_le by (unfold byteLength in *; rewrite !length_app; lia).
      rewrite take_app_le by (unfold byteLength; rewrite length_app; lia). apply take_ge. unfold byteLength. rewrite length_app. lia.
    + by rewrite Ho2 by congruence.
    + intros f Hf Hf'. by rewrite Ho2, Ho1.
    + intros ->. unfold byteLength in *. cbn in *. lia.
  - assert (Ht : t = []) by (apply length_zero_iff_nil; unfold byteLength in *; lia).
    exists w1. split; [done|]. split; [done| |done| |done].
    + by rewrite Ho1, (rd_active w R), Hrest, Ht, app_nil_r.
    + intros f Hf Hf'. by rewrite Ho1.
Qed.

Lemma then_run {S A B} (m1 m2 : M S A) (k : A -> M S B) x x' a : (m1 ≫= fun _ => m2) x = (x', Ok a) ->
  (m1 ≫= fun _ => m2 ≫= k) x = k a x'.
Proof. unfold mbind, ST_bind. destruct (m1 x) as [y [b|e]]; [|done]. by intros ->. Qed.

Lemma recover_run w log t s n configured : readies w -> rest = log ++ t -> committed (recoveredBase s0 older) 1 log s n ->
  torn t -> byteLength log <= MAX_ACTIVE_LOG_BYTES -> Z.of_nat n <= MAX_ACTIVE_LOG_FRAMES ->
  (forall c, configured = Some c -> c = extentSize s0) ->
  exists w', recoverActivated (sizes_of w) (slot_at (file w ActivationBin) 0) (slot_at (file w ActivationBin) 1) configured w
    = (w', Ok (openedStore s (byteLength log) n (byteLength (file w ArenaBin)) (byteLength (file w active)))) /\ recovered log t s w w'.
Proof.
  intros R Hrest Hc Ht Hlog Hn Hconf. pose proof (rd_boot w R) as [Hi _ _ _ _ Hsel Hold _ _].
  pose proof (recoveredBase_Inv s0 older Hi Hold) as Hbase. pose proof (committed_Inv _ _ _ _ _ Hc Hbase) as Hs.
  destruct (readArena_run w R) as [Harena (w1 & header & R1 & Hd & U1)]. unfold recoverActivated.
  rewrite st_bind_lift. cbn [size_arena sizes_of]. rewrite (proj2 (Z.ltb_ge _ _)) by lia. cbn [throw_if].
  rewrite (st_bind_run _ _ _ _ _ R1), st_bind_lift, Hd, st_bind_lift, Hsel. cbv zeta. cbn [selected sel_other].
  change (act_metadataFile (activation_of seq s0 base)) with (activeMetadataFile s0). rewrite !sizeOf_file.
  pose proof (readies_untouched w w1 R U1) as Rw1. pose proof U1 as (_ & _ & F1). rewrite <- !F1.
  destruct (detect_run w1 (otherMetadataFile (activeMetadataFile s0)) Rw1) as (w2 & R2 & U2). rewrite (st_bind_run _ _ _ _ _ R2).
  pose proof (readies_untouched w1 w2 Rw1 U2) as Rw2. pose proof U2 as (_ & _ & F2). rewrite <- !F2.
  destruct (readSelected_run w2 Rw2) as (w3 & bh & R3 & Hbh & U3). rewrite (st_bind_run _ _ _ _ _ R3). cbv beta iota.
  cbn [db_state db_baseEnd ah_extentSize ah_limitsProfileVersion].
  change (extentSize (canonical s0)) with (extentSize s0). rewrite st_bind_lift, Hbh, !Z.eqb_refl. cbn [negb orb throw_if].
  fold (recoveredBase s0 older). rewrite st_bind_lift, (validateState_complete _ Hbase). cbn [limitAsCorrupt].
  pose proof (readies_untouched w2 w3 Rw2 U3) as Rw3. pose proof U3 as (_ & _ & F3). rewrite <- !F3.
  destruct (replayLog_run good active base log t w3 (recoveredBase s0 older) s n) as (w4 & R4 & U4);
    [apply Hport|apply Rw3|apply Rw3|done|done|done|by rewrite (rd_active w3 Rw3), Hrest|done|done|apply (bt_sizes _ _ _ _ _ (rd_boot w3 Rw3))|].
  rewrite (st_bind_run _ _ _ _ _ R4), st_bind_lift. cbn [rp_state rp_validEnd rp_nextSequence rp_requiredArenaEnd replayed].
  assert (Hcheck : (match configured with
    | Some c => throw_if (negb (c =? extentSize s0)) (ExtentSizeMismatchError c (extentSize s0)) | None => Ok tt end : result error unit) = Ok tt).
  { destruct configured as [c|]; [|done]. by rewrite (Hconf c eq_refl), Z.eqb_refl. }
  rewrite Hcheck, st_bind_lift.
  rewrite (proj2 (checkedSafeNumber_Ok _ _)) by (split; [done|pose proof (required_bounds s Hs); lia]).
  pose proof (readies_untouched w3 w4 Rw3 U4) as Rw4. pose proof U4 as (_ & _ & F4). rewrite <- !F4.
  destruct (finish_run w4 log t s Rw4 Hrest Hs) as (w5 & R5 & [V1 V2 V3 V4 V5]). rewrite (then_run _ _ _ _ _ _ R5).
  exists w5. split; [|split; rewrite <- ?F1, <- ?F2, <- ?F3, <- ?F4; try done].
  - unfold mret, ST_ret, openedStore. do 3 f_equal; [lia|lia|]. match goal with |- (if ?b then _ else _) = _ => destruct b eqn:E end; propify; lia.
  - intros f Hf Hf'. rewrite <- F1, <- F2, <- F3, <- F4. by apply V4.
Qed.

(** ** Opening *)

Lemma detectArena_run w : readies w -> exists w', detectArenaVersion (byteLength (file w ArenaBin)) w = (w', Ok tt) /\ untouched w w'.
Proof.
  intros R. destruct (readArena_run w R) as [Ha (w1 & header & R1 & Hd & U1)]. exists w1. split; [|done].
  unfold detectArenaVersion. rewrite (proj2 (Z.ltb_ge _ _)) by lia. rewrite (st_bind_run _ _ _ _ _ R1). unfold st_lift. by rewrite Hd.
Qed.

Lemma selection_slots l r selection : selectActivationPair l r = Ok selection ->
  exists a b, tryDecodeActivationSlot l = Ok a /\ tryDecodeActivationSlot r = Ok b /\
    bool_decide (is_Some a) || bool_decide (is_Some b) = true.
Proof.
  unfold selectActivationPair. intros Hs. apply bind_Ok in Hs as (a & Ha & Hs). apply bind_Ok in Hs as (b & Hb & Hs).
  exists a, b. split; [done|]. split; [done|]. by destruct a, b.
Qed.

(** One step that changes no file. *)
Lemma quiet_step {A B} (m : M Wd A) (k : A -> M Wd B) a w (Q : Wd -> result error B -> Prop) : readies w ->
  (exists w', m w = (w', Ok a) /\ untouched w w') ->
  (forall w', readies w' -> (forall f, file w' f = file w f) -> exists w'' b, k a w' = (w'', b) /\ Q w'' b) ->
  exists w'' b, (m ≫= k) w = (w'', b) /\ Q w'' b.
Proof.
  intros R (w1 & Hr & U) Hk. rewrite (st_bind_run _ _ _ _ _ Hr). apply Hk; [by eapply readies_untouched|apply U].
Qed.

Lemma open_run w log t s n configured : readies w -> rest = log ++ t -> committed (recoveredBase s0 older) 1 log s n ->
  torn t -> byteLength log <= MAX_ACTIVE_LOG_BYTES -> Z.of_nat n <= MAX_ACTIVE_LOG_FRAMES ->
  (forall c, configured = Some c -> c = extentSize s0) ->
  exists w', openHandles configured w
    = (w', Ok (openedStore s (byteLength log) n (byteLength (file w ArenaBin)) (byteLength (file w active)))) /\ recovered log t s w w'.
Proof.
  intros R Hrest Hc Ht Hlog Hn Hconf. 
  set (goal_store := openedStore _ _ _ _ _).
  cut (exists w'' b, openHandles configured w = (w'', b) /\ b = Ok goal_store /\ recovered log t s w w'').
  { intros (w'' & b & Hr & -> & V). by exists w''. }
  unfold openHandles.
  apply (quiet_step _ _ (sizes_of w) w _ R); [apply (getSizes_run good Hport); apply R|]. intros w1 R1 F1.
  cbn [size_activation size_arena size_a size_b sizes_of]. rewrite <- !F1.
  assert (H01 : 0 <= 0 <= 1 /\ 0 <= 1 <= 1) by lia.
  apply (quiet_step _ _ (slot_at (file w1 ActivationBin) 0) w1 _ R1);
    [apply (readSlot_run good Hport); [apply R1|apply R1|lia|apply (bt_sizes _ _ _ _ _ (rd_boot w1 R1))]|]. intros w2 R2 F2. rewrite <- !F2.
  apply (quiet_step _ _ (slot_at (file w2 ActivationBin) 1) w2 _ R2);
    [apply (readSlot_run good Hport); [apply R2|apply R2|lia|apply (bt_sizes _ _ _ _ _ (rd_boot w2 R2))]|]. intros w3 R3 F3. rewrite <- !F3.
  apply (quiet_step _ _ tt w3 _ R3); [by apply detectArena_run|]. intros w4 R4 F4. rewrite <- !F4.
  apply (quiet_step _ _ tt w4 _ R4); [by apply (detect_run w4 MetaA)|]. intros w5 R5 F5. rewrite <- !F5.
  apply (quiet_step _ _ tt w5 _ R5); [by apply (detect_run w5 MetaB)|]. intros w6 R6 F6. rewrite <- !F6.
  destruct (selection_slots _ _ _ (bt_selection _ _ _ _ _ (rd_boot w6 R6))) as (a & b & Ha & Hb & Hab).
  rewrite st_bind_lift, Ha, st_bind_lift, Hb, st_bind_lift.
  rewrite (proj2 (Z.ltb_ge _ _)) by apply (bt_slots _ _ _ _ _ (rd_boot w6 R6)). cbn [throw_if]. rewrite Hab.
  assert (Hsizes : forall f, file w6 f = file w f) by (intros f; by rewrite F6, F5, F4, F3, F2, F1).
  assert (E : sizes_of w = sizes_of w6) by (unfold sizes_of; by rewrite !Hsizes). rewrite E.
  destruct (recover_run w6 log t s n configured R6 Hrest Hc Ht Hlog Hn Hconf) as (w7 & R7 & [V1 V2 V3 V4 V5]).
  exists w7. eexists. split; [exact R7|]. split; [unfold goal_store; by rewrite !Hsizes|]. rewrite Hsizes in V3.
  split; try done. intros f Hf Hf'. by rewrite V4, Hsizes.
Qed.
End Recover.
