(* ===== verification/ReopenProps.v ===== *)
(** * Opening a store again: the properties *)

From S2P Require Export Reopen BaseProps RepackProps.

(** C20. Opening recovers the committed transactions. Over a port whose calls succeed, when the slots select the
    base of a valid state, and the active metadata file holds the base, the frames of a history of committed
    transactions and then a torn frame (or nothing), [openHandles] returns a store with the state after the
    last committed transaction, up to the order of its free extents. The torn frame is cut off, the arena is
    long enough for every extent, and nothing else changed. *)
Theorem open_recovers (Wd : Type) (port : RepackedPort Wd) (lawful : LawfulPort Wd) (good : Wd -> Prop)
  (seq : Z) (s0 s : VfsState) (base log t : list Z) (older : option ActivationRecord) (n : nat) (configured : option Z) (w : Wd)
  (Hport : responsive good) (Hgood : good w) (Hok : port_ok w) (Hboot : bootable seq s0 base older w)
  (Hfile : file w (metadataFileName (activeMetadataFile s0)) = base ++ log ++ t)
  (Hlog : committed s0 1 log s n) (Htorn : torn t)
  (Hbytes : byteLength log <= MAX_ACTIVE_LOG_BYTES) (Hframes : Z.of_nat n <= MAX_ACTIVE_LOG_FRAMES)
  (Hconfigured : forall c, configured = Some c -> c = extentSize s0) :
  exists w' store, openHandles configured w = (w', Ok store) /\ same s (om_state store) /\
    om_activeLogEnd store = byteLength (base ++ log) /\ om_nextSequence store = 1 + Z.of_nat n /\
    om_activationSequence store = seq /\
    file w' (metadataFileName (activeMetadataFile s0)) = base ++ log /\
    ARENA_HEADER_BYTES + totalExtents (allocator s) * extentSize (om_state store) <= byteLength (file w' ArenaBin) /\
    forall f, f <> metadataFileName (activeMetadataFile s0) -> f <> ArenaBin -> file w' f = file w f.
Proof.
  destruct (committed_same _ _ _ _ _ Hlog (recoveredBase s0 older)) as (s' & Hc & S); [apply recoveredBase_same, (bt_inv _ _ _ _ _ Hboot)|].
  destruct (open_run good Hport seq s0 base (log ++ t) older w log t s' n configured) as (w' & Hr & [_ Ha Har Ho _]); try done.
  exists w'. eexists. split; [exact Hr|]. split; [exact S|]. cbn. split; [unfold byteLength; rewrite length_app; lia|].
  split; [done|]. split; [done|]. split; [done|]. split; [|done]. rewrite Har. unfold byteLength. rewrite length_resize.
  destruct S as [E _]. rewrite E. cbn. unfold byteLength. lia.
Qed.

(** ** The opened store is live *)

Section Again.
Context {Wd : Type} `{DurablePort Wd} (good : Wd -> Prop).

Definition good_settled (name : OwnedFileName) (w : Wd) : Prop := good w /\ port_ok w /\ settled w name.

Lemma responsive_settled name : name <> ArenaBin -> responsive good -> responsive (good_settled name).
Proof.
  intros Hn [Hr Hs Ht]. split.
  - intros f len pos w (Hg & Hok & Hset) _ Hl Hp Hin Hm. destruct (Hr f len pos w Hg Hok Hl Hp Hin Hm) as (w' & c & bs & Hrun & Hc & Hg').
    exists w', c, bs. split; [done|]. split; [done|]. split; [done|]. split; [by eapply read_law in Hrun as (? & _)|by eapply read_keeps].
  - intros f w (Hg & Hok & Hset) _. destruct (Hs f w Hg Hok) as (w' & Hrun & Hg'). exists w'. split; [done|]. split; [done|].
    split; [by eapply getSize_law in Hrun as (? & _)|by eapply getSize_keeps].
  - intros f size w (Hg & Hok & Hset) _ Hb. destruct (Ht f size w Hg Hok Hb) as (w' & Hrun & Hg'). exists w'. split; [done|].
    intros ->. split; [by apply Hg'|]. split; [eapply truncate_law in Hrun as (? & _); [done|done|lia]|by eapply truncate_keeps].
Qed.

Lemma opened_live seq s0 s base log older n configured w : responsive good -> good_settled (metadataFileName (activeMetadataFile s0)) w ->
  bootable seq s0 base older w -> file w (metadataFileName (activeMetadataFile s0)) = base ++ log ->
  committed s0 1 log s n -> byteLength log <= MAX_ACTIVE_LOG_BYTES -> Z.of_nat n <= MAX_ACTIVE_LOG_FRAMES ->
  (forall c, configured = Some c -> c = extentSize s0) ->
  exists w' store, openHandles configured w = (w', Ok store) /\ same s (om_state store) /\
    forall now, live (recoveredBase s0 older) base (mkHost w' (newVfs store now)).
Proof.
  intros Hport Hg Hboot Hfile Hlog Hb Hn Hconf. pose proof Hg as (_ & Hok & _).
  destruct (committed_same _ _ _ _ _ Hlog (recoveredBase s0 older)) as (s' & Hc & S); [apply recoveredBase_same, (bt_inv _ _ _ _ _ Hboot)|].
  assert (Hname : metadataFileName (activeMetadataFile s0) <> ArenaBin) by apply metadata_names.
  destruct (open_run (good_settled _) (responsive_settled _ Hname Hport) seq s0 base log older w log [] s' n configured)
    as (w' & Hr & [Hok' Ha _ _ Hgood]); try done; [by rewrite app_nil_r|by left|].
  destruct (Hgood eq_refl) as (_ & _ & Hset).
  pose proof (recoveredBase_Inv s0 older (bt_inv _ _ _ _ _ Hboot) (bt_older _ _ _ _ _ Hboot)) as Hbase.
  destruct (committed_header _ _ _ _ _ Hc Hbase) as [_ Hfile'].
  assert (Hf0 : activeMetadataFile s' = activeMetadataFile s0) by (rewrite Hfile'; by destruct older).
  exists w'. eexists. split; [exact Hr|]. split; [exact S|]. intros now. exists log, s', n, [], 0%nat.
  split; [split; [done| |done|done]|done| | | | | | | |].
  - cbn [h_world h_vfs]. unfold activeName, v_state. cbn. by rewrite Hf0, Ha, app_nil_r.
  - done.
  - cbn. unfold byteLength. rewrite length_app. lia.
  - by rewrite app_nil_r.
  - by rewrite Nat.add_0_r.
  - by rewrite Nat.add_0_r.
  - by rewrite app_nil_r.
  - by rewrite Nat.add_0_r.
  - intros _. cbn [h_world h_vfs]. unfold activeName, v_state. cbn. by rewrite Hf0.
Qed.
End Again.

(** C2. What was acknowledged is there when the store is opened again. From a live store, when [strictSync]
    returns, and any crash of the port leaves a bootable store, opening it returns the live state, up to the
    order of its free extents, in a store that is live again. *)
Theorem reopen_after_crash (Wd : Type) (port : RepackedPort Wd) (lawful : LawfulPort Wd) (durable : DurablePort Wd)
  (good : Wd -> Prop) (seq : Z) (s0 : VfsState) (base : list Z) (older : option ActivationRecord) (configured : option Z)
  (h h' : Host Wd) (w : Wd)
  (Hlive : live s0 base h) (Hsync : strictSync h = (h', Ok tt)) (Hcrash : crash (h_world h') w)
  (Hport : responsive good) (Hgood : good w) (Hok : port_ok w) (Hboot : bootable seq s0 base older w)
  (Hconfigured : forall c, configured = Some c -> c = extentSize s0) :
  exists w' store, openHandles configured w = (w', Ok store) /\ same (v_state (h_vfs h)) (om_state store) /\
    forall now, live (recoveredBase s0 older) base (mkHost w' (newVfs store now)).
Proof.
  pose proof (wp_run _ _ _ _ _ (wp_strictSync s0 base h Hlive) Hsync) as (log & n & L & Hs & Hset).
  assert (Hname : activeName (h_vfs h') = activeName (h_vfs h)) by (unfold activeName; by rewrite Hs).
  destruct L as [[Hok' Hf Hb Hl] _ _ _ _ _ _ Hmb Hmf _]. rewrite Hname in *. rewrite app_nil_r in *. rewrite Nat.add_0_r in Hmf.
  destruct (committed_header _ _ _ _ _ Hl Hb) as [_ Hfile].
  assert (Hact : activeName (h_vfs h) = metadataFileName (activeMetadataFile s0)) by (unfold activeName; by rewrite Hfile).
  pose proof (crash_settled _ _ _ Hok' Hcrash Hset) as Hw. rewrite Hf, Hact in Hw.
  eapply (opened_live good); try done. split; [done|]. split; [done|]. by eapply crash_settles.
Qed.

(** ** The witnesses: a store on the in-memory port, synchronised, terminated and opened again *)

#[local] Existing Instance example_port.
#[local] Existing Instance example_lawful.
#[local] Existing Instance example_durable.

(** No fault is injected, and the four files are there and open. *)
Definition all_open (w : MemoryWorld) : Prop := fault_free w /\ forall name, is_Some (volatile (mw_port w) !! name).

(** A handle that is open passes its call on. *)
Lemma open_handle {A} (m : P A) name w : all_open w ->
  (assertOpen name ≫= fun _ => on_port m) w = on_port m w.
Proof.
  intros [[_ Hh] Hv]. destruct (Hh name (Hv name)) as (h & H1 & H2 & H3). unfold assertOpen, mbind, ST_bind, st_get, st_lift.
  by rewrite H1, H2, H3, Z.eqb_refl.
Qed.

Lemma all_open_moves w p : all_open w -> faults p = [] -> epoch p = epoch (mw_port w) ->
  (forall name, is_Some (volatile (mw_port w) !! name) -> is_Some (volatile p !! name)) -> all_open (mkMemoryWorld p (mw_handles w)).
Proof.
  intros [[Hf Hh] Hv] Hp He Hk. split; [split|]; cbn; [done| |by intros name; apply Hk]. intros name _. rewrite He. by apply Hh.
Qed.

Lemma all_open_responsive : responsive all_open.
Proof.
  split.
  - intros name n pos w [Hf Hv] Hok Hn Hpos Hin Hs.
    destruct (fault_free_readable name n pos w Hf Hok Hn Hpos Hin Hs) as (w' & c & bs & Hr & Hc & Hf'). exists w', c, bs.
    split; [done|]. split; [done|]. split; [done|]. intros f.
    assert (Ev : volatile (mw_port w') = volatile (mw_port w)); [|by rewrite Ev].
    cbn in Hr. rewrite (open_handle _ name w) in Hr by done. apply on_port_inv in Hr as (p' & Hr & ->).
    by apply handleRead_spec in Hr as (Hv' & _); [|done|done].
  - intros name w Ha Hok. pose proof Ha as [[Hf _] Hv].
    assert (E : getSize name w = on_port (handleGetSize name []) w) by (apply (open_handle _ name w Ha)). rewrite E. clear E. destruct (Hv name) as [im Him]. destruct w as [p hs]. cbn in *.
    unfold on_port, handleGetSize, recordOperation, takeFault, mbind, ST_bind, st_modify, st_get, st_lift, mret, ST_ret. cbn.
    rewrite Hf. cbn. unfold file_of, mbind, ST_bind, st_get, st_lift. cbn. rewrite Him. cbn.
    assert (E : byteLength (bytes_of (volatile p) name) = Z.of_nat (view im)).
    { unfold byteLength, bytes_of. rewrite Him. by rewrite image_bytes_length by (by eapply mi_volatile). }
    rewrite E. eexists. split; [reflexivity|]. by apply (all_open_moves (mkMemoryWorld p hs)).
  - intros name size w Ha Hok Hs. pose proof Ha as [[Hf _] Hv].
    assert (E : truncate name size w = on_port (handleTruncate name size []) w) by (apply (open_handle _ name w Ha)). rewrite E. clear E. destruct (Hv name) as [im Him]. destruct w as [p hs]. cbn in *.
    assert (Hr : validateRange size 0 = Ok tt).
    { unfold validateRange, isSafeInteger. rewrite !(proj2 (Z.leb_le _ _)) by ll. by rewrite (proj2 (Z.ltb_ge size 0)) by lia. }
    unfold on_port, handleTruncate. cbn [mw_port]. rewrite st_bind_lift, Hr.
    unfold recordOperation, takeFault, mbind, ST_bind, st_modify, st_get, st_lift, mret, ST_ret. cbn.
    rewrite Hf. cbn. unfold recordTruncate, pushEffect, file_of, mbind, ST_bind, st_modify, st_get, st_lift. cbn. rewrite Him. cbn.
    eexists. split; [reflexivity|]. intros _. apply (all_open_moves (mkMemoryWorld p hs)); [done|done|done|].
    intros x Hx. cbn. destruct (decide (x = name)) as [->|Hne]; [rewrite lookup_insert_eq; by eexists|by rewrite lookup_insert_ne].
Qed.

(** A new store, with its first file, synchronised; then a second file whose frame is not. The worlds are kept
    evaluated. *)
Definition empty_world : MemoryWorld := foldl (fun w name => run_world (acquire name) w) (mkMemoryWorld newMemoryPort ∅) OWNED_FILE_NAMES.
Definition boot_base : list Z := Eval vm_compute in from_ok [] (encodeMetadataBase example_store).
Definition booted_world : MemoryWorld := Eval vm_compute in run_world (bootstrap 8192) empty_world.
Definition booted : Host MemoryWorld :=
  mkHost booted_world (newVfs (mkOpened example_store (byteLength boot_base) 1 0 0 1 0 ARENA_HEADER_BYTES false false) 0).
Definition boot_created : Host MemoryWorld := Eval vm_compute in step (commit first_record None) booted.
Definition boot_synced : Host MemoryWorld := Eval vm_compute in step strictSync boot_created.
Definition boot_second : Host MemoryWorld := Eval vm_compute in step (commit second_record None) boot_synced.

(** The unflushed truncation of the unused metadata file is lost; of an unflushed frame, fifty bytes arrive. *)
Definition boot_cut : Z -> TerminationDecision := fun id => if id =? 5 then Absent else Prefix 50.

(** The next process, after a termination of [h]. *)
Definition next_process (h : Host MemoryWorld) : MemoryWorld :=
  foldl (fun w name => run_world (acquire name) w) (mkMemoryWorld (terminate boot_cut (mw_port (h_world h))).1 ∅) OWNED_FILE_NAMES.

Lemma acquire_ok names w : MemInv (mw_port w) -> MemInv (mw_port (foldl (fun w name => run_world (acquire name) w) w names)).
Proof.
  revert w. induction names as [|name names IH]; intros w Hw; [done|]. apply IH. unfold run_world.
  change (acquire name w) with (memory_open name [] w). unfold memory_open, mbind, ST_bind, on_port.
  pose proof (keeps_acquire name [] _ Hw) as Hk. by destruct (memory_acquire name [] (mw_port w)) as [p [hd|e]].
Qed.

Lemma booted_world_ok : MemInv (mw_port booted_world).
Proof.
  assert (E : mw_port booted_world = history id (((fun name => CallAcquire name []) <$> OWNED_FILE_NAMES) ++
    [CallTruncate ArenaBin 0 []; CallWrite ArenaBin (file booted_world ArenaBin) 0 []; CallFlush ArenaBin [];
     CallTruncate MetadataABin 0 []; CallWrite MetadataABin boot_base 0 []; CallFlush MetadataABin []; CallTruncate MetadataBBin 0 [];
     CallTruncate ActivationBin 0 []; CallWrite ActivationBin (file booted_world ActivationBin) 0 []; CallFlush ActivationBin []]))
    by (vm_compute; reflexivity).
  rewrite E. apply history_inv.
Qed.

Lemma booted_live : live example_store boot_base booted.
Proof.
  exists [], example_store, 0%nat, [], 0%nat. split.
  - split; [exact booted_world_ok|vm_compute; reflexivity|exact example_store_Inv|apply committed_nil].
  - reflexivity.
  - split; [reflexivity|]. split; reflexivity.
  - vm_compute. reflexivity.
  - reflexivity.
  - reflexivity.
  - reflexivity.
  - vm_compute. discriminate.
  - vm_compute. discriminate.
  - intros _. vm_compute. reflexivity.
Qed.

Lemma boot_created_live : live example_store boot_base boot_created.
Proof.
  assert (E : commit first_record None booted = (boot_created, Ok tt)) by (vm_compute; reflexivity).
  pose proof (wp_run _ _ _ _ _ (wp_commit _ _ first_record None _ booted_live (cm_ok _ _ _ _ _ first_record_commits)
    example_record_fits ltac:(done)) E) as [(sd & H & _)|(_ & _ & e & H)]; done.
Qed.

Lemma boot_synced_live : live example_store boot_base boot_synced.
Proof.
  assert (E : strictSync boot_created = (boot_synced, Ok tt)) by (vm_compute; reflexivity).
  pose proof (wp_run _ _ _ _ _ (wp_strictSync _ _ _ boot_created_live) E) as (log & n & L & _). eexists _, _, _, _, _. exact L.
Qed.

(** The files a termination leaves are bootable, whatever the log. *)
Lemma boot_bootable w : (forall f, f <> MetadataABin -> file w f = file booted_world f) ->
  byteLength (file w MetadataABin) <= MAX_SAFE_INTEGER -> bootable 1 example_store boot_base None w.
Proof.
  intros Hf Ha. split.
  - exact example_store_Inv.
  - apply texts_checked. vm_compute. repeat constructor.
  - vm_compute. reflexivity.
  - rewrite Hf by done. vm_compute. reflexivity.
  - rewrite Hf by done. vm_compute. discriminate.
  - rewrite Hf by done. vm_compute. reflexivity.
  - done.
  - change (inactiveName example_store) with MetadataBBin. rewrite Hf by done. intros Hl. by vm_compute in Hl.
  - intros name. destruct (decide (name = MetadataABin)) as [->|Hn]; [done|]. rewrite Hf by done. clear Hn.
    destruct name; vm_compute; discriminate.
Qed.

Lemma next_process_ok h : MemInv (mw_port (h_world h)) -> port_ok (next_process h).
Proof. intros Hok. apply acquire_ok. cbn. by apply keeps_terminate. Qed.

Lemma next_process_open h : faults (mw_port (next_process h)) = [] -> epoch (mw_port (next_process h)) = 2 ->
  (forall name, mw_handles (next_process h) !! name = Some (mkHandle 2 false)) ->
  (forall name, bool_decide (is_Some (volatile (mw_port (next_process h)) !! name)) = true) -> all_open (next_process h).
Proof.
  intros Hf He Hh Hv. split; [split; [done|]|].
  - intros name _. exists (mkHandle 2 false). by rewrite Hh, He.
  - intros name. by eapply bool_decide_eq_true, Hv.
Qed.

Lemma boot_synced_ok : MemInv (mw_port (h_world boot_synced)).
Proof. destruct boot_synced_live as (? & ? & ? & ? & ? & L). apply (od_port _ _ _ _ _ _ _ (lv_disk _ _ _ _ _ _ _ _ L)). Qed.

Lemma boot_reopened_open : all_open (next_process boot_synced).
Proof. apply next_process_open; [vm_compute; reflexivity|vm_compute; reflexivity|intros []; vm_compute; reflexivity|intros []; vm_compute; reflexivity]. Qed.

Lemma boot_reopened_files : bootable 1 example_store boot_base None (next_process boot_synced).
Proof. apply boot_bootable; [intros [] Hf; [|destruct (Hf eq_refl)|..]; vm_compute; reflexivity|vm_compute; discriminate]. Qed.

Lemma reopen_after_crash_witness :
  exists w' store, openHandles (Some 8192) (next_process boot_synced) = (w', Ok store) /\
    same (v_state (h_vfs boot_created)) (om_state store) /\
    forall now, live (recoveredBase example_store None) boot_base (mkHost w' (newVfs store now)).
Proof.
  apply (reopen_after_crash MemoryWorld example_port example_lawful example_durable all_open 1 example_store boot_base None (Some 8192)
           boot_created boot_synced (next_process boot_synced) boot_created_live).
  - vm_compute. reflexivity.
  - split; [exact (next_process_ok boot_synced boot_synced_ok)|]. split; [vm_compute; reflexivity|].
    exists boot_cut, (terminate boot_cut (mw_port (h_world boot_synced))).1.
    split; [vm_compute; reflexivity|]. intros name. destruct name; vm_compute; reflexivity.
  - exact all_open_responsive.
  - exact boot_reopened_open.
  - exact (next_process_ok boot_synced boot_synced_ok).
  - exact boot_reopened_files.
  - intros c [= <-]. reflexivity.
Defined.

(** The second file's frame was cut off after fifty bytes. *)
Lemma boot_second_live : live example_store boot_base boot_second.
Proof.
  assert (E : commit second_record None boot_synced = (boot_second, Ok tt)) by (vm_compute; reflexivity).
  pose proof (wp_run _ _ _ _ _ (wp_commit _ _ second_record None _ boot_synced_live (cm_ok _ _ _ _ _ second_record_commits)
    ltac:(exact I) ltac:(done)) E) as [(sd & H & _)|(_ & _ & e & H)]; done.
Qed.

Lemma boot_second_ok : MemInv (mw_port (h_world boot_second)).
Proof. destruct boot_second_live as (? & ? & ? & ? & ? & L). apply (od_port _ _ _ _ _ _ _ (lv_disk _ _ _ _ _ _ _ _ L)). Qed.

Lemma boot_torn : torn (take 50 second_frame).
Proof.
  right. exists (generation first_state), 2, second_record, second_frame.
  destruct second_record_commits as [Ho _ Hs He _]. split; [vm_compute; split; discriminate|].
  split; [vm_compute; split; discriminate|]. split; [done|]. split; [done|]. split; [done|].
  split; [apply prefix_take|vm_compute; discriminate].
Qed.

Lemma open_recovers_witness :
  exists w' store, openHandles None (next_process boot_second) = (w', Ok store) /\ same first_state (om_state store) /\
    om_activeLogEnd store = byteLength (boot_base ++ first_frame) /\ om_nextSequence store = 1 + Z.of_nat 1 /\
    om_activationSequence store = 1 /\
    file w' (metadataFileName (activeMetadataFile example_store)) = boot_base ++ first_frame /\
    ARENA_HEADER_BYTES + totalExtents (allocator first_state) * extentSize (om_state store) <= byteLength (file w' ArenaBin) /\
    forall f, f <> metadataFileName (activeMetadataFile example_store) -> f <> ArenaBin -> file w' f = file (next_process boot_second) f.
Proof.
  apply (open_recovers MemoryWorld example_port example_lawful all_open 1 example_store first_state boot_base first_frame
           (take 50 second_frame) None 1 None (next_process boot_second)).
  - exact all_open_responsive.
  - apply next_process_open; [vm_compute; reflexivity|vm_compute; reflexivity|intros []; vm_compute; reflexivity|intros []; vm_compute; reflexivity].
  - exact (next_process_ok boot_second boot_second_ok).
  - apply boot_bootable; [intros [] Hf; [|destruct (Hf eq_refl)|..]; vm_compute; reflexivity|vm_compute; discriminate].
  - vm_compute. reflexivity.
  - exact first_log_committed.
  - exact boot_torn.
  - vm_compute. discriminate.
  - vm_compute. discriminate.
  - discriminate.
Defined.
