(* ===== verification/MountedVfs.v ===== *)
(** * Several stores as one file system

    [packages/pgwasm/src/opfs/core/mounted-vfs.ts]. The stores are behind the interface [RepackedFileSystem] of
    [repacked-vfs.ts], here the class [FileSystem]; the composite routes each path to the store that serves its
    prefix, follows the links that lead from one store to another, and numbers the descriptors. *)

From S2P Require Export VfsOps.

(** ** The interface of a store *)

Class FileSystem (S : Type) : Type := {
  fs_strictSync : M S unit;
  fs_assertHealthy : M S unit;
  fs_fail : forall A, error -> M S A;
  fs_metrics : M S RepackedVfsMetrics;
  fs_repack : RepackReason -> M S unit;
  fs_runScheduledRepack : option Z -> M S bool;
  fs_resolvePath : jsstr -> bool -> M S jsstr;
  fs_stat : jsstr -> M S RepackedStat;
  fs_lstat : jsstr -> M S RepackedStat;
  fs_symlink : jsstr -> jsstr -> Z -> M S unit;
  fs_readlink : jsstr -> M S jsstr;
  fs_readdir : jsstr -> M S (list jsstr);
  fs_mkdir : jsstr -> bool -> option Z -> Z -> M S unit;
  fs_writeFile : jsstr -> FileData -> option jsstr -> option Z -> option jsstr -> Z -> M S unit;
  fs_readFile : jsstr -> M S (list Z);
  fs_truncate : jsstr -> Z -> Z -> M S unit;
  fs_open : jsstr -> jsstr -> Z -> Z -> M S Z;
  fs_fstat : Z -> M S RepackedStat;
  fs_read : Z -> Z -> Z -> Z -> option Z -> M S (list Z);
  fs_write : Z -> list Z -> Z -> Z -> option Z -> Z -> M S Z;
  fs_chmod : jsstr -> Z -> Z -> M S unit;
  fs_utimes : jsstr -> Z -> Z -> Z -> M S unit;
  fs_unlink : jsstr -> Z -> M S unit;
  fs_rmdir : jsstr -> Z -> M S unit;
  fs_rename : jsstr -> jsstr -> Z -> M S unit;
  fs_close : M S unit;
  fs_closeFd : Z -> M S unit
}.

(** The repacked store is such a store. *)
Definition RepackedFs {Wd} `{RepackedPort Wd} (dateNow performanceNow : M Wd Z) : FileSystem (Host Wd) := {|
  fs_strictSync := strictSync;
  fs_assertHealthy := assertOpen;
  fs_fail := @fail Wd;
  fs_metrics := metricsOf;
  fs_repack := repack dateNow performanceNow;
  fs_runScheduledRepack := runScheduledRepack dateNow performanceNow;
  fs_resolvePath := resolvePath;
  fs_stat := stat;
  fs_lstat := lstat;
  fs_symlink := symlink;
  fs_readlink := readlink;
  fs_readdir := readdir;
  fs_mkdir := mkdir;
  fs_writeFile := writeFile dateNow performanceNow;
  fs_readFile := readFile;
  fs_truncate := truncatePath dateNow performanceNow;
  fs_open := openPath dateNow performanceNow;
  fs_fstat := fstat;
  fs_read := readFd;
  fs_write := writeFd dateNow performanceNow;
  fs_chmod := chmod;
  fs_utimes := utimes;
  fs_unlink := unlink;
  fs_rmdir := rmdir;
  fs_rename := rename;
  fs_close := closeStore;
  fs_closeFd := closeFd
|}.

(** ** The composite *)

Module Mounted.

(** A store of the composite: [options.root], or [mounts[index].vfs]. *)
Inductive StoreRef : Type := Root | Mount (index : nat).
#[export] Instance StoreRef_eq_dec : EqDecision StoreRef.
Proof. solve_decision. Defined.

Record ResolvedMount : Type := mkMount { prefix : jsstr; boundary : jsstr; durable : bool }.

(** [Route.mount] is [undefined] for the root store, and identifies [Route.fs]. *)
Record Route : Type := mkRoute { route_fs : StoreRef; route_path : jsstr }.

Record MountedDescriptor : Type := mkDescriptor { desc_fs : StoreRef; desc_fd : Z }.

(** The stores themselves, and the descriptors the composite gave out. *)
Record State (S : Type) : Type := mkState {
  m_root : S;
  m_stores : list S;
  m_descriptors : gmap Z MountedDescriptor;
  m_nextDescriptor : Z
}.
Arguments mkState {S}.
Arguments m_root {S}.
Arguments m_stores {S}.
Arguments m_descriptors {S}.
Arguments m_nextDescriptor {S}.

(** [value.startsWith(start)] *)
Definition startsWith (value start : jsstr) : bool := bool_decide (take (length start) value = start).

Definition isMissing (cause : error) : bool :=
  match cause with FsError ENOENT | FsError ENOTDIR => true | _ => false end.

(** *** The mount table *)

Definition overlaps (existing mount : jsstr) : bool :=
  bool_decide (existing = mount) || startsWith mount (existing ++ [SLASH]) || startsWith existing (mount ++ [SLASH]).

(** The loop of the constructor that checks the prefixes; a mount is durable unless it says otherwise. *)
Definition addMount (mounts : list ResolvedMount) (mount : jsstr * option bool) : R (list ResolvedMount) :=
  components ← parsePath mount.1;
  throw_if (bool_decide (components = [])) (FsError EINVAL) ≫= fun _ =>
  foldM (fun _ existing => throw_if (overlaps (prefix existing) mount.1) (FsError EINVAL)) tt mounts ≫= fun _ =>
  Ok (mounts ++ [mkMount mount.1 (mount.1 ++ [SLASH]) (default true mount.2)]).

Definition mountTable (mounts : list (jsstr * option bool)) : R (list ResolvedMount) := foldM addMount [] mounts.

(** The mounts with their stores. *)
Definition indexed (mounts : list ResolvedMount) : list (nat * ResolvedMount) := imap pair mounts.

(** [#route] after [parsePath]: the first mount that serves the path. *)
Fixpoint routeFrom (index : nat) (mounts : list ResolvedMount) (path : jsstr) : Route :=
  match mounts with
  | [] => mkRoute Root path
  | mount :: mounts =>
      if bool_decide (path = prefix mount) then mkRoute (Mount index) [SLASH]
      else if startsWith path (boundary mount) then mkRoute (Mount index) (drop (length (prefix mount)) path)
      else routeFrom (S index) mounts path
  end.

(** How far a walk came: to the end or a missing entry, or to a link. *)
Inductive Walked : Type :=
| Done (resolved rest : list jsstr)
| Hop (link : Route) (rest : list jsstr).

Section Composite.
Context {St : Type} `{FileSystem St} (mounts : list ResolvedMount).
Abbreviation V := (M (State St)).

(** A call of one of the stores: the others do not see it. *)
Definition on_store {A} (fs : StoreRef) (m : M St A) : V A := fun t =>
  match fs with
  | Root => let '(s, r) := m (m_root t) in (mkState s (m_stores t) (m_descriptors t) (m_nextDescriptor t), r)
  | Mount index =>
      match m_stores t !! index with
      | Some s =>
          let '(s, r) := m s in
          (mkState (m_root t) (<[index := s]> (m_stores t)) (m_descriptors t) (m_nextDescriptor t), r)
      | None => (t, Throw PlainError)
      end
  end.

Definition set_descriptors (f : gmap Z MountedDescriptor -> gmap Z MountedDescriptor) : V unit :=
  st_modify (fun t => mkState (m_root t) (m_stores t) (f (m_descriptors t)) (m_nextDescriptor t)).

(** *** Construction *)

(** The placeholder directories in the root store. *)
Definition placeholders (nowMs : Z) : V unit :=
  forM (fun mount =>
    st_catch (on_store Root (fs_mkdir (prefix mount) true None nowMs))
      (fun cause => match cause with FsError EEXIST => mret tt | _ => st_lift (Throw cause) end)) mounts.

(** *** Routing and resolution *)

Definition route (path : jsstr) : R Route := parsePath path ≫= fun _ => Ok (routeFrom 0 mounts path).

(** The loop of [#walk] up to the next link it must follow; [rest] is [pending.slice(index)]. *)
Fixpoint walkStores (follow : bool) (resolved rest : list jsstr) : V Walked :=
  match rest with
  | [] => mret (Done resolved [])
  | name :: rest' =>
      rt ← st_lift (route (joinPath (SLASH :: js_join resolved) [name]));
      st ← st_catch (st ← on_store (route_fs rt) (fs_lstat (route_path rt)); mret (Some st))
             (fun cause => if isMissing cause then mret None else st_lift (Throw cause));
      match st with
      | None => mret (Done resolved rest)
      | Some st =>
          match st_kind st with
          | KindSymlink =>
              if follow || negb (bool_decide (rest' = [])) then
                mret (Hop rt rest')
              else walkStores follow (resolved ++ [name]) rest'
          | _ => walkStores follow (resolved ++ [name]) rest'
          end
      end
  end.

(** [budget] is [MAX_SYMLINK_HOPS - hops]. *)
Fixpoint walkFrom (budget : nat) (follow : bool) (pending : list jsstr) : V jsstr :=
  walked ← walkStores follow [] pending;
  match walked with
  | Done resolved rest => mret (joinPath (SLASH :: js_join resolved) rest)
  | Hop rt rest =>
      match budget with
      | O => st_lift (Throw (FsError ELOOP))
      | S budget =>
          target ← on_store (route_fs rt) (fs_readlink (route_path rt));
          pending ← st_lift (parsePath (joinPath target rest));
          walkFrom budget follow pending
      end
  end.

Definition walk (path : jsstr) (follow : bool) : V jsstr :=
  pending ← st_lift (parsePath path); walkFrom (Z.to_nat MAX_SYMLINK_HOPS) follow pending.

(** The routed store is asked first; a path it reports unchanged is taken as it is. *)
Definition resolvePath (path : jsstr) (follow : bool) : V jsstr :=
  rt ← st_lift (route path);
  own ← on_store (route_fs rt) (fs_resolvePath (route_path rt) follow);
  if bool_decide (own = route_path rt) then mret path else walk path follow.

(** [#at]. *)
Definition at_ (path : jsstr) (follow : bool) : V Route :=
  resolved ← resolvePath path follow; st_lift (route resolved).

Definition descriptor (fd : Z) : V MountedDescriptor :=
  t ← st_get; st_lift (or_throw (m_descriptors t !! fd) (FsError EBADF)).

(** *** Lifecycle *)

Definition strictSync : V unit :=
  on_store Root fs_strictSync ≫= fun _ =>
  forM (fun '(index, mount) => if durable mount then on_store (Mount index) fs_strictSync else mret tt) (indexed mounts).

Definition assertHealthy : V unit :=
  on_store Root fs_assertHealthy ≫= fun _ =>
  forM (fun '(index, _) => on_store (Mount index) fs_assertHealthy) (indexed mounts).

Definition fail {A} (cause : error) : V A :=
  forM (fun '(index, _) => st_catch (on_store (Mount index) (fs_fail unit cause)) (fun _ => mret tt)) (indexed mounts) ≫= fun _ =>
  on_store Root (fs_fail A cause).

Definition metrics : V RepackedVfsMetrics := on_store Root fs_metrics.

Definition repack (reason : RepackReason) : V unit :=
  on_store Root (fs_repack reason) ≫= fun _ =>
  forM (fun '(index, _) => on_store (Mount index) (fs_repack reason)) (indexed mounts).

Fixpoint repackMounts (nowMs : option Z) (repacked : bool) (l : list (nat * ResolvedMount)) : V bool :=
  match l with
  | [] => mret repacked
  | (index, _) :: l =>
      r ← on_store (Mount index) (fs_runScheduledRepack nowMs);
      repackMounts nowMs (r || repacked) l
  end.

Definition runScheduledRepack (nowMs : option Z) : V bool :=
  repacked ← on_store Root (fs_runScheduledRepack nowMs);
  repackMounts nowMs repacked (indexed mounts).

(** [try { fs.close() } catch (cause) { firstError ??= cause; }] *)
Definition closeKeeping (fs : StoreRef) (firstError : option error) : V (option error) :=
  st_catch (on_store fs fs_close ≫= fun _ => mret firstError)
    (fun cause => mret (match firstError with None => Some cause | Some _ => firstError end)).

Fixpoint closeMounts (firstError : option error) (l : list (nat * ResolvedMount)) : V (option error) :=
  match l with
  | [] => mret firstError
  | (index, _) :: l => firstError ← closeKeeping (Mount index) firstError; closeMounts firstError l
  end.

Definition close : V unit :=
  set_descriptors (fun _ => ∅) ≫= fun _ =>
  firstError ← closeMounts None (indexed mounts);
  firstError ← closeKeeping Root firstError;
  st_lift (match firstError with Some cause => Throw cause | None => Ok tt end).

Definition closeFd (fd : Z) : V unit :=
  entry ← descriptor fd;
  set_descriptors (delete fd) ≫= fun _ =>
  on_store (desc_fs entry) (fs_closeFd (desc_fd entry)).

(** *** Path operations *)

(** Resolve, route and delegate. *)
Definition delegate {A} (path : jsstr) (follow : bool) (operation : jsstr -> M St A) : V A :=
  rt ← at_ path follow; on_store (route_fs rt) (operation (route_path rt)).

Definition stat (path : jsstr) : V RepackedStat := delegate path true fs_stat.
Definition lstat (path : jsstr) : V RepackedStat := delegate path false fs_lstat.
Definition symlink (target path : jsstr) (nowMs : Z) : V unit := delegate path false (fun path => fs_symlink target path nowMs).
Definition readlink (path : jsstr) : V jsstr := delegate path false fs_readlink.
Definition readdir (path : jsstr) : V (list jsstr) := delegate path true fs_readdir.
Definition mkdir (path : jsstr) (recursive : bool) (mode : option Z) (nowMs : Z) : V unit :=
  delegate path false (fun path => fs_mkdir path recursive mode nowMs).
Definition writeFile (path : jsstr) (data : FileData) (encoding : option jsstr) (mode : option Z) (flag : option jsstr)
  (nowMs : Z) : V unit := delegate path true (fun path => fs_writeFile path data encoding mode flag nowMs).
Definition readFile (path : jsstr) : V (list Z) := delegate path true fs_readFile.
Definition truncate (path : jsstr) (size nowMs : Z) : V unit := delegate path true (fun path => fs_truncate path size nowMs).
Definition chmod (path : jsstr) (mode nowMs : Z) : V unit := delegate path true (fun path => fs_chmod path mode nowMs).
Definition utimes (path : jsstr) (atimeMs mtimeMs ctimeMs : Z) : V unit :=
  delegate path true (fun path => fs_utimes path atimeMs mtimeMs ctimeMs).
Definition unlink (path : jsstr) (nowMs : Z) : V unit := delegate path false (fun path => fs_unlink path nowMs).
Definition rmdir (path : jsstr) (nowMs : Z) : V unit := delegate path false (fun path => fs_rmdir path nowMs).

Definition rename (oldPath newPath : jsstr) (nowMs : Z) : V unit :=
  source ← at_ oldPath false;
  destination ← at_ newPath false;
  st_lift (throw_if (negb (bool_decide (route_fs source = route_fs destination))) (FsError EXDEV)) ≫= fun _ =>
  on_store (route_fs source) (fs_rename (route_path source) (route_path destination) nowMs).

(** *** Descriptor operations *)

Definition open (path flags : jsstr) (mode nowMs : Z) : V Z :=
  rt ← at_ path true;
  inner ← on_store (route_fs rt) (fs_open (route_path rt) flags mode nowMs);
  t ← st_get;
  let fd := m_nextDescriptor t in
  st_modify (fun t => mkState (m_root t) (m_stores t) (<[fd := mkDescriptor (route_fs rt) inner]> (m_descriptors t)) (fd + 1))
    ≫= fun _ =>
  mret fd.

Definition fstat (fd : Z) : V RepackedStat := entry ← descriptor fd; on_store (desc_fs entry) (fs_fstat (desc_fd entry)).
Definition read (fd bufferLength offset len : Z) (position : option Z) : V (list Z) :=
  entry ← descriptor fd; on_store (desc_fs entry) (fs_read (desc_fd entry) bufferLength offset len position).
Definition write (fd : Z) (buffer : list Z) (offset len : Z) (position : option Z) (nowMs : Z) : V Z :=
  entry ← descriptor fd; on_store (desc_fs entry) (fs_write (desc_fd entry) buffer offset len position nowMs).

End Composite.
End Mounted.
