(* ===== verification/MountedLaws.v ===== *)
(** * Canonical absolute paths

    [parsePath] and the canonical form of a path are inverse to each other. *)

From S2P Require Export Walks Utf8 MountedVfs.

(** The canonical form of the path with the components [names]. *)
Definition abs (names : list jsstr) : jsstr := SLASH :: js_join names.

(** A component that can be joined and split again. *)
Definition plain (name : jsstr) : Prop := name <> [] /\ SLASH ∉ name.

Lemma component_plain name : component_ok name -> plain name.
Proof.
  intros [n Hn]. unfold validatePathComponent in Hn. apply bind_Ok in Hn as (u & H1%throw_if_Ok & Hn).
  apply bind_Ok in Hn as (u2 & H2%throw_if_Ok & _). apply orb_false_iff in H1 as [[H1 _]%orb_false_iff _].
  apply orb_false_iff in H2 as [H2 _]. split; by eapply bool_decide_eq_false.
Qed.

Lemma components_plain names : Forall component_ok names -> Forall plain names.
Proof. intros H. eapply Forall_impl; [exact H|]. apply component_plain. Qed.

(** ** Joining *)

Lemma js_join_cons name names : names <> [] -> js_join (name :: names) = name ++ SLASH :: js_join names.
Proof. by destruct names. Qed.

Lemma js_join_app a b : a <> [] -> b <> [] -> js_join (a ++ b) = js_join a ++ SLASH :: js_join b.
Proof.
  intros Ha Hb. induction a as [|x a IH]; [done|]. destruct a as [|y a].
  - cbn [app]. by rewrite js_join_cons.
  - change ((x :: y :: a) ++ b) with (x :: ((y :: a) ++ b)). rewrite !js_join_cons by done. rewrite IH by done.
    by rewrite <- app_assoc.
Qed.

Lemma js_join_nil names : Forall plain names -> js_join names = [] -> names = [].
Proof.
  destruct 1 as [|x l [Hx _] Hl]; [done|]. destruct l; [done|]. rewrite js_join_cons by done. by destruct x.
Qed.

Lemma abs_app a b : a <> [] -> b <> [] -> abs (a ++ b) = abs a ++ abs b.
Proof. intros Ha Hb. unfold abs. by rewrite js_join_app. Qed.

Lemma joinPath_abs a b : Forall plain a -> joinPath (abs a) b = abs (a ++ b).
Proof.
  intros Ha. unfold joinPath. destruct b as [|y b]; [by rewrite app_nil_r|]. destruct a as [|x a]; [done|].
  rewrite bool_decide_false; [by rewrite abs_app|]. intros E. by apply (inj (cons SLASH)), js_join_nil in E.
Qed.

(** ** Splitting *)

Lemma js_join_split s : js_join (js_split SLASH s) = s.
Proof.
  induction s as [|c s IH]; [done|]. cbn. destruct (c =? SLASH) eqn:E; propify.
  - subst. destruct (js_split SLASH s) eqn:Es; [by destruct s; cbn in Es; repeat case_match|]. by rewrite js_join_cons, IH.
  - destruct (js_split SLASH s) as [|w ws] eqn:Es; [cbn in *; by subst|]. destruct ws; cbn in *; [by subst|]. by rewrite IH.
Qed.

Lemma js_split_app name s : SLASH ∉ name -> js_split SLASH (name ++ SLASH :: s) = name :: js_split SLASH s.
Proof.
  induction name as [|c name IH]; intros Hn; [by cbn|]. apply not_elem_of_cons in Hn as [Hc Hn]. cbn.
  rewrite (proj2 (Z.eqb_neq c SLASH)) by done. by rewrite IH.
Qed.

Lemma js_split_one name : SLASH ∉ name -> js_split SLASH name = [name].
Proof.
  induction name as [|c name IH]; intros Hn; [done|]. apply not_elem_of_cons in Hn as [Hc Hn]. cbn.
  rewrite (proj2 (Z.eqb_neq c SLASH)) by done. by rewrite IH.
Qed.

Lemma js_split_join names : names <> [] -> Forall plain names -> js_split SLASH (js_join names) = names.
Proof.
  intros Hne Hp. induction Hp as [|x l [Hx Hs] Hl IH]; [done|]. destruct l as [|y l]; [by apply js_split_one|].
  rewrite js_join_cons by done. by rewrite js_split_app, IH.
Qed.

Lemma abs_inj a b : Forall plain a -> Forall plain b -> abs a = abs b -> a = b.
Proof.
  intros Ha Hb E. apply (inj (cons SLASH)) in E. destruct a as [|x a]; [by apply eq_sym, js_join_nil in E|].
  destruct b as [|y b]; [by apply js_join_nil in E|]. by rewrite <- (js_split_join (x :: a)), <- (js_split_join (y :: b)), E.
Qed.

(** ** The shape of a canonical path *)

Lemma last_join names : Forall plain names -> last (js_join names) <> Some SLASH.
Proof.
  induction 1 as [|x l [Hx Hs] Hl IH]; [done|]. destruct l as [|y l].
  - cbn. intros Hlast. apply Hs. by apply last_Some_elem_of.
  - rewrite js_join_cons by done. rewrite last_app, last_cons. destruct (last (js_join (y :: l))) as [c|] eqn:E; [done|].
    apply last_None in E. by apply js_join_nil in E.
Qed.

Lemma no_double_slash name s : SLASH ∉ name -> head s <> Some SLASH ->
  has_double_slash s = false -> has_double_slash (name ++ SLASH :: s) = false.
Proof.
  intros Hn Hh Hs. induction name as [|c name IH].
  - destruct s as [|d s]; [done|]. cbn [app]. change ((SLASH =? SLASH) && (d =? SLASH) || has_double_slash (d :: s) = false).
    rewrite Hs, (proj2 (Z.eqb_neq d SLASH)) by (intros ->; by apply Hh). done.
  - apply not_elem_of_cons in Hn as [Hc Hn]. destruct name as [|d name].
    + change ((c =? SLASH) && (SLASH =? SLASH) || has_double_slash ([] ++ SLASH :: s) = false).
      by rewrite IH, (proj2 (Z.eqb_neq c SLASH)) by done.
    + change ((c =? SLASH) && (d =? SLASH) || has_double_slash ((d :: name) ++ SLASH :: s) = false).
      by rewrite IH, (proj2 (Z.eqb_neq c SLASH)) by done.
Qed.

Lemma plain_no_double name : SLASH ∉ name -> has_double_slash name = false.
Proof.
  induction name as [|c name IH]; intros Hn; [done|]. apply not_elem_of_cons in Hn as [Hc Hn]. destruct name as [|d name]; [done|].
  change ((c =? SLASH) && (d =? SLASH) || has_double_slash (d :: name) = false). by rewrite IH, (proj2 (Z.eqb_neq c SLASH)) by done.
Qed.

Lemma head_join names : Forall plain names -> head (js_join names) <> Some SLASH.
Proof.
  destruct 1 as [|x l [Hx Hs] Hl]; [done|]. destruct x as [|c x]; [done|]. apply not_elem_of_cons in Hs as [Hc _].
  destruct l; cbn; congruence.
Qed.

Lemma join_no_double names : Forall plain names -> has_double_slash (js_join names) = false.
Proof.
  induction 1 as [|x l [Hx Hs] Hl IH]; [done|]. destruct l as [|y l]; [by apply plain_no_double|].
  rewrite js_join_cons by done. apply no_double_slash; [done|by apply head_join|done].
Qed.

Lemma abs_no_double names : Forall plain names -> has_double_slash (abs names) = false.
Proof. intros Hp. apply (no_double_slash []); [set_solver|by apply head_join|by apply join_no_double]. Qed.

(** ** The length of a path *)

Lemma utf8Length_from_app x y b k : utf8Length_from x b = Ok k -> utf8Length_from (x ++ y) b = utf8Length_from y k.
Proof.
  revert b. induction x as [x IH] using (induction_ltof1 _ length). intros b.
  unfold ltof in IH. destruct x as [|c x]; cbn [app utf8Length_from]; [by intros [= ->]|].
  destruct (c <=? 0x7f); [apply IH; cbn; lia|]. destruct (c <=? 0x7ff); [apply IH; cbn; lia|].
  destruct (_ && _); [|destruct (_ && _); [done|apply IH; cbn; lia]].
  destruct x as [|next x]; [done|]. cbn [app]. destruct (_ || _); [done|]. apply IH. cbn. lia.
Qed.

Lemma utf8Length_from_le x b k : utf8Length_from x b = Ok k -> b <= k.
Proof.
  revert b. induction x as [x IH] using (induction_ltof1 _ length). unfold ltof in IH. intros b.
  assert (Hstep : forall s d, (length s < length x)%nat -> 0 <= d -> utf8Length_from s (b + d) = Ok k -> b <= k)
    by (intros s d Hs Hd Hk; apply IH in Hk; [lia|done]).
  destruct x as [|c x]; cbn [utf8Length_from]; [intros [= ->]; lia|].
  destruct (c <=? 0x7f); [apply Hstep; cbn; lia|]. destruct (c <=? 0x7ff); [apply Hstep; cbn; lia|].
  destruct (_ && _); [|destruct (_ && _); [done|apply Hstep; cbn; lia]].
  destruct x as [|next x]; [done|]. destruct (_ || _); [done|]. apply Hstep; cbn; lia.
Qed.

Lemma ulen_nonneg name : 0 <= ulen name.
Proof. unfold ulen. destruct (utf8Length name) eqn:E; cbn; [by apply utf8Length_from_le in E|done]. Qed.

Lemma utf8Length_ok name : component_ok name -> utf8Length name = Ok (ulen name).
Proof.
  intros [n Hn]. unfold validatePathComponent in Hn. apply bind_Ok in Hn as (u & _ & Hn). apply bind_Ok in Hn as (u2 & _ & Hn).
  apply bind_Ok in Hn as (k & Hk & _). by rewrite <- (utf8Length_ulen name k Hk).
Qed.

Lemma utf8Length_join names b : Forall component_ok names ->
  utf8Length_from (js_join names) b = Ok (b + foldr (fun n acc => ulen n + acc) 0 names + Z.max 0 (Z.of_nat (length names) - 1)).
Proof.
  intros Hn. revert b. induction Hn as [|x l Hx Hl IH]; intros b; [cbn; f_equal; lia|].
  pose proof (utf8Length_from_shift x 0 _ b (utf8Length_ok x Hx)) as E. rewrite Z.add_0_l in E.
  destruct l as [|y l]; [cbn [js_join foldr length]; rewrite E; f_equal; lia|].
  rewrite js_join_cons by done. rewrite (utf8Length_from_app _ _ _ _ E).
  change (utf8Length_from (SLASH :: js_join (y :: l)) (ulen x + b)) with (utf8Length_from (js_join (y :: l)) (ulen x + b + 1)).
  rewrite IH. f_equal. cbn [foldr length]. lia.
Qed.

Lemma utf8Length_abs names : Forall component_ok names -> utf8Length (abs names) = Ok (bytes (metrics names)).
Proof. intros Hn. change (utf8Length (abs names)) with (utf8Length_from (js_join names) 1). by rewrite utf8Length_join. Qed.

(** ** Parsing *)

Lemma parsePath_abs names : Forall component_ok names -> path_ok names -> parsePath (abs names) = Ok names.
Proof.
  intros Hn [Hd Hb]. pose proof (components_plain names Hn) as Hp. unfold parsePath. destruct names as [|x l]; [done|].
  set (names := x :: l) in *. assert (Hne : names <> []) by done. clearbody names.
  rewrite bool_decide_false by (intros E; apply (inj (cons SLASH)) in E; by apply js_join_nil in E).
  assert (Hlast : last (abs names) <> Some SLASH).
  { unfold abs. rewrite last_cons. pose proof (last_join names Hp) as H. destruct (last (js_join names)) eqn:E; [done|].
    apply last_None in E. by apply js_join_nil in E. }
  rewrite (bool_decide_true (head (abs names) = Some SLASH)), (bool_decide_false _ Hlast), abs_no_double by done.
  cbn [negb orb throw_if mbind result_bind]. rewrite utf8Length_abs by done. cbn [mbind result_bind].
  rewrite (proj2 (Z.ltb_ge MAX_PATH_BYTES _)) by done. cbn [throw_if mbind result_bind tail abs].
  rewrite js_split_join by done. cbn [metrics depth] in Hd. rewrite (proj2 (Z.ltb_ge MAX_PATH_DEPTH _)) by done. cbn [throw_if mbind result_bind].
  assert (Hv : exists ks, mapR validatePathComponent names = Ok ks).
  { clear -Hn. induction Hn as [|y l [n Hy] Hl [ks IH]]; [by exists []|]. exists (n :: ks). cbn. by rewrite Hy, IH. }
  destruct Hv as [ks ->]. done.
Qed.

Lemma parsePath_Ok path names : parsePath path = Ok names -> path = abs names /\ Forall component_ok names /\ path_ok names.
Proof.
  unfold parsePath. case_bool_decide as Er; [intros [= <-]; subst; split; [done|]; split; [done|unfold path_ok; cbn; ll]|].
  intros Hp. apply bind_Ok in Hp as (u & Hh%throw_if_Ok & Hp). apply bind_Ok in Hp as (n & Hn & Hp).
  apply bind_Ok in Hp as (u2 & Hb%throw_if_Ok & Hp). apply bind_Ok in Hp as (u3 & Hd%throw_if_Ok & Hp).
  apply bind_Ok in Hp as (ks & Hk%mapR_Ok & [= <-]).
  apply orb_false_iff in Hh as [[Hh _]%orb_false_iff _]. apply negb_false_iff, bool_decide_eq_true in Hh.
  destruct path as [|c path]; [done|]. injection Hh as ->. cbn [tail] in *.
  assert (Hc : Forall component_ok (js_split SLASH path)).
  { clear -Hk. induction Hk as [|x k l ks Hx Hl IH]; constructor; [by exists k|done]. }
  assert (E : SLASH :: path = abs (js_split SLASH path)) by (unfold abs; by rewrite js_join_split).
  split; [done|]. split; [done|]. propify. unfold path_ok. split; [done|].
  rewrite E, utf8Length_abs in Hn by done. injection Hn as <-. done.
Qed.

Lemma path_ok_prefix a b : path_ok (a ++ b) -> path_ok a.
Proof.
  intros [Hd Hb]. unfold path_ok, metrics in *. cbn [depth bytes] in *. rewrite foldr_ulen_app, length_app in *.
  assert (0 <= foldr (fun n acc => ulen n + acc) 0 b) by (clear; induction b as [|x b IH]; cbn; [lia|pose proof (ulen_nonneg x); lia]).
  lia.
Qed.

Lemma path_ok_suffix a b : path_ok (a ++ b) -> path_ok b.
Proof.
  intros [Hd Hb]. unfold path_ok, metrics in *. cbn [depth bytes] in *. rewrite foldr_ulen_app, length_app in *.
  assert (0 <= foldr (fun n acc => ulen n + acc) 0 a) by (clear; induction a as [|x a IH]; cbn; [lia|pose proof (ulen_nonneg x); lia]).
  lia.
Qed.

(** ** The composite file system: routing and resolution

    Routes on components, what a lawful store promises about its links, and the walk across the stores. *)

(** ** What a store promises

    Its queries change nothing, and a path it reports unchanged holds no link. *)

Section Clear.
Context {St : Type} `{FileSystem St}.

(** The entry at [names] is missing, or is there, and no link when [strict]. *)
Definition clear (strict : bool) (names : list jsstr) (s : St) : Prop :=
  match (fs_lstat (abs names) s).2 with
  | Ok st => strict = true -> st_kind st <> KindSymlink
  | Throw cause => Mounted.isMissing cause = true
  end.

(** No proper ancestor of [names] is a link, nor is [names] itself when links are followed. *)
Definition link_free (follow : bool) (names : list jsstr) (s : St) : Prop :=
  forall pre post, names = pre ++ post -> clear (follow || negb (bool_decide (post = []))) pre s.
End Clear.

Class LawfulFileSystem (St : Type) `{FileSystem St} : Type := {
  fs_ok : St -> Prop;
  lstat_pure : forall path s s' r, fs_ok s -> fs_lstat path s = (s', r) -> s' = s;
  readlink_pure : forall path s s' r, fs_ok s -> fs_readlink path s = (s', r) -> s' = s;
  resolve_pure : forall path follow s s' r, fs_ok s -> fs_resolvePath path follow s = (s', r) -> s' = s;
  resolved_free : forall names follow s s', fs_ok s -> Forall component_ok names -> path_ok names ->
    fs_resolvePath (abs names) follow s = (s', Ok (abs names)) -> link_free follow names s
}.

Module MountedLaws.
Import Mounted.

(** ** The mount table *)

(** The mount [m] appears at [pn]. *)
Record mount_at (m : ResolvedMount) (pn : list jsstr) : Prop := {
  ma_prefix : prefix m = abs pn;
  ma_boundary : boundary m = abs pn ++ [SLASH];
  ma_names : Forall component_ok pn;
  ma_path : path_ok pn;
  ma_below : pn <> []
}.

(** Every mount is at a path below the root, and none is at or below another. *)
Record table_ok (mounts : list ResolvedMount) : Prop := {
  to_mount : forall i m, mounts !! i = Some m -> exists pn, mount_at m pn;
  to_disjoint : forall i j m m' pn pn', mounts !! i = Some m -> mounts !! j = Some m' -> mount_at m pn -> mount_at m' pn' ->
    pn `prefix_of` pn' -> i = j
}.

Lemma mount_at_plain m pn : mount_at m pn -> Forall plain pn.
Proof. intros [_ _ Hn _ _]. by apply components_plain. Qed.

Lemma mount_at_inj m pn pn' : mount_at m pn -> mount_at m pn' -> pn = pn'.
Proof. intros M M'. apply abs_inj; [by eapply mount_at_plain..|]. by rewrite <- (ma_prefix _ _ M), <- (ma_prefix _ _ M'). Qed.

(** *** Prefixes of paths *)

Lemma split_joined p s : p <> [] -> Forall plain p -> js_split SLASH (js_join p ++ SLASH :: s) = p ++ js_split SLASH s.
Proof.
  intros Hne Hp. induction Hp as [|x l [Hx Hs] Hl IH]; [done|]. destruct l as [|y l]; [by apply js_split_app|].
  rewrite js_join_cons by done. rewrite <- app_assoc. cbn [app]. rewrite js_split_app, IH by done. done.
Qed.

Lemma js_split_not_nil s : js_split SLASH s <> [].
Proof. destruct s as [|c s]; cbn; [done|]. by repeat case_match. Qed.

Lemma startsWith_spec p a : p <> [] -> Forall plain p -> Forall plain a ->
  startsWith (abs a) (abs p ++ [SLASH]) = true <-> exists r, r <> [] /\ a = p ++ r.
Proof.
  intros Hp Hpl Ha. unfold startsWith. rewrite bool_decide_eq_true. split.
  - intros Ht. assert (E : abs a = abs p ++ SLASH :: drop (length (abs p ++ [SLASH])) (abs a))
      by (rewrite <- (take_drop (length (abs p ++ [SLASH])) (abs a)) at 1; rewrite Ht, <- app_assoc; done).
    set (s := drop _ _) in E. clearbody s. apply (inj (cons SLASH)) in E. exists (js_split SLASH s). split; [apply js_split_not_nil|].
    rewrite <- (split_joined p s Hp Hpl). change (js_join a = js_join p ++ SLASH :: s) in E. rewrite <- E.
    symmetry. apply js_split_join; [|done]. intros ->. by destruct (js_join p).
  - intros (r & Hr & ->). rewrite abs_app by done. unfold abs at 2. rewrite length_app. cbn [length].
    rewrite take_app_add. cbn. done.
Qed.

Lemma startsWith_false p a : p <> [] -> Forall plain p -> Forall plain a -> ~ p `prefix_of` a -> startsWith (abs a) (abs p ++ [SLASH]) = false.
Proof.
  intros Hp Hpl Ha Hn. apply not_true_is_false. rewrite startsWith_spec by done. intros (r & _ & ->). by apply Hn, prefix_app_r.
Qed.

(** *** Building the table *)

Lemma overlaps_false p q : p <> [] -> q <> [] -> Forall plain p -> Forall plain q -> overlaps (abs p) (abs q) = false ->
  ~ p `prefix_of` q /\ ~ q `prefix_of` p.
Proof.
  intros Hp Hq Hpp Hqp Ho. apply orb_false_iff in Ho as [[He H1]%orb_false_iff H2]. apply bool_decide_eq_false in He.
  assert (Hone : forall a b, a <> [] -> Forall plain a -> Forall plain b -> abs a <> abs b -> startsWith (abs b) (abs a ++ [SLASH]) = false ->
    ~ a `prefix_of` b).
  { intros a b Hna Ha Hb Hab Hs [r ->]. destruct r as [|x r]; [by rewrite app_nil_r in Hab|].
    rewrite (proj2 (startsWith_spec a (a ++ x :: r) Hna Ha Hb)) in Hs; [done|]. by exists (x :: r). }
  split; apply Hone; congruence.
Qed.

Lemma addMount_ok mounts spec mounts' : table_ok mounts -> addMount mounts spec = Ok mounts' ->
  table_ok mounts' /\ exists m, mounts' = mounts ++ [m] /\ prefix m = spec.1.
Proof.
  intros [Hm Hd] Ha. unfold addMount in Ha. apply bind_Ok in Ha as (pn & Hpn & Ha). apply bind_Ok in Ha as (u & Hne%throw_if_Ok & Ha).
  apply bind_Ok in Ha as (u2 & Hov & [= <-]). apply bool_decide_eq_false in Hne.
  apply parsePath_Ok in Hpn as (Hp & Hc & Hk). set (m := mkMount _ _ _).
  assert (Mm : mount_at m pn) by (split; [done|unfold m; cbn; by rewrite Hp|done|done|done]).
  assert (Hnew : forall i m' pn', mounts !! i = Some m' -> mount_at m' pn' -> ~ pn' `prefix_of` pn /\ ~ pn `prefix_of` pn').
  { intros i m' pn' Hi M'. apply overlaps_false; [apply M'|done|by eapply mount_at_plain|by eapply mount_at_plain|].
    clear -Hov Hi M' Hp. revert i Hi. assert (Hgen : forall l u, foldM (fun _ existing => throw_if (overlaps (prefix existing) spec.1) (FsError EINVAL)) u l = Ok u2 ->
      forall x, x ∈ l -> overlaps (prefix x) spec.1 = false).
    { induction l as [|x l IH]; intros u Hf y Hy; [by apply elem_of_nil in Hy|]. cbn in Hf.
      apply bind_Ok in Hf as (u' & Hx%throw_if_Ok & Hf). apply elem_of_cons in Hy as [->|Hy]; [done|by eapply IH]. }
    intros i Hi. rewrite <- Hp, <- (ma_prefix _ _ M'). eapply Hgen; [exact Hov|]. by eapply list_elem_of_lookup_2. }
  split; [|by exists m]. split.
  - intros i m' Hi. apply lookup_app_Some in Hi as [Hi|[_ Hi]]; [by eapply Hm|]. apply list_lookup_singleton_Some in Hi as [_ <-]. by exists pn.
  - intros i j m1 m2 p1 p2 Hi Hj M1 M2 Hpre.
    apply lookup_app_Some in Hi as [Hi|[Hil Hi]]; apply lookup_app_Some in Hj as [Hj|[Hjl Hj]].
    + by eapply Hd.
    + apply list_lookup_singleton_Some in Hj as [_ <-]. rewrite (mount_at_inj _ _ _ M2 Mm) in Hpre. by destruct (Hnew _ _ _ Hi M1).
    + apply list_lookup_singleton_Some in Hi as [_ <-]. rewrite (mount_at_inj _ _ _ M1 Mm) in Hpre. by destruct (Hnew _ _ _ Hj M2).
    + apply list_lookup_singleton_Some in Hi as [Hi _], Hj as [Hj _]. lia.
Qed.

Lemma mountTable_ok specs mounts : mountTable specs = Ok mounts -> table_ok mounts /\ prefix <$> mounts = specs.*1.
Proof.
  unfold mountTable. assert (Hgen : forall done_, table_ok done_ -> foldM addMount done_ specs = Ok mounts ->
    table_ok mounts /\ prefix <$> mounts = (prefix <$> done_) ++ specs.*1).
  { induction specs as [|spec specs IH]; intros d Hd Hf; cbn in Hf; [injection Hf as <-; by rewrite app_nil_r|].
    apply bind_Ok in Hf as (d' & Ha & Hf). destruct (addMount_ok d spec d' Hd Ha) as (Hd' & m & -> & Hp).
    destruct (IH _ Hd' Hf) as [Ht ->]. split; [done|]. rewrite fmap_app, <- app_assoc. cbn. by rewrite Hp. }
  apply (Hgen []). split; intros *; by rewrite lookup_nil.
Qed.

(** ** Routing *)

(** The mount that serves [names], and the names below it. *)
Definition claims (mounts : list ResolvedMount) (index : nat) (pn names : list jsstr) : Prop :=
  exists m, mounts !! index = Some m /\ mount_at m pn /\ pn `prefix_of` names.

Lemma routeFrom_claimed k mounts index pn below : table_ok mounts -> Forall plain (pn ++ below) ->
  claims mounts index pn (pn ++ below) -> routeFrom k mounts (abs (pn ++ below)) = mkRoute (Mount (k + index)) (abs below).
Proof.
  revert k index. induction mounts as [|m mounts IH]; intros k index T Hpl (m' & Hi & M & Hpre); [by rewrite lookup_nil in Hi|].
  cbn [routeFrom]. destruct index as [|index].
  - injection Hi as ->. destruct M as [Hp Hb _ _ Hne]. rewrite Hp, Hb, Nat.add_0_r. destruct below as [|x below].
    + by rewrite app_nil_r, bool_decide_true.
    + pose proof (proj1 (Forall_app _ _ _) Hpl) as [Hpl1 Hpl2]. rewrite bool_decide_false.
      2:{ intros E. apply abs_inj in E; [|done|done]. apply (f_equal length) in E. rewrite length_app in E. cbn in E. lia. }
      rewrite (proj2 (startsWith_spec pn _ Hne Hpl1 Hpl)) by (by exists (x :: below)).
      rewrite abs_app by done. by rewrite drop_app_length.
  - assert (Hm : ~ exists p, mount_at m p /\ p `prefix_of` pn ++ below).
    { intros (p & Mp & Hpp). destruct (prefix_weak_total _ _ _ Hpp Hpre) as [H|H].
      - by pose proof (to_disjoint _ T 0%nat (S index) m m' p pn eq_refl Hi Mp M H).
      - by pose proof (to_disjoint _ T (S index) 0%nat m' m pn p Hi eq_refl M Mp H). }
    destruct (to_mount _ T 0%nat m eq_refl) as [p Mp]. destruct Mp as [Hp Hb Hc Hk Hne]. rewrite Hp, Hb.
    assert (Hnp : ~ p `prefix_of` pn ++ below) by (intros ?; apply Hm; exists p; split; [by split|done]).
    rewrite bool_decide_false; [|intros E; apply Hnp; apply abs_inj in E; [by rewrite E|done|by apply components_plain]].
    rewrite startsWith_false by first [done | by apply components_plain].
    replace (k + S index)%nat with (S k + index)%nat by lia. apply IH; [|done|by exists m'].
    split; [intros i; apply (to_mount _ T (S i))|]. intros i j m1 m2 p1 p2 H1 H2 M1 M2 H3.
    by injection (to_disjoint _ T (S i) (S j) m1 m2 p1 p2 H1 H2 M1 M2 H3).
Qed.

Lemma routeFrom_root k mounts names : table_ok mounts -> Forall plain names -> (forall index pn, ~ claims mounts index pn names) ->
  routeFrom k mounts (abs names) = mkRoute Root (abs names).
Proof.
  revert k. induction mounts as [|m mounts IH]; intros k T Hpl Hn; [done|]. cbn [routeFrom].
  destruct (to_mount _ T 0%nat m eq_refl) as [p Mp].
  assert (Hnp : ~ p `prefix_of` names) by (intros Hpre; apply (Hn 0%nat p); by exists m).
  rewrite (ma_prefix _ _ Mp), (ma_boundary _ _ Mp).
  rewrite bool_decide_false; [|intros E; apply Hnp; apply abs_inj in E; [by rewrite E|done|by eapply mount_at_plain]].
  rewrite startsWith_false by first [done | by eapply mount_at_plain | apply Mp].
  apply IH; [|done|].
  - split; [intros i; apply (to_mount _ T (S i))|]. intros i j m1 m2 p1 p2 H1 H2 M1 M2 H3.
    by injection (to_disjoint _ T (S i) (S j) m1 m2 p1 p2 H1 H2 M1 M2 H3).
  - intros i pn (m' & Hi & Hc). apply (Hn (S i) pn). by exists m'.
Qed.

Lemma claims_dec mounts names : table_ok mounts ->
  (exists index pn, claims mounts index pn names) \/ (forall index pn, ~ claims mounts index pn names).
Proof.
  intros T. destruct (decide (Exists (fun m => from_ok [] (parsePath (prefix m)) `prefix_of` names) mounts)) as [He|Hn].
  - left. apply Exists_exists in He as (m & (i & Hi)%list_elem_of_lookup & Hp). destruct (to_mount _ T i m Hi) as [pn M].
    exists i, pn, m. split; [done|]. split; [done|]. destruct M as [Hpn _ Hc Hk _]. rewrite Hpn, parsePath_abs in Hp by done. done.
  - right. intros i pn (m & Hi & M & Hp). apply Hn, Exists_exists. exists m. split; [by eapply list_elem_of_lookup_2|].
    destruct M as [Hpn _ Hc Hk _]. rewrite Hpn, parsePath_abs by done. done.
Qed.

Lemma claims_unique mounts i j pn pn' names : table_ok mounts -> claims mounts i pn names -> claims mounts j pn' names -> i = j /\ pn = pn'.
Proof.
  intros T (m & Hi & M & Hp) (m' & Hj & M' & Hp').
  assert (E : i = j) by (destruct (prefix_weak_total _ _ _ Hp Hp') as [H|H];
    [exact (to_disjoint _ T i j m m' pn pn' Hi Hj M M' H)|symmetry; exact (to_disjoint _ T j i m' m pn' pn Hj Hi M' M H)]).
  split; [done|]. subst. rewrite Hi in Hj. injection Hj as ->. by eapply mount_at_inj.
Qed.

(** ** Resolution *)

Section Walk.
Context {St : Type} `{LawfulFileSystem St} (mounts : list ResolvedMount) (T : table_ok mounts).
Implicit Types t : State St.

Record state_ok t : Prop := {
  so_root : fs_ok (m_root t);
  so_stores : Forall fs_ok (m_stores t);
  so_length : length (m_stores t) = length mounts
}.

(** The store behind a reference. *)
Definition store t (fs : StoreRef) : option St := match fs with Root => Some (m_root t) | Mount i => m_stores t !! i end.

Lemma store_ok t fs s : state_ok t -> store t fs = Some s -> fs_ok s.
Proof. intros [Hr Hs _] Hst. destruct fs; cbn in Hst; [by injection Hst as <-|]. by eapply Forall_lookup_1. Qed.

Lemma on_store_pure {A} t fs s (m : M St A) r : store t fs = Some s -> m s = (s, r) -> on_store fs m t = (t, r).
Proof.
  intros Hs Hm. destruct t as [root stores ds next]. destruct fs as [|i]; cbn in *.
  - injection Hs as <-. by rewrite Hm.
  - rewrite Hs, Hm. by rewrite list_insert_id.
Qed.

(** The entry at [names] of the composite. *)
Definition clear_at t (strict : bool) (names : list jsstr) : Prop :=
  let rt := routeFrom 0 mounts (abs names) in
  exists s below, store t (route_fs rt) = Some s /\ route_path rt = abs below /\ clear strict below s.

Lemma route_ok names : Forall component_ok names -> path_ok names -> route mounts (abs names) = Ok (routeFrom 0 mounts (abs names)).
Proof. intros Hc Hp. unfold route. by rewrite parsePath_abs. Qed.

Lemma walkStores_clear follow rest resolved t : state_ok t -> Forall component_ok (resolved ++ rest) -> path_ok (resolved ++ rest) ->
  (forall pre post, rest = pre ++ post -> pre <> [] -> clear_at t (follow || negb (bool_decide (post = []))) (resolved ++ pre)) ->
  exists r1 r2, walkStores mounts follow resolved rest t = (t, Ok (Done r1 r2)) /\ r1 ++ r2 = resolved ++ rest.
Proof.
  revert resolved. induction rest as [|name rest IH]; intros resolved Ok_ Hc Hp Hclear; cbn [walkStores].
  - exists resolved, []. by split.
  - assert (Hres : Forall plain resolved) by (apply components_plain; by apply Forall_app in Hc as [? _]).
    change (SLASH :: js_join resolved) with (abs resolved). rewrite joinPath_abs by done.
    assert (Hc1 : Forall component_ok (resolved ++ [name])) by (rewrite cons_middle, app_assoc in Hc; by apply Forall_app in Hc as [? _]).
    assert (Hp1 : path_ok (resolved ++ [name])) by (rewrite cons_middle, app_assoc in Hp; by eapply path_ok_prefix).
    rewrite route_ok, st_bind_lift by done.
    destruct (Hclear [name] rest) as (s & below & Hs & Hb & Hcl); [done|done|]. set (rt := routeFrom 0 mounts _) in *.
    unfold clear in Hcl. rewrite Hb. destruct (fs_lstat (abs below) s) as [s' r] eqn:El.
    pose proof (lstat_pure _ _ _ _ (store_ok _ _ _ Ok_ Hs) El) as ->. cbn [snd] in Hcl.
    unfold st_catch at 1. unfold mbind at 1 2, ST_bind at 1 2. rewrite (on_store_pure _ _ _ _ _ Hs El).
    destruct r as [st|cause]; cbn.
    + assert (Hnext : exists r1 r2, walkStores mounts follow (resolved ++ [name]) rest t = (t, Ok (Done r1 r2)) /\ r1 ++ r2 = resolved ++ name :: rest).
      { destruct (IH (resolved ++ [name])) as (r1 & r2 & Hw & E); [done|by rewrite <- app_assoc|by rewrite <- app_assoc| |].
        - intros pre post -> Hpre. rewrite <- app_assoc. apply (Hclear (name :: pre) post); done.
        - exists r1, r2. split; [done|]. by rewrite E, <- app_assoc. }
      destruct (st_kind st) eqn:Ek; try done.
      destruct (follow || negb (bool_decide (rest = []))) eqn:Ef; [by destruct (Hcl eq_refl)|done].
    + rewrite Hcl. exists resolved, (name :: rest). by split.
Qed.

(** The walk on a path that holds no link. *)
Lemma walk_clear names follow t : state_ok t -> Forall component_ok names -> path_ok names ->
  (forall pre post, names = pre ++ post -> pre <> [] -> clear_at t (follow || negb (bool_decide (post = []))) pre) ->
  walk mounts (abs names) follow t = (t, Ok (abs names)).
Proof.
  intros Ok_ Hc Hp Hclear. unfold walk. rewrite parsePath_abs, st_bind_lift by done.
  destruct (walkStores_clear follow names [] t Ok_ Hc Hp) as (r1 & r2 & Hw & E); [exact Hclear|].
  destruct (Z.to_nat MAX_SYMLINK_HOPS) eqn:Eb; cbn [walkFrom]; rewrite (st_bind_run _ _ _ _ _ Hw);
    change (SLASH :: js_join r1) with (abs r1); rewrite joinPath_abs, E; try done;
    apply components_plain; cbn in E; rewrite <- E in Hc; by apply Forall_app in Hc as [? _].
Qed.

(** The directories above the mounts are no links. *)
Definition anchored t : Prop := forall i m pn pre post, mounts !! i = Some m -> mount_at m pn -> pn = pre ++ post ->
  pre <> [] -> post <> [] -> clear true pre (m_root t).

Lemma clear_weaken strict names (s : St) : clear true names s -> clear strict names s.
Proof. unfold clear. destruct (fs_lstat _ s) as [s' [st|e]]; cbn; auto. Qed.

Lemma clear_routed names follow t s below : state_ok t -> anchored t -> Forall component_ok names ->
  store t (route_fs (routeFrom 0 mounts (abs names))) = Some s -> route_path (routeFrom 0 mounts (abs names)) = abs below ->
  Forall plain below -> link_free follow below s ->
  forall pre post, names = pre ++ post -> pre <> [] -> clear_at t (follow || negb (bool_decide (post = []))) pre.
Proof.
  intros Ok_ Ha Hc Hs Hb Hbp Hfree pre post -> Hpre. pose proof (components_plain _ Hc) as Hpl.
  pose proof (proj1 (Forall_app _ _ _) Hpl) as [Hpl1 Hpl2].
  destruct (claims_dec mounts (pre ++ post) T) as [(i & pn & Hcl)|Hno].
  - pose proof Hcl as (m & Hi & M & [below' E]).
    assert (Er : routeFrom 0 mounts (abs (pre ++ post)) = mkRoute (Mount i) (abs below'))
      by (rewrite E; apply (routeFrom_claimed 0 mounts i pn below'); [done|by rewrite <- E|by rewrite <- E]).
    rewrite Er in Hs, Hb. cbn in Hs, Hb.
    assert (Eb : below = below').
    { apply abs_inj; [done| |by symmetry]. rewrite E in Hpl. by apply Forall_app in Hpl as [_ ?]. }
    subst below'. destruct (decide (pn `prefix_of` pre)) as [[q Hq]|Hn].
    + exists s, q. assert (Er' : routeFrom 0 mounts (abs pre) = mkRoute (Mount i) (abs q)).
      { rewrite Hq. apply (routeFrom_claimed 0 mounts i pn q); [done|by rewrite <- Hq|]. exists m. split; [done|]. split; [done|]. by apply prefix_app_r. }
      rewrite Er'. split; [done|]. split; [done|]. apply Hfree. rewrite Hq, <- app_assoc in E. by apply app_inv_head in E.
    + assert (Hno : forall j p, ~ claims mounts j p pre).
      { intros j p Hj. assert (Hj' : claims mounts j p (pre ++ post)) by (destruct Hj as (mj & ? & ? & ?); exists mj; split; [done|split; [done|by apply prefix_app_r_alt || (etrans; [done|by apply prefix_app_r])]]).
        destruct (claims_unique mounts i j pn p _ T Hcl Hj') as [<- <-]. by destruct Hj as (_ & _ & _ & ?). }
      exists (m_root t), pre. rewrite routeFrom_root by done. split; [done|]. split; [done|]. apply clear_weaken.
      assert (Hpp : pre `prefix_of` pn).
      { destruct (prefix_weak_total pn pre (pre ++ post)) as [?|?]; [by exists below|by apply prefix_app_r|done|done]. }
      destruct Hpp as [r ->]. apply (Ha i m (pre ++ r) pre r); try done. intros ->. apply Hn. by rewrite app_nil_r.
  - rewrite routeFrom_root in Hs, Hb by done. cbn in Hs, Hb.
    assert (Eb : below = pre ++ post) by (apply abs_inj; [done|done|by symmetry]). subst below.
    exists s, pre. rewrite routeFrom_root; [|done|done|].
    + split; [done|]. split; [done|]. by apply Hfree.
    + intros j p (mj & ? & ? & ?). apply (Hno j p). exists mj. split; [done|]. split; [done|]. etrans; [done|]. by apply prefix_app_r.
Qed.

(** *** Resolution changes no store *)

Lemma on_store_quiet {A} t t' fs (m : M St A) r : (forall s s' r, store t fs = Some s -> m s = (s', r) -> s' = s) ->
  on_store fs m t = (t', r) -> t' = t.
Proof.
  intros Hm. destruct t as [root stores ds next]. destruct fs as [|i]; cbn in *.
  - destruct (m root) as [s r'] eqn:E. rewrite (Hm _ _ _ eq_refl E). by intros [= <- _].
  - destruct (stores !! i) as [s|] eqn:Es; [|by intros [= <- _]]. destruct (m s) as [s' r'] eqn:E.
    rewrite (Hm _ _ _ eq_refl E), list_insert_id by done. by intros [= <- _].
Qed.

Lemma lstat_quiet t t' fs path r : state_ok t -> on_store fs (fs_lstat path) t = (t', r) -> t' = t.
Proof. intros Ok_. apply on_store_quiet. intros s s' r' Hs. apply lstat_pure. by eapply store_ok. Qed.
Lemma readlink_quiet t t' fs path r : state_ok t -> on_store fs (fs_readlink path) t = (t', r) -> t' = t.
Proof. intros Ok_. apply on_store_quiet. intros s s' r' Hs. apply readlink_pure. by eapply store_ok. Qed.
Lemma resolve_quiet t t' fs path follow r : state_ok t -> on_store fs (fs_resolvePath path follow) t = (t', r) -> t' = t.
Proof. intros Ok_. apply on_store_quiet. intros s s' r' Hs. apply resolve_pure. by eapply store_ok. Qed.

Lemma bind_quiet {A B} (m : M (State St) A) (k : A -> M (State St) B) t t' r : (m ≫= k) t = (t', r) ->
  (forall t1 a, m t = (t1, a) -> t1 = t) -> (forall a t2 b, k a t = (t2, b) -> t2 = t) -> t' = t.
Proof.
  unfold mbind, ST_bind. destruct (m t) as [t1 [a|e]] eqn:E; intros Hr Hm Hk; rewrite (Hm _ _ eq_refl) in Hr; [by eapply Hk|].
  by injection Hr as <- _.
Qed.

Lemma walkStores_quiet follow rest resolved t t' r : state_ok t -> walkStores mounts follow resolved rest t = (t', r) -> t' = t.
Proof.
  intros Ok_. revert resolved r t'. induction rest as [|name rest IH]; intros resolved r t'; cbn [walkStores]; [by intros [= <- _]|].
  rewrite st_bind_lift. destruct (route _ _) as [rt|e]; [|by intros [= <- _]]. intros Hr.
  apply (bind_quiet _ _ _ _ _ Hr).
  - clear Hr. intros t1 a. unfold st_catch, mbind, ST_bind. destruct (on_store _ _ t) as [t2 [st|e]] eqn:E;
      apply lstat_quiet in E as ->; try done; [by intros [= <- _]|]. destruct (isMissing e); by intros [= <- _].
  - clear Hr. intros [st|] t2 b; [|by intros [= <- _]]. destruct (st_kind st); try apply IH. destruct (follow || _); [by intros [= <- _]|apply IH].
Qed.

Lemma walkFrom_quiet budget follow pending t t' r : state_ok t -> walkFrom mounts budget follow pending t = (t', r) -> t' = t.
Proof.
  intros Ok_. revert pending r t'. induction budget as [|budget IH]; intros pending r t' Hr; cbn [walkFrom] in Hr; apply (bind_quiet _ _ _ _ _ Hr);
    try (intros t1 a; by apply walkStores_quiet); clear Hr; intros [a b|rt rest] t2 q; try by intros [= <- _].
  intros Hr. apply (bind_quiet _ _ _ _ _ Hr); [intros t1 a; by apply readlink_quiet|]. clear Hr. intros target t3 q'.
  rewrite st_bind_lift. destruct (parsePath _); [apply IH|by intros [= <- _]].
Qed.

Lemma resolvePath_quiet path follow t t' r : state_ok t -> resolvePath mounts path follow t = (t', r) -> t' = t.
Proof.
  intros Ok_. unfold resolvePath. rewrite st_bind_lift. destruct (route _ _) as [rt|e]; [|by intros [= <- _]]. intros Hr.
  apply (bind_quiet _ _ _ _ _ Hr); [intros t1 a; by apply resolve_quiet|]. intros own t2 b. case_bool_decide; [by intros [= <- _]|].
  unfold walk. rewrite st_bind_lift. destruct (parsePath _); [by apply walkFrom_quiet|by intros [= <- _]].
Qed.

Lemma at_quiet path follow t t' r : state_ok t -> at_ mounts path follow t = (t', r) -> t' = t.
Proof.
  intros Ok_ Hr. unfold at_ in Hr. apply (bind_quiet _ _ _ _ _ Hr); [intros t1 a; by apply resolvePath_quiet|]. by intros a t2 b [= <- _].
Qed.

(** *** The other stores *)

Lemma on_store_frame {A} t t' fs (m : M St A) r : on_store fs m t = (t', r) ->
  (forall other, other <> fs -> store t' other = store t other) /\ m_descriptors t' = m_descriptors t /\
  m_nextDescriptor t' = m_nextDescriptor t /\ forall s, store t fs = Some s -> exists s', m s = (s', r) /\ store t' fs = Some s'.
Proof.
  destruct t as [root stores ds next]. destruct fs as [|i]; cbn.
  - destruct (m root) as [s r'] eqn:E. intros [= <- <-]. split; [by intros [|j]|]. split; [done|]. split; [done|]. intros s' [= <-]. by exists s.
  - destruct (stores !! i) as [s|] eqn:Es.
    + destruct (m s) as [s' r'] eqn:E. intros [= <- <-]. split.
      { intros [|j] Hj; [done|]. cbn. apply list_lookup_insert_ne. congruence. }
      split; [done|]. split; [done|]. intros s0 [= <-]. exists s'. split; [done|]. cbn. apply list_lookup_insert_eq. by eapply lookup_lt_Some.
    + intros [= <- <-]. split; [done|]. split; [done|]. split; [done|]. done.
Qed.
End Walk.

(** ** Loops over the mounts *)

Section Loops.
Context {St : Type} `{FileSystem St}.

Lemma indexed_from k (ms : list ResolvedMount) m : imap (fun i x => (k + i, x))%nat (m :: ms) = (k, m) :: imap (fun i x => (S k + i, x))%nat ms.
Proof. cbn. rewrite Nat.add_0_r. f_equal. apply imap_ext. intros i x _. cbn. f_equal. lia. Qed.

(** A call on the next store of the loop. *)
Lemma on_store_next {A} (m : M St A) root past s rest ds next : on_store (Mount (length past)) m (mkState root (past ++ s :: rest) ds next)
  = let '(s', r) := m s in (mkState root ((past ++ [s']) ++ rest) ds next, r).
Proof.
  cbn. rewrite list_lookup_middle by done. destruct (m s) as [s' r]. rewrite insert_app_r_alt, Nat.sub_diag by done. cbn. by rewrite <- app_assoc.
Qed.

(** The first error of a sequence of results. *)
Definition keep_first (firstError : option error) (r : result error unit) : option error :=
  match firstError, r with None, Throw e => Some e | _, _ => firstError end.

Lemma closeKeeping_next firstError root past s rest ds next :
  closeKeeping (Mount (length past)) firstError (mkState root (past ++ s :: rest) ds next)
  = (mkState root ((past ++ [(fs_close s).1]) ++ rest) ds next, Ok (keep_first firstError (fs_close s).2)).
Proof.
  unfold closeKeeping, st_catch, mbind, ST_bind. rewrite on_store_next. destruct (fs_close s) as [s' [[]|e]]; by destruct firstError.
Qed.

Lemma closeMounts_run ms firstError root past rest ds next : length rest = length ms ->
  closeMounts firstError (imap (fun i x => (length past + i, x))%nat ms) (mkState root (past ++ rest) ds next)
  = (mkState root (past ++ ((fun s => (fs_close s).1) <$> rest)) ds next, Ok (fold_left keep_first ((fun s => (fs_close s).2) <$> rest) firstError)).
Proof.
  revert firstError past rest. induction ms as [|m ms IH]; intros firstError past rest Hl; destruct rest as [|s rest]; try done.
  rewrite indexed_from. cbn [closeMounts]. rewrite (st_bind_run _ _ _ _ _ (closeKeeping_next firstError root past s rest ds next)).
  injection Hl as Hl. pose proof (IH (keep_first firstError (fs_close s).2) (past ++ [(fs_close s).1]) rest Hl) as E.
  rewrite length_app in E. cbn [length] in E. rewrite Nat.add_1_r in E. rewrite E. cbn. by rewrite <- app_assoc.
Qed.

(** A loop over the mounts that are selected; it stops at the first that throws. *)
Lemma selected_run (sel : ResolvedMount -> bool) (op : M St unit) ms root past rest ds next t' : length rest = length ms ->
  forM (fun '(i, m) => if sel m then on_store (Mount i) op else mret tt) (imap (fun i x => (length past + i, x))%nat ms)
    (mkState root (past ++ rest) ds next) = (t', Ok tt) ->
  exists rest', t' = mkState root (past ++ rest') ds next /\
    Forall2 (fun '(m, s) s' => if sel m then op s = (s', Ok tt) else s' = s) (zip ms rest) rest'.
Proof.
  revert past rest. induction ms as [|m ms IH]; intros past rest Hl Hr; destruct rest as [|s rest]; try done.
  { injection Hr as <-. by exists []. }
  rewrite indexed_from in Hr. cbn [forM] in Hr. injection Hl as Hl.
  assert (Hstep : exists s', (if sel m then op s = (s', Ok tt) else s' = s) /\
    forM (fun '(i, m) => if sel m then on_store (Mount i) op else mret tt) (imap (fun i x => (S (length past) + i, x))%nat ms)
      (mkState root ((past ++ [s']) ++ rest) ds next) = (t', Ok tt)).
  { unfold mbind at 1, ST_bind at 1 in Hr. destruct (sel m).
    - rewrite on_store_next in Hr. destruct (op s) as [s' [[]|e]]; [|done]. by exists s'.
    - exists s. split; [done|]. by rewrite <- app_assoc. }
  destruct Hstep as (s' & Hs & Hr'). destruct (IH (past ++ [s']) rest Hl) as (rest' & -> & Hf); [rewrite length_app; cbn; by rewrite Nat.add_1_r|].
  exists (s' :: rest'). split; [by rewrite <- app_assoc|]. by constructor.
Qed.
End Loops.
End MountedLaws.
