(* ===== verification/StoreFs.v ===== *)
(** * The repacked store as a file system

    The store of [repacked-vfs.ts] keeps the promises of the class [LawfulFileSystem]: its queries change
    nothing, and a path that it resolves to itself holds no link. *)

From S2P Require Export MountedLaws Invariant.

(** ** Resolution *)

(** One component, as [getInodeAtPath] descends. *)
Definition descend (s : VfsState) (inode : Inode) (component : jsstr) : R Inode :=
  match inode_kind inode with
  | Directory children =>
      childId ← or_throw (children !! component) (FsError ENOENT);
      or_throw (inodes s !! childId) StoreLimitError
  | _ => Throw (FsError ENOTDIR)
  end.

Lemma getInodeAtPath_abs s names root : Forall component_ok names -> path_ok names -> inodes s !! rootInodeId s = Some root ->
  getInodeAtPath s (abs names) = foldM (descend s) root names.
Proof. intros Hc Hp Hr. unfold getInodeAtPath. rewrite parsePath_abs by done. cbn [mbind result_bind]. by rewrite Hr. Qed.

Lemma descend_cons s inode name names : foldM (descend s) inode (name :: names) = descend s inode name ≫= fun i => foldM (descend s) i names.
Proof. done. Qed.

Lemma walkLinks_names s follow current resolved pending a b : walkLinks s follow current resolved pending = Ok (WalkDone a b) ->
  a ++ b = resolved ++ pending.
Proof.
  revert current resolved. induction pending as [|name rest IH]; intros current resolved; cbn [walkLinks]; [by intros [= <- <-]|].
  destruct (inode_kind current) as [children|sz ex|target]; try by intros [= <- <-].
  destruct (children !! name) as [childId|]; [|by intros [= <- <-]].
  destruct (inodes s !! childId) as [child|]; [|done]. cbn.
  assert (Hnext : walkLinks s follow child (resolved ++ [name]) rest = Ok (WalkDone a b) -> a ++ b = resolved ++ name :: rest)
    by (intros Hw; rewrite (IH _ _ Hw), <- app_assoc; done).
  destruct (inode_kind child); try done. by destruct (_ || _).
Qed.

(** A walk that met no link to follow. *)
Definition is_link (i : Inode) : bool := match inode_kind i with Symlink _ => true | _ => false end.

Lemma walkLinks_free s follow current resolved pending a b : walkLinks s follow current resolved pending = Ok (WalkDone a b) ->
  forall pre post, pending = pre ++ post -> pre <> [] ->
  match foldM (descend s) current pre with
  | Ok i => follow || negb (bool_decide (post = [])) = true -> is_link i = false
  | Throw cause => Mounted.isMissing cause = true
  end.
Proof.
  revert current resolved. induction pending as [|name rest IH]; intros current resolved Hw pre post E Hpre.
  { by destruct pre. }
  destruct pre as [|name' pre]; [done|]. injection E as <- E. rewrite descend_cons. cbn [walkLinks] in Hw.
  assert (Hd : descend s current name = match inode_kind current with
    | Directory children => childId ← or_throw (children !! name) (FsError ENOENT); or_throw (inodes s !! childId) StoreLimitError
    | _ => Throw (FsError ENOTDIR) end) by done.
  rewrite Hd. clear Hd. destruct (inode_kind current) as [children|sz ex|target]; try done.
  destruct (children !! name) as [childId|]; [|done]. cbn [or_throw mbind result_bind] in *.
  destruct (inodes s !! childId) as [child|]; [|done]. cbn [or_throw mbind result_bind] in *.
  assert (Hnext : walkLinks s follow child (resolved ++ [name]) rest = Ok (WalkDone a b) ->
    (pre = [] -> follow || negb (bool_decide (post = [])) = true -> is_link child = false) ->
    match foldM (descend s) child pre with
    | Ok i => follow || negb (bool_decide (post = [])) = true -> is_link i = false
    | Throw cause => Mounted.isMissing cause = true
    end).
  { intros Hw' Hlast. destruct pre as [|x pre]; [exact (Hlast eq_refl)|]. by eapply IH. }
  unfold is_link in Hnext |- *. destruct (inode_kind child) eqn:Ek; try (by apply Hnext).
  destruct (follow || negb (bool_decide (rest = []))) eqn:Ef; [done|]. apply Hnext; [done|]. intros -> Hs. cbn in E. subst post.
  by rewrite Hs in Ef.
Qed.

Lemma walkLinks_prefix s follow current resolved pre post a b : walkLinks s follow current resolved (pre ++ post) = Ok (WalkDone a b) ->
  exists a' b', walkLinks s false current resolved pre = Ok (WalkDone a' b').
Proof.
  revert current resolved. induction pre as [|name pre IH]; intros current resolved Hw; [by eexists _, _|]. cbn [app walkLinks] in *.
  destruct (inode_kind current) as [children|sz ex|target]; try by eexists _, _.
  destruct (children !! name) as [childId|]; [|by eexists _, _].
  destruct (inodes s !! childId) as [child|]; [|done]. cbn in *.
  destruct (inode_kind child); try by eapply IH.
  destruct (follow || negb (bool_decide (pre ++ post = []))) eqn:Ef; [done|]. apply orb_false_iff in Ef as [-> Ef].
  apply negb_false_iff, bool_decide_eq_true, app_eq_nil in Ef as [-> ->]. cbn. by eexists _, _.
Qed.

Lemma resolveFrom_done s root follow budget pending p : Forall component_ok pending -> path_ok pending ->
  resolveFrom s root follow budget pending = Ok p ->
  exists names a b, p = abs names /\ Forall component_ok names /\ path_ok names /\ walkLinks s follow root [] names = Ok (WalkDone a b).
Proof.
  revert pending. induction budget as [|budget IH]; intros pending Hc Hp; cbn [resolveFrom]; intros Hr;
    apply bind_Ok in Hr as ([a b|target rest] & Hw & Hr); try done.
  1,2: injection Hr as <-; exists pending, a, b; pose proof (walkLinks_names _ _ _ _ _ _ _ Hw) as E; cbn in E;
    change (SLASH :: js_join a) with (abs a); rewrite joinPath_abs, E; [done|];
    apply components_plain; rewrite <- E in Hc; by apply Forall_app in Hc as [? _].
  apply bind_Ok in Hr as (pending' & (_ & Hc' & Hp')%parsePath_Ok & Hr). by eapply IH.
Qed.

Lemma walkLinks_resolve s root follow names a b : Forall component_ok names -> path_ok names -> inodes s !! rootInodeId s = Some root ->
  walkLinks s follow root [] names = Ok (WalkDone a b) -> resolveLinks s (abs names) follow = Ok (abs names).
Proof.
  intros Hc Hp Hr Hw. unfold resolveLinks. rewrite Hr, parsePath_abs by done. cbn [or_throw mbind result_bind].
  pose proof (walkLinks_names _ _ _ _ _ _ _ Hw) as E. cbn in E.
  assert (Ea : joinPath (SLASH :: js_join a) b = abs names).
  { change (SLASH :: js_join a) with (abs a). rewrite joinPath_abs, E; [done|]. apply components_plain. rewrite <- E in Hc.
    by apply Forall_app in Hc as [? _]. }
  destruct (Z.to_nat MAX_SYMLINK_HOPS); cbn [resolveFrom]; rewrite Hw; cbn [mbind result_bind]; by rewrite Ea.
Qed.

(** ** The queries of the store *)

Section Store.
Context {Wd : Type} `{RepackedPort Wd} (dateNow performanceNow : M Wd Z).
Implicit Types h : Host Wd.

#[local] Instance store_fs : FileSystem (Host Wd) := RepackedFs dateNow performanceNow.

(** An open store of a valid state. *)
Definition store_ok h : Prop := v_status (h_vfs h) = StatusOpen /\ Inv (v_state (h_vfs h)).

Lemma open_bind {A} (k : unit -> M (Host Wd) A) h : v_status (h_vfs h) = StatusOpen -> (VfsCore.assertOpen ≫= k) h = k tt h.
Proof. intros Ho. unfold VfsCore.assertOpen, vfs, mbind, ST_bind, st_get, mret, ST_ret. cbn. by rewrite Ho. Qed.

Lemma state_bind {A} (k : VfsState -> M (Host Wd) A) h : (state ≫= k) h = k (v_state (h_vfs h)) h.
Proof. done. Qed.

Lemma resolve_bind {A} path follow (k : jsstr -> M (Host Wd) A) h : (resolve path follow ≫= k) h =
  match resolveLinks (v_state (h_vfs h)) path follow with Ok p => k p h | Throw e => (h, Throw e) end.
Proof.
  unfold mbind, ST_bind. assert (E : resolve path follow h = (h, resolveLinks (v_state (h_vfs h)) path follow)) by done.
  rewrite E. by destruct (resolveLinks _ _ _).
Qed.

Lemma inodeAt_bind {A} path (k : Inode -> M (Host Wd) A) h : (inodeAt path ≫= k) h =
  match getInodeAtPath (v_state (h_vfs h)) path with Ok i => k i h | Throw e => (h, Throw e) end.
Proof.
  unfold mbind, ST_bind. assert (E : inodeAt path h = (h, getInodeAtPath (v_state (h_vfs h)) path)) by done.
  rewrite E. by destruct (getInodeAtPath _ _).
Qed.

Lemma resolvePath_run path follow h : v_status (h_vfs h) = StatusOpen ->
  resolvePath path follow h = (h, resolveLinks (v_state (h_vfs h)) path follow).
Proof. intros Ho. unfold resolvePath. by rewrite open_bind. Qed.

Lemma lstat_run path h : v_status (h_vfs h) = StatusOpen -> lstat path h =
  (h, p ← resolveLinks (v_state (h_vfs h)) path false; i ← getInodeAtPath (v_state (h_vfs h)) p; statValue i).
Proof.
  intros Ho. unfold lstat, statPath. rewrite open_bind, resolve_bind by done. destruct (resolveLinks _ _ _) as [p|e]; [|done].
  rewrite inodeAt_bind. cbn [mbind result_bind]. by destruct (getInodeAtPath _ p).
Qed.

Lemma readlink_run path h : v_status (h_vfs h) = StatusOpen -> (readlink path h).1 = h.
Proof.
  intros Ho. unfold readlink. rewrite open_bind, resolve_bind by done. destruct (resolveLinks _ _ _) as [p|e]; [|done].
  rewrite inodeAt_bind. destruct (getInodeAtPath _ p) as [i|e]; [|done]. by destruct (inode_kind i).
Qed.

Lemma statValue_link s k i : Inv s -> inodes s !! k = Some i ->
  exists st, statValue i = Ok st /\ (st_kind st = KindSymlink -> is_link i = true).
Proof.
  intros [C _ _] Hi. destruct (t_inode _ _ _ _ _ (c_tree s C) k i Hi) as [_ _ _ _ _ _ Hk]. unfold statValue, is_link.
  destruct (inode_kind i) as [ch|sz ex|target]; cbn; try by eexists.
  destruct Hk as [n Hn]. unfold validateSymlinkTarget in Hn. apply bind_Ok in Hn as (k' & Hk' & _). unfold encodedUtf8Length. rewrite Hk'.
  by eexists.
Qed.

Lemma descend_present s i names j : Inv s -> (exists k, inodes s !! k = Some i) -> foldM (descend s) i names = Ok j -> exists k, inodes s !! k = Some j.
Proof.
  intros I. revert i. induction names as [|name names IH]; intros i Hi Hf; [injection Hf as <-; done|].
  rewrite descend_cons in Hf. apply bind_Ok in Hf as (i' & Hd & Hf). apply (IH i'); [|done].
  unfold descend in Hd. destruct (inode_kind i); try done. apply bind_Ok in Hd as (c & _ & Hd). exists c.
  destruct (inodes s !! c); [|done]. by injection Hd as ->.
Qed.

Lemma clear_descend strict s root names h : store_ok h -> v_state (h_vfs h) = s -> inodes s !! rootInodeId s = Some root ->
  Forall component_ok names -> path_ok names -> resolveLinks s (abs names) false = Ok (abs names) ->
  match foldM (descend s) root names with
  | Ok i => strict = true -> is_link i = false
  | Throw cause => Mounted.isMissing cause = true
  end -> clear strict names h.
Proof.
  intros [Ho I] Hs Hr Hc Hp Hres Hd. unfold clear. cbn [fs_lstat store_fs RepackedFs]. rewrite lstat_run, Hs, Hres by done.
  cbn [mbind result_bind snd]. rewrite (getInodeAtPath_abs s names root) by done.
  destruct (foldM (descend s) root names) as [i|e] eqn:Ef; cbn [mbind result_bind]; [|done]. subst s.
  destruct (descend_present _ _ _ _ I ltac:(by eexists) Ef) as [k Hk]. destruct (statValue_link _ _ _ I Hk) as (st & -> & Hl).
  intros Hst Ek. rewrite (Hd Hst) in Hl. by apply Hl in Ek.
Qed.

#[local] Instance store_lawful : LawfulFileSystem (Host Wd).
Proof.
  refine {| fs_ok := store_ok |}.
  - intros path h h' r [Ho _] Hrun. cbn in Hrun. rewrite lstat_run in Hrun by done. by injection Hrun.
  - intros path h h' r [Ho _] Hrun. cbn in Hrun. by rewrite <- (readlink_run path h Ho), Hrun.
  - intros path follow h h' r [Ho _] Hrun. cbn in Hrun. rewrite resolvePath_run in Hrun by done. by injection Hrun.
  - intros names follow h h' Hok Hc Hp Hrun. pose proof Hok as [Ho I]. cbn in Hrun. rewrite resolvePath_run in Hrun by done.
    injection Hrun as _ Hres. set (s := v_state (h_vfs h)) in *.
    destruct (t_root _ _ _ _ _ (c_tree s (inv_core s I))) as (ch & root & Hr & Hk).
    pose proof Hres as Hwalk. unfold resolveLinks in Hwalk. rewrite Hr, parsePath_abs in Hwalk by done. cbn [or_throw mbind result_bind] in Hwalk.
    destruct (resolveFrom_done s root follow _ names _ Hc Hp Hwalk) as (names' & a & b & E & Hc' & _ & Hw).
    apply abs_inj in E; [|by apply components_plain..]. subst names'.
    intros pre post ->. apply Forall_app in Hc as [Hc _]. pose proof (path_ok_prefix _ _ Hp) as Hpp.
    destruct (walkLinks_prefix s follow root [] pre post a b Hw) as (a' & b' & Hw').
    apply (clear_descend _ s root); try done; [by apply (walkLinks_resolve s root false pre a' b')|].
    destruct pre as [|x pre]; [cbn; intros _; unfold is_link; by rewrite Hk|].
    by eapply walkLinks_free.
Defined.
End Store.
