(* ===== verification/MountedProps.v ===== *)
(** * The composite file system: the properties *)

From S2P Require Export StoreFs ReopenProps.
Import Mounted MountedLaws.

(** The mounts partition the paths. A table that the constructor accepts has pairwise disjoint mounts; every
    canonical path at or below a mount is routed to that mount alone, as the canonical path below it, and every
    other path to the root store unchanged. *)
Theorem mounts_partition (specs : list (jsstr * option bool)) (mounts : list ResolvedMount) (path : jsstr) (names : list jsstr)
  (Htable : mountTable specs = Ok mounts) (Hpath : parsePath path = Ok names) :
  (exists i pn below, claims mounts i pn names /\ names = pn ++ below /\
     (forall j pn', claims mounts j pn' names -> j = i /\ pn' = pn) /\
     route mounts path = Ok (mkRoute (Mount i) (abs below)) /\ parsePath (abs below) = Ok below) \/
  ((forall i pn, ~ claims mounts i pn names) /\ route mounts path = Ok (mkRoute Root path)).
Proof.
  apply mountTable_ok in Htable as [T _]. apply parsePath_Ok in Hpath as (-> & Hc & Hp). rewrite (route_ok mounts names Hc Hp).
  destruct (claims_dec mounts names T) as [(i & pn & Hcl)|Hno].
  - left. pose proof Hcl as (m & Hi & M & [below E]). exists i, pn, below. split; [done|]. split; [done|]. subst names.
    split; [intros j pn' Hj; by destruct (claims_unique _ _ _ _ _ _ T Hj Hcl)|].
    rewrite (routeFrom_claimed 0 mounts i pn below) by first [done | by apply components_plain]. split; [done|].
    apply parsePath_abs; [by apply Forall_app in Hc as [_ ?]|by eapply path_ok_suffix].
  - right. split; [done|]. by rewrite routeFrom_root by first [done | by apply components_plain].
Qed.

Section Props.
Context (St : Type) (fs : FileSystem St) (lawful : LawfulFileSystem St).

(** The fast path of the resolution agrees with the walk. Over lawful stores, when no directory above a mount
    is a link in the root store, and the store that a path is routed to answers, [resolvePath] returns or throws
    what the walk across the stores does, and neither changes a store. *)
Theorem fast_path_is_walk (specs : list (jsstr * option bool)) (mounts : list ResolvedMount) (t t' : State St) (path own : jsstr)
  (names : list jsstr) (follow : bool) (Htable : mountTable specs = Ok mounts) (Hstate : state_ok mounts t)
  (Hanchored : anchored mounts t) (Hpath : parsePath path = Ok names)
  (Hown : on_store (route_fs (routeFrom 0 mounts path)) (fs_resolvePath (route_path (routeFrom 0 mounts path)) follow) t = (t', Ok own)) :
  resolvePath mounts path follow t = walk mounts path follow t.
Proof.
  apply mountTable_ok in Htable as [T _]. apply parsePath_Ok in Hpath as (-> & Hc & Hp).
  unfold resolvePath. rewrite (route_ok mounts names Hc Hp), st_bind_lift. rewrite (st_bind_run _ _ _ _ _ Hown).
  assert (Hst : exists s below, store t (route_fs (routeFrom 0 mounts (abs names))) = Some s /\
    route_path (routeFrom 0 mounts (abs names)) = abs below /\ Forall component_ok below /\ path_ok below).
  { destruct (claims_dec mounts names T) as [(i & pn & Hcl)|Hno].
    - pose proof Hcl as (m & Hi & M & [below E]). subst names. rewrite (routeFrom_claimed 0 mounts i pn below) by first [done | by apply components_plain].
      assert (is_Some (m_stores t !! i)) as [s Hs] by (apply lookup_lt_is_Some; rewrite (so_length _ _ Hstate); by eapply lookup_lt_Some).
      exists s, below. split; [done|]. split; [done|]. split; [by apply Forall_app in Hc as [_ ?]|by eapply path_ok_suffix].
    - rewrite routeFrom_root by first [done | by apply components_plain]. by exists (m_root t), names. }
  destruct Hst as (s & below & Hs & Hb & Hbc & Hbp). rewrite Hb in *.
  destruct (fs_resolvePath (abs below) follow s) as [s' r] eqn:Er.
  pose proof (resolve_pure _ _ _ _ _ (store_ok _ _ _ _ Hstate Hs) Er) as ->.
  rewrite (on_store_pure _ _ _ _ _ Hs Er) in Hown. injection Hown as <- ->.
  case_bool_decide as Eo; [|done]. subst own. symmetry. apply (walk_clear mounts names follow t Hstate Hc Hp).
  apply (clear_routed mounts T names follow t s below Hstate Hanchored Hc Hs Hb); [by apply components_plain|].
  by eapply resolved_free; [eapply store_ok|..].
Qed.
End Props.

(** ** The namespace of the composite

    What a path means, without the code: the store that serves it, the entry it names, and the path it leads to
    across the links of all the stores. *)

(** The mount [i] of the options is at the components [pn]. *)
Definition mounted (specs : list (jsstr * option bool)) (i : nat) (pn : list jsstr) : Prop :=
  Forall component_ok pn /\ exists durable, specs !! i = Some (abs pn, durable).

(** A path at or below a mount is served by the mount, as the path below it, and every other path by the root. *)
Inductive serves (specs : list (jsstr * option bool)) : list jsstr -> StoreRef -> list jsstr -> Prop :=
| serves_mount i pn below : mounted specs i pn -> serves specs (pn ++ below) (Mount i) below
| serves_root names : (forall i pn below, mounted specs i pn -> names <> pn ++ below) -> serves specs names Root names.

(** [path] is the canonical text of the components [names], within the limits of a path. *)
Definition names_path (path : jsstr) (names : list jsstr) : Prop := path = abs names /\ Forall component_ok names /\ path_ok names.

(** The text of a link's target with the components that are left behind it. *)
Definition followed_by (target : jsstr) (rest : list jsstr) : jsstr :=
  match rest with
  | [] => target
  | _ => (if decide (target = [SLASH]) then [] else target) ++ mjoin (cons SLASH <$> rest)
  end.

Section Meaning.
Context {St : Type} `{FileSystem St} (specs : list (jsstr * option bool)) (t : State St) (follow : bool).

(** What [lstat] finds at a path of the composite. *)
Inductive Entry : Type := Missing | Present (link : bool).
Definition entry_at (names : list jsstr) (entry : Entry) : Prop := exists ref below s,
  serves specs names ref below /\ store t ref = Some s /\
  match entry with
  | Missing => (fs_lstat (abs below) s).2 = Throw (FsError ENOENT) \/ (fs_lstat (abs below) s).2 = Throw (FsError ENOTDIR)
  | Present link => exists st, (fs_lstat (abs below) s).2 = Ok st /\ (st_kind st = KindSymlink <-> link = true)
  end.
Definition link_target (names : list jsstr) (target : jsstr) : Prop := exists ref below s,
  serves specs names ref below /\ store t ref = Some s /\ (fs_readlink (abs below) s).2 = Ok target.

(** From the directory [dir], the components [rest] hold no link that is to be followed, up to the first that is
    missing. *)
Inductive passes : list jsstr -> list jsstr -> Prop :=
| passes_end dir : passes dir []
| passes_missing dir name rest : entry_at (dir ++ [name]) Missing -> passes dir (name :: rest)
| passes_on dir name rest link : entry_at (dir ++ [name]) (Present link) -> (link = true -> follow = false /\ rest = []) ->
    passes (dir ++ [name]) rest -> passes dir (name :: rest).

(** The first link that is to be followed, and what is left behind it. *)
Inductive meets : list jsstr -> list jsstr -> list jsstr -> list jsstr -> Prop :=
| meets_here dir name rest : entry_at (dir ++ [name]) (Present true) -> (follow = true \/ rest <> []) ->
    meets dir (name :: rest) (dir ++ [name]) rest
| meets_on dir name rest link behind : entry_at (dir ++ [name]) (Present false) -> meets (dir ++ [name]) rest link behind ->
    meets dir (name :: rest) link behind.

(** The path [names] leads to [final] over at most [hops] links. *)
Inductive leads_to : nat -> list jsstr -> list jsstr -> Prop :=
| leads_done hops names : passes [] names -> leads_to hops names names
| leads_link hops names link rest target next final : meets [] names link rest -> link_target link target ->
    names_path (followed_by target rest) next -> leads_to hops next final -> leads_to (S hops) names final.

(** The store that serves the path as it is written resolves it without an error. *)
Definition answers (names : list jsstr) : Prop := exists ref below s own,
  serves specs names ref below /\ store t ref = Some s /\ (fs_resolvePath (abs below) follow s).2 = Ok own.
End Meaning.

Section Namespace.
Context {St : Type} `{LawfulFileSystem St} (specs : list (jsstr * option bool)) (mounts : list ResolvedMount) (Htable : mountTable specs = Ok mounts).
Context (t : State St) (follow : bool) (Hstate : state_ok mounts t).

Lemma names_parsed path names : parsePath path = Ok names <-> names_path path names.
Proof. split; [apply parsePath_Ok|]. intros (-> & Hc & Hp). by apply parsePath_abs. Qed.

Lemma followed_joined target rest : joinPath target rest = followed_by target rest.
Proof.
  unfold joinPath, followed_by. destruct rest as [|x rest]; [done|].
  assert (E : SLASH :: js_join (x :: rest) = mjoin (cons SLASH <$> (x :: rest))).
  { revert x. induction rest as [|y rest IH]; intros x; [cbn; by rewrite app_nil_r|]. rewrite js_join_cons by done.
    change (mjoin (cons SLASH <$> (x :: y :: rest))) with ((SLASH :: x) ++ mjoin (cons SLASH <$> (y :: rest))). rewrite <- IH. done. }
  rewrite <- E. case_bool_decide as Eb; case_decide; try done.
Qed.

Lemma mounted_claims i pn names : (exists below, names = pn ++ below) -> mounted specs i pn <-> claims mounts i pn names.
Proof.
  intros [below ->]. destruct (mountTable_ok specs mounts Htable) as [T Hp].
  assert (Hl : forall i, prefix <$> mounts !! i = fst <$> specs !! i) by (intros j; by rewrite <- !list_lookup_fmap, Hp). split.
  - intros [Hc [d Hi]]. specialize (Hl i). rewrite Hi in Hl. destruct (mounts !! i) as [m|] eqn:Em; [|done]. injection Hl as Hm.
    destruct (to_mount _ T i m Em) as [pn' M]. assert (pn' = pn) as ->.
    { apply abs_inj; [by eapply mount_at_plain|by apply components_plain|]. rewrite <- (ma_prefix _ _ M). exact Hm. }
    exists m. split; [done|]. split; [done|]. by apply prefix_app_r.
  - intros (m & Hi & M & _). split; [apply M|]. specialize (Hl i). rewrite Hi in Hl. destruct (specs !! i) as [[p d]|]; [|done].
    injection Hl as <-. exists d. by rewrite (ma_prefix _ _ M).
Qed.

(** The code's routing is the store that serves the path. *)
Lemma serves_routed names : Forall component_ok names -> path_ok names -> exists below s,
  let rt := routeFrom 0 mounts (abs names) in
  serves specs names (route_fs rt) below /\ route_path rt = abs below /\ Forall component_ok below /\ path_ok below /\ store t (route_fs rt) = Some s.
Proof.
  intros Hc Hp. destruct (mountTable_ok specs mounts Htable) as [T _]. pose proof (components_plain _ Hc) as Hpl.
  destruct (claims_dec mounts names T) as [(i & pn & Hcl)|Hno].
  - pose proof Hcl as (m & Hi & M & [below ->]). assert (is_Some (m_stores t !! i)) as [s Hs].
    { apply lookup_lt_is_Some. rewrite (so_length _ _ Hstate). by eapply lookup_lt_Some. }
    exists below, s. rewrite (routeFrom_claimed 0 mounts i pn below) by done. cbn.
    split; [apply serves_mount; by apply (mounted_claims i pn (pn ++ below)); [exists below|]|]. split; [done|].
    split; [by apply Forall_app in Hc as [_ ?]|]. split; [by eapply path_ok_suffix|done].
  - exists names, (m_root t). rewrite routeFrom_root by done. cbn. split; [|done]. apply serves_root. intros i pn below Hm ->.
    apply (Hno i pn). by apply (mounted_claims i pn (pn ++ below)); [exists below|].
Qed.

Lemma serves_unique names r1 b1 r2 b2 : serves specs names r1 b1 -> serves specs names r2 b2 -> r1 = r2 /\ b1 = b2.
Proof.
  destruct (mountTable_ok specs mounts Htable) as [T _]. intros H1 H2. destruct H1 as [i pn below Hm|names Hno].
  - remember (pn ++ below) as names eqn:E. destruct H2 as [j pn' below' Hm'|names Hno]; [|by destruct (Hno i pn below Hm)].
    apply (mounted_claims i pn (pn ++ below)) in Hm; [|by exists below]. apply (mounted_claims j pn' (pn' ++ below')) in Hm'; [|by exists below'].
    rewrite E in Hm'. destruct (claims_unique _ _ _ _ _ _ T Hm Hm') as [-> ->]. by apply app_inv_head in E as ->.
  - destruct H2 as [j pn' below' Hm'|]; [|done]. by destruct (Hno j pn' below' Hm').
Qed.

(** A query of the store that serves [names]. *)
Lemma served_query {A} (query : jsstr -> M St A) names below s ref :
  (forall path s s' r, fs_ok s -> query path s = (s', r) -> s' = s) ->
  Forall component_ok names -> path_ok names -> serves specs names ref below -> store t ref = Some s ->
  on_store (route_fs (routeFrom 0 mounts (abs names))) (query (route_path (routeFrom 0 mounts (abs names)))) t = (t, (query (abs below) s).2).
Proof.
  intros Hq Hc Hp Hsv Hs. destruct (serves_routed names Hc Hp) as (below' & s' & Hsv' & -> & _ & _ & Hs').
  destruct (serves_unique _ _ _ _ _ Hsv' Hsv) as [Er ->]. rewrite Er in *. rewrite Hs in Hs'. injection Hs' as <-.
  destruct (query (abs below) s) as [s' r] eqn:E. pose proof (Hq _ _ _ _ (store_ok _ _ _ _ Hstate Hs) E) as ->. by apply (on_store_pure t ref s).
Qed.

Local Abbreviation entry_at := (entry_at specs t).
Local Abbreviation passes := (passes specs t follow).
Local Abbreviation meets := (meets specs t follow).
Local Abbreviation leads_to := (leads_to specs t follow).

Definition stat_link (st : RepackedStat) : bool := match st_kind st with KindSymlink => true | _ => false end.
Lemma stat_link_spec st : st_kind st = KindSymlink <-> stat_link st = true.
Proof. unfold stat_link. by destruct (st_kind st). Qed.

(** What the walk asks about one component. *)
Definition looked_up (names : list jsstr) : M (State St) (option RepackedStat) :=
  let rt := routeFrom 0 mounts (abs names) in
  st_catch (st ← on_store (route_fs rt) (fs_lstat (route_path rt)); mret (Some st))
    (fun cause => if isMissing cause then mret None else st_lift (Throw cause)).

Lemma looked_up_run names : Forall component_ok names -> path_ok names -> exists r, looked_up names t = (t, r) /\
  match r with
  | Ok None => entry_at names Missing
  | Ok (Some st) => exists link, entry_at names (Present link) /\ (st_kind st = KindSymlink <-> link = true)
  | Throw _ => forall entry, ~ entry_at names entry
  end.
Proof.
  intros Hc Hp. destruct (serves_routed names Hc Hp) as (below & s & Hsv & _ & _ & _ & Hs). cbv zeta in *.
  assert (Hq : forall path s s' r, fs_ok s -> fs_lstat path s = (s', r) -> s' = s) by (intros *; apply lstat_pure).
  pose proof (served_query fs_lstat names below s _ Hq Hc Hp Hsv Hs) as Hr. unfold looked_up.
  unfold st_catch, mbind, ST_bind. rewrite Hr. destruct (fs_lstat (abs below) s).2 as [st|cause] eqn:El.
  - eexists. split; [reflexivity|]. exists (stat_link st). split; [|apply stat_link_spec].
    exists (route_fs (routeFrom 0 mounts (abs names))), below, s. split; [done|]. split; [done|]. exists st. split; [done|]. apply stat_link_spec.
  - destruct (isMissing cause) eqn:Em.
    + eexists. split; [reflexivity|]. exists (route_fs (routeFrom 0 mounts (abs names))), below, s. split; [done|]. split; [done|].
      destruct cause as [[]| | | | | | | | | | | | | | | |]; try done; auto.
    + eexists. split; [reflexivity|]. intros entry (ref & below' & s' & Hsv' & Hs' & He).
      destruct (serves_unique _ _ _ _ _ Hsv Hsv') as [<- <-]. rewrite Hs in Hs'. injection Hs' as <-. rewrite El in He.
      destruct entry; [|by destruct He as (? & ? & _)]. destruct He as [[= ->]|[= ->]]; done.
Qed.

Lemma entry_agree names e1 e2 : entry_at names e1 -> entry_at names e2 -> e1 = e2.
Proof.
  intros (r1 & b1 & s1 & Hs1 & Ht1 & H1) (r2 & b2 & s2 & Hs2 & Ht2 & H2). destruct (serves_unique _ _ _ _ _ Hs1 Hs2) as [<- <-].
  rewrite Ht1 in Ht2. injection Ht2 as <-. destruct e1 as [|l1], e2 as [|l2]; [done| | |].
  - destruct H2 as (? & ? & _), H1; congruence.
  - destruct H1 as (? & ? & _), H2; congruence.
  - destruct H1 as (st & E1 & K1), H2 as (st' & E2 & K2). rewrite E1 in E2. injection E2 as <-. f_equal. destruct l1, l2; try done; naive_solver.
Qed.

Lemma component_prefix (dir rest : list jsstr) name : Forall component_ok (dir ++ name :: rest) -> path_ok (dir ++ name :: rest) ->
  Forall component_ok (dir ++ [name]) /\ path_ok (dir ++ [name]) /\ joinPath (SLASH :: js_join dir) [name] = abs (dir ++ [name]).
Proof.
  intros Hc Hp. rewrite cons_middle, app_assoc in Hc, Hp. apply Forall_app in Hc as [Hc _]. split; [done|]. split; [by eapply path_ok_prefix|].
  change (SLASH :: js_join dir) with (abs dir). apply joinPath_abs. apply components_plain. by apply Forall_app in Hc as [? _].
Qed.

(** The walk up to the next link finds what the entries say, and nothing else. *)
Lemma walkStores_run rest : forall dir, Forall component_ok (dir ++ rest) -> path_ok (dir ++ rest) ->
  exists r, walkStores mounts follow dir rest t = (t, r) /\
  match r with
  | Ok (Done resolved behind) => passes dir rest /\ resolved ++ behind = dir ++ rest
  | Ok (Hop rt behind) => exists link, meets dir rest link behind /\ rt = routeFrom 0 mounts (abs link) /\ Forall component_ok link /\ path_ok link
  | Throw _ => ~ passes dir rest /\ forall link behind, ~ meets dir rest link behind
  end.
Proof.
  induction rest as [|name rest IH]; intros dir Hc Hp; cbn [walkStores].
  { eexists. split; [reflexivity|]. by split; [constructor|]. }
  destruct (component_prefix dir rest name Hc Hp) as (Hc1 & Hp1 & ->). rewrite route_ok, st_bind_lift by done.
  destruct (looked_up_run (dir ++ [name]) Hc1 Hp1) as (r & Hr & Hl). unfold looked_up in Hr.
  rewrite (cons_middle name dir rest), app_assoc in Hc, Hp. specialize (IH (dir ++ [name]) Hc Hp).
  unfold mbind at 1, ST_bind at 1. rewrite Hr. destruct r as [[st|]|e].
  - destruct Hl as (link & He & Hk).
    assert (Hgo : (link = true -> follow = false /\ rest = []) -> exists r, walkStores mounts follow (dir ++ [name]) rest t = (t, r) /\
      match r with
      | Ok (Done resolved behind) => passes dir (name :: rest) /\ resolved ++ behind = dir ++ name :: rest
      | Ok (Hop rt behind) => exists at_, meets dir (name :: rest) at_ behind /\ rt = routeFrom 0 mounts (abs at_) /\ Forall component_ok at_ /\ path_ok at_
      | Throw _ => ~ passes dir (name :: rest) /\ forall at_ behind, ~ meets dir (name :: rest) at_ behind
      end).
    { intros Hf. destruct IH as (r & Hw & Hr'). exists r. split; [done|]. destruct r as [[resolved behind|rt behind]|e].
      - destruct Hr' as [Hpa E]. split; [by eapply passes_on|]. by rewrite E, <- app_assoc.
      - destruct Hr' as (at_ & Hm & Hrt). exists at_. split; [|done]. destruct link; [destruct (Hf eq_refl) as [_ ->]; inversion Hm|by apply meets_on].
      - destruct Hr' as [Hnp Hnm]. split.
        + intros Hpa. inversion Hpa as [|? ? ? Hmiss|? ? ? l Hl _ Hgo]; subst; [by pose proof (entry_agree _ _ _ He Hmiss)|done].
        + intros at_ behind Hm. inversion Hm as [? ? ? Hl Hor|? ? ? ? ? Hl Hgo]; subst; [|by eapply Hnm].
          pose proof (entry_agree _ _ _ He Hl) as [= ->]. destruct (Hf eq_refl) as [-> ->]. by destruct Hor. }
    assert (Hstop : link = true -> follow || negb (bool_decide (rest = [])) = true -> meets dir (name :: rest) (dir ++ [name]) rest).
    { intros -> Hf. apply meets_here; [done|]. apply orb_true_iff in Hf as [->|Hf]; [by left|right]. by apply negb_true_iff, bool_decide_eq_false in Hf. }
    destruct link.
    + rewrite (proj2 Hk eq_refl). destruct (follow || negb (bool_decide (rest = []))) eqn:Ef.
      * eexists. split; [reflexivity|]. exists (dir ++ [name]). split; [by apply Hstop|]. done.
      * apply Hgo. intros _. apply orb_false_iff in Ef as [-> Ef%negb_false_iff%bool_decide_eq_true]. done.
    + destruct (st_kind st) eqn:Ek; [apply Hgo; done|apply Hgo; done|discriminate (proj1 Hk eq_refl)].
  - exists (Ok (Done dir (name :: rest))). split; [done|]. split; [by apply passes_missing|done].
  - exists (Throw e). split; [done|]. split.
    + intros Hpa. inversion Hpa; subst; by eapply Hl.
    + intros link behind Hm. inversion Hm; subst; by eapply Hl.
Qed.

Lemma passes_not_meets dir rest link behind : passes dir rest -> ~ meets dir rest link behind.
Proof.
  intros Hp. revert link behind. induction Hp as [dir|dir name rest He|dir name rest l He Hl _ IH]; intros link behind Hm; inversion Hm as [? ? ? Hf Hor|? ? ? ? ? Hf Hgo]; subst.
  - by pose proof (entry_agree _ _ _ He Hf).
  - by pose proof (entry_agree _ _ _ He Hf).
  - pose proof (entry_agree _ _ _ He Hf) as [= ->]. destruct (Hl eq_refl) as [E ->]. rewrite E in Hor. by destruct Hor.
  - by eapply IH.
Qed.

Lemma meets_agree dir rest l1 b1 l2 b2 : meets dir rest l1 b1 -> meets dir rest l2 b2 -> l1 = l2 /\ b1 = b2.
Proof.
  intros H1. revert l2 b2. induction H1 as [dir name rest He Hor|dir name rest l b He _ IH]; intros l2 b2 H2; inversion H2 as [? ? ? Hf|? ? ? ? ? Hf Hgo]; subst; try done.
  - by pose proof (entry_agree _ _ _ He Hf).
  - by pose proof (entry_agree _ _ _ He Hf).
  - by apply IH.
Qed.

Lemma leads_to_cases hops names final : leads_to hops names final ->
  passes [] names \/ exists hops' link rest target next, hops = S hops' /\ meets [] names link rest /\ link_target specs t link target /\
    names_path (followed_by target rest) next /\ leads_to hops' next final.
Proof. intros Hl. destruct Hl as [|hops names link rest target next final Hm Ht Hn Hl]; [by left|right]. by exists hops, link, rest, target, next. Qed.

(** The walk ends at the path the links lead to, and fails where they lead nowhere. *)
Lemma walkFrom_run budget : forall names, Forall component_ok names -> path_ok names ->
  exists r, walkFrom mounts budget follow names t = (t, r) /\
  match r with
  | Ok p => exists final, names_path p final /\ leads_to budget names final
  | Throw _ => forall final, ~ leads_to budget names final
  end.
Proof.
  induction budget as [|budget IH]; intros names Hc Hp; cbn [walkFrom]; destruct (walkStores_run names [] Hc Hp) as (r & Hr & Hw);
    unfold mbind at 1, ST_bind at 1; rewrite Hr; destruct r as [[resolved behind|rt behind]|e].
  1, 4: destruct Hw as [Hpa E]; eexists; (split; [reflexivity|]); exists names; (split; [|by constructor]); (split; [|done]);
    cbn in E; rewrite <- E in *; change (SLASH :: js_join resolved) with (abs resolved); apply joinPath_abs, components_plain; by apply Forall_app in Hc as [? _].
  1: destruct Hw as (link & Hm & -> & _); eexists; (split; [reflexivity|]); intros final [Hpa|(? & ? & ? & ? & ? & ? & _)]%leads_to_cases; [by eapply passes_not_meets|done].
  2: destruct Hw as (link & Hm & -> & Hcl & Hpl).
  1, 3: destruct Hw as [Hnp Hnm]; eexists; (split; [reflexivity|]); intros final [Hpa|(? & ? & ? & ? & ? & _ & Hm & _)]%leads_to_cases; [done|by eapply Hnm].
  destruct (serves_routed link Hcl Hpl) as (below & s & Hsv & _ & _ & _ & Hs). cbv zeta in *.
  assert (Hq : forall path s s' r, fs_ok s -> fs_readlink path s = (s', r) -> s' = s) by (intros *; apply readlink_pure).
  pose proof (served_query fs_readlink link below s _ Hq Hcl Hpl Hsv Hs) as Hread. unfold mbind at 1, ST_bind at 1. rewrite Hread.
  assert (Hone : forall final, leads_to (S budget) names final -> exists target next, link_target specs t link target /\
    names_path (followed_by target behind) next /\ leads_to budget next final).
  { intros final [Hpa|(b & link' & behind' & target & next & [= <-] & Hm' & Ht & Hn & Hgo)]%leads_to_cases; [by destruct (passes_not_meets _ _ _ _ Hpa Hm)|].
    destruct (meets_agree _ _ _ _ _ _ Hm Hm') as [<- <-]. by exists target, next. }
  assert (Htar : forall target, link_target specs t link target <-> (fs_readlink (abs below) s).2 = Ok target).
  { intros target. split; [|intros E; by exists (route_fs (routeFrom 0 mounts (abs link))), below, s].
    intros (ref & b & s' & Hsv' & Hs' & E). destruct (serves_unique _ _ _ _ _ Hsv Hsv') as [<- <-]. rewrite Hs in Hs'. by injection Hs' as <-. }
  destruct (fs_readlink (abs below) s).2 as [target|e] eqn:Et.
  2:{ eexists. split; [reflexivity|]. intros final (target & next & Ht%Htar & _)%Hone. done. }
  rewrite st_bind_lift, followed_joined. destruct (parsePath (followed_by target behind)) as [next|e] eqn:Ep.
  2:{ eexists. split; [reflexivity|]. intros final (target' & next & [= <-]%Htar & Hn%names_parsed & _)%Hone. congruence. }
  pose proof (proj1 (names_parsed _ _) Ep) as Hn. destruct Hn as (Hnp & Hnc & Hnk). destruct (IH next Hnc Hnk) as (r & Hr' & Hfin). exists r. split; [done|].
  destruct r as [p|e].
  - destruct Hfin as (final & Hf & Hl). exists final. split; [done|]. eapply leads_link; [done|by apply Htar|by split|done].
  - intros final (target' & next' & [= <-]%Htar & Hn'%names_parsed & Hl)%Hone. rewrite Ep in Hn'. injection Hn' as <-. by eapply Hfin.
Qed.
(** The composite's resolution: the path that is led to, where the routed store answers. *)
Lemma resolution_run (Hanchored : anchored mounts t) path : exists r, resolvePath mounts path follow t = (t, r) /\
  match r with
  | Ok p => exists names final, names_path path names /\ answers specs t follow names /\ names_path p final /\
      leads_to (Z.to_nat MAX_SYMLINK_HOPS) names final
  | Throw _ => forall names, names_path path names -> answers specs t follow names -> forall final, ~ leads_to (Z.to_nat MAX_SYMLINK_HOPS) names final
  end.
Proof.
  destruct (parsePath path) as [names|e] eqn:Ep.
  2:{ exists (Throw e). unfold resolvePath, route. rewrite Ep. split; [done|]. intros names Hn%names_parsed. congruence. }
  pose proof (proj1 (names_parsed _ _) Ep) as Hn. pose proof Hn as (E & Hc & Hp). subst path.
  assert (Honly : forall names', names_path (abs names) names' -> names' = names) by (intros names' Hn'%names_parsed; congruence).
  destruct (serves_routed names Hc Hp) as (below & s & Hsv & Hb & Hbc & Hbp & Hs). cbv zeta in *.
  set (rt := routeFrom 0 mounts (abs names)) in *.
  assert (Hq : forall path s s' r, fs_ok s -> fs_resolvePath path follow s = (s', r) -> s' = s) by (intros *; apply resolve_pure).
  pose proof (served_query (fun path => fs_resolvePath path follow) names below s _ Hq Hc Hp Hsv Hs) as Hown. cbv beta in Hown. fold rt in Hown.
  destruct (fs_resolvePath (abs below) follow s).2 as [own|e] eqn:Er.
  - rewrite (fast_path_is_walk St _ _ specs mounts t t (abs names) own names follow Htable Hstate Hanchored Ep Hown).
    destruct (walkFrom_run (Z.to_nat MAX_SYMLINK_HOPS) names Hc Hp) as (r & Hr & Hw). exists r. unfold walk. rewrite Ep, st_bind_lift. split; [done|].
    destruct r as [p|e].
    + destruct Hw as (final & Hf & Hl). exists names, final. split; [done|]. split; [by exists (route_fs rt), below, s, own|done].
    + intros names' ->%Honly _. exact Hw.
  - exists (Throw e). unfold resolvePath. rewrite (route_ok mounts names Hc Hp), st_bind_lift. fold rt. unfold mbind, ST_bind. rewrite Hown. split; [done|].
    intros names' ->%Honly (ref & b & s' & own & Hsv' & Hs' & Ho). destruct (serves_unique _ _ _ _ _ Hsv Hsv') as [<- <-]. rewrite Hs in Hs'. injection Hs' as <-. congruence.
Qed.
End Namespace.

(** C32. A path operation reaches one store, the one its path means. Over lawful stores, with no link in the root
    store above a mount, an operation that is resolved, routed and delegated is the operation of the store that
    serves the path its path leads to over the links, at that path below the store's mount: a path at or below a
    mount is served by the mount, every other one by the root, and at most [MAX_SYMLINK_HOPS] links of any of the
    stores are followed. No other store and no descriptor changes. Where the path is not canonical, the store that serves it
    as it is written does not resolve it, or it leads nowhere, nothing is done and the call throws. *)
Theorem operation_reaches_one_store (St A : Type) (fs : FileSystem St) (lawful : LawfulFileSystem St)
  (specs : list (jsstr * option bool)) (mounts : list ResolvedMount) (t t' : State St) (path : jsstr) (follow : bool)
  (operation : jsstr -> M St A) (r : result error A)
  (Htable : mountTable specs = Ok mounts) (Hstate : state_ok mounts t) (Hanchored : anchored mounts t)
  (Hrun : delegate mounts path follow operation t = (t', r)) :
  (exists names final ref below s s', names_path path names /\ answers specs t follow names /\
     leads_to specs t follow (Z.to_nat MAX_SYMLINK_HOPS) names final /\ serves specs final ref below /\ store t ref = Some s /\
     operation (abs below) s = (s', r) /\ store t' ref = Some s' /\ (forall other, other <> ref -> store t' other = store t other) /\
     m_descriptors t' = m_descriptors t /\ m_nextDescriptor t' = m_nextDescriptor t) \/
  (t' = t /\ (exists e, r = Throw e) /\
   forall names, names_path path names -> answers specs t follow names ->
     forall final, ~ leads_to specs t follow (Z.to_nat MAX_SYMLINK_HOPS) names final).
Proof.
  destruct (resolution_run specs mounts Htable t follow Hstate Hanchored path) as (p & Hp & Hr).
  unfold delegate, at_ in Hrun. unfold mbind at 1 2, ST_bind at 1 2 in Hrun. rewrite Hp in Hrun. destruct p as [p|e].
  2:{ injection Hrun as <- <-. right. split; [done|]. split; [by exists e|exact Hr]. }
  destruct Hr as (names & final & Hn & Ha & (-> & Hc & Hk) & Hl). rewrite (route_ok mounts final Hc Hk) in Hrun. unfold st_lift in Hrun. cbv iota beta in Hrun.
  destruct (serves_routed specs mounts Htable t Hstate final Hc Hk) as (below & s & Hsv & Hb & _ & _ & Hs). cbv zeta in *. rewrite Hb in Hrun.
  destruct (on_store_frame _ _ _ _ _ Hrun) as (Hoth & Hds & Hnx & Hone). destruct (Hone s Hs) as (s' & Hop & Hs').
  left. exists names, final, (route_fs (routeFrom 0 mounts (abs final))), below, s, s'. done.
Qed.

(** Closing the composite closes every store. Whatever each of them does, [close] calls the [close] of every
    mount and of the root once, forgets the descriptors, and throws the first error, the mounts' before the
    root's. *)
Theorem close_closes_every_store (St : Type) (fs : FileSystem St) (mounts : list ResolvedMount) (t : State St)
  (Hstores : length (m_stores t) = length mounts) :
  close mounts t =
    (mkState (fs_close (m_root t)).1 ((fun s => (fs_close s).1) <$> m_stores t) ∅ (m_nextDescriptor t),
     match fold_left keep_first (((fun s => (fs_close s).2) <$> m_stores t) ++ [(fs_close (m_root t)).2]) None with
     | Some e => Throw e
     | None => Ok tt
     end).
Proof.
  destruct t as [root stores ds next]. unfold close, set_descriptors. rewrite st_bind_modify. cbn [m_root m_stores m_descriptors m_nextDescriptor].
  rewrite (st_bind_run _ _ _ _ _ (closeMounts_run mounts None root [] stores ∅ next Hstores)).
  rewrite fold_left_app. set (kept := fold_left keep_first _ None). cbn [app fold_left].
  unfold closeKeeping, st_catch, mbind, ST_bind. cbn. destruct (fs_close root) as [root' [[]|e]]; cbn; by destruct kept.
Qed.

(** Synchronising the composite reaches the durable stores only. When [strictSync] returns, the root and every
    durable mount were synchronised without an error, and a mount that is not durable was not touched. *)
Theorem strictSync_skips_volatile (St : Type) (fs : FileSystem St) (mounts : list ResolvedMount) (t t' : State St)
  (Hstores : length (m_stores t) = length mounts) (Hrun : strictSync mounts t = (t', Ok tt)) :
  fs_strictSync (m_root t) = (m_root t', Ok tt) /\ m_descriptors t' = m_descriptors t /\ m_nextDescriptor t' = m_nextDescriptor t /\
  Forall2 (fun '(m, s) s' => if durable m then fs_strictSync s = (s', Ok tt) else s' = s) (zip mounts (m_stores t)) (m_stores t').
Proof.
  destruct t as [root stores ds next]. unfold strictSync in Hrun. unfold mbind at 1, ST_bind at 1 in Hrun. cbn [on_store m_root] in Hrun.
  destruct (fs_strictSync root) as [root' [[]|e]] eqn:Er; [|done]. cbn [m_stores m_descriptors m_nextDescriptor] in *.
  destruct (selected_run durable fs_strictSync mounts root' [] stores ds next t' Hstores Hrun) as (stores' & -> & Hf). done.
Qed.

(** ** The witnesses: a volatile store below [/tmp] of a durable one, on two in-memory ports *)

#[local] Existing Instance example_port.
#[local] Existing Instance example_lawful.
#[local] Existing Instance example_durable.
#[local] Instance memory_fs : FileSystem (Host MemoryWorld) := RepackedFs stopped_clock stopped_clock.
#[local] Instance memory_fs_lawful : LawfulFileSystem (Host MemoryWorld) := store_lawful stopped_clock stopped_clock.

Definition mount_specs : list (jsstr * option bool) := [(js "/tmp/scratch", Some false)].
Definition example_mounts : list ResolvedMount := from_ok [] (mountTable mount_specs).

(** The placeholders are there, the root has a link into the mount and the mount a file. *)
Definition composite_step {A} (m : M (State (Host MemoryWorld)) A) (t : State (Host MemoryWorld)) : State (Host MemoryWorld) := (m t).1.
Definition composite_new : State (Host MemoryWorld) :=
  composite_step (placeholders example_mounts 5) (mkState booted [booted] ∅ 3).
Definition composite : State (Host MemoryWorld) := Eval vm_compute in
  composite_step (open example_mounts (js "/data/x") (js "w") 420 7)
    (composite_step (symlink example_mounts (js "/tmp/scratch") (js "/data") 6) composite_new).

Lemma checked_store_ok (h : Host MemoryWorld) : v_status (h_vfs h) = StatusOpen ->
  available (allocator (v_state (h_vfs h))) = ExtentSet.empty -> validateState (v_state (h_vfs h)) = Ok tt -> StoreFs.store_ok h.
Proof. intros Ho Ha Hv. split; [done|]. apply validateState_sound; [|done]. rewrite Ha. apply ExtentSet.empty_wf. Qed.

Lemma one_store {A} (P : A -> Prop) (l : list A) (d : A) : length l = 1%nat -> P (default d (l !! 0%nat)) -> Forall P l.
Proof. destruct l as [|x [|y l]]; try done. intros _ Hx. by apply Forall_singleton. Qed.

Definition scratch_store : Host MemoryWorld := default booted (m_stores composite !! 0%nat).

Lemma composite_ok : state_ok example_mounts composite.
Proof.
  split.
  - change (StoreFs.store_ok (m_root composite)). apply (checked_store_ok (m_root composite)); vm_compute; reflexivity.
  - apply (one_store _ _ booted); [vm_compute; reflexivity|]. change (StoreFs.store_ok scratch_store).
    apply (checked_store_ok scratch_store); vm_compute; reflexivity.
  - vm_compute. reflexivity.
Qed.

Lemma mounts_partition_witness :
  (exists i pn below, claims example_mounts i pn [js "tmp"; js "scratch"; js "x"] /\ [js "tmp"; js "scratch"; js "x"] = pn ++ below /\
     (forall j pn', claims example_mounts j pn' [js "tmp"; js "scratch"; js "x"] -> j = i /\ pn' = pn) /\
     route example_mounts (js "/tmp/scratch/x") = Ok (mkRoute (Mount i) (abs below)) /\ parsePath (abs below) = Ok below) \/
  ((forall i pn, ~ claims example_mounts i pn [js "tmp"; js "scratch"; js "x"]) /\
     route example_mounts (js "/tmp/scratch/x") = Ok (mkRoute Root (js "/tmp/scratch/x"))).
Proof. apply (mounts_partition mount_specs); vm_compute; reflexivity. Defined.

Lemma scratch_mount : mount_at (default (mkMount [] [] true) (example_mounts !! 0%nat)) [js "tmp"; js "scratch"].
Proof.
  split; [vm_compute; reflexivity|vm_compute; reflexivity| |vm_compute; split; discriminate|discriminate].
  repeat (apply Forall_cons; split; [eexists; vm_compute; reflexivity|]). apply Forall_nil_2.
Qed.

Lemma first_lookup {A} (l : list A) (x d : A) : l !! 0%nat = Some x -> x = default d (l !! 0%nat).
Proof. by intros ->. Qed.

Lemma composite_anchored : anchored example_mounts composite.
Proof.
  intros i m pn pre post Hi M E Hpre Hpost. assert (Hi0 : i = 0%nat).
  { apply lookup_lt_Some in Hi. assert (length example_mounts = 1%nat) by (vm_compute; reflexivity). lia. }
  subst i. assert (Em : m = default (mkMount [] [] true) (example_mounts !! 0%nat)) by (exact (first_lookup _ _ _ Hi)). rewrite Em in M. clear Em Hi.
  rewrite (mount_at_inj _ _ _ M scratch_mount) in E. destruct pre as [|x [|y pre]].
  - by destruct (Hpre eq_refl).
  - injection E as <- _. vm_compute. discriminate.
  - injection E as _ _ E. symmetry in E. apply app_eq_nil in E as [_ E]. by destruct (Hpost E).
Qed.

Definition scratch_path : jsstr := js "/tmp/scratch/x".

Lemma fast_path_is_walk_witness :
  resolvePath example_mounts scratch_path true composite = walk example_mounts scratch_path true composite /\
  walk example_mounts (js "/data/x") true composite = (composite, Ok scratch_path).
Proof.
  split; [|vm_compute; reflexivity].
  apply (fast_path_is_walk (Host MemoryWorld) memory_fs memory_fs_lawful mount_specs example_mounts composite composite scratch_path
           (js "/x") [js "tmp"; js "scratch"; js "x"] true).
  - vm_compute. reflexivity.
  - exact composite_ok.
  - exact composite_anchored.
  - vm_compute. reflexivity.
  - vm_compute. reflexivity.
Defined.

Definition chmod_data : M (State (Host MemoryWorld)) unit := chmod example_mounts (js "/data/x") 384 9.

Lemma operation_reaches_one_store_witness :
  (exists names final ref below s s', names_path (js "/data/x") names /\ answers mount_specs composite true names /\
     leads_to mount_specs composite true (Z.to_nat MAX_SYMLINK_HOPS) names final /\ serves mount_specs final ref below /\ store composite ref = Some s /\
     fs_chmod (abs below) 384 9 s = (s', Ok tt) /\ store (composite_step chmod_data composite) ref = Some s' /\
     (forall other, other <> ref -> store (composite_step chmod_data composite) other = store composite other) /\
     m_descriptors (composite_step chmod_data composite) = m_descriptors composite /\
     m_nextDescriptor (composite_step chmod_data composite) = m_nextDescriptor composite) \/
  (composite_step chmod_data composite = composite /\ (exists e, (Ok tt : result error unit) = Throw e) /\
   forall names, names_path (js "/data/x") names -> answers mount_specs composite true names ->
     forall final, ~ leads_to mount_specs composite true (Z.to_nat MAX_SYMLINK_HOPS) names final).
Proof.
  apply (operation_reaches_one_store (Host MemoryWorld) unit memory_fs memory_fs_lawful mount_specs example_mounts composite
           (composite_step chmod_data composite) (js "/data/x") true (fun path => fs_chmod path 384 9) (Ok tt)).
  - vm_compute. reflexivity.
  - exact composite_ok.
  - exact composite_anchored.
  - vm_compute. reflexivity.
Defined.

Lemma close_closes_every_store_witness : (close example_mounts composite).2 = Ok tt /\
  close example_mounts composite =
    (mkState (fs_close (m_root composite)).1 ((fun s => (fs_close s).1) <$> m_stores composite) ∅ (m_nextDescriptor composite),
     match fold_left keep_first (((fun s => (fs_close s).2) <$> m_stores composite) ++ [(fs_close (m_root composite)).2]) None with
     | Some e => Throw e
     | None => Ok tt
     end).
Proof.
  split; [vm_compute; reflexivity|].
  apply (close_closes_every_store (Host MemoryWorld) memory_fs example_mounts composite). vm_compute. reflexivity.
Defined.

Definition composite_synced : State (Host MemoryWorld) := Eval vm_compute in composite_step (strictSync example_mounts) composite.

Lemma strictSync_skips_volatile_witness :
  fs_strictSync (m_root composite) = (m_root composite_synced, Ok tt) /\ m_descriptors composite_synced = m_descriptors composite /\
  m_nextDescriptor composite_synced = m_nextDescriptor composite /\
  Forall2 (fun '(m, s) s' => if durable m then fs_strictSync s = (s', Ok tt) else s' = s)
    (zip example_mounts (m_stores composite)) (m_stores composite_synced).
Proof.
  apply (strictSync_skips_volatile (Host MemoryWorld) memory_fs example_mounts composite composite_synced); vm_compute; reflexivity.
Defined.

(** ** A link above a mount

    The directory above the mount is renamed and a link takes its place: the fast path does not see the link, since
    only the entries below the mount are in the store that is asked. *)
Definition relinked : State (Host MemoryWorld) := Eval vm_compute in
  composite_step (symlink example_mounts (js "/old") (js "/tmp") 9) (composite_step (rename example_mounts (js "/tmp") (js "/old") 8) composite).

Example fast_path_misses_link :
  (resolvePath example_mounts scratch_path true relinked).2 = Ok scratch_path /\
  (walk example_mounts scratch_path true relinked).2 = Ok (js "/old/scratch/x").
Proof. split; vm_compute; reflexivity. Qed.
