(* ===== verification/WireBuffers.v ===== *)
(** * Wire protocol: byte buffers

    [BufferReader] of protocol/wire/buffer-reader.ts, [Writer] of buffer-writer.ts and
    [byteLengthUtf8] of string-utils.ts, over big-endian [DataView]s, the replacing [TextDecoder] and
    [TextEncoder.encodeInto]. *)

From S2P Require Export Bytes.

(** What the wire code throws: [RangeError] from a [DataView] read past its end or from a statement
    name that is too long, and the errors the code builds itself. *)
Inductive WireError : Type :=
| RangeError
| UnknownAuthentication (code : Z)
| Thrown (tag : Z)
| OutOfFuel.

#[global] Instance WireError_eq_dec : EqDecision WireError.
Proof. solve_decision. Defined.

(** ** Big-endian [DataView]s *)

Definition be_bytes (width : nat) (value : Z) : list Z := rev (le_bytes width value).
Definition be_value (bytes : list Z) : Z := le_value (rev bytes).

(** [view.getUint8(offset)], [view.getUint32(offset, false)]. *)
Definition get_be (width : nat) (view : list Z) (offset : Z) : result WireError Z :=
  throw_if ((offset <? 0) || (byteLength view <? offset + Z.of_nat width)) RangeError ≫= fun _ =>
  Ok (be_value (subarray view (Z.to_nat offset) (Z.to_nat offset + width))).

Definition signed (width : nat) (value : Z) : Z :=
  if value <? 2 ^ (8 * Z.of_nat width - 1) then value else value - 2 ^ (8 * Z.of_nat width).

(** [view.getInt16(offset, false)], [view.getInt32(offset, false)]. *)
Definition get_int (width : nat) (view : list Z) (offset : Z) : result WireError Z :=
  value ← get_be width view offset; Ok (signed width value).

(** [buffer.slice(start, stop)]: negative positions count from the end, and both are clamped. *)
Definition relative (len position : Z) : nat :=
  Z.to_nat (if position <? 0 then Z.max 0 (len + position) else Z.min position len).
Definition slice (buffer : list Z) (start stop : Z) : list Z :=
  subarray buffer (relative (byteLength buffer) start) (relative (byteLength buffer) stop).

(** ** [TextDecoder("utf-8")]: replacing, with the byte order mark stripped *)

Record Decoder : Type := mkDecoder { d_point : Z; d_needed : nat; d_lower : Z; d_upper : Z }.

Definition REPLACEMENT : Z := 0xfffd.
Definition decoder_start : Decoder := mkDecoder 0 0 0x80 0xbf.

Definition utf16 (point : Z) : jsstr :=
  if point <=? 0xffff then [point]
  else [0xd800 + (point - 0x10000) / 1024; 0xdc00 + (point - 0x10000) mod 1024].

(** The first byte of a sequence. *)
Definition decode_lead (b : Z) : jsstr * Decoder :=
  if b <=? 0x7f then ([b], decoder_start)
  else if (0xc2 <=? b) && (b <=? 0xdf) then ([], mkDecoder (b - 0xc0) 1 0x80 0xbf)
  else if (0xe0 <=? b) && (b <=? 0xef) then
    ([], mkDecoder (b - 0xe0) 2 (if b =? 0xe0 then 0xa0 else 0x80) (if b =? 0xed then 0x9f else 0xbf))
  else if (0xf0 <=? b) && (b <=? 0xf4) then
    ([], mkDecoder (b - 0xf0) 3 (if b =? 0xf0 then 0x90 else 0x80) (if b =? 0xf4 then 0x8f else 0xbf))
  else ([REPLACEMENT], decoder_start).

(** A byte that cannot continue the sequence ends it with U+FFFD and is read again as a first byte. *)
Definition decode_byte (d : Decoder) (b : Z) : jsstr * Decoder :=
  match d_needed d with
  | O => decode_lead b
  | S needed =>
      if (d_lower d <=? b) && (b <=? d_upper d) then
        let point := d_point d * 64 + (b - 0x80) in
        match needed with
        | O => (utf16 point, decoder_start)
        | S _ => ([], mkDecoder point needed 0x80 0xbf)
        end
      else let (out, d) := decode_lead b in (REPLACEMENT :: out, d)
  end.

Fixpoint decode_from (d : Decoder) (bytes : list Z) : jsstr :=
  match bytes with
  | [] => match d_needed d with O => [] | S _ => [REPLACEMENT] end
  | b :: bytes => let (out, d) := decode_byte d b in out ++ decode_from d bytes
  end.

Definition textDecode (bytes : list Z) : jsstr :=
  match decode_from decoder_start bytes with
  | c :: rest => if c =? BOM then rest else c :: rest
  | [] => []
  end.

(** ** [TextEncoder.encodeInto] and [byteLengthUtf8] *)

(** The encoding of each code point; an unpaired surrogate is encoded as U+FFFD. *)
Fixpoint utf8_points (s : jsstr) : list (list Z) :=
  match s with
  | [] => []
  | c :: rest =>
      if c <=? 0x7f then [c] :: utf8_points rest
      else if c <=? 0x7ff then [0xc0 + c / 64; 0x80 + c mod 64] :: utf8_points rest
      else if high_surrogate c then
        match rest with
        | next :: rest' =>
            if low_surrogate next then utf8_4 (code_point c next) :: utf8_points rest'
            else utf8_3 REPLACEMENT :: utf8_points rest
        | [] => [utf8_3 REPLACEMENT]
        end
      else if low_surrogate c then utf8_3 REPLACEMENT :: utf8_points rest
      else utf8_3 c :: utf8_points rest
  end.

(** Whole code points, as long as they fit. *)
Fixpoint fitting (room : nat) (points : list (list Z)) : list Z :=
  match points with
  | [] => []
  | p :: points => if (length p <=? room)%nat then p ++ fitting (room - length p) points else []
  end.

Definition encodeInto (s : jsstr) (room : nat) : list Z := fitting room (utf8_points s).

(** The loop from the last code unit to the first; a trail surrogate skips the unit before it. *)
Fixpoint utf8_extra (reversed : list Z) : Z :=
  match reversed with
  | [] => 0
  | code :: rest =>
      (if (0x7f <? code) && (code <=? 0x7ff) then 1
       else if (0x7ff <? code) && (code <=? 0xffff) then 2 else 0)
      + (if (0xdc00 <=? code) && (code <=? 0xdfff)
         then match rest with [] => 0 | _ :: rest' => utf8_extra rest' end
         else utf8_extra rest)
  end.

Definition byteLengthUtf8 (str : jsstr) : Z := Z.of_nat (length str) + utf8_extra (rev str).

(** ** [BufferReader] *)

Module BufferReader.

Record Reader : Type := mkReader { bufferView : list Z; offset : Z }.

Abbreviation Rd := (ST Reader WireError).

Definition set_offset (position : Z) : Rd unit := st_modify (fun r => mkReader (bufferView r) position).

(** A [DataView] read at the offset, which then advances. *)
Definition read_view (width : nat) (get : list Z -> Z -> result WireError Z) : Rd Z :=
  r ← st_get;
  value ← st_lift (get (bufferView r) (offset r));
  set_offset (offset r + Z.of_nat width) ≫= fun _ => mret value.

Definition int16 : Rd Z := read_view 2 (get_int 2).
Definition uint8 : Rd Z := read_view 1 (get_be 1).
Definition int32 : Rd Z := read_view 4 (get_int 4).

Definition bytes (len : Z) : Rd (list Z) :=
  r ← st_get;
  set_offset (offset r + len) ≫= fun _ => mret (slice (bufferView r) (offset r) (offset r + len)).

Definition string (len : Z) : Rd jsstr := raw ← bytes len; mret (textDecode raw).

(** [while (getUint8(end++) !== 0) {}]: how far the terminator is. *)
Fixpoint terminator (rest : list Z) : option Z :=
  match rest with
  | [] => None
  | b :: rest => if b =? 0 then Some 0 else Z.succ <$> terminator rest
  end.

Definition cstring : Rd jsstr :=
  r ← st_get;
  st_lift (throw_if ((offset r <? 0) || (byteLength (bufferView r) <? offset r)) RangeError) ≫= fun _ =>
  len ← st_lift (or_throw (terminator (drop (Z.to_nat (offset r)) (bufferView r))) RangeError);
  result ← string len;
  set_offset (offset r + len + 1) ≫= fun _ => mret result.

End BufferReader.

(** ** [Writer] *)

Module BufferWriter.

Record Writer : Type := mkWriter { size : nat; buffer : list Z; offset : nat }.

Abbreviation W := (ST Writer WireError).

Definition allocateBuffer (size : nat) : list Z := replicate size 0.

Definition newWriter (size : nat) : Writer := mkWriter size (allocateBuffer size) 5.

(** Grow by half, plus what is asked for, keeping the content. *)
Definition ensure (len : nat) : W unit :=
  st_modify (fun w =>
    if (length (buffer w) <? offset w + len)%nat then
      let newSize := (length (buffer w) + length (buffer w) / 2 + len)%nat in
      mkWriter (size w) (set_bytes 0 (buffer w) (allocateBuffer newSize)) (offset w)
    else w).

(** Write at the offset, which then advances by [len]. *)
Definition put (source : list Z) (len : nat) : W unit :=
  st_modify (fun w => mkWriter (size w) (set_bytes (offset w) source (buffer w)) (offset w + len)%nat).

(** [setInt32], [setInt16], [setUint8] throw past the end of the view. *)
Definition set_view (source : list Z) : W unit :=
  w ← st_get;
  st_lift (throw_if (length (buffer w) <? offset w + length source)%nat RangeError) ≫= fun _ =>
  put source (length source).

Definition addInt32 (num : Z) : W unit := ensure 4 ≫= fun _ => set_view (be_bytes 4 num).
Definition addInt16 (num : Z) : W unit := ensure 2 ≫= fun _ => set_view (be_bytes 2 num).

Definition addString (s : jsstr) : W unit :=
  let len := Z.to_nat (byteLengthUtf8 s) in
  ensure len ≫= fun _ =>
  w ← st_get;
  put (encodeInto s (length (buffer w) - offset w)) len.

Definition addCString (s : jsstr) : W unit :=
  (match s with [] => mret tt | _ => addString s end) ≫= fun _ =>
  ensure 1 ≫= fun _ =>
  set_view [0].

Definition add (bytes : list Z) : W unit :=
  ensure (length bytes) ≫= fun _ =>
  w ← st_get;
  st_lift (throw_if (length (buffer w) <? offset w + length bytes)%nat RangeError) ≫= fun _ =>
  put bytes (length bytes).

(** The header slot is filled when there is a code; the slice starts after it when there is none. *)
Definition join (code : option Z) : ST Writer WireError (list Z) :=
  w ← st_get;
  match code with
  | Some code =>
      let len := (offset w - 1)%nat in
      let buffer := set_bytes 1 (be_bytes 4 (Z.of_nat len)) (set_bytes 0 (be_bytes 1 code) (buffer w)) in
      st_modify (fun w => mkWriter (size w) buffer (offset w)) ≫= fun _ =>
      mret (subarray buffer 0 (offset w))
  | None => mret (subarray (buffer w) 5 (offset w))
  end.

Definition flush (code : option Z) : ST Writer WireError (list Z) :=
  result ← join code;
  st_modify (fun w => newWriter (size w)) ≫= fun _ => mret result.

End BufferWriter.
