(* ===== verification/WireParser.v ===== *)
(** * Wire protocol: backend messages and the streaming parser

    The messages of protocol/wire/messages.ts and [Parser] of parser.ts. A message is parsed by a
    [BufferReader] over the whole parse buffer, as in the code: a body that claims more than its frame
    holds is read on into the bytes that follow. *)

From S2P Require Export WireBuffers.

(** ** [messages.ts] *)

Inductive MessageName : Type :=
| parseComplete_ | bindComplete_ | closeComplete_ | noData_ | portalSuspended_ | replicationStart_
| emptyQuery_ | copyDone_ | copyData_ | rowDescription_ | parameterDescription_ | parameterStatus_
| backendKeyData_ | notification_ | readyForQuery_ | commandComplete_ | dataRow_ | copyInResponse_
| copyOutResponse_ | authenticationOk_ | authenticationMD5Password_ | authenticationCleartextPassword_
| authenticationSASL_ | authenticationSASLContinue_ | authenticationSASLFinal_ | error_ | notice_.

Inductive Mode : Type := text | binary.

Record Field : Type := mkField {
  f_name : jsstr; f_tableID : Z; f_columnID : Z; f_dataTypeID : Z; f_dataTypeSize : Z; f_dataTypeModifier : Z;
  f_format : Mode }.

(** The fields an ErrorResponse and a NoticeResponse share. *)
Record NoticeOrError : Type := mkNoticeOrError {
  severity : option jsstr; code : option jsstr; detail : option jsstr; hint : option jsstr;
  position : option jsstr; internalPosition : option jsstr; internalQuery : option jsstr;
  where_ : option jsstr; schema : option jsstr; table : option jsstr; column : option jsstr;
  dataType : option jsstr; constraint : option jsstr; file : option jsstr; line : option jsstr;
  routine : option jsstr }.

Definition no_fields : NoticeOrError :=
  mkNoticeOrError None None None None None None None None None None None None None None None None.

(** Each class with the length its header declared; the eight constants are [Complete]. *)
Inductive BackendMessage : Type :=
| Complete (name : MessageName) (length : Z)
| AuthenticationOk (length : Z)
| AuthenticationCleartextPassword (length : Z)
| AuthenticationMD5Password (length : Z) (salt : list Z)
| AuthenticationSASL (length : Z) (mechanisms : list jsstr)
| AuthenticationSASLContinue (length : Z) (data : jsstr)
| AuthenticationSASLFinal (length : Z) (data : jsstr)
| DatabaseError (message : jsstr) (length : Z) (name : MessageName) (fields : NoticeOrError)
| CopyDataMessage (length : Z) (chunk : list Z)
| CopyResponse (length : Z) (name : MessageName) (isBinary : bool) (columnTypes : list Z)
| RowDescriptionMessage (length : Z) (fields : list Field)
| ParameterDescriptionMessage (length : Z) (dataTypeIDs : list Z)
| ParameterStatusMessage (length : Z) (parameterName parameterValue : jsstr)
| BackendKeyDataMessage (length processID secretKey : Z)
| NotificationResponseMessage (length processId : Z) (channel payload : jsstr)
| ReadyForQueryMessage (length : Z) (status : jsstr)
| CommandCompleteMessage (length : Z) (commandText : jsstr)
| DataRowMessage (length : Z) (values : list (option jsstr))
| NoticeMessage (length : Z) (noticeText : option jsstr) (fields : NoticeOrError).

Definition parseComplete : BackendMessage := Complete parseComplete_ 5.
Definition bindComplete : BackendMessage := Complete bindComplete_ 5.
Definition closeComplete : BackendMessage := Complete closeComplete_ 5.
Definition noData : BackendMessage := Complete noData_ 5.
Definition portalSuspended : BackendMessage := Complete portalSuspended_ 5.
Definition replicationStart : BackendMessage := Complete replicationStart_ 4.
Definition emptyQuery : BackendMessage := Complete emptyQuery_ 4.
Definition copyDone : BackendMessage := Complete copyDone_ 4.

(** ** The bodies *)

Module Bodies.
Import BufferReader.

(** [for (let i = 0; i < count; i++) result.push(read())]; a negative count reads nothing. *)
Fixpoint repeat {A} (count : nat) (read : Rd A) : Rd (list A) :=
  match count with
  | O => mret []
  | S count => x ← read; xs ← repeat count read; mret (x :: xs)
  end.
Definition counted {A} (read : Rd A) : Rd (list A) :=
  count ← int16; repeat (Z.to_nat count) read.

(** [this.#setBuffer(offset, bytes)], then the body. *)
Definition run {A} (read : Rd A) (offset : Z) (bytes : list Z) : result WireError A :=
  (read (mkReader bytes offset)).2.

Definition parseReadyForQueryMessage (length : Z) : Rd BackendMessage :=
  status ← string 1; mret (ReadyForQueryMessage length status).

Definition parseCommandCompleteMessage (length : Z) : Rd BackendMessage :=
  text ← cstring; mret (CommandCompleteMessage length text).

Definition parseCopyData (offset length : Z) (bytes : list Z) : BackendMessage :=
  CopyDataMessage length (slice bytes offset (offset + (length - 4))).

Definition parseCopyMessage (length : Z) (messageName : MessageName) : Rd BackendMessage :=
  isBinary ← uint8;
  columnTypes ← counted int16;
  mret (CopyResponse length messageName (negb (isBinary =? 0)) columnTypes).

Definition parseNotificationMessage (length : Z) : Rd BackendMessage :=
  processId ← int32; channel ← cstring; payload ← cstring;
  mret (NotificationResponseMessage length processId channel payload).

Definition parseField : Rd Field :=
  name ← cstring; tableID ← int32; columnID ← int16; dataTypeID ← int32; dataTypeSize ← int16;
  dataTypeModifier ← int32; mode ← int16;
  mret (mkField name tableID columnID dataTypeID dataTypeSize dataTypeModifier
          (if mode =? 0 then text else binary)).

Definition parseRowDescriptionMessage (length : Z) : Rd BackendMessage :=
  fields ← counted parseField; mret (RowDescriptionMessage length fields).

Definition parseParameterDescriptionMessage (length : Z) : Rd BackendMessage :=
  dataTypeIDs ← counted int32; mret (ParameterDescriptionMessage length dataTypeIDs).

(** A length of -1 is SQL NULL. *)
Definition parseValue : Rd (option jsstr) :=
  len ← int32;
  if len =? -1 then mret None else (value ← string len; mret (Some value)).

Definition parseDataRowMessage (length : Z) : Rd BackendMessage :=
  fields ← counted parseValue; mret (DataRowMessage length fields).

Definition parseParameterStatusMessage (length : Z) : Rd BackendMessage :=
  name ← cstring; value ← cstring; mret (ParameterStatusMessage length name value).

Definition parseBackendKeyData (length : Z) : Rd BackendMessage :=
  processID ← int32; secretKey ← int32; mret (BackendKeyDataMessage length processID secretKey).

(** [for (;;) { const mechanism = cstring(); if (mechanism.length === 0) return ...; push }]. Every round
    reads a terminator, so the bytes of the buffer bound the rounds. *)
Fixpoint parseMechanisms (fuel : nat) (length : Z) (mechanisms : list jsstr) : Rd BackendMessage :=
  match fuel with
  | O => st_lift (Throw OutOfFuel)
  | S fuel =>
      mechanism ← cstring;
      match mechanism with
      | [] => mret (AuthenticationSASL length mechanisms)
      | _ => parseMechanisms fuel length (mechanisms ++ [mechanism])
      end
  end.

Definition fuel_of : Rd nat := r ← st_get; mret (S (List.length (bufferView r))).

Definition parseAuthenticationResponse (length : Z) : Rd BackendMessage :=
  code ← int32;
  if code =? 0 then mret (AuthenticationOk length)
  else if code =? 3 then mret (AuthenticationCleartextPassword length)
  else if code =? 5 then (salt ← bytes 4; mret (AuthenticationMD5Password length salt))
  else if code =? 10 then (fuel ← fuel_of; parseMechanisms fuel length [])
  else if code =? 11 then (data ← string (length - 8); mret (AuthenticationSASLContinue length data))
  else if code =? 12 then (data ← string (length - 8); mret (AuthenticationSASLFinal length data))
  else st_lift (Throw (UnknownAuthentication code)).

(** [while (fieldType !== "\0") { fields[fieldType] = cstring(); fieldType = string(1); }] *)
Fixpoint parseErrorFields (fuel : nat) (fields : gmap jsstr jsstr) : Rd (gmap jsstr jsstr) :=
  match fuel with
  | O => st_lift (Throw OutOfFuel)
  | S fuel =>
      fieldType ← string 1;
      if bool_decide (fieldType = [0]) then mret fields
      else (value ← cstring; parseErrorFields fuel (<[fieldType := value]> fields))
  end.

Definition noticeOrError (fields : gmap jsstr jsstr) : NoticeOrError :=
  let at_ s := fields !! js s in
  mkNoticeOrError (at_ "S") (at_ "C") (at_ "D") (at_ "H") (at_ "P") (at_ "p") (at_ "q") (at_ "W")
    (at_ "s") (at_ "t") (at_ "c") (at_ "d") (at_ "n") (at_ "F") (at_ "L") (at_ "R").

Definition parseErrorMessage (length : Z) (name : MessageName) : Rd BackendMessage :=
  fuel ← fuel_of;
  fields ← parseErrorFields fuel ∅;
  let messageValue := fields !! js "M" in
  mret (match name with
        | notice_ => NoticeMessage length messageValue (noticeOrError fields)
        | _ => DatabaseError (default [] messageValue) length name (noticeOrError fields)
        end).

(** [code.toString(16)] *)
Definition hexDigit (d : Z) : Z := if d <? 10 then 48 + d else 87 + d.
Definition hex (code : Z) : jsstr :=
  if code <? 16 then [hexDigit code] else [hexDigit (code / 16); hexDigit (code mod 16)].

Definition handlePacket (offset code length : Z) (bytes : list Z) : result WireError BackendMessage :=
  if code =? 0x32 then Ok bindComplete
  else if code =? 0x31 then Ok parseComplete
  else if code =? 0x33 then Ok closeComplete
  else if code =? 0x6e then Ok noData
  else if code =? 0x73 then Ok portalSuspended
  else if code =? 0x63 then Ok copyDone
  else if code =? 0x57 then Ok replicationStart
  else if code =? 0x49 then Ok emptyQuery
  else if code =? 0x44 then run (parseDataRowMessage length) offset bytes
  else if code =? 0x43 then run (parseCommandCompleteMessage length) offset bytes
  else if code =? 0x5a then run (parseReadyForQueryMessage length) offset bytes
  else if code =? 0x41 then run (parseNotificationMessage length) offset bytes
  else if code =? 0x52 then run (parseAuthenticationResponse length) offset bytes
  else if code =? 0x53 then run (parseParameterStatusMessage length) offset bytes
  else if code =? 0x4b then run (parseBackendKeyData length) offset bytes
  else if code =? 0x45 then run (parseErrorMessage length error_) offset bytes
  else if code =? 0x4e then run (parseErrorMessage length notice_) offset bytes
  else if code =? 0x54 then run (parseRowDescriptionMessage length) offset bytes
  else if code =? 0x74 then run (parseParameterDescriptionMessage length) offset bytes
  else if code =? 0x47 then run (parseCopyMessage length copyInResponse_) offset bytes
  else if code =? 0x48 then run (parseCopyMessage length copyOutResponse_) offset bytes
  else if code =? 0x64 then Ok (parseCopyData offset length bytes)
  else Ok (DatabaseError (js "received invalid response: " ++ hex code) length error_ no_fields).

End Bodies.

(** ** [Parser] *)

Module Parser.

Record Parser : Type := mkParser { bufferView : list Z; bufferRemainingLength : Z; bufferOffset : Z }.

Definition newParser : Parser := mkParser [] 0 0.

Definition resetBuffer (p : Parser) : Parser := newParser.

Definition CODE_LENGTH : Z := 1.
Definition LEN_LENGTH : Z := 4.
Definition HEADER_LENGTH : Z := CODE_LENGTH + LEN_LENGTH.

(** [while (newLength >= newBufferLength) newBufferLength *= 2]; the buffer is not empty when bytes are
    pending, so the length grows by at least one each round. *)
Fixpoint grow (fuel : nat) (newLength newBufferLength : Z) : Z :=
  match fuel with
  | O => newBufferLength
  | S fuel => if newBufferLength <=? newLength then grow fuel newLength (newBufferLength * 2) else newBufferLength
  end.

Definition mergeBuffer (buffer : list Z) (p : Parser) : Parser :=
  let view := bufferView p in
  let remaining := bufferRemainingLength p in
  if 0 <? remaining then
    let newLength := remaining + byteLength buffer in
    let newFullLength := newLength + bufferOffset p in
    let '(view, offset) :=
      if byteLength view <? newFullLength then
        let newBuffer :=
          if (newLength <=? byteLength view) && (remaining <=? bufferOffset p) then view
          else replicate (Z.to_nat (grow (Z.to_nat newLength) newLength (byteLength view * 2))) 0 in
        let pending := subarray view (Z.to_nat (bufferOffset p)) (Z.to_nat (bufferOffset p + remaining)) in
        (set_bytes 0 pending newBuffer, 0)
      else (view, bufferOffset p) in
    mkParser (set_bytes (Z.to_nat (offset + remaining)) buffer view) newLength offset
  else mkParser buffer (byteLength buffer) 0.

(** [parse] delivers each complete message to a callback that works on the caller's state and may throw. *)
Section Callback.
Context {World : Type} (callback : BackendMessage -> ST World WireError unit).

Abbreviation P := (ST (Parser * World) WireError).

Definition on_parser (f : Parser -> Parser) : P unit := st_modify (fun '(p, w) => (f p, w)).
Definition deliver (message : BackendMessage) : P unit :=
  fun '(p, w) => let (w, r) := callback message w in ((p, w), r).

(** The [while] loop; the fuel is the length of the buffer, and each round consumes at least two bytes. *)
Fixpoint parseLoop (fuel : nat) (offset bufferFullLength : Z) : P Z :=
  match fuel with
  | O => mret offset
  | S fuel =>
      if offset + HEADER_LENGTH <=? bufferFullLength then
        '(p, _) ← st_get;
        code ← st_lift (get_be 1 (bufferView p) offset);
        length ← st_lift (get_be 4 (bufferView p) (offset + CODE_LENGTH));
        let fullMessageLength := CODE_LENGTH + length in
        if (fullMessageLength + offset <=? bufferFullLength) && (0 <? length) then
          match Bodies.handlePacket (offset + HEADER_LENGTH) code length (bufferView p) with
          | Throw error => on_parser resetBuffer ≫= fun _ => st_lift (Throw error)
          | Ok message => deliver message ≫= fun _ => parseLoop fuel (offset + fullMessageLength) bufferFullLength
          end
        else mret offset
      else mret offset
  end.

Definition parse (buffer : list Z) : P unit :=
  on_parser (mergeBuffer buffer) ≫= fun _ =>
  '(p, _) ← st_get;
  let bufferFullLength := bufferOffset p + bufferRemainingLength p in
  offset ← parseLoop (Z.to_nat bufferFullLength) (bufferOffset p) bufferFullLength;
  on_parser (fun p =>
    if offset =? bufferFullLength then resetBuffer p
    else mkParser (bufferView p) (bufferFullLength - offset) offset).
End Callback.

End Parser.
