(* ===== verification/WireLaws.v ===== *)
(** * Wire protocol: reading what was written

    The replacing decoder inverts the encoder, and a read of [BufferReader] consumes exactly the bytes of
    its value, whatever surrounds them. *)

From S2P Require Export Utf8 CodecLaws WireParser.

(** ** Big-endian integers *)

Lemma length_be_bytes n v : length (be_bytes n v) = n.
Proof. unfold be_bytes. by rewrite length_rev, length_le_bytes. Qed.

Lemma be_value_bytes n v : 0 <= v < 256 ^ Z.of_nat n -> be_value (be_bytes n v) = v.
Proof. intros H. unfold be_value, be_bytes. rewrite rev_involutive. by apply le_value_bytes. Qed.

Lemma le_bytes_mod n v : le_bytes n (v mod 256 ^ Z.of_nat n) = le_bytes n v.
Proof.
  revert v. induction n as [|n IH]; intros v; cbn [le_bytes]; [done|].
  rewrite Nat2Z.inj_succ, Z.pow_succ_r by lia. pose proof (Z.pow_pos_nonneg 256 (Z.of_nat n) ltac:(lia) ltac:(lia)) as Hp.
  rewrite Z.rem_mul_r by lia. f_equal.
  - rewrite Z.add_mod, (Z.mul_comm 256), Z.mod_mul, Z.add_0_r, !Z.mod_mod; lia.
  - rewrite (Z.mul_comm 256), Z.div_add, (Z.div_small (v mod 256)) by (try apply Z.mod_pos_bound; lia). apply IH.
Qed.

Lemma be_value_mod n v : be_value (be_bytes n v) = v mod 256 ^ Z.of_nat n.
Proof.
  unfold be_bytes. rewrite <- le_bytes_mod. apply be_value_bytes. apply Z.mod_pos_bound. apply Z.pow_pos_nonneg; lia.
Qed.

Lemma be_value_range bs : Forall byte bs -> 0 <= be_value bs < 256 ^ Z.of_nat (length bs).
Proof. intros H. unfold be_value. rewrite <- (length_rev bs). apply le_value_range. by apply Forall_rev. Qed.

Lemma be_bytes_byte n v : Forall byte (be_bytes n v).
Proof. apply Forall_rev, le_bytes_byte. Qed.

(** A value of the signed width. *)
Definition int_ok (n : nat) (v : Z) : Prop := - 2 ^ (8 * Z.of_nat n - 1) <= v < 2 ^ (8 * Z.of_nat n - 1).

Lemma signed_value n v : (0 < n)%nat -> int_ok n v -> signed n (be_value (be_bytes n v)) = v.
Proof.
  intros Hn [Hl Hu]. rewrite be_value_mod. unfold signed.
  set (h := 2 ^ (8 * Z.of_nat n - 1)) in *.
  assert (E : 256 ^ Z.of_nat n = 2 * h).
  { unfold h. change 256 with (2 ^ 8). rewrite <- Z.pow_mul_r, <- Z.pow_succ_r by lia. f_equal. lia. }
  assert (E' : 2 ^ (8 * Z.of_nat n) = 2 * h) by (unfold h; rewrite <- Z.pow_succ_r by lia; f_equal; lia).
  assert (0 < h) by (apply Z.pow_pos_nonneg; lia).
  rewrite E, E'. destruct (Z.lt_ge_cases v 0).
  - assert (v mod (2 * h) = v + 2 * h) as -> by (symmetry; apply Z.mod_unique_pos with (-1); lia). case_match; propify; lia.
  - rewrite Z.mod_small by lia. case_match; propify; lia.
Qed.

(** ** Sub-arrays of concatenations *)

Lemma byteLength_nonneg bs : 0 <= byteLength bs.
Proof. unfold byteLength. lia. Qed.

Lemma subarray_mid (pre bs post : list Z) (start stop : nat) :
  start = length pre -> stop = (length pre + length bs)%nat -> subarray (pre ++ bs ++ post) start stop = bs.
Proof.
  intros -> ->. unfold subarray. rewrite drop_app_length.
  replace (length pre + length bs - length pre)%nat with (length bs) by lia. apply take_app_length.
Qed.

Lemma slice_mid (pre bs post : list Z) (start stop : Z) :
  start = byteLength pre -> stop = byteLength pre + byteLength bs -> slice (pre ++ bs ++ post) start stop = bs.
Proof.
  intros -> ->. unfold slice, relative. apply subarray_mid; unfold byteLength; rewrite !length_app;
    case_match; propify; lia.
Qed.

Lemma get_be_mid n (pre bs post : list Z) offset : offset = byteLength pre -> length bs = n ->
  get_be n (pre ++ bs ++ post) offset = Ok (be_value bs).
Proof.
  intros -> Hn. unfold get_be. destruct (_ || _) eqn:E.
  - propify. unfold byteLength in E. rewrite !length_app in E. destruct E; propify; lia.
  - cbn. do 2 f_equal. apply subarray_mid; unfold byteLength; lia.
Qed.

(** Copying over the middle of a buffer. *)
Lemma set_bytes_mid (pre bs old post : list Z) n : n = length pre -> length bs = length old ->
  set_bytes n bs (pre ++ old ++ post) = pre ++ bs ++ post.
Proof.
  intros -> Hl. unfold set_bytes. rewrite take_app_length. f_equal. f_equal.
  rewrite Hl, <- length_app, app_assoc. apply drop_app_length.
Qed.

Lemma set_bytes_room (pre bs room : list Z) n : n = length pre -> (length bs <= length room)%nat ->
  set_bytes n bs (pre ++ room) = pre ++ bs ++ drop (length bs) room.
Proof.
  intros Hn Hl. rewrite <- (take_drop (length bs) room) at 1. apply set_bytes_mid; [done|]. rewrite length_take. lia.
Qed.

(** ** The replacing decoder *)

Lemma decode_from_step b bs d out d' : decode_byte d b = (out, d') -> decode_from d (b :: bs) = out ++ decode_from d' bs.
Proof. intros E. cbn [decode_from]. by rewrite E. Qed.

Lemma decode_lead_1 c : 0 <= c <= 0x7f -> decode_byte decoder_start c = ([c], decoder_start).
Proof. intros H. cbn. unfold decode_lead. by decide_tests. Qed.

(** A continuation byte of a sequence, in the middle and at the end. *)
Lemma decode_more p n lo hi b : lo <= b <= hi ->
  decode_byte (mkDecoder p (S (S n)) lo hi) b = ([], mkDecoder (p * 64 + (b - 0x80)) (S n) 0x80 0xbf).
Proof. intros H. unfold decode_byte. cbn [d_needed d_lower d_upper d_point]. by decide_tests. Qed.

Lemma decode_last p lo hi b : lo <= b <= hi ->
  decode_byte (mkDecoder p 1 lo hi) b = (utf16 (p * 64 + (b - 0x80)), decoder_start).
Proof. intros H. unfold decode_byte. cbn [d_needed d_lower d_upper d_point]. by decide_tests. Qed.

Lemma decode_lead_2 b : 0xc2 <= b <= 0xdf -> decode_byte decoder_start b = ([], mkDecoder (b - 0xc0) 1 0x80 0xbf).
Proof. intros H. cbn. unfold decode_lead. by decide_tests. Qed.

Lemma decode_lead_3 b : 0xe0 <= b <= 0xef -> decode_byte decoder_start b =
  ([], mkDecoder (b - 0xe0) 2 (if b =? 0xe0 then 0xa0 else 0x80) (if b =? 0xed then 0x9f else 0xbf)).
Proof.
  intros H. cbn. unfold decode_lead.
  rewrite (proj2 (Z.leb_gt b 0x7f)), (proj2 (Z.leb_gt b 0xdf)), andb_false_r by lia.
  by rewrite (proj2 (Z.leb_le 0xe0 b)), (proj2 (Z.leb_le b 0xef)) by lia.
Qed.

Lemma decode_lead_4 b : 0xf0 <= b <= 0xf4 -> decode_byte decoder_start b =
  ([], mkDecoder (b - 0xf0) 3 (if b =? 0xf0 then 0x90 else 0x80) (if b =? 0xf4 then 0x8f else 0xbf)).
Proof.
  intros H. cbn. unfold decode_lead.
  rewrite (proj2 (Z.leb_gt b 0x7f)), (proj2 (Z.leb_gt b 0xdf)), (proj2 (Z.leb_gt b 0xef)), !andb_false_r by lia.
  by rewrite (proj2 (Z.leb_le 0xf0 b)), (proj2 (Z.leb_le b 0xf4)) by lia.
Qed.

Lemma decode_encoded s rest : js_string s -> well_formed s ->
  decode_from decoder_start (utf8_encode s ++ rest) = s ++ decode_from decoder_start rest.
Proof.
  intros Hs [n Hn].
  refine (text_ind (fun s => decode_from decoder_start (utf8_encode s ++ rest) = s ++ decode_from decoder_start rest)
    _ _ _ _ _ s Hs 0 n Hn); clear s Hs n Hn; [done| | | |].
  - intros c s Hc IH. rewrite encode_1 by done. cbn [app]. rewrite (decode_from_step _ _ _ _ _ (decode_lead_1 c Hc)). cbn. by rewrite IH.
  - intros c s Hc IH. rewrite encode_2 by done. cbn [app].
    rewrite (decode_from_step _ _ _ _ _ (decode_lead_2 (0xc0 + c / 64) ltac:(bits))), (decode_from_step _ _ _ _ _ (decode_last _ 0x80 0xbf (0x80 + c mod 64) ltac:(bits))).
    replace ((0xc0 + c / 64 - 0xc0) * 64 + (0x80 + c mod 64 - 0x80)) with c by bits.
    unfold utf16. decide_tests. cbn. by rewrite IH.
  - intros c s Hc Hsur IH. rewrite encode_3 by done. unfold utf8_3. cbn [app].
    rewrite (decode_from_step _ _ _ _ _ (decode_lead_3 (0xe0 + c / 4096) ltac:(bits))).
    rewrite (decode_from_step _ _ _ _ _ (decode_more _ 0 (if 0xe0 + c / 4096 =? 0xe0 then 0xa0 else 0x80) (if 0xe0 + c / 4096 =? 0xed then 0x9f else 0xbf) (0x80 + (c / 64) mod 64)
      ltac:(destruct (Z.eqb_spec (0xe0 + c / 4096) 0xe0), (Z.eqb_spec (0xe0 + c / 4096) 0xed); bits))).
    rewrite (decode_from_step _ _ _ _ _ (decode_last _ 0x80 0xbf (0x80 + c mod 64) ltac:(bits))). cbn [app].
    replace (((0xe0 + c / 4096 - 0xe0) * 64 + (0x80 + (c / 64) mod 64 - 0x80)) * 64 + (0x80 + c mod 64 - 0x80)) with c by bits.
    unfold utf16. decide_tests. cbn. by rewrite IH.
  - intros h l s Hh Hl IH. rewrite encode_4 by done. unfold utf8_4. set (c := code_point h l).
    assert (Hc : 0x10000 <= c <= 0x10ffff) by (unfold c, code_point; lia). cbn [app].
    rewrite (decode_from_step _ _ _ _ _ (decode_lead_4 (0xf0 + c / 262144) ltac:(bits))).
    rewrite (decode_from_step _ _ _ _ _ (decode_more _ 1 (if 0xf0 + c / 262144 =? 0xf0 then 0x90 else 0x80) (if 0xf0 + c / 262144 =? 0xf4 then 0x8f else 0xbf) (0x80 + (c / 4096) mod 64)
      ltac:(destruct (Z.eqb_spec (0xf0 + c / 262144) 0xf0), (Z.eqb_spec (0xf0 + c / 262144) 0xf4); bits))).
    rewrite (decode_from_step _ _ _ _ _ (decode_more _ 0 0x80 0xbf (0x80 + (c / 64) mod 64) ltac:(bits))).
    rewrite (decode_from_step _ _ _ _ _ (decode_last _ 0x80 0xbf (0x80 + c mod 64) ltac:(bits))). cbn [app].
    replace ((((0xf0 + c / 262144 - 0xf0) * 64 + (0x80 + (c / 4096) mod 64 - 0x80)) * 64 + (0x80 + (c / 64) mod 64 - 0x80)) * 64
      + (0x80 + c mod 64 - 0x80)) with c by bits.
    unfold utf16. decide_tests. rewrite IH. cbn [app]. unfold c, code_point in *. repeat f_equal; bits.
Qed.

(** A text that survives the wire. *)
Definition wire_text (s : jsstr) : Prop := text_ok s /\ well_formed s.

Lemma textDecode_encode s : wire_text s -> textDecode (utf8_encode s) = s.
Proof.
  intros [[Hs Hb] Hw]. unfold textDecode. pose proof (decode_encoded s [] Hs Hw) as E. rewrite !app_nil_r in E. rewrite E.
  destruct s as [|c s]; [done|]. destruct (Z.eqb_spec c BOM) as [->|]; [by destruct Hb|done].
Qed.

(** ** Wire protocol: the formats of the backend messages

    What the protocol says the server sends, as an inductive relation between a type byte, a body and
    the message it stands for, and that [handlePacket] decodes every such message from its own bytes,
    whatever surrounds them in the parse buffer. *)

Import BufferReader Bodies.

(** [m] reads exactly [bs], at any place of any buffer, and returns [v]. *)
Definition consumes {A} (m : Rd A) (bs : list Z) (v : A) : Prop :=
  forall pre post,
    m (mkReader (pre ++ bs ++ post) (byteLength pre)) = (mkReader (pre ++ bs ++ post) (byteLength (pre ++ bs)), Ok v).

Lemma consumes_ret {A} (v : A) : consumes (mret v) [] v.
Proof. intros pre post. by rewrite app_nil_r. Qed.

Section Consumes.
Context {A B : Type}.

Lemma consumes_bind (m : Rd A) (k : A -> Rd B) a b x y : consumes m a x -> consumes (k x) b y -> consumes (m ≫= k) (a ++ b) y.
Proof.
  intros Hm Hk pre post. rewrite <- (app_assoc a b post). unfold mbind, ST_bind. rewrite Hm.
  specialize (Hk (pre ++ a) post). rewrite <- !(app_assoc pre a) in Hk. by rewrite (app_assoc pre a b) in *.
Qed.

(** The last read of a body, and a computation on its value. *)
Lemma consumes_map (m : Rd A) (f : A -> B) a x : consumes m a x -> consumes (m ≫= fun v => mret (f v)) a (f x).
Proof. intros Hm. rewrite <- (app_nil_r a). eapply consumes_bind; [done|]. apply consumes_ret. Qed.

Lemma consumes_map_eq (m : Rd A) (f : A -> B) a x y : consumes m a x -> f x = y -> consumes (m ≫= fun v => mret (f v)) a y.
Proof. intros Hm <-. by apply consumes_map. Qed.
End Consumes.

Lemma bind_offset {A} position (k : unit -> Rd A) view off :
  (set_offset position ≫= k) (mkReader view off) = k tt (mkReader view position).
Proof. reflexivity. Qed.

Lemma consumes_view width (get : list Z -> Z -> result WireError Z) bs v : length bs = width ->
  (forall pre post, get (pre ++ bs ++ post) (byteLength pre) = Ok v) -> consumes (read_view width get) bs v.
Proof.
  intros Hn Hg pre post. unfold read_view. rewrite st_bind_get, st_bind_lift. cbn [bufferView BufferReader.offset]. rewrite Hg, bind_offset.
  unfold mret, ST_ret. do 2 f_equal. rewrite byteLength_app. unfold byteLength. lia.
Qed.

Lemma consumes_int (n : nat) v : (0 < n)%nat -> int_ok n v -> consumes (read_view n (get_int n)) (be_bytes n v) v.
Proof.
  intros Hn Hv. apply consumes_view; [apply length_be_bytes|]. intros pre post. unfold get_int.
  rewrite (get_be_mid n) by (done || apply length_be_bytes). cbn. by rewrite signed_value.
Qed.

Lemma consumes_int16 v : int_ok 2 v -> consumes int16 (be_bytes 2 v) v.
Proof. apply consumes_int. lia. Qed.
Lemma consumes_int32 v : int_ok 4 v -> consumes int32 (be_bytes 4 v) v.
Proof. apply consumes_int. lia. Qed.

Lemma consumes_uint8 b : 0 <= b < 256 -> consumes uint8 [b] b.
Proof.
  intros Hb. apply consumes_view; [done|]. intros pre post. rewrite (get_be_mid 1) by done. cbn.
  unfold be_value. cbn. f_equal. lia.
Qed.

Lemma consumes_bytes bs n : n = byteLength bs -> consumes (bytes n) bs bs.
Proof.
  intros -> pre post. unfold bytes. rewrite st_bind_get, bind_offset. cbn. rewrite slice_mid by done. by rewrite byteLength_app.
Qed.

Lemma consumes_string s n : wire_text s -> n = byteLength (utf8_encode s) -> consumes (string n) (utf8_encode s) s.
Proof.
  intros Hs Hn. unfold string. rewrite <- (textDecode_encode s Hs) at 2. by apply consumes_map, consumes_bytes.
Qed.

(** A text without a NUL, followed by its terminator. *)
Definition c_text (s : jsstr) : Prop := wire_text s /\ 0 ∉ s.
Definition c_bytes (s : jsstr) : list Z := utf8_encode s ++ [0].

Lemma length_c_bytes s : (0 < length (c_bytes s))%nat.
Proof. unfold c_bytes. rewrite length_app. cbn [length]. lia. Qed.

Lemma encode_no_nul s : js_string s -> well_formed s -> 0 ∉ s -> 0 ∉ utf8_encode s.
Proof.
  intros Hs [n Hn]. refine (text_ind (fun s => 0 ∉ s -> 0 ∉ utf8_encode s) _ _ _ _ _ s Hs 0 n Hn); clear s Hs n Hn; [set_solver|..];
    intros * ?; [| |intros ?|intros ?]; intros IH Hs.
  all: rewrite ?not_elem_of_cons in Hs; destruct_and? Hs.
  - rewrite encode_1, not_elem_of_cons by done. auto.
  - rewrite encode_2, !not_elem_of_cons by done. split; [bits|]. split; [bits|]. auto.
  - rewrite encode_3, not_elem_of_app by done. unfold utf8_3. rewrite !not_elem_of_cons.
    split; [split_and!; [bits..|apply not_elem_of_nil]|auto].
  - rewrite encode_4, not_elem_of_app by done. unfold utf8_4. rewrite !not_elem_of_cons.
    unfold code_point. split; [split_and!; [bits..|apply not_elem_of_nil]|auto].
Qed.

(** ASCII without a NUL is such a text. *)
Lemma ascii_c_text text : Forall (fun c => 0 < c <= 127) text -> c_text text /\ utf8_encode text = text.
Proof.
  intros H. assert (He : utf8_encode text = text) by (apply ascii_encode; eapply Forall_impl; [exact H|]; cbn; lia).
  assert (Hw : well_formed text).
  { induction H as [|c l Hc _ IH]; [by exists 0|]. rewrite encode_1 in He by lia. injection He as He.
    destruct (well_formed_step l 1 (IH He)) as [n Hn]. exists n. unfold utf8Length. cbn [utf8Length_from].
    by rewrite (proj2 (Z.leb_le c 0x7f)) by lia. }
  split; [|done]. repeat split; [|destruct H; [done|]|done|].
  - eapply Forall_impl; [exact H|]. unfold code_unit. cbn. lia.
  - cbn. unfold BOM. intros [= ->]. lia.
  - intros Hz. rewrite Forall_forall in H. specialize (H 0 Hz). cbn in H. lia.
Qed.

Lemma terminator_app bs post : 0 ∉ bs -> terminator (bs ++ 0 :: post) = Some (byteLength bs).
Proof.
  induction bs as [|b bs IH]; intros H; [done|]. cbn. rewrite not_elem_of_cons in H.
  rewrite (proj2 (Z.eqb_neq b 0)), IH by naive_solver. cbn. f_equal. unfold byteLength. cbn. lia.
Qed.

Lemma consumes_cstring s : c_text s -> consumes cstring (c_bytes s) s.
Proof.
  intros [Hs Hn] pre post. unfold cstring, c_bytes. rewrite st_bind_get, st_bind_lift. cbn [BufferReader.offset bufferView].
  destruct (throw_if _ _) as [[]|e] eqn:Et.
  2:{ apply throw_if_Throw in Et as [Et _]. propify. unfold byteLength in Et. rewrite !length_app in Et. destruct Et; propify; lia. }
  replace (Z.to_nat (byteLength pre)) with (length pre) by (unfold byteLength; lia).
  rewrite drop_app_length, <- (app_assoc _ [0] post). cbn [app]. pose proof Hs as [[Hj _] Hw]. rewrite terminator_app by (by apply encode_no_nul).
  rewrite st_bind_lift. cbn [or_throw].
  pose proof (consumes_string s _ Hs eq_refl pre (0 :: post)) as Hr. rewrite (st_bind_run _ _ _ _ _ Hr).
  rewrite bind_offset. unfold mret, ST_ret. do 2 f_equal. rewrite !byteLength_app. change (byteLength [0]) with 1. lia.
Qed.

(** ** Repeated reads *)

Lemma consumes_repeat {A} (read : Rd A) (enc : A -> list Z) l : Forall (fun x => consumes read (enc x) x) l ->
  consumes (Bodies.repeat (length l) read) (concat (enc <$> l)) l.
Proof.
  induction 1 as [|x l Hx _ IH]; [apply consumes_ret|]. cbn [length Bodies.repeat fmap list_fmap concat].
  eapply consumes_bind; [done|]. by eapply (consumes_map _ (cons x)).
Qed.

(** A list preceded by its 16-bit length. *)
Definition counted_bytes {A} (enc : A -> list Z) (l : list A) : list Z :=
  be_bytes 2 (Z.of_nat (length l)) ++ concat (enc <$> l).

Lemma consumes_counted {A} (read : Rd A) (enc : A -> list Z) l : Z.of_nat (length l) < 2 ^ 15 ->
  Forall (fun x => consumes read (enc x) x) l -> consumes (counted read) (counted_bytes enc l) l.
Proof.
  intros Hn Hl. eapply consumes_bind; [apply consumes_int16; unfold int_ok; lia|]. rewrite Nat2Z.id. by apply consumes_repeat.
Qed.

(** Reads whose fuel is the size of the buffer. *)
Definition consumes_fuelled {A} (m : nat -> Rd A) (bs : list Z) (v : A) : Prop :=
  forall fuel, (length bs < fuel)%nat -> consumes (m fuel) bs v.

Lemma consumes_fuel {A} (m : nat -> Rd A) bs v : consumes_fuelled m bs v -> consumes (fuel ← fuel_of; m fuel) bs v.
Proof.
  intros H pre post. unfold fuel_of. rewrite (st_bind_run _ _ _ (mkReader (pre ++ bs ++ post) (byteLength pre)) _ eq_refl).
  apply H. cbn. rewrite !length_app. lia.
Qed.

(** ** The formats

    [Format code body message]: a server message with this type byte and this body stands for [message length],
    where [length] is the length its header declares. *)

Definition empty_bodies : list (Z * BackendMessage) :=
  [(0x31, parseComplete); (0x32, bindComplete); (0x33, closeComplete); (0x6e, noData); (0x73, portalSuspended);
   (0x63, copyDone); (0x57, replicationStart); (0x49, emptyQuery)].

Definition field_bytes (f : Field) : list Z :=
  c_bytes (f_name f) ++ be_bytes 4 (f_tableID f) ++ be_bytes 2 (f_columnID f) ++ be_bytes 4 (f_dataTypeID f)
  ++ be_bytes 2 (f_dataTypeSize f) ++ be_bytes 4 (f_dataTypeModifier f)
  ++ be_bytes 2 (match f_format f with text => 0 | binary => 1 end).
Definition field_ok (f : Field) : Prop :=
  c_text (f_name f) /\ int_ok 4 (f_tableID f) /\ int_ok 2 (f_columnID f) /\ int_ok 4 (f_dataTypeID f)
  /\ int_ok 2 (f_dataTypeSize f) /\ int_ok 4 (f_dataTypeModifier f).

Definition value_bytes (v : option jsstr) : list Z :=
  match v with
  | Some s => be_bytes 4 (byteLength (utf8_encode s)) ++ utf8_encode s
  | None => be_bytes 4 (-1)
  end.
Definition value_ok (v : option jsstr) : Prop :=
  match v with Some s => wire_text s /\ byteLength (utf8_encode s) < 2 ^ 31 | None => True end.

(** The tagged fields of an error or a notice: a one-byte tag, then a text. *)
Definition tagged_bytes (t : Z * jsstr) : list Z := t.1 :: c_bytes t.2.
Definition tagged_ok (t : Z * jsstr) : Prop := 0 < t.1 <= 0x7f /\ c_text t.2.
Definition tagged_map (l : list (Z * jsstr)) : gmap jsstr jsstr := foldl (fun m t => <[[t.1] := t.2]> m) ∅ l.

Inductive Format : Z -> list Z -> (Z -> BackendMessage) -> Prop :=
| FormatEmpty code m : (code, m) ∈ empty_bodies -> Format code [] (fun _ => m)
| FormatReady status : 0 <= status <= 0x7f -> Format 0x5a [status] (fun n => ReadyForQueryMessage n [status])
| FormatCommand s : c_text s -> Format 0x43 (c_bytes s) (fun n => CommandCompleteMessage n s)
| FormatCopyData chunk : Forall byte chunk -> Format 0x64 chunk (fun n => CopyDataMessage n chunk)
| FormatCopy code name flag types :
    (code, name) ∈ [(0x47, copyInResponse_); (0x48, copyOutResponse_)] -> 0 <= flag <= 1 ->
    Forall (int_ok 2) types -> Z.of_nat (length types) < 2 ^ 15 ->
    Format code (flag :: counted_bytes (be_bytes 2) types) (fun n => CopyResponse n name (flag =? 1) types)
| FormatNotification pid channel payload : int_ok 4 pid -> c_text channel -> c_text payload ->
    Format 0x41 (be_bytes 4 pid ++ c_bytes channel ++ c_bytes payload)
      (fun n => NotificationResponseMessage n pid channel payload)
| FormatRowDescription fields : Forall field_ok fields -> Z.of_nat (length fields) < 2 ^ 15 ->
    Format 0x54 (counted_bytes field_bytes fields) (fun n => RowDescriptionMessage n fields)
| FormatParameters ids : Forall (int_ok 4) ids -> Z.of_nat (length ids) < 2 ^ 15 ->
    Format 0x74 (counted_bytes (be_bytes 4) ids) (fun n => ParameterDescriptionMessage n ids)
| FormatDataRow values : Forall value_ok values -> Z.of_nat (length values) < 2 ^ 15 ->
    Format 0x44 (counted_bytes value_bytes values) (fun n => DataRowMessage n values)
| FormatStatus name value : c_text name -> c_text value ->
    Format 0x53 (c_bytes name ++ c_bytes value) (fun n => ParameterStatusMessage n name value)
| FormatKeyData pid key : int_ok 4 pid -> int_ok 4 key ->
    Format 0x4b (be_bytes 4 pid ++ be_bytes 4 key) (fun n => BackendKeyDataMessage n pid key)
| FormatAuthenticationOk : Format 0x52 (be_bytes 4 0) AuthenticationOk
| FormatCleartext : Format 0x52 (be_bytes 4 3) AuthenticationCleartextPassword
| FormatMD5 salt : Forall byte salt -> length salt = 4%nat ->
    Format 0x52 (be_bytes 4 5 ++ salt) (fun n => AuthenticationMD5Password n salt)
| FormatSASL mechanisms : Forall (fun s => c_text s /\ s <> []) mechanisms ->
    Format 0x52 (be_bytes 4 10 ++ concat (c_bytes <$> mechanisms) ++ [0]) (fun n => AuthenticationSASL n mechanisms)
| FormatContinue data : wire_text data ->
    Format 0x52 (be_bytes 4 11 ++ utf8_encode data) (fun n => AuthenticationSASLContinue n data)
| FormatFinal data : wire_text data ->
    Format 0x52 (be_bytes 4 12 ++ utf8_encode data) (fun n => AuthenticationSASLFinal n data)
| FormatError tags : Forall tagged_ok tags ->
    Format 0x45 (concat (tagged_bytes <$> tags) ++ [0])
      (fun n => DatabaseError (default [] (tagged_map tags !! js "M")) n error_ (noticeOrError (tagged_map tags)))
| FormatNotice tags : Forall tagged_ok tags ->
    Format 0x4e (concat (tagged_bytes <$> tags) ++ [0])
      (fun n => NoticeMessage n (tagged_map tags !! js "M") (noticeOrError (tagged_map tags))).

(** ** Every format is decoded *)

(** One read after the other; the last one before the result. *)
Create HintDb wire.
#[local] Hint Resolve consumes_int16 consumes_int32 consumes_uint8 consumes_cstring consumes_string consumes_bytes : wire.
Ltac consume :=
  repeat first [ apply consumes_map; solve [eauto with wire]
               | eapply consumes_bind; [solve [eauto with wire]|cbv beta] ].

Lemma consumes_field f : field_ok f -> consumes parseField (field_bytes f) f.
Proof.
  intros (? & ? & ? & ? & ? & ?). unfold parseField, field_bytes. consume.
  destruct f as [? ? ? ? ? ? fmt]; destruct fmt;
    by eapply consumes_map_eq; [apply consumes_int16|].
Qed.

Lemma consumes_value v : value_ok v -> consumes parseValue (value_bytes v) v.
Proof.
  unfold parseValue. destruct v as [s|]; cbn [value_ok value_bytes].
  - intros [Hs Hn]. pose proof (byteLength_nonneg (utf8_encode s)).
    eapply consumes_bind; [apply consumes_int32; unfold int_ok; lia|].
    rewrite (proj2 (Z.eqb_neq _ (-1))) by lia. by apply (consumes_map _ Some), consumes_string.
  - intros _. rewrite <- (app_nil_r (be_bytes 4 (-1))). eapply consumes_bind; [by apply consumes_int32|]. apply consumes_ret.
Qed.

Lemma consumes_mechanisms l n done : Forall (fun s => c_text s /\ s <> []) l ->
  consumes_fuelled (fun fuel => parseMechanisms fuel n done) (concat (c_bytes <$> l) ++ [0]) (AuthenticationSASL n (done ++ l)).
Proof.
  intros Hl. revert done. induction Hl as [|s l [Hs Hne] _ IH]; intros done fuel Hf.
  - destruct fuel as [|fuel]; [cbn in Hf; lia|]. rewrite app_nil_r. cbn. change [0] with (c_bytes [] ++ []).
    eapply consumes_bind; [apply consumes_cstring; repeat split; try done; [apply Forall_nil; done|by exists 0|apply not_elem_of_nil]|].
    apply consumes_ret.
  - destruct fuel as [|fuel]; [cbn in Hf; lia|]. cbn [fmap list_fmap concat parseMechanisms]. rewrite <- app_assoc.
    eapply consumes_bind; [by apply consumes_cstring|]. destruct s as [|c s]; [done|].
    replace (done ++ (c :: s) :: l) with ((done ++ [c :: s]) ++ l) by (by rewrite <- app_assoc). apply IH.
    pose proof (length_c_bytes (c :: s)). cbn [fmap list_fmap concat] in Hf. rewrite !length_app in *. cbn [length] in *. lia.
Qed.

Lemma consumes_char c : 0 <= c <= 0x7f -> consumes (string 1) [c] [c].
Proof.
  intros Hc. rewrite <- (encode_1 c []) at 1 by done. apply consumes_string.
  - split; [split; [constructor; [unfold code_unit; lia|done]|cbn; intros [=]; unfold BOM in *; lia]|].
    unfold well_formed, utf8Length. cbn. rewrite (proj2 (Z.leb_le c 0x7f)) by lia. by eexists.
  - rewrite (encode_1 c []) by done. done.
Qed.

Lemma consumes_tags l acc : Forall tagged_ok l ->
  consumes_fuelled (fun fuel => parseErrorFields fuel acc) (concat (tagged_bytes <$> l) ++ [0])
    (foldl (fun m t => <[[t.1] := t.2]> m) acc l).
Proof.
  intros Hl. revert acc. induction Hl as [|[c s] l [Hc Hs] _ IH]; intros acc fuel Hf; (destruct fuel as [|fuel]; [cbn in Hf; lia|]).
  - cbn [fmap list_fmap concat app foldl parseErrorFields]. rewrite <- (app_nil_r [0]).
    eapply consumes_bind; [by apply consumes_char|]. cbn. apply consumes_ret.
  - cbn [fmap list_fmap concat foldl parseErrorFields fst snd] in *. unfold tagged_bytes at 1. cbn [fst snd] in *.
    rewrite <- app_assoc. change ((c :: ?a) ++ ?b) with ([c] ++ (a ++ b)).
    eapply consumes_bind; [apply consumes_char; lia|]. rewrite bool_decide_eq_false_2 by (intros [=]; lia).
    eapply consumes_bind; [by apply consumes_cstring|]. apply IH.
    unfold tagged_bytes at 1 in Hf. cbn [fst snd length] in Hf. rewrite !length_app in *. cbn [length] in *. lia.
Qed.

Lemma consumes_error l n name : Forall tagged_ok l -> name = error_ \/ name = notice_ ->
  consumes (parseErrorMessage n name) (concat (tagged_bytes <$> l) ++ [0])
    (match name with
     | notice_ => NoticeMessage n (tagged_map l !! js "M") (noticeOrError (tagged_map l))
     | _ => DatabaseError (default [] (tagged_map l !! js "M")) n name (noticeOrError (tagged_map l))
     end).
Proof.
  intros Hl Hn. unfold parseErrorMessage.
  assert (Hr : consumes (fuel ← fuel_of; parseErrorFields fuel ∅) (concat (tagged_bytes <$> l) ++ [0]) (tagged_map l))
    by by apply (consumes_fuel (fun fuel => parseErrorFields fuel ∅)), consumes_tags.
  intros pre post. specialize (Hr pre post). unfold fuel_of in *. unfold mbind, ST_bind in *.
  cbn in Hr |- *. rewrite Hr. done.
Qed.

Lemma run_consumes {A} (m : Rd A) bs v pre post : consumes m bs v -> run m (byteLength pre) (pre ++ bs ++ post) = Ok v.
Proof. intros H. unfold run. by rewrite H. Qed.

(** What a body decodes to does not depend on the rest of the buffer. *)
Definition decodes (code : Z) (body : list Z) (m : BackendMessage) : Prop :=
  forall pre post, handlePacket (byteLength pre) code (byteLength body + 4) (pre ++ body ++ post) = Ok m.

Ltac packet := intros pre post; unfold handlePacket; cbn [Z.eqb Pos.eqb]; apply run_consumes.

Lemma consumes_authentication code body k n : int_ok 4 code ->
  consumes (if code =? 0 then mret (AuthenticationOk n)
    else if code =? 3 then mret (AuthenticationCleartextPassword n)
    else if code =? 5 then (salt ← bytes 4; mret (AuthenticationMD5Password n salt))
    else if code =? 10 then (fuel ← fuel_of; parseMechanisms fuel n [])
    else if code =? 11 then (data ← string (n - 8); mret (AuthenticationSASLContinue n data))
    else if code =? 12 then (data ← string (n - 8); mret (AuthenticationSASLFinal n data))
    else st_lift (Throw (UnknownAuthentication code))) body k ->
  consumes (parseAuthenticationResponse n) (be_bytes 4 code ++ body) k.
Proof. intros Hc Hb. eapply consumes_bind; [by apply consumes_int32|done]. Qed.

Lemma byteLength_be n v : byteLength (be_bytes n v) = Z.of_nat n.
Proof. unfold byteLength. by rewrite length_be_bytes. Qed.

Lemma consumes_copy n name flag types : 0 <= flag <= 1 -> Forall (int_ok 2) types -> Z.of_nat (length types) < 2 ^ 15 ->
  consumes (parseCopyMessage n name) (flag :: counted_bytes (be_bytes 2) types) (CopyResponse n name (flag =? 1) types).
Proof.
  intros Hf Ht Hn. change (flag :: ?x) with ([flag] ++ x). unfold parseCopyMessage.
  eapply consumes_bind; [apply consumes_uint8; lia|].
  eapply consumes_map_eq; [apply consumes_counted; [done|by eapply Forall_impl, consumes_int16]|].
  f_equal. assert (flag = 0 \/ flag = 1) as [-> | ->] by lia; done.
Qed.

Lemma format_decodes code body m : Format code body m -> decodes code body (m (byteLength body + 4)).
Proof.
  destruct 1 as [code m Hm| | |chunk| | | | | | | | | | | | | | | ]; try (packet; unfold
      parseReadyForQueryMessage, parseCommandCompleteMessage, parseNotificationMessage, parseRowDescriptionMessage,
      parseParameterDescriptionMessage, parseDataRowMessage, parseParameterStatusMessage, parseBackendKeyData).
  - intros pre post. unfold empty_bodies in Hm. repeat (apply elem_of_cons in Hm as [Hm|Hm]; [by injection Hm as -> ->|]).
    by apply elem_of_nil in Hm.
  - by eapply consumes_map_eq; [apply consumes_char|].
  - consume.
  - intros pre post. unfold handlePacket. cbn [Z.eqb Pos.eqb]. unfold parseCopyData. do 2 f_equal. apply slice_mid; lia.
  - intros pre post. repeat (apply elem_of_cons in H as [H|H]; [injection H as -> ->; unfold handlePacket; cbn [Z.eqb Pos.eqb];
      apply run_consumes; by apply consumes_copy|]). by apply elem_of_nil in H.
  - consume.
  - apply consumes_map, consumes_counted; [done|]. by eapply Forall_impl, consumes_field.
  - apply consumes_map, consumes_counted; [done|]. by eapply Forall_impl, consumes_int32.
  - apply consumes_map, consumes_counted; [done|]. by eapply Forall_impl, consumes_value.
  - consume.
  - consume.
  - rewrite <- (app_nil_r (be_bytes 4 0)). by apply consumes_authentication, consumes_ret.
  - rewrite <- (app_nil_r (be_bytes 4 3)). by apply consumes_authentication, consumes_ret.
  - apply consumes_authentication; [done|]. apply consumes_map, consumes_bytes. unfold byteLength. lia.
  - apply consumes_authentication; [done|]. cbn [Z.eqb Pos.eqb].
    by apply (consumes_fuel (fun fuel => parseMechanisms fuel _ [])), (consumes_mechanisms _ _ []).
  - apply consumes_authentication; [done|]. apply consumes_map, consumes_string; [done|]. rewrite byteLength_app, byteLength_be. lia.
  - apply consumes_authentication; [done|]. apply consumes_map, consumes_string; [done|]. rewrite byteLength_app, byteLength_be. lia.
  - by apply (consumes_error _ _ error_); [|left].
  - by apply (consumes_error _ _ notice_); [|right].
Qed.
