(* ===== verification/Tar.v ===== *)
(** * The tar codec

    packages/pgwasm/src/tar/tar.ts: a ustar archive is written from entries and read back strictly. The archive is a
    byte array that is written in place at offsets; a typed array's [set], [fill], [subarray] and element reads are
    those of the language. A reader's error says which check refused the archive. *)

From S2P Require Export WireLaws.

Module Tar.

(** ** Entries and errors *)

Inductive EntryType : Type := File | Directory.

Record TarEntry : Type := mkEntry {
  name : jsstr;
  type : EntryType;
  mode : Z;
  mtimeSeconds : Z;
  data : list Z
}.

(** [TarFormatError], by the check that raises it and what its message says. [OutOfFuel] is not an error of the code:
    it marks a loop of the model that ran out of fuel. *)
Inductive TarFormatError : Type :=
| NoEndRecords (offset : Z)
| HeaderCut (offset : Z)
| OneEndRecord (offset : Z)
| HeaderWithoutMember
| MemberCut (offset : Z)
| UnsupportedType (name : jsstr) (flag : Z)
| NameTooLong (name : jsstr)
| FieldOverflow (value : jsstr)
| NumberOutOfRange (value : Z)
| Base256 (offset : Z)
| MalformedNumber (offset : Z) (text : jsstr)
| ChecksumFails (offset : Z)
| MalformedPaxRecord (offset : Z)
| MalformedPaxSize (offset : Z) (value : jsstr)
| OutOfFuel.

#[export] Instance EntryType_eq_dec : EqDecision EntryType.
Proof. solve_decision. Defined.
#[export] Instance TarEntry_eq_dec : EqDecision TarEntry.
Proof. solve_decision. Defined.
#[export] Instance TarFormatError_eq_dec : EqDecision TarFormatError.
Proof. solve_decision. Defined.

Abbreviation T := (result TarFormatError).

Definition RECORD : Z := 512.
Definition NAME_LENGTH : Z := 100.
Definition PREFIX_LENGTH : Z := 155.

(** [0o7777] *)
Definition MODE_BITS : Z := 0xfff.

(** ** Texts and numbers of the language *)

(** What [trim] removes. *)
Definition isWhiteSpace (c : Z) : bool :=
  bool_decide (c ∈ [9; 10; 11; 12; 13; 32; 0xa0; 0x1680; 0x2028; 0x2029; 0x202f; 0x205f; 0x3000; 0xfeff])
  || ((0x2000 <=? c) && (c <=? 0x200a)).
Fixpoint dropSpaces (text : jsstr) : jsstr :=
  match text with c :: rest => if isWhiteSpace c then dropSpaces rest else text | [] => [] end.
Definition trim (text : jsstr) : jsstr := rev (dropSpaces (rev (dropSpaces text))).

(** A digit of the base, and [Number.parseInt] of a text of such digits. *)
Definition isDigit (base c : Z) : bool := (48 <=? c) && (c <? 48 + base).
Definition allDigits (base : Z) (text : jsstr) : bool :=
  match text with [] => false | _ => forallb (isDigit base) text end.
Definition parseDigits (base : Z) (text : jsstr) : Z := fold_left (fun n c => n * base + (c - 48)) text 0.

(** [value.toString(8)] *)
Fixpoint octalDigits (fuel : nat) (value : Z) : jsstr :=
  match fuel with
  | O => []
  | S fuel => if value <? 8 then [48 + value] else octalDigits fuel (value / 8) ++ [48 + value mod 8]
  end.
Definition toString8 (value : Z) : jsstr :=
  let digits := octalDigits (S (Z.to_nat (Z.log2 (Z.abs value)))) (Z.abs value) in
  if value <? 0 then 45 :: digits else digits.

(** [text.padStart(length, "0")] *)
Definition padStart (len : nat) (text : jsstr) : jsstr := replicate (len - length text) 48 ++ text.

(** [text.indexOf("=")] with the parts before and after it. *)
Fixpoint cutAt (separator : Z) (text : jsstr) : option (jsstr * jsstr) :=
  match text with
  | [] => None
  | c :: rest => if c =? separator then Some ([], rest) else '(key, value) ← cutAt separator rest; Some (c :: key, value)
  end.

(** ** Header fields *)

Definition padded (size : Z) : Z := (size + (RECORD - 1)) / RECORD * RECORD.

Definition writeString (archive : list Z) (at_ : nat) (len : Z) (value : jsstr) (terminate : bool) : T (list Z) :=
  let bytes := utf8_encode value in
  throw_if ((if terminate then len - 1 else len) <? byteLength bytes) (FieldOverflow value) ≫= fun _ =>
  Ok (set_bytes at_ bytes archive).

Definition writeOctal (archive : list Z) (at_ : nat) (len value : Z) : T (list Z) :=
  let digits := toString8 value in
  throw_if (negb (isSafeInteger value) || (value <? 0) || (len - 1 <? Z.of_nat (length digits))) (NumberOutOfRange value)
    ≫= fun _ =>
  writeString archive at_ len (padStart (Z.to_nat (len - 1)) digits) true.

(** [while (end < at + length && bytes[end] !== 0) end++] *)
Fixpoint beforeNul (bytes : list Z) : list Z :=
  match bytes with [] => [] | b :: rest => if b =? 0 then [] else b :: beforeNul rest end.
Definition readCString (bytes : list Z) (at_ len : nat) : jsstr := textDecode (beforeNul (subarray bytes at_ (at_ + len))).

Definition readOctal (header : list Z) (at_ len : nat) (recordOffset : Z) : T Z :=
  throw_if (negb (Z.land (default 0 (header !! at_)) 0x80 =? 0)) (Base256 recordOffset) ≫= fun _ =>
  match trim (readCString header at_ len) with
  | [] => Ok 0
  | digits =>
      throw_if (negb (allDigits 8 digits)) (MalformedNumber recordOffset digits) ≫= fun _ => Ok (parseDigits 8 digits)
  end.

(** [sum += archive[index]] over a range, and over the header with its checksum field read as spaces. *)
Definition sumBytes (bytes : list Z) : Z := fold_left Z.add bytes 0.
Definition checksummed (index : nat) (b : Z) : Z := if (148 <=? index)%nat && (index <? 156)%nat then 0x20 else b.

Definition verifyChecksum (header : list Z) (recordOffset : Z) : T unit :=
  stored ← readOctal header 148 8 recordOffset;
  throw_if (negb (sumBytes (imap checksummed header) =? stored)) (ChecksumFails recordOffset).

Definition isZeroRecord (header : list Z) : bool := forallb (fun b => b =? 0) header.

(** ** Names *)

Definition encodedLength (text : jsstr) : Z := byteLength (utf8_encode text).

(** [for (let cut = name.indexOf("/"); cut !== -1; cut = name.indexOf("/", cut + 1))]: [prefix] is what stands before
    the position the loop has reached. *)
Fixpoint splitAtSlash (prefix name : jsstr) : option (jsstr * jsstr) :=
  match name with
  | [] => None
  | c :: rest =>
      if (c =? SLASH) && ((encodedLength prefix <? PREFIX_LENGTH) && (encodedLength rest <? NAME_LENGTH)) then Some (prefix, rest)
      else splitAtSlash (prefix ++ [c]) rest
  end.

Definition splitName (name : jsstr) : T (jsstr * jsstr) :=
  if encodedLength name <? NAME_LENGTH then Ok ([], name) else or_throw (splitAtSlash [] name) (NameTooLong name).

Definition joinPrefix (header : list Z) : jsstr :=
  let name := readCString header 0 100 in
  let magic := readCString header 257 6 in
  if negb (bool_decide (magic = js "ustar")) then name
  else match readCString header 345 155 with [] => name | prefix => prefix ++ SLASH :: name end.

(** ** Writing *)

Definition isFile (entry : TarEntry) : bool := bool_decide (type entry = File).
Definition entrySize (entry : TarEntry) : Z := if isFile entry then byteLength (data entry) else 0.

Definition writeHeader (archive : list Z) (offset : nat) (entry : TarEntry) (size : Z) : T (list Z) :=
  '(prefix, rest) ← splitName (name entry);
  archive ← writeString archive (offset + 0) NAME_LENGTH rest true;
  archive ← writeOctal archive (offset + 100) 8 (Z.land (mode entry) MODE_BITS);
  archive ← writeOctal archive (offset + 108) 8 0;
  archive ← writeOctal archive (offset + 116) 8 0;
  archive ← writeOctal archive (offset + 124) 12 size;
  archive ← writeOctal archive (offset + 136) 12 (Z.max 0 (mtimeSeconds entry));
  let archive := set_bytes (offset + 156) (js (if isFile entry then "0" else "5")) archive in
  archive ← writeString archive (offset + 257) 6 (js "ustar") true;
  archive ← writeString archive (offset + 263) 2 (js "00") false;
  archive ← writeString archive (offset + 345) PREFIX_LENGTH prefix true;
  let archive := set_bytes (offset + 148) (replicate 8 0x20) archive in
  let sum := sumBytes (subarray archive offset (offset + Z.to_nat RECORD)) in
  let archive := set_bytes (offset + 148) (utf8_encode (padStart 6 (toString8 sum))) archive in
  Ok (set_bytes (offset + 154) [0] archive).

Definition writeEntry (state : list Z * nat) (entry : TarEntry) : T (list Z * nat) :=
  let '(archive, offset) := state in
  let size := entrySize entry in
  archive ← writeHeader archive offset entry size;
  let offset := (offset + Z.to_nat RECORD)%nat in
  let archive := if 0 <? size then set_bytes offset (data entry) archive else archive in
  Ok (archive, (offset + Z.to_nat (padded size))%nat).

Definition archiveLength (entries : list TarEntry) : Z :=
  fold_left (fun total entry => total + (RECORD + padded (entrySize entry))) entries (RECORD * 2).

Definition writeTar (entries : list TarEntry) : T (list Z) :=
  '(archive, _) ← foldM writeEntry (replicate (Z.to_nat (archiveLength entries)) 0, 0%nat) entries; Ok archive.

(** ** PAX extended headers *)

Record Pax : Type := mkPax { path : option jsstr; size : option Z }.

(** Where the first space is, and whether there is one. *)
Fixpoint beforeSpace (bytes : list Z) : list Z * bool :=
  match bytes with
  | [] => ([], false)
  | b :: rest => if b =? 0x20 then ([], true) else let '(before, found) := beforeSpace rest in (b :: before, found)
  end.

(** [if (key === "path") ...; if (key === "size") ...] *)
Definition assignPax (recordOffset : Z) (result : Pax) (key value : jsstr) : T Pax :=
  let result := if bool_decide (key = js "path") then mkPax (Some value) (size result) else result in
  if bool_decide (key = js "size") then
    let size := parseDigits 10 value in
    throw_if (negb (allDigits 10 value && isSafeInteger size)) (MalformedPaxSize recordOffset value) ≫= fun _ =>
    Ok (mkPax (path result) (Some size))
  else Ok result.

(** One record of the bytes from the cursor on: its length, and the extended attributes after it. *)
Definition readPaxRecord (rest : list Z) (result : Pax) (recordOffset : Z) : T (Z * Pax) :=
  let malformed := MalformedPaxRecord recordOffset in
  let '(lengthBytes, found) := beforeSpace rest in
  let lengthText := textDecode lengthBytes in
  throw_if (negb found || negb (allDigits 10 lengthText)) malformed ≫= fun _ =>
  let len := parseDigits 10 lengthText in
  throw_if (negb (isSafeInteger len) || (len <=? byteLength lengthBytes + 1) || (byteLength rest <? len)) malformed ≫= fun _ =>
  throw_if (negb (bool_decide (rest !! Z.to_nat (len - 1) = Some 0x0a))) malformed ≫= fun _ =>
  let record := textDecode (subarray rest (length lengthBytes + 1) (Z.to_nat (len - 1))) in
  '(key, value) ← or_throw (cutAt 61 record) malformed;
  result ← assignPax recordOffset result key value;
  Ok (len, result).

Fixpoint readPaxFrom (fuel : nat) (rest : list Z) (result : Pax) (recordOffset : Z) : T Pax :=
  match fuel with
  | O => Throw OutOfFuel
  | S fuel =>
      match rest with
      | [] => Ok result
      | _ =>
          '(len, result) ← readPaxRecord rest result recordOffset;
          readPaxFrom fuel (drop (Z.to_nat len) rest) result recordOffset
      end
  end.
Definition readPax (data : list Z) (recordOffset : Z) : T Pax := readPaxFrom (S (length data)) data (mkPax None None) recordOffset.

(** ** Reading *)

(** What a pass of the loop leaves for the next one: the offset, and the name and size of an extended header. *)
Record Pending : Type := mkPending { position : nat; pendingName : option jsstr; pendingSize : option Z }.

(** A pass ends the loop, or continues it, with a member or without. *)
Inductive Pass : Type := Finish | Continue (member : option TarEntry) (next : Pending).

(** What is read of a member once its bytes are known to be there. *)
Definition readMember (header data : list Z) (p : Pending) (next : nat) : T Pass :=
  let typeflag := default 0 (header !! 156%nat) in
  if typeflag =? 120 then
    pax ← readPax data (Z.of_nat next);
    Ok (Continue None (mkPending next (match path pax with Some name => Some name | None => pendingName p end) (size pax)))
  else if typeflag =? 103 then Ok (Continue None (mkPending next (pendingName p) (pendingSize p)))
  else if typeflag =? 76 then
    Ok (Continue None (mkPending next (Some (readCString data 0 (length data))) (pendingSize p)))
  else
    let name := match pendingName p with Some name => name | None => joinPrefix header end in
    mode ← readOctal header 100 8 (Z.of_nat next);
    let mode := Z.land mode MODE_BITS in
    mtimeSeconds ← readOctal header 136 12 (Z.of_nat next);
    if (typeflag =? 48) || (typeflag =? 0) || (typeflag =? 55) then
      Ok (Continue (Some (mkEntry name File mode mtimeSeconds data)) (mkPending next None None))
    else if typeflag =? 53 then
      Ok (Continue (Some (mkEntry name Directory mode mtimeSeconds [])) (mkPending next None None))
    else Throw (UnsupportedType name typeflag).

(** The header is a zero record: a second one ends the archive. *)
Definition readEnd (archive : list Z) (p : Pending) : T Pass :=
  let offset := position p in
  let second := subarray archive (offset + Z.to_nat RECORD) (offset + 2 * Z.to_nat RECORD) in
  throw_if ((byteLength second <? RECORD) || negb (isZeroRecord second)) (OneEndRecord (Z.of_nat offset)) ≫= fun _ =>
  throw_if (bool_decide (pendingName p <> None) || bool_decide (pendingSize p <> None)) HeaderWithoutMember ≫= fun _ =>
  Ok Finish.

(** The header is that of a member or of an extended header. *)
Definition readRecord (archive : list Z) (p : Pending) (header : list Z) : T Pass :=
  let offset := position p in
  verifyChecksum header (Z.of_nat offset) ≫= fun _ =>
  declaredSize ← readOctal header 124 12 (Z.of_nat offset);
  let size := default declaredSize (pendingSize p) in
  let dataStart := (offset + Z.to_nat RECORD)%nat in
  throw_if (byteLength archive <? Z.of_nat dataStart + padded size) (MemberCut (Z.of_nat offset)) ≫= fun _ =>
  let data := subarray archive dataStart (dataStart + Z.to_nat size) in
  readMember header data p (dataStart + Z.to_nat (padded size)).

Definition readHeader (archive : list Z) (p : Pending) : T Pass :=
  let offset := position p in
  throw_if (Z.of_nat offset =? byteLength archive) (NoEndRecords (Z.of_nat offset)) ≫= fun _ =>
  throw_if (byteLength archive <? Z.of_nat offset + RECORD) (HeaderCut (Z.of_nat offset)) ≫= fun _ =>
  let header := subarray archive offset (offset + Z.to_nat RECORD) in
  if isZeroRecord header then readEnd archive p else readRecord archive p header.

Fixpoint readLoop (fuel : nat) (archive : list Z) (entries : list TarEntry) (p : Pending) : T (list TarEntry) :=
  match fuel with
  | O => Throw OutOfFuel
  | S fuel =>
      pass ← readHeader archive p;
      match pass with
      | Finish => Ok entries
      | Continue member next => readLoop fuel archive (entries ++ option_list member) next
      end
  end.

Definition readTar (archive : list Z) : T (list TarEntry) := readLoop (S (length archive)) archive [] (mkPending 0 None None).

End Tar.

(** ** Octal numbers *)

Import Tar.

Lemma parseDigits_snoc base text c : parseDigits base (text ++ [c]) = parseDigits base text * base + (c - 48).
Proof. unfold parseDigits. by rewrite fold_left_app. Qed.

Lemma parseDigits_zeros base n text : parseDigits base (replicate n 48 ++ text) = parseDigits base text.
Proof. unfold parseDigits. induction n as [|n IH]; [done|]. cbn [replicate app fold_left]. by rewrite Z.mul_0_l, Z.add_0_l, Z.sub_diag. Qed.

Definition octal (text : jsstr) : Prop := Forall (fun c => 48 <= c < 56) text.

Lemma octal_allDigits text : octal text -> text <> [] -> allDigits 8 text = true.
Proof.
  intros H Hn. destruct text as [|c text]; [done|]. unfold allDigits. apply List.forallb_forall. intros d Hd.
  unfold octal in H. rewrite List.Forall_forall in H. specialize (H d Hd). unfold isDigit. apply andb_true_iff. rewrite Z.leb_le, Z.ltb_lt. lia.
Qed.

Lemma octalDigits_spec fuel v : 0 <= v < 8 ^ Z.of_nat fuel -> (0 < fuel)%nat ->
  octal (octalDigits fuel v) /\ octalDigits fuel v <> [] /\ parseDigits 8 (octalDigits fuel v) = v.
Proof.
  revert v. induction fuel as [|fuel IH]; intros v Hv Hf; [lia|]. cbn [octalDigits]. destruct (Z.ltb_spec v 8).
  - split; [repeat constructor; lia|]. split; [done|]. cbn. lia.
  - destruct fuel as [|fuel']; [cbn in Hv; lia|]. rewrite Nat2Z.inj_succ, Z.pow_succ_r in Hv by lia.
    destruct (IH (v / 8)) as (Ho & Hn & Hp); [Z.to_euclidean_division_equations; lia|lia|].
    split; [apply Forall_app; split; [done|]; repeat constructor; Z.to_euclidean_division_equations; lia|].
    split; [by destruct (octalDigits _ _)|]. rewrite parseDigits_snoc, Hp. Z.to_euclidean_division_equations; lia.
Qed.

Lemma octalDigits_length fuel v k : 0 <= v < 8 ^ Z.of_nat k -> (0 < k)%nat -> (length (octalDigits fuel v) <= k)%nat.
Proof.
  revert v k. induction fuel as [|fuel IH]; intros v k Hv Hk; cbn [octalDigits]; [cbn; lia|].
  destruct (Z.ltb_spec v 8); [cbn; lia|]. rewrite length_app. cbn [length]. destruct k as [|[|k]]; [lia|cbn in Hv; lia|].
  rewrite (Nat2Z.inj_succ (S k)), Z.pow_succ_r in Hv by lia.
  enough (length (octalDigits fuel (v / 8)) <= S k)%nat by lia. apply IH; [Z.to_euclidean_division_equations; lia|lia].
Qed.

Lemma octalDigits_long fuel v k : 8 ^ Z.of_nat k <= v -> v < 8 ^ Z.of_nat fuel -> (k < length (octalDigits fuel v))%nat.
Proof.
  revert v k. induction fuel as [|fuel IH]; intros v k Hv Hf; [pose proof (Z.pow_pos_nonneg 8 (Z.of_nat k)); cbn in Hf; lia|].
  cbn [octalDigits]. destruct k as [|k]; [destruct (v <? 8); rewrite ?length_app; cbn; lia|].
  pose proof (Z.pow_pos_nonneg 8 (Z.of_nat k) ltac:(lia) ltac:(lia)). rewrite Nat2Z.inj_succ, Z.pow_succ_r in Hv by lia.
  rewrite Nat2Z.inj_succ, Z.pow_succ_r in Hf by lia. rewrite (proj2 (Z.ltb_ge v 8)) by lia.
  rewrite length_app. cbn [length]. enough (k < length (octalDigits fuel (v / 8)))%nat by lia.
  apply IH; Z.to_euclidean_division_equations; lia.
Qed.

(** The digits a non-negative number is written with. *)
Lemma toString8_fuel v : 0 <= v -> toString8 v = octalDigits (S (Z.to_nat (Z.log2 v))) v /\ v < 8 ^ Z.of_nat (S (Z.to_nat (Z.log2 v))).
Proof.
  intros Hv. unfold toString8. rewrite (proj2 (Z.ltb_ge v 0)), Z.abs_eq by lia. split; [done|].
  rewrite Nat2Z.inj_succ, Z2Nat.id by apply Z.log2_nonneg. destruct (decide (v = 0)) as [->|]; [done|].
  pose proof (Z.log2_spec v ltac:(lia)) as [_ H]. eapply Z.lt_le_trans; [exact H|]. apply Z.pow_le_mono_l. lia.
Qed.

Lemma toString8_spec v : 0 <= v -> octal (toString8 v) /\ toString8 v <> [] /\ parseDigits 8 (toString8 v) = v.
Proof. intros Hv. destruct (toString8_fuel v Hv) as [-> Hf]. apply octalDigits_spec; lia. Qed.

Lemma toString8_length v k : 0 <= v -> (0 < k)%nat -> (length (toString8 v) <= k)%nat <-> v < 8 ^ Z.of_nat k.
Proof.
  intros Hv Hk. destruct (toString8_fuel v Hv) as [-> Hf]. split; [|intros; by apply octalDigits_length].
  intros Hl. destruct (Z.lt_ge_cases v (8 ^ Z.of_nat k)) as [|Hge]; [done|].
  pose proof (octalDigits_long _ v k Hge Hf). lia.
Qed.

Lemma padStart_octal n v : 0 <= v -> octal (padStart n (toString8 v)) /\ padStart n (toString8 v) <> []
  /\ parseDigits 8 (padStart n (toString8 v)) = v.
Proof.
  intros Hv. destruct (toString8_spec v Hv) as (Ho & Hn & Hp). unfold padStart. split_and!.
  - apply Forall_app. split; [apply Forall_replicate; lia|done].
  - intros [_ E]%app_eq_nil. done.
  - by rewrite parseDigits_zeros.
Qed.

Lemma padStart_length n v : 0 <= v < 8 ^ Z.of_nat n -> (0 < n)%nat -> length (padStart n (toString8 v)) = n.
Proof.
  intros Hv Hn. unfold padStart. rewrite length_app, length_replicate. pose proof (proj2 (toString8_length v n ltac:(lia) Hn)). lia.
Qed.

(** ** Fields *)

Lemma beforeNul_app bs n : 0 ∉ bs -> beforeNul (bs ++ replicate n 0) = bs.
Proof.
  induction bs as [|b bs IH]; intros H; [by destruct n|]. rewrite not_elem_of_cons in H. cbn.
  rewrite (proj2 (Z.eqb_neq b 0)), IH by naive_solver. done.
Qed.

(** A field of [n] bytes that holds [bs]. *)
Definition field (n : nat) (bs : list Z) : list Z := bs ++ replicate (n - length bs) 0.

Lemma length_field n bs : (length bs <= n)%nat -> length (field n bs) = n.
Proof. intros H. unfold field. rewrite length_app, length_replicate. lia. Qed.

Lemma readCString_field header off n s : subarray header off (off + n) = field n (utf8_encode s) -> c_text s ->
  readCString header off n = s.
Proof.
  intros Hf [Hs Hz]. unfold readCString. rewrite Hf. unfold field. destruct Hs as [Ht Hw] eqn:E. rewrite beforeNul_app.
  - by apply textDecode_encode.
  - apply encode_no_nul; [apply Ht|done|done].
Qed.

Lemma octal_digit_plain c : 48 <= c < 56 -> isWhiteSpace c = false.
Proof. intros H. unfold isWhiteSpace. apply orb_false_iff. split; [apply bool_decide_eq_false; set_solver by lia|]. apply andb_false_iff. left. apply Z.leb_gt. lia. Qed.

Lemma dropSpaces_octal text : octal text -> dropSpaces text = text.
Proof. intros [|c rest Hc _]; [done|]. cbn. by rewrite octal_digit_plain. Qed.

Lemma trim_octal text : octal text -> trim text = text.
Proof. intros H. unfold trim. rewrite (dropSpaces_octal text H), dropSpaces_octal by (by apply Forall_rev). apply rev_involutive. Qed.

Lemma octal_text text : octal text -> c_text text /\ utf8_encode text = text.
Proof. intros H. apply ascii_c_text. eapply Forall_impl; [exact H|]. cbn. lia. Qed.

Lemma field_lookup (header seg : list Z) off n c l : subarray header off (off + n) = seg -> seg = c :: l -> header !! off = Some c.
Proof.
  intros H ->. unfold subarray in H. replace (off + n - off)%nat with n in H by lia.
  destruct n as [|n]; [done|]. apply (f_equal (fun l => l !! 0%nat)) in H.
  rewrite lookup_take_lt, lookup_drop, Nat.add_0_r in H by lia. done.
Qed.

Lemma readOctal_digits header off n digits tail_ recordOffset :
  subarray header off (off + n) = digits ++ 0 :: tail_ -> octal digits -> digits <> [] ->
  readOctal header off n recordOffset = Ok (parseDigits 8 digits).
Proof.
  intros Hf Ho Hn. unfold readOctal. destruct digits as [|c l] eqn:Ed; [done|]. rewrite <- Ed in *.
  rewrite (field_lookup header _ off n c (l ++ 0 :: tail_) Hf) by (by subst). change (default 0 (Some c)) with c.
  assert (Z.land c 0x80 = 0) as ->.
  { assert (48 <= c < 56) as Hc by (subst; by inversion Ho). assert (c = 48 \/ c = 49 \/ c = 50 \/ c = 51 \/ c = 52 \/ c = 53 \/ c = 54 \/ c = 55) as H by lia.
    by destruct_or! H; subst. }
  cbn [negb Z.eqb throw_if mbind result_bind]. unfold readCString. rewrite Hf.
  destruct (octal_text digits Ho) as [[Ht Hz] He].
  assert (beforeNul (digits ++ 0 :: tail_) = digits) as ->.
  { revert Hz. clear. induction digits as [|b l IH]; intros H; [done|]. rewrite not_elem_of_cons in H. cbn.
    rewrite (proj2 (Z.eqb_neq b 0)), IH by naive_solver. done. }
  assert (trim (textDecode digits) = digits) as -> by (rewrite <- He at 1; by rewrite textDecode_encode, trim_octal).
  pose proof (octal_allDigits digits Ho Hn) as Ha. rewrite Ed in Ha |- *. cbv beta iota. by rewrite Ha.
Qed.

(** A number field as it is written. *)
Definition octalField (n : nat) (v : Z) : list Z := padStart (n - 1) (toString8 v) ++ [0].

Lemma length_octalField n v : (1 < n)%nat -> 0 <= v < 8 ^ Z.of_nat (n - 1) -> length (octalField n v) = n.
Proof. intros Hn Hv. unfold octalField. rewrite length_app, padStart_length by lia. cbn. lia. Qed.

Lemma readOctal_field header off n v recordOffset : (1 < n)%nat -> 0 <= v ->
  subarray header off (off + n) = octalField n v -> readOctal header off n recordOffset = Ok v.
Proof.
  intros Hn Hv Hf. destruct (padStart_octal (n - 1) v Hv) as (Ho & Hne & Hp). rewrite <- Hp at 1.
  by apply readOctal_digits with (tail_ := []).
Qed.

(** ** A header in its place *)

Lemma set_zero_field (segs : list (list Z)) k n off src : segs !! k = Some (replicate n 0) -> off = length (mjoin (take k segs)) ->
  (length src <= n)%nat -> set_bytes off src (mjoin segs) = mjoin (<[k := field n src]> segs).
Proof.
  intros Hs Ho Hl. assert (Hk : (k < length segs)%nat) by (by eapply lookup_lt_Some).
  rewrite insert_take_drop, join_app by done. rewrite mjoin_cons. unfold set_bytes.
  rewrite (layout_split segs k (replicate n 0) Hs) at 1 2. subst off. rewrite take_app_length, drop_app_add. f_equal.
  unfold field. rewrite <- app_assoc. f_equal. rewrite drop_app_le by (by rewrite length_replicate). by rewrite drop_replicate.
Qed.

Lemma writeString_field (segs : list (list Z)) k n off len value (t : bool) : segs !! k = Some (replicate n 0) -> off = length (mjoin (take k segs)) ->
  byteLength (utf8_encode value) <= (if t then len - 1 else len) -> len = Z.of_nat n ->
  writeString (mjoin segs) off len value t = Ok (mjoin (<[k := field n (utf8_encode value)]> segs)).
Proof.
  intros Hs Ho Hl ->. unfold writeString. rewrite (proj2 (Z.ltb_ge _ _)) by done. cbn [throw_if mbind result_bind].
  rewrite (set_zero_field segs k n) by (try done; unfold byteLength in Hl; destruct t; lia). done.
Qed.

Lemma field_octal n v : (1 < n)%nat -> 0 <= v < 8 ^ Z.of_nat (n - 1) ->
  field n (utf8_encode (padStart (n - 1) (toString8 v))) = octalField n v.
Proof.
  intros Hn Hv. destruct (padStart_octal (n - 1) v) as (Ho & _ & _); [lia|]. rewrite (proj2 (octal_text _ Ho)).
  unfold field, octalField. rewrite padStart_length by lia. by replace (n - (n - 1))%nat with 1%nat by lia.
Qed.

Lemma writeOctal_field (segs : list (list Z)) k n off len v : segs !! k = Some (replicate n 0) -> off = length (mjoin (take k segs)) ->
  len = Z.of_nat n -> (1 < n <= 12)%nat -> 0 <= v ->
  writeOctal (mjoin segs) off len v
  = if v <? 8 ^ (len - 1) then Ok (mjoin (<[k := octalField n v]> segs)) else Throw (NumberOutOfRange v).
Proof.
  intros Hs Ho -> Hn Hv. unfold writeOctal. replace (Z.of_nat n - 1) with (Z.of_nat (n - 1)) by lia.
  pose proof (toString8_length v (n - 1) Hv ltac:(lia)) as Hl. rewrite (proj2 (Z.ltb_ge v 0)) by done. rewrite orb_false_r.
  destruct (Z.ltb_spec v (8 ^ Z.of_nat (n - 1))) as [Hlt|Hge].
  - assert (8 ^ Z.of_nat (n - 1) <= 8 ^ 11) by (apply Z.pow_le_mono_r; lia).
    assert (isSafeInteger v = true) as -> by (unfold isSafeInteger, MAX_SAFE_INTEGER; apply Z.leb_le; lia).
    rewrite (proj2 (Z.ltb_ge _ _)) by lia. cbn [negb orb throw_if mbind result_bind]. rewrite Nat2Z.id.
    rewrite (writeString_field segs k n); [by rewrite field_octal by lia|done|done| |lia].
    destruct (padStart_octal (n - 1) v Hv) as (Hp & _ & _). rewrite (proj2 (octal_text _ Hp)).
    unfold byteLength. rewrite padStart_length by lia. lia.
  - rewrite (proj2 (Z.ltb_lt _ (Z.of_nat (length (toString8 v))))); [by rewrite orb_true_r|].
    destruct (Nat.le_gt_cases (length (toString8 v)) (n - 1)) as [Hle|]; [apply Hl in Hle|]; lia.
Qed.

(** The fields of the header of a member, for given checksum bytes. *)
Definition headerFields (prefix rest : jsstr) (entry : TarEntry) (size : Z) (checksum : list Z) : list (list Z) :=
  [field 100 (utf8_encode rest); octalField 8 (Z.land (mode entry) MODE_BITS); octalField 8 0; octalField 8 0;
   octalField 12 size; octalField 12 (Z.max 0 (mtimeSeconds entry)); checksum; js (if isFile entry then "0" else "5");
   replicate 100 0; field 6 (js "ustar"); js "00"; replicate 80 0; field 155 (utf8_encode prefix); replicate 12 0].

(** What stands before the checksum and after it. *)
Definition headerBefore (rest : jsstr) (entry : TarEntry) (size : Z) : list Z :=
  mjoin [field 100 (utf8_encode rest); octalField 8 (Z.land (mode entry) MODE_BITS); octalField 8 0; octalField 8 0;
   octalField 12 size; octalField 12 (Z.max 0 (mtimeSeconds entry))].
Definition headerAfter (prefix : jsstr) (entry : TarEntry) : list Z :=
  mjoin [js (if isFile entry then "0" else "5"); replicate 100 0; field 6 (js "ustar"); js "00"; replicate 80 0;
    field 155 (utf8_encode prefix); replicate 12 0].

Lemma headerFields_split prefix rest entry n checksum :
  mjoin (headerFields prefix rest entry n checksum) = headerBefore rest entry n ++ checksum ++ headerAfter prefix entry.
Proof. unfold headerFields, headerBefore, headerAfter. cbn [mjoin list_join]. by rewrite <- !app_assoc. Qed.

Definition headerSum (prefix rest : jsstr) (entry : TarEntry) (size : Z) : Z :=
  sumBytes (mjoin (headerFields prefix rest entry size (replicate 8 0x20))).

Definition headerOf (prefix rest : jsstr) (entry : TarEntry) (size : Z) : list Z :=
  mjoin (headerFields prefix rest entry size (padStart 6 (toString8 (headerSum prefix rest entry size)) ++ [0; 0x20])).

Lemma splitAtSlash_spec before name p r : splitAtSlash before name = Some (p, r) ->
  before ++ name = p ++ SLASH :: r /\ encodedLength p < PREFIX_LENGTH /\ encodedLength r < NAME_LENGTH.
Proof.
  revert before. induction name as [|c name IH]; intros before; cbn [splitAtSlash]; [done|].
  destruct (_ && _) eqn:E; [intros [= <- <-]; propify; by subst|].
  intros Hi%IH. by rewrite <- app_assoc in Hi.
Qed.

Lemma splitName_bounds name p r : splitName name = Ok (p, r) -> encodedLength p < PREFIX_LENGTH /\ encodedLength r < NAME_LENGTH.
Proof.
  unfold splitName. destruct (Z.ltb_spec (encodedLength name) NAME_LENGTH); [by intros [= <- <-]|].
  intros Hs%or_throw_Ok%splitAtSlash_spec. tauto.
Qed.

Lemma land_mode m : 0 <= Z.land m MODE_BITS < 8 ^ 7.
Proof. change MODE_BITS with (Z.ones 12). rewrite Z.land_ones by lia. pose proof (Z.mod_pos_bound m (2 ^ 12) ltac:(lia)). lia. Qed.

(** Offsets in a list of fields whose lengths are known. *)
Ltac offsets :=
  cbn [insert list_insert take mjoin list_join app]; rewrite ?length_app, ?length_replicate; cbn [length]; lia.

(** A write inside a window of a buffer. *)
Lemma set_bytes_window (before src window after : list Z) off : (off + length src <= length window)%nat ->
  set_bytes (length before + off) src (before ++ window ++ after) = before ++ set_bytes off src window ++ after.
Proof.
  intros H. unfold set_bytes. rewrite take_app_add, <- Nat.add_assoc, drop_app_add.
  rewrite take_app_le, drop_app_le by lia. by rewrite <- !app_assoc.
Qed.

(** The checksum over the eight spaces that held its place. *)
Lemma set_checksum (before after digits : list Z) off : off = length before -> length digits = 6%nat ->
  set_bytes (off + 6) [0] (set_bytes off digits (before ++ replicate 8 0x20 ++ after)) = before ++ (digits ++ [0; 0x20]) ++ after.
Proof.
  intros -> Hd. rewrite <- (Nat.add_0_r (length before)) at 2. rewrite set_bytes_window by (cbn; lia).
  rewrite set_bytes_window by (unfold set_bytes; rewrite !length_app, length_take, length_drop, length_replicate; cbn; lia).
  by do 6 (destruct digits as [|? digits]; [done|]); destruct digits.
Qed.

Lemma sumBytes_app a b : sumBytes (a ++ b) = sumBytes a + sumBytes b.
Proof.
  unfold sumBytes. rewrite fold_left_app. generalize (fold_left Z.add a 0). intros n.
  assert (forall m, fold_left Z.add b m = m + fold_left Z.add b 0) as H; [|apply H].
  induction b as [|x b IH]; intros m; cbn [fold_left]; [lia|]. rewrite (IH (m + x)), (IH (0 + x)). lia.
Qed.

Lemma sumBytes_bound bs : Forall byte bs -> 0 <= sumBytes bs <= 255 * Z.of_nat (length bs).
Proof.
  induction 1 as [|b bs Hb _ IH]; [cbn; lia|]. change (b :: bs) with ([b] ++ bs). rewrite sumBytes_app, length_app.
  unfold byte in Hb. cbn [length]. change (sumBytes [b]) with (0 + b). lia.
Qed.

Ltac side := first [reflexivity | lia | offsets | unfold byteLength, NAME_LENGTH, PREFIX_LENGTH; cbn; lia].

Lemma length_headerBefore rest entry n : encodedLength rest < NAME_LENGTH -> 0 <= n < 8 ^ 11 -> Z.max 0 (mtimeSeconds entry) < 8 ^ 11 ->
  length (headerBefore rest entry n) = 148%nat.
Proof.
  intros Hr Hs Ht. pose proof (land_mode (mode entry)) as Hm. unfold encodedLength, byteLength, NAME_LENGTH in Hr.
  unfold headerBefore. cbn [mjoin list_join]. rewrite !length_app, !length_field by lia.
  by rewrite !length_octalField by (cbn -[Z.pow]; lia).
Qed.

Lemma length_headerAfter prefix entry : encodedLength prefix < PREFIX_LENGTH -> length (headerAfter prefix entry) = 356%nat.
Proof.
  intros Hp. unfold encodedLength, byteLength, PREFIX_LENGTH in Hp. unfold headerAfter. cbn [mjoin list_join].
  rewrite !length_app, !length_field by (lia || cbn; lia). by destruct (isFile entry).
Qed.

Lemma headerFields_length prefix rest entry n checksum : splitName (name entry) = Ok (prefix, rest) ->
  0 <= n < 8 ^ 11 -> Z.max 0 (mtimeSeconds entry) < 8 ^ 11 -> length checksum = 8%nat ->
  length (mjoin (headerFields prefix rest entry n checksum)) = 512%nat.
Proof.
  intros [Hp Hr]%splitName_bounds Hs Ht Hc.
  by rewrite headerFields_split, !length_app, length_headerBefore, length_headerAfter, Hc.
Qed.

(** Every encoding is made of bytes, with U+FFFD for an unpaired surrogate. *)
Lemma utf8_encode_byte s : js_string s -> Forall byte (utf8_encode s).
Proof.
  induction s as [s IH] using (induction_ltof1 _ (@length Z)). unfold ltof in IH. intros Hs.
  destruct s as [|c rest]; [constructor|]. apply Forall_cons in Hs as [Hc Hrest]. unfold code_unit in Hc.
  assert (Forall byte (utf8_encode rest)) as Hr by (apply IH; [cbn; lia|done]).
  assert (forall x, 0 <= x <= 0xffff -> Forall byte (utf8_3 x)) as H3.
  { intros x Hx. unfold utf8_3. repeat constructor; unfold byte; bits. }
  cbn [utf8_encode]. repeat case_match; propify; unfold high_surrogate, low_surrogate in *; propify.
  - constructor; [unfold byte; lia|done].
  - repeat constructor; [unfold byte; bits..|done].
  - by apply H3.
  - subst. apply Forall_cons in Hrest as [_ Hrest]. apply Forall_app. split; [|apply IH; [cbn; lia|done]].
    unfold utf8_4, code_point. repeat constructor; unfold byte; bits.
  - apply Forall_app. split; [by apply H3|done].
  - apply Forall_app. split; [by apply H3|done].
  - apply Forall_app. split; [by apply H3|done].
Qed.

Lemma splitName_parts name p r : splitName name = Ok (p, r) -> name = r /\ p = [] \/ name = p ++ SLASH :: r.
Proof.
  unfold splitName. destruct (_ <? _); [intros [= <- <-]; by left|]. intros Hs%or_throw_Ok%splitAtSlash_spec. right. apply Hs.
Qed.

Lemma splitName_strings name p r : splitName name = Ok (p, r) -> js_string name -> js_string p /\ js_string r.
Proof.
  intros [[-> ->]| ->]%splitName_parts Hs; [split; [constructor|done]|].
  apply Forall_app in Hs as [Hp Hr]. apply Forall_cons in Hr as [_ Hr]. done.
Qed.

Lemma Forall_field n bs : Forall byte bs -> Forall byte (field n bs).
Proof. intros H. apply Forall_app. split; [done|]. apply Forall_replicate. unfold byte. lia. Qed.

Lemma Forall_octalField n v : 0 <= v -> Forall byte (octalField n v).
Proof.
  intros Hv. apply Forall_app. split; [|repeat constructor; lia]. eapply Forall_impl; [apply (padStart_octal (n - 1) v Hv)|].
  unfold byte. cbn. lia.
Qed.

Lemma headerFields_bytes prefix rest entry n checksum : js_string (name entry) -> splitName (name entry) = Ok (prefix, rest) -> 0 <= n ->
  Forall byte checksum -> Forall byte (mjoin (headerFields prefix rest entry n checksum)).
Proof.
  intros Hn Hs H0 Hc. destruct (splitName_strings _ _ _ Hs Hn) as [Hp Hr]. pose proof (land_mode (mode entry)) as Hm.
  assert (forall k, Forall byte (replicate k 0)) as Hz by (intros; apply Forall_replicate; unfold byte; lia).
  unfold headerFields. cbn [mjoin list_join]. rewrite !Forall_app. split_and!; try done.
  all: try (apply Forall_field; by apply utf8_encode_byte).
  all: try (apply Forall_octalField; lia).
  all: try (destruct (isFile entry)); vm_compute; repeat constructor; discriminate.
Qed.

Lemma headerSum_bound prefix rest entry n : js_string (name entry) -> splitName (name entry) = Ok (prefix, rest) -> 0 <= n < 8 ^ 11 ->
  Z.max 0 (mtimeSeconds entry) < 8 ^ 11 -> 0 <= headerSum prefix rest entry n < 8 ^ 6.
Proof.
  intros Hn Hs H0 Ht. unfold headerSum. pose proof (headerFields_length prefix rest entry n (replicate 8 0x20) Hs H0 Ht eq_refl) as Hl.
  pose proof (sumBytes_bound (mjoin (headerFields prefix rest entry n (replicate 8 0x20)))) as Hb. rewrite Hl in Hb.
  enough (Forall byte (mjoin (headerFields prefix rest entry n (replicate 8 0x20)))) as Hf by (specialize (Hb Hf); lia).
  apply headerFields_bytes; [done|done|lia|]. apply Forall_replicate. unfold byte. lia.
Qed.

Section Header.
Context (pre post : list Z) (entry : TarEntry) (entryBytes : Z).
Hypothesis Hsize : 0 <= entryBytes.

(** The number that does not fit its field, if there is one. *)
Definition numberRefused : option Z :=
  if 8 ^ 11 <=? entryBytes then Some entryBytes
  else if 8 ^ 11 <=? Z.max 0 (mtimeSeconds entry) then Some (Z.max 0 (mtimeSeconds entry)) else None.

Context (prefix rest : jsstr).
Hypothesis Hname : js_string (name entry).
Hypothesis Hsplit : splitName (name entry) = Ok (prefix, rest).

Lemma writeHeader_spec : writeHeader (pre ++ replicate 512 0 ++ post) (length pre) entry entryBytes
  = match numberRefused with
    | Some v => Throw (NumberOutOfRange v)
    | None => Ok (pre ++ headerOf prefix rest entry entryBytes ++ post)
    end.
Proof.
  unfold writeHeader, numberRefused. rewrite Hsplit. cbn [mbind result_bind].
  destruct (splitName_bounds _ _ _ Hsplit) as [Hp Hr]. unfold encodedLength, byteLength, PREFIX_LENGTH, NAME_LENGTH in Hp, Hr.
  pose proof (land_mode (mode entry)) as Hm.
  assert (pre ++ replicate 512 0 ++ post = mjoin [pre; replicate 100 0; replicate 8 0; replicate 8 0; replicate 8 0; replicate 12 0;
    replicate 12 0; replicate 8 0; replicate 1 0; replicate 100 0; replicate 6 0; replicate 2 0; replicate 80 0; replicate 155 0;
    replicate 12 0; post]) as -> by (cbn; by rewrite app_nil_r).
  assert (length (field 100 (utf8_encode rest)) = 100%nat) as L1 by (apply length_field; lia).
  assert (length (octalField 8 (Z.land (mode entry) MODE_BITS)) = 8%nat) as L2 by (apply length_octalField; [lia|exact Hm]).
  assert (length (octalField 8 0) = 8%nat) as L3 by (apply length_octalField; cbn; lia).
  rewrite (writeString_field _ 1 100) by side. cbn [mbind result_bind].
  rewrite (writeOctal_field _ 2 8) by side. rewrite (proj2 (Z.ltb_lt _ (8 ^ (8 - 1)))) by side. cbn [mbind result_bind].
  rewrite (writeOctal_field _ 3 8) by side. change (0 <? 8 ^ (8 - 1)) with true. cbn [mbind result_bind].
  rewrite (writeOctal_field _ 4 8) by side. change (0 <? 8 ^ (8 - 1)) with true. cbn [mbind result_bind].
  rewrite (writeOctal_field _ 5 12) by side. change (12 - 1) with 11. rewrite Z.leb_antisym.
  destruct (Z.ltb_spec entryBytes (8 ^ 11)) as [Hs|Hs]; [|reflexivity]. cbn [mbind result_bind negb].
  assert (length (octalField 12 entryBytes) = 12%nat) as L4 by (apply length_octalField; [lia|exact (conj Hsize Hs)]).
  rewrite (writeOctal_field _ 6 12) by side. change (12 - 1) with 11. rewrite Z.leb_antisym.
  destruct (Z.ltb_spec (0 `max` mtimeSeconds entry) (8 ^ 11)) as [Ht|Ht]; [|reflexivity]. cbn [mbind result_bind negb].
  assert (length (octalField 12 (0 `max` mtimeSeconds entry)) = 12%nat) as L5
    by (apply length_octalField; [lia|split; [lia|exact Ht]]).
  assert (length (js (if isFile entry then "0" else "5")) = 1%nat) as L6 by (by destruct (isFile entry)).
  assert (length (field 6 (utf8_encode (js "ustar"))) = 6%nat) as L7 by done.
  assert (length (field 2 (utf8_encode (js "00"))) = 2%nat) as L8 by done.
  assert (length (field 155 (utf8_encode prefix)) = 155%nat) as L9 by (apply length_field; lia).
  rewrite (set_field _ 8 (replicate 1 0)) by side.
  rewrite (writeString_field _ 10 6) by side. cbn [mbind result_bind].
  rewrite (writeString_field _ 11 2) by side. cbn [mbind result_bind].
  rewrite (writeString_field _ 13 155) by side. cbn [mbind result_bind].
  rewrite (set_field _ 7 (replicate 8 0)) by side. cbn [insert list_insert].
  match goal with |- context [mjoin ?l] => assert (mjoin l = pre ++ mjoin (headerFields prefix rest entry entryBytes (replicate 8 0x20)) ++ post) as ->
    by (unfold headerFields; cbn [mjoin list_join]; rewrite <- !app_assoc; by rewrite app_nil_r) end.
  rewrite subarray_mid; [|done|by rewrite headerFields_length]. fold (headerSum prefix rest entry entryBytes).
  assert (length (padStart 6 (toString8 (headerSum prefix rest entry entryBytes))) = 6%nat) as L10.
  { apply padStart_length; [|lia]. eapply headerSum_bound; [exact Hname|exact Hsplit|lia|done]. }
  rewrite (proj2 (octal_text _ (proj1 (padStart_octal 6 (headerSum prefix rest entry entryBytes)
    (proj1 (headerSum_bound _ _ _ _ Hname Hsplit (conj Hsize Hs) Ht)))))).
  unfold headerOf. rewrite !headerFields_split.
  pose proof (length_headerBefore rest entry entryBytes (proj2 (splitName_bounds _ _ _ Hsplit)) (conj Hsize Hs) Ht) as Hb.
  rewrite <- !app_assoc, !(app_assoc pre).
  replace (length pre + 154)%nat with (length pre + 148 + 6)%nat by lia. rewrite set_checksum by (exact L10 || (rewrite length_app; lia)). by rewrite <- (app_assoc (padStart _ _)).
Qed.
End Header.

(** ** A header read back *)

Lemma imap_same (f : nat -> Z -> Z) l : (forall i x, (i < length l)%nat -> f i x = x) -> imap f l = l.
Proof.
  intros H. apply list_eq. intros i. rewrite list_lookup_imap. destruct (l !! i) as [x|] eqn:E; [|done]. cbn. f_equal.
  apply H. by eapply lookup_lt_Some.
Qed.

Lemma checksummed_header (before checksum after : list Z) : length before = 148%nat -> length checksum = 8%nat ->
  imap checksummed (before ++ checksum ++ after) = before ++ replicate 8 0x20 ++ after.
Proof.
  intros Hb Hc. rewrite !imap_app, Hb. f_equal; [|f_equal].
  - apply imap_same. intros i x Hi. unfold checksummed. by rewrite (proj2 (Nat.leb_gt 148 i)) by lia.
  - do 8 (destruct checksum as [|? checksum]; [done|]). by destruct checksum.
  - apply imap_same. intros i x _. unfold checksummed, compose. rewrite Hc, (proj2 (Nat.ltb_ge _ 156)) by lia. by rewrite andb_false_r.
Qed.

(** A member's name: a text that the encoding keeps, and that has no terminator in it. *)
Definition member_text (s : jsstr) : Prop := js_string s /\ well_formed s /\ (0 ∉ s) /\ (BOM ∉ s).

Lemma well_formed_from s k n : utf8Length_from s k = Ok n -> well_formed s.
Proof. intros H. exists (n - k). apply (utf8Length_from_shift _ _ _ (- k)) in H. by rewrite Z.add_opp_r, Z.sub_diag in H. Qed.

Lemma well_formed_app a b : js_string a -> well_formed (a ++ SLASH :: b) -> well_formed a /\ well_formed b.
Proof.
  induction a as [a IH] using (induction_ltof1 _ (@length Z)). unfold ltof in IH. intros Ha [n Hn].
  unfold utf8Length in *. destruct a as [|c a]; cbn [app utf8Length_from] in Hn.
  - split; [by exists 0|]. exact (well_formed_from b (0 + 1) n Hn).
  - apply Forall_cons in Ha as [Hc Ha].
    assert (forall k, utf8Length_from (a ++ SLASH :: b) (0 + k) = Ok n -> (exists m, utf8Length_from a k = Ok m) /\ well_formed b) as Hstep.
    { intros k Hk. destruct (IH a) as [Hwa Hwb]; [cbn; lia|done|by eapply well_formed_from|].
      split; [by apply well_formed_step|done]. }
    unfold well_formed, utf8Length. cbn [utf8Length_from].
    destruct (c <=? 0x7f); [by apply Hstep|]. destruct (c <=? 0x7ff); [by apply Hstep|].
    destruct (_ && _) eqn:E3.
    + destruct a as [|d a]; [cbn in Hn; done|]. cbn [app] in Hn. destruct (_ || _) eqn:E4; [done|].
      apply Forall_cons in Ha as [Hd Ha]. destruct (IH a) as [Hwa Hwb]; [cbn; lia|done|by eapply well_formed_from|].
      split; [by apply (well_formed_step a (0 + 4))|done].
    + destruct ((0xdc00 <=? c) && (c <=? 0xdfff)); [done|]. by apply Hstep.
Qed.

Lemma member_text_c s : member_text s -> c_text s.
Proof.
  intros (Hs & Hw & Hz & Hb). repeat split; [done| |done|done]. destruct s as [|c s]; [done|]. cbn. intros [= ->]. apply Hb; set_solver.
Qed.

Lemma member_text_parts name p r : splitName name = Ok (p, r) -> member_text name -> member_text p /\ member_text r.
Proof.
  intros [[-> ->]| ->]%splitName_parts (Hs & Hw & Hz & Hb).
  - split; [|done]. split_and!; [constructor|by exists 0|apply not_elem_of_nil..].
  - rewrite not_elem_of_app, not_elem_of_cons in Hz, Hb. apply Forall_app in Hs as [Hp Hr]. apply Forall_cons in Hr as [_ Hr].
    destruct (well_formed_app p r Hp Hw) as [Hwp Hwr]. destruct_and? Hz. destruct_and? Hb. done.
Qed.

Lemma ustar_text : c_text (js "ustar").
Proof.
  split; [split; [split; [|done]|by exists 5]|by apply (bool_decide_unpack _)].
  apply (bool_decide_unpack (Forall (fun c => 0 <= c <= 0xffff) (js "ustar"))). by vm_compute.
Qed.

(** The name a split name reads back as. *)
Definition joined (p r : jsstr) : jsstr := match p with [] => r | _ => p ++ SLASH :: r end.

Section ReadHeader.
Context (entry : TarEntry) (entryBytes : Z) (prefix rest : jsstr) (recordOffset : Z).
Hypothesis Hname : member_text (name entry).
Hypothesis Hsplit : splitName (name entry) = Ok (prefix, rest).
Hypothesis Hsize : 0 <= entryBytes < 8 ^ 11.
Hypothesis Htime : Z.max 0 (mtimeSeconds entry) < 8 ^ 11.

Let header := headerOf prefix rest entry entryBytes.
Let checksum := padStart 6 (toString8 (headerSum prefix rest entry entryBytes)) ++ [0; 0x20].
Let segs := headerFields prefix rest entry entryBytes checksum.

Lemma sum_bound : 0 <= headerSum prefix rest entry entryBytes < 8 ^ 6.
Proof. apply headerSum_bound; [apply Hname|done|done|done]. Qed.

Lemma checksum_length : length checksum = 8%nat.
Proof. unfold checksum. rewrite length_app, padStart_length; [done|apply sum_bound|lia]. Qed.

Lemma headerOf_length : length header = 512%nat.
Proof. apply headerFields_length; [done..|apply checksum_length]. Qed.

Lemma header_field k off n seg : segs !! k = Some seg -> off = length (mjoin (take k segs)) -> n = length seg ->
  subarray header off (off + n) = seg.
Proof. intros Hk Ho ->. by eapply get_field. Qed.

Lemma header_numbers : readOctal header 100 8 recordOffset = Ok (Z.land (mode entry) MODE_BITS)
  /\ readOctal header 124 12 recordOffset = Ok entryBytes /\ readOctal header 136 12 recordOffset = Ok (Z.max 0 (mtimeSeconds entry)).
Proof.
  pose proof (land_mode (mode entry)) as Hm. destruct (splitName_bounds _ _ _ Hsplit) as [Hp Hr].
  unfold encodedLength, byteLength, NAME_LENGTH in Hr.
  assert (length (field 100 (utf8_encode rest)) = 100%nat) as L1 by (apply length_field; lia).
  assert (length (octalField 8 (Z.land (mode entry) MODE_BITS)) = 8%nat) as L2 by (apply length_octalField; [lia|exact Hm]).
  assert (length (octalField 8 0) = 8%nat) as L3 by (apply length_octalField; cbn; lia).
  assert (length (octalField 12 entryBytes) = 12%nat) as L4 by (apply length_octalField; [lia|exact Hsize]).
  assert (length (octalField 12 (0 `max` mtimeSeconds entry)) = 12%nat) as L5 by (apply length_octalField; [lia|split; [lia|exact Htime]]).
  split_and!; (apply readOctal_field; [lia|lia|]).
  - apply (header_field 1); [done|unfold segs, headerFields; offsets|lia].
  - apply (header_field 4); [done|unfold segs, headerFields; offsets|lia].
  - apply (header_field 5); [done|unfold segs, headerFields; offsets|lia].
Qed.

Lemma header_before n off : off = (148 + n)%nat -> drop off header = drop n (checksum ++ headerAfter prefix entry).
Proof.
  intros ->. unfold header, headerOf. rewrite headerFields_split.
  rewrite <- (length_headerBefore rest entry entryBytes (proj2 (splitName_bounds _ _ _ Hsplit)) Hsize Htime) at 1. by rewrite drop_app_add.
Qed.

Lemma header_type : header !! 156%nat = Some (if isFile entry then 48 else 53).
Proof.
  rewrite <- (Nat.add_0_r 156), <- lookup_drop, (header_before 8 156), drop_app_ge, checksum_length by (rewrite ?checksum_length; lia).
  unfold headerAfter. cbn. by destruct (isFile entry).
Qed.

Lemma header_after off n : subarray header (156 + off) (156 + off + n) = subarray (headerAfter prefix entry) off (off + n).
Proof.
  unfold subarray. replace (156 + off + n - (156 + off))%nat with (off + n - off)%nat by lia.
  rewrite (header_before (8 + off)), drop_app_ge, checksum_length by (rewrite ?checksum_length; lia). do 2 f_equal. lia.
Qed.

Lemma header_magic : subarray header 257 (257 + 6) = field 6 (js "ustar").
Proof.
  change 257%nat with (156 + 101)%nat. rewrite header_after. unfold headerAfter. by destruct (isFile entry).
Qed.

Lemma header_prefix : subarray header 345 (345 + 155) = field 155 (utf8_encode prefix).
Proof.
  change 345%nat with (156 + 189)%nat. rewrite header_after. destruct (splitName_bounds _ _ _ Hsplit) as [Hp _].
  unfold encodedLength, byteLength, PREFIX_LENGTH in Hp.
  unfold headerAfter. eapply (get_field _ 5); [done| |].
  - by destruct (isFile entry).
  - rewrite length_field; lia.
Qed.

Lemma header_name : joinPrefix header = joined prefix rest.
Proof.
  destruct (member_text_parts _ _ _ Hsplit Hname) as [Hp%member_text_c Hr%member_text_c].
  destruct (splitName_bounds _ _ _ Hsplit) as [_ Hb]. unfold encodedLength, byteLength, NAME_LENGTH in Hb.
  unfold joinPrefix. rewrite (readCString_field header 0 100 rest), (readCString_field header 257 6 (js "ustar")), (readCString_field header 345 155 prefix); try done.
  - by destruct prefix.
  - apply header_prefix.
  - apply header_magic.
  - apply ustar_text.
  - apply (header_field 0); [done|done|rewrite length_field; lia].
Qed.

Lemma header_checks : isZeroRecord header = false /\ verifyChecksum header recordOffset = Ok tt.
Proof.
  split.
  - apply not_true_is_false. intros H. pose proof header_type as Ht.
    unfold isZeroRecord in H. rewrite List.forallb_forall in H. apply list_elem_of_lookup_2, list_elem_of_In in Ht. apply H in Ht.
    by destruct (isFile entry).
  - pose proof sum_bound as Hb. destruct (padStart_octal 6 (headerSum prefix rest entry entryBytes) ltac:(lia)) as (Ho & Hn & Hp).
    unfold verifyChecksum. rewrite (readOctal_digits header 148 8 (padStart 6 (toString8 (headerSum prefix rest entry entryBytes))) [0x20]).
    + cbn [mbind result_bind]. rewrite Hp. unfold header at 1, headerOf. rewrite headerFields_split, checksummed_header;
        [|apply length_headerBefore; [by eapply splitName_bounds|done..]|apply checksum_length].
      unfold headerSum. rewrite headerFields_split. by rewrite Z.eqb_refl.
    + unfold subarray. rewrite (header_before 0) by done. change (148 + 8 - 148)%nat with 8%nat. rewrite drop_0.
      rewrite <- checksum_length at 1. rewrite take_app_length. unfold checksum. done.
    + done.
    + done.
Qed.
End ReadHeader.

(** ** Archives *)

Definition contents (entry : TarEntry) : list Z := if isFile entry then data entry else [].

(** The bytes of one member. *)
Definition member (entry : TarEntry) : list Z :=
  match splitName (name entry) with
  | Ok (prefix, rest) => headerOf prefix rest entry (entrySize entry) ++ field (Z.to_nat (padded (entrySize entry))) (contents entry)
  | Throw _ => []
  end.

(** Why an entry cannot be written, when it cannot. *)
Definition refused (entry : TarEntry) : option TarFormatError :=
  match splitName (name entry) with
  | Ok _ => NumberOutOfRange <$> numberRefused entry (entrySize entry)
  | Throw e => Some e
  end.

Definition archiveOf (entries : list TarEntry) : list Z := mjoin (member <$> entries) ++ replicate 1024 0.

Lemma padded_bounds n : 0 <= n -> n <= padded n < n + 512.
Proof. intros H. unfold padded, RECORD. Z.to_euclidean_division_equations; lia. Qed.

Lemma entrySize_contents entry : entrySize entry = Z.of_nat (length (contents entry)).
Proof. unfold entrySize, contents. by destruct (isFile entry). Qed.

Lemma refused_None entry : refused entry = None <->
  (exists parts, splitName (name entry) = Ok parts) /\ entrySize entry < 8 ^ 11 /\ Z.max 0 (mtimeSeconds entry) < 8 ^ 11.
Proof.
  unfold refused, numberRefused. destruct (splitName (name entry)) as [parts|e]; [|naive_solver].
  destruct (Z.leb_spec (8 ^ 11) (entrySize entry)), (Z.leb_spec (8 ^ 11) (0 `max` mtimeSeconds entry)); cbn [fmap option_fmap option_map];
    split; intros H'; try done; try (destruct H' as (_ & H' & H''); lia).
  split_and!; [by eexists|done..].
Qed.

Lemma headerOf_size entry p r : js_string (name entry) -> splitName (name entry) = Ok (p, r) -> refused entry = None ->
  length (headerOf p r entry (entrySize entry)) = 512%nat.
Proof.
  intros Hn Es (_ & Hs & Ht)%refused_None. pose proof (entrySize_contents entry).
  apply headerFields_length; [done|lia|done|]. rewrite length_app, padStart_length; [done| |lia].
  eapply headerSum_bound; [done|done|lia|done].
Qed.

Lemma member_length entry : js_string (name entry) -> refused entry = None ->
  length (member entry) = Z.to_nat (RECORD + padded (entrySize entry)).
Proof.
  intros Hn Hr. pose proof Hr as ([[p r] Es] & _)%refused_None. unfold member. rewrite Es, length_app, headerOf_size by done.
  pose proof (entrySize_contents entry). pose proof (padded_bounds (entrySize entry)). rewrite length_field; unfold RECORD; lia.
Qed.

Lemma writeEntry_spec pre post entry n : js_string (name entry) -> n = Z.to_nat (RECORD + padded (entrySize entry)) ->
  writeEntry (pre ++ replicate n 0 ++ post, length pre) entry
  = match refused entry with
    | Some e => Throw e
    | None => Ok (pre ++ member entry ++ post, (length pre + n)%nat)
    end.
Proof.
  intros Hn ->. pose proof (entrySize_contents entry) as Hc. pose proof (padded_bounds (entrySize entry) ltac:(lia)) as Hp.
  unfold RECORD. rewrite Z2Nat.inj_add by lia. change (Z.to_nat 512) with 512%nat. rewrite replicate_add, <- app_assoc.
  unfold writeEntry, refused, member. destruct (splitName (name entry)) as [[p r]|e] eqn:Es;
    [|by (unfold writeHeader; rewrite Es)].
  rewrite (writeHeader_spec pre _ entry (entrySize entry) ltac:(lia) p r Hn Es). destruct (numberRefused _ _) eqn:Er; [done|].
  cbn [fmap option_fmap option_map mbind result_bind].
  assert (refused entry = None) as Hr by (unfold refused; by rewrite Es, Er).
  pose proof (headerOf_size entry p r Hn Es Hr) as Hl.
  unfold field. rewrite <- !app_assoc.
  assert ((if 0 <? entrySize entry then set_bytes (length pre + Z.to_nat RECORD) (data entry)
             (pre ++ headerOf p r entry (entrySize entry) ++ replicate (Z.to_nat (padded (entrySize entry))) 0 ++ post)
           else pre ++ headerOf p r entry (entrySize entry) ++ replicate (Z.to_nat (padded (entrySize entry))) 0 ++ post)
    = pre ++ headerOf p r entry (entrySize entry) ++ contents entry
      ++ replicate (Z.to_nat (padded (entrySize entry)) - length (contents entry)) 0 ++ post) as E; [|do 2 f_equal; [exact E|unfold RECORD; lia]].
  assert (Z.to_nat (padded (entrySize entry)) = length (contents entry) + (Z.to_nat (padded (entrySize entry)) - length (contents entry)))%nat as Hk by lia.
  set (room := (Z.to_nat (padded (entrySize entry)) - length (contents entry))%nat) in *. rewrite Hk.
  rewrite replicate_add, <- app_assoc. destruct (Z.ltb_spec 0 (entrySize entry)) as [Hpos|Hz].
  - assert (data entry = contents entry) as -> by (unfold contents, entrySize in *; by destruct (isFile entry)).
    rewrite !(app_assoc pre). apply set_bytes_mid; [rewrite length_app, Hl; done|by rewrite length_replicate].
  - assert (contents entry = []) as -> by (apply length_zero_iff_nil; lia). done.
Qed.

(** How many bytes the members take. *)
Definition membersLength (entries : list TarEntry) : nat :=
  sum_list_with (fun e => Z.to_nat (RECORD + padded (entrySize e))) entries.

Lemma member_room entry : 0 <= RECORD + padded (entrySize entry).
Proof. pose proof (padded_bounds (entrySize entry)). pose proof (entrySize_contents entry). unfold RECORD. lia. Qed.

Lemma archiveLength_members entries : archiveLength entries = Z.of_nat (membersLength entries + 1024).
Proof.
  unfold archiveLength. rewrite Nat.add_comm, Nat2Z.inj_add. change (RECORD * 2) with (Z.of_nat 1024). generalize (Z.of_nat 1024).
  induction entries as [|e entries IH]; intros acc; cbn; [lia|]. rewrite IH. unfold membersLength. cbn [sum_list_with].
  fold (membersLength entries). pose proof (member_room e). lia.
Qed.

Lemma writeEntries_spec entries pre post : Forall (fun e => js_string (name e)) entries ->
  foldM writeEntry (pre ++ replicate (membersLength entries) 0 ++ post, length pre) entries
  = match head (omap refused entries) with
    | Some e => Throw e
    | None => Ok (pre ++ mjoin (member <$> entries) ++ post, (length pre + membersLength entries)%nat)
    end.
Proof.
  intros H. revert pre. induction H as [|e entries He _ IH]; intros pre; [cbn; by rewrite Nat.add_0_r|].
  unfold membersLength. cbn [sum_list_with foldM]. fold (membersLength entries). rewrite replicate_add, <- app_assoc.
  rewrite writeEntry_spec by done. cbn [omap list_omap fmap list_fmap mjoin list_join]. destruct (refused e) as [x|] eqn:Er; [done|]. cbn [mbind result_bind].
  assert (length (member e) = Z.to_nat (RECORD + padded (entrySize e))) as Hl by (by apply member_length).
  rewrite app_assoc. rewrite <- Hl, <- length_app. rewrite IH. by rewrite length_app, <- !app_assoc, Nat.add_assoc.
Qed.

(** The writer: the first entry that cannot be written is refused, otherwise the archive is that of the entries. *)
Lemma writeTar_archive entries : Forall (fun e => js_string (name e)) entries ->
  writeTar entries = match head (omap refused entries) with Some e => Throw e | None => Ok (archiveOf entries) end.
Proof.
  intros H. unfold writeTar. rewrite archiveLength_members, Nat2Z.id, replicate_add.
  pose proof (writeEntries_spec entries [] (replicate 1024 0) H) as E. cbn [app length] in E. rewrite E.
  by destruct (head _).
Qed.

(** ** Reading what was written *)

(** The name, mode, time and bytes that the archive keeps of an entry. *)
Definition storedName (name : jsstr) : jsstr :=
  match splitName name with Ok (prefix, rest) => joined prefix rest | Throw _ => name end.
Definition stored (entry : TarEntry) : TarEntry :=
  mkEntry (storedName (name entry)) (type entry) (Z.land (mode entry) MODE_BITS) (Z.max 0 (mtimeSeconds entry)) (contents entry).

Lemma subarray_at (pre bs post : list Z) n : n = length bs -> subarray (pre ++ bs ++ post) (length pre) (length pre + n) = bs.
Proof. intros ->. by apply subarray_mid. Qed.

Lemma readMember_member e p r k next : member_text (name e) -> refused e = None -> splitName (name e) = Ok (p, r) ->
  readMember (headerOf p r e (entrySize e)) (contents e) (mkPending k None None) next
  = Ok (Continue (Some (stored e)) (mkPending next None None)).
Proof.
  intros Hn Hr Hs. pose proof Hr as (_ & Hz & Ht)%refused_None. pose proof (entrySize_contents e) as Hc.
  destruct (header_numbers e (entrySize e) p r (Z.of_nat next) Hs ltac:(lia) Ht) as (Hmode & _ & Htime).
  unfold readMember. rewrite (header_type e (entrySize e) p r Hn Hs ltac:(lia) Ht). change (default 0 (Some ?x)) with x.
  cbn [pendingName]. rewrite Hmode, Htime, (header_name e (entrySize e) p r Hn Hs ltac:(lia) Ht). cbn [mbind result_bind].
  unfold stored, storedName. rewrite Hs, <- Z.land_assoc, Z.land_diag. unfold contents, isFile. by destruct (type e).
Qed.

Lemma readHeader_member e pre post : member_text (name e) -> refused e = None ->
  readHeader (pre ++ member e ++ post) (mkPending (length pre) None None)
  = Ok (Continue (Some (stored e)) (mkPending (length (pre ++ member e)) None None)).
Proof.
  intros Hn Hr. pose proof Hr as ([[p r] Hs] & Hz & Ht)%refused_None. pose proof (entrySize_contents e) as Hc.
  pose proof (padded_bounds (entrySize e) ltac:(lia)) as Hp. pose proof (member_length e (proj1 Hn) Hr) as Hm.
  pose proof (headerOf_size e p r (proj1 Hn) Hs Hr) as Hh.
  destruct (header_checks e (entrySize e) p r (Z.of_nat (length pre)) Hn Hs ltac:(lia) Ht) as [Hzero Hsum].
  destruct (header_numbers e (entrySize e) p r (Z.of_nat (length pre)) Hs ltac:(lia) Ht) as (_ & Hsize & _).
  unfold readHeader, readEnd, readRecord. cbv zeta. cbn [position pendingName pendingSize].
  assert (byteLength (pre ++ member e ++ post) = Z.of_nat (length pre) + (RECORD + padded (entrySize e)) + Z.of_nat (length post)) as ->
    by (unfold byteLength, RECORD in *; rewrite !length_app; lia).
  rewrite (proj2 (Z.eqb_neq _ _)), (proj2 (Z.ltb_ge _ (_ + RECORD))) by (unfold RECORD; lia). cbn [throw_if mbind result_bind].
  assert (member e = headerOf p r e (entrySize e) ++ contents e ++ replicate (Z.to_nat (padded (entrySize e)) - length (contents e)) 0) as Em
    by (unfold member; by rewrite Hs).
  assert (forall l, pre ++ member e ++ l = pre ++ headerOf p r e (entrySize e) ++ contents e ++ replicate (Z.to_nat (padded (entrySize e)) - length (contents e)) 0 ++ l) as El
    by (intros l; rewrite Em; by rewrite <- !app_assoc).
  rewrite !El, !(subarray_at pre (headerOf _ _ _ _)) by done. rewrite Hzero, Hsum. cbn [mbind result_bind]. rewrite Hsize. cbn [mbind result_bind].
  change (default ?x None) with x.
  rewrite (proj2 (Z.ltb_ge _ _)) by (unfold RECORD; lia). cbn [throw_if mbind result_bind].
  rewrite (app_assoc pre). replace (length pre + Z.to_nat RECORD)%nat with (length (pre ++ headerOf p r e (entrySize e))) by (rewrite length_app, Hh; done).
  rewrite subarray_at by lia. rewrite (readMember_member e p r) by done. rewrite length_app. do 3 f_equal.
  rewrite length_app, Hm, Hh. unfold RECORD. lia.
Qed.

Lemma isZeroRecord_zeros n : isZeroRecord (replicate n 0) = true.
Proof. unfold isZeroRecord. by induction n. Qed.

Lemma readHeader_end pre post : readHeader (pre ++ replicate 1024 0 ++ post) (mkPending (length pre) None None) = Ok Finish.
Proof.
  unfold readHeader, readEnd, readRecord. cbv zeta. cbn [position pendingName pendingSize].
  assert (byteLength (pre ++ replicate 1024 0 ++ post) = Z.of_nat (length pre) + 1024 + Z.of_nat (length post)) as ->
    by (unfold byteLength; rewrite !length_app, length_replicate; lia).
  rewrite (proj2 (Z.eqb_neq _ _)), (proj2 (Z.ltb_ge _ (_ + RECORD))) by (unfold RECORD; lia). cbn [throw_if mbind result_bind].
  change 1024%nat with (512 + 512)%nat. rewrite replicate_add, <- app_assoc, subarray_at by done. rewrite isZeroRecord_zeros.
  rewrite (app_assoc pre). replace (length pre + Z.to_nat RECORD)%nat with (length (pre ++ replicate 512 0%Z)) by (by rewrite length_app).
  replace (length pre + 2 * Z.to_nat RECORD)%nat with (length (pre ++ replicate 512 0%Z) + 512)%nat
    by (rewrite length_app, length_replicate; change (Z.to_nat RECORD) with 512%nat; lia).
  by rewrite subarray_at, isZeroRecord_zeros.
Qed.

Lemma readLoop_written entries pre post acc fuel : Forall (fun e => member_text (name e) /\ refused e = None) entries ->
  (length entries < fuel)%nat ->
  readLoop fuel (pre ++ mjoin (member <$> entries) ++ replicate 1024 0 ++ post) acc (mkPending (length pre) None None)
  = Ok (acc ++ (stored <$> entries)).
Proof.
  intros H. revert pre acc fuel. induction H as [|e entries [Hn Hr] _ IH]; intros pre acc [|fuel] Hf; try (cbn in Hf; lia).
  - cbn [fmap list_fmap mjoin list_join app readLoop]. rewrite readHeader_end, app_nil_r. done.
  - cbn [fmap list_fmap mjoin list_join readLoop]. rewrite <- app_assoc, readHeader_member by done. cbn [mbind result_bind option_list].
    rewrite (app_assoc pre), IH by (cbn in Hf; lia). by rewrite <- app_assoc.
Qed.

Lemma members_count entries : (length entries <= membersLength entries)%nat.
Proof.
  unfold membersLength. induction entries as [|e l IH]; cbn [length sum_list_with]; [lia|].
  pose proof (entrySize_contents e). pose proof (padded_bounds (entrySize e) ltac:(lia)). unfold RECORD in *. lia.
Qed.

Lemma archiveOf_length entries : Forall (fun e => member_text (name e) /\ refused e = None) entries ->
  length (archiveOf entries) = (membersLength entries + 1024)%nat.
Proof.
  intros H. unfold archiveOf. rewrite length_app, length_replicate. f_equal. unfold membersLength.
  induction H as [|e l [Hn Hr] _ IH]; [done|]. rewrite fmap_cons, mjoin_cons. cbn [sum_list_with]. rewrite length_app, IH, member_length by (done || apply Hn). done.
Qed.

Lemma readTar_archive entries : Forall (fun e => member_text (name e) /\ refused e = None) entries ->
  readTar (archiveOf entries) = Ok (stored <$> entries).
Proof.
  intros H. unfold readTar. rewrite archiveOf_length by done. pose proof (members_count entries).
  pose proof (readLoop_written entries [] [] [] (S (membersLength entries + 1024)) H ltac:(lia)) as E.
  cbn [app length] in E. rewrite app_nil_r in E. exact E.
Qed.

(** ** Archives that are cut short *)

(** The errors that report a cut. *)
Definition cut (e : TarFormatError) : bool :=
  match e with NoEndRecords _ | HeaderCut _ | OneEndRecord _ | MemberCut _ => true | _ => false end.

Lemma subarray_of_take (a : list Z) n start stop : (stop <= n)%nat -> subarray (take n a) start stop = subarray a start stop.
Proof. intros H. unfold subarray. rewrite skipn_firstn_comm, take_take. f_equal. lia. Qed.

Lemma byteLength_subarray (a : list Z) start stop : byteLength (subarray a start stop) = Z.of_nat ((stop - start) `min` (length a - start)).
Proof. unfold subarray, byteLength. by rewrite length_take, length_drop. Qed.

Lemma padded_above n : n <= padded n.
Proof. unfold padded, RECORD. Z.to_euclidean_division_equations; lia. Qed.

Lemma readMember_next header bytes p next pass : readMember header bytes p next = Ok pass ->
  exists m q, pass = Continue m q /\ position q = next.
Proof. unfold readMember. repeat case_match; intros Hok; inv_ok; by do 2 eexists. Qed.

(** Where a pass stops reading. *)
Definition passEnd (p : Pending) (pass : Pass) : nat :=
  match pass with Finish => (position p + 1024)%nat | Continue _ q => position q end.

(** What a run over an archive says about the run over its first [n] bytes. *)
Definition cut_at {A} (n stop : nat) (whole part : T A) : Prop :=
  if (stop <=? n)%nat then part = whole else exists e, part = Throw e /\ cut e = true.

Lemma length_taken (a : list Z) n : (n <= length a)%nat -> byteLength (take n a) = Z.of_nat n.
Proof. intros H. unfold byteLength. rewrite length_take. lia. Qed.

Section Cut.
Context (a : list Z) (n : nat) (p : Pending) (pass : Pass).
Hypothesis Hn : (position p + 512 <= n <= length a)%nat.

Lemma readEnd_take : readEnd a p = Ok pass ->
  pass = Finish /\ (position p + 1024 <= length a)%nat /\ cut_at n (position p + 1024) (Ok pass) (readEnd (take n a) p).
Proof.
  unfold readEnd. change (Z.to_nat RECORD) with 512%nat. replace (position p + 2 * 512)%nat with (position p + 1024)%nat by lia.
  cbv zeta. intros Hok. apply bind_Ok in Hok as ([] & [H1 H2]%throw_if_Ok%orb_false_iff & Hok).
  apply bind_Ok in Hok as ([] & H3 & [= <-]). apply Z.ltb_ge in H1. unfold RECORD in *.
  rewrite byteLength_subarray in *. split; [done|]. split; [lia|]. unfold cut_at. destruct (Nat.leb_spec (position p + 1024) n).
  - rewrite subarray_of_take, H2, H3, length_take by lia. by rewrite (proj2 (Z.ltb_ge _ _)) by lia.
  - eexists. split; [by rewrite length_take, (proj2 (Z.ltb_lt _ _)) by lia|done].
Qed.

Lemma readRecord_take header : readRecord a p header = Ok pass ->
  (position p + 512 <= passEnd p pass <= length a)%nat /\ cut_at n (passEnd p pass) (Ok pass) (readRecord (take n a) p header).
Proof.
  unfold readRecord. change (Z.to_nat RECORD) with 512%nat. intros Hok. inv_ok.
  pose proof (padded_above (default x0 (pendingSize p))) as Hp. destruct (readMember_next _ _ _ _ _ Hok) as (m & q & -> & Hq). cbn [passEnd].
  unfold byteLength in Hx1. split; [lia|]. rewrite Hx, Hx0. cbn [mbind result_bind]. rewrite length_taken by lia. unfold cut_at.
  destruct (Nat.leb_spec (position q) n).
  - rewrite (proj2 (Z.ltb_ge _ _)) by lia. cbn [throw_if mbind result_bind]. by rewrite subarray_of_take by lia.
  - eexists. split; [by rewrite (proj2 (Z.ltb_lt _ _)) by lia|done].
Qed.
End Cut.

Lemma readHeader_take a n p pass : (position p <= n <= length a)%nat -> readHeader a p = Ok pass ->
  (position p + 512 <= passEnd p pass <= length a)%nat /\ cut_at n (passEnd p pass) (Ok pass) (readHeader (take n a) p).
Proof.
  intros Hn Hok. unfold readHeader in *. cbv zeta in *. change (Z.to_nat RECORD) with 512%nat in *.
  apply bind_Ok in Hok as ([] & H1%throw_if_Ok%Z.eqb_neq & Hok). apply bind_Ok in Hok as ([] & H2%throw_if_Ok%Z.ltb_ge & Hok).
  rewrite length_taken by lia. unfold byteLength, RECORD in H1, H2.
  destruct (Nat.le_gt_cases (position p + 512) n) as [Hle|Hgt].
  - rewrite (proj2 (Z.eqb_neq _ _)), (proj2 (Z.ltb_ge _ _)) by (unfold RECORD; lia). cbn [throw_if mbind result_bind].
    rewrite subarray_of_take by lia. destruct (isZeroRecord _).
    + destruct (readEnd_take a n p pass ltac:(lia) Hok) as (-> & Hl & Hc). split; [cbn; lia|exact Hc].
    + apply readRecord_take; [lia|done].
  - assert (position p + 512 <= passEnd p pass <= length a)%nat as Hb.
    { destruct (isZeroRecord _); [destruct (readEnd_take a (length a) p pass ltac:(lia) Hok) as (-> & Hl & _); cbn; lia|].
      by apply (readRecord_take a (length a) p pass ltac:(lia) _ Hok). }
    split; [done|]. unfold cut_at. rewrite (proj2 (Nat.leb_gt _ _)) by lia.
    destruct (Z.eqb_spec (Z.of_nat (position p)) (Z.of_nat n)); [by eexists|].
    rewrite (proj2 (Z.ltb_lt _ _)) by (unfold RECORD; lia). by eexists.
Qed.

Lemma readLoop_take fuel a acc p es : (position p <= length a)%nat -> readLoop fuel a acc p = Ok es ->
  exists stop, (position p + 1024 <= stop <= length a)%nat /\
    forall n fuel', (position p <= n <= length a)%nat -> (n - position p < fuel')%nat ->
      cut_at n stop (Ok es) (readLoop fuel' (take n a) acc p).
Proof.
  revert acc p. induction fuel as [|fuel IH]; intros acc p Hp Hok; [done|]. cbn [readLoop] in Hok.
  apply bind_Ok in Hok as (pass & Hpass & Hok).
  assert (forall n, (position p <= n <= length a)%nat -> _) as Ht by (intros n Hn; exact (readHeader_take a n p pass Hn Hpass)).
  destruct (Ht (length a) ltac:(lia)) as [Hb _].
  assert (exists stop, (passEnd p pass <= stop <= length a)%nat /\ (position p + 1024 <= stop)%nat /\
    forall n fuel', (passEnd p pass <= n <= length a)%nat -> (n - passEnd p pass < fuel')%nat ->
      cut_at n stop (Ok es) (match pass with Finish => Ok acc | Continue m q => readLoop fuel' (take n a) (acc ++ option_list m) q end))
    as (stop & Hs & Hs' & Hloop).
  { destruct pass as [|m q]; cbn [passEnd] in *.
    - injection Hok as <-. exists (position p + 1024)%nat. split; [lia|]. split; [lia|]. intros n fuel' Hn _. unfold cut_at.
      by rewrite (proj2 (Nat.leb_le _ _)) by lia.
    - destruct (IH _ q ltac:(lia) Hok) as (stop & Hs & Hl). exists stop. split; [lia|]. split; [lia|done]. }
  exists stop. split; [lia|]. intros n fuel' Hn Hf. destruct fuel' as [|fuel']; [lia|]. cbn [readLoop].
  destruct (Ht n Hn) as [_ Hc]. unfold cut_at in Hc. destruct (Nat.leb_spec (passEnd p pass) n) as [Hle|Hgt].
  - rewrite Hc. cbn [mbind result_bind]. specialize (Hloop n fuel' ltac:(lia) ltac:(lia)). by destruct pass.
  - destruct Hc as (e & -> & He). unfold cut_at. rewrite (proj2 (Nat.leb_gt _ _)) by lia. by eexists.
Qed.

(** ** The loops end *)

Definition finishes {A} (m : T A) : Prop := m <> Throw OutOfFuel.

Lemma finishes_bind {A B} (m : T A) (f : A -> T B) : finishes m -> (forall x, m = Ok x -> finishes (f x)) -> finishes (m ≫= f).
Proof. unfold finishes. destruct m as [x|e]; cbn; [auto|congruence]. Qed.

Lemma finishes_throw_if b e : e <> OutOfFuel -> finishes (throw_if b e).
Proof. unfold finishes. destruct b; cbn; congruence. Qed.

(** Through the statements of a body, to what it calls. *)
Ltac finishes_step := first
  [ done | apply finishes_throw_if; done | apply finishes_bind; [|intros ? ?]
  | match goal with |- finishes (if ?b then _ else _) => destruct b eqn:? | |- finishes (match ?x with _ => _ end) => destruct x eqn:? end
  | solve [unfold finishes; congruence] ].
Ltac finishes_tac := repeat finishes_step.

Lemma readPaxRecord_ends rest result off : finishes (readPaxRecord rest result off).
Proof.
  unfold readPaxRecord, assignPax. destruct (beforeSpace rest) as [lengthBytes found]. finishes_tac.
  match goal with |- context [or_throw ?o _] => destruct o end; finishes_tac.
Qed.

Lemma readPaxRecord_length rest result off len result' : readPaxRecord rest result off = Ok (len, result') -> 2 <= len <= byteLength rest.
Proof.
  unfold readPaxRecord. destruct (beforeSpace rest) as [lengthBytes found]. intros Hok.
  apply bind_Ok in Hok as (? & _ & Hok). apply bind_Ok in Hok as (? & [[_ H1]%orb_false_iff H2]%throw_if_Ok%orb_false_iff & Hok).
  apply bind_Ok in Hok as (? & _ & Hok). apply bind_Ok in Hok as ([key value] & _ & Hok). apply bind_Ok in Hok as (? & _ & [= <- _]).
  apply Z.leb_gt in H1. apply Z.ltb_ge in H2. pose proof (byteLength_nonneg lengthBytes). lia.
Qed.

Lemma readPaxFrom_ends fuel rest result off : (length rest < fuel)%nat -> finishes (readPaxFrom fuel rest result off).
Proof.
  revert rest result. induction fuel as [|fuel IH]; intros rest result Hf; [lia|]. cbn [readPaxFrom]. destruct rest as [|b rest]; [done|].
  apply finishes_bind; [apply readPaxRecord_ends|]. intros [len result'] H%readPaxRecord_length. apply IH.
  rewrite length_drop. unfold byteLength in H. lia.
Qed.

Lemma readOctal_ends header at_ n off : finishes (readOctal header at_ n off).
Proof. unfold readOctal. finishes_tac. Qed.

Lemma readHeader_ends a p : finishes (readHeader a p).
Proof.
  unfold readHeader, readEnd, readRecord, verifyChecksum, readMember, readPax. cbv zeta. finishes_tac.
  all: try apply readOctal_ends; try (apply readPaxFrom_ends; lia).
Qed.

Lemma readLoop_ends fuel a acc p : (position p <= length a)%nat -> (length a - position p < fuel)%nat -> finishes (readLoop fuel a acc p).
Proof.
  revert acc p. induction fuel as [|fuel IH]; intros acc p Hp Hf; [lia|]. cbn [readLoop].
  apply finishes_bind; [apply readHeader_ends|]. intros pass Hok. destruct (readHeader_take a (length a) p pass ltac:(lia) Hok) as [Hb _].
  destruct pass as [|m q]; [done|]. cbn [passEnd] in Hb. apply IH; lia.
Qed.

(** ** PAX records *)

(** A number written in decimal, and what it stands for. *)
Definition decimal (text : jsstr) : Prop := text <> [] /\ Forall (fun c => 48 <= c <= 57) text.
Definition decimal_value (text : jsstr) : Z := foldl (fun n c => 10 * n + (c - 48)) 0 text.

Lemma decimal_digits text : allDigits 10 text = true <-> decimal text.
Proof.
  unfold decimal. destruct text as [|c text]; [by split; [|intros [? _]]|]. unfold allDigits. rewrite List.forallb_forall, List.Forall_forall. split.
  - intros H. split; [done|]. intros d Hd. specialize (H d Hd). unfold isDigit in H. propify. lia.
  - intros [_ H] d Hd. specialize (H d Hd). cbn in H. unfold isDigit. apply andb_true_intro. split; [apply Z.leb_le|apply Z.ltb_lt]; lia.
Qed.

Lemma decimal_parsed text : parseDigits 10 text = decimal_value text.
Proof.
  unfold parseDigits, decimal_value. generalize 0 as n. induction text as [|c text IH]; intros n; [done|]. cbn. rewrite IH. f_equal. lia.
Qed.

Lemma decimal_value_nonneg text : decimal text -> 0 <= decimal_value text.
Proof.
  intros [_ H]. unfold decimal_value. generalize (Z.le_refl 0). generalize 0 at 2 4 as n.
  induction H as [|c text Hc _ IH]; intros n Hn; [done|]. cbn. apply IH. lia.
Qed.

(** [bytes] is the record of [key] and [value]: its decimal length, a space, [key=value] and a newline. *)
Definition pax_record (record : jsstr * jsstr) (bytes : list Z) : Prop :=
  let '(key, value) := record in
  exists digits, bytes = digits ++ 0x20 :: utf8_encode (key ++ 61 :: value) ++ [0x0a]
    /\ decimal digits /\ decimal_value digits = byteLength bytes
    /\ wire_text (key ++ 61 :: value) /\ (61 ∉ key) /\ byteLength bytes <= MAX_SAFE_INTEGER.

Lemma beforeSpace_app digits rest : 0x20 ∉ digits -> beforeSpace (digits ++ 0x20 :: rest) = (digits, true).
Proof.
  induction digits as [|c l IH]; intros H; [done|]. rewrite not_elem_of_cons in H. cbn [app beforeSpace].
  rewrite (proj2 (Z.eqb_neq c 0x20)), IH by naive_solver. done.
Qed.

Lemma cutAt_app sep key value : sep ∉ key -> cutAt sep (key ++ sep :: value) = Some (key, value).
Proof.
  induction key as [|c l IH]; intros H; cbn [app cutAt]; [by rewrite Z.eqb_refl|]. rewrite not_elem_of_cons in H.
  rewrite (proj2 (Z.eqb_neq c sep)), IH by naive_solver. done.
Qed.

Lemma allDigits_plain text : allDigits 10 text = true -> Forall (fun c => 48 <= c < 58) text.
Proof.
  destruct text as [|c text]; [done|]. unfold allDigits. rewrite List.forallb_forall, List.Forall_forall. intros H d Hd.
  specialize (H d Hd). unfold isDigit in H. propify. lia.
Qed.

Lemma readPaxRecord_record key value bytes rest result off : pax_record (key, value) bytes ->
  readPaxRecord (bytes ++ rest) result off = (result' ← assignPax off result key value; Ok (byteLength bytes, result')).
Proof.
  intros (digits & Eb & Ha%decimal_digits & Hp & Ht & Hk & Hsafe). rewrite <- decimal_parsed in Hp. pose proof (allDigits_plain _ Ha) as Hd.
  assert (0x20 ∉ digits) as Hsp by (intros Hin; rewrite Forall_forall in Hd; specialize (Hd _ Hin); cbn in Hd; lia).
  destruct (ascii_c_text digits) as [[Hdt _] He]; [eapply Forall_impl; [exact Hd|]; cbn; lia|].
  unfold readPaxRecord.
  assert (beforeSpace (bytes ++ rest) = (digits, true)) as -> by (rewrite Eb, <- app_assoc; by apply beforeSpace_app).
  cbn [negb orb]. assert (textDecode digits = digits) as -> by (rewrite <- He at 1; by apply textDecode_encode).
  rewrite Ha. cbn [negb throw_if mbind result_bind]. rewrite Hp.
  set (body := utf8_encode (key ++ 61 :: value)) in *.
  assert (length bytes = length digits + 1 + length body + 1)%nat as Hl by (rewrite Eb, length_app; cbn [length]; rewrite length_app; cbn [length]; lia).
  assert (isSafeInteger (byteLength bytes) = true) as -> by (unfold isSafeInteger, byteLength in *; apply Z.leb_le; lia).
  rewrite (proj2 (Z.leb_gt _ _)) by (unfold byteLength; lia).
  rewrite (proj2 (Z.ltb_ge _ _)) by (unfold byteLength; rewrite length_app; lia). cbn [negb orb throw_if mbind result_bind].
  replace (Z.to_nat (byteLength bytes - 1)) with (length digits + 1 + length body)%nat by (unfold byteLength; lia).
  assert (bytes ++ rest = (digits ++ [0x20]) ++ body ++ 0x0a :: rest) as ->
    by (rewrite Eb, <- !app_assoc; cbn [app]; by rewrite <- app_assoc).
  assert ((length digits + 1)%nat = length (digits ++ [0x20])) as -> by (rewrite length_app; done).
  rewrite subarray_at by done.
  change (textDecode body) with (textDecode (utf8_encode (key ++ 61 :: value))). rewrite textDecode_encode by done. rewrite cutAt_app by done.
  rewrite app_assoc, list_lookup_middle by (by rewrite (length_app (digits ++ _))). done.
Qed.

(** The attributes of the records, in their order. *)
Lemma readPaxFrom_records fuel result off : forall records bytes, Forall2 pax_record records bytes ->
  (length (mjoin bytes) < fuel)%nat ->
  readPaxFrom fuel (mjoin bytes) result off = foldM (fun r '(key, value) => assignPax off r key value) result records.
Proof.
  revert result. induction fuel as [|fuel IH]; intros result records bytes H Hf; [lia|].
  destruct H as [|[key value] bs records bytes Hr H]; [done|]. rewrite mjoin_cons in *. cbn [readPaxFrom foldM].
  pose proof Hr as (digits & Eb & _). assert (0 < length bs)%nat as Hl by (rewrite Eb, length_app; cbn [length]; lia).
  destruct (bs ++ mjoin bytes) as [|b l] eqn:E; [apply (f_equal length) in E; rewrite length_app in E; cbn in E; lia|].
  rewrite <- E in Hf |- *.
  rewrite (readPaxRecord_record key value) by done. destruct (assignPax off result key value) as [result'|e]; [|done].
  cbn [mbind result_bind]. unfold byteLength. rewrite Nat2Z.id, drop_app_length. apply IH; [done|]. rewrite length_app in Hf. lia.
Qed.

(** The values a key has in a list of records, in their order. *)
Definition values_of (key : jsstr) (records : list (jsstr * jsstr)) : list jsstr := (filter (fun record => record.1 = key) records).*2.

(** A size that can be taken: a number in decimal that a double holds exactly. *)
Definition size_ok (value : jsstr) : Prop := decimal value /\ decimal_value value <= MAX_SAFE_INTEGER.

(** What the records [done] leave: the last path, and the last size as a number. *)
Definition attributes (done : list (jsstr * jsstr)) : Pax :=
  mkPax (last (values_of (js "path") done)) (decimal_value <$> last (values_of (js "size") done)).

Lemma values_of_snoc key done k v : values_of key (done ++ [(k, v)]) = values_of key done ++ (if decide (k = key) then [v] else []).
Proof. unfold values_of. rewrite filter_app, fmap_app. f_equal. rewrite filter_cons, filter_nil. cbn. by case_decide. Qed.

Lemma size_checked value : allDigits 10 value && isSafeInteger (parseDigits 10 value) = true <-> size_ok value.
Proof.
  rewrite decimal_parsed, andb_true_iff, decimal_digits. unfold size_ok, isSafeInteger. rewrite Z.leb_le. split; intros [H Hs]; (split; [done|]);
    pose proof (decimal_value_nonneg _ H); lia.
Qed.

(** One more record. *)
Lemma assignPax_record off done key value :
  (key = js "size" -> size_ok value) -> assignPax off (attributes done) key value = Ok (attributes (done ++ [(key, value)])).
Proof.
  intros Hs. unfold assignPax, attributes. rewrite !values_of_snoc. cbn [path size].
  assert (js "path" <> js "size") as Hne by (vm_compute; discriminate).
  destruct (decide (key = js "path")) as [->|Hp].
  - rewrite (bool_decide_true (js "path" = js "path")), (bool_decide_false (js "path" = js "size")), decide_False by done. by rewrite app_nil_r, last_snoc.
  - rewrite (bool_decide_false (key = js "path")) by done. destruct (decide (key = js "size")) as [->|Hn].
    + rewrite bool_decide_true by done. rewrite (proj2 (size_checked value)) by auto. cbn. by rewrite app_nil_r, last_snoc, decimal_parsed.
    + rewrite bool_decide_false by done. by rewrite !app_nil_r.
Qed.

Lemma assignPax_refuses off result value : ~ size_ok value -> assignPax off result (js "size") value = Throw (MalformedPaxSize off value).
Proof.
  intros Hs. unfold assignPax. rewrite (bool_decide_true (js "size" = js "size")) by done.
  destruct (allDigits 10 value && isSafeInteger (parseDigits 10 value)) eqn:E; [by apply size_checked in E|done].
Qed.

Lemma attributes_taken off records : forall done,
  (Forall size_ok (values_of (js "size") records) ->
   foldM (fun r '(key, value) => assignPax off r key value) (attributes done) records = Ok (attributes (done ++ records))) /\
  (forall before bad after, values_of (js "size") records = before ++ bad :: after -> Forall size_ok before -> ~ size_ok bad ->
   foldM (fun r '(key, value) => assignPax off r key value) (attributes done) records = Throw (MalformedPaxSize off bad)).
Proof.
  induction records as [|[key value] records IH]; intros done; [split; [by rewrite app_nil_r|by intros [|]]|]. cbn [foldM].
  destruct (IH (done ++ [(key, value)])) as [IHok IHbad]. rewrite <- app_assoc in IHok. cbn [app] in IHok.
  unfold values_of. rewrite filter_cons. cbn [fst]. fold (values_of (js "size")). destruct (decide (key = js "size")) as [->|Hn].
  - cbn [fmap list_fmap snd]. fold (values_of (js "size") records). split.
    + intros [Hv Hr]%Forall_cons. rewrite assignPax_record by done. by apply IHok.
    + intros [|v before] bad after E Hb Hbad.
      * injection E as -> E. by rewrite assignPax_refuses.
      * injection E as <- E. apply Forall_cons in Hb as [Hv Hb]. rewrite assignPax_record by done. by apply (IHbad before bad after).
  - fold (values_of (js "size") records). rewrite assignPax_record by done. by split.
Qed.

(** ** What the codec promises *)





(** C27. The loops of the reader end on every byte sequence, and an archive, whoever wrote it and with whatever extended
    headers, is read whole or refused: where it is accepted there is a byte its entries and end records stop at; cut at
    that byte or later it reads the same, and cut anywhere before it it is refused as cut. *)
Theorem tar_whole_or_refused (archive : list Z) :
  match readTar archive with
  | Ok entries => exists stop, (1024 <= stop <= length archive)%nat /\ forall n, (n <= length archive)%nat ->
      if (stop <=? n)%nat then readTar (take n archive) = Ok entries
      else exists e, readTar (take n archive) = Throw e /\ cut e = true
  | Throw e => e <> OutOfFuel
  end.
Proof.
  assert (finishes (readTar archive)) as Hends by (apply readLoop_ends; cbn; lia).
  destruct (readTar archive) as [entries|e] eqn:Hok; [|intros ->; by apply Hends].
  destruct (readLoop_take _ archive [] (mkPending 0 None None) entries ltac:(cbn; lia) Hok) as (stop & Hs & Hcut). cbn [position] in *.
  exists stop. split; [lia|]. intros n Hn. apply (Hcut n); [lia|]. rewrite length_take. lia.
Qed.

(** C28. A PAX header gives the last path and the last size of its records, each record in the format of its length,
    key and value. Where every size is a number in decimal up to [Number.MAX_SAFE_INTEGER], the path is the last
    value under [path], if there is one, the size the number the last value under [size] stands for, and the other
    keys are ignored. Otherwise the header is refused for the first size that is not such a number. *)
Theorem pax_records_read (records : list (jsstr * jsstr)) (bytes : list (list Z)) (recordOffset : Z)
  (Hrecords : Forall2 pax_record records bytes) :
  (Forall size_ok (values_of (js "size") records) ->
   readPax (mjoin bytes) recordOffset
   = Ok (mkPax (last (values_of (js "path") records)) (decimal_value <$> last (values_of (js "size") records)))) /\
  (forall before bad after, values_of (js "size") records = before ++ bad :: after -> Forall size_ok before -> ~ size_ok bad ->
   readPax (mjoin bytes) recordOffset = Throw (MalformedPaxSize recordOffset bad)).
Proof.
  unfold readPax. rewrite (readPaxFrom_records _ _ _ records bytes Hrecords) by lia. exact (attributes_taken recordOffset records []).
Qed.

(** A name that is a slash and 99 bytes is split at that slash into an empty prefix and the rest, which reads back
    without the slash. *)
Theorem tar_absolute_name (rest : jsstr) (Hrest : member_text rest) (Hlen : encodedLength rest = 99) :
  exists archive, writeTar [mkEntry (SLASH :: rest) File 0 0 []] = Ok archive
    /\ readTar archive = Ok [mkEntry rest File 0 0 []].
Proof.
  assert (splitName (SLASH :: rest) = Ok ([], rest)) as Es.
  { unfold splitName. assert (encodedLength (SLASH :: rest) = 100) as ->.
    { unfold encodedLength, byteLength in *. rewrite encode_1 by (unfold SLASH; lia). cbn [length]. lia. }
    cbn [splitAtSlash]. rewrite Hlen. done. }
  pose proof Hrest as (Hs & Hw & Hz & Hb).
  assert (Forall (fun e => member_text (name e) /\ refused e = None) [mkEntry (SLASH :: rest) File 0 0 []]) as Hall.
  { constructor; [|constructor]. unfold refused. cbn [name]. rewrite Es. split; [|done]. split_and!.
    - constructor; [unfold code_unit, SLASH; lia|done].
    - destruct (well_formed_step rest 1 Hw) as [n Hn]. by exists n.
    - by rewrite not_elem_of_cons.
    - by rewrite not_elem_of_cons. }
  exists (archiveOf [mkEntry (SLASH :: rest) File 0 0 []]). split.
  - rewrite writeTar_archive by (eapply Forall_impl; [exact Hall|]; by intros e [[He _] _]).
    cbn [omap list_omap head]. unfold refused. cbn [name]. by rewrite Es.
  - rewrite readTar_archive by done. unfold stored, storedName. cbn [fmap list_fmap name]. by rewrite Es.
Qed.

(** ** Examples *)


Lemma member_text_example s : forallb (fun c => (0 <? c) && (c <=? 127)) s = true -> member_text s.
Proof.
  intros H. destruct (ascii_c_text s) as [[[[Hs _] Hw] Hz] _].
  - apply List.Forall_forall. intros c Hc. rewrite List.forallb_forall in H. specialize (H c Hc). propify. lia.
  - split; [done|]. split; [done|]. split; [done|]. intros Hb%list_elem_of_In. rewrite List.forallb_forall in H. by specialize (H _ Hb).
Qed.


Definition example_records : list (jsstr * jsstr) := [(js "path", js "a/b"); (js "size", js "12"); (js "mtime", js "7"); (js "path", js "c"); (js "size", js "0")].
Definition example_pax : list (list Z) :=
  [js "12 path=a/b" ++ [10]; js "11 size=12" ++ [10]; js "11 mtime=7" ++ [10]; js "10 path=c" ++ [10]; js "10 size=0" ++ [10]].

Lemma example_pax_records : Forall2 pax_record example_records example_pax.
Proof.
  assert (forall text, forallb (fun c => (0 <? c) && (c <=? 127)) text = true -> wire_text text) as Ht
    by (intros s Hs; by apply member_text_c, member_text_example).
  assert (forall text, allDigits 10 text = true -> decimal text) as Hd by (intros s Hs; by apply decimal_digits).
  constructor; [exists (js "12")|constructor; [exists (js "11")|constructor; [exists (js "11")|constructor; [exists (js "10")|constructor; [exists (js "10")|constructor]]]]];
    (split; [done|split; [by apply Hd|split; [done|split; [by apply Ht|split; [set_solver by lia|done]]]]]).
Qed.

(** The last path and size count; and a size in hexadecimal refuses the header. *)
Lemma pax_records_read_witness : readPax (mjoin example_pax) 512 = Ok (mkPax (Some (js "c")) (Some 0)) /\
  readPax (mjoin (example_pax ++ [js "12 size=0x0" ++ [10]])) 512 = Throw (MalformedPaxSize 512 (js "0x0")).
Proof.
  assert (decimal (js "12") /\ decimal (js "0")) as [H12 H0] by (split; apply decimal_digits; done).
  assert (Forall size_ok [js "12"; js "0"]) as Hok by (repeat constructor; done).
  split.
  - apply (pax_records_read example_records example_pax 512 example_pax_records). exact Hok.
  - apply (pax_records_read (example_records ++ [(js "size", js "0x0")]) (example_pax ++ [js "12 size=0x0" ++ [10]]) 512) with [js "12"; js "0"] [].
    + apply Forall2_app; [exact example_pax_records|]. constructor; [|constructor]. exists (js "12").
      split; [done|split; [by apply decimal_digits|split; [done|split; [by apply member_text_c, member_text_example|split; [set_solver by lia|done]]]]].
    + vm_compute. reflexivity.
    + exact Hok.
    + intros [Hd%decimal_digits _]. vm_compute in Hd. discriminate Hd.
Defined.

Lemma tar_absolute_name_witness : member_text (replicate 99 97) /\ exists archive,
  writeTar [mkEntry (SLASH :: replicate 99 97) File 0 0 []] = Ok archive /\ readTar archive = Ok [mkEntry (replicate 99 97) File 0 0 []].
Proof.
  assert (member_text (replicate 99 97)) as H by (by apply member_text_example).
  split; [done|]. by apply (tar_absolute_name (replicate 99 97)).
Defined.
