(* ===== verification/WireProps.v ===== *)
(** * Wire protocol: the parse buffer as a byte stream

    The merge buffer of [Parser] abstracts to its pending bytes; a parse delivers the frames that the
    pending bytes and the new chunk begin with. *)

From S2P Require Export WireLaws.

Import Parser.

(** ** The merge buffer *)

Record buffer_ok (p : Parser) : Prop := mkBufferOk {
  bo_offset : 0 <= bufferOffset p;
  bo_remaining : 0 <= bufferRemainingLength p;
  bo_fits : bufferOffset p + bufferRemainingLength p <= byteLength (bufferView p) }.

(** The bytes that wait for the rest of their message. *)
Definition pending (p : Parser) : list Z :=
  subarray (bufferView p) (Z.to_nat (bufferOffset p)) (Z.to_nat (bufferOffset p + bufferRemainingLength p)).

(** A buffer, split at what is pending. *)
Definition holds (p : Parser) (bs : list Z) : Prop :=
  exists pre post, bufferView p = pre ++ bs ++ post /\ bufferOffset p = byteLength pre /\
    bufferRemainingLength p = byteLength bs.

Lemma holds_pending p bs : holds p bs -> buffer_ok p /\ pending p = bs.
Proof.
  intros (pre & post & Hv & Ho & Hr). split.
  - constructor; rewrite ?Hv, ?Ho, ?Hr, ?byteLength_app; pose proof (byteLength_nonneg pre); pose proof (byteLength_nonneg bs);
      pose proof (byteLength_nonneg post); lia.
  - unfold pending. rewrite Hv, Ho, Hr. apply subarray_mid; unfold byteLength; lia.
Qed.

Lemma pending_holds p : buffer_ok p -> holds p (pending p).
Proof.
  intros [Ho Hr Hf]. exists (take (Z.to_nat (bufferOffset p)) (bufferView p)),
    (drop (Z.to_nat (bufferOffset p + bufferRemainingLength p)) (bufferView p)).
  unfold pending, subarray. set (a := Z.to_nat (bufferOffset p)). set (b := Z.to_nat (bufferOffset p + bufferRemainingLength p)).
  unfold byteLength in *. rewrite !length_take, length_drop. repeat split; [|lia|lia].
  replace (drop b (bufferView p)) with (drop (b - a) (drop a (bufferView p))) by (rewrite drop_drop; f_equal; lia).
  by rewrite !take_drop.
Qed.

Lemma new_holds : holds newParser [].
Proof. by exists [], []. Qed.

(** The doubling loop ends above the length asked for. *)
Lemma grow_above fuel newLength len : 0 < len -> newLength < len + Z.of_nat fuel -> newLength < grow fuel newLength len.
Proof.
  revert len. induction fuel as [|fuel IH]; intros len Hl Hf; cbn [grow]; [lia|]. case_match; propify; [|done]. apply IH; lia.
Qed.

Lemma grow_fuel fuel fuel' newLength len : 0 < len -> newLength < len + Z.of_nat fuel -> (fuel <= fuel')%nat ->
  grow fuel' newLength len = grow fuel newLength len.
Proof.
  revert fuel' len. induction fuel as [|fuel IH]; intros fuel' len Hl Hf Hle.
  - destruct fuel'; cbn [grow]; [done|]. rewrite (proj2 (Z.leb_gt _ _)) by lia. done.
  - destruct fuel' as [|fuel']; [lia|]. cbn [grow]. case_match; propify; [|done]. apply IH; lia.
Qed.

(** Merging a chunk appends it to what is pending. *)
Lemma mergeBuffer_holds p bs chunk : holds p bs -> holds (mergeBuffer chunk p) (bs ++ chunk).
Proof.
  intros (pre & post & Hv & Ho & Hr). unfold mergeBuffer. rewrite Hv, Ho, Hr. clear Hv Ho Hr.
  destruct (Z.ltb_spec 0 (byteLength bs)) as [Hpos|Hz].
  2:{ destruct bs as [|b bs]; [|unfold byteLength in Hz; cbn in Hz; lia]. exists [], []. by rewrite app_nil_r. }
  rewrite (subarray_mid pre bs post) by (unfold byteLength; lia).
  destruct (Z.ltb_spec (byteLength (pre ++ bs ++ post)) (byteLength bs + byteLength chunk + byteLength pre)) as [Hover|Hfits].
  - set (newBuffer := if (_ <=? _) && (_ <=? _) then (_ : list Z) else _).
    assert (Hroom : byteLength bs + byteLength chunk <= byteLength newBuffer).
    { unfold newBuffer. destruct (_ && _) eqn:E; [propify; lia|]. unfold byteLength at 3. rewrite length_replicate.
      rewrite Z2Nat.id; pose proof (grow_above (Z.to_nat (byteLength bs + byteLength chunk)) (byteLength bs + byteLength chunk)
        (byteLength (pre ++ bs ++ post) * 2)) as G; rewrite !byteLength_app in *;
        pose proof (byteLength_nonneg pre); pose proof (byteLength_nonneg post); pose proof (byteLength_nonneg chunk); lia. }
    change newBuffer with ([] ++ newBuffer). unfold byteLength in *.
    rewrite (set_bytes_room [] bs newBuffer) by (done || lia). cbn [app].
    rewrite set_bytes_room by (rewrite ?length_drop; lia). exists [], (drop (length chunk) (drop (length bs) newBuffer)).
    cbn [bufferView bufferOffset bufferRemainingLength app]. rewrite <- app_assoc. repeat split. by rewrite byteLength_app.
  - rewrite !byteLength_app in Hfits. unfold byteLength in *. rewrite (app_assoc pre bs post).
    rewrite set_bytes_room by (rewrite ?length_app; lia). exists pre, (drop (length chunk) post).
    cbn [bufferView bufferOffset bufferRemainingLength]. rewrite <- !app_assoc. repeat split. by rewrite byteLength_app.
Qed.

(** ** Frames *)

(** The first complete message of a stream, as the loop finds it. *)
Definition firstFrame (bs : list Z) : option (list Z * list Z) :=
  if (length bs <? 5)%nat then None else
    let full := 1 + be_value (subarray bs 1 5) in
    if (full <=? byteLength bs) && (1 <? full) then Some (take (Z.to_nat full) bs, drop (Z.to_nat full) bs) else None.

(** The complete messages and the bytes after them. *)
Fixpoint cut (fuel : nat) (bs : list Z) : list (list Z) * list Z :=
  match fuel with
  | O => ([], bs)
  | S fuel =>
      match firstFrame bs with
      | Some (frame, bs) => let (frames, rest) := cut fuel bs in (frame :: frames, rest)
      | None => ([], bs)
      end
  end.

Definition frames (bs : list Z) : list (list Z) * list Z := cut (length bs) bs.

Lemma firstFrame_Some bs frame rest : firstFrame bs = Some (frame, rest) ->
  bs = frame ++ rest /\ (2 <= length frame)%nat /\ (5 <= length bs)%nat /\ byteLength frame = 1 + be_value (subarray bs 1 5).
Proof.
  unfold firstFrame. destruct (Nat.ltb_spec (length bs) 5) as [|H5]; [done|]. set (full := 1 + _).
  destruct (_ && _) eqn:E; [|done]. intros [= <- <-]. propify. unfold byteLength in *.
  rewrite take_drop, length_take. repeat split; lia.
Qed.

Lemma subarray_app_l (a b : list Z) (start stop : nat) : (stop <= length a)%nat -> subarray (a ++ b) start stop = subarray a start stop.
Proof.
  intros H. unfold subarray. destruct (Nat.le_gt_cases start (length a)).
  - rewrite drop_app_le by done. rewrite take_app_le; [done|]. rewrite length_drop. lia.
  - by replace (stop - start)%nat with O by lia.
Qed.

Lemma firstFrame_app bs frame rest more : firstFrame bs = Some (frame, rest) -> firstFrame (bs ++ more) = Some (frame, rest ++ more).
Proof.
  unfold firstFrame. destruct (Nat.ltb_spec (length bs) 5) as [|H5]; [done|]. set (full := 1 + _).
  destruct (_ && _) eqn:E; [|done]. intros [= <- <-]. propify. unfold byteLength in *.
  rewrite (proj2 (Nat.ltb_ge _ _)) by (rewrite length_app; lia). rewrite subarray_app_l by lia. fold full.
  rewrite length_app, (proj2 (Z.leb_le full _)), (proj2 (Z.ltb_lt 1 full)) by lia. cbn [andb].
  by rewrite take_app_le, drop_app_le by lia.
Qed.

Lemma cut_fuel fuel bs : (length bs <= fuel)%nat -> cut fuel bs = frames bs.
Proof.
  unfold frames. revert bs. induction (lt_wf fuel) as [fuel _ IH]. intros bs Hf.
  destruct fuel as [|fuel]; [destruct bs; [done|cbn in Hf; lia]|]. destruct bs as [|b bs]; [done|].
  set (l := b :: bs) in *. change (length l) with (S (length bs)). cbn [cut].
  destruct (firstFrame l) as [[frame rest]|] eqn:E; [|done]. apply firstFrame_Some in E as (E & H2 & _).
  assert (length rest < length l)%nat by (rewrite E, length_app; lia). change (length l) with (S (length bs)) in *.
  rewrite (IH fuel) by lia. destruct (Nat.eq_dec (length bs) fuel) as [->|]; [by rewrite (IH fuel) by lia|].
  by rewrite (IH (length bs)) by lia.
Qed.

Lemma frames_step bs frame rest : firstFrame bs = Some (frame, rest) ->
  frames bs = (frame :: (frames rest).1, (frames rest).2).
Proof.
  intros E. rewrite <- (cut_fuel (S (length bs)) bs) by lia. cbn [cut]. rewrite E.
  apply firstFrame_Some in E as (E & H2 & _). rewrite cut_fuel by (rewrite E, length_app; lia). by destruct (frames rest).
Qed.

Lemma frames_stop bs : firstFrame bs = None -> frames bs = ([], bs).
Proof. intros E. rewrite <- (cut_fuel (S (length bs)) bs) by lia. cbn [cut]. by rewrite E. Qed.

(** Walk over the frames of a stream. *)
Lemma frames_ind (Q : list Z -> Prop) :
  (forall bs, firstFrame bs = None -> Q bs) ->
  (forall bs frame rest, firstFrame bs = Some (frame, rest) -> Q rest -> Q bs) -> forall bs, Q bs.
Proof.
  intros H0 H1 bs. induction bs as [bs IH] using (induction_ltof1 _ (@length Z)). unfold ltof in IH.
  destruct (firstFrame bs) as [[frame rest]|] eqn:E; [|by apply H0]. eapply H1; [done|]. apply IH.
  apply firstFrame_Some in E as (E & H2 & _). rewrite E, length_app. lia.
Qed.

(** Framing does not depend on how the stream is split. *)
Lemma frames_app a b : frames (a ++ b) = ((frames a).1 ++ (frames ((frames a).2 ++ b)).1, (frames ((frames a).2 ++ b)).2).
Proof.
  induction a as [a E|a frame rest E IH] using frames_ind.
  - rewrite (frames_stop a E). apply surjective_pairing.
  - rewrite (frames_step a _ _ E), (frames_step (a ++ b) frame (rest ++ b)) by by apply firstFrame_app. by rewrite IH.
Qed.

(** ** Wire protocol: the streaming parser delivers what the server sent *)

Import BufferReader Bodies Parser.

(** The bytes of a message. *)
Definition frameBytes (code : Z) (body : list Z) : list Z := code :: be_bytes 4 (byteLength body + 4) ++ body.

(** A frame that decodes to a message from its own bytes. *)
Definition stands_for (frame : list Z) (m : BackendMessage) : Prop :=
  exists code body, frame = frameBytes code body /\ 0 <= code <= 255 /\ byteLength body + 4 < 2 ^ 32 /\ decodes code body m.

Lemma byteLength_frame code body : byteLength (frameBytes code body) = byteLength body + 5.
Proof. unfold frameBytes, byteLength. cbn [length]. rewrite length_app, length_be_bytes. lia. Qed.

Lemma be_byte b : be_value [b] = b.
Proof. unfold be_value. cbn. lia. Qed.

Lemma header_read code body rest : 0 <= code <= 255 -> byteLength body + 4 < 2 ^ 32 ->
  be_value (subarray (frameBytes code body ++ rest) 0 1) = code /\
  be_value (subarray (frameBytes code body ++ rest) 1 5) = byteLength body + 4.
Proof.
  intros Hc Hb. pose proof (byteLength_nonneg body). split.
  - apply be_byte.
  - unfold frameBytes. change ((code :: ?x) ++ rest) with ([code] ++ x ++ rest). rewrite <- app_assoc.
    rewrite (subarray_mid [code] (be_bytes 4 _)) by (rewrite ?length_be_bytes; done). apply be_value_bytes. lia.
Qed.

Lemma firstFrame_frame code body rest : 0 <= code <= 255 -> byteLength body + 4 < 2 ^ 32 ->
  firstFrame (frameBytes code body ++ rest) = Some (frameBytes code body, rest).
Proof.
  intros Hc Hb. unfold firstFrame. pose proof (byteLength_frame code body) as Hl. destruct (header_read code body rest Hc Hb) as [_ ->].
  pose proof (byteLength_nonneg body). unfold byteLength in *. rewrite length_app.
  rewrite (proj2 (Nat.ltb_ge _ _)), (proj2 (Z.leb_le _ _)), (proj2 (Z.ltb_lt _ _)) by lia. cbn [andb].
  replace (Z.to_nat _) with (length (frameBytes code body)) by lia. by rewrite take_app_length, drop_app_length.
Qed.

Lemma frames_of_bytes fs : Forall (fun '(code, body) => 0 <= code <= 255 /\ byteLength body + 4 < 2 ^ 32) fs ->
  frames (concat ((fun '(code, body) => frameBytes code body) <$> fs)) = ((fun '(code, body) => frameBytes code body) <$> fs, []).
Proof.
  induction 1 as [|[code body] fs [Hc Hb] _ IH]; [done|]. rewrite fmap_cons. cbn [concat].
  by rewrite (frames_step _ _ _ (firstFrame_frame code body _ Hc Hb)), IH.
Qed.

Lemma split_header (bs : list Z) : bs = take 1 bs ++ subarray bs 1 5 ++ drop 5 bs.
Proof. by do 5 (destruct bs as [|? bs]; [done|]). Qed.

Section Parse.
Context {World : Type} (callback : BackendMessage -> ST World WireError unit).

(** One round of the loop. *)
Lemma loop_round fuel (p : Parser) (w : World) pre bs post : bufferView p = pre ++ bs ++ post ->
  parseLoop callback (S fuel) (byteLength pre) (byteLength (pre ++ bs)) (p, w) =
    match firstFrame bs with
    | None => ((p, w), Ok (byteLength pre))
    | Some (frame, _) =>
        match handlePacket (byteLength pre + 5) (be_value (subarray bs 0 1)) (be_value (subarray bs 1 5)) (bufferView p) with
        | Throw e => ((newParser, w), Throw e)
        | Ok m => (deliver callback m ≫= fun _ => parseLoop callback fuel (byteLength (pre ++ frame)) (byteLength (pre ++ bs))) (p, w)
        end
    end.
Proof.
  intros Hv. cbn [parseLoop]. unfold firstFrame, HEADER_LENGTH, CODE_LENGTH, LEN_LENGTH. rewrite !byteLength_app.
  destruct (Z.leb_spec (byteLength pre + (1 + 4)) (byteLength pre + byteLength bs)) as [H5|H5]; unfold byteLength in H5.
  2:{ by rewrite (proj2 (Nat.ltb_lt _ _)) by lia. }
  rewrite (proj2 (Nat.ltb_ge _ _)) by lia. rewrite st_bind_get. cbn iota beta.
  assert (E1 : get_be 1 (bufferView p) (byteLength pre) = Ok (be_value (subarray bs 0 1))).
  { rewrite Hv. rewrite <- (take_drop 1 bs) at 1. rewrite <- (app_assoc (take 1 bs)).
    apply (get_be_mid 1); [done|]. unfold subarray. rewrite length_take, length_drop. lia. }
  assert (E4 : get_be 4 (bufferView p) (byteLength pre + 1) = Ok (be_value (subarray bs 1 5))).
  { rewrite Hv. replace (pre ++ bs ++ post) with ((pre ++ take 1 bs) ++ subarray bs 1 5 ++ drop 5 bs ++ post).
    - apply get_be_mid; [rewrite byteLength_app; unfold byteLength; rewrite length_take; lia|].
      unfold subarray. rewrite length_take, length_drop. lia.
    - rewrite <- app_assoc, (app_assoc (subarray bs 1 5)), (app_assoc (take 1 bs)), <- split_header. done. }
  rewrite st_bind_lift, E1, st_bind_lift, E4. set (full := 1 + be_value (subarray bs 1 5)).
  replace (full + byteLength pre <=? byteLength pre + byteLength bs) with (full <=? byteLength bs)
    by (apply eq_true_iff_eq; rewrite !Z.leb_le; lia).
  replace (0 <? be_value (subarray bs 1 5)) with (1 <? full) by (apply eq_true_iff_eq; rewrite !Z.ltb_lt; lia).
  destruct ((full <=? byteLength bs) && (1 <? full)) eqn:E; [|done]. propify.
  replace (byteLength pre + (1 + 4)) with (byteLength pre + 5) by lia. destruct (handlePacket _ _ _ _); [|done].
  rewrite byteLength_app. replace (byteLength (take (Z.to_nat full) bs)) with full; [done|].
  unfold byteLength in *. rewrite length_take. lia.
Qed.

Lemma handle_frame frame m pre rest post : stands_for frame m ->
  handlePacket (byteLength pre + 5) (be_value (subarray (frame ++ rest) 0 1)) (be_value (subarray (frame ++ rest) 1 5))
    (pre ++ (frame ++ rest) ++ post) = Ok m.
Proof.
  intros (code & body & -> & Hc & Hb & Hd). destruct (header_read code body rest Hc Hb) as [-> ->].
  specialize (Hd (pre ++ code :: be_bytes 4 (byteLength body + 4)) (rest ++ post)).
  replace (byteLength (pre ++ _)) with (byteLength pre + 5) in Hd.
  2:{ by rewrite byteLength_app. }
  replace (pre ++ (frameBytes code body ++ rest) ++ post) with
    ((pre ++ code :: be_bytes 4 (byteLength body + 4)) ++ body ++ rest ++ post); [exact Hd|].
  unfold frameBytes. by rewrite <- !app_assoc, <- !app_comm_cons, <- !app_assoc.
Qed.

Lemma frames_split bs fs rest : frames bs = (fs, rest) -> bs = concat fs ++ rest.
Proof.
  revert fs rest. induction bs as [bs E|bs frame more E IH] using frames_ind; intros fs rest.
  - rewrite frames_stop by done. by intros [= <- <-].
  - rewrite (frames_step _ _ _ E). destruct (frames more) as [fs' rest']. intros [= <- <-].
    apply firstFrame_Some in E as [-> _]. rewrite (IH fs' rest' eq_refl). cbn. by rewrite <- app_assoc.
Qed.

(** The loop hands the messages to the callback in order, until one throws. *)
Lemma loop_frames fs ms : Forall2 stands_for fs ms -> forall fuel p w w' r pre bs rest post,
  (length bs <= fuel)%nat -> bufferView p = pre ++ bs ++ post -> frames bs = (fs, rest) -> forM callback ms w = (w', r) ->
  parseLoop callback fuel (byteLength pre) (byteLength (pre ++ bs)) (p, w) =
    ((p, w'), match r with Ok _ => Ok (byteLength (pre ++ concat fs)) | Throw e => Throw e end).
Proof.
  induction 1 as [|f m fs ms Hf Hfs IH]; intros fuel p w w' r pre bs rest post Hfuel Hv Hcut Hm.
  - injection Hm as <- <-. rewrite app_nil_r.
    assert (E : firstFrame bs = None).
    { destruct (firstFrame bs) as [[fr more]|] eqn:E; [|done]. by rewrite (frames_step _ _ _ E) in Hcut. }
    destruct fuel as [|fuel]; [|by rewrite (loop_round _ _ _ pre bs post Hv), E]. done.
  - destruct (firstFrame bs) as [[fr more]|] eqn:E; [|by rewrite (frames_stop _ E) in Hcut].
    rewrite (frames_step _ _ _ E) in Hcut. destruct (frames more) as [fs' rest'] eqn:Ef. injection Hcut as -> -> ->.
    pose proof (firstFrame_Some _ _ _ E) as (-> & H2 & _ & _). rewrite length_app in Hfuel.
    destruct fuel as [|fuel]; [lia|]. rewrite (loop_round _ _ _ pre _ post Hv), E, Hv, (handle_frame f m) by done.
    cbn [forM] in Hm. unfold mbind, ST_bind in Hm |- *. unfold deliver. destruct (callback m w) as [w1 [[]|e]]; [|by injection Hm as <- <-].
    rewrite (app_assoc pre f more). rewrite (IH fuel p w1 w' r (pre ++ f) more rest post); [|lia| |done|done].
    + cbn [concat]. by rewrite <- app_assoc.
    + by rewrite Hv, <- !app_assoc.
Qed.

Lemma parse_holds p bs chunk fs ms rest w w' : holds p bs -> frames (bs ++ chunk) = (fs, rest) -> Forall2 stands_for fs ms ->
  forM callback ms w = (w', Ok tt) -> exists p', parse callback chunk (p, w) = ((p', w'), Ok tt) /\ holds p' rest.
Proof.
  intros Hp Hcut Hfs Hm. apply (mergeBuffer_holds p bs chunk) in Hp as (pre & post & Hv & Ho & Hr).
  pose proof (frames_split _ _ _ Hcut) as Hsplit. set (p1 := mergeBuffer chunk p) in *.
  assert (Hrun : forall fuel, (length (bs ++ chunk) <= fuel)%nat ->
    parseLoop callback fuel (byteLength pre) (byteLength (pre ++ bs ++ chunk)) (p1, w) = ((p1, w'), Ok (byteLength (pre ++ concat fs)))).
  { intros fuel Hf. by rewrite (loop_frames fs ms Hfs fuel p1 w w' (Ok tt) pre (bs ++ chunk) rest post). }
  unfold parse, on_parser. rewrite st_bind_modify. fold p1. rewrite st_bind_get. cbn iota beta. fold p1. rewrite Ho, Hr, <- byteLength_app.
  rewrite (st_bind_run _ _ _ _ _ (Hrun (Z.to_nat (byteLength (pre ++ bs ++ chunk))) ltac:(unfold byteLength; rewrite !length_app; lia))). unfold st_modify.
  eexists. split; [reflexivity|]. rewrite Hsplit, (app_assoc pre), (byteLength_app _ rest).
  destruct (Z.eqb_spec (byteLength (pre ++ concat fs)) (byteLength (pre ++ concat fs) + byteLength rest)) as [E|E].
  - destruct rest; [apply new_holds|unfold byteLength in E; cbn in E; lia].
  - exists (pre ++ concat fs), post. cbn. rewrite Hv, Hsplit, <- !app_assoc. repeat split. lia.
Qed.

(** C36. The chunks do not matter. However a byte stream is split into chunks, parsing them one after the other delivers
    the messages of the complete frames of the pending bytes and the whole stream, in order, and keeps the bytes
    after the last complete frame. *)
Theorem parse_any_chunking (p : Parser) (chunks : list (list Z)) (fs : list (list Z)) (rest : list Z) (ms : list BackendMessage)
  (w w' : World) (Hp : buffer_ok p) (Hcut : frames (pending p ++ concat chunks) = (fs, rest))
  (Hfs : Forall2 stands_for fs ms) (Hstart : firstFrame (pending p) = None) (Hm : forM callback ms w = (w', Ok tt)) :
  exists p', forM (parse callback) chunks (p, w) = ((p', w'), Ok tt) /\ buffer_ok p' /\ pending p' = rest.
Proof.
  apply pending_holds in Hp. set (bs := pending p) in *. clearbody bs.
  enough (exists p', forM (parse callback) chunks (p, w) = ((p', w'), Ok tt) /\ holds p' rest) as (p' & Hr & Hh)
    by (exists p'; split; [done|by apply holds_pending]).
  revert p bs fs ms w Hp Hcut Hfs Hstart Hm. induction chunks as [|chunk chunks IH]; intros p bs fs ms w Hp Hcut Hfs Hstart Hm.
  - rewrite app_nil_r, (frames_stop _ Hstart) in Hcut. injection Hcut as <- <-. inversion Hfs; subst. injection Hm as <-. by exists p.
  - cbn [concat forM] in *. rewrite app_assoc, frames_app in Hcut. destruct (frames (bs ++ chunk)) as [fs1 rest1] eqn:E1. cbn [fst snd] in Hcut.
    destruct (frames (rest1 ++ concat chunks)) as [fs2 rest2] eqn:E2. injection Hcut as <- <-.
    apply Forall2_app_inv_l in Hfs as (ms1 & ms2 & H1 & H2 & ->).
    assert (Hsplit : exists w1, forM callback ms1 w = (w1, Ok tt) /\ forM callback ms2 w1 = (w', Ok tt)).
    { clear -Hm. revert w Hm. induction ms1 as [|m ms1 IH]; intros w Hm; [by exists w|]. cbn [app forM] in *.
      unfold mbind, ST_bind in *. destruct (callback m w) as [w1 [[]|e]]; [by apply IH|done]. }
    destruct Hsplit as (w1 & Hw1 & Hw2).
    destruct (parse_holds p bs chunk fs1 ms1 rest1 w w1 Hp E1 H1 Hw1) as (p1 & Hr1 & Hp1).
    rewrite (st_bind_run _ _ _ _ _ Hr1). apply (IH p1 rest1 fs2 ms2 w1 Hp1 E2 H2); [|done].
    clear -E1. revert fs1 rest1 E1. generalize (bs ++ chunk) as l. induction l as [l E|l f more E IH] using frames_ind; intros fs1 rest1 E1.
    + rewrite frames_stop in E1 by done. by injection E1 as <- <-.
    + rewrite (frames_step _ _ _ E) in E1. destruct (frames more) as [fs' r'] eqn:Ef. injection E1 as <- <-. by eapply IH.
Qed.
End Parse.

(** A message the server can send, as its type byte, its body and what it stands for. *)
Record Sent : Type := mkSent { s_code : Z; s_body : list Z; s_message : Z -> BackendMessage }.
Definition sent_ok (s : Sent) : Prop :=
  Format (s_code s) (s_body s) (s_message s) /\ byteLength (s_body s) + 4 < 2 ^ 32.
Definition sentBytes (s : Sent) : list Z := frameBytes (s_code s) (s_body s).
Definition received (s : Sent) : BackendMessage := s_message s (byteLength (s_body s) + 4).

Lemma format_code code body m : Format code body m -> 0 <= code <= 255.
Proof.
  destruct 1 as [code m Hm| | | |code name ? ? Hm| | | | | | | | | | | | | | ]; try lia.
  - unfold empty_bodies in Hm. repeat (apply elem_of_cons in Hm as [[= -> _]|Hm]; [lia|]). by apply elem_of_nil in Hm.
  - repeat (apply elem_of_cons in Hm as [[= -> _]|Hm]; [lia|]). by apply elem_of_nil in Hm.
Qed.

(** C35. What the server sends is what the client receives. Any sequence of messages in the formats of the protocol, however
    the connection splits their bytes, is delivered message by message, in order, with the values that were
    sent, and the parser ends with nothing pending. *)
Theorem server_stream_received (World : Type) (callback : BackendMessage -> ST World WireError unit) (sent : list Sent)
  (chunks : list (list Z)) (w w' : World) (Hsent : Forall sent_ok sent) (Hchunks : concat chunks = concat (sentBytes <$> sent))
  (Hm : forM callback (received <$> sent) w = (w', Ok tt)) :
  exists p, forM (parse callback) chunks (newParser, w) = ((p, w'), Ok tt) /\ pending p = [].
Proof.
  assert (Hf : frames (concat (sentBytes <$> sent)) = (sentBytes <$> sent, [])).
  { pose proof (frames_of_bytes ((fun s => (s_code s, s_body s)) <$> sent)) as H. rewrite <- list_fmap_compose in H. apply H.
    apply Forall_fmap. eapply Forall_impl; [done|]. intros s [Hs Hn]. split; [by eapply format_code|done]. }
  destruct (parse_any_chunking callback newParser chunks (sentBytes <$> sent) [] (received <$> sent) w w') as (p & Hr & _ & Hp);
    [by apply (holds_pending _ [] new_holds)| | |done|done|by exists p].
  - change (pending newParser) with (@nil Z). cbn [app]. by rewrite Hchunks.
  - apply Forall2_fmap, Forall_Forall2_diag. eapply Forall_impl; [done|]. intros s [Hs Hn].
    exists (s_code s), (s_body s). split; [done|]. split; [by eapply format_code|]. split; [done|]. by apply format_decodes.
Qed.

(** A message that cannot be parsed costs the connection its place. When a frame of the stream does not parse, the
    messages before it have been delivered, the error is thrown, and everything still in the buffer is dropped: the
    parser is as new. *)
Theorem bad_message_resets (World : Type) (callback : BackendMessage -> ST World WireError unit) (p : Parser) (chunk : list Z)
  (fs : list (list Z)) (ms : list BackendMessage) (code : Z) (body more : list Z) (e : WireError) (w w' : World)
  (Hp : buffer_ok p) (Hbytes : pending p ++ chunk = concat fs ++ frameBytes code body ++ more) (Hfs : Forall2 stands_for fs ms)
  (Hcode : 0 <= code <= 255) (Hlen : byteLength body + 4 < 2 ^ 32)
  (Hbad : forall pre post, handlePacket (byteLength pre) code (byteLength body + 4) (pre ++ body ++ post) = Throw e)
  (Hm : forM callback ms w = (w', Ok tt)) :
  parse callback chunk (p, w) = ((newParser, w'), Throw e).
Proof.
  apply pending_holds, (mergeBuffer_holds p _ chunk) in Hp as (pre & post & Hv & Ho & Hr). rewrite Hbytes in *. clear Hbytes.
  unfold parse, on_parser. rewrite st_bind_modify, st_bind_get. cbn iota beta. set (p1 := mergeBuffer chunk p) in *.
  rewrite Ho, Hr, <- byteLength_app. unfold mbind, ST_bind.
  enough (parseLoop callback (Z.to_nat (byteLength (pre ++ concat fs ++ frameBytes code body ++ more))) (byteLength pre)
    (byteLength (pre ++ concat fs ++ frameBytes code body ++ more)) (p1, w) = ((newParser, w'), Throw e)) as -> by done.
  assert (Hfuel : (length (concat fs) < Z.to_nat (byteLength (pre ++ concat fs ++ frameBytes code body ++ more)))%nat).
  { unfold byteLength. rewrite !length_app. unfold frameBytes. cbn [length]. lia. }
  revert Hfuel. generalize (Z.to_nat (byteLength (pre ++ concat fs ++ frameBytes code body ++ more))) as fuel. intros fuel Hfuel.
  clear Ho Hr. clearbody p1. revert fuel pre w Hv Hm Hfuel. induction Hfs as [|f m fs ms Hf _ IH]; intros fuel pre w Hv Hm Hfuel;
    (destruct fuel as [|fuel]; [lia|]); cbn [concat app] in *.
  - injection Hm as <-. rewrite (loop_round callback _ _ _ _ _ post Hv), firstFrame_frame by done.
    destruct (header_read code body more Hcode Hlen) as [-> ->]. rewrite Hv.
    specialize (Hbad (pre ++ code :: be_bytes 4 (byteLength body + 4)) (more ++ post)).
    replace (byteLength (pre ++ _)) with (byteLength pre + 5) in Hbad by by rewrite byteLength_app.
    replace (pre ++ (frameBytes code body ++ more) ++ post) with
      ((pre ++ code :: be_bytes 4 (byteLength body + 4)) ++ body ++ more ++ post); [by rewrite Hbad|].
    unfold frameBytes. by rewrite <- !app_assoc, <- !app_comm_cons, <- !app_assoc.
  - rewrite <- (app_assoc f (concat fs)) in Hv |- *. pose proof Hf as (code' & body' & Ef & Hc' & Hb' & _).
    rewrite (loop_round callback _ _ _ _ _ post Hv). rewrite Ef, firstFrame_frame, <- Ef, Hv, (handle_frame f m) by done.
    cbn [forM] in Hm. unfold mbind, ST_bind in Hm |- *. unfold deliver. destruct (callback m w) as [w1 [[]|]]; [|done].
    rewrite (app_assoc pre f). apply IH; [by rewrite Hv, <- !app_assoc|done|]. rewrite length_app in Hfuel.
    rewrite Ef in Hfuel. unfold frameBytes in Hfuel. cbn [length] in Hfuel. lia.
Qed.

(** A callback that throws sees its messages again. The messages before it have been delivered, the error is
    thrown, and the buffer still holds all pending bytes and the whole chunk, the delivered messages included. *)
Theorem thrown_callback_keeps_bytes (World : Type) (callback : BackendMessage -> ST World WireError unit) (p : Parser)
  (chunk : list Z) (fs : list (list Z)) (rest : list Z) (ms : list BackendMessage) (e : WireError) (w w' : World)
  (Hp : buffer_ok p) (Hcut : frames (pending p ++ chunk) = (fs, rest)) (Hfs : Forall2 stands_for fs ms)
  (Hm : forM callback ms w = (w', Throw e)) :
  exists p', parse callback chunk (p, w) = ((p', w'), Throw e) /\ buffer_ok p' /\ pending p' = pending p ++ chunk.
Proof.
  apply pending_holds, (mergeBuffer_holds p _ chunk) in Hp. exists (mergeBuffer chunk p). split; [|by apply holds_pending].
  destruct Hp as (pre & post & Hv & Ho & Hr). unfold parse, on_parser. rewrite st_bind_modify, st_bind_get. cbn iota beta.
  set (p1 := mergeBuffer chunk p) in *. rewrite Ho, Hr, <- byteLength_app. unfold mbind, ST_bind.
  rewrite (loop_frames callback fs ms Hfs _ p1 w w' (Throw e) pre (pending p ++ chunk) rest post); [done| |done|done|done].
  unfold byteLength. rewrite !length_app. lia.
Qed.

(** ** Witnesses: a parameter, a row and the end of a query, in three chunks *)

Lemma ascii_text s : forallb (fun c => (1 <=? c) && (c <=? 0x7f)) s = true -> c_text s.
Proof.
  intros H. apply ascii_c_text, Forall_forall. intros c Hc. rewrite forallb_forall in H. apply list_elem_of_In in Hc.
  specialize (H c Hc). propify. lia.
Qed.

Definition log_message (m : BackendMessage) : ST (list BackendMessage) WireError unit := st_modify (fun l => l ++ [m]).

Definition example_sent : list Sent :=
  [mkSent 0x53 (c_bytes (js "TimeZone") ++ c_bytes (js "UTC")) (fun n => ParameterStatusMessage n (js "TimeZone") (js "UTC"));
   mkSent 0x44 (counted_bytes value_bytes [Some (js "x"); None]) (fun n => DataRowMessage n [Some (js "x"); None]);
   mkSent 0x5a [73] (fun n => ReadyForQueryMessage n [73])].
Definition example_stream : list Z := concat (sentBytes <$> example_sent).
Definition example_chunks : list (list Z) := [take 3 example_stream; subarray example_stream 3 20; drop 20 example_stream].

Lemma example_sent_ok : Forall sent_ok example_sent.
Proof.
  repeat constructor; cbn; try (by apply ascii_text); try done.
Qed.

Lemma example_stands_for : Forall2 stands_for (sentBytes <$> example_sent) (received <$> example_sent).
Proof.
  apply Forall2_fmap, Forall_Forall2_diag. eapply Forall_impl; [apply example_sent_ok|]. intros s [Hs Hn].
  exists (s_code s), (s_body s). split; [done|]. split; [by eapply format_code|]. split; [done|]. by apply format_decodes.
Qed.

Lemma server_stream_received_witness :
  exists p, forM (parse log_message) example_chunks (newParser, []) = ((p, received <$> example_sent), Ok tt) /\ pending p = [].
Proof.
  apply (server_stream_received (list BackendMessage) log_message example_sent example_chunks [] (received <$> example_sent)
    example_sent_ok); vm_compute; reflexivity.
Defined.

(** The parser after the first chunk. *)
Definition waiting : Parser := (parse log_message (take 3 example_stream) (newParser, @nil BackendMessage)).1.1.

Lemma waiting_ok : buffer_ok waiting.
Proof. constructor; vm_compute; discriminate. Qed.

Lemma parse_any_chunking_witness : exists p,
  forM (parse log_message) [subarray example_stream 3 20; drop 20 example_stream ++ [0x5a; 0]] (waiting, []) =
    ((p, received <$> example_sent), Ok tt) /\ buffer_ok p /\ pending p = [0x5a; 0].
Proof.
  apply (parse_any_chunking log_message waiting [subarray example_stream 3 20; drop 20 example_stream ++ [0x5a; 0]]
    (sentBytes <$> example_sent) [0x5a; 0] (received <$> example_sent) [] (received <$> example_sent) waiting_ok);
    [vm_compute; reflexivity|apply example_stands_for|vm_compute; reflexivity|vm_compute; reflexivity].
Defined.

(** An authentication request of a kind the parser does not know, after the messages. *)
Lemma bad_message_resets_witness :
  parse log_message (drop 3 example_stream ++ frameBytes 0x52 [0; 0; 0; 7] ++ [0x5a; 0]) (waiting, []) =
    ((newParser, received <$> example_sent), Throw (UnknownAuthentication 7)).
Proof.
  apply (bad_message_resets (list BackendMessage) log_message waiting (drop 3 example_stream ++ frameBytes 0x52 [0; 0; 0; 7] ++ [0x5a; 0])
    (sentBytes <$> example_sent) (received <$> example_sent) 0x52 [0; 0; 0; 7] [0x5a; 0] (UnknownAuthentication 7) [] (received <$> example_sent)
    waiting_ok); [vm_compute; reflexivity|apply example_stands_for|lia|vm_compute; reflexivity| |vm_compute; reflexivity].
  intros pre post. unfold handlePacket, run, parseAuthenticationResponse. cbn [Z.eqb Pos.eqb].
  rewrite (st_bind_run _ _ _ _ _ (consumes_int32 7 ltac:(done) pre post)). reflexivity.
Defined.

(** A callback that refuses a row. *)
Definition refuse_rows (m : BackendMessage) : ST (list BackendMessage) WireError unit :=
  match m with DataRowMessage _ _ => st_lift (Throw (Thrown 1)) | _ => log_message m end.

Lemma thrown_callback_keeps_bytes_witness : exists p,
  parse refuse_rows (drop 3 example_stream) (waiting, []) =
    ((p, [ParameterStatusMessage 17 (js "TimeZone") (js "UTC")]), Throw (Thrown 1)) /\
  buffer_ok p /\ pending p = pending waiting ++ drop 3 example_stream.
Proof.
  apply (thrown_callback_keeps_bytes (list BackendMessage) refuse_rows waiting (drop 3 example_stream) (sentBytes <$> example_sent) []
    (received <$> example_sent) (Thrown 1) [] [ParameterStatusMessage 17 (js "TimeZone") (js "UTC")] waiting_ok);
    [vm_compute; reflexivity|apply example_stands_for|vm_compute; reflexivity].
Defined.

(** ** Wire protocol: parsing ends on any bytes

    No body keeps a read going: the loops of the parser end whatever the server sends. *)

Import Parser BufferReader Bodies.

(** A read that does not run out of fuel and leaves the buffer alone. *)
Definition ends {A} (m : Rd A) : Prop := forall r, bufferView (m r).1 = bufferView r /\ (m r).2 <> Throw OutOfFuel.

Create HintDb ends.

Lemma ends_ret {A} (v : A) : ends (mret v).
Proof. by intros r. Qed.
Lemma ends_lift {A} (m : result WireError A) : m <> Throw OutOfFuel -> ends (st_lift m).
Proof. by intros H r. Qed.
Lemma ends_bind {A B} (m : Rd A) (k : A -> Rd B) : ends m -> (forall x, ends (k x)) -> ends (m ≫= k).
Proof.
  intros Hm Hk r. unfold mbind, ST_bind. destruct (Hm r) as [Hv Ho]. destruct (m r) as [r1 [x|e]]; [|split; [done|by injection 1 as ->]].
  destruct (Hk x r1) as [Hv1 Ho1]. split; [by rewrite Hv1|done].
Qed.
Lemma ends_view width get : (forall view off, get view off <> Throw OutOfFuel) -> ends (read_view width get).
Proof. intros H r. unfold read_view, mbind, ST_bind. cbn. destruct (get _ _) eqn:E; cbn; [done|]. split; [done|]. intros [= ->]. by apply H in E. Qed.

Lemma get_be_ends width view off : get_be width view off <> Throw OutOfFuel.
Proof. unfold get_be. by destruct (_ || _). Qed.
Lemma get_int_ends width view off : get_int width view off <> Throw OutOfFuel.
Proof. unfold get_int, get_be. by destruct (_ || _). Qed.

Lemma ends_int16 : ends int16.
Proof. apply ends_view, get_int_ends. Qed.
Lemma ends_int32 : ends int32.
Proof. apply ends_view, get_int_ends. Qed.
Lemma ends_uint8 : ends uint8.
Proof. apply ends_view, get_be_ends. Qed.
Lemma ends_bytes len : ends (bytes len).
Proof. by intros r. Qed.
Lemma ends_string len : ends (string len).
Proof. by intros r. Qed.

(** A terminated text lies inside the buffer, so reading it moves the offset forward and not past the end. *)
Lemma terminator_bound rest n : terminator rest = Some n -> 0 <= n < byteLength rest.
Proof.
  revert n. induction rest as [|b rest IH]; intros n; cbn [terminator]; [done|]. unfold byteLength in *. cbn [length].
  case_match; [intros [= <-]; lia|]. destruct (terminator rest) as [k|]; [|done]. cbn. intros [= <-]. specialize (IH k eq_refl). lia.
Qed.

Lemma cstring_run r : let (r', v) := cstring r in bufferView r' = bufferView r /\
  match v with Ok _ => offset r < offset r' <= byteLength (bufferView r) | Throw e => e <> OutOfFuel end.
Proof.
  unfold cstring. rewrite st_bind_get, st_bind_lift. destruct (throw_if _ _) eqn:E1.
  2:{ apply throw_if_Throw in E1 as [_ <-]. done. }
  apply throw_if_Ok in E1. propify. rewrite st_bind_lift. destruct (terminator _) as [n|] eqn:E2; cbn; [|done].
  apply terminator_bound in E2. split; [done|]. unfold byteLength in *. rewrite length_drop in E2. cbn [offset]. lia.
Qed.

Lemma ends_cstring : ends cstring.
Proof. intros r. pose proof (cstring_run r) as H. destruct (cstring r) as [r' [v|e]]; cbn; [by destruct H|]. destruct H. by split; [|intros [= ->]]. Qed.

#[local] Hint Resolve ends_ret ends_int16 ends_int32 ends_uint8 ends_bytes ends_string ends_cstring : ends.

Lemma ends_repeat {A} count (read : Rd A) : ends read -> ends (Bodies.repeat count read).
Proof. intros H. induction count; cbn; eauto using ends_bind with ends. Qed.
Lemma ends_counted {A} (read : Rd A) : ends read -> ends (counted read).
Proof. intros H. apply ends_bind; [auto with ends|]. intros. by apply ends_repeat. Qed.

(** The two loops: each round of either moves past a terminator. *)
Definition room (r : Reader) : Z := byteLength (bufferView r) - offset r.

Lemma mechanisms_end fuel n acc r : room r < Z.of_nat fuel -> (0 < fuel)%nat ->
  bufferView (parseMechanisms fuel n acc r).1 = bufferView r /\ (parseMechanisms fuel n acc r).2 <> Throw OutOfFuel.
Proof.
  revert acc r. induction fuel as [|fuel IH]; intros acc r Hr H0; [lia|]. cbn [parseMechanisms]. unfold mbind, ST_bind.
  pose proof (cstring_run r) as H. destruct (cstring r) as [r' [v|e]]; [|destruct H; split; [done|by intros [= ->]]].
  destruct H as [Hv Ho]. destruct v; [by split|]. rewrite <- Hv. unfold room in *. rewrite <- Hv in *. apply IH; lia.
Qed.

Lemma errorFields_end fuel acc r : room r < Z.of_nat fuel -> (0 < fuel)%nat ->
  bufferView (parseErrorFields fuel acc r).1 = bufferView r /\ (parseErrorFields fuel acc r).2 <> Throw OutOfFuel.
Proof.
  revert acc r. induction fuel as [|fuel IH]; intros acc r Hr H0; [lia|]. cbn [parseErrorFields].
  set (r1 := mkReader (bufferView r) (offset r + 1)).
  rewrite (st_bind_run (string 1) _ r r1 (textDecode (slice (bufferView r) (offset r) (offset r + 1))) eq_refl).
  destruct (bool_decide _); [by split|]. unfold mbind, ST_bind. pose proof (cstring_run r1) as H1. destruct (cstring r1) as [r2 [v|e]];
    [|destruct H1; split; [done|by intros [= ->]]].
  destruct H1 as [Hv Ho]. cbn [bufferView offset r1] in Hv, Ho. rewrite <- Hv. unfold room in *. rewrite <- Hv in *. apply IH; lia.
Qed.

Lemma parseErrorMessage_end n name r : 0 <= offset r -> (parseErrorMessage n name r).2 <> Throw OutOfFuel.
Proof.
  intros Hr. unfold parseErrorMessage. rewrite (st_bind_run fuel_of _ r r (S (length (bufferView r))) eq_refl).
  destruct (errorFields_end (S (length (bufferView r))) ∅ r) as [_ H]; [unfold room, byteLength; lia|lia|].
  unfold mbind, ST_bind. destruct (parseErrorFields _ _ r) as [r' [m|e]]; [done|]. intros [= ->]. by apply H.
Qed.

Lemma parseAuthenticationResponse_end n r : 0 <= offset r -> (parseAuthenticationResponse n r).2 <> Throw OutOfFuel.
Proof.
  intros Hr. unfold parseAuthenticationResponse. unfold int32, read_view. unfold mbind at 1, ST_bind at 1.
  rewrite st_bind_get, st_bind_lift. destruct (get_int 4 _ _) as [code|e] eqn:E; [|intros [= ->]; by apply get_int_ends in E].
  change ((set_offset ?p ≫= ?k) r) with (k tt (mkReader (bufferView r) p)). cbn iota beta.
  set (r1 := mkReader _ _). cbn [mret ST_ret]. assert (H1 : 0 <= offset r1) by (cbn; lia). clearbody r1.
  repeat case_match; try done; subst.
  - rewrite (st_bind_run fuel_of _ r1 r1 (S (length (bufferView r1))) eq_refl). apply mechanisms_end; [unfold room, byteLength; lia|lia].
Qed.

Lemma ends_value : ends parseValue.
Proof. apply ends_bind; [auto with ends|]. intros len. case_match; [auto with ends|]. apply ends_bind; auto with ends. Qed.
Lemma ends_field : ends parseField.
Proof. unfold parseField. repeat (apply ends_bind; [auto with ends|intros]); auto with ends. Qed.

Lemma ends_run {A} (m : Rd A) off view : ends m -> run m off view <> Throw OutOfFuel.
Proof. intros H. apply (H (mkReader view off)). Qed.

Lemma handlePacket_ends off code n view : 0 <= off -> handlePacket off code n view <> Throw OutOfFuel.
Proof.
  intros Ho. unfold handlePacket. repeat (case_match; [try done|]); try done;
    try (by apply parseErrorMessage_end); try (by apply parseAuthenticationResponse_end);
    apply ends_run; unfold parseDataRowMessage, parseCommandCompleteMessage, parseReadyForQueryMessage, parseNotificationMessage,
      parseParameterStatusMessage, parseBackendKeyData, parseRowDescriptionMessage, parseParameterDescriptionMessage, parseCopyMessage;
    repeat (apply ends_bind; [auto with ends|intros]); auto using ends_repeat, ends_value, ends_field with ends.
Qed.

(** ** The loop over the messages *)

Section Loop.
Context {World : Type} (callback : BackendMessage -> ST World WireError unit).

(** A callback that does not run out of fuel itself. *)
Context (callback_ends : forall m w, (callback m w).2 <> Throw OutOfFuel).

Lemma parseLoop_ends fuel p w pre bs post : Parser.bufferView p = pre ++ bs ++ post ->
  (parseLoop callback fuel (byteLength pre) (byteLength (pre ++ bs)) (p, w)).2 <> Throw OutOfFuel.
Proof.
  revert w pre bs. induction fuel as [|fuel IH]; intros w pre bs Hv; [done|]. rewrite (loop_round callback _ _ _ _ _ post Hv).
  destruct (firstFrame bs) as [[frame more]|] eqn:E; [|done]. pose proof (firstFrame_Some _ _ _ E) as (-> & _).
  destruct (handlePacket _ _ _ _) as [m|e] eqn:Ep.
  2:{ intros [= ->]. revert Ep. apply handlePacket_ends. pose proof (byteLength_nonneg pre). lia. }
  unfold mbind, ST_bind, deliver. pose proof (callback_ends m w) as Hc. destruct (callback m w) as [w1 [[]|e]]; [|by intros [= ->]].
  rewrite (app_assoc pre). apply IH. by rewrite Hv, <- !app_assoc.
Qed.

Lemma parseLoop_fuel fuel fuel' p w pre bs post : Parser.bufferView p = pre ++ bs ++ post ->
  (length bs <= fuel)%nat -> (fuel <= fuel')%nat ->
  parseLoop callback fuel' (byteLength pre) (byteLength (pre ++ bs)) (p, w) =
  parseLoop callback fuel (byteLength pre) (byteLength (pre ++ bs)) (p, w).
Proof.
  revert fuel' w pre bs. induction fuel as [|fuel IH]; intros fuel' w pre bs Hv Hf Hle.
  - destruct bs; [|cbn in Hf; lia]. destruct fuel' as [|fuel']; [done|]. by rewrite (loop_round callback _ _ _ _ _ post Hv).
  - destruct fuel' as [|fuel']; [lia|]. rewrite !(loop_round callback _ _ _ _ _ post Hv).
    destruct (firstFrame bs) as [[frame more]|] eqn:E; [|done]. pose proof (firstFrame_Some _ _ _ E) as (-> & H2 & _).
    destruct (handlePacket _ _ _ _) as [m|e] eqn:Ep; [|done].
    unfold mbind, ST_bind, deliver. destruct (callback m w) as [w1 [[]|e]]; [|done].
    rewrite (app_assoc pre). rewrite length_app in Hf. apply IH; [by rewrite Hv, <- !app_assoc|lia|lia].
Qed.

(** C37. Parsing ends on any bytes. Whatever bytes arrive, in any state of the buffer, no loop of a message body runs out
    of the fuel it is given, the loop over the messages does the same with any more fuel, and so does the loop that
    sizes a new buffer, which ends above the length it needs. *)
Theorem parse_terminates (p : Parser) (chunk : list Z) (w : World) (Hp : buffer_ok p) :
  (parse callback chunk (p, w)).2 <> Throw OutOfFuel /\
  (forall fuel, let p1 := mergeBuffer chunk p in let full := bufferOffset p1 + bufferRemainingLength p1 in
     (Z.to_nat full <= fuel)%nat ->
     parseLoop callback fuel (bufferOffset p1) full (p1, w) = parseLoop callback (Z.to_nat full) (bufferOffset p1) full (p1, w)) /\
  (forall newLength len fuel, 0 < len -> (Z.to_nat newLength <= fuel)%nat ->
     grow fuel newLength len = grow (Z.to_nat newLength) newLength len /\ newLength < grow fuel newLength len).
Proof.
  apply pending_holds, (mergeBuffer_holds p _ chunk) in Hp as (pre & post & Hv & Ho & Hr). set (p1 := mergeBuffer chunk p) in *.
  split; [|split].
  - unfold parse, on_parser. rewrite st_bind_modify, st_bind_get. cbn iota beta. fold p1. rewrite Ho, Hr, <- byteLength_app.
    pose proof (parseLoop_ends (Z.to_nat (byteLength (pre ++ pending p ++ chunk))) p1 w pre _ post Hv) as H.
    unfold mbind, ST_bind. destruct (parseLoop _ _ _ _ _) as [[p' w'] [off|e]]; [done|]. by intros [= ->].
  - intros fuel p2 full. subst p2 full. fold p1. rewrite Ho, Hr, <- byteLength_app. intros Hf. apply (parseLoop_fuel _ _ _ _ _ _ post Hv); [|done].
    unfold byteLength. rewrite !length_app. lia.
  - intros newLength len fuel Hl Hf. rewrite (grow_fuel (Z.to_nat newLength) fuel) by lia. split; [done|]. apply grow_above; lia.
Qed.
End Loop.

(** ** Witnesses *)

Lemma parse_terminates_witness :
  (parse log_message [0x45; 0; 0; 0; 9; 77; 65] (waiting, [])).2 <> Throw OutOfFuel /\
  (forall fuel, let p1 := mergeBuffer [0x45; 0; 0; 0; 9; 77; 65] waiting in
     let full := bufferOffset p1 + bufferRemainingLength p1 in (Z.to_nat full <= fuel)%nat ->
     parseLoop log_message fuel (bufferOffset p1) full (p1, []) =
     parseLoop log_message (Z.to_nat full) (bufferOffset p1) full (p1, [])) /\
  (forall newLength len fuel, 0 < len -> (Z.to_nat newLength <= fuel)%nat ->
     grow fuel newLength len = grow (Z.to_nat newLength) newLength len /\ newLength < grow fuel newLength len).
Proof.
  apply (parse_terminates log_message ltac:(intros m w H; discriminate H) waiting [0x45; 0; 0; 0; 9; 77; 65] [] waiting_ok).
Defined.

(** A text that starts with a byte order mark arrives without it: the decoder is not told to keep it. *)
Example bom_value_lost :
  parse log_message (frameBytes 0x44 (counted_bytes value_bytes [Some [BOM; 120]])) (newParser, []) =
    ((newParser, [DataRowMessage 14 [Some [120]]]), Ok tt).
Proof. vm_compute. reflexivity. Qed.
