(* ===== verification/WireSerializer.v ===== *)
(** * Wire protocol: the frontend messages

    The builders of protocol/wire/serializer.ts over the two writers the module shares between its calls. *)

From S2P Require Export WireBuffers.

Module Serializer.
Import BufferWriter.

(** [const writer = new Writer(); const paramWriter = new Writer();] *)
Record Writers : Type := mkWriters { writer : Writer; paramWriter : Writer }.

Definition initial : Writers := mkWriters (newWriter 256) (newWriter 256).

Abbreviation Ser := (ST Writers WireError).

Definition on_writer {A} (m : ST Writer WireError A) : Ser A :=
  fun s => let (w, r) := m (writer s) in (mkWriters w (paramWriter s), r).
Definition on_paramWriter {A} (m : ST Writer WireError A) : Ser A :=
  fun s => let (w, r) := m (paramWriter s) in (mkWriters (writer s) w, r).

(** [new Writer()], used once. *)
Definition fresh {A} (m : ST Writer WireError A) : result WireError A := (m (newWriter 256)).2.

Definition code_startup : Z := 0x70.
Definition code_query : Z := 0x51.
Definition code_parse : Z := 0x50.
Definition code_bind : Z := 0x42.
Definition code_execute : Z := 0x45.
Definition code_flush : Z := 0x48.
Definition code_sync : Z := 0x53.
Definition code_end : Z := 0x58.
Definition code_close : Z := 0x43.
Definition code_describe : Z := 0x44.
Definition code_copyFromChunk : Z := 0x64.
Definition code_copyDone : Z := 0x63.
Definition code_copyFail : Z := 0x66.

Definition startup (opts : list (jsstr * jsstr)) : Ser (list Z) :=
  on_writer (addInt16 3 ≫= fun _ => addInt16 0) ≫= fun _ =>
  forM (fun '(key, value) => on_writer (addCString key ≫= fun _ => addCString value)) opts ≫= fun _ =>
  on_writer (addCString (js "client_encoding") ≫= fun _ => addCString (js "UTF8")) ≫= fun _ =>
  bodyBuffer ← on_writer (addCString [] ≫= fun _ => flush None);
  let len := byteLength bodyBuffer + 4 in
  st_lift (fresh (addInt32 len ≫= fun _ => add bodyBuffer ≫= fun _ => flush None)).

Definition requestSsl : list Z := set_bytes 4 (be_bytes 4 80877103) (set_bytes 0 (be_bytes 4 8) (replicate 8 0)).

Definition password (value : jsstr) : Ser (list Z) :=
  on_writer (addCString value ≫= fun _ => flush (Some code_startup)).

Definition sendSASLInitialResponseMessage (mechanism initialResponse : jsstr) : Ser (list Z) :=
  on_writer (addCString mechanism ≫= fun _ => addInt32 (byteLengthUtf8 initialResponse) ≫= fun _ =>
             addString initialResponse) ≫= fun _ =>
  on_writer (flush (Some code_startup)).

Definition sendSCRAMClientFinalMessage (additionalData : jsstr) : Ser (list Z) :=
  on_writer (addString additionalData ≫= fun _ => flush (Some code_startup)).

Definition query (text : jsstr) : Ser (list Z) :=
  on_writer (addCString text ≫= fun _ => flush (Some code_query)).

Record ParseOpts : Type := mkParseOpts { po_name : option jsstr; po_types : option (list Z); po_text : jsstr }.

Definition parse (opts : ParseOpts) : Ser (list Z) :=
  let name := default [] (po_name opts) in
  st_lift (throw_if (63 <? Z.of_nat (length name)) RangeError) ≫= fun _ =>
  on_writer (addCString name ≫= fun _ => addCString (po_text opts) ≫= fun _ =>
             addInt16 (default 0 (Z.of_nat ∘ length <$> po_types opts))) ≫= fun _ =>
  forM (fun type => on_writer (addInt32 type)) (default [] (po_types opts)) ≫= fun _ =>
  on_writer (flush (Some code_parse)).

Inductive LegalValue : Type :=
| TextValue (s : jsstr)
| BinaryValue (bytes : list Z)
| NullValue.

(** [(param, index) => LegalValue], which may throw. *)
Definition ValueMapper : Type := LegalValue -> nat -> result WireError LegalValue.

Record BindOpts : Type := mkBindOpts {
  bo_portal : option jsstr; bo_binary : option bool; bo_statement : option jsstr;
  bo_values : option (list LegalValue); bo_valueMapper : option ValueMapper }.

Definition ParamType_STRING : Z := 0.
Definition ParamType_BINARY : Z := 1.

Definition writeValue (mappedVal : LegalValue) : Ser unit :=
  match mappedVal with
  | NullValue =>
      on_writer (addInt16 ParamType_STRING) ≫= fun _ =>
      on_paramWriter (addInt32 (-1))
  | BinaryValue bytes =>
      on_writer (addInt16 ParamType_BINARY) ≫= fun _ =>
      on_paramWriter (addInt32 (byteLength bytes)) ≫= fun _ =>
      on_paramWriter (add bytes)
  | TextValue s =>
      on_writer (addInt16 ParamType_STRING) ≫= fun _ =>
      on_paramWriter (addInt32 (byteLengthUtf8 s)) ≫= fun _ =>
      on_paramWriter (addString s)
  end.

Fixpoint writeValues (i : nat) (values : list LegalValue) (valueMapper : option ValueMapper) : Ser unit :=
  match values with
  | [] => mret tt
  | value :: values =>
      mappedVal ← st_lift (match valueMapper with Some f => f value i | None => Ok value end);
      writeValue mappedVal ≫= fun _ =>
      writeValues (S i) values valueMapper
  end.

Definition bind (config : BindOpts) : Ser (list Z) :=
  let portal := default [] (bo_portal config) in
  let statement := default [] (bo_statement config) in
  let isBinary := default false (bo_binary config) in
  let values := default [] (bo_values config) in
  let len := Z.of_nat (length values) in
  on_writer (addCString portal ≫= fun _ => addCString statement) ≫= fun _ =>
  on_writer (addInt16 len) ≫= fun _ =>
  writeValues 0 values (bo_valueMapper config) ≫= fun _ =>
  on_writer (addInt16 len) ≫= fun _ =>
  params ← on_paramWriter (flush None);
  on_writer (add params) ≫= fun _ =>
  on_writer (addInt16 (if isBinary : bool then ParamType_BINARY else ParamType_STRING)) ≫= fun _ =>
  on_writer (flush (Some code_bind)).

Definition emptyExecute : list Z := [code_execute; 0; 0; 0; 9; 0; 0; 0; 0; 0].

Record ExecOpts : Type := mkExecOpts { eo_portal : option jsstr; eo_rows : option Z }.

Definition execute (config : option ExecOpts) : list Z :=
  let portal := default [] (config ≫= eo_portal) in
  let rows := default 0 (config ≫= eo_rows) in
  if bool_decide (portal = []) && (rows =? 0) then emptyExecute
  else
    let portalLength := Z.to_nat (byteLengthUtf8 portal) in
    let len := (4 + portalLength + 1 + 4)%nat in
    let view := replicate (1 + len) 0 in
    let view := set_bytes 0 [code_execute] view in
    let view := set_bytes 1 (be_bytes 4 (Z.of_nat len)) view in
    let view := set_bytes 5 (encodeInto portal (length view - 5)) view in
    let view := set_bytes (portalLength + 5) [0] view in
    set_bytes (length view - 4) (be_bytes 4 rows) view.

Definition cancel (processID secretKey : Z) : list Z :=
  let view := replicate 16 0 in
  let view := set_bytes 0 (be_bytes 4 16) view in
  let view := set_bytes 4 (be_bytes 2 1234) view in
  let view := set_bytes 6 (be_bytes 2 5678) view in
  let view := set_bytes 8 (be_bytes 4 processID) view in
  set_bytes 12 (be_bytes 4 secretKey) view.

Inductive PortalType : Type := PortalS | PortalP.
Record PortalOpts : Type := mkPortalOpts { pt_type : PortalType; pt_name : option jsstr }.
Definition typeLetter (t : PortalType) : jsstr := match t with PortalS => js "S" | PortalP => js "P" end.

Definition cstringMessage (messageCode : Z) (string : jsstr) : result WireError (list Z) :=
  fresh (addCString string ≫= fun _ => flush (Some messageCode)).

(** Computed once, when the module is loaded, from the writer of the module. *)
Definition emptyDescribePortal : result WireError (list Z) := fresh (addCString (js "P") ≫= fun _ => flush (Some code_describe)).
Definition emptyDescribeStatement : result WireError (list Z) := fresh (addCString (js "S") ≫= fun _ => flush (Some code_describe)).

Definition describe (msg : PortalOpts) : result WireError (list Z) :=
  match default [] (pt_name msg) with
  | [] => match pt_type msg with PortalP => emptyDescribePortal | PortalS => emptyDescribeStatement end
  | name => cstringMessage code_describe (typeLetter (pt_type msg) ++ name)
  end.

Definition close (msg : PortalOpts) : result WireError (list Z) :=
  cstringMessage code_close (typeLetter (pt_type msg) ++ default [] (pt_name msg)).

Definition copyData (chunk : list Z) : Ser (list Z) :=
  on_writer (add chunk ≫= fun _ => flush (Some code_copyFromChunk)).

Definition copyFail (message : jsstr) : result WireError (list Z) := cstringMessage code_copyFail message.

Definition codeOnlyBuffer (messageCode : Z) : list Z := [messageCode; 0; 0; 0; 4].

Definition flushBuffer : list Z := codeOnlyBuffer code_flush.
Definition syncBuffer : list Z := codeOnlyBuffer code_sync.
Definition endBuffer : list Z := codeOnlyBuffer code_end.
Definition copyDoneBuffer : list Z := codeOnlyBuffer code_copyDone.

(** [export const serialize]: the builders by name. *)
Inductive Request : Type :=
| Startup (opts : list (jsstr * jsstr))
| Password (value : jsstr)
| RequestSsl
| SASLInitialResponse (mechanism initialResponse : jsstr)
| SCRAMClientFinal (additionalData : jsstr)
| Query (text : jsstr)
| Parse (opts : ParseOpts)
| Bind (config : BindOpts)
| Execute (config : option ExecOpts)
| Describe (msg : PortalOpts)
| Close (msg : PortalOpts)
| Flush
| Sync
| End_
| CopyData (chunk : list Z)
| CopyDone
| CopyFail (message : jsstr)
| Cancel (processID secretKey : Z).

Definition serialize (r : Request) : Ser (list Z) :=
  match r with
  | Startup opts => startup opts
  | Password value => password value
  | RequestSsl => mret requestSsl
  | SASLInitialResponse mechanism initialResponse => sendSASLInitialResponseMessage mechanism initialResponse
  | SCRAMClientFinal additionalData => sendSCRAMClientFinalMessage additionalData
  | Query text => query text
  | Parse opts => parse opts
  | Bind config => bind config
  | Execute config => mret (execute config)
  | Describe msg => st_lift (describe msg)
  | Close msg => st_lift (close msg)
  | Flush => mret flushBuffer
  | Sync => mret syncBuffer
  | End_ => mret endBuffer
  | CopyData chunk => copyData chunk
  | CopyDone => mret copyDoneBuffer
  | CopyFail message => st_lift (copyFail message)
  | Cancel processID secretKey => mret (cancel processID secretKey)
  end.

End Serializer.
