(* ===== verification/WireSerialProps.v ===== *)
(** * Wire protocol: the writer builds what it is told

    The growing buffer of [Writer] abstracts to the bytes after its header slot: each operation appends its
    encoding, whatever the buffer's size, and [flush] frames them and starts over. *)

From S2P Require Export WireProps WireSerializer.

Import BufferWriter.

(** ** [byteLengthUtf8] and [encodeInto] *)

Lemma byteLengthUtf8_encode s : js_string s -> well_formed s -> byteLengthUtf8 s = byteLength (utf8_encode s).
Proof.
  intros Hs [n Hn]. unfold byteLengthUtf8. rewrite <- (app_nil_r (rev s)).
  enough (forall tl, utf8_extra (rev s ++ tl) = byteLength (utf8_encode s) - Z.of_nat (length s) + utf8_extra tl) as ->
    by (cbn; lia).
  refine (text_ind (fun s => forall tl, utf8_extra (rev s ++ tl) = byteLength (utf8_encode s) - Z.of_nat (length s) + utf8_extra tl)
    _ _ _ _ _ s Hs 0 n Hn); clear s Hs n Hn; [done|..]; intros;
    cbn [rev length]; rewrite <- ?app_assoc; cbn [app].
  - rewrite encode_1 by done. rewrite H0. cbn [utf8_extra]. decide_tests. unfold byteLength. cbn [length]. lia.
  - rewrite encode_2 by done. rewrite H0. cbn [utf8_extra]. decide_tests. unfold byteLength. cbn [length]. lia.
  - rewrite encode_3 by done. rewrite H1. cbn [utf8_extra].
    assert ((0xdc00 <=? c) && (c <=? 0xdfff) = false) as -> by (apply andb_false_iff; rewrite !Z.leb_gt; lia).
    destruct (Z.leb_spec c 0x7ff); [lia|]. decide_tests. rewrite ?andb_false_r. unfold byteLength. rewrite length_app; unfold utf8_3, utf8_4; cbn [length]. lia.
  - rewrite encode_4 by done. rewrite H1. cbn [utf8_extra]. decide_tests. rewrite ?andb_false_r.
    unfold byteLength. rewrite length_app; unfold utf8_3, utf8_4; cbn [length]. lia.
Qed.

Lemma utf8_points_concat s : concat (utf8_points s) = utf8_encode s.
Proof.
  induction s as [s IH] using (induction_ltof1 _ (@length Z)). unfold ltof in IH.
  destruct s as [|c s]; [done|]. cbn [utf8_points utf8_encode].
  repeat case_match; cbn [concat app]; rewrite ?IH by (subst; cbn; lia); done.
Qed.

Lemma fitting_all points room : (length (concat points) <= room)%nat -> fitting room points = concat points.
Proof.
  revert room. induction points as [|p points IH]; intros room H; [done|]. cbn [fitting concat] in *. rewrite length_app in H.
  rewrite (proj2 (Nat.leb_le _ _)) by lia. by rewrite IH by lia.
Qed.

Lemma encodeInto_all s room : (length (utf8_encode s) <= room)%nat -> encodeInto s room = utf8_encode s.
Proof. intros H. unfold encodeInto. by rewrite fitting_all; rewrite utf8_points_concat. Qed.

(** ** The writer and its content *)

(** The bytes written after the header slot. *)
Definition wrote (w : Writer) (bs : list Z) : Prop :=
  exists header rest, buffer w = header ++ bs ++ rest /\ length header = 5%nat /\ offset w = (5 + length bs)%nat.

(** [m] appends [bs] to any content. *)
Definition emits (m : W unit) (bs : list Z) : Prop :=
  forall w cur, wrote w cur -> exists w', m w = (w', Ok tt) /\ wrote w' (cur ++ bs) /\ size w' = size w.

Lemma newWriter_wrote n : (5 <= n)%nat -> wrote (newWriter n) [].
Proof.
  intros H. exists (replicate 5 0), (replicate (n - 5) 0). split; [|done]. unfold newWriter, allocateBuffer. rewrite app_nil_l.
  cbn [buffer]. rewrite <- replicate_add. f_equal. lia.
Qed.

Lemma emits_bind m k a b : emits m a -> emits k b -> emits (m ≫= fun _ => k) (a ++ b).
Proof.
  intros Hm Hk w cur Hw. destruct (Hm w cur Hw) as (w1 & E1 & Hw1 & S1). destruct (Hk w1 _ Hw1) as (w2 & E2 & Hw2 & S2).
  exists w2. rewrite (st_bind_run _ _ _ _ _ E1), app_assoc. by rewrite S2.
Qed.

Lemma emits_ret : emits (mret tt) [].
Proof. intros w cur Hw. exists w. by rewrite app_nil_r. Qed.

(** [ensure] makes room and keeps the content. *)
Lemma ensure_run n w cur : wrote w cur -> exists header rest,
  ensure n w = (mkWriter (size w) (header ++ cur ++ rest) (5 + length cur), Ok tt) /\ length header = 5%nat /\ (n <= length rest)%nat.
Proof.
  intros (header & rest & Hb & Hh & Ho). unfold ensure, st_modify.
  destruct (Nat.ltb_spec (length (buffer w)) (offset w + n)) as [Hn|Hn].
  - exists header, (rest ++ drop (length (buffer w)) (allocateBuffer (length (buffer w) + length (buffer w) / 2 + n))).
    rewrite Ho. split; [|split; [done|]].
    + do 2 f_equal. change (allocateBuffer ?k) with ([] ++ allocateBuffer k) at 1. rewrite set_bytes_room; [|done|unfold allocateBuffer; rewrite length_replicate; lia].
      cbn [app]. rewrite Hb at 1. by rewrite <- !app_assoc.
    + rewrite length_app, length_drop. unfold allocateBuffer. rewrite length_replicate. rewrite Hb, !length_app in *. lia.
  - exists header, rest. split; [|split; [done|]].
    + rewrite <- Hb, <- Ho. by destruct w.
    + rewrite Hb, !length_app in Hn. lia.
Qed.

(** Writing into the room that [ensure] made. *)
Lemma put_room sz header cur rest bs n : length header = 5%nat -> (length bs <= length rest)%nat -> n = length bs -> exists w',
  put bs n (mkWriter sz (header ++ cur ++ rest) (5 + length cur)) = (w', Ok tt) /\ wrote w' (cur ++ bs) /\ size w' = sz.
Proof.
  intros Hh Hr ->. eexists. split; [reflexivity|]. split; [|done]. exists header, (drop (length bs) rest). cbn [buffer offset].
  rewrite app_assoc, set_bytes_room by (rewrite ?length_app; lia). rewrite <- !app_assoc. split; [done|]. split; [done|]. rewrite length_app. lia.
Qed.

Lemma emits_view bs n : n = length bs -> emits (ensure n ≫= fun _ => set_view bs) bs.
Proof.
  intros -> w cur Hw. destruct (ensure_run (length bs) w cur Hw) as (header & rest & E & Hh & Hr).
  rewrite (st_bind_run _ _ _ _ _ E). unfold set_view. rewrite st_bind_get, st_bind_lift. cbn [buffer offset].
  rewrite (proj2 (Nat.ltb_ge _ _)) by (rewrite !length_app; lia). cbn [throw_if]. by apply put_room.
Qed.

Lemma emits_int32 v : emits (addInt32 v) (be_bytes 4 v).
Proof. by apply emits_view. Qed.
Lemma emits_int16 v : emits (addInt16 v) (be_bytes 2 v).
Proof. by apply emits_view. Qed.

Lemma emits_add bs : emits (add bs) bs.
Proof.
  intros w cur Hw. unfold add. destruct (ensure_run (length bs) w cur Hw) as (header & rest & E & Hh & Hr).
  rewrite (st_bind_run _ _ _ _ _ E), st_bind_get, st_bind_lift. cbn [buffer offset].
  rewrite (proj2 (Nat.ltb_ge _ _)) by (rewrite !length_app; lia). cbn [throw_if]. by apply put_room.
Qed.

(** A text without unpaired surrogates. *)
Definition text_in (s : jsstr) : Prop := js_string s /\ well_formed s.

Lemma emits_string s : text_in s -> emits (addString s) (utf8_encode s).
Proof.
  intros [Hs Hw] w cur Hwr. unfold addString. rewrite (byteLengthUtf8_encode s Hs Hw). unfold byteLength. rewrite Nat2Z.id.
  destruct (ensure_run (length (utf8_encode s)) w cur Hwr) as (header & rest & E & Hh & Hr).
  rewrite (st_bind_run _ _ _ _ _ E), st_bind_get. cbn [buffer offset]. rewrite encodeInto_all by (rewrite !length_app; lia). by apply put_room.
Qed.

Lemma emits_cstring s : text_in s -> emits (addCString s) (c_bytes s).
Proof.
  intros Hs. unfold addCString, c_bytes. apply emits_bind; [|by apply emits_view]. destruct s; [apply emits_ret|by apply emits_string].
Qed.

(** [flush] returns the content, framed if there is a code, and starts over. *)
Lemma flush_code w cur code : wrote w cur -> 0 <= code <= 255 -> flush (Some code) w = (newWriter (size w), Ok (frameBytes code cur)).
Proof.
  destruct w as [sz b o]. intros (header & rest & Hb & Hh & Ho) Hc. cbn [buffer offset] in *. subst b o.
  destruct header as [|h0 [|h1 [|h2 [|h3 [|h4 [|]]]]]]; try done.
  unfold flush, join, mbind, ST_bind, mret, ST_ret, st_get, st_modify. cbn [buffer offset size]. do 2 f_equal. change ([h0; h1; h2; h3; h4] ++ ?x) with ([] ++ [h0] ++ [h1; h2; h3; h4] ++ x).
  rewrite set_bytes_mid by done. cbn [app]. change (be_bytes 1 code) with [code mod 256]. rewrite Z.mod_small by lia.
  change (code :: h1 :: h2 :: h3 :: h4 :: ?x) with ([code] ++ [h1; h2; h3; h4] ++ x). cbn [app].
  change (code :: h1 :: h2 :: h3 :: h4 :: ?x) with ([code] ++ [h1; h2; h3; h4] ++ x).
  rewrite set_bytes_mid by (done || by rewrite length_be_bytes).
  replace (Z.of_nat (5 + length cur - 1)) with (byteLength cur + 4) by (unfold byteLength; lia).
  change ([code] ++ ?x) with ([] ++ [code] ++ x).
  replace ([] ++ [code] ++ be_bytes 4 (byteLength cur + 4) ++ cur ++ rest) with ([] ++ frameBytes code cur ++ rest)
    by (unfold frameBytes; cbn [app]; by rewrite <- app_assoc).
  apply subarray_mid; [done|]. pose proof (byteLength_frame code cur). unfold byteLength in *. cbn [length]. lia.
Qed.

Lemma flush_plain w cur : wrote w cur -> flush None w = (newWriter (size w), Ok cur).
Proof.
  destruct w as [sz b o]. intros (header & rest & Hb & Hh & Ho). cbn [buffer offset] in *. subst b o.
  unfold flush, join, mbind, ST_bind, mret, ST_ret, st_get, st_modify. cbn [buffer offset size].
  do 2 f_equal. by apply subarray_mid; rewrite Hh.
Qed.

(** ** Wire protocol: the frontend messages are framed as the protocol says *)

Import BufferWriter Serializer.

(** ** What each builder promises *)

Definition pair_bytes (p : jsstr * jsstr) : list Z := c_bytes p.1 ++ c_bytes p.2.

Definition mapped (valueMapper : option ValueMapper) (i : nat) (v : LegalValue) : result WireError LegalValue :=
  match valueMapper with Some f => f v i | None => Ok v end.

Definition format_of (v : LegalValue) : list Z := be_bytes 2 (match v with BinaryValue _ => 1 | _ => 0 end).
Definition param_bytes (v : LegalValue) : list Z :=
  match v with
  | NullValue => be_bytes 4 (-1)
  | BinaryValue bytes => be_bytes 4 (byteLength bytes) ++ bytes
  | TextValue s => be_bytes 4 (byteLength (utf8_encode s)) ++ utf8_encode s
  end.
Definition param_ok (v : LegalValue) : Prop := match v with TextValue s => text_in s | _ => True end.

(** The body of a bind message over the mapped values. *)
Definition bind_body (portal statement : jsstr) (values : list LegalValue) (isBinary : bool) : list Z :=
  c_bytes portal ++ c_bytes statement ++ be_bytes 2 (Z.of_nat (length values)) ++ concat (format_of <$> values)
  ++ be_bytes 2 (Z.of_nat (length values)) ++ concat (param_bytes <$> values)
  ++ be_bytes 2 (if isBinary then 1 else 0).

Definition unframed (body : list Z) : list Z := be_bytes 4 (byteLength body + 4) ++ body.

(** The bytes a request stands for; a bind is given with the values its mapper returned. *)
Definition request_bytes (r : Request) (values : list LegalValue) : list Z :=
  match r with
  | Startup opts => unframed (be_bytes 2 3 ++ be_bytes 2 0 ++ concat (pair_bytes <$> opts)
      ++ c_bytes (js "client_encoding") ++ c_bytes (js "UTF8") ++ [0])
  | Password value => frameBytes 0x70 (c_bytes value)
  | RequestSsl => unframed (be_bytes 4 80877103)
  | SASLInitialResponse mechanism response =>
      frameBytes 0x70 (c_bytes mechanism ++ be_bytes 4 (byteLength (utf8_encode response)) ++ utf8_encode response)
  | SCRAMClientFinal data => frameBytes 0x70 (utf8_encode data)
  | Query sql => frameBytes 0x51 (c_bytes sql)
  | Parse opts => frameBytes 0x50 (c_bytes (default [] (po_name opts)) ++ c_bytes (po_text opts)
      ++ be_bytes 2 (Z.of_nat (length (default [] (po_types opts)))) ++ concat (be_bytes 4 <$> default [] (po_types opts)))
  | Bind config => frameBytes 0x42 (bind_body (default [] (bo_portal config)) (default [] (bo_statement config)) values
      (default false (bo_binary config)))
  | Execute config => frameBytes 0x45 (c_bytes (default [] (config ≫= eo_portal)) ++ be_bytes 4 (default 0 (config ≫= eo_rows)))
  | Describe msg => frameBytes 0x44 (c_bytes (typeLetter (pt_type msg) ++ default [] (pt_name msg)))
  | Close msg => frameBytes 0x43 (c_bytes (typeLetter (pt_type msg) ++ default [] (pt_name msg)))
  | Flush => frameBytes 0x48 []
  | Sync => frameBytes 0x53 []
  | End_ => frameBytes 0x58 []
  | CopyData chunk => frameBytes 0x64 chunk
  | CopyDone => frameBytes 0x63 []
  | CopyFail message => frameBytes 0x66 (c_bytes message)
  | Cancel processID secretKey => unframed (be_bytes 2 1234 ++ be_bytes 2 5678 ++ be_bytes 4 processID ++ be_bytes 4 secretKey)
  end.

(** The values a request is sent with, and that its texts can be encoded. *)
Inductive mapped_values (valueMapper : option ValueMapper) : nat -> list LegalValue -> list LegalValue -> Prop :=
| mapped_nil i : mapped_values valueMapper i [] []
| mapped_cons i v v' vs vs' : mapped valueMapper i v = Ok v' -> param_ok v' ->
    mapped_values valueMapper (S i) vs vs' -> mapped_values valueMapper i (v :: vs) (v' :: vs').

Definition request_ok (r : Request) (values : list LegalValue) : Prop :=
  match r with
  | Startup opts => Forall (fun p => text_in p.1 /\ text_in p.2) opts
  | Password s | SCRAMClientFinal s | Query s | CopyFail s => text_in s
  | SASLInitialResponse s t => text_in s /\ text_in t
  | Parse opts => text_in (default [] (po_name opts)) /\ text_in (po_text opts) /\ (length (default [] (po_name opts)) <= 63)%nat
  | Bind config => text_in (default [] (bo_portal config)) /\ text_in (default [] (bo_statement config)) /\
      mapped_values (bo_valueMapper config) 0 (default [] (bo_values config)) values
  | Execute config => text_in (default [] (config ≫= eo_portal))
  | Describe msg | Close msg => text_in (default [] (pt_name msg))
  | _ => True
  end.

(** ** The shared writers *)

Definition clean (s : Writers) : Prop :=
  wrote (writer s) [] /\ wrote (paramWriter s) [] /\ size (writer s) = 256%nat /\ size (paramWriter s) = 256%nat.

Lemma on_writer_emits m bs s cur : emits m bs -> wrote (writer s) cur ->
  exists w, on_writer m s = (mkWriters w (paramWriter s), Ok tt) /\ wrote w (cur ++ bs) /\ size w = size (writer s).
Proof. intros Hm Hw. destruct (Hm _ _ Hw) as (w & E & H). exists w. unfold on_writer. by rewrite E. Qed.

Lemma on_param_emits m bs s cur : emits m bs -> wrote (paramWriter s) cur ->
  exists w, on_paramWriter m s = (mkWriters (writer s) w, Ok tt) /\ wrote w (cur ++ bs) /\ size w = size (paramWriter s).
Proof. intros Hm Hw. destruct (Hm _ _ Hw) as (w & E & H). exists w. unfold on_paramWriter. by rewrite E. Qed.

(** [m] appends [a] to the message writer and [b] to the parameter writer. *)
Definition appends (m : Ser unit) (a b : list Z) : Prop :=
  forall s curw curp, wrote (writer s) curw -> wrote (paramWriter s) curp ->
    exists s', m s = (s', Ok tt) /\ wrote (writer s') (curw ++ a) /\ wrote (paramWriter s') (curp ++ b) /\
      size (writer s') = size (writer s) /\ size (paramWriter s') = size (paramWriter s).

Lemma appends_writer m bs : emits m bs -> appends (on_writer m) bs [].
Proof.
  intros Hm s curw curp Hw Hp. destruct (on_writer_emits m bs s curw Hm Hw) as (w & E & H & S).
  exists (mkWriters w (paramWriter s)). by rewrite app_nil_r.
Qed.
Lemma appends_param m bs : emits m bs -> appends (on_paramWriter m) [] bs.
Proof.
  intros Hm s curw curp Hw Hp. destruct (on_param_emits m bs s curp Hm Hp) as (w & E & H & S).
  exists (mkWriters (writer s) w). by rewrite app_nil_r.
Qed.
Lemma appends_bind m k a b a' b' : appends m a b -> appends k a' b' -> appends (m ≫= fun _ => k) (a ++ a') (b ++ b').
Proof.
  intros Hm Hk s curw curp Hw Hp. destruct (Hm s _ _ Hw Hp) as (s1 & E1 & Hw1 & Hp1 & S1 & T1).
  destruct (Hk s1 _ _ Hw1 Hp1) as (s2 & E2 & Hw2 & Hp2 & S2 & T2). exists s2. rewrite (st_bind_run _ _ _ _ _ E1), !app_assoc.
  by rewrite S2, T2.
Qed.
Lemma appends_both m k b b' : appends m [] b -> appends k [] b' -> appends (m ≫= fun _ => k) [] (b ++ b').
Proof. apply (appends_bind m k [] b []). Qed.
Lemma appends_first m k a b : appends m a [] -> appends k [] b -> appends (m ≫= fun _ => k) a b.
Proof. rewrite <- (app_nil_r a) at 2. apply (appends_bind m k a [] [] b). Qed.
Lemma appends_ret : appends (mret tt) [] [].
Proof. intros s curw curp Hw Hp. exists s. by rewrite !app_nil_r. Qed.

Lemma appends_forM {A} (f : A -> Ser unit) (enc : A -> list Z) l : Forall (fun x => appends (f x) (enc x) []) l ->
  appends (forM f l) (concat (enc <$> l)) [].
Proof. induction 1; [apply appends_ret|]. rewrite fmap_cons. cbn [forM concat]. by apply (appends_bind _ _ _ [] _ []). Qed.

Lemma initial_clean : clean initial.
Proof. repeat split; apply newWriter_wrote; lia. Qed.

(** [k] turns the content [a] and [b] of the two writers into [out] and leaves both writers clean. *)
Definition builds (k : Ser (list Z)) (a b out : list Z) : Prop :=
  forall s, wrote (writer s) a -> wrote (paramWriter s) b -> size (writer s) = 256%nat -> size (paramWriter s) = 256%nat ->
    exists s', k s = (s', Ok out) /\ clean s'.

Lemma builds_step m k a b x y out : appends m x y -> builds k (a ++ x) (b ++ y) out -> builds (m ≫= fun _ => k) a b out.
Proof.
  intros Hm Hk s Hw Hp Ss Sp. destruct (Hm s a b Hw Hp) as (s1 & E & Hw1 & Hp1 & S1 & P1).
  rewrite (st_bind_run _ _ _ _ _ E). apply Hk; congruence || done.
Qed.

Lemma builds_flush code body : 0 <= code <= 255 -> builds (on_writer (flush (Some code))) body [] (frameBytes code body).
Proof.
  intros Hc s Hw Hp Ss Sp. unfold on_writer. rewrite (flush_code _ _ code Hw Hc). eexists. split; [reflexivity|].
  rewrite Ss. repeat split; [apply newWriter_wrote; lia|done|done].
Qed.

(** The code writes and flushes in one expression. *)
Lemma on_writer_bind {A} (m : ST Writer WireError unit) (k : ST Writer WireError A) s :
  on_writer (m ≫= fun _ => k) s = (on_writer m ≫= fun _ => on_writer k) s.
Proof. unfold on_writer, mbind, ST_bind. by destruct (m (writer s)) as [w [[]|e]]. Qed.

Lemma builds_flushed m code body a : emits m body -> 0 <= code <= 255 ->
  builds (on_writer (m ≫= fun _ => flush (Some code))) a [] (frameBytes code (a ++ body)).
Proof.
  intros Hm Hc s Hw Hp Ss Sp. rewrite on_writer_bind. revert s Hw Hp Ss Sp.
  eapply (builds_step _ _ _ _ _ []); [by apply appends_writer|]. by apply builds_flush.
Qed.

Lemma builds_clean k out s : builds k [] [] out -> clean s -> exists s', k s = (s', Ok out) /\ clean s'.
Proof. intros Hk (Hw & Hp & Ss & Sp). by apply Hk. Qed.

Lemma builds_ret out : builds (mret out) [] [] out.
Proof. intros s Hw Hp Ss Sp. by exists s. Qed.

Lemma fresh_flush m code body : emits m body -> 0 <= code <= 255 -> fresh (m ≫= fun _ => flush (Some code)) = Ok (frameBytes code body).
Proof.
  intros Hm Hc. unfold fresh. destruct (Hm (newWriter 256) [] (newWriter_wrote 256 ltac:(lia))) as (w & E & Hw & _).
  by rewrite (st_bind_run _ _ _ _ _ E), (flush_code _ _ _ Hw Hc).
Qed.

Lemma fresh_plain m body : emits m body -> fresh (m ≫= fun _ => flush None) = Ok body.
Proof.
  intros Hm. unfold fresh. destruct (Hm (newWriter 256) [] (newWriter_wrote 256 ltac:(lia))) as (w & E & Hw & _).
  by rewrite (st_bind_run _ _ _ _ _ E), (flush_plain _ _ Hw).
Qed.

Lemma text_byteLength s : text_in s -> byteLengthUtf8 s = byteLength (utf8_encode s).
Proof. intros []. by apply byteLengthUtf8_encode. Qed.

Create HintDb emits.
#[local] Hint Resolve emits_int16 emits_int32 emits_cstring emits_string emits_add emits_bind : emits.

(** ** The builders *)

Lemma appends_value v : param_ok v -> appends (writeValue v) (format_of v) (param_bytes v).
Proof.
  destruct v as [s|bytes|]; cbn [param_ok writeValue param_bytes]; intros Hv.
  - rewrite (text_byteLength s Hv). apply appends_first; [apply appends_writer; auto with emits|].
    apply appends_both; apply appends_param; auto with emits.
  - apply appends_first; [apply appends_writer; auto with emits|].
    apply appends_both; apply appends_param; auto with emits.
  - apply appends_first; [apply appends_writer; auto with emits|].
    apply appends_param; auto with emits.
Qed.

Lemma appends_values valueMapper i vs vs' : mapped_values valueMapper i vs vs' ->
  appends (writeValues i vs valueMapper) (concat (format_of <$> vs')) (concat (param_bytes <$> vs')).
Proof.
  induction 1 as [i|i v v' vs vs' Hv Hok _ IH]; [apply appends_ret|]. rewrite !fmap_cons. cbn [writeValues concat].
  unfold mapped in Hv. intros s curw curp Hw Hp. rewrite st_bind_lift, Hv. by apply (appends_bind _ _ _ _ _ _ (appends_value v' Hok) IH).
Qed.

Lemma mapped_length valueMapper i vs vs' : mapped_values valueMapper i vs vs' -> length vs = length vs'.
Proof. induction 1; cbn; congruence. Qed.

Lemma builds_bind config values : request_ok (Bind config) values -> builds (bind config) [] [] (request_bytes (Bind config) values).
Proof.
  intros (Hpo & Hst & Hvs). unfold bind. rewrite (mapped_length _ _ _ _ Hvs). cbn [request_bytes]. unfold bind_body.
  set (n := be_bytes 2 (Z.of_nat (length values))).
  eapply (builds_step _ _ _ _ _ []); [apply appends_writer; auto with emits|].
  eapply (builds_step _ _ _ _ _ []); [apply appends_writer; auto with emits|].
  eapply builds_step; [by apply appends_values|].
  eapply (builds_step _ _ _ _ _ []); [apply appends_writer; auto with emits|].
  intros s Hw Hp Ss Sp. rewrite !app_nil_r in Hp. cbn [app] in Hp, Hw.
  assert (E : on_paramWriter (flush None) s = (mkWriters (writer s) (newWriter 256), Ok (concat (param_bytes <$> values)))).
  { unfold on_paramWriter. by rewrite (flush_plain _ _ Hp), Sp. }
  rewrite (st_bind_run _ _ _ _ _ E).
  refine (builds_step _ _ _ _ _ [] _ (appends_writer _ _ (emits_add _)) _ (mkWriters (writer s) (newWriter 256)) Hw
    (newWriter_wrote 256 ltac:(lia)) Ss eq_refl).
  eapply (builds_step _ _ _ _ _ []); [apply appends_writer; auto with emits|].
  cbn [app]. fold n. rewrite <- !app_assoc. destruct (default false _); apply builds_flush; done.
Qed.

(** One append of the builder after another. *)
Ltac append := eapply (builds_step _ _ _ _ _ []); [apply appends_writer; solve [eauto with emits]|].

Lemma text_in_js s : c_text s -> text_in s.
Proof. by intros [[[] ?] ?]. Qed.

Lemma text_in_nil : text_in [].
Proof. split; [apply Forall_nil; done|by exists 0]. Qed.

Lemma ascii_in s : forallb (fun c => (1 <=? c) && (c <=? 0x7f)) s = true -> text_in s.
Proof. intros H. by apply text_in_js, ascii_text. Qed.

(** A message without a type byte is finished by a writer of its own. *)
Lemma fresh_unframed body :
  fresh (addInt32 (byteLength body + 4) ≫= fun _ => add body ≫= fun _ => flush None) = Ok (unframed body).
Proof.
  unfold fresh. destruct (emits_int32 (byteLength body + 4) _ _ (newWriter_wrote 256 ltac:(lia))) as (w1 & E1 & H1 & _).
  destruct (emits_add body _ _ H1) as (w2 & E2 & H2 & _).
  by rewrite (st_bind_run _ _ _ _ _ E1), (st_bind_run _ _ _ _ _ E2), (flush_plain _ _ H2).
Qed.

Lemma emits_pair p : text_in p.1 /\ text_in p.2 -> emits (addCString p.1 ≫= fun _ => addCString p.2) (pair_bytes p).
Proof. intros []. apply emits_bind; auto with emits. Qed.

Lemma builds_startup opts : request_ok (Startup opts) [] -> builds (startup opts) [] [] (request_bytes (Startup opts) []).
Proof.
  intros Hopts. unfold startup. append.
  eapply (builds_step _ _ _ _ _ []); [apply (appends_forM _ pair_bytes)|].
  { eapply Forall_impl; [done|]. intros [k v] Hkv. by apply appends_writer, (emits_pair (k, v)). }
  eapply (builds_step _ _ _ _ _ []); [apply appends_writer, emits_bind; apply emits_cstring, ascii_in; reflexivity|].
  intros s Hw Hp Ss Sp. destruct (emits_cstring [] text_in_nil (writer s) _ Hw) as (w & E & Hw1 & S1).
  assert (Ef : on_writer (addCString [] ≫= fun _ => flush None) s =
    (mkWriters (newWriter 256) (paramWriter s), Ok (be_bytes 2 3 ++ be_bytes 2 0 ++ concat (pair_bytes <$> opts)
      ++ c_bytes (js "client_encoding") ++ c_bytes (js "UTF8") ++ [0]))).
  { unfold on_writer. rewrite (st_bind_run _ _ _ _ _ E), (flush_plain _ _ Hw1), S1, Ss. do 2 f_equal. by rewrite <- !app_assoc. }
  rewrite (st_bind_run _ _ _ _ _ Ef). cbv zeta. unfold st_lift. rewrite fresh_unframed.
  eexists. split; [reflexivity|]. repeat split; try done. apply newWriter_wrote. lia.
Qed.

Lemma builds_parse opts : request_ok (Parse opts) [] -> builds (parse opts) [] [] (request_bytes (Parse opts) []).
Proof.
  intros (Hn & Ht & Hl) s Hw Hp Ss Sp. unfold parse. rewrite st_bind_lift, (proj2 (Z.ltb_ge _ _)) by lia. cbn [throw_if].
  revert s Hw Hp Ss Sp. append.
  eapply (builds_step _ _ _ _ _ []); [apply (appends_forM _ (be_bytes 4)), Forall_forall; intros; apply appends_writer; auto with emits|].
  cbn [app request_bytes]. rewrite <- !app_assoc. destruct (po_types opts); apply builds_flush; done.
Qed.

Lemma execute_bytes config : request_ok (Execute config) [] -> execute config = request_bytes (Execute config) [].
Proof.
  cbn [request_ok request_bytes]. unfold execute. set (portal := default [] _). set (rows := default 0 _). intros Hp.
  destruct (bool_decide (portal = []) && (rows =? 0)) eqn:E.
  { propify. rewrite H, H0. reflexivity. }
  clear E. rewrite (text_byteLength portal Hp).
  replace (Z.to_nat (byteLength (utf8_encode portal))) with (length (utf8_encode portal)) by (unfold byteLength; lia).
  set (n := length (utf8_encode portal)). cbv zeta.
  replace (replicate (1 + (4 + n + 1 + 4)) 0) with ([] ++ replicate 1 0 ++ (replicate 4 0 ++ replicate n 0 ++ replicate 1 0 ++ replicate 4 0)).
  2:{ cbn [app]. rewrite <- !replicate_add. f_equal. lia. }
  rewrite (set_bytes_mid [] [code_execute]) by done. cbn [app]. change (code_execute :: ?x) with ([code_execute] ++ x).
  rewrite (set_bytes_mid [code_execute] (be_bytes 4 _)) by (done || by rewrite length_be_bytes).
  set (head := be_bytes 4 (Z.of_nat (4 + n + 1 + 4))). rewrite (app_assoc [code_execute] head).
  assert (Hh : length ([code_execute] ++ head) = 5%nat) by (rewrite length_app; unfold head; by rewrite length_be_bytes).
  rewrite encodeInto_all by (rewrite !length_app, !length_replicate; fold n; lia).
  rewrite (set_bytes_mid ([code_execute] ++ head) (utf8_encode portal)) by (rewrite ?length_replicate, ?Hh; done).
  rewrite (app_assoc ([code_execute] ++ head) (utf8_encode portal)). rewrite (set_bytes_mid (([code_execute] ++ head) ++ utf8_encode portal) [0])
    by first [done | rewrite (length_app ([code_execute] ++ head)), Hh; fold n; lia].
  rewrite (app_assoc (([code_execute] ++ head) ++ utf8_encode portal) [0]), <- (app_nil_r (replicate 4 0)).
  rewrite (set_bytes_mid ((([code_execute] ++ head) ++ utf8_encode portal) ++ [0]) (be_bytes 4 rows) (replicate 4 0) []).
  - unfold frameBytes, c_bytes, head. rewrite app_nil_r, <- !app_assoc. cbn [app]. do 3 f_equal.
    unfold byteLength. rewrite !length_app. cbn [length]. rewrite length_be_bytes. fold n. lia.
  - rewrite !length_app, length_replicate. cbn [length]. lia.
  - by rewrite length_be_bytes.
Qed.

Lemma text_in_letter t s : text_in s -> text_in (typeLetter t ++ s).
Proof.
  intros [Hs [n Hn]]. assert (exists c, typeLetter t = [c] /\ 0 <= c <= 0x7f) as (c & -> & Hc) by (destruct t; eexists; by split).
  split; [constructor; [unfold code_unit; lia|done]|]. exists (n + 1). unfold utf8Length in *. cbn.
  rewrite (proj2 (Z.leb_le c 0x7f)) by lia. by apply (utf8Length_from_shift s 0 n 1).
Qed.

Lemma cstring_message code s : text_in s -> 0 <= code <= 255 -> cstringMessage code s = Ok (frameBytes code (c_bytes s)).
Proof. intros Hs Hc. unfold cstringMessage. apply fresh_flush; [by apply emits_cstring|done]. Qed.

(** C38. Every request is the message the protocol defines for it. From clean shared writers, each builder returns the
    type byte, the length and the body of its request, with texts encoded in UTF-8 and bind values as their
    mapper returned them, however large they are, and leaves the writers clean for the next message. *)
Theorem serialize_exact (s : Writers) (r : Request) (values : list LegalValue) (Hs : clean s) (Hr : request_ok r values) :
  exists s', serialize r s = (s', Ok (request_bytes r values)) /\ clean s'.
Proof.
  assert (Hret : forall out : list Z, exists s', (s, @Ok WireError _ out) = (s', Ok out) /\ clean s') by (intros out; by exists s).
  destruct r; cbn [serialize request_ok] in *; try apply Hret; try (unfold st_lift).
  - apply builds_clean; [by apply builds_startup|done].
  - apply builds_clean; [|done]. by apply (builds_flushed _ _ _ []); [auto with emits|].
  - destruct Hr as [H1 H2]. apply builds_clean; [|done]. unfold sendSASLInitialResponseMessage. rewrite (text_byteLength _ H2).
    append. by apply builds_flush.
  - apply builds_clean; [|done]. by apply (builds_flushed _ _ _ []); [auto with emits|].
  - apply builds_clean; [|done]. by apply (builds_flushed _ _ _ []); [auto with emits|].
  - apply builds_clean; [by apply builds_parse|done].
  - apply builds_clean; [by apply builds_bind|done].
  - rewrite execute_bytes by done. apply Hret.
  - unfold describe. cbn [request_bytes]. destruct (default [] (pt_name msg)) as [|c name] eqn:E.
    + destruct (pt_type msg); apply Hret.
    + rewrite cstring_message by (done || by apply text_in_letter). apply Hret.
  - unfold close. rewrite cstring_message by (done || by apply text_in_letter). apply Hret.
  - apply builds_clean; [|done]. by apply (builds_flushed _ _ _ []); [auto with emits|].
  - unfold copyFail. rewrite cstring_message by done. apply Hret.
Qed.

Lemma values_throw valueMapper i vs vs' v rest e : mapped_values valueMapper i vs vs' ->
  mapped valueMapper (i + length vs) v = Throw e -> forall s curw curp, wrote (writer s) curw -> wrote (paramWriter s) curp ->
  exists s', writeValues i (vs ++ v :: rest) valueMapper s = (s', Throw e) /\ wrote (writer s') (curw ++ concat (format_of <$> vs')) /\
    size (writer s') = size (writer s).
Proof.
  induction 1 as [i|i u u' vs vs' Hu Hok _ IH]; intros Hv s curw curp Hw Hp; cbn [app writeValues].
  - rewrite Nat.add_0_r in Hv. unfold mapped in Hv. rewrite st_bind_lift, Hv. exists s. by rewrite app_nil_r.
  - unfold mapped in Hu. rewrite st_bind_lift, Hu. destruct (appends_value u' Hok s curw curp Hw Hp) as (s1 & E & Hw1 & Hp1 & S1 & _).
    rewrite (st_bind_run _ _ _ _ _ E). destruct (IH ltac:(rewrite <- Hv; f_equal; cbn; lia) s1 _ _ Hw1 Hp1) as (s2 & E2 & Hw2 & S2).
    exists s2. rewrite E2, S2. split; [done|]. split; [|done]. by rewrite <- app_assoc in Hw2.
Qed.

(** A bind whose value mapper throws spoils the next message. The error is thrown with the names and the formats
    of the values before it still in the shared writer, so the next query is sent with them in front of its text. *)
Theorem throwing_mapper_spoils_next (s : Writers) (config : BindOpts) (vs vs' rest : list LegalValue) (v : LegalValue) (e : WireError)
  (sql : jsstr) (Hs : clean s) (Hportal : text_in (default [] (bo_portal config))) (Hstatement : text_in (default [] (bo_statement config)))
  (Hvalues : default [] (bo_values config) = vs ++ v :: rest) (Hmapped : mapped_values (bo_valueMapper config) 0 vs vs')
  (Hthrow : mapped (bo_valueMapper config) (length vs) v = Throw e) (Hsql : text_in sql) :
  exists s' s'', bind config s = (s', Throw e) /\
    query sql s' = (s'', Ok (frameBytes 0x51 (c_bytes (default [] (bo_portal config)) ++ c_bytes (default [] (bo_statement config))
      ++ be_bytes 2 (Z.of_nat (length (vs ++ v :: rest))) ++ concat (format_of <$> vs') ++ c_bytes sql))).
Proof.
  destruct Hs as (Hw & Hp & Ss & Sp). unfold bind. rewrite Hvalues.
  destruct (appends_writer _ _ (emits_bind _ _ _ _ (emits_cstring _ Hportal) (emits_cstring _ Hstatement)) s [] [] Hw Hp) as (s1 & E1 & Hw1 & Hp1 & S1 & _).
  destruct (appends_writer _ _ (emits_int16 (Z.of_nat (length (vs ++ v :: rest)))) s1 _ _ Hw1 Hp1) as (s2 & E2 & Hw2 & Hp2 & S2 & _).
  destruct (values_throw _ 0 vs vs' v rest e Hmapped Hthrow s2 _ _ Hw2 Hp2) as (s3 & E3 & Hw3 & S3).
  destruct (on_writer_emits _ _ s3 _ (emits_cstring sql Hsql) Hw3) as (w & E4 & Hw4 & S4).
  exists s3. eexists. split.
  - rewrite (st_bind_run _ _ _ _ _ E1), (st_bind_run _ _ _ _ _ E2). unfold mbind at 1, ST_bind at 1. by rewrite E3.
  - unfold query. rewrite on_writer_bind, (st_bind_run _ _ _ _ _ E4). unfold on_writer. cbn [writer paramWriter].
    rewrite (flush_code _ _ code_query Hw4 ltac:(done)). do 3 f_equal. by rewrite <- !app_assoc.
Qed.

(** ** Witnesses *)

Definition example_bind : BindOpts :=
  mkBindOpts None None (Some (js "s1")) (Some [TextValue (js "7"); NullValue; BinaryValue [0; 255]]) None.

Lemma serialize_exact_witness : exists s, serialize (Bind example_bind) initial =
  (s, Ok (request_bytes (Bind example_bind) [TextValue (js "7"); NullValue; BinaryValue [0; 255]])) /\ clean s.
Proof.
  apply (serialize_exact initial (Bind example_bind) [TextValue (js "7"); NullValue; BinaryValue [0; 255]] initial_clean).
  split; [apply text_in_nil|]. split; [by apply ascii_in|]. repeat (apply mapped_cons; [reflexivity|cbn [param_ok]; first [exact I | by apply ascii_in]|]); apply mapped_nil.
Defined.

(** A mapper that refuses NULL. *)
Definition refuse_null : ValueMapper := fun v i => match v with NullValue => Throw (Thrown 2) | _ => Ok v end.

Lemma throwing_mapper_spoils_next_witness : exists s' s'',
  bind (mkBindOpts None None (Some (js "s1")) (Some [TextValue (js "7"); NullValue]) (Some refuse_null)) initial = (s', Throw (Thrown 2)) /\
  query (js "ROLLBACK") s' = (s'', Ok (frameBytes 0x51 (c_bytes [] ++ c_bytes (js "s1") ++ be_bytes 2 2 ++ be_bytes 2 0 ++ c_bytes (js "ROLLBACK")))).
Proof.
  apply (throwing_mapper_spoils_next initial
    (mkBindOpts None None (Some (js "s1")) (Some [TextValue (js "7"); NullValue]) (Some refuse_null))
    [TextValue (js "7")] [TextValue (js "7")] [] NullValue (Thrown 2) (js "ROLLBACK") initial_clean text_in_nil);
    [by apply ascii_in|reflexivity| |reflexivity|by apply ascii_in].
  repeat (apply mapped_cons; [reflexivity|cbn [param_ok]; first [exact I | by apply ascii_in]|]); apply mapped_nil.
Defined.
