(* ===== verification/SyncFold.v ===== *)
(** * Sync client: folding a batch of changes

    [foldChangeBatch] of client/src/sync/fold.ts, and the per-row apply it must agree with
    ([applyMessageToTable] of client/src/sync/apply.ts). A row is a finite map from column names to
    cells of an abstract type; a table is seen through its rows by primary key. *)

From S2P Require Export Paths JsMap.

Section Fold.
Context {V : Type}.

(** ** The changes *)

Abbreviation SyncRow := (gmap jsstr V).

Inductive SyncOperation : Type := upsert | delete_.

#[global] Instance SyncOperation_eq_dec : EqDecision SyncOperation.
Proof. solve_decision. Defined.

Record SyncChange : Type := mkChange {
  ch_key : jsstr; ch_value : SyncRow; ch_operation : SyncOperation; ch_headers : gmap jsstr V }.

Record FoldedShapeBatch : Type := mkFolded { deletes : list SyncChange; upserts : list SyncChange }.

Definition withValue (template : SyncChange) (value : SyncRow) : SyncChange :=
  mkChange (ch_key template) value upsert (ch_headers template).

(** [Object.assign({}, ...values)]: a later value wins. *)
Definition mergeValues (segment : list SyncChange) : SyncRow :=
  foldl (fun merged message => ch_value message ∪ merged) ∅ segment.

(** ** The fold *)

(** [ops.findLastIndex(message => operation is delete)], -1 when there is none. *)
Fixpoint lastDeleteIndex_from (i last : Z) (ops : list SyncChange) : Z :=
  match ops with
  | [] => last
  | message :: ops =>
      lastDeleteIndex_from (i + 1) (if decide (ch_operation message = delete_) then i else last) ops
  end.
Definition lastDeleteIndex (ops : list SyncChange) : Z := lastDeleteIndex_from 0 (-1) ops.

Definition at_index (ops : list SyncChange) (i : Z) : list SyncChange := option_list (ops !! Z.to_nat i).

Definition foldKey (ops : list SyncChange) (folded : FoldedShapeBatch) : FoldedShapeBatch :=
  let i := lastDeleteIndex ops in
  if i =? Z.of_nat (length ops) - 1 then mkFolded (deletes folded ++ at_index ops i) (upserts folded)
  else
    let segment := drop (Z.to_nat (i + 1)) ops in
    let deletes := if 0 <=? i then deletes folded ++ at_index ops i else deletes folded in
    match last segment with
    | Some template => mkFolded deletes (upserts folded ++ [withValue template (mergeValues segment)])
    | None => mkFolded deletes (upserts folded)
    end.

Definition groupByKey (messages : list SyncChange) : list (jsstr * list SyncChange) :=
  foldl (fun groups message =>
    JsMap.set groups (ch_key message) (default [] (JsMap.get groups (ch_key message)) ++ [message])) [] messages.

Definition foldChangeBatch (messages : list SyncChange) : FoldedShapeBatch :=
  foldl (fun folded ops => foldKey ops.2 folded) (mkFolded [] []) (groupByKey messages).

End Fold.
Arguments SyncChange : clear implicits.
Arguments FoldedShapeBatch : clear implicits.
