(* ===== verification/SyncApply.v ===== *)
(** * Sync client: applying changes to the local database

    The appliers of client/src/sync/apply.ts. The database is not part of the sources: it is the class
    [Database] of the statements the appliers send, and [LawfulDatabase] states what the statements do to the
    rows of a table, as SQL defines them. *)

From S2P Require Export SyncFold.

(** ** The statements *)

Inductive SyncError : Type :=
| ColumnError            (* a column the local table does not have, or a key the stream cannot address *)
| MixedColumns           (* a batch that mixes column sets *)
| NoPrimaryKey
| KeyError               (* a stream key that does not decode *)
| NoRowBody
| JsonError
| StatementError         (* the database refused a statement *)
| ResidueError           (* a custom clear left rows *)
| SharedClearError.      (* shapes that share a table without clearing their own rows *)

#[global] Instance SyncError_eq_dec : EqDecision SyncError.
Proof. solve_decision. Defined.

Section Statements.
Context {V : Type}.

Abbreviation SyncRow := (gmap jsstr V).

(** A row's primary key: its cells in the key columns. *)
Definition keyOf (primaryKey : list jsstr) (row : SyncRow) : list (option V) :=
  (fun column => row !! column) <$> primaryKey.
End Statements.

(** What a shape has read of its stream, as the subscriptions table keeps it (client/src/sync/subscription-state.ts). *)
Section Subscriptions.
Context {V : Type}.

Record ShapeSubscriptionState : Type := mkShapeState {
  sss_handle : jsstr; sss_offset : jsstr; sss_shapeKey : jsstr; sss_scope : option (list V) }.

Record SubscriptionRow : Type := mkSubscription {
  sub_key : jsstr; sub_shape_metadata : gmap jsstr ShapeSubscriptionState; sub_last_lsn : Z }.
End Subscriptions.
Arguments ShapeSubscriptionState : clear implicits.
Arguments SubscriptionRow : clear implicits.

(** What a database [D] holds: the row of a table with a primary key, and the rows of a subscriptions table. *)
Class Database (V D : Type) : Type := {
  db_row : D -> jsstr -> list jsstr -> list (option V) -> option (gmap jsstr V);
  db_subscriptions : D -> jsstr -> jsstr -> list (SubscriptionRow V) }.

(** The statements one attempt of a transaction sends; each names its table first. *)
Record Statements (V D : Type) : Type := mkStatements {
  q_upsert : jsstr -> list jsstr -> list (gmap jsstr V) -> D -> result SyncError D;
      (* INSERT ... ON CONFLICT (key) DO UPDATE, or DO NOTHING for a table of key columns *)
  q_insert : jsstr -> list jsstr -> list (gmap jsstr V) -> D -> result SyncError D;
      (* INSERT and COPY, which refuse a key that exists *)
  q_delete : jsstr -> list jsstr -> list (gmap jsstr V) -> D -> result SyncError D;
      (* DELETE of the rows with the keys of these rows *)
  q_truncate : jsstr -> D -> result SyncError D;
  q_hasRows : jsstr -> D -> result SyncError bool;
      (* SELECT 1 ... LIMIT 1 *)
  q_persist : jsstr -> SubscriptionRow V -> D -> result SyncError D;
      (* INSERT ... ON CONFLICT (key) DO UPDATE of a subscription *)
  q_subscriptions : jsstr -> jsstr -> D -> result SyncError (list (SubscriptionRow V)) }.
Arguments q_upsert {V D}. Arguments q_insert {V D}. Arguments q_delete {V D}. Arguments q_truncate {V D}. Arguments q_hasRows {V D}.
Arguments q_persist {V D}. Arguments q_subscriptions {V D}.

Section Appliers.
Context {V D : Type} (q : Statements V D).

Abbreviation SyncRow := (gmap jsstr V).

(** What [resolveApplyTarget] resolved once per shape; [columns] are the columns of the local table. *)
Record ApplyTarget : Type := mkTarget {
  at_table : jsstr; at_columns : list jsstr; at_primaryKey : list jsstr; at_serverPrimaryKey : list jsstr;
  at_droppedKeyColumns : list jsstr; at_upsertMode : bool; at_columnTypes : list (jsstr * jsstr); at_jsonColumns : list jsstr }.

Definition toDriverRow (target : ApplyTarget) (data : SyncRow) : result SyncError SyncRow :=
  throw_if (negb (bool_decide (Forall (fun name => name ∈ at_columns target) (elements (dom data))))) ColumnError ≫= fun _ => Ok data.

(** The local table has each of these columns. *)
Definition targetColumns (target : ApplyTarget) (names : list jsstr) : result SyncError unit :=
  throw_if (negb (bool_decide (Forall (fun name => name ∈ at_columns target) names))) ColumnError.

(** Every row carries the columns of the first. *)
Definition assertUniformColumnSet (columns : gset jsstr) (rows : list SyncRow) : result SyncError unit :=
  throw_if (negb (bool_decide (Forall (fun row => dom row = columns) rows))) MixedColumns.

(** [for (let i = 0; i < rows.length; i += size) statement(rows.slice(i, i + size))] *)
Fixpoint inBatches {S} (fuel : nat) (size : Z) (statement : list SyncRow -> S -> result SyncError S) (rows : list SyncRow) (s : S) : result SyncError S :=
  match fuel, rows with
  | S fuel, _ :: _ => s ← statement (take (Z.to_nat size) rows) s; inBatches fuel size statement (drop (Z.to_nat size) rows) s
  | _, _ => Ok s
  end.
Definition batched {S} (size : Z) (statement : list SyncRow -> S -> result SyncError S) (rows : list SyncRow) (s : S) : result SyncError S :=
  inBatches (length rows) size statement rows s.

Definition MAX_INSERT_PARAMS : Z := 32000.
Definition JSON_RECORDSET_BATCH : Z := 10000.

(** One change, as the stream states it. *)
Definition applyMessageToTable (target : ApplyTarget) (message : SyncChange V) (d : D) : result SyncError D :=
  match ch_operation message with
  | upsert =>
      row ← toDriverRow target (ch_value message);
      targetColumns target (at_primaryKey target) ≫= fun _ =>
      q_upsert q (at_table target) (at_primaryKey target) [row] d
  | delete_ =>
      targetColumns target (at_primaryKey target) ≫= fun _ =>
      q_delete q (at_table target) (at_primaryKey target) [ch_value message] d
  end.

Definition applyUpsertsToTable (target : ApplyTarget) (messages : list (SyncChange V)) (d : D) : result SyncError D :=
  throw_if (bool_decide (at_primaryKey target = [])) NoPrimaryKey ≫= fun _ =>
  let data := ch_value <$> messages in
  match data with
  | [] => Ok d
  | firstRow :: _ =>
      let columns := dom firstRow in
      assertUniformColumnSet columns data ≫= fun _ =>
      targetColumns target (at_primaryKey target) ≫= fun _ =>
      let perRow := Z.of_nat (size columns) in
      let rowsPerBatch := if perRow =? 0 then Z.of_nat (length data) else Z.max 1 (MAX_INSERT_PARAMS / perRow) in
      batched rowsPerBatch (fun batch d =>
        rows ← mapR (toDriverRow target) batch;
        q_upsert q (at_table target) (at_primaryKey target) rows d) data d
  end.

(** [applyInsertsToTable]: a statement is sent when the next row would pass a limit; [getRowSize] measures a row. *)
Definition MAX_INSERT_BYTES : Z := 50 * 1024 * 1024.

Fixpoint insertBatches (getRowSize : SyncRow -> Z) (target : ApplyTarget) (rowParams : Z) (data currentBatch : list SyncRow)
    (currentBatchSize currentBatchParams : Z) (d : D) : result SyncError D :=
  match data with
  | [] => if bool_decide (currentBatch = []) then Ok d else q_insert q (at_table target) (at_primaryKey target) currentBatch d
  | row :: data =>
      let rowSize := getRowSize row in
      if negb (bool_decide (currentBatch = [])) &&
         ((MAX_INSERT_BYTES <? currentBatchSize + rowSize) || (MAX_INSERT_PARAMS <? currentBatchParams + rowParams)) then
        d ← q_insert q (at_table target) (at_primaryKey target) currentBatch d;
        insertBatches getRowSize target rowParams data [row] rowSize rowParams d
      else insertBatches getRowSize target rowParams data (currentBatch ++ [row]) (currentBatchSize + rowSize) (currentBatchParams + rowParams) d
  end.

Definition applyInsertsToTable (getRowSize : SyncRow -> Z) (target : ApplyTarget) (messages : list (SyncChange V)) (d : D) : result SyncError D :=
  let data := ch_value <$> messages in
  match data with
  | [] => Ok d
  | firstRow :: _ =>
      assertUniformColumnSet (dom firstRow) data ≫= fun _ =>
      insertBatches getRowSize target (Z.of_nat (size (dom firstRow))) data [] 0 0 d
  end.

(** The columns of the first row that the model types. *)
Definition jsonRecordsetColumns (target : ApplyTarget) (firstRow : SyncRow) : gset jsstr :=
  list_to_set (filter (fun name => name ∈ dom firstRow) (fst <$> at_columnTypes target)).

Definition applyMessagesToTableWithJsonImpl (conflict : bool) (target : ApplyTarget) (messages : list (SyncChange V)) (d : D) : result SyncError D :=
  let data := ch_value <$> messages in
  match data with
  | [] => Ok d
  | firstRow :: _ =>
      assertUniformColumnSet (jsonRecordsetColumns target firstRow) data ≫= fun _ =>
      batched JSON_RECORDSET_BATCH
        (if conflict then q_upsert q (at_table target) (at_primaryKey target) else q_insert q (at_table target) (at_primaryKey target)) data d
  end.

Definition applyMessagesToTableWithJson : ApplyTarget -> list (SyncChange V) -> D -> result SyncError D :=
  applyMessagesToTableWithJsonImpl false.
Definition applyUpsertsToTableWithJson : ApplyTarget -> list (SyncChange V) -> D -> result SyncError D :=
  applyMessagesToTableWithJsonImpl true.

Definition applyMessagesToTableWithCopy (target : ApplyTarget) (messages : list (SyncChange V)) (d : D) : result SyncError D :=
  let data := ch_value <$> messages in
  match data with
  | [] => Ok d
  | firstRow :: _ =>
      assertUniformColumnSet (dom firstRow) data ≫= fun _ =>
      q_insert q (at_table target) (at_primaryKey target) data d
  end.

(** [Object.fromEntries(primaryKey.map((column) => [column, data[column]]))]; a column without a cell is
    undefined, which the statement receives as NULL. *)
Definition projectKey (primaryKey : list jsstr) (data : SyncRow) : SyncRow :=
  filter (fun cell => cell.1 ∈ primaryKey) data.

Definition applyBulkDeletesToTable (target : ApplyTarget) (messages : list (SyncChange V)) (d : D) : result SyncError D :=
  throw_if (bool_decide (at_primaryKey target = [])) NoPrimaryKey ≫= fun _ =>
  match messages with
  | [] => Ok d
  | _ =>
      let rows := (projectKey (at_primaryKey target) ∘ ch_value) <$> messages in
      throw_if (negb (bool_decide (Forall (fun column => column ∈ (at_columnTypes target).*1) (at_primaryKey target)))) ColumnError ≫= fun _ =>
      batched JSON_RECORDSET_BATCH (q_delete q (at_table target) (at_primaryKey target)) rows d
  end.

End Appliers.

(** ** What the statements do to the rows *)

Section Laws.
Context {V D : Type} `{EqDecision V} {db : Database V D}.

(** The row of a statement with a key. *)
Definition row_with (primaryKey : list jsstr) (k : list (option V)) (rows : list (gmap jsstr V)) : option (gmap jsstr V) :=
  list_find (fun row => keyOf primaryKey row = k) rows ≫= fun found => Some found.2.

(** Only the rows of a table change. *)
Definition only_table (tb : jsstr) (d d' : D) : Prop :=
  (forall other pk (k : list (option V)), other <> tb -> db_row d' other pk k = db_row d other pk k) /\
  (forall meta key, db_subscriptions d' meta key = db_subscriptions d meta key).

(** The statements, as SQL defines them, where they succeed; [defaults] fills the columns a new row does not name. *)
Class LawfulStatements (defaults : jsstr -> gmap jsstr V) (q : Statements V D) : Prop := {
  q_upsert_rows tb pk rows d d' : q_upsert q tb pk rows d = Ok d' -> NoDup (keyOf pk <$> rows) -> forall k,
    db_row d' tb pk k =
      match row_with pk k rows with
      | Some row => Some (row ∪ default (defaults tb) (db_row d tb pk k))
      | None => db_row d tb pk k
      end;
  q_upsert_only tb pk rows d d' : q_upsert q tb pk rows d = Ok d' -> only_table tb d d';
  q_insert_rows tb pk rows d d' : q_insert q tb pk rows d = Ok d' -> NoDup (keyOf pk <$> rows) -> forall k,
    db_row d' tb pk k =
      match row_with pk k rows with
      | Some row => Some (row ∪ defaults tb)
      | None => db_row d tb pk k
      end;
  q_insert_fresh tb pk rows d d' row : q_insert q tb pk rows d = Ok d' -> row ∈ rows -> db_row d tb pk (keyOf pk row) = None;
  q_insert_only tb pk rows d d' : q_insert q tb pk rows d = Ok d' -> only_table tb d d';
  q_delete_rows tb pk rows d d' : q_delete q tb pk rows d = Ok d' -> forall k,
    db_row d' tb pk k = match row_with pk k rows with Some _ => None | None => db_row d tb pk k end;
  q_delete_only tb pk rows d d' : q_delete q tb pk rows d = Ok d' -> only_table tb d d';
  q_truncate_rows tb d d' : q_truncate q tb d = Ok d' -> forall pk k, db_row d' tb pk k = None;
  q_truncate_only tb d d' : q_truncate q tb d = Ok d' -> only_table tb d d';
  q_hasRows_false tb d : q_hasRows q tb d = Ok false -> forall pk k, db_row d tb pk k = None;
  q_persist_rows meta sub d d' : q_persist q meta sub d = Ok d' -> forall tb pk k, db_row d' tb pk k = db_row d tb pk k;
  q_persist_read meta sub d d' : q_persist q meta sub d = Ok d' -> db_subscriptions d' meta (sub_key sub) = [sub];
  q_subscriptions_read meta key d rows : q_subscriptions q meta key d = Ok rows -> rows = db_subscriptions d meta key }.
End Laws.
