(* ===== verification/SyncViews.v ===== *)
(** * Sync client: the fold agrees with the stream

    Per key, the fold keeps the last deletion and the merge of what follows it; so deleting, then upserting the
    folded batch has the effect of the changes one by one. *)

From S2P Require Export SyncApply.

Section FoldLaws.
Context {V : Type}.

Abbreviation SyncRow := (gmap jsstr V).
Abbreviation Change := (SyncChange V).

(** ** Groups *)

Definition of_key (k : jsstr) (messages : list Change) : list Change := filter (fun m : Change => ch_key m = k) messages.

Lemma groupByKey_app (messages : list Change) (m : Change) : groupByKey (messages ++ [m]) =
  JsMap.set (groupByKey messages) (ch_key m) (default [] (JsMap.get (groupByKey messages) (ch_key m)) ++ [m]).
Proof. unfold groupByKey. by rewrite foldl_app. Qed.

Lemma groupByKey_spec (messages : list Change) : JsMap.wf (groupByKey messages) /\
  forall k, JsMap.get (groupByKey messages) k = match of_key k messages with [] => None | ops => Some ops end.
Proof.
  induction messages as [|m messages [Hw Hg]] using rev_ind; [by split; [apply NoDup_nil|]|].
  rewrite groupByKey_app. split; [by apply JsMap.wf_set|]. intros k. unfold of_key in *. rewrite filter_app, filter_cons, filter_nil.
  destruct (decide (ch_key m = k)) as [<-|Hk].
  - rewrite JsMap.get_set_eq, Hg. by destruct (filter _ messages).
  - rewrite JsMap.get_set_ne by done. rewrite app_nil_r. apply Hg.
Qed.

(** ** One key *)

Definition has_delete (ops : list Change) : bool := existsb (fun m : Change => bool_decide (ch_operation m = delete_)) ops.

(** The operations of a key: those up to the last deletion, and the upserts after it. *)
Lemma split_last_delete (ops : list Change) :
  (has_delete ops = false /\ Forall (fun m : Change => ch_operation m = upsert) ops) \/
  (exists before d after, ops = before ++ d :: after /\ ch_operation d = delete_ /\ Forall (fun m : Change => ch_operation m = upsert) after).
Proof.
  induction ops as [|m ops IH]; [by left|]. destruct IH as [[Hn Ha]|(before & d & after & -> & Hd & Ha)].
  - destruct (ch_operation m) eqn:E.
    + left. cbn. rewrite E. by split; [|constructor].
    + right. by exists [], m, ops.
  - right. by exists (m :: before), d, after.
Qed.

Lemma lastDeleteIndex_from_app i l (a b : list Change) : lastDeleteIndex_from i l (a ++ b) = lastDeleteIndex_from (i + Z.of_nat (length a)) (lastDeleteIndex_from i l a) b.
Proof.
  revert i l. induction a as [|m a IH]; intros i l; cbn [app lastDeleteIndex_from length]; [by rewrite Z.add_0_r|]. rewrite IH. f_equal. lia.
Qed.

Lemma lastDeleteIndex_from_upserts i l (a : list Change) : Forall (fun m : Change => ch_operation m = upsert) a -> lastDeleteIndex_from i l a = l.
Proof. intros H. revert i l. induction H as [|m a Hm _ IH]; intros i l; cbn; [done|]. by rewrite decide_False, IH by (by rewrite Hm). Qed.

Lemma lastDeleteIndex_none (ops : list Change) : Forall (fun m : Change => ch_operation m = upsert) ops -> lastDeleteIndex ops = -1.
Proof. apply lastDeleteIndex_from_upserts. Qed.

Lemma lastDeleteIndex_split (before : list Change) (d : Change) after : ch_operation d = delete_ -> Forall (fun m : Change => ch_operation m = upsert) after ->
  lastDeleteIndex (before ++ d :: after) = Z.of_nat (length before).
Proof.
  intros Hd Ha. unfold lastDeleteIndex. rewrite lastDeleteIndex_from_app. cbn [lastDeleteIndex_from].
  rewrite decide_True by done. by rewrite lastDeleteIndex_from_upserts.
Qed.

(** What [foldKey] appends for the operations of one key. *)
Definition key_deletes (ops : list Change) : list Change := deletes (foldKey ops (mkFolded [] [])).
Definition key_upserts (ops : list Change) : list Change := upserts (foldKey ops (mkFolded [] [])).

Lemma foldKey_append (ops : list Change) folded : foldKey ops folded = mkFolded (deletes folded ++ key_deletes ops) (upserts folded ++ key_upserts ops).
Proof.
  unfold key_deletes, key_upserts, foldKey. case_match; cbn [deletes upserts]; [by rewrite app_nil_r|].
  destruct (last _); cbn [deletes upserts]; case_match; by rewrite ?app_nil_r.
Qed.

Lemma foldChangeBatch_groups (messages : list Change) :
  deletes (foldChangeBatch messages) = concat (key_deletes <$> (groupByKey messages).*2) /\
  upserts (foldChangeBatch messages) = concat (key_upserts <$> (groupByKey messages).*2).
Proof.
  unfold foldChangeBatch. enough (forall (l : list (jsstr * list Change)) (folded : FoldedShapeBatch V),
    deletes (foldl (fun folded ops => foldKey ops.2 folded) folded l) = deletes folded ++ concat (key_deletes <$> l.*2) /\
    upserts (foldl (fun folded ops => foldKey ops.2 folded) folded l) = upserts folded ++ concat (key_upserts <$> l.*2)) as H by apply (H _ (mkFolded [] [])).
  induction l as [|[k ops] l IH]; intros folded; cbn [foldl snd]; [by rewrite !app_nil_r|].
  destruct (IH (foldKey ops folded)) as [-> ->]. rewrite foldKey_append. cbn. by rewrite <- !app_assoc.
Qed.

(** The three outcomes of a key. *)
Lemma foldKey_upserts (ops : list Change) : ops <> [] -> Forall (fun m : Change => ch_operation m = upsert) ops ->
  exists template, last ops = Some template /\ key_deletes ops = [] /\ key_upserts ops = [withValue template (mergeValues ops)].
Proof.
  intros Hne Hu. destruct (last ops) as [template|] eqn:E; [|by apply last_None in E]. exists template. split; [done|].
  unfold key_deletes, key_upserts, foldKey. rewrite (lastDeleteIndex_none ops Hu).
  assert (0 < length ops)%nat by (destruct ops; [done|cbn; lia]). rewrite (proj2 (Z.eqb_neq _ _)) by lia. cbn [Z.leb Z.compare].
  replace (Z.to_nat (-1 + 1)) with O by lia. rewrite drop_0, E. done.
Qed.

Lemma foldKey_trailing (before : list Change) (d : Change) : ch_operation d = delete_ ->
  key_deletes (before ++ [d]) = [d] /\ key_upserts (before ++ [d]) = [].
Proof.
  intros Hd. unfold key_deletes, key_upserts, foldKey. rewrite (lastDeleteIndex_split before d []) by done. rewrite length_app.
  rewrite (proj2 (Z.eqb_eq _ _)) by (cbn; lia). unfold at_index. cbn [deletes upserts]. rewrite Nat2Z.id.
  by rewrite list_lookup_middle.
Qed.

Lemma foldKey_recreated (before : list Change) (d : Change) after : ch_operation d = delete_ -> after <> [] -> Forall (fun m : Change => ch_operation m = upsert) after ->
  exists template, last after = Some template /\ key_deletes (before ++ d :: after) = [d] /\
    key_upserts (before ++ d :: after) = [withValue template (mergeValues after)].
Proof.
  intros Hd Hne Ha. destruct (last after) as [template|] eqn:E; [|by apply last_None in E]. exists template. split; [done|].
  unfold key_deletes, key_upserts, foldKey. rewrite (lastDeleteIndex_split before d after) by done. rewrite length_app. cbn [length].
  assert (0 < length after)%nat by (destruct after; [done|cbn; lia]). rewrite (proj2 (Z.eqb_neq _ _)) by lia.
  rewrite (proj2 (Z.leb_le _ _)) by lia. unfold at_index. rewrite Nat2Z.id, list_lookup_middle by done.
  replace (Z.to_nat (Z.of_nat (length before) + 1)) with (length (before ++ [d])) by (rewrite length_app; cbn; lia).
  change (d :: after) with ([d] ++ after). by rewrite app_assoc, drop_app_length, E.
Qed.
End FoldLaws.

(** ** Sync client: the rows a stream stands for

    A table as a function from primary keys to rows; what changes, statements and folded batches do to it. *)

Section Views.
Context {V : Type} `{EqDecision V} (pk : list jsstr) (defaults : gmap jsstr V).

Abbreviation SyncRow := (gmap jsstr V).
Abbreviation Change := (SyncChange V).
Abbreviation View := (list (option V) -> option SyncRow).

(** ** The changes one by one *)

Definition row_after (row : option SyncRow) (m : Change) : option SyncRow :=
  match ch_operation m with
  | upsert => Some (ch_value m ∪ default defaults row)
  | delete_ => None
  end.

Definition change_key (m : Change) : list (option V) := keyOf pk (ch_value m).

Definition view_apply (view : View) (m : Change) : View := fun k => if decide (change_key m = k) then row_after (view k) m else view k.
Definition view_all (view : View) (messages : list Change) : View := foldl view_apply view messages.

Lemma view_all_at view messages k : view_all view messages k = foldl row_after (view k) (filter (fun m => change_key m = k) messages).
Proof.
  revert view. induction messages as [|m messages IH]; intros view; [done|]. cbn [view_all foldl]. rewrite filter_cons.
  change (foldl view_apply (view_apply view m) messages) with (view_all (view_apply view m) messages). rewrite IH. unfold view_apply.
  by destruct (decide (change_key m = k)).
Qed.

Lemma mergeValues_app (a : list Change) m : mergeValues (a ++ [m]) = ch_value m ∪ mergeValues a.
Proof. unfold mergeValues. by rewrite foldl_app. Qed.

Lemma rows_upserts row (ops : list Change) : ops <> [] -> Forall (fun m => ch_operation m = upsert) ops ->
  foldl row_after row ops = Some (mergeValues ops ∪ default defaults row).
Proof.
  intros Hne Hu. induction ops as [|m ops IH] using rev_ind; [done|]. apply Forall_app in Hu as [Hu Hm%Forall_inv].
  rewrite foldl_app, mergeValues_app. cbn [foldl]. unfold row_after at 1. rewrite Hm. destruct ops as [|m' ops].
  - cbn. by rewrite map_union_empty.
  - rewrite IH by done. change (default defaults (Some ?x)) with x. by rewrite map_union_assoc.
Qed.

(** ** Changes that name one row by one key *)

Definition coherent (messages : list Change) : Prop :=
  forall m m', m ∈ messages -> m' ∈ messages -> ch_key m = ch_key m' <-> change_key m = change_key m'.

Lemma keyOf_union (columns : list jsstr) (v r : SyncRow) : keyOf columns v = keyOf columns r -> keyOf columns (v ∪ r) = keyOf columns r.
Proof.
  unfold keyOf. induction columns as [|c columns IH]; [done|]. cbn. intros [= Hc Hr]. f_equal; [|by apply IH].
  rewrite lookup_union, Hc. by destruct (r !! c).
Qed.

Lemma merge_key k (ops : list Change) : ops <> [] -> Forall (fun m => change_key m = k) ops -> keyOf pk (mergeValues ops) = k.
Proof.
  intros Hne Hk. induction ops as [|m ops IH] using rev_ind; [done|]. apply Forall_app in Hk as [Hk Hm%Forall_inv].
  rewrite mergeValues_app. destruct ops as [|m' ops]; [cbn; by rewrite map_union_empty|].
  assert (Hr : keyOf pk (mergeValues (m' :: ops)) = k) by (by apply IH). rewrite keyOf_union; [done|]. by rewrite Hr.
Qed.

(** Every folded change has the key of its group. *)
Lemma group_key k (ops : list Change) : Forall (fun m => change_key m = k) ops ->
  Forall (fun m => change_key m = k) (key_deletes ops) /\ Forall (fun m => change_key m = k) (key_upserts ops).
Proof.
  intros Hk. destruct (split_last_delete ops) as [[_ Hu]|(before & d & after & -> & Hd & Ha)].
  - destruct (decide (ops = [])) as [->|Hne]; [by split|]. destruct (foldKey_upserts ops Hne Hu) as (t & _ & -> & ->).
    split; [done|]. apply Forall_singleton. by apply merge_key.
  - apply Forall_app in Hk as [_ [Hkd Hka]%Forall_cons]. destruct (decide (after = [])) as [->|Hne].
    + destruct (foldKey_trailing before d Hd) as [-> ->]. by split; [apply Forall_singleton|].
    + destruct (foldKey_recreated before d after Hd Hne Ha) as (t & _ & -> & ->).
      split; [by apply Forall_singleton|]. apply Forall_singleton. by apply merge_key.
Qed.

(** The effect of the folded operations of one key is the effect of the operations. *)
Lemma group_effect (ops : list Change) row : ops <> [] ->
  foldl row_after row ops =
    match key_upserts ops with
    | [] => None
    | m :: _ => Some (ch_value m ∪ default defaults (match key_deletes ops with [] => row | _ => None end))
    end /\ (key_upserts ops = [] -> key_deletes ops <> []) /\ (length (key_upserts ops) <= 1)%nat.
Proof.
  intros Hne. destruct (split_last_delete ops) as [[_ Hu]|(before & d & after & -> & Hd & Ha)].
  - destruct (foldKey_upserts ops Hne Hu) as (t & _ & -> & ->). split; [|split; [done|cbn; lia]]. by rewrite rows_upserts.
  - rewrite foldl_app. cbn [foldl]. assert (row_after (foldl row_after row before) d = None) as -> by (unfold row_after; by rewrite Hd).
    destruct (decide (after = [])) as [->|Hna].
    + destruct (foldKey_trailing before d Hd) as [-> ->]. by split; [|split; [|cbn; lia]].
    + destruct (foldKey_recreated before d after Hd Hna Ha) as (t & _ & -> & ->). split; [|split; [done|cbn; lia]]. by rewrite rows_upserts.
Qed.

(** ** The folded batch *)

Lemma elem_of_groups (messages : list Change) k ops : (k, ops) ∈ groupByKey messages <-> ops <> [] /\ ops = of_key k messages.
Proof.
  destruct (groupByKey_spec messages) as [Hw Hg]. rewrite (JsMap.elem_of_get _ _ _ Hw), Hg. destruct (of_key k messages); naive_solver.
Qed.

Lemma elem_of_fold (f : list Change -> list Change) (messages : list Change) x :
  x ∈ concat (f <$> (groupByKey messages).*2) <-> exists k, of_key k messages <> [] /\ x ∈ f (of_key k messages).
Proof.
  rewrite list_elem_of_In, in_concat. setoid_rewrite <- list_elem_of_In. split.
  - intros (l & (ops & -> & ([k ops'] & -> & Hin)%list_elem_of_fmap)%list_elem_of_fmap & Hx). apply elem_of_groups in Hin as [Hne ->]. by exists k.
  - intros (k & Hne & Hx). exists (f (of_key k messages)). split; [|done]. apply list_elem_of_fmap. exists (of_key k messages). split; [done|].
    apply list_elem_of_fmap. exists (k, of_key k messages). split; [done|]. by apply elem_of_groups.
Qed.

Definition view_delete (rows : list SyncRow) (view : View) : View := fun k =>
  match row_with pk k rows with Some _ => None | None => view k end.
Definition view_upsert (rows : list SyncRow) (view : View) : View := fun k =>
  match row_with pk k rows with Some row => Some (row ∪ default defaults (view k)) | None => view k end.

Lemma row_with_cons (k : list (option V)) (row : SyncRow) rows :
  row_with pk k (row :: rows) = if decide (keyOf pk row = k) then Some row else row_with pk k rows.
Proof. unfold row_with. cbn [list_find]. destruct (decide _); [done|]. by destruct (list_find _ rows) as [[? ?]|]. Qed.
Lemma row_with_Some (k : list (option V)) (rows : list SyncRow) row : row_with pk k rows = Some row -> row ∈ rows /\ keyOf pk row = k.
Proof.
  unfold row_with. destruct (list_find _ rows) as [[i r]|] eqn:E; [|done]. cbn. intros [= ->].
  apply list_find_Some in E as (Hi & Hk & _). split; [by eapply list_elem_of_lookup_2|done].
Qed.
Lemma row_with_None (k : list (option V)) (rows : list SyncRow) : row_with pk k rows = None <-> forall row, row ∈ rows -> keyOf pk row <> k.
Proof.
  unfold row_with. destruct (list_find _ rows) as [[i r]|] eqn:E; cbn.
  - split; [done|]. intros H. apply list_find_Some in E as (Hi & Hk & _). exfalso. apply (H r); [by eapply list_elem_of_lookup_2|done].
  - apply list_find_None in E. rewrite Forall_forall in E. split; [intros _; exact E|done].
Qed.

(** ** Rows in sequence *)

Lemma row_with_app (k : list (option V)) (a b : list SyncRow) :
  row_with pk k (a ++ b) = match row_with pk k a with Some row => Some row | None => row_with pk k b end.
Proof.
  induction a as [|x a IH]; [done|]. cbn [app]. rewrite !row_with_cons. by destruct (decide (keyOf pk x = k)).
Qed.

Lemma row_with_notin (k : list (option V)) (rows : list SyncRow) : k ∉ keyOf pk <$> rows -> row_with pk k rows = None.
Proof. intros Hn. apply row_with_None. intros row Hr <-. apply Hn. apply list_elem_of_fmap. by exists row. Qed.

Lemma view_delete_app (a b : list SyncRow) (view : View) k : view_delete (a ++ b) view k = view_delete b (view_delete a view) k.
Proof. unfold view_delete. rewrite row_with_app. by destruct (row_with pk k a), (row_with pk k b). Qed.

Lemma view_upsert_app (a b : list SyncRow) (view : View) k : NoDup (keyOf pk <$> a ++ b) ->
  view_upsert (a ++ b) view k = view_upsert b (view_upsert a view) k.
Proof.
  intros Hd. rewrite fmap_app in Hd. apply NoDup_app in Hd as (_ & Hd & _). unfold view_upsert. rewrite row_with_app.
  destruct (row_with pk k a) as [row|] eqn:E; [|done]. apply row_with_Some in E as [Hr Hk].
  rewrite row_with_notin; [done|]. apply Hd. apply list_elem_of_fmap. by exists row.
Qed.

(** ** The whole batch *)

Section Batch.
Context (messages : list Change) (Hcoh : coherent messages).

Lemma of_key_elem k m : m ∈ of_key k messages <-> m ∈ messages /\ ch_key m = k.
Proof. unfold of_key. rewrite list_elem_of_filter. naive_solver. Qed.

(** The operations of a stream key are those of the row it names. *)
Lemma of_key_rows m : m ∈ messages -> of_key (ch_key m) messages = filter (fun m' => change_key m' = change_key m) messages.
Proof. intros Hm. unfold of_key. apply list_filter_ext. intros m' Hm'. by apply Hcoh. Qed.

Lemma of_key_group k : of_key k messages <> [] -> exists m, m ∈ messages /\ ch_key m = k /\ Forall (fun m' => change_key m' = change_key m) (of_key k messages).
Proof.
  intros Hne. destruct (of_key k messages) as [|m l] eqn:E; [done|]. exists m.
  assert (Hm : m ∈ of_key k messages) by (rewrite E; set_solver). apply of_key_elem in Hm as [Hm Hk]. split; [done|]. split; [done|].
  rewrite <- E, <- Hk, (of_key_rows m Hm). apply Forall_forall. intros m' [Hm' _]%list_elem_of_filter. done.
Qed.

(** A folded change belongs to the group of its row. *)
Lemma fold_origin (f : list Change -> list Change) x : f = key_deletes \/ f = key_upserts ->
  x ∈ concat (f <$> (groupByKey messages).*2) -> exists m, m ∈ messages /\ change_key m = change_key x /\ x ∈ f (of_key (ch_key m) messages).
Proof.
  intros Hf (k & Hne & Hx)%elem_of_fold. destruct (of_key_group k Hne) as (m & Hm & <- & Hg). exists m. split; [done|]. split; [|done].
  apply group_key in Hg as [Hd Hu]. symmetry. destruct Hf as [-> | ->]; [by eapply (Forall_forall _ _) in Hd|by eapply (Forall_forall _ _) in Hu].
Qed.

(** The folded changes of a row. *)
Lemma folded_row (f : list Change -> list Change) m : f = key_deletes \/ f = key_upserts -> m ∈ messages ->
  (forall ops, (length (f ops) <= 1)%nat) ->
  row_with pk (change_key m) (ch_value <$> concat (f <$> (groupByKey messages).*2)) = ch_value <$> head (f (of_key (ch_key m) messages)).
Proof.
  intros Hf Hm Hone. set (rows := ch_value <$> _).
  assert (Hin : forall row, row ∈ rows -> keyOf pk row = change_key m -> exists x, x ∈ f (of_key (ch_key m) messages) /\ row = ch_value x).
  { intros row (x & -> & Hx)%list_elem_of_fmap Hk. destruct (fold_origin f x Hf Hx) as (m' & Hm' & Hk' & Hx').
    exists x. split; [|done]. replace (ch_key m) with (ch_key m'); [done|]. apply Hcoh; [done|done|]. by rewrite Hk'. }
  destruct (f (of_key (ch_key m) messages)) as [|x l] eqn:E; cbn.
  - apply row_with_None. intros row Hr Hk. destruct (Hin row Hr Hk) as (x & Hx & _). set_solver.
  - assert (l = []) as -> by (specialize (Hone (of_key (ch_key m) messages)); rewrite E in Hone; cbn in Hone; destruct l; [done|cbn in Hone; lia]).
    assert (Hne : of_key (ch_key m) messages <> []).
    { intros H0. assert (m ∈ of_key (ch_key m) messages) as H1 by (by apply of_key_elem). rewrite H0 in H1. set_solver. }
    assert (Hx : ch_value x ∈ rows). { apply list_elem_of_fmap. exists x. split; [done|]. apply elem_of_fold. exists (ch_key m). split; [done|]. rewrite E. set_solver. }
    assert (Hkx : keyOf pk (ch_value x) = change_key m).
    { destruct (of_key_group _ Hne) as (m' & Hm' & Hkk & Hg). apply group_key in Hg as [Hd Hu].
      change (change_key x = change_key m). assert (change_key x = change_key m') as -> by (destruct Hf as [-> | ->]; rewrite E in *; [by apply Forall_inv in Hd|by apply Forall_inv in Hu]).
      by apply Hcoh. }
    destruct (row_with pk (change_key m) rows) as [row|] eqn:Er.
    + apply row_with_Some in Er as [Hr Hk]. destruct (Hin row Hr Hk) as (y & Hy & ->). rewrite ?E in Hy. by apply list_elem_of_singleton in Hy as ->.
    + exfalso. by apply (proj1 (row_with_None _ _) Er (ch_value x)).
Qed.

Lemma one_delete ops : (length (@key_deletes V ops) <= 1)%nat.
Proof.
  destruct (decide (ops = [])) as [->|Hne]; [apply Nat.le_0_l|]. destruct (split_last_delete ops) as [[_ Hu]|(before & d & after & -> & Hd & Ha)].
  - destruct (foldKey_upserts ops Hne Hu) as (t & _ & -> & _). cbn. lia.
  - destruct (decide (after = [])) as [->|Hna]; [destruct (foldKey_trailing before d Hd) as [-> _]; cbn; lia|].
    destruct (foldKey_recreated before d after Hd Hna Ha) as (t & _ & -> & _). cbn. lia.
Qed.
Lemma one_upsert ops : (length (@key_upserts V ops) <= 1)%nat.
Proof. destruct (decide (ops = [])) as [->|Hne]; [apply Nat.le_0_l|]. by apply (group_effect ops None Hne). Qed.

(** An upsert of a key has that key. *)
Lemma upsert_of_key k (ops : list Change) x : Forall (fun m => ch_key m = k) ops -> x ∈ key_upserts ops -> ch_operation x = upsert /\ ch_key x = k.
Proof.
  intros Hk Hx. destruct (decide (ops = [])) as [->|Hne]; [cbn in Hx; set_solver|]. destruct (split_last_delete ops) as [[_ Hu]|(before & d & after & -> & Hd & Ha)].
  - destruct (foldKey_upserts ops Hne Hu) as (t & Ht & _ & E). rewrite E in Hx. apply list_elem_of_singleton in Hx as ->. split; [done|].
    rewrite Forall_forall in Hk. apply (Hk t). by apply last_Some_elem_of in Ht.
  - destruct (decide (after = [])) as [->|Hna]; [destruct (foldKey_trailing before d Hd) as [_ E]; rewrite E in Hx; set_solver|].
    destruct (foldKey_recreated before d after Hd Hna Ha) as (t & Ht & _ & E). rewrite E in Hx. apply list_elem_of_singleton in Hx as ->. split; [done|].
    rewrite Forall_forall in Hk. apply (Hk t). apply last_Some_elem_of in Ht. set_solver.
Qed.

Theorem fold_view view k :
  view_upsert (ch_value <$> upserts (foldChangeBatch messages)) (view_delete (ch_value <$> deletes (foldChangeBatch messages)) view) k =
  view_all view messages k.
Proof.
  destruct (foldChangeBatch_groups messages) as [-> ->]. rewrite view_all_at. unfold view_upsert, view_delete.
  destruct (decide (Forall (fun m => change_key m <> k) messages)) as [Hno|Hyes].
  - replace (filter _ messages) with (@nil Change).
    2:{ symmetry. clear -Hno. induction Hno as [|m l Hm _ IH]; [done|]. by rewrite filter_cons_False. }
    assert (Hn : forall f, f = key_deletes \/ f = key_upserts -> row_with pk k (ch_value <$> concat (f <$> (groupByKey messages).*2)) = None).
    { intros f Hf. apply row_with_None. intros row (x & -> & Hx)%list_elem_of_fmap Hk. destruct (fold_origin f x Hf Hx) as (m & Hm & Hkm & _).
      rewrite Forall_forall in Hno. apply (Hno m Hm). by rewrite Hkm. }
    rewrite !Hn by auto. done.
  - apply not_Forall_Exists in Hyes; [|apply _]. apply Exists_exists in Hyes as (m & Hm & Hk). apply dec_stable in Hk. subst k.
    rewrite (folded_row key_upserts m), (folded_row key_deletes m) by (auto using one_delete, one_upsert).
    rewrite <- (of_key_rows m Hm). assert (Hne : of_key (ch_key m) messages <> []).
    { intros H0. assert (m ∈ of_key (ch_key m) messages) as H1 by (by apply of_key_elem). rewrite H0 in H1. set_solver. }
    destruct (group_effect (of_key (ch_key m) messages) (view (change_key m)) Hne) as (-> & Hdel & _).
    destruct (key_upserts _) as [|u us]; cbn.
    + specialize (Hdel eq_refl). by destruct (key_deletes _).
    + by destruct (key_deletes _).
Qed.
(** The upserts of a folded batch name different rows. *)
Lemma groups_distinct (G : list (jsstr * list Change)) : NoDup G.*1 -> Forall (fun g => g.2 <> [] /\ g.2 = of_key g.1 messages) G ->
  NoDup (change_key <$> concat (key_upserts <$> G.*2)).
Proof.
  induction G as [|[k ops] G IH]; intros Hn Hg; [apply NoDup_nil_2|]. apply NoDup_cons in Hn as [Hk Hn]. apply Forall_cons in Hg as [[Hne He] Hg].
  cbn in Hne, He, Hk |- *. rewrite fmap_app. apply NoDup_app. split; [|split; [|by apply IH]].
  - pose proof (one_upsert ops) as H1. destruct (key_upserts ops) as [|x [|? ?]]; cbn in H1 |- *; [apply NoDup_nil_2|apply NoDup_singleton|lia].
  - intros ck (x & -> & Hx)%list_elem_of_fmap (y & Hy & Hy')%list_elem_of_fmap. apply list_elem_of_In, in_concat in Hy' as (l & Hl & Hy').
    apply list_elem_of_In, list_elem_of_fmap in Hl as (ops' & -> & ([k' ops''] & -> & Hin)%list_elem_of_fmap). apply list_elem_of_In in Hy'.
    rewrite Forall_forall in Hg. destruct (Hg _ Hin) as [Hne' He']. cbn in Hne', He', Hy'. subst ops ops''.
    destruct (of_key_group k Hne) as (m & Hm & Hmk & Hall). destruct (of_key_group k' Hne') as (m' & Hm' & Hmk' & Hall').
    apply group_key in Hall as [_ Hu], Hall' as [_ Hu']. rewrite Forall_forall in Hu, Hu'. assert (k = k').
    { rewrite <- Hmk, <- Hmk'. apply Hcoh; [done|done|]. by rewrite <- (Hu x Hx), Hy, (Hu' y Hy'). }
    apply Hk. rewrite H. apply list_elem_of_fmap. by exists (k', of_key k' messages).
Qed.

Lemma fold_upserts_distinct : NoDup (keyOf pk <$> (ch_value <$> upserts (foldChangeBatch messages))).
Proof.
  destruct (foldChangeBatch_groups messages) as [_ ->]. rewrite <- list_fmap_compose. change (keyOf pk ∘ ch_value) with change_key.
  destruct (groupByKey_spec messages) as [Hw _]. apply groups_distinct; [done|]. apply Forall_forall. intros [k ops] Hin. by apply elem_of_groups.
Qed.

(** An upsert of a folded batch speaks for changes of its row. *)
Lemma fold_upsert_origin x : x ∈ upserts (foldChangeBatch messages) ->
  ch_operation x = upsert /\ exists m, m ∈ messages /\ ch_key m = ch_key x /\ change_key m = change_key x.
Proof.
  destruct (foldChangeBatch_groups messages) as [_ ->]. intros Hx. destruct (fold_origin key_upserts x (or_intror eq_refl) Hx) as (m & Hm & Hk & Hin).
  assert (Hall : Forall (fun m' => ch_key m' = ch_key m) (of_key (ch_key m) messages)).
  { apply Forall_forall. intros m' Hm'. cbn. exact (proj2 (proj1 (of_key_elem _ _) Hm')). }
  apply upsert_of_key with (k := ch_key m) in Hin as [Ho Hkx]; [|done]. split; [done|]. by exists m.
Qed.
End Batch.
End Views.
