(* ===== verification/SyncApplyLaws.v ===== *)
(** * Sync client: what the appliers do to a table

    Over lawful statements every applier that succeeds has the effect of one statement on all its rows, and
    leaves the other tables and the subscriptions alone; so a folded batch, deletions first, has the effect of
    its changes one by one. *)

From S2P Require Export SyncViews.

Section ApplyLaws.
Context {V D : Type} `{EqDecision V} {db : Database V D} (defaults : jsstr -> gmap jsstr V).
Context (q : Statements V D) {lawful : LawfulStatements defaults q}.

Abbreviation SyncRow := (gmap jsstr V).
Abbreviation Change := (SyncChange V).

Definition view_of (target : ApplyTarget) (d : D) : list (option V) -> option SyncRow := db_row d (at_table target) (at_primaryKey target).

(** ** One statement after another *)

Lemma only_table_refl tb d : only_table tb d d.
Proof. by split. Qed.
Lemma only_table_trans tb d1 d2 d3 : only_table tb d1 d2 -> only_table tb d2 d3 -> only_table tb d1 d3.
Proof. intros [H1 S1] [H2 S2]. split; intros; [by rewrite H2, H1|by rewrite S2, S1]. Qed.

Section Target.
Context (target : ApplyTarget).
Abbreviation tb := (at_table target).
Abbreviation pk := (at_primaryKey target).

(** A function of rows that loads them, where it succeeds. *)
Definition loads (f : list SyncRow -> D -> result SyncError D) : Prop :=
  forall rows d d', f rows d = Ok d' -> NoDup (keyOf pk <$> rows) ->
    only_table tb d d' /\ forall k, view_of target d' k = view_upsert pk (defaults tb) rows (view_of target d) k.
Definition clears (f : list SyncRow -> D -> result SyncError D) : Prop :=
  forall rows d d', f rows d = Ok d' ->
    only_table tb d d' /\ forall k, view_of target d' k = view_delete pk rows (view_of target d) k.

Lemma upsert_loads : loads (q_upsert q tb pk).
Proof.
  intros rows d d' H Hd. split; [by eapply q_upsert_only|]. intros k. unfold view_of, view_upsert. by rewrite (q_upsert_rows _ _ _ _ _ H Hd).
Qed.

Lemma insert_loads : loads (q_insert q tb pk).
Proof.
  intros rows d d' H Hd. split; [by eapply q_insert_only|]. intros k. unfold view_of, view_upsert.
  rewrite (q_insert_rows _ _ _ _ _ H Hd). destruct (row_with pk k rows) as [row|] eqn:E; [|done]. apply row_with_Some in E as [Hr <-].
  by rewrite (q_insert_fresh _ _ _ _ _ _ H Hr).
Qed.

Lemma delete_clears : clears (q_delete q tb pk).
Proof. intros rows d d' H. split; [by eapply q_delete_only|]. intros k. unfold view_of, view_delete. by rewrite (q_delete_rows _ _ _ _ _ H). Qed.

Lemma inBatches_loads f size : 1 <= size -> loads f -> forall fuel rows, (length rows <= fuel)%nat -> forall d d',
  inBatches fuel size f rows d = Ok d' -> NoDup (keyOf pk <$> rows) ->
    only_table tb d d' /\ forall k, view_of target d' k = view_upsert pk (defaults tb) rows (view_of target d) k.
Proof.
  intros Hs Hf fuel. induction fuel as [|fuel IH]; intros rows Hl d d' H Hd; destruct rows as [|r rows]; try (cbn in Hl; lia);
    try (cbn in H; injection H as <-; split; [apply only_table_refl|done]).
  cbn [inBatches] in H. destruct (f _ d) as [d1|] eqn:E1; [|done]. cbn in H.
  set (n := Z.to_nat size) in *. assert (Hn : (1 <= n)%nat) by lia.
  rewrite <- (take_drop n (r :: rows)) in Hd |- *. rewrite fmap_app in Hd. pose proof Hd as (Ha & _ & Hb)%NoDup_app. rewrite <- fmap_app in Hd.
  destruct (Hf _ _ _ E1 Ha) as [Ho1 Hv1]. destruct (IH (drop n (r :: rows))) with d1 d' as [Ho2 Hv2]; [|exact H|done|].
  - rewrite length_drop. cbn [length] in Hl |- *. lia.
  - split; [by eapply only_table_trans|]. intros k. rewrite Hv2, view_upsert_app by done. unfold view_upsert at 1 2. by rewrite Hv1.
Qed.
Lemma batched_loads f size : 1 <= size -> loads f -> loads (batched size f).
Proof. intros Hs Hf rows d d' H Hd. by eapply inBatches_loads. Qed.

Lemma inBatches_clears f size : 1 <= size -> clears f -> forall fuel rows, (length rows <= fuel)%nat -> forall d d',
  inBatches fuel size f rows d = Ok d' -> only_table tb d d' /\ forall k, view_of target d' k = view_delete pk rows (view_of target d) k.
Proof.
  intros Hs Hf fuel. induction fuel as [|fuel IH]; intros rows Hl d d' H; destruct rows as [|r rows]; try (cbn in Hl; lia);
    try (cbn in H; injection H as <-; split; [apply only_table_refl|done]).
  cbn [inBatches] in H. destruct (f _ d) as [d1|] eqn:E1; [|done]. cbn in H.
  set (n := Z.to_nat size) in *. assert (Hn : (1 <= n)%nat) by lia.
  rewrite <- (take_drop n (r :: rows)). destruct (Hf _ _ _ E1) as [Ho1 Hv1].
  destruct (IH (drop n (r :: rows))) with d1 d' as [Ho2 Hv2]; [|exact H|].
  - rewrite length_drop. cbn [length] in Hl |- *. lia.
  - split; [by eapply only_table_trans|]. intros k. rewrite Hv2, view_delete_app. unfold view_delete at 1 2. by rewrite Hv1.
Qed.
Lemma batched_clears f size : 1 <= size -> clears f -> clears (batched size f).
Proof. intros Hs Hf rows d d' H. by eapply inBatches_clears. Qed.

(** ** The appliers *)

Lemma projectKey_key (data : SyncRow) : keyOf pk (projectKey pk data) = keyOf pk data.
Proof.
  unfold keyOf. apply list_fmap_ext. intros i c Hc%list_elem_of_lookup_2. unfold projectKey.
  destruct (data !! c) as [v|] eqn:E.
  - by apply map_lookup_filter_Some.
  - apply map_lookup_filter_None. by left.
Qed.

Lemma row_with_projected (k : list (option V)) (rows : list SyncRow) : row_with pk k (projectKey pk <$> rows) = projectKey pk <$> row_with pk k rows.
Proof.
  induction rows as [|r rows IH]; [done|]. rewrite fmap_cons, !row_with_cons, projectKey_key.
  by destruct (decide (keyOf pk r = k)).
Qed.

Lemma applyBulkDeletes_clears (messages : list Change) d d' : applyBulkDeletesToTable q target messages d = Ok d' ->
  only_table tb d d' /\ forall k, view_of target d' k = view_delete pk (ch_value <$> messages) (view_of target d) k.
Proof.
  unfold applyBulkDeletesToTable. destruct (throw_if (bool_decide (pk = [])) _) as [[]|]; [|done]. cbn.
  destruct messages as [|m messages]; [intros [= <-]; split; [apply only_table_refl|done]|].
  destruct (throw_if _ _) as [[]|]; [|done]. cbn -[batched]. intros H.
  apply (batched_clears _ JSON_RECORDSET_BATCH) in H as [Ho Hv]; [|done|apply delete_clears]. split; [done|]. intros k. rewrite Hv.
  change (projectKey pk (ch_value m) :: _) with (projectKey pk ∘ ch_value <$> m :: messages).
  rewrite (list_fmap_compose ch_value (projectKey pk)). unfold view_delete. rewrite row_with_projected. by destruct (row_with pk k _).
Qed.

Lemma toDriverRow_same (row row' : SyncRow) : toDriverRow target row = Ok row' -> row' = row.
Proof. unfold toDriverRow, throw_if. case_match; [done|]. by intros [= <-]. Qed.
Lemma mapR_toDriverRow (rows rows' : list SyncRow) : mapR (toDriverRow target) rows = Ok rows' -> rows' = rows.
Proof.
  revert rows'. induction rows as [|r rows IH]; intros rows'; cbn; [by intros [= <-]|].
  destruct (toDriverRow target r) as [r'|] eqn:E; [|done]. apply toDriverRow_same in E as ->.
  cbn. destruct (mapR _ rows) as [rs|]; [|done]. cbn. intros [= <-]. by rewrite (IH rs).
Qed.

Definition applier := ApplyTarget -> list Change -> D -> result SyncError D.
Definition applier_loads (f : applier) : Prop := forall messages d d', f target messages d = Ok d' -> NoDup (keyOf pk <$> (ch_value <$> messages)) ->
  only_table tb d d' /\ forall k, view_of target d' k = view_upsert pk (defaults tb) (ch_value <$> messages) (view_of target d) k.

Lemma applyUpserts_loads : applier_loads (applyUpsertsToTable q).
Proof.
  intros messages d d'. unfold applyUpsertsToTable. destruct (throw_if (bool_decide (pk = [])) _) as [[]|]; [|done]. cbn [mbind result_bind].
  destruct (ch_value <$> messages) as [|r rows]; [intros [= <-] _; split; [apply only_table_refl|done]|].
  destruct (assertUniformColumnSet _ _) as [[]|]; [|done]. destruct (targetColumns _ _) as [[]|]; [|done]. cbn -[batched]. intros H.
  refine (batched_loads _ _ _ _ _ _ _ H).
  - case_match; [cbn; lia|]. apply Z.le_max_l.
  - intros batch e e' Hb. destruct (mapR _ batch) as [batch'|] eqn:Em; [|done]. apply mapR_toDriverRow in Em as ->. by apply upsert_loads.
Qed.

Lemma applyJson_loads conflict : applier_loads (applyMessagesToTableWithJsonImpl q conflict).
Proof.
  intros messages d d'. unfold applyMessagesToTableWithJsonImpl.
  destruct (ch_value <$> messages) as [|r rows]; [intros [= <-] _; split; [apply only_table_refl|done]|].
  destruct (assertUniformColumnSet _ _) as [[]|]; [|done]. cbn -[batched]. apply batched_loads; [done|].
  destruct conflict; [apply upsert_loads|apply insert_loads].
Qed.

Lemma applyCopy_loads : applier_loads (applyMessagesToTableWithCopy q).
Proof.
  intros messages d d'. unfold applyMessagesToTableWithCopy.
  destruct (ch_value <$> messages) as [|r rows]; [intros [= <-] _; split; [apply only_table_refl|done]|].
  destruct (assertUniformColumnSet _ _) as [[]|]; [|done]. apply insert_loads.
Qed.

Lemma insertBatches_loads getRowSize perRow data : forall batch size params d d', insertBatches q getRowSize target perRow data batch size params d = Ok d' ->
  NoDup (keyOf pk <$> batch ++ data) ->
  only_table tb d d' /\ forall k, view_of target d' k = view_upsert pk (defaults tb) (batch ++ data) (view_of target d) k.
Proof.
  induction data as [|row data IH]; intros batch size params d d' H Hd; cbn [insertBatches] in H.
  - rewrite app_nil_r in *. case_bool_decide as Hb; [subst; injection H as <-; split; [apply only_table_refl|done]|by apply insert_loads].
  - case_match.
    + destruct (q_insert _ _ _ batch d) as [d1|] eqn:E1; [|done]. cbn in H. rewrite fmap_app in Hd. pose proof Hd as (Ha & _ & Hb)%NoDup_app.
      rewrite <- fmap_app in Hd. destruct (insert_loads _ _ _ E1 Ha) as [Ho1 Hv1]. destruct (IH _ _ _ _ _ H Hb) as [Ho2 Hv2].
      split; [by eapply only_table_trans|]. intros k. rewrite Hv2, (view_upsert_app _ _ batch) by done. unfold view_upsert at 1 2. by rewrite Hv1.
    + apply IH in H; [|by rewrite <- app_assoc]. by rewrite <- app_assoc in H.
Qed.
Lemma applyInserts_loads getRowSize : applier_loads (applyInsertsToTable q getRowSize).
Proof.
  intros messages d d'. unfold applyInsertsToTable.
  destruct (ch_value <$> messages) as [|r rows]; [intros [= <-] _; split; [apply only_table_refl|done]|].
  destruct (assertUniformColumnSet _ _) as [[]|]; [|done]. cbn [mbind result_bind]. intros H Hd. by apply insertBatches_loads in H.
Qed.

(** A change on its own. *)
Lemma applyMessage_view message d d' : applyMessageToTable q target message d = Ok d' ->
  only_table tb d d' /\ forall k, view_of target d' k = view_apply pk (defaults tb) (view_of target d) message k.
Proof.
  unfold applyMessageToTable, view_apply, row_after, change_key. destruct (ch_operation message).
  - destruct (toDriverRow target _) as [r'|] eqn:E; [|done]. apply toDriverRow_same in E as ->. destruct (targetColumns _ _) as [[]|]; [|done]. cbn.
    intros H. destruct (upsert_loads _ _ _ H) as [Ho Hv]; [apply NoDup_singleton|]. split; [done|]. intros k. rewrite Hv.
    unfold view_upsert, row_with. cbn. by destruct (decide (keyOf pk (ch_value message) = k)).
  - destruct (targetColumns _ _) as [[]|]; [|done]. cbn. intros H. apply delete_clears in H as [Ho Hv]. split; [done|]. intros k. rewrite Hv.
    unfold view_delete, row_with. cbn. by destruct (decide (keyOf pk (ch_value message) = k)).
Qed.
End Target.
End ApplyLaws.

(** ** Sync client: the limits of a statement *)

Section Limits.
Context {V D : Type}.

Abbreviation SyncRow := (gmap jsstr V).

(** The parameters a statement binds, one for each cell of its rows. *)
Definition statementParams (rows : list SyncRow) : Z := foldr (fun row n => Z.of_nat (size (dom row)) + n) 0 rows.
Definition statementBytes (getRowSize : SyncRow -> Z) (rows : list SyncRow) : Z := foldr (fun row n => getRowSize row + n) 0 rows.

Definition params_ok (rows : list SyncRow) : bool := (Z.of_nat (length rows) <=? 1) || (statementParams rows <=? MAX_INSERT_PARAMS).
Definition bytes_ok (getRowSize : SyncRow -> Z) (rows : list SyncRow) : bool :=
  (Z.of_nat (length rows) <=? 1) || (statementBytes getRowSize rows <=? MAX_INSERT_BYTES).

(** Statements that refuse rows beyond a limit. *)
Definition limited (ok : list SyncRow -> bool) (q : Statements V D) : Statements V D :=
  mkStatements V D
    (fun tb pk rows d => if ok rows then q_upsert q tb pk rows d else Throw StatementError)
    (fun tb pk rows d => if ok rows then q_insert q tb pk rows d else Throw StatementError)
    (q_delete q) (q_truncate q) (q_hasRows q) (q_persist q) (q_subscriptions q).

Lemma inBatches_same {S} (f g : list SyncRow -> S -> result SyncError S) size fuel : forall rows s,
  (forall batch s, (length batch <= Z.to_nat size)%nat -> (forall row, row ∈ batch -> row ∈ rows) -> f batch s = g batch s) ->
  inBatches fuel size f rows s = inBatches fuel size g rows s.
Proof.
  induction fuel as [|fuel IH]; intros rows s H; [done|]. destruct rows as [|r rows]; [done|]. cbn [inBatches].
  rewrite H; [|rewrite length_take; lia|intros row Hr; by apply (subseteq_take (Z.to_nat size)) in Hr]. destruct (g _ s) as [s'|]; [|done]. cbn [mbind result_bind].
  apply IH. intros batch s0 Hl Hin. apply H; [done|]. intros row Hr. apply Hin in Hr; by apply (subseteq_drop (Z.to_nat size)) in Hr.
Qed.

Lemma uniform_params (columns : gset jsstr) (rows batch : list SyncRow) : assertUniformColumnSet columns rows = Ok tt -> (forall row, row ∈ batch -> row ∈ rows) ->
  statementParams batch = Z.of_nat (length batch) * Z.of_nat (size columns).
Proof.
  unfold assertUniformColumnSet, throw_if. case_bool_decide as Hu; [|done]. intros _ Hin. rewrite Forall_forall in Hu.
  induction batch as [|r batch IH]; [done|]. cbn [statementParams foldr length]. fold (statementParams batch). rewrite IH by set_solver.
  rewrite (Hu r) by set_solver. lia.
Qed.

Lemma upserts_limited (q : Statements V D) (t : ApplyTarget) (messages : list (SyncChange V)) (d : D) :
  applyUpsertsToTable (limited params_ok q) t messages d = applyUpsertsToTable q t messages d.
Proof.
  unfold applyUpsertsToTable. destruct (throw_if (bool_decide (at_primaryKey t = [])) _) as [[]|]; [|done]. cbn [mbind result_bind].
  destruct (ch_value <$> messages) as [|r rows]; [done|]. destruct (assertUniformColumnSet (dom r) (r :: rows)) as [[]|] eqn:Eu; [|done].
  destruct (targetColumns _ _) as [[]|]; [|done]. cbn [mbind result_bind]. unfold batched. apply inBatches_same. intros batch s Hl Hin.
  destruct (mapR (toDriverRow t) batch) as [rows'|] eqn:Em; [|done]. apply mapR_toDriverRow in Em as ->. cbn [mbind result_bind limited q_upsert].
  enough (params_ok batch = true) as -> by done. unfold params_ok. rewrite (uniform_params _ _ _ Eu Hin). set (perRow := Z.of_nat (size (dom r))) in *.
  apply orb_true_iff. assert (0 <= perRow) by lia. destruct (perRow =? 0) eqn:E0.
  - right. apply Z.eqb_eq in E0. rewrite E0, Z.mul_0_r. by apply Z.leb_le.
  - apply Z.eqb_neq in E0. destruct (decide (MAX_INSERT_PARAMS / perRow <= 1)).
    + left. apply Z.leb_le. lia.
    + right. apply Z.leb_le. pose proof (Z.mul_div_le MAX_INSERT_PARAMS perRow ltac:(lia)). nia.
Qed.

Lemma insertBatches_limited (q : Statements V D) (getRowSize : SyncRow -> Z) (t : ApplyTarget) (columns : gset jsstr) (data : list SyncRow) : Forall (fun row : SyncRow => dom row = columns) data ->
  let rowParams := Z.of_nat (size columns) in
  let ok := fun rows => params_ok rows && bytes_ok getRowSize rows in
  forall (batch : list SyncRow) (d : D), ok batch = true -> insertBatches (limited ok q) getRowSize t rowParams data batch (statementBytes getRowSize batch) (statementParams batch) d =
    insertBatches q getRowSize t rowParams data batch (statementBytes getRowSize batch) (statementParams batch) d.
Proof.
  intros Hu rowParams ok. induction Hu as [|row data Hrow Hu IH]; intros batch d Hok; cbn [insertBatches].
  - case_bool_decide; [done|]. cbn [limited q_insert]. by rewrite Hok.
  - assert (Hs : statementParams (batch ++ [row]) = statementParams batch + rowParams /\ statementBytes getRowSize (batch ++ [row]) = statementBytes getRowSize batch + getRowSize row).
    { clear -Hrow. subst rowParams. rewrite <- Hrow. unfold statementParams, statementBytes. induction batch as [|b batch [IH1 IH2]]; cbn [app foldr] in *; lia. }
    destruct Hs as [Hs1 Hs2]. case_match eqn:Ef.
    + cbn [limited q_insert]. rewrite Hok. destruct (q_insert q _ _ batch d) as [d1|]; [|done]. cbn [mbind result_bind].
      specialize (IH [row] d1). cbn [statementBytes statementParams foldr] in IH. rewrite !Z.add_0_r, Hrow in IH. by apply IH.
    + rewrite <- Hs1, <- Hs2. apply IH. apply andb_false_iff in Ef as [Ef|Ef].
      * apply negb_false_iff, bool_decide_eq_true in Ef as ->. done.
      * apply orb_false_iff in Ef as [E1 E2]. apply Z.ltb_ge in E1, E2. unfold ok, params_ok, bytes_ok.
        rewrite Hs1, Hs2. apply Z.leb_le in E1, E2. by rewrite E1, E2, !orb_true_r.
Qed.

Lemma inserts_limited (q : Statements V D) (getRowSize : SyncRow -> Z) (t : ApplyTarget) (messages : list (SyncChange V)) (d : D) :
  applyInsertsToTable (limited (fun rows => params_ok rows && bytes_ok getRowSize rows) q) getRowSize t messages d = applyInsertsToTable q getRowSize t messages d.
Proof.
  unfold applyInsertsToTable. destruct (ch_value <$> messages) as [|r rows]; [done|].
  destruct (assertUniformColumnSet (dom r) (r :: rows)) as [[]|] eqn:Eu; [|done]. cbn [mbind result_bind].
  unfold assertUniformColumnSet, throw_if in Eu. case_bool_decide as Hu; [|done]. by apply (insertBatches_limited q getRowSize t (dom r) (r :: rows) Hu []).
Qed.
End Limits.

(** C34. Statements stay within their limits. The upserts and the backfill inserts never send a statement of
    more than one row that binds more than 32000 parameters, and the inserts none of more than one row that
    measures more than 50 MiB: statements that refuse such rows give the same result, for every batch. *)
Theorem statements_within_limits (V D : Type) (q : Statements V D) (getRowSize : gmap jsstr V -> Z) (t : ApplyTarget) (messages : list (SyncChange V)) (d : D) :
  applyUpsertsToTable (limited params_ok q) t messages d = applyUpsertsToTable q t messages d /\
  applyInsertsToTable (limited (fun rows => params_ok rows && bytes_ok getRowSize rows) q) getRowSize t messages d = applyInsertsToTable q getRowSize t messages d.
Proof. split; [apply upserts_limited|apply inserts_limited]. Qed.
