(* ===== verification/StreamKeys.v ===== *)
(** * Sync client: stream envelopes and their keys

    [envelopeToChange] of client/src/circuits/envelope-to-change.ts: an envelope of the change stream becomes
    the change the appliers consume. A deletion carries only its key, from which the primary key is rebuilt. *)

From S2P Require Export SyncApply.

(** ** Keys *)

Definition PK_SEPARATOR : Z := 0x1f.
Definition BACKSLASH : Z := 92.

(** The loop over a component that holds a backslash; without one the result is the same. *)
Fixpoint unescapeKeyComponent (part : jsstr) : result SyncError jsstr :=
  match part with
  | [] => Ok []
  | ch :: rest =>
      if negb (ch =? BACKSLASH) then out ← unescapeKeyComponent rest; Ok (ch :: out)
      else
        match rest with
        | c1 :: rest1 =>
            if c1 =? BACKSLASH then out ← unescapeKeyComponent rest1; Ok (BACKSLASH :: out)
            else
              match rest1 with
              | c2 :: c3 :: rest3 =>
                  if (c1 =? 120) && (c2 =? 49) && (c3 =? 102) then out ← unescapeKeyComponent rest3; Ok (PK_SEPARATOR :: out)
                  else Throw KeyError
              | _ => Throw KeyError
              end
        | [] => Throw KeyError
        end
  end.

(** [key.split(separator)] *)
Fixpoint splitKey (key : jsstr) : list jsstr :=
  match key with
  | [] => [[]]
  | c :: rest =>
      if c =? PK_SEPARATOR then [] :: splitKey rest
      else match splitKey rest with part :: parts => (c :: part) :: parts | [] => [[c]] end
  end.

Section Envelopes.

(** Cells: how a key's text becomes one ([Number(raw)], a boolean, the text itself), the text of one, and
    [JSON.parse], which may refuse. *)
Context {V : Type}.
Context (numberCell : jsstr -> V) (boolCell : bool -> V) (textCell : jsstr -> V) (cellText : V -> option jsstr) (parseJson : jsstr -> option V).

Abbreviation SyncRow := (gmap jsstr V).

Definition coercePrimaryKeyValue (sqlType raw : jsstr) : V :=
  if bool_decide (sqlType ∈ [js "integer"; js "smallint"; js "serial"; js "smallserial"]) then numberCell raw
  else if bool_decide (sqlType = js "boolean") then boolCell (bool_decide (raw = js "true"))
  else textCell raw.

Definition sqlTypeOf (target : ApplyTarget) (column : jsstr) : jsstr :=
  match list_find (fun type => type.1 = column) (at_columnTypes target) with
  | Some (_, type) => type.2
  | None => js "text"
  end.

Definition keyParts (target : ApplyTarget) (key : jsstr) : result SyncError (list jsstr) :=
  parts ← (if bool_decide (length (at_serverPrimaryKey target) = 1%nat) then Ok [key] else mapR unescapeKeyComponent (splitKey key));
  throw_if (negb (bool_decide (length parts = length (at_serverPrimaryKey target)))) KeyError ≫= fun _ => Ok parts.

Definition primaryKeyFromStreamKey (target : ApplyTarget) (key : jsstr) : result SyncError SyncRow :=
  parts ← keyParts target key;
  let row : SyncRow := foldl (fun (row : SyncRow) '(column, part) =>
      if bool_decide (column ∈ at_primaryKey target) then <[column := coercePrimaryKeyValue (sqlTypeOf target column) part]> row else row)
    ∅ (zip (at_serverPrimaryKey target) parts) in
  throw_if (negb (bool_decide (Forall (fun column => is_Some (row !! column)) (at_primaryKey target)))) ColumnError ≫= fun _ => Ok row.

(** A JSON column that carries text is decoded; any other cell is left alone. *)
Definition decodeJsonColumns (target : ApplyTarget) (value : SyncRow) : result SyncError SyncRow :=
  foldM (fun decoded column =>
    match value !! column ≫= cellText with
    | Some cell => parsed ← or_throw (parseJson cell) JsonError; Ok (<[column := parsed]> decoded)
    | None => Ok decoded
    end) value (at_jsonColumns target).

Record StreamEnvelope : Type := mkEnvelope { en_key : jsstr; en_operation : SyncOperation; en_value : option SyncRow }.

Definition envelopeToChange (target : ApplyTarget) (envelope : StreamEnvelope) : result SyncError (SyncChange V) :=
  match en_operation envelope with
  | delete_ =>
      value ← primaryKeyFromStreamKey target (en_key envelope);
      Ok (mkChange (en_key envelope) value delete_ ∅)
  | upsert =>
      value ← or_throw (en_value envelope) NoRowBody;
      decoded ← decodeJsonColumns target (filter (fun cell => cell.1 ∉ at_droppedKeyColumns target) value);
      Ok (mkChange (en_key envelope) decoded upsert ∅)
  end.
End Envelopes.

(** ** Sync client: stream keys, the properties

    The decoding of a stream key is the exact inverse of the engine's encoding, and the change of an envelope has
    the columns of what it stands for. *)

(** ** The encoding *)

(** The engine's [escape_key_component], as the decoder's comment states it, and its join. *)
Definition escapeUnit (c : Z) : jsstr :=
  if c =? BACKSLASH then [BACKSLASH; BACKSLASH] else if c =? PK_SEPARATOR then [BACKSLASH; 120; 49; 102] else [c].
Definition escapeKeyComponent (part : jsstr) : jsstr := concat (escapeUnit <$> part).

Fixpoint joinKey (parts : list jsstr) : jsstr :=
  match parts with
  | [] => []
  | [part] => part
  | part :: parts => part ++ PK_SEPARATOR :: joinKey parts
  end.

Lemma escape_no_separator part : PK_SEPARATOR ∉ escapeKeyComponent part.
Proof.
  unfold escapeKeyComponent. induction part as [|c part IH]; [cbn; set_solver|]. cbn. intros [H|H]%elem_of_app; [|done].
  unfold escapeUnit in H. destruct (c =? BACKSLASH) eqn:E1; [by repeat (apply elem_of_cons in H as [H|H]; [discriminate H|]); apply not_elem_of_nil in H|].
  destruct (c =? PK_SEPARATOR) eqn:E2; [by repeat (apply elem_of_cons in H as [H|H]; [discriminate H|]); apply not_elem_of_nil in H|].
  apply list_elem_of_singleton in H. by rewrite <- H, Z.eqb_refl in E2.
Qed.

Lemma escape_nonempty c : escapeUnit c <> [].
Proof. unfold escapeUnit. by repeat case_match. Qed.

Lemma unescape_escape part : unescapeKeyComponent (escapeKeyComponent part) = Ok part.
Proof.
  unfold escapeKeyComponent. induction part as [|c part IH]; [done|]. cbn [fmap list_fmap concat]. unfold escapeUnit at 1.
  destruct (c =? BACKSLASH) eqn:E1.
  - apply Z.eqb_eq in E1 as ->. cbn -[BACKSLASH PK_SEPARATOR]. unfold BACKSLASH at 1 2. cbn [Z.eqb Pos.eqb negb]. by rewrite IH.
  - destruct (c =? PK_SEPARATOR) eqn:E2.
    + apply Z.eqb_eq in E2 as ->. cbn. by rewrite IH.
    + cbn. rewrite E1. cbn. by rewrite IH.
Qed.

(** What decodes is what was encoded. *)
Lemma unescape_inv n : forall part out, (length part <= n)%nat -> PK_SEPARATOR ∉ part -> unescapeKeyComponent part = Ok out -> part = escapeKeyComponent out.
Proof.
  induction n as [|n IH]; intros part out Hl Hs H.
  - destruct part; [by injection H as <-|cbn in Hl; lia].
  - destruct part as [|ch rest]; [by injection H as <-|]. cbn in Hl. cbn [unescapeKeyComponent] in H. destruct (ch =? BACKSLASH) eqn:E; cbn [negb] in H.
    + apply Z.eqb_eq in E as ->. destruct rest as [|c1 rest1]; [done|]. cbn in Hl. destruct (c1 =? BACKSLASH) eqn:E1.
      * apply Z.eqb_eq in E1 as ->. destruct (unescapeKeyComponent rest1) as [o|] eqn:Eo; [|done]. injection H as <-.
        rewrite (IH rest1 o); [done|lia|set_solver|done].
      * destruct rest1 as [|c2 [|c3 rest3]]; [done|done|]. destruct ((c1 =? 120) && (c2 =? 49) && (c3 =? 102)) eqn:E2; [|done].
        apply andb_prop in E2 as [[->%Z.eqb_eq ->%Z.eqb_eq]%andb_prop ->%Z.eqb_eq]. destruct (unescapeKeyComponent rest3) as [o|] eqn:Eo; [|done].
        injection H as <-. cbn in Hl. rewrite (IH rest3 o); [done|lia|set_solver|done].
    + destruct (unescapeKeyComponent rest) as [o|] eqn:Eo; [|done]. injection H as <-. rewrite (IH rest o); [|lia|set_solver|done].
      unfold escapeKeyComponent. cbn. unfold escapeUnit at 2. rewrite E. destruct (ch =? PK_SEPARATOR) eqn:E2; [|done]. apply Z.eqb_eq in E2. set_solver.
Qed.

Lemma splitKey_cons key : exists part parts, splitKey key = part :: parts.
Proof. induction key as [|c key (p & ps & IH)]; [by eexists _, _|]. cbn. rewrite IH. case_match; by eexists _, _. Qed.

Lemma splitKey_app part rest : PK_SEPARATOR ∉ part -> splitKey (part ++ PK_SEPARATOR :: rest) = part :: splitKey rest.
Proof.
  induction part as [|c part IH]; intros H; [done|]. cbn [app splitKey]. rewrite (proj2 (Z.eqb_neq c PK_SEPARATOR)) by set_solver.
  by rewrite IH by set_solver.
Qed.
Lemma splitKey_plain part : PK_SEPARATOR ∉ part -> splitKey part = [part].
Proof.
  induction part as [|c part IH]; intros H; [done|]. cbn. rewrite (proj2 (Z.eqb_neq c PK_SEPARATOR)) by set_solver. by rewrite IH by set_solver.
Qed.

Lemma split_join parts : parts <> [] -> Forall (fun part => PK_SEPARATOR ∉ part) parts -> splitKey (joinKey parts) = parts.
Proof.
  induction parts as [|part parts IH]; [done|]. intros _ [Hp Hps]%Forall_cons. destruct parts as [|p parts]; [by apply splitKey_plain|].
  change (joinKey (part :: p :: parts)) with (part ++ PK_SEPARATOR :: joinKey (p :: parts)). by rewrite splitKey_app, IH by done.
Qed.
Lemma join_split key : joinKey (splitKey key) = key /\ Forall (fun part => PK_SEPARATOR ∉ part) (splitKey key).
Proof.
  induction key as [|c key [IH1 IH2]]; [split; [done|by repeat constructor; set_solver]|]. cbn. destruct (splitKey_cons key) as (p & ps & E). rewrite E in *.
  destruct (c =? PK_SEPARATOR) eqn:Ec.
  - apply Z.eqb_eq in Ec as ->. split; [|constructor; [set_solver|done]]. change (joinKey ([] :: p :: ps)) with ([] ++ PK_SEPARATOR :: joinKey (p :: ps)). by rewrite IH1.
  - apply Z.eqb_neq in Ec. apply Forall_cons in IH2 as [Hp Hps]. split; [|constructor; [set_solver|done]]. rewrite <- IH1. by destruct ps.
Qed.

Lemma mapR_unescape parts out : Forall (fun part => PK_SEPARATOR ∉ part) parts -> mapR unescapeKeyComponent parts = Ok out <-> parts = escapeKeyComponent <$> out.
Proof.
  intros Hp. split.
  - revert out. induction Hp as [|part parts Hpart _ IH]; intros out H; [by injection H as <-|]. cbn in H.
    destruct (unescapeKeyComponent part) as [o|] eqn:Eo; [|done]. cbn in H. destruct (mapR _ parts) as [os|]; [|done]. injection H as <-. cbn.
    by rewrite <- (unescape_inv _ part o (le_n _) Hpart Eo), <- (IH os).
  - intros ->. clear Hp. induction out as [|o out IH]; [done|]. cbn. rewrite unescape_escape. cbn. by rewrite IH.
Qed.

(** C31. Decoding a stream key is the exact inverse of encoding one. For a server key of one column the components
    are the key itself; for more, a key decodes to some values exactly when it is the values' escaped components
    joined by the separator, one for each column: no value is lost or confused, and nothing else decodes. *)
Theorem stream_key_roundtrip (target : ApplyTarget) (key : jsstr) (values : list jsstr) (Hcolumns : at_serverPrimaryKey target <> []) :
  keyParts target key = Ok values <->
    length values = length (at_serverPrimaryKey target) /\
    (if decide (length (at_serverPrimaryKey target) = 1%nat) then values = [key] else key = joinKey (escapeKeyComponent <$> values)).
Proof.
  unfold keyParts. destruct (decide (length (at_serverPrimaryKey target) = 1%nat)) as [H1|H1].
  - rewrite (bool_decide_true _ H1). cbn. rewrite H1. cbn. split; [by intros [= <-]|]. by intros [_ ->].
  - rewrite (bool_decide_false _ H1). destruct (join_split key) as [Hj Hs]. split.
    + destruct (mapR unescapeKeyComponent (splitKey key)) as [parts|] eqn:Em; [|done]. cbn. unfold throw_if. case_bool_decide as Hlen; [|done]. cbn.
      intros [= <-]. split; [done|]. apply (mapR_unescape _ _ Hs) in Em. by rewrite <- Em, Hj.
    + intros [Hlen ->]. rewrite split_join.
      * assert (mapR unescapeKeyComponent (escapeKeyComponent <$> values) = Ok values) as ->.
        { apply mapR_unescape; [|done]. apply Forall_fmap, Forall_true. intros x. apply escape_no_separator. }
        cbn. unfold throw_if. by rewrite bool_decide_true.
      * destruct values; [|done]. cbn in Hlen. by destruct (at_serverPrimaryKey target).
      * apply Forall_fmap, Forall_true. intros x. apply escape_no_separator.
Qed.

(** ** The columns of a change *)

Section Columns.
Context {V : Type} (numberCell : jsstr -> V) (boolCell : bool -> V) (textCell : jsstr -> V) (cellText : V -> option jsstr) (parseJson : jsstr -> option V).

Definition keyCell (target : ApplyTarget) (row : gmap jsstr V) (cell : jsstr * jsstr) : gmap jsstr V :=
  let '(column, part) := cell in
  if bool_decide (column ∈ at_primaryKey target) then <[column := coercePrimaryKeyValue numberCell boolCell textCell (sqlTypeOf target column) part]> row else row.

Lemma keyCells_dom target cells : forall row, dom row ⊆ list_to_set (at_primaryKey target) -> dom (foldl (keyCell target) row cells) ⊆ (list_to_set (at_primaryKey target) : gset jsstr).
Proof.
  induction cells as [|[c v] cells IH]; intros row H; [done|]. cbn [foldl]. apply IH. unfold keyCell. case_bool_decide; [|done]. cbn. rewrite dom_insert. set_solver.
Qed.

End Columns.

Lemma decodeJson_dom {V} (cellText : V -> option jsstr) parseJson target value decoded : decodeJsonColumns cellText parseJson target value = Ok decoded -> dom decoded = dom value.
Proof.
  unfold decodeJsonColumns. enough (forall columns acc, dom acc = dom value ->
    foldM (fun decoded column => match value !! column ≫= cellText with
      | Some cell => parsed ← or_throw (parseJson cell) JsonError; Ok (<[column := parsed]> decoded)
      | None => Ok decoded end) acc columns = Ok decoded -> dom decoded = dom value) as H by (by apply H).
  induction columns as [|c columns IH]; intros acc Ha H; [by injection H as <-|]. cbn [foldM] in H.
  destruct (value !! c) as [v|] eqn:E; cbn in H; [|by apply (IH acc)]. destruct (cellText v) as [cell|]; cbn in H; [|by apply (IH acc)].
  destruct (parseJson cell) as [parsed|]; [|done]. cbn in H. apply (IH (<[c := parsed]> acc)); [|done]. rewrite dom_insert_L, Ha.
  apply elem_of_dom_2 in E. set_solver.
Qed.

(** C33. A change has the columns of what it stands for. The change of a deletion has exactly the primary key
    columns of the local table, the change of an upsert exactly the columns of its envelope's row without the
    key columns the table drops, and both keep the envelope's key. *)
Theorem change_columns (V : Type) (numberCell : jsstr -> V) (boolCell : bool -> V) (textCell : jsstr -> V) (cellText : V -> option jsstr)
  (parseJson : jsstr -> option V) (target : ApplyTarget) (envelope : StreamEnvelope) (change : SyncChange V)
  (Hchange : envelopeToChange numberCell boolCell textCell cellText parseJson target envelope = Ok change) :
  ch_key change = en_key envelope /\ ch_operation change = en_operation envelope /\
  match en_operation envelope with
  | delete_ => dom (ch_value change) = (list_to_set (at_primaryKey target) : gset jsstr)
  | upsert => exists value, en_value envelope = Some value /\ dom (ch_value change) = dom value ∖ (list_to_set (at_droppedKeyColumns target) : gset jsstr)
  end.
Proof.
  unfold envelopeToChange in Hchange. destruct (en_operation envelope) eqn:Eo.
  - destruct (en_value envelope) as [value|]; [|done]. cbn [or_throw mbind result_bind] in Hchange.
    destruct (decodeJsonColumns _ _ _ _) as [decoded|] eqn:Ed; [|done]. injection Hchange as <-. split; [done|]. split; [done|]. exists value. split; [done|].
    cbn. apply decodeJson_dom in Ed. rewrite Ed. apply set_eq. intros c. rewrite elem_of_difference, elem_of_list_to_set, !elem_of_dom. split.
    + intros [v [Hv Hc]%map_lookup_filter_Some]. by split; [eexists|].
    + intros [[v Hv] Hc]. exists v. by apply map_lookup_filter_Some.
  - destruct (primaryKeyFromStreamKey _ _ _ _ _) as [row|] eqn:Ep; [|done]. injection Hchange as <-. split; [done|]. split; [done|]. cbn.
    unfold primaryKeyFromStreamKey in Ep. destruct (keyParts _ _) as [parts|]; [|done]. cbn [mbind result_bind] in Ep.
    match type of Ep with context [foldl ?f ∅ ?l] => change (foldl f ∅ l) with (foldl (keyCell numberCell boolCell textCell target) ∅ l) in Ep end.
    unfold throw_if in Ep. case_bool_decide as Hall; [|done]. cbn in Ep. injection Ep as <-. apply set_eq. intros c. split; [apply keyCells_dom; set_solver|].
    intros Hc%elem_of_list_to_set. rewrite Forall_forall in Hall. by apply elem_of_dom, Hall.
Qed.

(** ** The witnesses *)

Definition board_cards : ApplyTarget :=
  mkTarget (js "cards") [js "id"; js "title"] [js "id"] [js "board"; js "id"] [js "board"] false [(js "id", js "integer"); (js "title", js "text")] [].
Definition card_key : jsstr := joinKey (escapeKeyComponent <$> [[97; BACKSLASH; PK_SEPARATOR]; js "42"]).

Lemma stream_key_roundtrip_witness : at_serverPrimaryKey board_cards <> [] /\ keyParts board_cards card_key = Ok [[97; BACKSLASH; PK_SEPARATOR]; js "42"].
Proof. split; [discriminate|]. apply (stream_key_roundtrip board_cards card_key); [discriminate|]. split; vm_compute; reflexivity. Defined.

(** A number cell is the number its digits write. *)
Definition digits (raw : jsstr) : Z := foldl (fun n c => 10 * n + (c - 48)) 0 raw.
Definition card_change : SyncChange Z := mkChange card_key (<[js "id" := 42]> ∅) delete_ ∅.

Lemma change_columns_witness : envelopeToChange digits Z.b2z digits (fun _ => None) (fun _ => None) board_cards (mkEnvelope card_key delete_ None) = Ok card_change /\
  dom (ch_value card_change) = (list_to_set (at_primaryKey board_cards) : gset jsstr).
Proof.
  split; [vm_compute; reflexivity|].
  apply (change_columns Z digits Z.b2z digits (fun _ => None) (fun _ => None) board_cards (mkEnvelope card_key delete_ None) card_change). vm_compute. reflexivity.
Defined.
