(* ===== verification/StreamInbox.v ===== *)
(** * Sync client: the inbox of a group of streams

    [StreamInbox] of client/src/circuits/stream-inbox.ts: what was delivered per shape and not yet committed,
    the offset that is committed, the reports the commit gate reads, and the reset epochs. *)

From S2P Require Export SyncFold.

(** [left <= right] on strings: the code units in lexicographic order. *)
Fixpoint stringLe (a b : jsstr) : bool :=
  match a, b with
  | [], _ => true
  | _ :: _, [] => false
  | x :: a, y :: b => if x <? y then true else if y <? x then false else stringLe a b
  end.

Module StreamInbox.
Section Inbox.
Context {V : Type}.

Record BufferedBatch : Type := mkBatch { changes : list (SyncChange V); offset : jsstr }.

(** The five maps have the shapes as keys; [shapes] is their iteration order. *)
Record StreamInbox : Type := mkInbox {
  shapes : list jsstr;
  batches : gmap jsstr (list BufferedBatch);
  appliedOffsets : gmap jsstr (option jsstr);
  currentlyUpToDate : gmap jsstr bool;
  reportedUpToDate : gmap jsstr bool;
  epochs : gmap jsstr Z;
  alignedOnce : bool }.

Definition filled {A} (shapeNames : list jsstr) (value : A) : gmap jsstr A := list_to_map ((fun name => (name, value)) <$> shapeNames).

Definition newInbox (shapeNames : list jsstr) : StreamInbox :=
  mkInbox (remove_dups shapeNames) (filled shapeNames []) (filled shapeNames None) (filled shapeNames false)
    (filled shapeNames false) (filled shapeNames 0) false.

Definition appliedOffsetFor (inbox : StreamInbox) (shapeName : jsstr) : option jsstr :=
  default None (appliedOffsets inbox !! shapeName).

Definition set_batches (inbox : StreamInbox) (m : gmap jsstr (list BufferedBatch)) : StreamInbox :=
  mkInbox (shapes inbox) m (appliedOffsets inbox) (currentlyUpToDate inbox) (reportedUpToDate inbox) (epochs inbox) (alignedOnce inbox).

Definition ingestBatch (shapeName : jsstr) (changes : list (SyncChange V)) (offset : jsstr) (upToDate : bool) (inbox : StreamInbox) : StreamInbox :=
  let inbox := mkInbox (shapes inbox) (batches inbox) (appliedOffsets inbox) (<[shapeName := upToDate]> (currentlyUpToDate inbox))
    (if upToDate then <[shapeName := true]> (reportedUpToDate inbox) else reportedUpToDate inbox) (epochs inbox) (alignedOnce inbox) in
  if match appliedOffsetFor inbox shapeName with Some applied => stringLe offset applied | None => false end then inbox
  else
    match batches inbox !! shapeName with
    | Some held => set_batches inbox (<[shapeName := held ++ [mkBatch changes offset]]> (batches inbox))
    | None => inbox
    end.

Definition isGroupUpToDate (inbox : StreamInbox) : bool :=
  bool_decide (map_Forall (fun _ upToDate => upToDate = true) (currentlyUpToDate inbox)).
Definition everyShapeReported (inbox : StreamInbox) : bool :=
  bool_decide (map_Forall (fun _ reported => reported = true) (reportedUpToDate inbox)).
Definition needsAlignment (inbox : StreamInbox) : bool := negb (alignedOnce inbox).

Definition set_aligned (value : bool) (inbox : StreamInbox) : StreamInbox :=
  mkInbox (shapes inbox) (batches inbox) (appliedOffsets inbox) (currentlyUpToDate inbox) (reportedUpToDate inbox) (epochs inbox) value.
Definition markAligned : StreamInbox -> StreamInbox := set_aligned true.

Definition heldFor (inbox : StreamInbox) (shapeName : jsstr) : list BufferedBatch := default [] (batches inbox !! shapeName).

Definition hasBufferedChanges (inbox : StreamInbox) : bool :=
  existsb (fun shapeName => existsb (fun batch => negb (bool_decide (length (changes batch) = 0%nat))) (heldFor inbox shapeName)) (shapes inbox).
Definition hasBufferedBatches (inbox : StreamInbox) : bool :=
  existsb (fun shapeName => negb (bool_decide (length (heldFor inbox shapeName) = 0%nat))) (shapes inbox).

Definition epochFor (inbox : StreamInbox) (shapeName : jsstr) : Z := default 0 (epochs inbox !! shapeName).
Definition snapshotEpochs (inbox : StreamInbox) : gmap jsstr Z := epochs inbox.

Definition peekAll (inbox : StreamInbox) : gmap jsstr (list (SyncChange V)) := (fun held => concat (changes <$> held)) <$> batches inbox.

(** The offset a shape resumes from once what it holds is committed. *)
Definition pendingOffset (inbox : StreamInbox) (shapeName : jsstr) (held : list BufferedBatch) : option jsstr :=
  match last held with Some batch => Some (offset batch) | None => appliedOffsetFor inbox shapeName end.
Definition pendingOffsets (inbox : StreamInbox) : gmap jsstr jsstr :=
  map_imap (fun shapeName held => pendingOffset inbox shapeName held) (batches inbox).

(** One shape of [ackAll]. *)
Definition ackShape (epochsAtPeek : gmap jsstr Z) (inbox : StreamInbox) (shapeName : jsstr) : StreamInbox :=
  if match epochsAtPeek !! shapeName with Some peekEpoch => negb (epochFor inbox shapeName =? peekEpoch) | None => false end then inbox
  else
    let applied := match last (heldFor inbox shapeName) with
      | Some batch => <[shapeName := Some (offset batch)]> (appliedOffsets inbox)
      | None => appliedOffsets inbox end in
    mkInbox (shapes inbox) (<[shapeName := []]> (batches inbox)) applied (currentlyUpToDate inbox) (reportedUpToDate inbox) (epochs inbox)
      (alignedOnce inbox).
Definition ackAll (epochsAtPeek : gmap jsstr Z) (inbox : StreamInbox) : StreamInbox :=
  foldl (ackShape epochsAtPeek) inbox (shapes inbox).

Definition resetShape (shapeName : jsstr) (inbox : StreamInbox) : StreamInbox :=
  mkInbox (shapes inbox) (<[shapeName := []]> (batches inbox)) (<[shapeName := None]> (appliedOffsets inbox))
    (<[shapeName := false]> (currentlyUpToDate inbox)) (<[shapeName := false]> (reportedUpToDate inbox))
    (<[shapeName := epochFor inbox shapeName + 1]> (epochs inbox)) false.

End Inbox.
End StreamInbox.
Arguments StreamInbox.StreamInbox : clear implicits.
Arguments StreamInbox.BufferedBatch : clear implicits.
