(* ===== verification/SyncEngine.v ===== *)
(** * Sync client: the engine of a group of streams

    [syncCircuitsShapes] of client/src/circuits/sync-engine.ts, with the subscription state it persists
    (client/src/sync/subscription-state.ts) and the group that serialises the deliveries
    (client/src/circuits/shape-group.ts). A delivery is one step: the group hands the engine the next one when
    the commit of the last has ended, so no two commits overlap and [commitRerun] is never set. *)

From S2P Require Export StreamKeys StreamInbox.

(** ** The subscription state *)

Section Subscription.
Context {V D : Type} (q : Statements V D).

Definition pickMetadataTables (metadataSchema : jsstr) (sessionScoped : bool) : jsstr := if sessionScoped then js "pg_temp" else metadataSchema.

Definition getSubscriptionState (metadataSchema subscriptionKey : jsstr) (sessionScoped : bool) (d : D) : result SyncError (option (SubscriptionRow V)) :=
  rows ← q_subscriptions q (pickMetadataTables metadataSchema sessionScoped) subscriptionKey d;
  match rows with
  | [] => Ok None
  | [row] => Ok (Some row)
  | _ => Throw StatementError
  end.

Definition updateSubscriptionState (metadataSchema subscriptionKey : jsstr) (sessionScoped : bool)
    (shapeMetadata : gmap jsstr (ShapeSubscriptionState V)) (lastLsn : Z) (d : D) : result SyncError D :=
  q_persist q (pickMetadataTables metadataSchema sessionScoped) (mkSubscription subscriptionKey shapeMetadata lastLsn) d.
End Subscription.

Module Engine.
Import StreamInbox.

(** ** What a group is given *)

Inductive InitialInsertMethod : Type := json | copy | insert.

#[global] Instance InitialInsertMethod_eq_dec : EqDecision InitialInsertMethod.
Proof. solve_decision. Defined.

Inductive Teardown : Type := stays | endsBefore | endsDuring | endsAfter.

#[global] Instance Teardown_eq_dec : EqDecision Teardown.
Proof. solve_decision. Defined.

Section Engine.
Context {V D : Type}.

(** A shape with its resolved target and backfill method; [onMustRefetch] clears its rows. *)
Record CircuitsShapeSpec : Type := mkSpec {
  streamUrl : jsstr; tableKey : jsstr; target : ApplyTarget; insertMethod : InitialInsertMethod;
  onMustRefetch : option (D -> result SyncError D); shapeKey : jsstr; scope : option (list V) }.

Record CircuitsSyncOptions : Type := mkOptions {
  specs : list (jsstr * CircuitsShapeSpec); key : option jsstr; metadataSchema : jsstr; sessionScoped : bool; maxCommitRetries : nat;
  getRowSize : gmap jsstr V -> Z }.

(** One attempt of a transaction: the statements it runs, and when the subscription ends, if it does. *)
Record Attempt : Type := mkAttempt { statements : Statements V D; teardown : Teardown }.

(** The engine barrier; [None] is one that could not be read. *)
Record ConvergenceBarrier : Type := mkBarrier { pendingFlips : Z; flipFailures : Z }.

Record Engine : Type := mkEngine {
  database : D; inbox : StreamInbox V; useBulkBackfill : gmap jsstr bool; truncateNeeded : gset jsstr;
  unsubscribed : bool; degraded : bool; initialSyncSignalled : bool;
  closed : bool; caughtUp : gset jsstr; rejected : bool }.

(** ** Sharing a table *)

Definition shapeNames (options : CircuitsSyncOptions) : list jsstr := (specs options).*1.

Definition sharing (options : CircuitsSyncOptions) (table : jsstr) : list (jsstr * CircuitsShapeSpec) :=
  filter (fun shape : jsstr * CircuitsShapeSpec => tableKey shape.2 = table) (specs options).

(** Refuses a shared table whose shapes do not all clear their own rows; otherwise the sole occupants. *)
Definition resolveTableSharing (options : CircuitsSyncOptions) : result SyncError (gset jsstr) :=
  throw_if (existsb (fun shape : jsstr * CircuitsShapeSpec =>
      (2 <=? Z.of_nat (length (sharing options (tableKey shape.2)))) && negb (bool_decide (is_Some (onMustRefetch shape.2)))) (specs options))
    SharedClearError ≫= fun _ =>
  Ok (list_to_set (fst <$> filter (fun shape : jsstr * CircuitsShapeSpec => Z.of_nat (length (sharing options (tableKey shape.2))) < 2) (specs options))).

(** ** One transaction *)

Section Transaction.
Context (options : CircuitsSyncOptions) (soleOccupants : gset jsstr).
Context (q : Statements V D).

Definition assertClearLeftNoResidue (spec : CircuitsShapeSpec) (soleOccupant : bool) (d : D) : result SyncError D :=
  if negb soleOccupant then Ok d
  else
    residue ← q_hasRows q (at_table (target spec)) d;
    throw_if residue ResidueError ≫= fun _ => Ok d.

Definition clearShape (shapeName : jsstr) (spec : CircuitsShapeSpec) (d : D) : result SyncError D :=
  match onMustRefetch spec with
  | Some clear => d ← clear d; assertClearLeftNoResidue spec (bool_decide (shapeName ∈ soleOccupants)) d
  | None => q_truncate q (at_table (target spec)) d
  end.

(** The changes up to the first deletion, and the rest. *)
Fixpoint splitLeading (changes : list (SyncChange V)) : list (SyncChange V) * list (SyncChange V) :=
  match changes with
  | [] => ([], [])
  | change :: rest =>
      if decide (ch_operation change = upsert) then let '(leading, remainder) := splitLeading rest in (change :: leading, remainder)
      else ([], changes)
  end.

(** The backfill and the changes left for the fold; COPY hands its last net row back. *)
Definition planBackfill (method : InitialInsertMethod) (changes : list (SyncChange V)) : list (SyncChange V) * list (SyncChange V) :=
  let '(leadingUpserts, remainder) := splitLeading changes in
  let backfill := upserts (foldChangeBatch leadingUpserts) in
  match last backfill with
  | Some popped => if decide (method = copy) then (removelast backfill, popped :: remainder) else (backfill, remainder)
  | None => (backfill, remainder)
  end.

Definition applyBackfill (spec : CircuitsShapeSpec) (messages : list (SyncChange V)) (d : D) : result SyncError D :=
  let t := target spec in
  match at_upsertMode t, insertMethod spec with
  | true, insert => applyUpsertsToTable q t messages d
  | true, _ => applyUpsertsToTableWithJson q t messages d
  | false, json => applyMessagesToTableWithJson q t messages d
  | false, copy => applyMessagesToTableWithCopy q t messages d
  | false, insert => applyInsertsToTable q (getRowSize options) t messages d
  end.

Definition applyFolded (t : ApplyTarget) (changes : list (SyncChange V)) (d : D) : result SyncError D :=
  match changes with
  | [] => Ok d
  | _ =>
      let folded := foldChangeBatch changes in
      d ← (match deletes folded with [] => Ok d | messages => applyBulkDeletesToTable q t messages d end);
      match upserts folded with [] => Ok d | messages => applyUpsertsToTable q t messages d end
  end.

(** The transaction's state: the database, and the backfill flags, which a rollback does not restore. *)
Record Tx : Type := mkTx { tx_db : D; tx_bulk : gmap jsstr bool }.
Abbreviation TX := (ST Tx SyncError).

Definition on_db (f : D -> result SyncError D) : TX unit := fun tx =>
  match f (tx_db tx) with
  | Ok d => (mkTx d (tx_bulk tx), Ok tt)
  | Throw e => (tx, Throw e)
  end.

Definition applyShape (held : gmap jsstr (list (SyncChange V))) (shapesToTruncate : gset jsstr) (shape : jsstr * CircuitsShapeSpec) : TX unit :=
  let '(shapeName, spec) := shape in
  let changes := default [] (held !! shapeName) in
  (if decide (shapeName ∈ shapesToTruncate) then on_db (clearShape shapeName spec) else mret tt) ≫= fun _ =>
  tx ← st_get;
  let '(backfill, changes) :=
    if default false (tx_bulk tx !! shapeName) && negb (bool_decide (changes = [])) then planBackfill (insertMethod spec) changes else ([], changes) in
  (if decide (backfill = []) then mret tt
   else
     on_db (applyBackfill spec backfill) ≫= fun _ =>
     st_modify (fun tx => mkTx (tx_db tx) (<[shapeName := false]> (tx_bulk tx)))) ≫= fun _ =>
  on_db (applyFolded (target spec) changes).

Definition START_OFFSET : jsstr := js "-1".

Definition shapeMetadata (offsets : gmap jsstr jsstr) : gmap jsstr (ShapeSubscriptionState V) :=
  list_to_map ((fun shape : jsstr * CircuitsShapeSpec =>
    (shape.1, mkShapeState (streamUrl shape.2) (default START_OFFSET (offsets !! shape.1)) (shapeKey shape.2) (scope shape.2))) <$> specs options).

Definition persistOffsets (offsets : gmap jsstr jsstr) (d : D) : result SyncError D :=
  match key options with
  | Some subscriptionKey => updateSubscriptionState q (metadataSchema options) subscriptionKey (sessionScoped options) (shapeMetadata offsets) 0 d
  | None => Ok d
  end.

Definition runCommit (held : gmap jsstr (list (SyncChange V))) (offsets : gmap jsstr jsstr) (shapesToTruncate : gset jsstr) : TX unit :=
  forM (applyShape held shapesToTruncate) (specs options) ≫= fun _ =>
  on_db (persistOffsets offsets).

End Transaction.

(** ** The commit of everything held *)

Definition set_unsubscribed (e : Engine) : Engine :=
  mkEngine (database e) (inbox e) (useBulkBackfill e) (truncateNeeded e) true (degraded e) (initialSyncSignalled e) (closed e) (caughtUp e) (rejected e).
Definition set_degraded (e : Engine) : Engine :=
  mkEngine (database e) (inbox e) (useBulkBackfill e) (truncateNeeded e) (unsubscribed e) true (initialSyncSignalled e) (closed e) (caughtUp e) (rejected e).
Definition set_inbox (e : Engine) (i : StreamInbox V) : Engine :=
  mkEngine (database e) i (useBulkBackfill e) (truncateNeeded e) (unsubscribed e) (degraded e) (initialSyncSignalled e) (closed e) (caughtUp e) (rejected e).
Definition set_tx (e : Engine) (d : D) (bulk : gmap jsstr bool) : Engine :=
  mkEngine d (inbox e) bulk (truncateNeeded e) (unsubscribed e) (degraded e) (initialSyncSignalled e) (closed e) (caughtUp e) (rejected e).

Definition signalInitialSyncIfReady (e : Engine) : Engine :=
  if initialSyncSignalled e || negb (isGroupUpToDate (inbox e)) then e
  else mkEngine (database e) (inbox e) (useBulkBackfill e) (truncateNeeded e) (unsubscribed e) (degraded e) true (closed e) (caughtUp e) (rejected e).

(** What a commit that took effect acknowledges. *)
Definition acknowledge (epochsAtPeek : gmap jsstr Z) (shapesToTruncate : gset jsstr) (e : Engine) : Engine :=
  signalInitialSyncIfReady
    (mkEngine (database e) (ackAll epochsAtPeek (inbox e)) (useBulkBackfill e) (truncateNeeded e ∖ shapesToTruncate)
       (unsubscribed e) (degraded e) (initialSyncSignalled e) (closed e) (caughtUp e) (rejected e)).

Section Commit.
Context (options : CircuitsSyncOptions) (soleOccupants : gset jsstr).

(** The first attempt runs whatever the limit; the environment of the n-th is [attempts n]. *)
Definition maxAttempts : nat := Nat.max 1 (maxCommitRetries options).

Fixpoint commitAttempts (fuel : nat) (attempts : nat -> Attempt) (held : gmap jsstr (list (SyncChange V))) (epochsAtPeek : gmap jsstr Z)
    (offsets : gmap jsstr jsstr) (shapesToTruncate : gset jsstr) (e : Engine) : Engine :=
  match fuel with
  | O => set_degraded e
  | S fuel =>
      let a := attempts (maxAttempts - S fuel)%nat in
      if unsubscribed e || bool_decide (teardown a = endsBefore) then set_unsubscribed e
      else
        let '(tx, r) := runCommit options soleOccupants (statements a) held offsets shapesToTruncate (mkTx (database e) (useBulkBackfill e)) in
        match teardown a, r with
        | endsDuring, _ => set_unsubscribed (set_tx e (database e) (tx_bulk tx))
        | endsAfter, Ok _ => set_unsubscribed (set_tx e (tx_db tx) (tx_bulk tx))
        | _, Ok _ => acknowledge epochsAtPeek shapesToTruncate (set_tx e (tx_db tx) (tx_bulk tx))
        | endsAfter, Throw _ => set_unsubscribed (set_tx e (database e) (tx_bulk tx))
        | _, Throw _ => commitAttempts fuel attempts held epochsAtPeek offsets shapesToTruncate (set_tx e (database e) (tx_bulk tx))
        end
  end.

Definition commitHeld (attempts : nat -> Attempt) (e : Engine) : Engine :=
  commitAttempts maxAttempts attempts (peekAll (inbox e)) (snapshotEpochs (inbox e)) (pendingOffsets (inbox e)) (truncateNeeded e) e.

(** ** The gate *)

Definition gateOpen (barrier : option ConvergenceBarrier) (e : Engine) : bool * Engine :=
  if negb (isGroupUpToDate (inbox e)) then (false, e)
  else if negb (needsAlignment (inbox e)) then (true, e)
  else if negb (everyShapeReported (inbox e)) then (false, e)
  else
    match barrier with
    | None => (false, e)
    | Some barrier =>
        if 0 <? flipFailures barrier then (false, set_degraded e)
        else if 0 <? pendingFlips barrier then (false, e)
        else (true, set_inbox e (markAligned (inbox e)))
    end.

Definition enqueueCommit (barrier : option ConvergenceBarrier) (attempts : nat -> Attempt) (e : Engine) : Engine :=
  if degraded e || unsubscribed e then e
  else
    let '(opened, e) := gateOpen barrier e in
    if opened then commitHeld attempts e else e.

(** ** Deliveries *)

Record Delivery : Type := mkDelivery { dl_shape : jsstr; dl_envelopes : list (StreamEnvelope (V := V)); dl_offset : jsstr; dl_upToDate : bool }.

Context (numberCell : jsstr -> V) (boolCell : bool -> V) (textCell : jsstr -> V) (cellText : V -> option jsstr) (parseJson : jsstr -> option V).

Definition specOf (shapeName : jsstr) : option CircuitsShapeSpec :=
  (list_find (fun shape : jsstr * CircuitsShapeSpec => shape.1 = shapeName) (specs options)) ≫= fun found => Some found.2.2.

(** The changes of a delivery, where each envelope translates. *)
Definition changesOf (delivery : Delivery) : result SyncError (list (SyncChange V)) :=
  spec ← or_throw (specOf (dl_shape delivery)) StatementError;
  mapR (envelopeToChange numberCell boolCell textCell cellText parseJson (target spec)) (dl_envelopes delivery).

(** The handler the engine subscribes; [None] where it throws. *)
Definition onBatch (delivery : Delivery) (barrier : option ConvergenceBarrier) (attempts : nat -> Attempt) (e : Engine) : option Engine :=
  if unsubscribed e then Some e
  else
    match changesOf delivery with
    | Throw _ => None
    | Ok changes =>
        let e := set_inbox e (ingestBatch (dl_shape delivery) changes (dl_offset delivery) (dl_upToDate delivery) (inbox e)) in
        Some (enqueueCommit barrier attempts e)
    end.

Inductive Event : Type :=
| Deliver (delivery : Delivery) (barrier : option ConvergenceBarrier) (attempts : nat -> Attempt)
| Unsubscribe.

(** The group: a delivery runs when those before it have ended well; one that throws rejects every later one. *)
Definition step (e : Engine) (event : Event) : Engine :=
  match event with
  | Deliver delivery barrier attempts =>
      if closed e then e
      else
        let e := mkEngine (database e) (inbox e) (useBulkBackfill e) (truncateNeeded e) (unsubscribed e) (degraded e) (initialSyncSignalled e) (closed e)
          (if dl_upToDate delivery then {[dl_shape delivery]} ∪ caughtUp e else caughtUp e) (rejected e) in
        if rejected e then e
        else
          match onBatch delivery barrier attempts e with
          | Some e => e
          | None => mkEngine (database e) (inbox e) (useBulkBackfill e) (truncateNeeded e) (unsubscribed e) (degraded e) (initialSyncSignalled e)
              (closed e) (caughtUp e) true
          end
  | Unsubscribe =>
      mkEngine (database e) (inbox e) (useBulkBackfill e) (truncateNeeded e) true (degraded e) (initialSyncSignalled e) true (caughtUp e) (rejected e)
  end.

Definition run (e : Engine) (events : list Event) : Engine := foldl step e events.

Definition isUpToDate (e : Engine) : bool :=
  negb (degraded e) && negb (hasBufferedBatches (inbox e)) && isGroupUpToDate (inbox e).

(** ** Starting *)

Definition isResumable (subState : option (SubscriptionRow V)) (shape : jsstr * CircuitsShapeSpec) : bool :=
  match subState ≫= fun state => sub_shape_metadata state !! shape.1 with
  | Some persisted => bool_decide (sss_handle persisted = streamUrl shape.2)
  | None => false
  end.

Definition newEngine (d : D) (subState : option (SubscriptionRow V)) : Engine :=
  mkEngine d (newInbox (shapeNames options))
    (list_to_map ((fun shape : jsstr * CircuitsShapeSpec =>
       (shape.1, negb (isResumable subState shape) && negb (bool_decide (insertMethod shape.2 = insert)))) <$> specs options))
    (match subState with
     | Some _ => list_to_set (fst <$> filter (fun shape => isResumable subState shape = false) (specs options))
     | None => ∅
     end)
    false false false false ∅ false.

(** The offset a shape's stream is opened at; [None] is its start. *)
Definition startOffset (subState : option (SubscriptionRow V)) (shape : jsstr * CircuitsShapeSpec) : option jsstr :=
  if isResumable subState shape then subState ≫= fun state => sss_offset <$> sub_shape_metadata state !! shape.1 else None.

End Commit.

(** The shapes that are alone on their table, and the engine. *)
Definition syncCircuitsShapes (options : CircuitsSyncOptions) (q : Statements V D) (d : D) : result SyncError (gset jsstr * Engine) :=
  soleOccupants ← resolveTableSharing options;
  subState ← (match key options with
              | Some subscriptionKey => getSubscriptionState q (metadataSchema options) subscriptionKey (sessionScoped options) d
              | None => Ok None
              end);
  Ok (soleOccupants, newEngine options d subState).
End Engine.
End Engine.
Arguments Engine.CircuitsShapeSpec : clear implicits.
Arguments Engine.CircuitsSyncOptions : clear implicits.
Arguments Engine.Engine : clear implicits.
Arguments Engine.Attempt : clear implicits.
Arguments Engine.Delivery : clear implicits.
Arguments Engine.Event : clear implicits.
Arguments Engine.Tx : clear implicits.
