(* ===== verification/SyncEngineLaws.v ===== *)
(** * Sync client: what a commit does to a table

    The bulk backfill and the folded apply of one shape have the effect of its changes one by one, whatever the
    backfill method and the flags; the other shapes leave the table alone. *)

From S2P Require Export SyncApplyLaws SyncEngine.

Section Plan.
Context {V : Type} `{EqDecision V} (pk : list jsstr) (defaults : gmap jsstr V).

Abbreviation SyncRow := (gmap jsstr V).
Abbreviation Change := (SyncChange V).

Lemma view_all_ext view view' (messages : list Change) k : view k = view' k -> view_all pk defaults view messages k = view_all pk defaults view' messages k.
Proof. intros H. by rewrite !view_all_at, H. Qed.
Lemma view_all_app view (a b : list Change) : view_all pk defaults view (a ++ b) = view_all pk defaults (view_all pk defaults view a) b.
Proof. unfold view_all. by rewrite foldl_app. Qed.

Lemma coherent_sub (a b : list Change) : coherent pk b -> (forall m, m ∈ a -> exists m', m' ∈ b /\ ch_key m' = ch_key m /\ change_key pk m' = change_key pk m) ->
  coherent pk a.
Proof.
  intros Hb Ha m1 m2 H1 H2. destruct (Ha m1 H1) as (n1 & Hn1 & <- & <-), (Ha m2 H2) as (n2 & Hn2 & <- & <-). by apply Hb.
Qed.
Lemma coherent_incl (a b : list Change) : coherent pk b -> (forall m, m ∈ a -> m ∈ b) -> coherent pk a.
Proof. intros Hb Ha. apply (coherent_sub _ b Hb). intros m Hm. exists m. auto. Qed.

Lemma splitLeading_spec (changes : list Change) leading remainder : Engine.splitLeading changes = (leading, remainder) ->
  changes = leading ++ remainder /\ Forall (fun m => ch_operation m = upsert) leading.
Proof.
  revert leading remainder. induction changes as [|m changes IH]; intros leading remainder; cbn; [by intros [= <- <-]|].
  destruct (decide _) as [Hu|]; [|by intros [= <- <-]]. destruct (Engine.splitLeading changes) as [l r]. intros [= <- <-].
  destruct (IH l r eq_refl) as [-> Hl]. by split; [|constructor].
Qed.

(** A run of upserts folds to upserts only. *)
Lemma fold_run (messages : list Change) : coherent pk messages -> Forall (fun m => ch_operation m = upsert) messages -> forall view k,
  view_upsert pk defaults (ch_value <$> upserts (foldChangeBatch messages)) view k = view_all pk defaults view messages k.
Proof.
  intros Hc Hu view k. rewrite <- (fold_view pk defaults messages Hc). enough (deletes (foldChangeBatch messages) = []) as -> by done.
  destruct (foldChangeBatch_groups messages) as [-> _]. destruct (concat _) as [|x l] eqn:E0; [done|].
  assert (Hx : x ∈ concat (key_deletes <$> (groupByKey messages).*2)) by (rewrite E0; set_solver). apply elem_of_fold in Hx as (k' & Hne & Hx).
  destruct (foldKey_upserts (of_key k' messages) Hne) as (t & _ & E & _); [|rewrite E in Hx; set_solver].
  apply Forall_forall. intros m Hm. unfold of_key in Hm. apply list_elem_of_filter in Hm as [_ Hm]. rewrite Forall_forall in Hu. by apply Hu.
Qed.

Lemma view_upsert_one view (m : Change) k : ch_operation m = upsert -> view_upsert pk defaults [ch_value m] view k = view_apply pk defaults view m k.
Proof.
  intros Hu. unfold view_upsert, view_apply, row_after, change_key. rewrite row_with_cons, Hu. by destruct (decide _).
Qed.

Lemma planBackfill_spec method (changes : list Change) backfill rest : coherent pk changes -> Engine.planBackfill method changes = (backfill, rest) ->
  NoDup (keyOf pk <$> (ch_value <$> backfill)) /\ coherent pk rest /\
  forall view k, view_all pk defaults (view_upsert pk defaults (ch_value <$> backfill) view) rest k = view_all pk defaults view changes k.
Proof.
  intros Hc. unfold Engine.planBackfill. destruct (Engine.splitLeading changes) as [leading remainder] eqn:Es.
  apply splitLeading_spec in Es as [-> Hu]. assert (Hcl : coherent pk leading) by (apply (coherent_incl _ _ Hc); set_solver).
  assert (Hcr : coherent pk remainder) by (apply (coherent_incl _ _ Hc); set_solver).
  pose proof (fold_upserts_distinct pk defaults leading Hcl) as Hnd. pose proof (fold_run leading Hcl Hu) as Hrun.
  set (ups := upserts (foldChangeBatch leading)) in *.
  assert (Hplain : NoDup (keyOf pk <$> (ch_value <$> ups)) /\ coherent pk remainder /\ forall view k,
    view_all pk defaults (view_upsert pk defaults (ch_value <$> ups) view) remainder k = view_all pk defaults view (leading ++ remainder) k).
  { split; [done|]. split; [done|]. intros view k. rewrite view_all_app. apply view_all_ext, Hrun. }
  destruct (last ups) as [popped|] eqn:El; [|by intros [= <- <-]]. destruct (decide _); [|by intros [= <- <-]]. intros [= <- <-].
  assert (Hin : popped ∈ ups) by (apply last_Some_elem_of in El; done). apply last_Some in El as [bf El].
  rewrite El, removelast_last.
  destruct (fold_upsert_origin pk leading Hcl popped Hin) as (Hop & m & Hm & Hkm & Hcm).
  rewrite El, !fmap_app in Hnd. split; [by apply NoDup_app in Hnd as [? _]|]. split.
  - apply (coherent_sub _ _ Hc). intros n [->|Hn]%elem_of_cons; [exists m; set_solver|exists n; set_solver].
  - intros view k. rewrite view_all_app. change (view_all ?p ?d ?v (popped :: ?r)) with (view_all p d (view_apply p d v popped) r).
    apply view_all_ext. rewrite <- Hrun, El, fmap_app. rewrite view_upsert_app; [|by rewrite fmap_app]. symmetry. by apply view_upsert_one.
Qed.
End Plan.

Lemma forM_app {S E A} (f : A -> ST S E unit) (a b : list A) (s s' : S) : forM f (a ++ b) s = (s', Ok tt) ->
  exists s1, forM f a s = (s1, Ok tt) /\ forM f b s1 = (s', Ok tt).
Proof.
  revert s. induction a as [|x a IH]; intros s H; [by exists s|]. cbn [app forM] in *. apply st_bind_Ok in H as (s1 & [] & E1 & H).
  destruct (IH s1 H) as (s2 & Ha & Hb). exists s2. split; [|done]. by rewrite (st_bind_run _ _ _ _ _ E1).
Qed.

Section Commit.
Context {V D : Type} `{EqDecision V} {db : Database V D} (defaults : jsstr -> gmap jsstr V).
Context (options : Engine.CircuitsSyncOptions V D) (soleOccupants : gset jsstr).
Context (q : Statements V D) {lawful : LawfulStatements defaults q}.

Abbreviation SyncRow := (gmap jsstr V).
Abbreviation Change := (SyncChange V).
Abbreviation Spec := (Engine.CircuitsShapeSpec V D).
Abbreviation Held := (gmap jsstr (list Change)).
Abbreviation tableOf := (fun spec : Spec => at_table (Engine.target spec)).

(** The custom clears touch only their own table. *)
Definition clears_own (spec : Spec) : Prop := forall clear d d', Engine.onMustRefetch spec = Some clear -> clear d = Ok d' -> only_table (tableOf spec) d d'.

Lemma on_db_run f (tx tx' : Engine.Tx D) r : Engine.on_db f tx = (tx', r) ->
  match r with Ok _ => f (Engine.tx_db tx) = Ok (Engine.tx_db tx') | Throw _ => tx' = tx end.
Proof. unfold Engine.on_db. destruct (f _) as [d|e]; intros [= <- <-]; done. Qed.

Lemma clearShape_only shapeName spec d d' : clears_own spec -> Engine.clearShape soleOccupants q shapeName spec d = Ok d' -> only_table (tableOf spec) d d'.
Proof.
  intros Hc. unfold Engine.clearShape. destruct (Engine.onMustRefetch spec) as [clear|] eqn:E; [|apply q_truncate_only].
  destruct (clear d) as [d1|] eqn:E1; [|done]. cbn. unfold Engine.assertClearLeftNoResidue. destruct (negb _); [intros [= <-]; by eapply Hc|].
  destruct (q_hasRows _ _ d1) as [[|]|]; [done| |done]. cbn. intros [= <-]. by eapply Hc.
Qed.

(** A sole occupant's clear leaves no row. *)
Lemma clearShape_empty shapeName spec d d' : shapeName ∈ soleOccupants -> Engine.clearShape soleOccupants q shapeName spec d = Ok d' ->
  forall k, view_of (Engine.target spec) d' k = None.
Proof.
  intros Hs. unfold Engine.clearShape, view_of. destruct (Engine.onMustRefetch spec) as [clear|] eqn:E.
  - destruct (clear d) as [d1|] eqn:E1; [|done]. cbn. unfold Engine.assertClearLeftNoResidue. rewrite bool_decide_true by done. cbn.
    destruct (q_hasRows _ _ d1) as [[|]|] eqn:Eh; [done| |done]. cbn. intros [= <-] k. by eapply q_hasRows_false.
  - intros H k. by eapply q_truncate_rows.
Qed.

Lemma applyBackfill_loads spec : applier_loads defaults (Engine.target spec) (fun t => Engine.applyBackfill options q (Engine.mkSpec (Engine.streamUrl spec) (Engine.tableKey spec) t (Engine.insertMethod spec) (Engine.onMustRefetch spec) (Engine.shapeKey spec) (Engine.scope spec))).
Proof.
  intros messages d d'. unfold Engine.applyBackfill. cbn [Engine.target Engine.insertMethod].
  destruct (at_upsertMode _), (Engine.insertMethod spec);
    first [apply (applyUpserts_loads defaults q) | apply (applyCopy_loads defaults q) | apply (applyInserts_loads defaults q) | apply (applyJson_loads defaults q)].
Qed.

Lemma applyFolded_view t (changes : list Change) d d' : coherent (at_primaryKey t) changes -> Engine.applyFolded q t changes d = Ok d' ->
  only_table (at_table t) d d' /\
  forall k, view_of t d' k = view_all (at_primaryKey t) (defaults (at_table t)) (view_of t d) changes k.
Proof.
  intros Hc. unfold Engine.applyFolded. destruct changes as [|m changes]; [intros [= <-]; by split; [apply only_table_refl|]|].
  set (messages := m :: changes) in *. clearbody messages.
  assert (Hdel : forall d1, (match deletes (foldChangeBatch messages) with [] => Ok d | ms => applyBulkDeletesToTable q t ms d end) = Ok d1 ->
    only_table (at_table t) d d1 /\ forall k, view_of t d1 k = view_delete (at_primaryKey t) (ch_value <$> deletes (foldChangeBatch messages)) (view_of t d) k).
  { intros d1. destruct (deletes _) as [|x l]; [intros [= <-]; by split; [apply only_table_refl|]|]. apply (applyBulkDeletes_clears defaults q). }
  destruct (match deletes _ with [] => _ | _ => _ end) as [d1|]; [|done]. destruct (Hdel d1 eq_refl) as [Ho1 Hv1]. cbn. intros H.
  assert (Hup : only_table (at_table t) d1 d' /\ forall k, view_of t d' k =
    view_upsert (at_primaryKey t) (defaults (at_table t)) (ch_value <$> upserts (foldChangeBatch messages)) (view_of t d1) k).
  { pose proof (fold_upserts_distinct (at_primaryKey t) (defaults (at_table t)) messages Hc) as Hnd.
    destruct (upserts _) as [|x l]; [injection H as <-; by split; [apply only_table_refl|]|]. by eapply (applyUpserts_loads defaults q). }
  destruct Hup as [Ho2 Hv2]. split; [by eapply only_table_trans|]. intros k. rewrite Hv2, <- (fold_view _ _ _ Hc). unfold view_upsert. by rewrite Hv1.
Qed.

(** ** One shape *)

Definition base_view (cleared : bool) (view : list (option V) -> option SyncRow) : list (option V) -> option SyncRow := if cleared then fun _ => None else view.

Lemma applyShape_view held T shapeName spec tx tx' : clears_own spec -> coherent (at_primaryKey (Engine.target spec)) (default [] (held !! shapeName)) ->
  Engine.applyShape options soleOccupants q held T (shapeName, spec) tx = (tx', Ok tt) ->
  only_table (tableOf spec) (Engine.tx_db tx) (Engine.tx_db tx') /\
  ((shapeName ∈ T -> shapeName ∈ soleOccupants) -> forall k, view_of (Engine.target spec) (Engine.tx_db tx') k =
    view_all (at_primaryKey (Engine.target spec)) (defaults (tableOf spec))
      (base_view (bool_decide (shapeName ∈ T)) (view_of (Engine.target spec) (Engine.tx_db tx))) (default [] (held !! shapeName)) k).
Proof.
  intros Hown Hcoh H. unfold Engine.applyShape in H. set (t := Engine.target spec) in *. set (pk := at_primaryKey t) in *.
  set (changes := default [] (held !! shapeName)) in *.
  apply st_bind_Ok in H as (tx1 & u1 & E1 & H).
  assert (H1 : only_table (tableOf spec) (Engine.tx_db tx) (Engine.tx_db tx1) /\ ((shapeName ∈ T -> shapeName ∈ soleOccupants) ->
    forall k, view_of t (Engine.tx_db tx1) k = base_view (bool_decide (shapeName ∈ T)) (view_of t (Engine.tx_db tx)) k)).
  { destruct (decide (shapeName ∈ T)) as [HT|HT].
    - apply on_db_run in E1. rewrite bool_decide_true by done. split; [by eapply clearShape_only|]. intros Hs k. eapply clearShape_empty; [by apply Hs|done].
    - injection E1 as <- _. rewrite bool_decide_false by done. by split; [apply only_table_refl|]. }
  clear E1. destruct H1 as [Ho1 Hv1]. rewrite st_bind_get in H.
  destruct (if default false _ && _ then _ else _) as [backfill rest] eqn:Ep.
  assert (Hplan : NoDup (keyOf pk <$> (ch_value <$> backfill)) /\ coherent pk rest /\ forall view k,
    view_all pk (defaults (tableOf spec)) (view_upsert pk (defaults (tableOf spec)) (ch_value <$> backfill) view) rest k = view_all pk (defaults (tableOf spec)) view changes k).
  { destruct (default false _ && _); [by eapply planBackfill_spec|]. injection Ep as <- <-. split; [apply NoDup_nil_2|]. by split. }
  clear Ep. destruct Hplan as (Hnd & Hcr & Hplan). apply st_bind_Ok in H as (tx2 & u2 & E2 & H).
  assert (H2 : only_table (tableOf spec) (Engine.tx_db tx1) (Engine.tx_db tx2) /\ forall k, view_of t (Engine.tx_db tx2) k =
    view_upsert pk (defaults (tableOf spec)) (ch_value <$> backfill) (view_of t (Engine.tx_db tx1)) k).
  { destruct (decide (backfill = [])) as [->|Hb]; [injection E2 as <- _; by split; [apply only_table_refl|]|].
    apply st_bind_Ok in E2 as (tx3 & u3 & E3 & E2). apply on_db_run in E3. injection E2 as <- _. cbn [Engine.tx_db].
    destruct (applyBackfill_loads spec backfill _ _ E3 Hnd) as [Ho Hv]. done. }
  clear E2. destruct H2 as [Ho2 Hv2]. apply on_db_run in H. destruct (applyFolded_view _ _ _ _ Hcr H) as [Ho3 Hv3].
  split; [by eapply only_table_trans; [|eapply only_table_trans]|]. intros Hs k. rewrite Hv3, <- Hplan.
  apply view_all_ext. rewrite Hv2. unfold view_upsert. by rewrite Hv1.
Qed.
(** ** The whole transaction *)

(** The shapes but one leave its table alone; that one applies what it holds. *)
Lemma applyShapes_other held T (l : list (jsstr * Spec)) tb tx tx' : Forall (fun shape => clears_own shape.2 /\ tableOf shape.2 <> tb) l ->
  Forall (fun shape => coherent (at_primaryKey (Engine.target shape.2)) (default [] (held !! shape.1))) l ->
  forM (Engine.applyShape options soleOccupants q held T) l tx = (tx', Ok tt) ->
  (forall pk k, db_row (Engine.tx_db tx') tb pk k = db_row (Engine.tx_db tx) tb pk k) /\
  forall meta key, db_subscriptions (Engine.tx_db tx') meta key = db_subscriptions (Engine.tx_db tx) meta key.
Proof.
  intros Hl Hc. revert tx. induction Hl as [|[name spec] l [Hown Hne] _ IH]; intros tx H; [by injection H as <-|].
  apply Forall_cons in Hc as [Hc0 Hc]. cbn [forM] in H. apply st_bind_Ok in H as (tx1 & [] & E1 & H).
  destruct (applyShape_view _ _ _ _ _ _ Hown Hc0 E1) as [[Ho1 Ho2] _]. destruct (IH Hc tx1 H) as [I1 I2].
  split; intros; [by rewrite I1, Ho1|by rewrite I2, Ho2].
Qed.

Definition others_apart (shapeName : jsstr) (spec : Spec) : Prop :=
  exists before after, Engine.specs options = before ++ (shapeName, spec) :: after /\
    Forall (fun shape => tableOf shape.2 <> tableOf spec) (before ++ after).

Lemma runCommit_view held offsets T shapeName spec tx tx' : Forall (fun shape => clears_own shape.2) (Engine.specs options) ->
  Forall (fun shape => coherent (at_primaryKey (Engine.target shape.2)) (default [] (held !! shape.1))) (Engine.specs options) ->
  others_apart shapeName spec -> (shapeName ∈ T -> shapeName ∈ soleOccupants) ->
  Engine.runCommit options soleOccupants q held offsets T tx = (tx', Ok tt) ->
  (forall k, view_of (Engine.target spec) (Engine.tx_db tx') k =
    view_all (at_primaryKey (Engine.target spec)) (defaults (tableOf spec))
      (base_view (bool_decide (shapeName ∈ T)) (view_of (Engine.target spec) (Engine.tx_db tx))) (default [] (held !! shapeName)) k) /\
  forall subscriptionKey, Engine.key options = Some subscriptionKey ->
    db_subscriptions (Engine.tx_db tx') (pickMetadataTables (Engine.metadataSchema options) (Engine.sessionScoped options)) subscriptionKey =
      [mkSubscription subscriptionKey (Engine.shapeMetadata options offsets) 0].
Proof.
  intros Hown Hc (before & after & Hsp & Hap) Hs H. unfold Engine.runCommit in H. apply st_bind_Ok in H as (tx1 & [] & H & Hp).
  rewrite Hsp in *. apply Forall_app in Hown as [Hob [Ho Hoa]%Forall_cons], Hc as [Hcb [Hc0 Hca]%Forall_cons], Hap as [Hab Haa].
  assert (Hview : forall k, view_of (Engine.target spec) (Engine.tx_db tx1) k = view_all (at_primaryKey (Engine.target spec)) (defaults (tableOf spec))
      (base_view (bool_decide (shapeName ∈ T)) (view_of (Engine.target spec) (Engine.tx_db tx))) (default [] (held !! shapeName)) k).
  { apply forM_app in H as (txb & Hb & H). cbn [forM] in H. apply st_bind_Ok in H as (txs & [] & Hsh & Ha).
    apply (applyShapes_other _ _ _ (tableOf spec)) in Hb as [Hb _]; [|by apply Forall_and|done].
    apply (applyShapes_other _ _ _ (tableOf spec)) in Ha as [Ha _]; [|by apply Forall_and|done].
    destruct (applyShape_view _ _ _ _ _ _ Ho Hc0 Hsh) as [_ Hv]. intros k. unfold view_of at 1. rewrite Ha. fold (view_of (Engine.target spec) (Engine.tx_db txs) k).
    rewrite (Hv Hs). apply view_all_ext. unfold base_view. repeat case_bool_decide; try done. unfold view_of. apply Hb. }
  apply on_db_run in Hp. unfold Engine.persistOffsets, updateSubscriptionState in Hp. destruct (Engine.key options) as [sk|].
  - split; [|intros ? [= <-]; by apply q_persist_read in Hp]. intros k. rewrite <- Hview. by eapply q_persist_rows.
  - injection Hp as <-. by split.
Qed.
End Commit.

(** ** Sync client: what the engine keeps true

    For a shape that is alone on its table: the table holds exactly the changes of a prefix of the shape's
    stream, the inbox holds the rest of what was delivered, and the persisted offset names the end of the prefix. *)

(** ** The inbox *)

Module InboxLaws.
Import StreamInbox.
Section Laws.
Context {V : Type}.
Implicit Types inbox : StreamInbox V.

Definition of_shape (inbox : StreamInbox V) (s : jsstr) (held : list (BufferedBatch V)) (applied : option jsstr) : Prop :=
  s ∈ shapes inbox /\ batches inbox !! s = Some held /\ appliedOffsetFor inbox s = applied.

Lemma stringLe_refl a : stringLe a a = true.
Proof. induction a as [|x a IH]; [done|]. cbn. by rewrite Z.ltb_irrefl. Qed.
Lemma stringLe_total a b : stringLe a b = true \/ stringLe b a = true.
Proof.
  revert b. induction a as [|x a IH]; intros [|y b]; cbn; auto. destruct (x <? y) eqn:E1, (y <? x) eqn:E2; auto.
Qed.

Lemma filled_lookup {A} (names : list jsstr) (x : A) s : s ∈ names -> filled names x !! s = Some x.
Proof.
  intros Hs. unfold filled. induction names as [|n names IH]; [set_solver|]. cbn. destruct (decide (s = n)) as [->|Hne]; [by rewrite lookup_insert_eq|].
  rewrite lookup_insert_ne by done. apply IH. set_solver.
Qed.

Lemma newInbox_shape names s : s ∈ names -> of_shape (newInbox names) s [] None.
Proof.
  intros Hs. split; [by apply elem_of_remove_dups|]. split; [by apply filled_lookup|]. unfold appliedOffsetFor. cbn [newInbox appliedOffsets].
  by rewrite filled_lookup.
Qed.

Definition last_offset (applied : option jsstr) (held : list (BufferedBatch V)) : option jsstr :=
  match last held with Some batch => Some (offset batch) | None => applied end.

Lemma ingest_shape inbox s held applied changes off upToDate : of_shape inbox s held applied ->
  (forall a, applied = Some a -> stringLe off a = false) -> of_shape (ingestBatch s changes off upToDate inbox) s (held ++ [mkBatch changes off]) applied.
Proof.
  intros (Hs & Hb & Ha) Hoff. unfold ingestBatch. change (appliedOffsetFor (mkInbox _ _ (appliedOffsets inbox) _ _ _ _) s) with (appliedOffsetFor inbox s).
  rewrite Ha. assert ((match applied with Some a => stringLe off a | None => false end) = false) as -> by (destruct applied; auto).
  cbn [batches]. rewrite Hb. split; [done|]. split; [cbn; by rewrite lookup_insert_eq|done].
Qed.

(** An offset that is acknowledged already is dropped. *)
Lemma ingest_known inbox s held applied changes off upToDate : of_shape inbox s held applied ->
  (exists a, applied = Some a /\ stringLe off a = true) -> of_shape (ingestBatch s changes off upToDate inbox) s held applied.
Proof.
  intros (Hs & Hb & Ha) (a & -> & Hle). unfold ingestBatch. change (appliedOffsetFor (mkInbox _ _ (appliedOffsets inbox) _ _ _ _) s) with (appliedOffsetFor inbox s).
  rewrite Ha, Hle. by repeat split.
Qed.

Lemma ingest_other inbox s s' held applied changes off upToDate : s' <> s -> of_shape inbox s held applied ->
  of_shape (ingestBatch s' changes off upToDate inbox) s held applied.
Proof.
  intros Hne (Hs & Hb & Ha). unfold ingestBatch. repeat case_match; split; try done; (split; [|done]); cbn; try done; by rewrite lookup_insert_ne.
Qed.

Lemma peekAll_shape inbox s held applied : of_shape inbox s held applied -> default [] (peekAll inbox !! s) = concat (changes <$> held).
Proof. intros (_ & Hb & _). unfold peekAll. by rewrite lookup_fmap, Hb. Qed.

Lemma pendingOffsets_shape inbox s held applied : of_shape inbox s held applied -> pendingOffsets inbox !! s = last_offset applied held.
Proof.
  intros (_ & Hb & Ha). unfold pendingOffsets. rewrite map_lookup_imap, Hb. cbn. unfold pendingOffset, last_offset. by rewrite Ha.
Qed.

(** *** Acknowledging what nothing has reset since the peek *)
Definition emptied inbox s held applied := of_shape inbox s [] (last_offset applied held).

Lemma ackShape_same epochsAtPeek inbox s held applied : epochsAtPeek = epochs inbox -> of_shape inbox s held applied ->
  emptied (ackShape epochsAtPeek inbox s) s held applied.
Proof.
  intros -> (Hs & Hb & Ha). unfold ackShape, epochFor. assert ((match epochs inbox !! s with Some p => negb (default 0 (epochs inbox !! s) =? p) | None => false end) = false) as ->.
  { destruct (epochs inbox !! s); [cbn; by rewrite Z.eqb_refl|done]. }
  unfold heldFor. rewrite Hb. change (default [] (Some held)) with held. split; [done|]. split; [cbn [batches]; by rewrite lookup_insert_eq|]. unfold appliedOffsetFor, last_offset in *.
  cbn [appliedOffsets]. destruct (last held); [by rewrite lookup_insert_eq|done].
Qed.
Lemma ackShape_other epochsAtPeek inbox s s' held applied : s' <> s -> of_shape inbox s held applied -> of_shape (ackShape epochsAtPeek inbox s') s held applied.
Proof.
  intros Hne (Hs & Hb & Ha). unfold ackShape. case_match; [by repeat split|]. split; [done|]. split; [cbn; by rewrite lookup_insert_ne|].
  unfold appliedOffsetFor in *. cbn [appliedOffsets]. destruct (last _); [by rewrite lookup_insert_ne|done].
Qed.
Lemma ackShape_epochs epochsAtPeek inbox s : epochs (ackShape epochsAtPeek inbox s) = epochs inbox.
Proof. unfold ackShape. by case_match. Qed.

Lemma ackAll_shape inbox s held applied : of_shape inbox s held applied -> of_shape (ackAll (snapshotEpochs inbox) inbox) s [] (last_offset applied held).
Proof.
  intros H. unfold ackAll, snapshotEpochs. remember (epochs inbox) as E eqn:HE. assert (Hin : s ∈ shapes inbox) by apply H. revert Hin.
  generalize (shapes inbox) as l. intros l. revert inbox HE H.
  enough (forall inbox, E = epochs inbox -> (of_shape inbox s held applied -> s ∈ l -> emptied (foldl (ackShape E) inbox l) s held applied) /\
    (emptied inbox s held applied -> emptied (foldl (ackShape E) inbox l) s held applied)) as Hall
    by (intros inbox HE H Hin; exact (proj1 (Hall inbox HE) H Hin)).
  induction l as [|x l IH]; intros inbox HE; [split; [set_solver|done]|]. cbn [foldl].
  destruct (IH (ackShape E inbox x)) as [IH1 IH2]; [by rewrite ackShape_epochs|]. split.
  - intros H Hin. destruct (decide (x = s)) as [->|Hne]; [by apply IH2, ackShape_same|]. apply IH1; [by apply ackShape_other|set_solver].
  - intros H. apply IH2. destruct (decide (x = s)) as [->|Hne]; [|by apply ackShape_other].
    by apply (ackShape_same E inbox s [] (last_offset applied held)).
Qed.

(** Nothing held at all. *)
Lemma hasBuffered_shape inbox s held applied : of_shape inbox s held applied -> hasBufferedBatches inbox = false -> held = [].
Proof.
  intros (Hs & Hb & _) Hn. unfold hasBufferedBatches in Hn. destruct held as [|b held]; [done|]. exfalso. apply not_true_iff_false in Hn. apply Hn, existsb_exists.
  exists s. split; [by apply list_elem_of_In|]. unfold heldFor. by rewrite Hb.
Qed.
End Laws.
End InboxLaws.

(** ** Peeking after the inbox operations *)

Section Peek.
Context {V : Type}.
Import StreamInbox.

Definition peeked (i : StreamInbox V) (n : jsstr) : list (SyncChange V) := default [] (peekAll i !! n).

Lemma peeked_held i n : peeked i n = concat (changes <$> heldFor i n).
Proof. unfold peeked, peekAll, heldFor. rewrite lookup_fmap. by destruct (batches i !! n). Qed.

Lemma peeked_ingest i n s chs off upToDate m : m ∈ peeked (ingestBatch s chs off upToDate i) n -> m ∈ peeked i n \/ (n = s /\ m ∈ chs).
Proof.
  rewrite !peeked_held. unfold heldFor, ingestBatch. case_match; [by left|]. cbn [batches]. destruct (batches i !! s) as [held|] eqn:E; [|by left].
  cbn [set_batches batches]. destruct (decide (n = s)) as [->|Hne]; [|rewrite lookup_insert_ne by done; by left].
  rewrite lookup_insert_eq, E. cbn [from_option id]. rewrite fmap_app, concat_app. cbn. rewrite app_nil_r. set_solver.
Qed.

Lemma peeked_ackShape E i n s m : m ∈ peeked (ackShape E i s) n -> m ∈ peeked i n.
Proof.
  rewrite !peeked_held. unfold heldFor, ackShape. case_match; [done|]. cbn [batches]. destruct (decide (n = s)) as [->|Hne]; [|by rewrite lookup_insert_ne].
  rewrite lookup_insert_eq. cbn. set_solver.
Qed.
Lemma peeked_ackAll E i n m : m ∈ peeked (ackAll E i) n -> m ∈ peeked i n.
Proof.
  unfold ackAll. generalize (shapes i) as l. intros l. revert i. induction l as [|s l IH]; intros i; [done|]. cbn [foldl]. intros H.
  by apply IH, peeked_ackShape in H.
Qed.
End Peek.

(** ** Commits *)

Module EngineLaws.
Import StreamInbox InboxLaws.

Section Laws.
Context {V D : Type} `{EqDecision V} {db : Database V D} (defaults : jsstr -> gmap jsstr V).
Context (options : Engine.CircuitsSyncOptions V D) (soleOccupants : gset jsstr).
Context (numberCell : jsstr -> V) (boolCell : bool -> V) (textCell : jsstr -> V) (cellText : V -> option jsstr) (parseJson : jsstr -> option V).

Abbreviation Change := (SyncChange V).
Abbreviation State := (Engine.Engine V D).
Abbreviation Spec := (Engine.CircuitsShapeSpec V D).
Abbreviation tableOf := (fun spec : Spec => at_table (Engine.target spec)).
Abbreviation step := (Engine.step options soleOccupants numberCell boolCell textCell cellText parseJson).
Abbreviation run := (Engine.run options soleOccupants numberCell boolCell textCell cellText parseJson).
Abbreviation changesOf := (Engine.changesOf options numberCell boolCell textCell cellText parseJson).

Definition lawful_attempts (attempts : nat -> Engine.Attempt V D) : Prop := forall n, LawfulStatements defaults (Engine.statements (attempts n)).

(** A commit either leaves the database and the inbox alone, or ran one whole transaction. *)
Definition no_commit (e e' : State) : Prop :=
  Engine.database e' = Engine.database e /\ Engine.inbox e' = Engine.inbox e /\ Engine.truncateNeeded e' = Engine.truncateNeeded e /\
  (Engine.unsubscribed e = true -> Engine.unsubscribed e' = true).

Definition one_commit (attempts : nat -> Engine.Attempt V D) held epochsAtPeek offsets T (e e' : State) : Prop :=
  exists n bulk tx, Engine.runCommit options soleOccupants (Engine.statements (attempts n)) held offsets T (Engine.mkTx (Engine.database e) bulk) = (tx, Ok tt) /\
    Engine.database e' = Engine.tx_db tx /\
    ((Engine.unsubscribed e' = true /\ Engine.inbox e' = Engine.inbox e) \/
     (Engine.inbox e' = ackAll epochsAtPeek (Engine.inbox e) /\ Engine.truncateNeeded e' = Engine.truncateNeeded e ∖ T)).

Lemma acknowledge_fields epochsAtPeek T (e : State) :
  Engine.database (Engine.acknowledge epochsAtPeek T e) = Engine.database e /\
  Engine.inbox (Engine.acknowledge epochsAtPeek T e) = ackAll epochsAtPeek (Engine.inbox e) /\
  Engine.truncateNeeded (Engine.acknowledge epochsAtPeek T e) = Engine.truncateNeeded e ∖ T.
Proof. unfold Engine.acknowledge, Engine.signalInitialSyncIfReady. by case_match. Qed.

Lemma commitAttempts_cases fuel attempts held epochsAtPeek offsets T (e : State) :
  no_commit e (Engine.commitAttempts options soleOccupants fuel attempts held epochsAtPeek offsets T e) \/
  one_commit attempts held epochsAtPeek offsets T e (Engine.commitAttempts options soleOccupants fuel attempts held epochsAtPeek offsets T e).
Proof.
  revert e. induction fuel as [|fuel IH]; intros e; [by left|]. cbn [Engine.commitAttempts]. set (a := attempts _).
  destruct (_ || _); [by left|].
  destruct (Engine.runCommit _ _ _ _ _ _ _) as [tx [[]|err]] eqn:E.
  - destruct (Engine.teardown a); [right|right|by left|right]; try (eexists _, _, tx; split; [exact E|]; split; [try apply acknowledge_fields; done|]).
    1,2: right; by destruct (acknowledge_fields epochsAtPeek T (Engine.set_tx e (Engine.tx_db tx) (Engine.tx_bulk tx))) as (_ & -> & ->).
    by left.
  - destruct (Engine.teardown a); [| |by left|by left]; destruct (IH (Engine.set_tx e (Engine.database e) (Engine.tx_bulk tx))) as [H|H];
      (left; exact H) || (right; exact H).
Qed.

Lemma commitHeld_cases attempts (e : State) : no_commit e (Engine.commitHeld options soleOccupants attempts e) \/
  one_commit attempts (peekAll (Engine.inbox e)) (snapshotEpochs (Engine.inbox e)) (pendingOffsets (Engine.inbox e)) (Engine.truncateNeeded e) e
    (Engine.commitHeld options soleOccupants attempts e).
Proof. apply commitAttempts_cases. Qed.

(** The gate changes no batch. *)
Lemma gateOpen_fields barrier (e : State) opened e' : Engine.gateOpen barrier e = (opened, e') ->
  Engine.database e' = Engine.database e /\ Engine.truncateNeeded e' = Engine.truncateNeeded e /\ Engine.unsubscribed e' = Engine.unsubscribed e /\
  Engine.rejected e' = Engine.rejected e /\ Engine.closed e' = Engine.closed e /\
  (Engine.inbox e' = Engine.inbox e \/ Engine.inbox e' = markAligned (Engine.inbox e)).
Proof. unfold Engine.gateOpen. intros H. repeat case_match; simplify_eq; cbn; repeat split; auto. Qed.

Lemma enqueue_cases barrier attempts (e : State) : let e' := Engine.enqueueCommit options soleOccupants barrier attempts e in
  exists e1, Engine.database e1 = Engine.database e /\ Engine.truncateNeeded e1 = Engine.truncateNeeded e /\ Engine.unsubscribed e1 = Engine.unsubscribed e /\
    (Engine.inbox e1 = Engine.inbox e \/ Engine.inbox e1 = markAligned (Engine.inbox e)) /\
    (no_commit e1 e' \/
     one_commit attempts (peekAll (Engine.inbox e1)) (snapshotEpochs (Engine.inbox e1)) (pendingOffsets (Engine.inbox e1)) (Engine.truncateNeeded e1) e1 e').
Proof.
  intros e'. subst e'. unfold Engine.enqueueCommit. destruct (_ || _); [by exists e; repeat split; auto; left|].
  destruct (Engine.gateOpen barrier e) as [opened e1] eqn:Eg. destruct (gateOpen_fields _ _ _ _ Eg) as (H1 & H2 & H3 & _ & _ & H4).
  exists e1. do 4 (split; [done|]). destruct opened; [apply commitHeld_cases|by left].
Qed.

(** ** What is delivered *)

Definition batchOf (n : jsstr) (event : Engine.Event V D) : option (BufferedBatch V) :=
  match event with
  | Engine.Deliver delivery _ _ =>
      if decide (Engine.dl_shape delivery = n) then
        match changesOf delivery with Ok chs => Some (mkBatch chs (Engine.dl_offset delivery)) | Throw _ => None end
      else None
  | Engine.Unsubscribe => None
  end.
Definition streamOf (n : jsstr) (events : list (Engine.Event V D)) : list (BufferedBatch V) := omap (batchOf n) events.
Definition changesIn (batches : list (BufferedBatch V)) : list Change := concat (changes <$> batches).

Lemma streamOf_app n a b : streamOf n (a ++ b) = streamOf n a ++ streamOf n b.
Proof. apply omap_app. Qed.
Lemma changesIn_app a b : changesIn (a ++ b) = changesIn a ++ changesIn b.
Proof. unfold changesIn. by rewrite fmap_app, concat_app. Qed.

Definition event_ok (event : Engine.Event V D) : Prop := match event with Engine.Deliver _ _ attempts => lawful_attempts attempts | Engine.Unsubscribe => True end.

(** The offsets of a stream grow with every change; a batch without changes may repeat the offset it follows,
    which is what a long poll that times out hands over. *)
Definition follows (a b : BufferedBatch V) : Prop :=
  stringLe (offset b) (offset a) = false \/ (changes b = [] /\ offset b = offset a).
Definition advancing (batches : list (BufferedBatch V)) : Prop := StronglySorted follows batches.

Lemma advancing_snoc a b : advancing (a ++ [b]) -> advancing a /\ Forall (fun x => follows x b) a.
Proof.
  unfold advancing. induction a as [|x a IH]; [by split; constructor|]. cbn [app]. intros [Hs Hx]%StronglySorted_inv. apply IH in Hs as [Hs Hb].
  apply Forall_app in Hx as [Hx Hxb%Forall_inv]. by split; constructor.
Qed.

(** What is still held of a stream lies beyond the offset that is applied. *)
Definition beyond (applied : option jsstr) (held : list (BufferedBatch V)) : Prop :=
  Forall (fun b => forall a, applied = Some a -> stringLe (offset b) a = false) held.

Lemma last_offset_app {W} (a b : list (BufferedBatch W)) o : last_offset (last_offset o a) b = last_offset o (a ++ b).
Proof. unfold last_offset. rewrite last_app. by destruct (last b). Qed.

(** ** One shape *)

Section Shape.
Context (s : jsstr) (spec : Spec) (d0 : D) (T0 : gset jsstr).
Context (names_distinct : NoDup (Engine.shapeNames options)).
Context (clears : Forall (fun shape => clears_own shape.2) (Engine.specs options)).
Context (apart : others_apart options s spec).
Context (sole : s ∈ soleOccupants).

Abbreviation pk := (at_primaryKey (Engine.target spec)).
Abbreviation view := (view_of (Engine.target spec)).
Abbreviation meta := (pickMetadataTables (Engine.metadataSchema options) (Engine.sessionScoped options)).

(** The rows a prefix of the stream stands for: from the rows there were, or from none where the shape re-snapshots. *)
Definition rows_after (committed : list (BufferedBatch V)) : list (option V) -> option (gmap jsstr V) :=
  view_all pk (defaults (tableOf spec)) (base_view (bool_decide (s ∈ T0)) (view d0)) (changesIn committed).

Definition persisted (d : D) (committed : list (BufferedBatch V)) : Prop := forall sk, Engine.key options = Some sk ->
  exists row, db_subscriptions d meta sk = [row] /\ sub_shape_metadata row !! s =
    Some (mkShapeState (Engine.streamUrl spec) (default Engine.START_OFFSET (last_offset None committed)) (Engine.shapeKey spec) (Engine.scope spec)).

Definition untouched (d : D) : Prop := (forall k, view d k = view d0 k) /\ forall sk, Engine.key options = Some sk -> db_subscriptions d meta sk = db_subscriptions d0 meta sk.

Definition alive (e : State) : Prop := Engine.unsubscribed e = false /\ Engine.rejected e = false /\ Engine.closed e = false.

Definition table_state (committed : list (BufferedBatch V)) (e : State) : Prop :=
  (committed = [] /\ untouched (Engine.database e) /\ (alive e -> Engine.truncateNeeded e = T0)) \/
  ((forall k, view (Engine.database e) k = rows_after committed k) /\ persisted (Engine.database e) committed /\
   (alive e -> not (s ∈ Engine.truncateNeeded e))).

Definition inv (events : list (Engine.Event V D)) (e : State) : Prop :=
  (forall n m, m ∈ peeked (Engine.inbox e) n -> m ∈ changesIn (streamOf n events)) /\
  exists committed rest, (committed ++ rest) `prefix_of` streamOf s events /\
    (alive e -> committed ++ rest = streamOf s events /\ of_shape (Engine.inbox e) s rest (last_offset None committed) /\
       beyond (last_offset None committed) rest) /\
    table_state committed e.

(** One transaction moves everything held into the table. *)
Lemma commit_state attempts committed rest (e e' : State) : lawful_attempts attempts -> alive e ->
  of_shape (Engine.inbox e) s rest (last_offset None committed) -> table_state committed e ->
  Forall (fun shape => coherent (at_primaryKey (Engine.target shape.2)) (peeked (Engine.inbox e) shape.1)) (Engine.specs options) ->
  one_commit attempts (peekAll (Engine.inbox e)) (snapshotEpochs (Engine.inbox e)) (pendingOffsets (Engine.inbox e)) (Engine.truncateNeeded e) e e' ->
  (forall k, view (Engine.database e') k = rows_after (committed ++ rest) k) /\ persisted (Engine.database e') (committed ++ rest) /\
  (alive e' -> not (s ∈ Engine.truncateNeeded e') /\ of_shape (Engine.inbox e') s [] (last_offset None (committed ++ rest))).
Proof.
  intros Hl Ha Hsh Ht Hcoh (n & bulk & tx & Hrun & Hdb & Hend). assert (Hq := Hl n).
  destruct (runCommit_view defaults options soleOccupants _ _ _ _ _ _ _ _ clears Hcoh apart (fun _ => sole) Hrun) as [Hv Hp]. cbn [Engine.tx_db] in Hv.
  rewrite Hdb. split; [|split].
  - intros k. rewrite Hv, (peekAll_shape _ _ _ _ Hsh). unfold rows_after. rewrite changesIn_app, view_all_app. apply view_all_ext.
    destruct Ht as [(-> & [Hu _] & HT)|(Hr & _ & HT)].
    + rewrite (HT Ha). unfold base_view, changesIn. cbn. repeat case_bool_decide; done || apply Hu.
    + rewrite bool_decide_false by auto. unfold base_view at 1. apply Hr.
  - intros sk Hsk. exists (mkSubscription sk (Engine.shapeMetadata options (pendingOffsets (Engine.inbox e))) 0). split; [by apply Hp|]. cbn [sub_shape_metadata].
    unfold Engine.shapeMetadata. destruct apart as (before & after & Hsp & _).
    apply elem_of_list_to_map_1; [by rewrite <- list_fmap_compose|]. apply list_elem_of_fmap. exists (s, spec). split; [|rewrite Hsp; set_solver].
    cbn. by rewrite (pendingOffsets_shape _ _ _ _ Hsh), last_offset_app.
  - intros Ha'. destruct Hend as [[Hu _]|[Hi HT]]; [by destruct Ha' as [Hf _]; rewrite Hu in Hf|]. rewrite Hi, HT. split.
    + destruct Ht as [(_ & _ & HT')|(_ & _ & HT')]; [|set_solver]. set_solver.
    + rewrite <- last_offset_app. by apply ackAll_shape.
Qed.

(** ** One step *)

Lemma table_state_same committed (e e' : State) : Engine.database e' = Engine.database e -> (alive e' -> alive e /\ Engine.truncateNeeded e' = Engine.truncateNeeded e) ->
  table_state committed e -> table_state committed e'.
Proof.
  intros Hd Ha [(-> & Hu & HT)|(Hv & Hp & HT)]; [left|right]; rewrite Hd; (split; [done|]); (split; [done|]).
  - intros [Ha1 Ha2]%Ha. rewrite Ha2. auto.
  - intros [Ha1 Ha2]%Ha. rewrite Ha2. auto.
Qed.

(** A step that does nothing but what the invariant does not see. *)
Lemma inv_idle events event (e e' : State) : inv events e -> Engine.database e' = Engine.database e -> Engine.inbox e' = Engine.inbox e ->
  (alive e' -> alive e /\ Engine.truncateNeeded e' = Engine.truncateNeeded e /\ batchOf s event = None) -> inv (events ++ [event]) e'.
Proof.
  intros (Hp & committed & rest & Hpre & Hal & Ht) Hd Hi Ha. split.
  - intros n m Hm. rewrite Hi in Hm. rewrite streamOf_app, changesIn_app. apply Hp in Hm. set_solver.
  - exists committed, rest. split; [rewrite streamOf_app; by apply prefix_app_r|]. split.
    + intros (Ha1 & _ & Hb)%Ha. destruct (Hal Ha1) as [Hs [Hsh Hby]]. rewrite Hi. split; [|by split].
      rewrite streamOf_app, Hs. unfold streamOf at 2. cbn. rewrite Hb. by rewrite app_nil_r.
    + apply (table_state_same _ e); [done| |done]. intros (? & ? & _)%Ha. done.
Qed.

(** The commit after a delivery. *)
Lemma inv_commit events barrier attempts (e : State) : lawful_attempts attempts -> alive e ->
  Forall (fun shape => coherent (at_primaryKey (Engine.target shape.2)) (changesIn (streamOf shape.1 events))) (Engine.specs options) ->
  inv events e -> inv events (Engine.enqueueCommit options soleOccupants barrier attempts e).
Proof.
  intros Hl Ha Hcoh (Hp & committed & rest & Hpre & Hal & Ht). destruct (Hal Ha) as [Hs [Hsh Hby]].
  destruct (enqueue_cases barrier attempts e) as (e1 & Hd1 & HT1 & Hu1 & Hi1 & Hc). set (e' := Engine.enqueueCommit _ _ _ _ _) in *. clearbody e'.
  assert (Hp1 : forall n m, m ∈ peeked (Engine.inbox e1) n -> m ∈ changesIn (streamOf n events)) by (intros n m Hm; destruct Hi1 as [Hi1|Hi1]; rewrite Hi1 in Hm; by apply Hp).
  assert (Hsh1 : of_shape (Engine.inbox e1) s rest (last_offset None committed)) by (destruct Hi1 as [-> | ->]; done).
  destruct Hc as [(Hd & Hi & HT & Hu)|Hc].
  - split; [intros n m; rewrite Hi; apply Hp1|]. exists committed, rest. split; [done|]. split; [intros _; by rewrite Hi|].
    apply (table_state_same _ e); [by rewrite Hd|intros _; split; [done|by rewrite HT]|done].
  - split.
    + intros n m Hm. destruct Hc as (? & ? & ? & _ & _ & [[_ Hi]|[Hi _]]); rewrite Hi in Hm; [by apply Hp1|]. by apply Hp1, (peeked_ackAll (snapshotEpochs (Engine.inbox e1))).
    + set (ea := Engine.mkEngine (Engine.database e1) (Engine.inbox e1) (Engine.useBulkBackfill e1) (Engine.truncateNeeded e1) false (Engine.degraded e1)
        (Engine.initialSyncSignalled e1) false (Engine.caughtUp e1) false).
      assert (Haa : alive ea) by done.
      destruct (commit_state attempts committed rest ea e' Hl Haa Hsh1) as (Hv & Hpe & He'); [| |exact Hc|].
      * apply (table_state_same _ e); [done|intros _; by split|done].
      * apply (Forall_impl _ _ _ Hcoh). intros [n sp] Hco. apply (coherent_incl _ _ _ Hco). intros m Hm. by apply Hp1.
      * exists (committed ++ rest), []. rewrite app_nil_r. split; [done|]. split; [intros Ha'; split; [done|]; split; [by apply He'|by constructor]|].
        right. split; [done|]. split; [done|]. intros Ha'. by apply He'.
Qed.

(** A batch that is handed over: the inbox keeps it after what it holds, or the batch says nothing new. *)
Lemma ingest_follows inbox committed rest chs off upToDate :
  of_shape inbox s rest (last_offset None committed) -> beyond (last_offset None committed) rest ->
  Forall (fun x => follows x (mkBatch chs off)) (committed ++ rest) ->
  (of_shape (ingestBatch s chs off upToDate inbox) s (rest ++ [mkBatch chs off]) (last_offset None committed) /\
   beyond (last_offset None committed) (rest ++ [mkBatch chs off])) \/
  (chs = [] /\ rest = [] /\ last_offset None committed = Some off /\
   of_shape (ingestBatch s chs off upToDate inbox) s [] (last_offset None committed)).
Proof.
  intros Hsh Hby Hall. destruct (last_offset None committed) as [a|] eqn:Ela.
  2:{ left. split; [by apply ingest_shape|]. apply Forall_app. split; [done|]. by constructor. }
  destruct (stringLe off a) eqn:Ele.
  - right. unfold last_offset in Ela. destruct (last committed) as [c|] eqn:El; [|done]. injection Ela as <-.
    apply Forall_app in Hall as [Hc Hr]. rewrite Forall_forall in Hc. apply last_Some_elem_of in El.
    destruct (Hc c El) as [Hlt|[Hch Heq]]; cbn [offset changes] in *; [congruence|]. split; [done|].
    assert (rest = []) as ->.
    { destruct rest as [|r rest]; [done|exfalso]. apply Forall_inv in Hby, Hr. specialize (Hby _ eq_refl).
      destruct Hr as [Hlt|[_ Hr]]; cbn [offset] in *; [|rewrite Hr in Heq; rewrite Heq, stringLe_refl in Hby; done].
      rewrite Heq in Hlt. destruct (stringLe_total (offset c) (offset r)); congruence. }
    split; [done|]. split; [by rewrite Heq|]. by apply ingest_known; [|exists (offset c)].
  - left. split; [by apply ingest_shape; [|intros ? [= <-]]|]. apply Forall_app. split; [done|]. constructor; [by intros ? [= <-]|constructor].
Qed.

(** A batch without changes at the offset that is committed leaves the table where it is. *)
Lemma table_state_repeated committed off (e : State) : last_offset None committed = Some off -> table_state committed e ->
  table_state (committed ++ [mkBatch [] off]) e.
Proof.
  intros Hla [(-> & _)|(Hv & Hp & HT)]; [done|right]. split; [|split; [|done]].
  - intros k. rewrite Hv. unfold rows_after. rewrite changesIn_app. unfold changesIn at 3. cbn. by rewrite app_nil_r.
  - intros sk Hsk. destruct (Hp sk Hsk) as (row & Hr & Hm). exists row. split; [done|]. rewrite Hm, Hla. unfold last_offset. by rewrite last_snoc.
Qed.

Lemma inv_step events event (e : State) : event_ok event -> advancing (streamOf s (events ++ [event])) ->
  Forall (fun shape => coherent (at_primaryKey (Engine.target shape.2)) (changesIn (streamOf shape.1 (events ++ [event])))) (Engine.specs options) ->
  inv events e -> inv (events ++ [event]) (step e event).
Proof.
  intros Hok Hinc Hcoh Hinv. destruct event as [delivery barrier attempts|].
  2:{ eapply inv_idle; [done|done|done|]. by intros (_ & _ & ?). }
  unfold Engine.step. destruct (Engine.closed e) eqn:Ec; [eapply inv_idle; [done..|]; intros (_ & _ & Hc); by rewrite Ec in Hc|].
  set (e1 := Engine.mkEngine _ _ _ _ _ _ _ _ _ _). destruct (Engine.rejected e1) eqn:Er; [eapply inv_idle; [done..|]; intros (_ & Hr & _); by rewrite Er in Hr|].
  unfold Engine.onBatch. destruct (Engine.unsubscribed e1) eqn:Eu; [eapply inv_idle; [done..|]; intros (Hu & _ & _); by rewrite Eu in Hu|].
  destruct (changesOf delivery) as [chs|err] eqn:Ech; [|eapply inv_idle; [done..|]; by intros (_ & ? & _)].
  assert (Ha : alive e) by done. set (e2 := Engine.set_inbox _ _).
  apply inv_commit; [done|done|done|]. destruct Hinv as (Hp & committed & rest & Hpre & Hal & Ht). destruct (Hal Ha) as [Hs [Hsh Hby]]. split.
  - intros n m Hm. rewrite streamOf_app, changesIn_app. apply elem_of_app. apply peeked_ingest in Hm as [Hm|[-> Hm]]; [left; by apply Hp|right].
    unfold changesIn, streamOf. cbn. rewrite decide_True by done. rewrite Ech. cbn. by rewrite app_nil_r.
  - destruct (decide (Engine.dl_shape delivery = s)) as [Hds|Hds].
    + assert (Hst : streamOf s (events ++ [Engine.Deliver delivery barrier attempts]) = streamOf s events ++ [mkBatch chs (Engine.dl_offset delivery)]).
      { rewrite streamOf_app. unfold streamOf at 2. cbn. rewrite decide_True by done. by rewrite Ech. }
      rewrite Hst in Hinc. apply advancing_snoc in Hinc as [_ Hall]. rewrite <- Hs in Hall. unfold e2. cbn [Engine.inbox Engine.set_inbox]. rewrite Hst, Hds.
      destruct (ingest_follows _ committed rest chs (Engine.dl_offset delivery) (Engine.dl_upToDate delivery) Hsh Hby Hall) as [[Hsh' Hby']|(-> & -> & Hla & Hsh')].
      * exists committed, (rest ++ [mkBatch chs (Engine.dl_offset delivery)]). rewrite app_assoc, Hs. split; [done|]. split; [done|by apply (table_state_same _ e)].
      * exists (committed ++ [mkBatch [] (Engine.dl_offset delivery)]), []. rewrite app_nil_r in *. rewrite Hs. split; [done|]. split.
        -- intros _. split; [done|]. split; [|by constructor]. rewrite Hla in Hsh'. unfold last_offset. by rewrite <- Hs, last_snoc.
        -- rewrite <- Hs. apply table_state_repeated; [done|by apply (table_state_same _ e)].
    + assert (Hst : streamOf s (events ++ [Engine.Deliver delivery barrier attempts]) = streamOf s events).
      { rewrite streamOf_app. unfold streamOf at 2. cbn. rewrite decide_False by done. by rewrite app_nil_r. }
      exists committed, rest. rewrite Hst. split; [done|]. split; [|by apply (table_state_same _ e)]. intros _. split; [done|]. split; [by apply ingest_other|done].
Qed.

Theorem inv_run events (e0 : State) : Engine.database e0 = d0 -> Engine.truncateNeeded e0 = T0 -> of_shape (Engine.inbox e0) s [] None ->
  (forall n, peeked (Engine.inbox e0) n = []) -> alive e0 -> Forall event_ok events -> advancing (streamOf s events) ->
  Forall (fun shape => coherent (at_primaryKey (Engine.target shape.2)) (changesIn (streamOf shape.1 events))) (Engine.specs options) ->
  inv events (run e0 events).
Proof.
  intros Hd HT Hsh Hp Ha. induction events as [|event events IH] using rev_ind; intros Hok Hinc Hcoh.
  - change (inv [] e0). split; [intros n m; rewrite Hp; set_solver|]. exists [], []. split; [apply prefix_nil|]. split; [intros _; split; [done|]; split; [done|by constructor]|]. left. split; [done|]. unfold untouched. rewrite Hd. by split.
  - apply Forall_app in Hok as [Hok Hev%Forall_inv]. unfold Engine.run. rewrite foldl_app. cbn [foldl]. apply inv_step; [done|done|done|].
    apply IH; [done| |].
    + rewrite streamOf_app in Hinc. revert Hinc. generalize (streamOf s [event]) as l. intros l. revert Hp Hok. clear. intros _ _.
      induction l as [|b l IH] using rev_ind; [by rewrite app_nil_r|]. rewrite app_assoc. intros [H _]%advancing_snoc. auto.
    + apply (Forall_impl _ _ _ Hcoh). intros [n sp] Hco. apply (coherent_incl _ _ _ Hco). intros m Hm. cbn. rewrite streamOf_app, changesIn_app. set_solver.
Qed.
End Shape.
End Laws.
End EngineLaws.
