(* ===== verification/SyncExamples.v ===== *)
(** * Sync client: a database in memory

    Statements over finite maps, at which the theorems on the sync client are instantiated. A table is keyed by
    the primary key its statements name; an INSERT and a COPY refuse a key that is present or repeated. *)

From S2P Require Export SyncViews SyncEngineLaws.

Section Memory.

Abbreviation Cells := (gmap jsstr Z).
Abbreviation RowKey := (jsstr * list jsstr * list (option Z))%type.

Record MemoryDb : Type := mkMemory { mem_rows : gmap RowKey Cells; mem_subscriptions : gmap (jsstr * jsstr) (SubscriptionRow Z) }.

#[global] Instance memory_database : Database Z MemoryDb := {|
  db_row := fun d tb pk k => mem_rows d !! (tb, pk, k);
  db_subscriptions := fun d meta key => option_list (mem_subscriptions d !! (meta, key)) |}.

Definition set_rows (d : MemoryDb) (rows : gmap RowKey Cells) : MemoryDb := mkMemory rows (mem_subscriptions d).

Definition put (tb : jsstr) (pk : list jsstr) (rows : gmap RowKey Cells) (row : Cells) : gmap RowKey Cells :=
  <[(tb, pk, keyOf pk row) := row ∪ default ∅ (rows !! (tb, pk, keyOf pk row))]> rows.
Definition cut (tb : jsstr) (pk : list jsstr) (rows : gmap RowKey Cells) (row : Cells) : gmap RowKey Cells := delete (tb, pk, keyOf pk row) rows.
Definition putNew (tb : jsstr) (pk : list jsstr) (rows : gmap RowKey Cells) (row : Cells) : result SyncError (gmap RowKey Cells) :=
  throw_if (bool_decide (is_Some (rows !! (tb, pk, keyOf pk row)))) StatementError ≫= fun _ => Ok (<[(tb, pk, keyOf pk row) := row]> rows).

Definition memory : Statements Z MemoryDb := {|
  q_upsert := fun tb pk rows d => Ok (set_rows d (foldl (put tb pk) (mem_rows d) rows));
  q_insert := fun tb pk rows d => rows ← foldM (putNew tb pk) (mem_rows d) rows; Ok (set_rows d rows);
  q_delete := fun tb pk rows d => Ok (set_rows d (foldl (cut tb pk) (mem_rows d) rows));
  q_truncate := fun tb d => Ok (set_rows d (filter (fun row : RowKey * Cells => row.1.1.1 <> tb) (mem_rows d)));
  q_hasRows := fun tb d => Ok (negb (bool_decide (map_Forall (fun (k : RowKey) _ => k.1.1 <> tb) (mem_rows d))));
  q_persist := fun meta row d => Ok (mkMemory (mem_rows d) (<[(meta, sub_key row) := row]> (mem_subscriptions d)));
  q_subscriptions := fun meta key d => Ok (option_list (mem_subscriptions d !! (meta, key))) |}.

Lemma put_rows tb pk rows : NoDup (keyOf pk <$> rows) -> forall m (k : list (option Z)),
  foldl (put tb pk) m rows !! (tb, pk, k) = match row_with pk k rows with Some row => Some (row ∪ default ∅ (m !! (tb, pk, k))) | None => m !! (tb, pk, k) end.
Proof.
  induction rows as [|r rows IH]; intros Hn m k; [done|]. cbn [fmap list_fmap] in Hn. apply NoDup_cons in Hn as [Hr Hn]. cbn [foldl]. rewrite IH by done.
  rewrite row_with_cons. unfold put. destruct (decide (keyOf pk r = k)) as [<-|Hk].
  - by rewrite row_with_notin, lookup_insert_eq.
  - by rewrite lookup_insert_ne by congruence.
Qed.

Lemma putNew_Ok tb pk m r m1 : putNew tb pk m r = Ok m1 -> m !! (tb, pk, keyOf pk r) = None /\ m1 = <[(tb, pk, keyOf pk r) := r]> m.
Proof. unfold putNew. case_bool_decide as Hs; [done|]. intros [= <-]. split; [by apply eq_None_not_Some|done]. Qed.

Lemma putNew_rows tb pk rows : forall m m', foldM (putNew tb pk) m rows = Ok m' -> NoDup (keyOf pk <$> rows) -> forall k : list (option Z),
  m' !! (tb, pk, k) = match row_with pk k rows with Some row => Some row | None => m !! (tb, pk, k) end.
Proof.
  induction rows as [|r rows IH]; intros m m' H Hn k; [by injection H as <-|]. cbn [fmap list_fmap] in Hn. apply NoDup_cons in Hn as [Hr Hn]. cbn [foldM] in H.
  destruct (putNew tb pk m r) as [m1|] eqn:Er; [|done]. apply putNew_Ok in Er as [_ ->]. rewrite (IH _ _ H Hn), row_with_cons.
  destruct (decide (keyOf pk r = k)) as [<-|Hk]; [by rewrite row_with_notin, lookup_insert_eq|by rewrite lookup_insert_ne by congruence].
Qed.

Lemma putNew_fresh tb pk rows : forall m m' row, foldM (putNew tb pk) m rows = Ok m' -> row ∈ rows -> m !! (tb, pk, keyOf pk row) = None.
Proof.
  induction rows as [|r rows IH]; intros m m' row H Hin; [set_solver|]. cbn [foldM] in H. destruct (putNew tb pk m r) as [m1|] eqn:Er; [|done].
  apply putNew_Ok in Er as [Hnone ->]. cbn in H. apply elem_of_cons in Hin as [->|Hin]; [done|].
  specialize (IH _ _ _ H Hin). destruct (decide (keyOf pk r = keyOf pk row)) as [E|E]; [by rewrite E, lookup_insert_eq in IH|].
  by rewrite lookup_insert_ne in IH by congruence.
Qed.

Lemma cut_rows tb pk rows : forall m (k : list (option Z)), foldl (cut tb pk) m rows !! (tb, pk, k) = match row_with pk k rows with Some _ => None | None => m !! (tb, pk, k) end.
Proof.
  induction rows as [|r rows IH]; intros m k; [done|]. cbn [foldl]. rewrite IH, row_with_cons. unfold cut. destruct (decide (keyOf pk r = k)) as [<-|Hk].
  - rewrite lookup_delete_eq. by case_match.
  - by rewrite lookup_delete_ne by congruence.
Qed.

Lemma foldl_other {A} (f : gmap RowKey Cells -> A -> gmap RowKey Cells) tb : (forall m x (k : RowKey), k.1.1 <> tb -> f m x !! k = m !! k) ->
  forall l m (k : RowKey), k.1.1 <> tb -> foldl f m l !! k = m !! k.
Proof. intros Hf l. induction l as [|x l IH]; intros m k Hk; [done|]. cbn [foldl]. by rewrite IH, Hf. Qed.

Lemma putNew_other tb pk rows : forall m m' (k : RowKey), foldM (putNew tb pk) m rows = Ok m' -> k.1.1 <> tb -> m' !! k = m !! k.
Proof.
  induction rows as [|r rows IH]; intros m m' k H Hk; [by injection H as <-|]. cbn [foldM] in H. destruct (putNew tb pk m r) as [m1|] eqn:Er; [|done].
  apply putNew_Ok in Er as [_ ->]. cbn in H. rewrite (IH _ _ _ H Hk). rewrite lookup_insert_ne; [done|]. intros <-. by apply Hk.
Qed.

#[global] Instance memory_lawful : LawfulStatements (fun _ => ∅) memory.
Proof.
  split; cbn.
  - intros tb pk rows d d' [= <-] Hn k. cbn. by rewrite (put_rows tb pk rows Hn).
  - intros tb pk rows d d' [= <-]. split; [|done]. intros other pk' k Hne. cbn. apply (foldl_other _ tb); [|done].
    intros m x k' Hk'. unfold put. rewrite lookup_insert_ne; [done|]. by intros <-.
  - intros tb pk rows d d' H Hn k. destruct (foldM _ _ rows) as [m|] eqn:E; [|done]. injection H as <-. cbn. rewrite (putNew_rows tb pk rows _ _ E Hn).
    destruct (row_with pk k rows); [by rewrite map_union_empty|done].
  - intros tb pk rows d d' row H Hin. destruct (foldM _ _ rows) as [m|] eqn:E; [|done]. by apply (putNew_fresh tb pk rows _ _ row E).
  - intros tb pk rows d d' H. destruct (foldM _ _ rows) as [m|] eqn:E; [|done]. injection H as <-. split; [|done]. intros other pk' k Hne. cbn.
    by apply (putNew_other tb pk rows _ _ (other, pk', k) E).
  - intros tb pk rows d d' [= <-] k. cbn. apply cut_rows.
  - intros tb pk rows d d' [= <-]. split; [|done]. intros other pk' k Hne. cbn. apply (foldl_other _ tb); [|done].
    intros m x k' Hk'. unfold cut. rewrite lookup_delete_ne; [done|]. by intros <-.
  - intros tb d d' [= <-] pk k. cbn. apply map_lookup_filter_None. right. by intros ? _ [].
  - intros tb d d' [= <-]. split; [|done]. intros other pk k Hne. cbn. destruct (mem_rows d !! (other, pk, k)) as [row|] eqn:E; [by apply map_lookup_filter_Some|apply map_lookup_filter_None; by left].
  - intros tb d [= H] pk k. apply negb_false_iff, bool_decide_eq_true in H. destruct (mem_rows d !! (tb, pk, k)) as [row|] eqn:E; [|done].
    exfalso. by apply (H _ _ E).
  - intros meta sub d d' [= <-] tb pk k. done.
  - intros meta sub d d' [= <-]. cbn. by rewrite lookup_insert_eq.
  - intros meta key d rows [= <-]. done.
Qed.
End Memory.

(** ** Sync client: two shapes on an in-memory database

    The groups, streams and runs at which the properties of the engine are instantiated. *)

Import StreamInbox InboxLaws EngineLaws.

(** Cells are numbers; a text cell is its first code unit. *)
Definition textCell (raw : jsstr) : Z := default 0 (head raw).
Definition noCell (raw : jsstr) : option Z := None.
Definition noText (cell : Z) : option jsstr := None.
Definition boolCell (b : bool) : Z := Z.b2z b.

Definition table_of (name : jsstr) : ApplyTarget := mkTarget name [js "id"; js "body"] [js "id"] [js "id"] [] false [(js "id", js "text"); (js "body", js "integer")] [].
Definition shape_of (name : jsstr) (method : Engine.InitialInsertMethod) : Engine.CircuitsShapeSpec Z MemoryDb :=
  Engine.mkSpec (js "/stream/" ++ name) name (table_of name) method None name None.

Definition notes : jsstr := js "notes".
Definition tags : jsstr := js "tags".
Definition pair_options : Engine.CircuitsSyncOptions Z MemoryDb :=
  Engine.mkOptions [(notes, shape_of notes Engine.copy); (tags, shape_of tags Engine.json)] (Some (js "group")) (js "meta") false 2 (fun _ => 0).
Definition notes_options : Engine.CircuitsSyncOptions Z MemoryDb :=
  Engine.mkOptions [(notes, shape_of notes Engine.copy)] (Some (js "group")) (js "meta") false 5 (fun _ => 0).

Definition empty_db : MemoryDb := mkMemory ∅ ∅.
Definition ready : option Engine.ConvergenceBarrier := Some (Engine.mkBarrier 0 0).
Definition flipping : option Engine.ConvergenceBarrier := Some (Engine.mkBarrier 1 0).
Definition running (n : nat) : Engine.Attempt Z MemoryDb := Engine.mkAttempt memory Engine.stays.

Definition write (id : jsstr) (body : Z) : StreamEnvelope (V := Z) := mkEnvelope id upsert (Some (<[js "id" := textCell id]> (<[js "body" := body]> ∅))).
Definition erase (id : jsstr) : StreamEnvelope (V := Z) := mkEnvelope id delete_ None.

Definition sends (shape : jsstr) (envelopes : list (StreamEnvelope (V := Z))) (offset : jsstr) (barrier : option Engine.ConvergenceBarrier) : Engine.Event Z MemoryDb :=
  Engine.Deliver (Engine.mkDelivery shape envelopes offset true) barrier running.

Definition started (options : Engine.CircuitsSyncOptions Z MemoryDb) : gset jsstr * Engine.Engine Z MemoryDb :=
  from_ok (∅, Engine.newEngine options empty_db None) (Engine.syncCircuitsShapes options memory empty_db).
Definition runs (options : Engine.CircuitsSyncOptions Z MemoryDb) : Engine.Engine Z MemoryDb -> list (Engine.Event Z MemoryDb) -> Engine.Engine Z MemoryDb :=
  Engine.run options (started options).1 textCell boolCell textCell noText noCell.

(** The notes wait for the tags, both wait for a flip, and then everything held is one commit. A long poll for the
    notes times out before the commit and another one after it: each hands over an empty batch at the offset the
    notes are at. *)
Definition pair_events : list (Engine.Event Z MemoryDb) :=
  [sends notes [write (js "1") 10; write (js "2") 20] (js "a") ready; sends notes [] (js "a") ready; sends tags [write (js "x") 7] (js "a") flipping;
   sends notes [erase (js "1"); write (js "2") 21; write (js "3") 30] (js "b") ready; sends notes [] (js "b") ready].
Abbreviation pair_end := (Engine.run pair_options (started pair_options).1 textCell boolCell textCell noText noCell (started pair_options).2 pair_events).

Definition note_row (d : MemoryDb) (id : jsstr) : option (gmap jsstr Z) := db_row d notes [js "id"] [Some (textCell id)].

Example pair_applied : (fun id => note_row (Engine.database pair_end) id ≫= lookup (js "body")) <$> [js "1"; js "2"; js "3"] = [None; Some 21; Some 30] /\
  Engine.isUpToDate pair_end = true.
Proof. split; vm_compute; reflexivity. Qed.

(** A single note, then an update of it with a new one. *)
Definition notes_events : list (Engine.Event Z MemoryDb) :=
  [sends notes [write (js "1") 10] (js "a") ready; sends notes [write (js "1") 11; write (js "2") 20] (js "b") ready].

Lemma coherent_checked {V} `{EqDecision V} (pk : list jsstr) (l : list (SyncChange V)) :
  forallb (fun m => forallb (fun m' => eqb (bool_decide (ch_key m = ch_key m')) (bool_decide (change_key pk m = change_key pk m'))) l) l = true -> coherent pk l.
Proof.
  intros H m m' Hm Hm'. rewrite forallb_forall in H. apply list_elem_of_In in Hm, Hm'. specialize (H m Hm). rewrite forallb_forall in H.
  specialize (H m' Hm'). apply eqb_prop in H. split; intros E.
  - apply (bool_decide_eq_true (change_key pk m = change_key pk m')). rewrite <- H. by apply bool_decide_eq_true.
  - apply (bool_decide_eq_true (ch_key m = ch_key m')). rewrite H. by apply bool_decide_eq_true.
Qed.

Definition followsb {V} (a b : BufferedBatch V) : bool :=
  negb (stringLe (offset b) (offset a)) || (match changes b with [] => true | _ => false end && bool_decide (offset b = offset a)).
Fixpoint advancingb {V} (batches : list (BufferedBatch V)) : bool :=
  match batches with
  | [] => true
  | a :: batches => forallb (followsb a) batches && advancingb batches
  end.
Lemma advancing_checked {V} (l : list (BufferedBatch V)) : advancingb l = true -> advancing l.
Proof.
  unfold advancing. induction l as [|a l IH]; [constructor|]. cbn. intros [Ha Hl]%andb_prop. constructor; [by apply IH|].
  apply Forall_forall. intros b Hb. rewrite forallb_forall in Ha. apply list_elem_of_In, Ha in Hb.
  apply orb_prop in Hb as [Hb|[Hc Ho]%andb_prop]; [left; by apply negb_true_iff|right]. split; [by destruct (changes b)|by apply bool_decide_eq_true in Ho].
Qed.
