(* ===== verification/SyncProps.v ===== *)
(** * Sync client: the properties *)

From S2P Require Export SyncExamples.

Import StreamInbox InboxLaws EngineLaws.

(** ** Folding *)

Section FoldProps.
Context {V D : Type} `{EqDecision V} {db : Database V D} (defaults : jsstr -> gmap jsstr V) (q : Statements V D) {lawful : LawfulStatements defaults q}.

Definition applyInOrder (t : ApplyTarget) (messages : list (SyncChange V)) (d : D) : result SyncError D :=
  foldM (fun d message => applyMessageToTable q t message d) d messages.

Lemma applyInOrder_view t messages : forall d d', applyInOrder t messages d = Ok d' -> only_table (at_table t) d d' /\
  forall k, view_of t d' k = view_all (at_primaryKey t) (defaults (at_table t)) (view_of t d) messages k.
Proof.
  induction messages as [|m messages IH]; intros d d' H; [injection H as <-; by split; [apply only_table_refl|]|].
  cbn in H. destruct (applyMessageToTable q t m d) as [d1|] eqn:E; [|done]. cbn in H.
  destruct (applyMessage_view defaults q t m d d1 E) as [Ho1 Hv1]. destruct (IH _ _ H) as [Ho2 Hv2]. split; [by eapply only_table_trans|].
  intros k. rewrite Hv2. change (view_all ?p ?d ?v (m :: ?r)) with (view_all p d (view_apply p d v m) r). by apply view_all_ext.
Qed.
End FoldProps.

(** C12. Folding a batch and applying it in bulk is the ordered apply. Where a stream key names one row, in the
    key's envelopes and in the row's cells, and both runs succeed, the folded deletions and then the folded
    upserts leave the same rows as the changes applied one at a time in stream order, and neither touches
    another table. *)
Theorem fold_then_bulk_is_ordered (V D : Type) (dec : EqDecision V) (db : Database V D) (defaults : jsstr -> gmap jsstr V) (q : Statements V D)
  (lawful : LawfulStatements defaults q) (t : ApplyTarget) (messages : list (SyncChange V)) (d d1 d2 : D)
  (Hcoherent : coherent (at_primaryKey t) messages)
  (Hbulk : Engine.applyFolded q t messages d = Ok d1) (Hordered : applyInOrder q t messages d = Ok d2) :
  (forall k, db_row d1 (at_table t) (at_primaryKey t) k = db_row d2 (at_table t) (at_primaryKey t) k) /\
  (forall other pk k, other <> at_table t -> db_row d1 other pk k = db_row d2 other pk k).
Proof.
  destruct (applyFolded_view defaults q t messages d d1 Hcoherent Hbulk) as [[Ho1 _] Hv1].
  destruct (applyInOrder_view defaults q t messages d d2 Hordered) as [[Ho2 _] Hv2]. split.
  - intros k. specialize (Hv1 k). specialize (Hv2 k). unfold view_of in *. congruence.
  - intros other pk k Hne. by rewrite Ho1, Ho2.
Qed.

(** ** The engine *)

Section Start.
Context {V D : Type} (options : Engine.CircuitsSyncOptions V D).

(** Different tables of the registry are different tables of the database. *)
Definition tables_apart : Prop := forall a b, a ∈ Engine.specs options -> b ∈ Engine.specs options ->
  at_table (Engine.target a.2) = at_table (Engine.target b.2) -> Engine.tableKey a.2 = Engine.tableKey b.2.

Lemma sole_apart sole s spec : NoDup (Engine.shapeNames options) -> tables_apart -> Engine.resolveTableSharing options = Ok sole -> s ∈ sole ->
  (s, spec) ∈ Engine.specs options -> others_apart options s spec.
Proof.
  intros Hn Hta Hr Hs Hin. unfold Engine.resolveTableSharing in Hr. destruct (throw_if _ _) as [[]|]; [|done]. injection Hr as <-.
  apply elem_of_list_to_set, list_elem_of_fmap in Hs as ([s' spec'] & Hs' & [Hlen Hin']%list_elem_of_filter). cbn in Hs', Hlen. subst s'.
  apply list_elem_of_split in Hin as Hin0. destruct Hin0 as (before & after & Hsp). exists before, after. split; [done|].
  assert (spec' = spec) as ->.
  { assert (Hn' := Hn). unfold Engine.shapeNames in Hn'. apply list_elem_of_lookup in Hin as [i Hi], Hin' as [j Hj].
    assert (i = j) as <-; [|congruence]. eapply NoDup_lookup; [exact Hn'| |]; rewrite list_lookup_fmap; [by rewrite Hi|by rewrite Hj]. }
  apply Forall_forall. intros [n x] Hx Heq. cbn in Heq. unfold Engine.sharing in Hlen. unfold tables_apart in Hta. rewrite Hsp in Hlen, Hta.
  assert (Hk : Engine.tableKey x = Engine.tableKey spec) by (apply (Hta (n, x) (s, spec)); [set_solver|set_solver|done]).
  rewrite filter_app, filter_cons_True, length_app in Hlen by done. cbn [length] in Hlen.
  apply elem_of_app in Hx as [Hx|Hx].
  - assert (Hf : (n, x) ∈ filter (fun shape : jsstr * Engine.CircuitsShapeSpec V D => Engine.tableKey shape.2 = Engine.tableKey spec) before) by (by apply list_elem_of_filter).
    destruct (filter _ before); [set_solver|cbn in Hlen; lia].
  - assert (Hf : (n, x) ∈ filter (fun shape : jsstr * Engine.CircuitsShapeSpec V D => Engine.tableKey shape.2 = Engine.tableKey spec) after) by (by apply list_elem_of_filter).
    destruct (filter _ after); [set_solver|cbn in Hlen; lia].
Qed.
End Start.

(** What the properties assume of a run: the shapes have names and tables of their own, a custom clear keeps to its
    table, the statements are lawful, the offsets of the shape's stream grow with
    every change (a batch without changes may repeat the offset it follows), and keys name rows. *)
Section Runs.
Context {V D : Type} `{EqDecision V} {db : Database V D} (defaults : jsstr -> gmap jsstr V).
Context (options : Engine.CircuitsSyncOptions V D).
Context (numberCell : jsstr -> V) (boolCell : bool -> V) (textCell : jsstr -> V) (cellText : V -> option jsstr) (parseJson : jsstr -> option V).

Abbreviation stream := (streamOf options numberCell boolCell textCell cellText parseJson).

Record group_ok : Prop := {
  go_names : NoDup (Engine.shapeNames options);
  go_tables : tables_apart options;
  go_clears : Forall (fun shape : jsstr * Engine.CircuitsShapeSpec V D => clears_own shape.2) (Engine.specs options) }.

Record events_ok (s : jsstr) (events : list (Engine.Event V D)) : Prop := {
  eo_lawful : Forall (event_ok defaults) events;
  eo_advancing : advancing (stream s events);
  eo_coherent : Forall (fun shape => coherent (at_primaryKey (Engine.target shape.2)) (changesIn (stream shape.1 events))) (Engine.specs options) }.

Lemma started_inv q d0 sole e0 events s spec : group_ok -> Engine.syncCircuitsShapes options q d0 = Ok (sole, e0) -> s ∈ sole ->
  (s, spec) ∈ Engine.specs options -> events_ok s events ->
  inv defaults options numberCell boolCell textCell cellText parseJson s spec d0 (Engine.truncateNeeded e0) events
    (Engine.run options sole numberCell boolCell textCell cellText parseJson e0 events).
Proof.
  intros [Hn Hta Hc] Hstart Hs Hin [Hl Hi Hco]. unfold Engine.syncCircuitsShapes in Hstart. destruct (Engine.resolveTableSharing options) as [so|] eqn:Er; [|done].
  cbn in Hstart. destruct (match Engine.key options with Some _ => _ | None => _ end) as [sub|]; [|done]. cbn in Hstart. injection Hstart as -> <-.
  pose proof (sole_apart options sole s spec Hn Hta Er Hs Hin) as Hap.
  apply inv_run; try done.
  - by apply newInbox_shape, list_elem_of_fmap; exists (s, spec).
  - intros n. cbn. rewrite peeked_held. unfold heldFor, newInbox. cbn [batches]. unfold filled.
    enough (forall names : list jsstr, default [] ((list_to_map ((fun name => (name, [])) <$> names) : gmap jsstr (list (BufferedBatch V))) !! n) = []) as -> by done.
    intros names. induction names as [|x names IH]; [done|]. cbn. destruct (decide (n = x)) as [->|Hne]; [by rewrite lookup_insert_eq|by rewrite lookup_insert_ne].
Qed.
End Runs.

(** C5. The persisted offset names exactly what is in the table. In every run of the engine, whatever its
    retries, failures, barrier readings and teardown, a shape that is alone on its table has applied a prefix
    of its stream: either nothing of it has been committed and the table and the persisted state are as the
    engine found them, or the table's rows are the rows it had (none, where the shape re-snapshots) followed
    by the changes of the prefix one by one, and the offset persisted under the group's key, if it has one, is
    that of the prefix's last batch. The offsets of the shape's stream grow from batch to batch, except that a batch without changes, which a long
    poll that times out hands over, may repeat the offset it follows. *)
Theorem engine_applies_prefix (V D : Type) (dec : EqDecision V) (db : Database V D) (defaults : jsstr -> gmap jsstr V)
  (options : Engine.CircuitsSyncOptions V D) (numberCell : jsstr -> V) (boolCell : bool -> V) (textCell : jsstr -> V)
  (cellText : V -> option jsstr) (parseJson : jsstr -> option V) (q : Statements V D) (d0 : D) (sole : gset jsstr) (e0 : Engine.Engine V D)
  (events : list (Engine.Event V D)) (s : jsstr) (spec : Engine.CircuitsShapeSpec V D)
  (Hgroup : group_ok options) (Hstart : Engine.syncCircuitsShapes options q d0 = Ok (sole, e0)) (Hsole : s ∈ sole) (Hspec : (s, spec) ∈ Engine.specs options)
  (Hevents : events_ok defaults options numberCell boolCell textCell cellText parseJson s events) :
  let d := Engine.database (Engine.run options sole numberCell boolCell textCell cellText parseJson e0 events) in
  exists committed, committed `prefix_of` streamOf options numberCell boolCell textCell cellText parseJson s events /\
    ((committed = [] /\ untouched options spec d0 d) \/
     ((forall k, view_of (Engine.target spec) d k = rows_after defaults s spec d0 (Engine.truncateNeeded e0) committed k) /\
      persisted options s spec d committed)).
Proof.
  destruct (started_inv defaults options numberCell boolCell textCell cellText parseJson q d0 sole e0 events s spec Hgroup Hstart Hsole Hspec Hevents)
    as (_ & committed & rest & Hpre & _ & Ht).
  exists committed. split; [by eapply prefix_app_l|]. destruct Ht as [(Hc & Hu & _)|(Hv & Hp & _)]; [left|right]; done.
Qed.

(** C11. Up to date means applied. When the engine reports that it is up to date, and is alive (not unsubscribed,
    not stopped by a delivery it could not translate, not closed), every batch delivered to a shape that is
    alone on its table is in the table and, where the group persists its offsets under a key, acknowledged by
    the persisted offset. The offsets of the shape's stream grow, except that a batch without changes may repeat
    the offset it follows. *)
Theorem up_to_date_is_applied (V D : Type) (dec : EqDecision V) (db : Database V D) (defaults : jsstr -> gmap jsstr V)
  (options : Engine.CircuitsSyncOptions V D) (numberCell : jsstr -> V) (boolCell : bool -> V) (textCell : jsstr -> V)
  (cellText : V -> option jsstr) (parseJson : jsstr -> option V) (q : Statements V D) (d0 : D) (sole : gset jsstr) (e0 : Engine.Engine V D)
  (events : list (Engine.Event V D)) (s : jsstr) (spec : Engine.CircuitsShapeSpec V D)
  (Hgroup : group_ok options) (Hstart : Engine.syncCircuitsShapes options q d0 = Ok (sole, e0)) (Hsole : s ∈ sole) (Hspec : (s, spec) ∈ Engine.specs options)
  (Hevents : events_ok defaults options numberCell boolCell textCell cellText parseJson s events)
  (Halive : alive (Engine.run options sole numberCell boolCell textCell cellText parseJson e0 events))
  (Huptodate : Engine.isUpToDate (Engine.run options sole numberCell boolCell textCell cellText parseJson e0 events) = true)
  (Hdelivered : streamOf options numberCell boolCell textCell cellText parseJson s events <> []) :
  let d := Engine.database (Engine.run options sole numberCell boolCell textCell cellText parseJson e0 events) in
  let all := streamOf options numberCell boolCell textCell cellText parseJson s events in
  (forall k, view_of (Engine.target spec) d k = rows_after defaults s spec d0 (Engine.truncateNeeded e0) all k) /\ persisted options s spec d all.
Proof.
  destruct (started_inv defaults options numberCell boolCell textCell cellText parseJson q d0 sole e0 events s spec Hgroup Hstart Hsole Hspec Hevents)
    as (_ & committed & rest & Hpre & Hal & Ht). destruct (Hal Halive) as [Hs [Hsh _]].
  unfold Engine.isUpToDate in Huptodate. apply andb_prop in Huptodate as [Hb _]. apply andb_prop in Hb as [_ Hb%negb_true_iff].
  rewrite (hasBuffered_shape _ _ _ _ Hsh Hb), app_nil_r in Hs. intros d all. destruct Ht as [(Hc & _)|(Hv & Hp & _)]; [by subst|]. subst all. by rewrite <- Hs.
Qed.

Section Gate.
Context {V D : Type} (options : Engine.CircuitsSyncOptions V D) (sole : gset jsstr).
Context (numberCell : jsstr -> V) (boolCell : bool -> V) (textCell : jsstr -> V) (cellText : V -> option jsstr) (parseJson : jsstr -> option V).

Lemma gateOpen_true barrier (e e' : Engine.Engine V D) : Engine.gateOpen barrier e = (true, e') -> isGroupUpToDate (Engine.inbox e) = true /\
  (needsAlignment (Engine.inbox e) = true -> everyShapeReported (Engine.inbox e) = true /\
     exists b, barrier = Some b /\ Engine.flipFailures b <= 0 /\ Engine.pendingFlips b <= 0).
Proof.
  unfold Engine.gateOpen. destruct (isGroupUpToDate _); [|done]. destruct (needsAlignment _); [|done]. cbn [negb].
  destruct (everyShapeReported _); [|done]. cbn [negb]. destruct barrier as [b|]; [|done].
  destruct (0 <? Engine.flipFailures b) eqn:Ef; [done|]. destruct (0 <? Engine.pendingFlips b) eqn:Ep; [done|]. intros _.
  apply Z.ltb_ge in Ef, Ep. split; [done|]. intros _. split; [done|]. by exists b.
Qed.

Lemma gateOpen_database barrier (e : Engine.Engine V D) : Engine.database (Engine.gateOpen barrier e).2 = Engine.database e.
Proof. unfold Engine.gateOpen. by repeat case_match. Qed.

Lemma enqueue_degraded barrier attempts (e : Engine.Engine V D) : Engine.degraded e = true -> Engine.enqueueCommit options sole barrier attempts e = e.
Proof. unfold Engine.enqueueCommit. by intros ->. Qed.

Lemma step_degraded (e : Engine.Engine V D) event : Engine.degraded e = true ->
  let e' := Engine.step options sole numberCell boolCell textCell cellText parseJson e event in
  Engine.degraded e' = true /\ Engine.database e' = Engine.database e /\ Engine.useBulkBackfill e' = Engine.useBulkBackfill e.
Proof.
  intros Hd. destruct event as [delivery barrier attempts|]; [|done]. cbn. destruct (Engine.closed e); [done|].
  destruct (Engine.rejected e); cbn; [done|]. unfold Engine.onBatch. cbn. destruct (Engine.unsubscribed e); cbn; [done|].
  destruct (Engine.changesOf _ _ _ _ _ _ _) as [chs|err]; [|done]. by rewrite enqueue_degraded.
Qed.
End Gate.

(** C14. Nothing is committed before the group is aligned. A step that changes the database is a delivery that
    translates, handled by an engine that is neither degraded nor unsubscribed, after which the last response
    of every shape says up to date; and while the group is not aligned, every shape has reported and the engine
    barrier was read and names neither a pending nor a lost flip. *)
Theorem commit_waits_for_alignment (V D : Type) (options : Engine.CircuitsSyncOptions V D) (sole : gset jsstr) (numberCell : jsstr -> V)
  (boolCell : bool -> V) (textCell : jsstr -> V) (cellText : V -> option jsstr) (parseJson : jsstr -> option V) (e : Engine.Engine V D) (event : Engine.Event V D)
  (Hchanged : Engine.database (Engine.step options sole numberCell boolCell textCell cellText parseJson e event) <> Engine.database e) :
  exists delivery barrier attempts chs, event = Engine.Deliver delivery barrier attempts /\
    Engine.changesOf options numberCell boolCell textCell cellText parseJson delivery = Ok chs /\
    Engine.degraded e = false /\ Engine.unsubscribed e = false /\
    let inbox := ingestBatch (Engine.dl_shape delivery) chs (Engine.dl_offset delivery) (Engine.dl_upToDate delivery) (Engine.inbox e) in
    isGroupUpToDate inbox = true /\
    (needsAlignment inbox = true -> everyShapeReported inbox = true /\
       exists b, barrier = Some b /\ Engine.flipFailures b <= 0 /\ Engine.pendingFlips b <= 0).
Proof.
  destruct (Engine.degraded e) eqn:Ed; [by destruct (step_degraded options sole numberCell boolCell textCell cellText parseJson e event Ed) as (_ & H & _)|].
  destruct event as [delivery barrier attempts|]; [|done]. unfold Engine.step in Hchanged. destruct (Engine.closed e); [done|].
  destruct (Engine.rejected _); [done|]. unfold Engine.onBatch in Hchanged. cbn [Engine.unsubscribed] in Hchanged.
  destruct (Engine.unsubscribed e) eqn:Eu; [done|]. destruct (Engine.changesOf _ _ _ _ _ _ delivery) as [chs|err] eqn:Ec; [|done].
  exists delivery, barrier, attempts, chs. do 4 (split; [done|]). intros inbox.
  unfold Engine.enqueueCommit in Hchanged. cbn [Engine.degraded Engine.unsubscribed Engine.set_inbox] in Hchanged. rewrite Ed in Hchanged. cbn [orb] in Hchanged.
  match type of Hchanged with context [Engine.gateOpen ?b ?x] => pose proof (gateOpen_true b x) as Ht; pose proof (gateOpen_database b x) as Hd;
    destruct (Engine.gateOpen b x) as [[|] e1] end; [|destruct (Hchanged Hd)]. by destruct (Ht e1 eq_refl).
Qed.

(** C22. A degraded group applies nothing more. Once a commit has used up its attempts, or the engine has lost a
    flip, no event changes the database: no later batch is applied over the one that is held. *)
Theorem degraded_is_final (V D : Type) (options : Engine.CircuitsSyncOptions V D) (sole : gset jsstr) (numberCell : jsstr -> V)
  (boolCell : bool -> V) (textCell : jsstr -> V) (cellText : V -> option jsstr) (parseJson : jsstr -> option V) (e : Engine.Engine V D)
  (Hdegraded : Engine.degraded e = true) (events : list (Engine.Event V D)) :
  let e' := Engine.run options sole numberCell boolCell textCell cellText parseJson e events in
  Engine.database e' = Engine.database e /\ Engine.degraded e' = true /\ Engine.isUpToDate e' = false.
Proof.
  revert e Hdegraded. induction events as [|event events IH]; intros e Hd; cbn.
  - split; [done|]. split; [done|]. unfold Engine.isUpToDate. by rewrite Hd.
  - destruct (step_degraded options sole numberCell boolCell textCell cellText parseJson e event Hd) as (Hd' & Hdb & _). rewrite <- Hdb. by apply IH.
Qed.

(** A second COPY backfill over the first degrades the group. A first commit of one note applies it through
    the fold, since COPY hands its last net row back, and leaves the shape in bulk mode; the next, an update of
    that note with a new one, is bulk-loaded onto the table that holds it, fails on its key in every attempt
    and degrades the group, although the statements never fail of themselves. *)
Theorem second_copy_degrades :
  let first := runs notes_options (started notes_options).2 (take 1 notes_events) in
  let second := runs notes_options (started notes_options).2 notes_events in
  note_row (Engine.database first) (js "1") ≫= lookup (js "body") = Some 10 /\
  Engine.isUpToDate first = true /\ Engine.useBulkBackfill first !! notes = Some true /\ Engine.degraded first = false /\
  Engine.degraded second = true /\ Engine.database second = Engine.database first.
Proof. split_and!; vm_compute; reflexivity. Qed.

(** ** The witnesses *)

Definition note_messages : list (SyncChange Z) := Eval vm_compute in
  from_ok [] (mapR (envelopeToChange textCell boolCell textCell noText noCell (table_of notes)) [write (js "1") 10; erase (js "2"); write (js "2") 21; write (js "1") 11]).
Definition notes_db : MemoryDb := Eval vm_compute in Engine.database pair_end.
Definition bulk_db : MemoryDb := from_ok empty_db (Engine.applyFolded memory (table_of notes) note_messages notes_db).
Definition ordered_db : MemoryDb := from_ok empty_db (applyInOrder memory (table_of notes) note_messages notes_db).

Lemma from_ok_is_ok {A} (a : A) (m : result SyncError A) : is_ok m = true -> m = Ok (from_ok a m).
Proof. by destruct m. Qed.
Lemma note_messages_coherent : coherent [js "id"] note_messages.
Proof. apply coherent_checked. vm_compute. reflexivity. Qed.
Lemma notes_bulk : Engine.applyFolded memory (table_of notes) note_messages notes_db = Ok bulk_db.
Proof. apply from_ok_is_ok. vm_compute. reflexivity. Qed.
Lemma notes_ordered : applyInOrder memory (table_of notes) note_messages notes_db = Ok ordered_db.
Proof. apply from_ok_is_ok. vm_compute. reflexivity. Qed.

Lemma fold_then_bulk_is_ordered_witness :
  (forall k, db_row bulk_db notes [js "id"] k = db_row ordered_db notes [js "id"] k) /\
  (forall other pk k, other <> notes -> db_row bulk_db other pk k = db_row ordered_db other pk k).
Proof.
  apply (fold_then_bulk_is_ordered Z MemoryDb _ memory_database (fun _ => ∅) memory memory_lawful (table_of notes) note_messages notes_db).
  - exact note_messages_coherent.
  - exact notes_bulk.
  - exact notes_ordered.
Defined.

Lemma pair_group : group_ok pair_options.
Proof.
  split.
  - apply (bool_decide_eq_true (NoDup (Engine.shapeNames pair_options))). vm_compute. reflexivity.
  - intros a b Ha Hb. cbn in Ha, Hb. rewrite !elem_of_cons in Ha, Hb.
    destruct Ha as [->|[->|[]%not_elem_of_nil]], Hb as [->|[->|[]%not_elem_of_nil]]; vm_compute; congruence.
  - repeat (apply Forall_cons; split; [intros clear d d' H; discriminate H|]). by apply Forall_nil.
Qed.

Lemma pair_events_ok : events_ok (fun _ => ∅) pair_options textCell boolCell textCell noText noCell notes pair_events.
Proof.
  split.
  - repeat (apply Forall_cons; split; [intros n; exact memory_lawful|]). by apply Forall_nil.
  - apply advancing_checked. vm_compute. reflexivity.
  - repeat (apply Forall_cons; split; [apply coherent_checked; vm_compute; reflexivity|]). by apply Forall_nil.
Qed.

Lemma pair_starts : Engine.syncCircuitsShapes pair_options memory empty_db = Ok ((started pair_options).1, (started pair_options).2).
Proof. vm_compute. reflexivity. Qed.
Lemma pair_sole : notes ∈ (started pair_options).1.
Proof. apply (bool_decide_eq_true (notes ∈ (started pair_options).1)). vm_compute. reflexivity. Qed.
Lemma pair_alive : alive pair_end.
Proof. split; [|split]; vm_compute; reflexivity. Qed.
Lemma pair_up_to_date : Engine.isUpToDate pair_end = true.
Proof. vm_compute. reflexivity. Qed.
Lemma pair_delivered : streamOf pair_options textCell boolCell textCell noText noCell notes pair_events <> [].
Proof. vm_compute. discriminate. Qed.

Lemma engine_applies_prefix_witness :
  exists committed, committed `prefix_of` streamOf pair_options textCell boolCell textCell noText noCell notes pair_events /\
    ((committed = [] /\ untouched pair_options (shape_of notes Engine.copy) empty_db (Engine.database pair_end)) \/
     ((forall k, view_of (table_of notes) (Engine.database pair_end) k =
         rows_after (fun _ => ∅) notes (shape_of notes Engine.copy) empty_db (Engine.truncateNeeded (started pair_options).2) committed k) /\
      persisted pair_options notes (shape_of notes Engine.copy) (Engine.database pair_end) committed)).
Proof.
  apply (engine_applies_prefix Z MemoryDb _ memory_database (fun _ => ∅) pair_options textCell boolCell textCell noText noCell memory empty_db
           (started pair_options).1 (started pair_options).2 pair_events notes (shape_of notes Engine.copy)).
  - exact pair_group.
  - exact pair_starts.
  - exact pair_sole.
  - apply elem_of_cons. by left.
  - exact pair_events_ok.
Defined.

Lemma up_to_date_is_applied_witness :
  (forall k, view_of (table_of notes) (Engine.database pair_end) k =
     rows_after (fun _ => ∅) notes (shape_of notes Engine.copy) empty_db (Engine.truncateNeeded (started pair_options).2)
       (streamOf pair_options textCell boolCell textCell noText noCell notes pair_events) k) /\
  persisted pair_options notes (shape_of notes Engine.copy) (Engine.database pair_end) (streamOf pair_options textCell boolCell textCell noText noCell notes pair_events).
Proof.
  apply (up_to_date_is_applied Z MemoryDb _ memory_database (fun _ => ∅) pair_options textCell boolCell textCell noText noCell memory empty_db
           (started pair_options).1 (started pair_options).2 pair_events notes (shape_of notes Engine.copy)).
  - exact pair_group.
  - exact pair_starts.
  - exact pair_sole.
  - apply elem_of_cons. by left.
  - exact pair_events_ok.
  - exact pair_alive.
  - exact pair_up_to_date.
  - exact pair_delivered.
Defined.

Definition first_event : Engine.Event Z MemoryDb := sends notes [write (js "1") 10] (js "a") ready.

Lemma commit_waits_for_alignment_witness : exists delivery barrier attempts chs, first_event = Engine.Deliver delivery barrier attempts /\
  Engine.changesOf notes_options textCell boolCell textCell noText noCell delivery = Ok chs /\
  Engine.degraded (started notes_options).2 = false /\ Engine.unsubscribed (started notes_options).2 = false /\
  let inbox := ingestBatch (Engine.dl_shape delivery) chs (Engine.dl_offset delivery) (Engine.dl_upToDate delivery) (Engine.inbox (started notes_options).2) in
  isGroupUpToDate inbox = true /\
  (needsAlignment inbox = true -> everyShapeReported inbox = true /\ exists b, barrier = Some b /\ Engine.flipFailures b <= 0 /\ Engine.pendingFlips b <= 0).
Proof.
  apply (commit_waits_for_alignment Z MemoryDb notes_options (started notes_options).1 textCell boolCell textCell noText noCell (started notes_options).2 first_event).
  intros E. assert (H : note_row empty_db (js "1") = note_row (Engine.database (runs notes_options (started notes_options).2 [first_event])) (js "1")).
  { unfold note_row. change (runs notes_options (started notes_options).2 [first_event]) with
      (Engine.step notes_options (started notes_options).1 textCell boolCell textCell noText noCell (started notes_options).2 first_event).
    rewrite E. vm_compute. reflexivity. }
  vm_compute in H. discriminate H.
Defined.

Definition degraded_notes : Engine.Engine Z MemoryDb := Eval vm_compute in runs notes_options (started notes_options).2 notes_events.

Lemma degraded_is_final_witness :
  let e' := runs notes_options degraded_notes [sends notes [write (js "5") 50] (js "c") ready; Engine.Unsubscribe] in
  Engine.database e' = Engine.database degraded_notes /\ Engine.degraded e' = true /\ Engine.isUpToDate e' = false.
Proof.
  apply (degraded_is_final Z MemoryDb notes_options (started notes_options).1 textCell boolCell textCell noText noCell degraded_notes). vm_compute. reflexivity.
Defined.
