(* ===== verification/LiveDiff.v ===== *)
(** * Workers: the diff of a live query

    client/src/worker/live-diff.ts: the worker sends what changed in an ordered result, the tab folds it into its
    rows and keeps the objects of the rows that did not change. *)

From S2P Require Export Paths JsMap.

Module LiveDiff.
Section LiveDiff.

(** Cells are compared by [Object.is]; [undefinedCell] is what an absent column reads as. A row is an object: it has
    an identity and cells by column. [cellText] is [String] of a cell, [rowText] is [JSON.stringify] of a row. *)
Context {V : Type} `{EqDecision V} (undefinedCell : V) (cellText : V -> jsstr) (rowText : gmap jsstr V -> jsstr).

Record Row : Type := mkRow { identity : Z; cells : gmap jsstr V }.

Definition cell (row : Row) (column : jsstr) : V := default undefinedCell (cells row !! column).

(** ** The worker *)

Definition KEY_SEP : Z := 0.

Fixpoint join (parts : list jsstr) : jsstr :=
  match parts with
  | [] => []
  | [part] => part
  | part :: parts => part ++ KEY_SEP :: join parts
  end.

Definition rowKey (pkColumns : option (list jsstr)) (row : Row) : jsstr :=
  match pkColumns with
  | Some ((_ :: _) as columns) => join ((fun column => cellText (cell row column)) <$> columns)
  | _ => rowText (cells row)
  end.

Definition rowsEqual (a b : Row) : bool :=
  bool_decide (size (cells a) = size (cells b)) &&
  bool_decide (map_Forall (fun column value => value = cell b column) (cells a)).

Record LiveDiffState : Type := mkState { pkColumns : option (list jsstr); previous : list (jsstr * Row) }.

Definition seedLiveDiffState (rows : list Row) (pkColumns : option (list jsstr)) : LiveDiffState :=
  mkState pkColumns (foldl (fun previous row => JsMap.set previous (rowKey pkColumns row) row) [] rows).

Record LiveDiffPayload : Type := mkDiff { order : list jsstr; added : list (jsstr * Row); changed : list (jsstr * Row); removed : list jsstr }.

(** One row of the loop; the third component is [nextMap], whose keys are [nextKeys]. *)
Definition diffRow (state : LiveDiffState) (acc : LiveDiffPayload * list (jsstr * Row)) (row : Row) : LiveDiffPayload * list (jsstr * Row) :=
  let '(diff, nextMap) := acc in
  let key := rowKey (pkColumns state) row in
  if JsMap.has nextMap key then acc
  else
    let nextMap := JsMap.set nextMap key row in
    let ordered := order diff ++ [key] in
    match JsMap.get (previous state) key with
    | None => (mkDiff ordered (added diff ++ [(key, row)]) (changed diff) (removed diff), nextMap)
    | Some prior =>
        if rowsEqual prior row then (mkDiff ordered (added diff) (changed diff) (removed diff), nextMap)
        else (mkDiff ordered (added diff) (changed diff ++ [(key, row)]) (removed diff), nextMap)
    end.

Definition computeLiveDiff (state : LiveDiffState) (nextRows : list Row) : LiveDiffState * LiveDiffPayload :=
  let '(diff, nextMap) := foldl (diffRow state) (mkDiff [] [] [] [], []) nextRows in
  let removed := filter (fun key => JsMap.has nextMap key = false) (JsMap.keys (previous state)) in
  (mkState (pkColumns state) nextMap, mkDiff (order diff) (added diff) (changed diff) removed).

(** ** The tab *)

Record LiveRowsMaterializer : Type := mkMaterializer { byKey : list (jsstr * Row); rows : list Row; tabColumns : option (list jsstr) }.

Definition newMaterializer (pkColumns : option (list jsstr)) : LiveRowsMaterializer := mkMaterializer [] [] pkColumns.

Definition seed (tab : LiveRowsMaterializer) (initialRows : list Row) : LiveRowsMaterializer :=
  mkMaterializer (foldl (fun byKey row => JsMap.set byKey (rowKey (tabColumns tab) row) row) [] initialRows) initialRows (tabColumns tab).

Definition setAll (byKey : list (jsstr * Row)) (entries : list (jsstr * Row)) : list (jsstr * Row) :=
  foldl (fun byKey '(key, row) => JsMap.set byKey key row) byKey entries.

Definition apply (tab : LiveRowsMaterializer) (diff : LiveDiffPayload) : LiveRowsMaterializer :=
  let byKey := foldl JsMap.del (byKey tab) (removed diff) in
  let byKey := setAll (setAll byKey (added diff)) (changed diff) in
  mkMaterializer byKey (omap (JsMap.get byKey) (order diff)) (tabColumns tab).

Definition current (tab : LiveRowsMaterializer) : list Row := rows tab.

End LiveDiff.
Arguments Row : clear implicits.
Arguments LiveDiffState : clear implicits.
Arguments LiveDiffPayload : clear implicits.
Arguments LiveRowsMaterializer : clear implicits.
End LiveDiff.

(** ** The diff and its fold *)

Section Laws.
Import LiveDiff.
Context {V : Type} `{EqDecision V} (undefinedCell : V) (cellText : V -> jsstr) (rowText : gmap jsstr V -> jsstr).

Abbreviation Rows := (list (jsstr * Row V)).
Abbreviation keyOfRow := (rowKey undefinedCell cellText rowText).

(** The rows of a result, the first of each key. *)
Definition firstOfKeys (pk : option (list jsstr)) (result : list (Row V)) : Rows :=
  foldl (fun seen row => if JsMap.has seen (keyOfRow pk row) then seen else JsMap.set seen (keyOfRow pk row) row) [] result.

(** The message that crosses to the tab: the rows are copies, with the same cells. *)
Definition same_cells (a b : jsstr * Row V) : Prop := a.1 = b.1 /\ cells a.2 = cells b.2.
Definition delivered (sent received : LiveDiffPayload V) : Prop :=
  order received = order sent /\ removed received = removed sent /\ Forall2 same_cells (added sent) (added received) /\
  Forall2 same_cells (changed sent) (changed received).

(** The tab holds the worker's previous rows. *)
Definition in_step (state : LiveDiffState V) (tab : LiveRowsMaterializer V) : Prop :=
  JsMap.wf (previous state) /\ JsMap.wf (byKey tab) /\ forall key, cells <$> JsMap.get (byKey tab) key = cells <$> JsMap.get (previous state) key.

(** Rows of one query have the same columns. *)
Definition uniform (columns : gset jsstr) (l : Rows) : Prop := forall key row, JsMap.get l key = Some row -> dom (cells row) = columns.

Lemma rowsEqual_cells a b : dom (cells a) = dom (cells b) -> rowsEqual undefinedCell a b = true <-> cells a = cells b.
Proof.
  intros Hd. unfold rowsEqual. rewrite andb_true_iff, !bool_decide_eq_true. split.
  - intros [_ Hf]. apply map_eq. intros c. destruct (cells a !! c) as [v|] eqn:Ea.
    + specialize (Hf c v Ea). cbn in Hf. unfold cell in Hf. assert (Hc : c ∈ dom (cells b)) by (rewrite <- Hd; by eapply elem_of_dom_2).
      apply elem_of_dom in Hc as [w Hw]. rewrite Hw in *. cbn in Hf. by subst.
    + symmetry. apply not_elem_of_dom. rewrite <- Hd. by apply not_elem_of_dom.
  - intros E. rewrite E. split; [done|]. intros c v Hv. unfold cell. by rewrite Hv.
Qed.

(** *** Maps *)

Lemma get_del_ne {W} (m : list (jsstr * W)) k k' : k <> k' -> JsMap.get (JsMap.del m k) k' = JsMap.get m k'.
Proof.
  intros. induction m as [|[x v] m IH]; [done|]. change (JsMap.del ((x, v) :: m) k) with (if decide (k = x) then m else (x, v) :: JsMap.del m k).
  simpl; repeat case_decide; simpl; repeat case_decide; naive_solver.
Qed.
Lemma get_del_eq {W} (m : list (jsstr * W)) k : JsMap.wf m -> JsMap.get (JsMap.del m k) k = None.
Proof. intros Hw. apply JsMap.get_None. rewrite JsMap.elem_of_keys_del by done. naive_solver. Qed.

Lemma get_dels {W} ks : forall m : list (jsstr * W), JsMap.wf m -> JsMap.wf (foldl JsMap.del m ks) /\
  forall k, JsMap.get (foldl JsMap.del m ks) k = if decide (k ∈ ks) then None else JsMap.get m k.
Proof.
  induction ks as [|x ks IH]; intros m Hw; [split; [done|]; intros k; by rewrite decide_False by set_solver|]. cbn [foldl].
  destruct (IH (JsMap.del m x)) as [IH1 IH2]; [by apply JsMap.wf_del|]. split; [done|]. intros k. rewrite IH2.
  destruct (decide (k ∈ ks)) as [Hk|Hk]; [by rewrite decide_True by set_solver|]. destruct (decide (k = x)) as [<-|Hne].
  - rewrite decide_True by set_solver. by apply get_del_eq.
  - rewrite decide_False by set_solver. by apply get_del_ne.
Qed.

Lemma setAll_wf (es : Rows) : forall m : Rows, JsMap.wf m -> JsMap.wf (setAll m es).
Proof. induction es as [|[k r] es IH]; intros m Hw; [done|]. cbn. by apply IH, JsMap.wf_set. Qed.

Lemma get_setAll (es : Rows) : JsMap.wf es -> forall (m : Rows) k, JsMap.get (setAll m es) k = match JsMap.get es k with Some r => Some r | None => JsMap.get m k end.
Proof.
  induction es as [|[x r] es IH]; intros Hw m k; [done|]. apply NoDup_cons in Hw as [Hx Hw]. cbn [setAll foldl]. fold (setAll (JsMap.set m x r) es). rewrite IH by done.
  cbn [JsMap.get]. destruct (decide (k = x)) as [<-|Hne].
  - assert (JsMap.get es k = None) as -> by (by apply JsMap.get_None). by rewrite JsMap.get_set_eq.
  - by rewrite JsMap.get_set_ne by done.
Qed.

Lemma copies_get (sent received : Rows) k : Forall2 same_cells sent received -> cells <$> JsMap.get received k = cells <$> JsMap.get sent k.
Proof.
  induction 1 as [|[x a] [y b] sent received [Hk Hc] _ IH]; [done|]. cbn in Hk, Hc. subst y. cbn. destruct (decide (k = x)); [by cbn; rewrite Hc|done].
Qed.
Lemma copies_keys (sent received : Rows) : Forall2 same_cells sent received -> received.*1 = sent.*1.
Proof. induction 1 as [|[x a] [y b] sent received [Hk Hc] _ IH]; [done|]. cbn in *. congruence. Qed.

Lemma get_filter (P : jsstr * Row V -> Prop) `{forall x, Decision (P x)} (l : Rows) k : JsMap.wf l ->
  JsMap.get (filter P l) k = match JsMap.get l k with Some r => if decide (P (k, r)) then Some r else None | None => None end.
Proof.
  induction l as [|[x r] l IH]; intros Hw; [done|]. apply NoDup_cons in Hw as [Hx Hw]. cbn [JsMap.get]. rewrite filter_cons.
  destruct (decide (P (x, r))) as [HP|HP]; cbn [JsMap.get]; (destruct (decide (k = x)) as [<-|Hne]; [|by apply IH]).
  - by rewrite decide_True.
  - rewrite decide_False by done. rewrite IH by done. by assert (JsMap.get l k = None) as -> by (by apply JsMap.get_None).
Qed.

(** *** The loop *)

Lemma firstOfKeys_app pk a row : firstOfKeys pk (a ++ [row]) =
  if JsMap.has (firstOfKeys pk a) (keyOfRow pk row) then firstOfKeys pk a else JsMap.set (firstOfKeys pk a) (keyOfRow pk row) row.
Proof. unfold firstOfKeys. by rewrite foldl_app. Qed.

Lemma firstOfKeys_wf pk l : JsMap.wf (firstOfKeys pk l).
Proof.
  induction l as [|row l IH] using rev_ind; [apply NoDup_nil_2|]. rewrite firstOfKeys_app. case_match; [done|by apply JsMap.wf_set].
Qed.

Definition is_added (state : LiveDiffState V) (entry : jsstr * Row V) : Prop := JsMap.get (previous state) entry.1 = None.
Definition is_changed (state : LiveDiffState V) (entry : jsstr * Row V) : Prop :=
  match JsMap.get (previous state) entry.1 with Some prior => rowsEqual undefinedCell prior entry.2 = false | None => False end.
#[local] Instance is_added_dec state entry : Decision (is_added state entry).
Proof. unfold is_added. destruct (JsMap.get _ _); [by right|by left]. Defined.
#[local] Instance is_changed_dec state entry : Decision (is_changed state entry).
Proof. unfold is_changed. destruct (JsMap.get _ _); apply _. Defined.

Lemma loop_spec state l : let next := firstOfKeys (pkColumns state) l in
  foldl (diffRow undefinedCell cellText rowText state) (mkDiff [] [] [] [], []) l =
    (mkDiff (JsMap.keys next) (filter (is_added state) next) (filter (is_changed state) next) [], next).
Proof.
  induction l as [|row l IH] using rev_ind; [done|]. cbv zeta in *. rewrite foldl_app, IH. cbn [foldl diffRow]. rewrite firstOfKeys_app.
  set (next := firstOfKeys _ l). set (key := keyOfRow _ row). destruct (JsMap.has next key) eqn:Eh; [done|].
  apply JsMap.has_false in Eh. rewrite JsMap.set_fresh by done. unfold JsMap.keys. rewrite !filter_app, fmap_app. rewrite !filter_cons, !filter_nil.
  cbn [order added changed removed].
  destruct (decide (is_added state (key, row))) as [Ha|Ha], (decide (is_changed state (key, row))) as [Hc|Hc];
    unfold is_added, is_changed in Ha, Hc; cbn in Ha, Hc; destruct (JsMap.get (previous state) key) as [prior|] eqn:Ep; try done.
  - by rewrite app_nil_r.
  - by rewrite Hc, app_nil_r.
  - apply not_false_iff_true in Hc. by rewrite Hc, !app_nil_r.
Qed.

Lemma omap_cells (m l : Rows) : JsMap.wf l -> (forall k, k ∈ JsMap.keys l -> cells <$> JsMap.get m k = cells <$> JsMap.get l k) ->
  cells <$> omap (JsMap.get m) (JsMap.keys l) = cells <$> l.*2.
Proof.
  induction l as [|[k r] l IH]; intros Hw Hk; [done|]. apply NoDup_cons in Hw as [Hx Hw].
  assert (Hh := Hk k ltac:(unfold JsMap.keys; set_solver)). cbn in Hh. rewrite decide_True in Hh by done. unfold JsMap.keys. cbn [fmap list_fmap fst snd omap list_omap].
  destruct (JsMap.get m k) as [r'|]; [|done]. cbn in Hh |- *. injection Hh as ->. f_equal. apply IH; [done|]. intros x Hx'. rewrite Hk by (unfold JsMap.keys in *; set_solver).
  cbn. rewrite decide_False; [done|]. intros ->. by apply Hx.
Qed.

(** *** The tab after the diff *)

Lemma applied (state : LiveDiffState V) (tab : LiveRowsMaterializer V) (received : LiveDiffPayload V) result : in_step state tab ->
  delivered (computeLiveDiff undefinedCell cellText rowText state result).2 received ->
  let next := firstOfKeys (pkColumns state) result in
  JsMap.wf (byKey (apply tab received)) /\
  forall k, match JsMap.get next k with
    | Some r => if decide (is_added state (k, r) \/ is_changed state (k, r)) then cells <$> JsMap.get (byKey (apply tab received)) k = Some (cells r)
                else JsMap.get (byKey (apply tab received)) k = JsMap.get (byKey tab) k
    | None => JsMap.get (byKey (apply tab received)) k = None
    end.
Proof.
  intros (Hwp & Hwt & Hin) Hdel next. unfold computeLiveDiff in Hdel. rewrite loop_spec in Hdel. cbn [snd order added changed] in Hdel. fold next in Hdel.
  destruct Hdel as (_ & Hr & Ha & Hc). cbn [removed added changed order] in Hr, Ha, Hc. pose proof (firstOfKeys_wf (pkColumns state) result) as Hwn. fold next in Hwn.
  unfold apply. cbn [byKey]. rewrite Hr. set (gone := filter _ _).
  destruct (get_dels gone (byKey tab) Hwt) as [Hwd Hget].
  assert (Hwf : forall P `{forall x : jsstr * Row V, Decision (P x)} (l' : Rows), Forall2 same_cells (filter P next) l' -> JsMap.wf l').
  { intros P ? l' Hl. unfold JsMap.wf, JsMap.keys. rewrite (copies_keys _ _ Hl). eapply sublist_NoDup; [exact Hwn|]. apply fmap_sublist, sublist_filter. }
  split; [by do 2 apply setAll_wf|]. intros k. rewrite !get_setAll by (by eapply Hwf). rewrite Hget.
  pose proof (copies_get _ _ k Ha) as Hka. pose proof (copies_get _ _ k Hc) as Hkc. rewrite get_filter in Hka, Hkc by done.
  destruct (JsMap.get next k) as [r|] eqn:En.
  - destruct (decide (is_changed state (k, r))) as [Hch|Hch].
    + rewrite decide_True by auto. destruct (JsMap.get (changed received) k) as [r'|]; [done|done].
    + destruct (JsMap.get (changed received) k); [done|]. destruct (decide (is_added state (k, r))) as [Had|Had].
      * rewrite decide_True by auto. destruct (JsMap.get (added received) k) as [r'|]; [done|done].
      * rewrite decide_False by tauto. destruct (JsMap.get (added received) k); [done|]. rewrite decide_False; [done|].
        unfold gone. rewrite list_elem_of_filter. intros [Hh _]. apply JsMap.has_false in Hh. apply Hh, JsMap.get_is_Some. by rewrite En.
  - destruct (JsMap.get (changed received) k); [done|]. destruct (JsMap.get (added received) k); [done|].
    destruct (decide (k ∈ gone)) as [Hg|Hg]; [done|]. destruct (JsMap.get (byKey tab) k) as [r|] eqn:Et; [|done]. exfalso. apply Hg.
    unfold gone. apply list_elem_of_filter. split.
    + apply JsMap.has_false. by apply JsMap.get_None.
    + apply JsMap.get_is_Some. specialize (Hin k). rewrite Et in Hin. destruct (JsMap.get (previous state) k); [done|done].
Qed.
End Laws.

(** C29. The tab shows the worker's result. When the tab holds the rows the worker last sent, and a diff of the next
    result, whose rows have the columns of the last, is received as copies of its rows, the tab's rows are the
    result in its order (the first row of each key), the two stay in step for the next diff, and a row whose
    cells did not change is the object the tab had. *)
Theorem diff_folds_to_result (V : Type) (dec : EqDecision V) (undefinedCell : V) (cellText : V -> jsstr) (rowText : gmap jsstr V -> jsstr)
  (columns : gset jsstr) (state : LiveDiff.LiveDiffState V) (tab : LiveDiff.LiveRowsMaterializer V) (result : list (LiveDiff.Row V))
  (received : LiveDiff.LiveDiffPayload V)
  (Hstep : in_step state tab) (Hprevious : uniform columns (LiveDiff.previous state))
  (Hresult : Forall (fun row => dom (LiveDiff.cells row) = columns) result)
  (Hreceived : delivered (LiveDiff.computeLiveDiff undefinedCell cellText rowText state result).2 received) :
  let state' := (LiveDiff.computeLiveDiff undefinedCell cellText rowText state result).1 in
  let tab' := LiveDiff.apply tab received in
  let next := firstOfKeys undefinedCell cellText rowText (LiveDiff.pkColumns state) result in
  LiveDiff.cells <$> LiveDiff.current tab' = LiveDiff.cells <$> next.*2 /\
  in_step state' tab' /\ uniform columns (LiveDiff.previous state') /\
  (forall key old new row, JsMap.get (LiveDiff.previous state) key = Some old -> JsMap.get next key = Some new -> LiveDiff.cells old = LiveDiff.cells new ->
     JsMap.get (LiveDiff.byKey tab) key = Some row -> JsMap.get (LiveDiff.byKey tab') key = Some row).
Proof.
  intros state' tab' next. pose proof (applied undefinedCell cellText rowText state tab received result Hstep Hreceived) as [Hw Hk]. fold next tab' in Hk. fold tab' in Hw.
  pose proof (firstOfKeys_wf undefinedCell cellText rowText (LiveDiff.pkColumns state) result) as Hwn. fold next in Hwn.
  assert (Hst : state' = LiveDiff.mkState (LiveDiff.pkColumns state) next) by (unfold state', LiveDiff.computeLiveDiff; by rewrite loop_spec).
  assert (Hun : uniform columns next).
  { intros key row Hg. rewrite Forall_forall in Hresult. apply Hresult. clear -Hg. unfold next in Hg. induction result as [|x l IH] using rev_ind; [done|].
    rewrite firstOfKeys_app in Hg. case_match; [apply IH in Hg; set_solver|].
    destruct (decide (LiveDiff.rowKey undefinedCell cellText rowText (LiveDiff.pkColumns state) x = key)) as [<-|E].
    - rewrite JsMap.get_set_eq in Hg. injection Hg as <-. set_solver.
    - rewrite JsMap.get_set_ne in Hg by done. apply IH in Hg. set_solver. }
  destruct Hstep as (Hwp & Hwt & Hin).
  assert (Hall : forall key, LiveDiff.cells <$> JsMap.get (LiveDiff.byKey tab') key = LiveDiff.cells <$> JsMap.get next key).
  { intros key. specialize (Hk key). destruct (JsMap.get next key) as [r|] eqn:En; [|by rewrite Hk]. destruct (decide _) as [|Hno] in Hk; [done|]. rewrite Hk, Hin.
    unfold is_added, is_changed in Hno. cbn in Hno. destruct (JsMap.get (LiveDiff.previous state) key) as [p|] eqn:Ep; [|tauto]. cbn. f_equal.
    apply (rowsEqual_cells undefinedCell); [rewrite (Hprevious _ _ Ep); symmetry; by eapply Hun|]. destruct (LiveDiff.rowsEqual _ _ _); [done|tauto]. }
  split; [|split; [|split]].
  - unfold LiveDiff.current, tab', LiveDiff.apply. cbn [LiveDiff.rows]. destruct Hreceived as [Ho _]. unfold LiveDiff.computeLiveDiff in Ho. rewrite loop_spec in Ho. cbn in Ho.
    rewrite Ho. apply (omap_cells undefinedCell cellText); [done|]. intros key _. apply Hall.
  - rewrite Hst. split; [done|]. split; [done|]. exact Hall.
  - by rewrite Hst.
  - intros key old new row Hold Hnew Heq Hrow. specialize (Hk key). rewrite Hnew in Hk. rewrite decide_False in Hk; [by rewrite Hk|].
    unfold is_added, is_changed. cbn. rewrite Hold. intros [?|Hne]; [done|]. apply not_true_iff_false in Hne. apply Hne.
    apply rowsEqual_cells; [|done]. by rewrite Heq.
Qed.

(** ** The first snapshot, and the witness *)

Lemma seeded_in_step {V} `{EqDecision V} (undefinedCell : V) cellText rowText pk (rows copies : list (LiveDiff.Row V)) :
  Forall2 (fun a b => LiveDiff.cells a = LiveDiff.cells b) rows copies ->
  in_step (LiveDiff.seedLiveDiffState undefinedCell cellText rowText rows pk)
    (LiveDiff.seed undefinedCell cellText rowText (LiveDiff.newMaterializer pk) copies).
Proof.
  intros H. unfold LiveDiff.seedLiveDiffState, LiveDiff.seed, in_step. cbn [LiveDiff.previous LiveDiff.byKey LiveDiff.tabColumns LiveDiff.newMaterializer].
  set (f := fun (m : list (jsstr * LiveDiff.Row V)) row => JsMap.set m (LiveDiff.rowKey undefinedCell cellText rowText pk row) row).
  enough (forall m m' : list (jsstr * LiveDiff.Row V), JsMap.wf m -> JsMap.wf m' -> (forall key, LiveDiff.cells <$> JsMap.get m' key = LiveDiff.cells <$> JsMap.get m key) ->
    JsMap.wf (foldl f m rows) /\ JsMap.wf (foldl f m' copies) /\ forall key, LiveDiff.cells <$> JsMap.get (foldl f m' copies) key = LiveDiff.cells <$> JsMap.get (foldl f m rows) key)
    as Hall by (by apply (Hall [] []); try apply NoDup_nil_2).
  induction H as [|a b rows copies Hab _ IH]; intros m m' Hw Hw' Hm; [done|]. cbn [foldl]. apply IH; [by apply JsMap.wf_set..|]. intros key. unfold f.
  assert (LiveDiff.rowKey undefinedCell cellText rowText pk b = LiveDiff.rowKey undefinedCell cellText rowText pk a) as ->.
  { unfold LiveDiff.rowKey, LiveDiff.cell. by rewrite Hab. }
  destruct (decide (LiveDiff.rowKey undefinedCell cellText rowText pk a = key)) as [<-|Hne]; [rewrite !JsMap.get_set_eq; cbn; by rewrite Hab|by rewrite !JsMap.get_set_ne].
Qed.

Lemma uniform_checked {V} columns (l : list (jsstr * LiveDiff.Row V)) :
  forallb (fun entry => bool_decide (dom (LiveDiff.cells entry.2) = columns)) l = true -> uniform columns l.
Proof.
  induction l as [|[k r] l IH]; intros H key row Hg; [done|]. cbn in H. apply andb_prop in H as [Hr%bool_decide_eq_true Hl]. cbn in Hg.
  case_decide; [by injection Hg as <-|by apply (IH Hl key)].
Qed.

Definition sheet_row (identity id body : Z) : LiveDiff.Row Z := LiveDiff.mkRow identity (<[js "id" := id]> (<[js "body" := body]> ∅)).
Definition sheet_text (cell : Z) : jsstr := [cell].
Definition sheet_json (row : gmap jsstr Z) : jsstr := [].
Definition sheet_key : option (list jsstr) := Some [js "id"].
Definition sheet_state : LiveDiff.LiveDiffState Z := LiveDiff.seedLiveDiffState (-1) sheet_text sheet_json [sheet_row 1 10 100; sheet_row 2 20 200; sheet_row 3 30 300] sheet_key.
Definition sheet_tab : LiveDiff.LiveRowsMaterializer Z :=
  LiveDiff.seed (-1) sheet_text sheet_json (LiveDiff.newMaterializer sheet_key) [sheet_row 11 10 100; sheet_row 12 20 200; sheet_row 13 30 300].
Definition sheet_result : list (LiveDiff.Row Z) := [sheet_row 4 40 400; sheet_row 5 30 300; sheet_row 6 10 101].
Definition sheet_received : LiveDiff.LiveDiffPayload Z :=
  LiveDiff.mkDiff [[40]; [30]; [10]] [([40], sheet_row 14 40 400)] [([10], sheet_row 16 10 101)] [[20]].

Lemma diff_folds_to_result_witness :
  let tab' := LiveDiff.apply sheet_tab sheet_received in
  LiveDiff.cells <$> LiveDiff.current tab' = LiveDiff.cells <$> sheet_result /\
  LiveDiff.identity <$> LiveDiff.current tab' = [14; 13; 16].
Proof.
  split; [|vm_compute; reflexivity].
  apply (diff_folds_to_result Z _ (-1) sheet_text sheet_json {[js "id"; js "body"]} sheet_state sheet_tab sheet_result sheet_received).
  - apply seeded_in_step. repeat constructor.
  - apply uniform_checked. vm_compute. reflexivity.
  - repeat constructor; vm_compute; reflexivity.
  - split; [vm_compute; reflexivity|]. split; [vm_compute; reflexivity|]. split; vm_compute; repeat constructor.
Defined.
