(* ===== verification/CopyText.v ===== *)
(** * Sync client: the COPY text format

    client/src/sync/copy.ts: the body of a [COPY ... FROM] statement in the text format, and a reader of the format
    as PostgreSQL documents it. *)

From S2P Require Export Paths.
From stdpp Require Import pretty.

#[local] Open Scope Z_scope.

Module CopyText.

(** ** Values *)

Section Values.

(** Finite numbers with [String], dates with [toISOString], plain objects; [stringify] is [JSON.stringify]. *)
Context {N T J : Type}.

Inductive JsNumber : Type := NaN | Infinity (negative : bool) | Finite (n : N).

Inductive Value : Type :=
| VNull | VUndefined | VString (text : jsstr) | VNumber (n : JsNumber) | VBigint (n : Z) | VBoolean (b : bool)
| VArray (elements : list Value) | VDate (date : T) | VBytes (bytes : list Z) | VObject (object : J).

Context (numberString : N -> jsstr) (isoString : T -> jsstr) (stringify : Value -> jsstr).

(** ** Constants *)

Definition DELIMITER : Z := 9.
Definition NULL_MARKER : jsstr := [92; 78].
Definition ROW_SEPARATOR : Z := 10.

Definition COPY_TEXT_ESCAPES (c : Z) : option Z :=
  if c =? 92 then Some 92 else if c =? 8 then Some 98 else if c =? 12 then Some 102 else if c =? 10 then Some 110
  else if c =? 13 then Some 114 else if c =? 9 then Some 116 else if c =? 11 then Some 118 else None.

Definition escapeUnit (c : Z) : jsstr := match COPY_TEXT_ESCAPES c with Some e => [92; e] | None => [c] end.
Definition escapeCopyText (value : jsstr) : jsstr := concat (escapeUnit <$> value).

(** ** Texts *)

Definition hexDigit (d : Z) : Z := if d <? 10 then 48 + d else 87 + d.
Definition byteaToText (bytes : list Z) : jsstr := [92; 120] ++ concat ((fun byte => [hexDigit (byte / 16); hexDigit (byte mod 16)]) <$> bytes).

Definition numberToText (value : JsNumber) : jsstr :=
  match value with
  | NaN => js "NaN"
  | Infinity false => js "Infinity"
  | Infinity true => js "-Infinity"
  | Finite n => numberString n
  end.

(** Braces, the double quote, the comma, the backslash and ASCII white space. *)
Definition ARRAY_NEEDS_QUOTE (c : Z) : bool := bool_decide (c ∈ [123; 125; 34; 44; 92; 32; 9; 10; 13; 11; 12]).

Definition asciiLower (c : Z) : Z := if (65 <=? c) && (c <=? 90) then c + 32 else c.
Definition isNullWord (text : jsstr) : bool := bool_decide (asciiLower <$> text = js "null").

Definition quoteUnit (c : Z) : jsstr := if (c =? 34) || (c =? 92) then [92; c] else [c].
Definition quoteArrayElement (text : jsstr) : jsstr :=
  let needsQuote := bool_decide (length text = 0%nat) || isNullWord text || existsb ARRAY_NEEDS_QUOTE text in
  if negb needsQuote then text else [34] ++ concat (quoteUnit <$> text) ++ [34].

(** The elements, joined by commas, in braces. *)
Fixpoint commas (elements : list jsstr) : jsstr :=
  match elements with
  | [] => []
  | [element] => element
  | element :: elements => element ++ 44 :: commas elements
  end.
Definition braces (elements : list jsstr) : jsstr := [123] ++ commas elements ++ [125].

Fixpoint valueToText (value : Value) : jsstr :=
  match value with
  | VString text => text
  | VNumber n => numberToText n
  | VBigint n => js (pretty n)
  | VBoolean b => if b then [116] else [102]
  | VArray elements =>
      braces ((fun element => match element with
        | VNull | VUndefined => js "NULL"
        | VArray _ => valueToText element
        | _ => quoteArrayElement (valueToText element)
        end) <$> elements)
  | VDate date => isoString date
  | VBytes bytes => byteaToText bytes
  | VObject _ => stringify value
  | VNull => js "null"
  | VUndefined => js "undefined"
  end.

Definition arrayElement (element : Value) : jsstr :=
  match element with
  | VNull | VUndefined => js "NULL"
  | VArray _ => valueToText element
  | _ => quoteArrayElement (valueToText element)
  end.
Definition arrayToText (elements : list Value) : jsstr := braces (arrayElement <$> elements).

Definition jsonToText (value : Value) : jsstr := stringify value.

Definition jsonArrayToText (elements : list Value) : jsstr :=
  braces ((fun element => match element with VNull | VUndefined => js "NULL" | _ => quoteArrayElement (jsonToText element) end) <$> elements).

(** ** Fields and rows *)

Definition JSON_UDT_NAMES : list jsstr := [js "json"; js "jsonb"].
Definition JSON_ARRAY_UDT_NAMES : list jsstr := [js "_json"; js "_jsonb"].

(** The text of a field before it is escaped; [None] is a null. *)
Definition copyText (value : Value) (udtName : option jsstr) : option jsstr :=
  match value with
  | VNull | VUndefined => None
  | _ =>
      match udtName with
      | Some udt =>
          if bool_decide (udt ∈ JSON_UDT_NAMES) then Some (jsonToText value)
          else
            match value, bool_decide (udt ∈ JSON_ARRAY_UDT_NAMES) with
            | VArray elements, true => Some (jsonArrayToText elements)
            | _, _ => Some (valueToText value)
            end
      | None => Some (valueToText value)
      end
  end.

Definition serializeCopyValue (value : Value) (udtName : option jsstr) : jsstr :=
  match copyText value udtName with Some text => escapeCopyText text | None => NULL_MARKER end.

Fixpoint joinWith (separator : Z) (parts : list jsstr) : jsstr :=
  match parts with
  | [] => []
  | [part] => part
  | part :: parts => part ++ separator :: joinWith separator parts
  end.

Definition rowFields (columns : list jsstr) (columnTypes : gmap jsstr jsstr) (row : gmap jsstr Value) : list jsstr :=
  (fun column => serializeCopyValue (default VUndefined (row !! column)) (columnTypes !! column)) <$> columns.

Definition generateCopyData (rows : list (gmap jsstr Value)) (columns : list jsstr) (columnTypes : gmap jsstr jsstr) : jsstr :=
  joinWith ROW_SEPARATOR ((fun row => joinWith DELIMITER (rowFields columns columnTypes row)) <$> rows).
End Values.
Arguments JsNumber : clear implicits.
Arguments Value : clear implicits.
End CopyText.

(** ** The reader

    The text format as PostgreSQL documents it: a line per row, where an empty line at the end of the data is none;
    fields separated by tabs; a backslash starts an escape, and a field [\N] is a null. The octal and hexadecimal
    escapes, which the writer never makes, are not read, nor is the end-of-data line. *)

Definition unescapeLetter (c : Z) : Z :=
  if c =? 98 then 8 else if c =? 102 then 12 else if c =? 110 then 10 else if c =? 114 then 13 else if c =? 116 then 9
  else if c =? 118 then 11 else c.

Fixpoint unescapeCopyText (text : jsstr) : jsstr :=
  match text with
  | [] => []
  | c :: rest =>
      if c =? 92 then match rest with e :: rest => unescapeLetter e :: unescapeCopyText rest | [] => [] end
      else c :: unescapeCopyText rest
  end.

Definition readField (field : jsstr) : option jsstr := if bool_decide (field = CopyText.NULL_MARKER) then None else Some (unescapeCopyText field).

Definition dataLines (lines : list jsstr) : list jsstr :=
  match last lines with Some [] => removelast lines | _ => lines end.

Definition readCopy (body : jsstr) : list (list (option jsstr)) :=
  (fun line => readField <$> splitOn CopyText.DELIMITER line) <$> dataLines (splitOn CopyText.ROW_SEPARATOR body).

(** *** Escapes *)

Lemma escape_clean text c : c ∈ CopyText.escapeCopyText text -> c <> CopyText.DELIMITER /\ c <> CopyText.ROW_SEPARATOR.
Proof.
  unfold CopyText.escapeCopyText. induction text as [|x text IH]; [set_solver|]. cbn [fmap list_fmap concat]. intros [H|H]%elem_of_app; [|by apply IH].
  unfold CopyText.escapeUnit, CopyText.COPY_TEXT_ESCAPES, CopyText.DELIMITER, CopyText.ROW_SEPARATOR in *.
  repeat (match type of H with context [x =? ?n] => destruct (x =? n) eqn:? end; [repeat (apply elem_of_cons in H as [->|H]; [lia|]); set_solver|]).
  apply list_elem_of_singleton in H as ->. rewrite !Z.eqb_neq in *. lia.
Qed.

Lemma unescape_escape_copy text : unescapeCopyText (CopyText.escapeCopyText text) = text.
Proof.
  unfold CopyText.escapeCopyText. induction text as [|c text IH]; [done|]. cbn [fmap list_fmap concat].
  unfold CopyText.escapeUnit at 1, CopyText.COPY_TEXT_ESCAPES.
  repeat (match goal with |- context [c =? ?n] => destruct (c =? n) eqn:? end; [cbn; rewrite IH; f_equal; lia|]).
  cbn. by rewrite Heqb, IH.
Qed.

(** The marker of a null is no escaped text. *)
Lemma escape_not_null text : CopyText.escapeCopyText text <> CopyText.NULL_MARKER.
Proof.
  intros E. pose proof (unescape_escape_copy text) as H. rewrite E in H. cbn in H. subst text. by vm_compute in E.
Qed.

Lemma split_joinWith sep parts : parts <> [] -> Forall (fun part => sep ∉ part) parts -> splitOn sep (CopyText.joinWith sep parts) = parts.
Proof.
  induction parts as [|part parts IH]; [done|]. intros _ [Hp Hps]%Forall_cons. destruct parts as [|p parts]; [by apply splitOn_clean|].
  change (CopyText.joinWith sep (part :: p :: parts)) with (part ++ sep :: CopyText.joinWith sep (p :: parts)). by rewrite splitOn_app, IH by done.
Qed.

Section CopyLaws.
Import CopyText.
Context {N T J : Type} (numberString : N -> jsstr) (isoString : T -> jsstr) (stringify : Value N T J -> jsstr).

Abbreviation Row := (gmap jsstr (Value N T J)).
Abbreviation textOf := (copyText numberString isoString stringify).

(** What a row means: its columns' texts, null where a column is missing or null. *)
Definition rowTexts (columns : list jsstr) (columnTypes : gmap jsstr jsstr) (row : Row) : list (option jsstr) :=
  (fun column => textOf (default VUndefined (row !! column)) (columnTypes !! column)) <$> columns.

Lemma serialized_clean value udt c : c ∈ serializeCopyValue numberString isoString stringify value udt -> c <> DELIMITER /\ c <> ROW_SEPARATOR.
Proof.
  unfold serializeCopyValue. destruct (textOf value udt); [apply escape_clean|]. unfold NULL_MARKER, DELIMITER, ROW_SEPARATOR. set_solver by lia.
Qed.

Lemma read_serialized value udt : readField (serializeCopyValue numberString isoString stringify value udt) = textOf value udt.
Proof.
  unfold readField, serializeCopyValue. destruct (textOf value udt) as [text|]; [|done]. rewrite bool_decide_false by apply escape_not_null.
  by rewrite unescape_escape_copy.
Qed.

Definition line (columns : list jsstr) (columnTypes : gmap jsstr jsstr) (row : Row) : jsstr :=
  joinWith DELIMITER (rowFields numberString isoString stringify columns columnTypes row).

Lemma elem_of_joinWith sep parts c : c ∈ joinWith sep parts -> c = sep \/ exists part, part ∈ parts /\ c ∈ part.
Proof.
  induction parts as [|part parts IH]; [set_solver|]. destruct parts as [|p parts]; [intros H; right; exists part; set_solver|].
  change (joinWith sep (part :: p :: parts)) with (part ++ sep :: joinWith sep (p :: parts)). intros [H|[->|H]%elem_of_cons]%elem_of_app; [|by left|].
  - right. exists part. set_solver.
  - destruct (IH H) as [->|(x & Hx & Hc)]; [by left|]. right. exists x. set_solver.
Qed.

Lemma line_clean (columns : list jsstr) (columnTypes : gmap jsstr jsstr) (row : Row) : ROW_SEPARATOR ∉ line columns columnTypes row.
Proof.
  intros [H|(part & Hp & Hc)]%elem_of_joinWith; [discriminate H|]. apply list_elem_of_fmap in Hp as (column & -> & _). apply serialized_clean in Hc as [_ Hc]. done.
Qed.

Lemma read_line (columns : list jsstr) (columnTypes : gmap jsstr jsstr) (row : Row) : columns <> [] -> readField <$> splitOn DELIMITER (line columns columnTypes row) = rowTexts columns columnTypes row.
Proof.
  intros Hne. unfold line. rewrite split_joinWith.
  - unfold rowFields, rowTexts. rewrite <- list_fmap_compose. apply list_fmap_ext. intros i column _. cbn. apply read_serialized.
  - destruct columns; [done|]. done.
  - apply Forall_fmap, Forall_true. intros column Hin. by apply serialized_clean in Hin as [? _].
Qed.

(** A line is empty only for a single column that holds the empty text. *)
Lemma line_empty (columns : list jsstr) (columnTypes : gmap jsstr jsstr) (row : Row) : columns <> [] -> line columns columnTypes row = [] <-> rowTexts columns columnTypes row = [Some []].
Proof.
  intros Hne. split.
  - intros H. rewrite <- (read_line columns columnTypes row Hne), H. done.
  - intros H. unfold rowTexts, line, rowFields in *. destruct columns as [|c [|c' columns]]; [done| |done]. cbn in *. injection H as H.
    unfold serializeCopyValue. by rewrite H.
Qed.

Lemma read_body (columns : list jsstr) (columnTypes : gmap jsstr jsstr) (rows : list Row) : columns <> [] ->
  readCopy (generateCopyData numberString isoString stringify rows columns columnTypes) =
    rowTexts columns columnTypes <$> (match last rows with Some row => if decide (rowTexts columns columnTypes row = [Some []]) then removelast rows else rows | None => [] end).
Proof.
  intros Hne. unfold readCopy.
  change (generateCopyData _ _ _ rows columns columnTypes) with (joinWith ROW_SEPARATOR (line columns columnTypes <$> rows)). destruct (last rows) as [row|] eqn:El.
  - rewrite split_joinWith; [|destruct rows; done|apply Forall_fmap, Forall_true; intros r; apply line_clean].
    apply last_Some in El as [before ->]. rewrite removelast_last. unfold dataLines. rewrite fmap_app. cbn [fmap list_fmap]. rewrite last_snoc.
    destruct (line columns columnTypes row) as [|c text] eqn:E.
    + rewrite decide_True by (by apply line_empty). rewrite removelast_last, <- list_fmap_compose. apply list_fmap_ext. intros i r _. by apply read_line.
    + rewrite decide_False by (rewrite <- line_empty by done; by rewrite E). rewrite <- E. change [line columns columnTypes row] with (line columns columnTypes <$> [row]).
      rewrite <- fmap_app, <- list_fmap_compose. apply list_fmap_ext. intros i r _. by apply read_line.
  - apply last_None in El as ->. done.
Qed.
End CopyLaws.

(** ** Array literals

    The syntax of an array literal: braces around elements separated by commas; an element is a literal of its own, a
    quoted text where a backslash escapes any character, or a bare text, where the word [NULL] in any case is a null.
    White space around elements, which the writer never makes, is not read. *)

Inductive Item : Type := INull | IText (text : jsstr) | IArray (items : list Item).

Fixpoint readQuoted (text : jsstr) : option (jsstr * jsstr) :=
  match text with
  | [] => None
  | c :: rest =>
      if c =? 34 then Some ([], rest)
      else if c =? 92 then match rest with e :: rest => (fun read => (e :: read.1, read.2)) <$> readQuoted rest | [] => None end
      else (fun read => (c :: read.1, read.2)) <$> readQuoted rest
  end.

Fixpoint readBare (text : jsstr) : jsstr * jsstr :=
  match text with
  | [] => ([], [])
  | c :: rest => if (c =? 44) || (c =? 125) then ([], text) else let read := readBare rest in (c :: read.1, read.2)
  end.

(** The element at the front of the text, and after an element the rest of its array. *)
Fixpoint readElement (fuel : nat) (text : jsstr) : option (Item * jsstr) :=
  match fuel, text with
  | S fuel, c :: rest =>
      if c =? 123 then
        match rest with
        | 125 :: rest => Some (IArray [], rest)
        | _ => read ← readElements fuel rest; Some (IArray read.1, read.2)
        end
      else if c =? 34 then read ← readQuoted rest; Some (IText read.1, read.2)
      else
        let read := readBare text in
        match read.1 with
        | [] => None
        | _ :: _ => Some (if CopyText.isNullWord read.1 then INull else IText read.1, read.2)
        end
  | _, _ => None
  end
with readElements (fuel : nat) (text : jsstr) : option (list Item * jsstr) :=
  match fuel with
  | S fuel =>
      first ← readElement fuel text;
      match first.2 with
      | 44 :: rest => others ← readElements fuel rest; Some (first.1 :: others.1, others.2)
      | 125 :: rest => Some ([first.1], rest)
      | _ => None
      end
  | O => None
  end.

Definition readArray (text : jsstr) : option Item :=
  match readElement (2 * length text)%nat text with Some (item, []) => Some item | _ => None end.

(** The text goes on with the end of an array or the next element, or ends. *)
Definition item_ends (rest : jsstr) : Prop := match rest with [] => True | c :: _ => c = 44 \/ c = 125 end.

Lemma readQuoted_quoted text rest : readQuoted (concat (CopyText.quoteUnit <$> text) ++ 34 :: rest) = Some (text, rest).
Proof.
  induction text as [|c text IH]; [done|]. cbn [fmap list_fmap concat]. unfold CopyText.quoteUnit at 1.
  destruct ((c =? 34) || (c =? 92)) eqn:E; cbn -[CopyText.quoteUnit]; [by rewrite IH|].
  apply orb_false_iff in E as [-> ->]. by rewrite IH.
Qed.

Lemma readBare_bare text rest : existsb CopyText.ARRAY_NEEDS_QUOTE text = false -> item_ends rest -> readBare (text ++ rest) = (text, rest).
Proof.
  intros Ht Hr. induction text as [|c text IH]; cbn in *.
  - destruct rest as [|c rest]; [done|]. cbn. by destruct Hr as [->| ->].
  - apply orb_false_iff in Ht as [Hc Ht]. unfold CopyText.ARRAY_NEEDS_QUOTE in Hc. apply bool_decide_eq_false in Hc.
    rewrite (proj2 (Z.eqb_neq c 44)), (proj2 (Z.eqb_neq c 125)) by set_solver. by rewrite IH.
Qed.

Lemma read_text fuel text rest : (0 < fuel)%nat -> item_ends rest -> readElement fuel (CopyText.quoteArrayElement text ++ rest) = Some (IText text, rest).
Proof.
  destruct fuel as [|fuel]; [lia|]. intros _ Hr. unfold CopyText.quoteArrayElement.
  destruct (bool_decide _ || _ || _) eqn:E; cbn [negb].
  - rewrite <- !app_assoc. cbn -[CopyText.quoteUnit]. by rewrite readQuoted_quoted.
  - apply orb_false_iff in E as [[En Enull]%orb_false_iff Eq]. apply bool_decide_eq_false in En.
    destruct text as [|c text]; [done|]. pose proof (readBare_bare (c :: text) rest Eq Hr) as Hb. cbn [app] in Hb |- *. cbn [readElement].
    rewrite Hb. cbn [fst snd]. rewrite Enull. cbn in Eq. apply orb_false_iff in Eq as [Hc _]. apply bool_decide_eq_false in Hc.
    by rewrite (proj2 (Z.eqb_neq c 123)), (proj2 (Z.eqb_neq c 34)) by set_solver.
Qed.

Lemma read_null fuel rest : (0 < fuel)%nat -> item_ends rest -> readElement fuel (js "NULL" ++ rest) = Some (INull, rest).
Proof.
  destruct fuel as [|fuel]; [lia|]. intros _ Hr. pose proof (readBare_bare (js "NULL") rest eq_refl Hr) as Hb.
  change (js "NULL" ++ rest) with (78 :: 85 :: 76 :: 76 :: rest) in *. cbn [readElement]. by rewrite Hb.
Qed.

Section ArrayLaws.
Import CopyText.
Context {N T J : Type} (numberString : N -> jsstr) (isoString : T -> jsstr) (stringify : Value N T J -> jsstr).
Abbreviation V := (Value N T J).
Abbreviation toText := (valueToText numberString isoString stringify).
Abbreviation element := (arrayElement numberString isoString stringify).

(** What an array means: nulls, arrays, and the texts of the other elements. *)
Fixpoint itemOf (value : V) : Item :=
  match value with
  | VNull | VUndefined => INull
  | VArray elements => IArray (itemOf <$> elements)
  | _ => IText (toText value)
  end.

Definition V_ind' (P : V -> Prop) (Harr : forall vs, Forall P vs -> P (VArray vs)) (Hother : forall v, (forall vs, v <> VArray vs) -> P v) : forall v, P v :=
  fix go v := match v with
    | VArray vs => Harr vs ((fix all vs : Forall P vs := match vs with [] => Forall_nil_2 P | v :: vs => Forall_cons_2 P v vs (go v) (all vs) end) vs)
    | VNull => Hother VNull (fun _ => ltac:(discriminate)) | VUndefined => Hother VUndefined (fun _ => ltac:(discriminate))
    | VString t => Hother (VString t) (fun _ => ltac:(discriminate)) | VNumber n => Hother (VNumber n) (fun _ => ltac:(discriminate))
    | VBigint n => Hother (VBigint n) (fun _ => ltac:(discriminate)) | VBoolean b => Hother (VBoolean b) (fun _ => ltac:(discriminate))
    | VDate d => Hother (VDate d) (fun _ => ltac:(discriminate)) | VBytes b => Hother (VBytes b) (fun _ => ltac:(discriminate))
    | VObject o => Hother (VObject o) (fun _ => ltac:(discriminate))
    end.

Lemma quote_nonempty text : exists c rest, quoteArrayElement text = c :: rest /\ c <> 125.
Proof.
  unfold quoteArrayElement. destruct (bool_decide _ || _ || _) eqn:E; cbn [negb]; [by eexists _, _|].
  apply orb_false_iff in E as [[En _]%orb_false_iff Eq]. apply bool_decide_eq_false in En. destruct text as [|c text]; [done|].
  cbn in Eq. apply orb_false_iff in Eq as [Hc _]. apply bool_decide_eq_false in Hc. exists c, text. split; [done|]. set_solver.
Qed.

Lemma element_nonempty (v : V) : exists c rest, element v = c :: rest /\ c <> 125.
Proof. destruct v; try (by eexists _, _); apply quote_nonempty. Qed.

Definition reads (v : V) : Prop :=
  forall fuel rest, (2 * length (element v) <= fuel)%nat -> item_ends rest -> readElement fuel (element v ++ rest) = Some (itemOf v, rest).

Lemma elements_read (vs : list V) : Forall reads vs -> vs <> [] -> forall fuel rest, (2 * length (commas (element <$> vs)) + 1 <= fuel)%nat ->
  readElements fuel (commas (element <$> vs) ++ 125 :: rest) = Some (itemOf <$> vs, rest).
Proof.
  induction 1 as [|v vs Hv Hvs IH]; [done|]. intros _ fuel rest Hf. destruct fuel as [|fuel]; [lia|]. destruct vs as [|w vs].
  - cbn in Hf |- *. rewrite Hv; [done|lia|by right].
  - change (commas (element <$> v :: w :: vs)) with (element v ++ 44 :: commas (element <$> w :: vs)) in *. rewrite length_app in Hf. cbn [length] in Hf.
    rewrite <- app_assoc. cbn [app readElements]. rewrite Hv; [|lia|by left]. cbn [mbind option_bind fst snd].
    rewrite IH; [done|done|]. lia.
Qed.

Lemma element_read (v : V) : reads v.
Proof.
  induction v as [vs IH|v Hv] using V_ind'; intros fuel rest Hf Hr.
  - change (element (VArray vs)) with (braces (element <$> vs)) in *. unfold braces in *. destruct fuel as [|fuel]; [cbn in Hf; lia|].
    rewrite <- !app_assoc. cbn [app readElement]. destruct vs as [|v vs]; [done|].
    assert (exists c t, commas (element <$> v :: vs) = c :: t /\ c <> 125) as (c & t & E & Hc).
    { destruct (element_nonempty v) as (c & t & E & Hc). destruct vs as [|w vs]; [exists c, t; by cbn|].
      exists c, (t ++ 44 :: commas (element <$> w :: vs)). split; [|done].
      change (commas (element <$> v :: w :: vs)) with (element v ++ 44 :: commas (element <$> w :: vs)). by rewrite E. }
    pose proof (elements_read (v :: vs) IH ltac:(done) fuel rest) as H. rewrite !length_app in Hf. cbn [length] in Hf.
    specialize (H ltac:(lia)). rewrite E in H |- *. cbn [app] in H |- *. rewrite Z.eqb_refl.
    replace (match c with 125 => Some (IArray [], t ++ 125 :: rest) | _ => read ← readElements fuel (c :: t ++ 125 :: rest); Some (IArray read.1, read.2) end)
      with (read ← readElements fuel (c :: t ++ 125 :: rest); Some (IArray read.1, read.2)).
    + by rewrite H.
    + repeat (match goal with |- context [match ?x with _ => _ end] => is_var x; destruct x end; try done).
  - destruct (element_nonempty v) as (c & t & E & _). assert (0 < fuel)%nat by (rewrite E in Hf; cbn in Hf; lia).
    destruct v; cbn [arrayElement itemOf]; try by apply read_text. 3: by destruct (Hv elements). all: by apply read_null.
Qed.

(** Reading the literal the writer makes gives the elements of the array, at every depth. *)
Lemma array_reads (elements : list V) : readArray (arrayToText numberString isoString stringify elements) = Some (itemOf (VArray elements)).
Proof.
  unfold readArray. pose proof (element_read (VArray elements) (2 * length (element (VArray elements)))%nat [] ltac:(lia) I) as H.
  rewrite app_nil_r in H. change (element (VArray elements)) with (arrayToText numberString isoString stringify elements) in H. by rewrite H.
Qed.
End ArrayLaws.

(** ** Properties *)

(** C30. Reading the body the client sends gives, row by row and column by column, the text of each value or a null,
    unless the last row is a single empty text; and reading the literal of an array gives its elements, at every
    depth. *)
Theorem copy_text_roundtrip {N T J : Type} (numberString : N -> jsstr) (isoString : T -> jsstr) (stringify : CopyText.Value N T J -> jsstr)
    (rows : list (gmap jsstr (CopyText.Value N T J))) (columns : list jsstr) (columnTypes : gmap jsstr jsstr)
    (Hcolumns : columns <> [])
    (Hlast : forall row, last rows = Some row -> rowTexts numberString isoString stringify columns columnTypes row <> [Some []]) :
  readCopy (CopyText.generateCopyData numberString isoString stringify rows columns columnTypes)
    = rowTexts numberString isoString stringify columns columnTypes <$> rows /\
  (forall elements, readArray (CopyText.arrayToText numberString isoString stringify elements)
    = Some (itemOf numberString isoString stringify (CopyText.VArray elements))).
Proof.
  split; [|intros elements; apply array_reads]. rewrite read_body by done. destruct (last rows) as [row|] eqn:El.
  - by rewrite decide_False by (by apply Hlast).
  - by apply last_None in El as ->.
Qed.

(** When a table of one column ends with an empty text, the body's last line is empty, which is no row: reading
    it gives the rows before that one. *)
Theorem last_empty_row_lost {N T J : Type} (numberString : N -> jsstr) (isoString : T -> jsstr) (stringify : CopyText.Value N T J -> jsstr)
    (rows : list (gmap jsstr (CopyText.Value N T J))) (row : gmap jsstr (CopyText.Value N T J)) (column : jsstr) (columnTypes : gmap jsstr jsstr)
    (Hempty : row !! column = Some (CopyText.VString [])) (Htext : columnTypes !! column = Some (js "text")) :
  readCopy (CopyText.generateCopyData numberString isoString stringify (rows ++ [row]) [column] columnTypes)
    = rowTexts numberString isoString stringify [column] columnTypes <$> rows.
Proof.
  rewrite read_body, last_snoc by done. rewrite decide_True; [by rewrite removelast_last|]. unfold rowTexts. cbn. rewrite Hempty, Htext. reflexivity.
Qed.

Definition example_columns : list jsstr := [js "name"; js "tags"].
Definition example_types : gmap jsstr jsstr := {[js "name" := js "text"; js "tags" := js "_text"]}.
Definition example_rows : list (gmap jsstr (CopyText.Value Z Z Z)) :=
  [{[js "name" := CopyText.VString (js "a\b"); js "tags" := CopyText.VArray [CopyText.VString (js "x,y"); CopyText.VNull]]};
   {[js "name" := CopyText.VString []]}].

Lemma copy_text_roundtrip_witness :
  readCopy (CopyText.generateCopyData (fun n : Z => [n]) (fun t : Z => [t]) (fun _ => js "{}") example_rows example_columns example_types)
    = [[Some (js "a\b"); Some ([123; 34] ++ js "x,y" ++ [34; 44] ++ js "NULL" ++ [125])]; [Some []; None]].
Proof.
  refine (eq_trans (proj1 (copy_text_roundtrip (fun n : Z => [n]) (fun t : Z => [t]) (fun _ => js "{}") example_rows example_columns example_types _ _)) _).
  - discriminate.
  - intros row E. vm_compute in E. injection E as <-. vm_compute. discriminate.
  - vm_compute. reflexivity.
Defined.

Definition empty_name : gmap jsstr (CopyText.Value Z Z Z) := {[js "name" := CopyText.VString []]}.

Lemma last_empty_row_lost_witness :
  readCopy (CopyText.generateCopyData (fun n : Z => [n]) (fun t : Z => [t]) (fun _ => js "{}") ([empty_name] ++ [empty_name]) [js "name"] example_types)
    = [[Some []]].
Proof.
  refine (eq_trans (last_empty_row_lost (fun n : Z => [n]) (fun t : Z => [t]) (fun _ => js "{}") [empty_name] empty_name (js "name") example_types _ _) _).
  all: vm_compute; reflexivity.
Defined.
