(* ===== verification/ShapeCompile.v ===== *)
(** * Server: shape predicates and the compilation of shape requests

    contracts/src/predicate.ts, the shape declarations of contracts/src/config.ts, and
    server/src/circuits/compile.ts: the predicate a subscription is compiled to, from the registry, the claims of the
    caller and the scope; the check that a narrowed local key is pinned; and the fingerprint of a compiled request. *)

From S2P Require Export Paths Utf8.

#[local] Open Scope Z_scope.

(** ** Predicates *)

Module Predicate.
Section Predicate.

(** [N] is the type of finite numbers, where 0 and -0 are one. *)
Context {N : Type}.

Inductive PredicateValue : Type := VString (s : jsstr) | VNumber (n : N) | VBoolean (b : bool) | VNull.

Inductive PredicateLeafOp : Type := eq | neq | lt | lte | gt | gte | like.

Inductive Predicate : Type :=
| Leaf (col : jsstr) (op : PredicateLeafOp) (value : PredicateValue)
| IsNull (col : jsstr) (isNull : bool)
| And (nodes : list Predicate)
| Or (nodes : list Predicate)
| Not (node : Predicate)
| InSubquery (col : jsstr) (table project : jsstr) (where_ : option Predicate) (negated : option bool).

(** What a builder is given: a value, a bigint, or something that is no scalar. *)
Inductive PredicateValueInput : Type := IValue (value : PredicateValue) | IBigint (n : Z) | IOther.
Inductive PredicateError : Type := NotAPredicateValue | OutsideSafeIntegers.

Context (numberOf : Z -> N).

Definition MAX_SAFE_INTEGER : Z := 9007199254740991.

Definition assertPredicateValue (value : PredicateValueInput) : result PredicateError PredicateValue :=
  match value with IValue value => Ok value | _ => Throw NotAPredicateValue end.

Definition toWireValue (value : PredicateValueInput) : result PredicateError PredicateValue :=
  match value with
  | IBigint n => if (MAX_SAFE_INTEGER <? n) || (n <? - MAX_SAFE_INTEGER) then Throw OutsideSafeIntegers else Ok (VNumber (numberOf n))
  | _ => assertPredicateValue value
  end.

Definition leaf (column : jsstr) (op : PredicateLeafOp) (value : PredicateValueInput) : result PredicateError Predicate :=
  value ← toWireValue value; Ok (Leaf column op value).
Definition notLike (column : jsstr) (pattern : jsstr) : result PredicateError Predicate :=
  node ← leaf column like (IValue (VString pattern)); Ok (Not node).
Definition isNull (column : jsstr) : Predicate := IsNull column true.
Definition isNotNull (column : jsstr) : Predicate := IsNull column false.

Definition conjoinPredicates (nodes : list (option Predicate)) : option Predicate :=
  match omap id nodes with
  | [] => None
  | [node] => Some node
  | present => Some (And present)
  end.
End Predicate.
Arguments PredicateValue : clear implicits.
Arguments PredicateValueInput : clear implicits.
Arguments Predicate : clear implicits.
End Predicate.

(** ** Shapes and requests *)

Module Shapes.
Import Predicate.
Section Shapes.

(** Numbers, verified claims, deployment parameters, and the cells of a row the egress rewrites. *)
Context {N Claims Params Cell : Type}.

(** What a custom predicate returns: the sentinel [DENY_ALL_PREDICATE] itself, [null], or another predicate. *)
Inductive FilterResult : Type := DENY_ALL_PREDICATE | NoFilter | Filtered (p : Predicate N).

Record RowFilterSpec : Type := mkRowFilter {
  customPredicate : option (Claims -> option Params -> result unit FilterResult);
  columns : option (list jsstr) }.

Record ShapeSpec : Type := mkShape {
  tableName : jsstr; shapeKey : jsstr; physicalTable : option jsstr; rowFilter : option RowFilterSpec;
  scope : option (list jsstr); static_where : option (Predicate N) }.

Inductive ShapeTier : Type := shared | private.

(** The columns of the local table, of the primary key and of the local primary key, and the egress transform. *)
Record SyncTableEntry : Type := mkEntry {
  shape : option ShapeSpec; localTable : list jsstr; omitColumns : option (list jsstr);
  primaryKey : list jsstr; localPrimaryKey : option (list jsstr);
  rowTransform : option (gmap jsstr Cell -> jsstr -> option Params -> result unit (gmap jsstr Cell)) }.

Abbreviation SyncTableRegistry := (list (jsstr * SyncTableEntry)).

(** A tier conflict, or an exception of a custom predicate. *)
Inductive ShapeError : Type := ScopeAndRowFilter | FilterThrew.

Definition readShapeTier (s : ShapeSpec) : result ShapeError ShapeTier :=
  match scope s, rowFilter s with
  | Some _, Some _ => Throw ScopeAndRowFilter
  | Some _, None => Ok shared
  | None, _ => Ok private
  end.

Record CreateShapeRequest : Type := mkRequest { table : jsstr; where_ : option (Predicate N); emitted : option (list jsstr) }.

Record ShapeRequest : Type := mkShapeRequest {
  requestedKey : jsstr; claims : option Claims; scopeValues : option (list (PredicateValue N)); params : option Params }.

Inductive DenyReason : Type :=
| NoShape | NotPublic | ScopeRequired | ScopeArity | DeniesCaller | UnpinnedKey.

Inductive CompiledShapeRequest : Type := Create (tier : ShapeTier) (request : CreateShapeRequest) | Deny (reason : DenyReason).

Definition resolveEntryByShapeKey (registry : SyncTableRegistry) (key : jsstr) : option SyncTableEntry :=
  snd <$> (find (fun member => match shape member.2 with Some s => bool_decide (shapeKey s = key) | None => false end) registry).

Definition PUBLIC : jsstr := js "public".

(** [includes("."), split(".")[0]] and [slice("public.".length)]. *)
Fixpoint beforeDot (target : jsstr) : jsstr :=
  match target with c :: rest => if c =? 46 then [] else c :: beforeDot rest | [] => [] end.

Definition resolveShapeTarget (s : ShapeSpec) : option jsstr :=
  let target := default (tableName s) (physicalTable s) in
  if negb (bool_decide (46 ∈ target)) then Some target
  else if bool_decide (beforeDot target = PUBLIC) then Some (drop 7 target)
  else None.

Definition emittedColumns (entry : SyncTableEntry) : option (list jsstr) :=
  match (s ← shape entry; filter ← rowFilter s; columns filter) with
  | Some ((_ :: _) as explicit) => Some explicit
  | _ => match omitColumns entry with None => None | Some _ => Some (localTable entry) end
  end.

Definition scopeEquality (column : jsstr) (value : PredicateValue N) : Predicate N :=
  match value with VNull => IsNull column true | _ => Leaf column eq value end.

Definition scopePredicate (s : ShapeSpec) (values : option (list (PredicateValue N))) : DenyReason + option (Predicate N) :=
  let columns := default [] (scope s) in
  match values with
  | None => inl ScopeRequired
  | Some values =>
      if negb (length values =? length columns)%nat then inl ScopeArity
      else inr (conjoinPredicates (Some <$> zip_with scopeEquality columns values))
  end.

(** The columns the top-level conjunction pins; [into] is a set. *)
Fixpoint pinnedColumns (node : Predicate N) : list jsstr :=
  match node with
  | And nodes => concat (pinnedColumns <$> nodes)
  | IsNull col _ => [col]
  | Leaf col eq _ => [col]
  | _ => []
  end.

Definition unpinned (entry : SyncTableEntry) (w : option (Predicate N)) : list jsstr :=
  match localPrimaryKey entry with
  | None | Some [] => []
  | Some localKey =>
      let dropped := filter (fun column => column ∉ localKey) (primaryKey entry) in
      filter (fun column => column ∉ default [] (pinnedColumns <$> w)) dropped
  end.

Context (emptyClaims : Claims).

Definition privatePredicate (s : ShapeSpec) (c : option Claims) (p : option Params) : result ShapeError (DenyReason + option (Predicate N)) :=
  match (filter ← rowFilter s; customPredicate filter) with
  | None => Ok (inr None)
  | Some filter =>
      match filter (default emptyClaims c) p with
      | Throw _ => Throw FilterThrew
      | Ok DENY_ALL_PREDICATE => Ok (inl DeniesCaller)
      | Ok NoFilter => Ok (inr None)
      | Ok (Filtered predicate) => Ok (inr (Some predicate))
      end
  end.

Definition compileShapeRequest (registry : SyncTableRegistry) (request : ShapeRequest) : result ShapeError CompiledShapeRequest :=
  match (entry ← resolveEntryByShapeKey registry (requestedKey request); s ← shape entry; Some (entry, s)) with
  | None => Ok (Deny NoShape)
  | Some (entry, s) =>
      match resolveShapeTarget s with
      | None => Ok (Deny NotPublic)
      | Some target =>
          tier ← readShapeTier s;
          subject ← match tier with
            | shared => Ok (scopePredicate s (scopeValues request))
            | private => privatePredicate s (claims request) (params request)
            end;
          match subject with
          | inl refusal => Ok (Deny refusal)
          | inr predicate =>
              let w := conjoinPredicates [predicate; static_where s] in
              match unpinned entry w with
              | _ :: _ => Ok (Deny UnpinnedKey)
              | [] => Ok (Create tier (mkRequest target w (emittedColumns entry)))
              end
          end
      end
  end.
End Shapes.
Arguments FilterResult : clear implicits.
Arguments RowFilterSpec : clear implicits.
Arguments ShapeSpec : clear implicits.
Arguments SyncTableEntry : clear implicits.
Arguments CreateShapeRequest : clear implicits.
Arguments ShapeRequest : clear implicits.
Arguments CompiledShapeRequest : clear implicits.
End Shapes.

(** ** Fingerprints *)

Module Fingerprint.
Import Predicate Shapes.
Section Fingerprint.
Context {N : Type}.

Inductive Json : Type :=
| JUndefined | JNull | JBoolean (b : bool) | JNumber (n : N) | JString (s : jsstr)
| JArray (members : list Json) | JObject (entries : list (jsstr * Json)).

(** [JSON.stringify] of numbers, and SHA-256. *)
Context (numberText : N -> jsstr) (sha256 : list Z -> list Z).

Definition hexDigit (d : Z) : Z := if d <? 10 then 48 + d else 87 + d.
Definition hex4 (c : Z) : jsstr := [hexDigit (c / 4096); hexDigit (c / 256 mod 16); hexDigit (c / 16 mod 16); hexDigit (c mod 16)].

(** [JSON.stringify] of a string: quotes, backslashes, control characters and lone surrogates are escaped. *)
Definition jsonUnit (c : Z) : jsstr :=
  if c =? 34 then [92; 34] else if c =? 92 then [92; 92] else if c =? 8 then [92; 98] else if c =? 12 then [92; 102]
  else if c =? 10 then [92; 110] else if c =? 13 then [92; 114] else if c =? 9 then [92; 116]
  else if (c <? 32) || high_surrogate c || low_surrogate c then [92; 117] ++ hex4 c
  else [c].
Fixpoint jsonUnits (s : jsstr) : jsstr :=
  match s with
  | [] => []
  | c :: rest =>
      match rest with
      | d :: rest' => if high_surrogate c && low_surrogate d then c :: d :: jsonUnits rest' else jsonUnit c ++ jsonUnits rest
      | [] => jsonUnit c
      end
  end.
Definition jsonString (s : jsstr) : jsstr := [34] ++ jsonUnits s ++ [34].

(** [left < right] on strings compares code units. *)
Fixpoint ltString (a b : jsstr) : bool :=
  match a, b with
  | _, [] => false
  | [], _ :: _ => true
  | c :: a, d :: b => if c =? d then ltString a b else c <? d
  end.

(** Sorting by [(left, right) => left < right ? -1 : 1]; the keys of an object are distinct. *)
Fixpoint insertEntry (entry : jsstr * jsstr) (entries : list (jsstr * jsstr)) : list (jsstr * jsstr) :=
  match entries with
  | [] => [entry]
  | next :: rest => if ltString entry.1 next.1 then entry :: entries else next :: insertEntry entry rest
  end.
Definition sortEntries (entries : list (jsstr * jsstr)) : list (jsstr * jsstr) := foldr insertEntry [] entries.

Fixpoint commas (members : list jsstr) : jsstr :=
  match members with
  | [] => []
  | [member] => member
  | member :: members => member ++ 44 :: commas members
  end.

Definition isUndefined (value : Json) : bool := match value with JUndefined => true | _ => false end.

(** The members are printed before they are sorted by key, which changes nothing: sorting moves whole entries. *)
Fixpoint canonicalJson (value : Json) : jsstr :=
  match value with
  | JUndefined | JNull => js "null"
  | JBoolean b => if b then js "true" else js "false"
  | JNumber n => numberText n
  | JString s => jsonString s
  | JArray members => [91] ++ commas (canonicalJson <$> members) ++ [93]
  | JObject entries =>
      let printed := omap (fun entry => if isUndefined entry.2 then None else Some (entry.1, canonicalJson entry.2)) entries in
      [123] ++ commas ((fun entry => jsonString entry.1 ++ 58 :: entry.2) <$> sortEntries printed) ++ [125]
  end.

Definition opName (op : PredicateLeafOp) : jsstr :=
  match op with
  | eq => js "eq" | neq => js "neq" | lt => js "lt" | lte => js "lte" | gt => js "gt" | gte => js "gte" | like => js "like"
  end.
Definition valueJson (value : PredicateValue N) : Json :=
  match value with VString s => JString s | VNumber n => JNumber n | VBoolean b => JBoolean b | VNull => JNull end.
Definition optional {A} (f : A -> Json) (value : option A) : Json := match value with Some a => f a | None => JUndefined end.

(** The objects the predicates are. *)
Fixpoint predicateJson (p : Predicate N) : Json :=
  match p with
  | Leaf col op value => JObject [(js "col", JString col); (js "op", JString (opName op)); (js "value", valueJson value)]
  | IsNull col isNull => JObject [(js "col", JString col); (js "isNull", JBoolean isNull)]
  | And nodes => JObject [(js "and", JArray (predicateJson <$> nodes))]
  | Or nodes => JObject [(js "or", JArray (predicateJson <$> nodes))]
  | Not node => JObject [(js "not", predicateJson node)]
  | InSubquery col table project w negated =>
      JObject [(js "col", JString col);
        (js "in", JObject [(js "table", JString table); (js "project", JString project);
          (js "where", match w with Some p => predicateJson p | None => JUndefined end)]);
        (js "negated", optional JBoolean negated)]
  end.

(** [changesOnly] is never set by the compiler. *)
Definition requestJson (request : CreateShapeRequest N) : Json :=
  JObject [(js "table", JString (table request)); (js "where", optional predicateJson (where_ request));
    (js "columns", optional (fun columns => JArray (JString <$> columns)) (emitted request)); (js "changesOnly", JUndefined)].

Definition hexByte (byte : Z) : jsstr := [hexDigit (byte / 16); hexDigit (byte mod 16)].

Definition fingerprintShapeRequest (request : CreateShapeRequest N) : jsstr :=
  concat (hexByte <$> sha256 (utf8_encode (canonicalJson (requestJson request)))).
End Fingerprint.
Arguments Json : clear implicits.
End Fingerprint.

(** ** What a predicate means

    The engine evaluates a predicate on a row with SQL's three values: a comparison is unknown on a null, [AND] and
    [OR] are those of Kleene, and a shape holds the rows on which its predicate is true. How the engine compares a
    cell with a value and which values a subquery has are parameters. *)

Definition and3 (a b : option bool) : option bool :=
  match a, b with
  | Some false, _ | _, Some false => Some false
  | Some true, Some true => Some true
  | _, _ => None
  end.
Definition not3 (a : option bool) : option bool := negb <$> a.
Definition or3 (a b : option bool) : option bool := not3 (and3 (not3 a) (not3 b)).

Lemma elem_of_concat {A} (x : A) (ls : list (list A)) : x ∈ concat ls <-> exists l, x ∈ l /\ l ∈ ls.
Proof. induction ls as [|l ls IH]; cbn; [set_solver|]. rewrite elem_of_app, IH. set_solver. Qed.

(** Induction over the predicates a predicate is made of. *)
Definition Predicate_all_ind {N : Type} (P : Predicate.Predicate N -> Prop)
    (Hleaf : forall col op value, P (Predicate.Leaf col op value)) (HisNull : forall col b, P (Predicate.IsNull col b))
    (Hand : forall nodes, Forall P nodes -> P (Predicate.And nodes)) (Hor : forall nodes, Forall P nodes -> P (Predicate.Or nodes))
    (Hnot : forall node, P node -> P (Predicate.Not node))
    (Hin : forall col table project w negated, match w with Some p => P p | None => True end -> P (Predicate.InSubquery col table project w negated)) :
    forall p, P p :=
  fix go p :=
    let all := fix all (nodes : list (Predicate.Predicate N)) : Forall P nodes :=
      match nodes with [] => Forall_nil_2 P | p :: nodes => Forall_cons_2 P p nodes (go p) (all nodes) end in
    match p with
    | Predicate.Leaf col op value => Hleaf col op value
    | Predicate.IsNull col b => HisNull col b
    | Predicate.And nodes => Hand nodes (all nodes)
    | Predicate.Or nodes => Hor nodes (all nodes)
    | Predicate.Not node => Hnot node (go node)
    | Predicate.InSubquery col table project w negated =>
        Hin col table project w negated (match w with Some p => go p | None => I end)
    end.

Section Meaning.
Import Predicate Shapes.
Context {N Cell : Type}.
Context (compare : PredicateLeafOp -> Cell -> PredicateValue N -> option bool).
Context (member : Cell -> jsstr -> jsstr -> option (Predicate N) -> option bool).

(** A row gives each column a cell or null. *)
Fixpoint holds (row : jsstr -> option Cell) (p : Predicate N) : option bool :=
  match p with
  | Leaf col op value => cell ← row col; compare op cell value
  | IsNull col isNull => Some (Bool.eqb isNull (bool_decide (row col = None)))
  | And nodes => foldr and3 (Some true) (holds row <$> nodes)
  | Or nodes => foldr or3 (Some false) (holds row <$> nodes)
  | Not node => not3 (holds row node)
  | InSubquery col table project w negated =>
      let found := cell ← row col; member cell table project w in
      if default false negated then not3 found else found
  end.
Definition matches (row : jsstr -> option Cell) (w : option (Predicate N)) : Prop :=
  match w with Some p => holds row p = Some true | None => True end.

Lemma and3_true a b : and3 a b = Some true <-> a = Some true /\ b = Some true.
Proof. destruct a as [[]|], b as [[]|]; naive_solver. Qed.

Lemma all_true (l : list (option bool)) : foldr and3 (Some true) l = Some true <-> Forall (fun a => a = Some true) l.
Proof. induction l as [|a l IH]; cbn; [by split|]. by rewrite and3_true, IH, Forall_cons. Qed.

Lemma holds_and row nodes : holds row (And nodes) = Some true <-> Forall (fun p => holds row p = Some true) nodes.
Proof. cbn [holds]. by rewrite all_true, Forall_fmap. Qed.

(** A conjunction of predicates some of which are absent holds where those that are present do. *)
Lemma matches_conjoin row nodes : matches row (conjoinPredicates nodes) <-> Forall (matches row) nodes.
Proof.
  assert (Forall (matches row) nodes <-> Forall (fun p => holds row p = Some true) (omap id nodes)) as ->.
  { induction nodes as [|[p|] nodes IH]; cbn [omap list_omap id]; [by split|by rewrite !Forall_cons, IH|]. rewrite Forall_cons, IH. cbn. tauto. }
  unfold conjoinPredicates. destruct (omap id nodes) as [|p [|q present]]; [by cbn; split|cbn [matches]; rewrite Forall_singleton; done|].
  unfold matches. by rewrite holds_and.
Qed.

(** *** Pinned columns *)

(** The columns the predicate wants not to be null at the top of its conjunction. *)
Fixpoint wantedPresent (p : Predicate N) : list jsstr :=
  match p with And nodes => concat (wantedPresent <$> nodes) | IsNull col false => [col] | _ => [] end.

(** Equality with a value is true for one cell at most. *)
Definition eq_functional : Prop := forall c c' v, compare eq c v = Some true -> compare eq c' v = Some true -> c = c'.

Lemma pinned_agree (Heq : eq_functional) p col row row' : col ∈ pinnedColumns p -> col ∉ wantedPresent p ->
  holds row p = Some true -> holds row' p = Some true -> row col = row' col.
Proof.
  induction p as [c op v|c b|nodes IH|nodes _|q _|c t q w n _] using Predicate_all_ind; try (cbn; set_solver).
  - destruct op; cbn [pinnedColumns]; try set_solver. intros ->%list_elem_of_singleton _. cbn. destruct (row c) as [x|], (row' c) as [y|]; try done. cbn.
    intros H H'. f_equal. by apply (Heq x y v).
  - cbn [pinnedColumns wantedPresent]. intros ->%list_elem_of_singleton Hw. destruct b; [|set_solver]. cbn. intros H H'.
    repeat case_bool_decide; try done. congruence.
  - cbn [pinnedColumns wantedPresent]. intros (l & Hl & (p & -> & Hp)%list_elem_of_fmap)%elem_of_concat Hw. rewrite !holds_and, !Forall_forall. intros H H'.
    rewrite Forall_forall in IH. apply (IH p Hp Hl); [|by apply H|by apply H']. intros Hin. apply Hw, elem_of_concat. exists (wantedPresent p).
    split; [done|]. by apply list_elem_of_fmap_2.
Qed.
End Meaning.

#[local] Ltac refused := cbn; let H := fresh in intros H; discriminate H.

Section CompileLaws.
Import Predicate Shapes.
Context {N Claims Params Cell V : Type} (emptyClaims : Claims).
Abbreviation Registry := (list (jsstr * SyncTableEntry N Claims Params V)).
Abbreviation compile := (compileShapeRequest (N := N) (Cell := V) emptyClaims).

(** What a request that creates a shape went through. *)
Lemma compile_create (registry : Registry) request tier created : compile registry request = Ok (Create tier created) ->
  exists entry s subject,
    resolveEntryByShapeKey registry (requestedKey request) = Some entry /\ shape entry = Some s /\
    resolveShapeTarget s = Some (table created) /\ readShapeTier s = Ok tier /\
    match tier with
    | shared => scopePredicate s (scopeValues request) = inr subject
    | private => privatePredicate emptyClaims s (claims request) (params request) = Ok (inr subject)
    end /\
    where_ created = conjoinPredicates [subject; static_where s] /\ unpinned entry (where_ created) = [] /\ emitted created = emittedColumns entry.
Proof.
  unfold compileShapeRequest. destruct (resolveEntryByShapeKey registry (requestedKey request)) as [entry|] eqn:Ee; [|refused]. cbn [mbind option_bind].
  destruct (shape entry) as [s|] eqn:Es; cbn [mbind option_bind]; [|refused]. destruct (resolveShapeTarget s) as [target|] eqn:Et; [|refused].
  destruct (readShapeTier s) as [t|] eqn:Er; cbn [mbind result_bind]; [|refused].
  set (subject := match t with shared => Ok (scopePredicate s (scopeValues request)) | private => _ end).
  destruct subject as [[refusal|predicate]|] eqn:Ep; cbn [mbind result_bind]; try refused.
  destruct (unpinned entry _) eqn:Eu; [|refused]. intros [= <- <-]. exists entry, s, predicate. cbn [table where_ emitted].
  repeat split; try done. unfold subject in Ep. destruct t; [by injection Ep|done].
Qed.
End CompileLaws.

(** ** Properties *)

Section Properties.
Import Predicate Shapes.
Context {N Claims Params Cell V : Type} (emptyClaims : Claims).
Context (compare : PredicateLeafOp -> Cell -> PredicateValue N -> option bool).
Context (member : Cell -> jsstr -> jsstr -> option (Predicate N) -> option bool).
Abbreviation Registry := (list (jsstr * SyncTableEntry N Claims Params V)).
Abbreviation compile := (compileShapeRequest (N := N) (Cell := V) emptyClaims).
Abbreviation in_shape := (matches compare member).

(** The rows a compiled private shape holds: those of the filter the registry fuses with the claims, if any, and of
    the static predicate. *)
Definition subject_rows (s : ShapeSpec N Claims Params) (request : ShapeRequest N Claims Params) (row : jsstr -> option Cell) : Prop :=
  match (filter ← rowFilter s; customPredicate filter) with
  | None => True
  | Some filter =>
      match filter (default emptyClaims (claims request)) (params request) with
      | Ok NoFilter => True
      | Ok (Filtered p) => holds compare member row p = Some true
      | _ => False
      end
  end.

(** A row is in the scope when each scope column equals its value, where a null value is the null of SQL. *)
Definition cell_is (row : jsstr -> option Cell) (column : jsstr) (value : PredicateValue N) : Prop :=
  match value with VNull => row column = None | _ => exists cell, row column = Some cell /\ compare eq cell value = Some true end.
Definition in_scope (columns : list jsstr) (values : list (PredicateValue N)) (row : jsstr -> option Cell) : Prop := Forall2 (cell_is row) columns values.

Lemma scope_equality row column value : holds compare member row (scopeEquality column value) = Some true <-> cell_is row column value.
Proof.
  destruct value; cbn; [..|case_bool_decide; naive_solver]; (destruct (row column) as [cell|]; cbn; [split; [by exists cell|by intros (c & [= <-] & H)]|split; [done|by intros (c & ? & _)]]).
Qed.

(** The predicate of a scope holds on its rows. *)
Lemma scope_rows (s : ShapeSpec N Claims Params) values subject row : scopePredicate s values = inr subject ->
  in_shape row subject <-> exists vs, values = Some vs /\ in_scope (default [] (scope s)) vs row.
Proof.
  unfold scopePredicate. destruct values as [values|]; [|done]. destruct (length values =? length (default [] (scope s)))%nat eqn:El; [|done].
  apply Nat.eqb_eq in El. intros [= <-]. rewrite matches_conjoin, Forall_fmap. transitivity (in_scope (default [] (scope s)) values row).
  - unfold in_scope. clear -El. revert values El. induction (default [] (scope s)) as [|c cs IH]; intros [|v vs]; try done; cbn [length zip_with].
    intros [= El]. rewrite Forall_cons, Forall2_cons, (IH vs El). apply and_iff_compat_r. apply scope_equality.
  - split; [by exists values|]. by intros (? & [= <-] & ?).
Qed.

(** C18. A request is compiled to a shape only where the registry declares its key, over the declared table, and the
    shape holds exactly the rows both of the static predicate and of the subject: in the private tier those of the
    filter fused with the caller's claims, in the shared tier those whose scope columns have the values asked for, one
    for each column. A caller the filter denies gets no shape. *)
Theorem compiled_rows_exact (registry : Registry) request tier created (H : compile registry request = Ok (Create tier created)) :
  exists entry s, resolveEntryByShapeKey registry (requestedKey request) = Some entry /\ shape entry = Some s /\
    shapeKey s = requestedKey request /\ resolveShapeTarget s = Some (table created) /\ emitted created = emittedColumns entry /\
    forall row, in_shape row (where_ created) <->
      in_shape row (static_where s) /\
      match tier with
      | shared => exists values, scopeValues request = Some values /\ in_scope (default [] (scope s)) values row
      | private => subject_rows s request row
      end.
Proof.
  apply compile_create in H as (entry & s & subject & He & Hs & Ht & _ & Hsub & Hw & _ & Hem). exists entry, s. do 2 (split; [done|]).
  split.
  { unfold resolveEntryByShapeKey in He. destruct (find _ _) as [[k e]|] eqn:Ef; [|done]. apply find_some in Ef as [_ Hf]. cbn in He, Hf. injection He as ->.
    rewrite Hs in Hf. by apply bool_decide_eq_true in Hf. }
  do 2 (split; [done|]). intros row. rewrite Hw, matches_conjoin, Forall_cons, Forall_singleton, (and_comm (in_shape row subject)). apply and_iff_compat_l.
  destruct tier.
  - by apply scope_rows.
  - unfold privatePredicate, subject_rows in *. destruct (filter ← rowFilter s; customPredicate filter) as [f|]; [|injection Hsub as <-; done].
    destruct (f _ _) as [[| |p]|]; try done; injection Hsub as <-; done.
Qed.

(** A local key that is narrower than the server's key never merges two rows of the shape: when a request is
    compiled, no conjunct of its predicate asks a dropped key column not to be null, and two rows of the shape agree on
    the local key, they agree on the server's key. *)
Theorem narrowed_key_unique (registry : Registry) request tier created entry localKey row row'
    (Hfunctional : eq_functional compare)
    (H : compile registry request = Ok (Create tier created))
    (Hentry : resolveEntryByShapeKey registry (requestedKey request) = Some entry)
    (Hkey : localPrimaryKey entry = Some localKey) (Hne : localKey <> [])
    (Hpresent : forall p column, where_ created = Some p -> column ∈ primaryKey entry -> column ∉ localKey -> column ∉ wantedPresent p)
    (Hrow : in_shape row (where_ created)) (Hrow' : in_shape row' (where_ created))
    (Hagree : forall column, column ∈ localKey -> row column = row' column) :
  forall column, column ∈ primaryKey entry -> row column = row' column.
Proof.
  intros column Hc. destruct (decide (column ∈ localKey)) as [Hin|Hout]; [by apply Hagree|].
  apply compile_create in H as (e & s & subject & He & _ & _ & _ & _ & _ & Hun & _). rewrite He in Hentry. injection Hentry as ->.
  unfold unpinned in Hun. rewrite Hkey in Hun. destruct localKey as [|l ls]; [done|].
  assert (column ∈ default [] (pinnedColumns <$> where_ created)) as Hpin.
  { destruct (decide (column ∈ default [] (pinnedColumns <$> where_ created))) as [|Hno]; [done|]. exfalso. eapply not_elem_of_nil. rewrite <- Hun.
    apply list_elem_of_filter. split; [exact Hno|]. by apply list_elem_of_filter. }
  destruct (where_ created) as [p|] eqn:Ew; [|cbn in Hpin; set_solver]. cbn in Hpin.
  by apply (pinned_agree compare member Hfunctional p); [|apply Hpresent| |].
Qed.

(** Two shapes of one shared family do not overlap: a row in the shapes compiled for two scopes shows the scopes
    are the same, where a cell equals one value only. *)
Theorem scopes_disjoint (registry : Registry) request request' created created' row
    (Hvalue : forall cell v v', compare eq cell v = Some true -> compare eq cell v' = Some true -> v = v')
    (H : compile registry request = Ok (Create shared created)) (H' : compile registry request' = Ok (Create shared created'))
    (Hkey : requestedKey request = requestedKey request')
    (Hrow : in_shape row (where_ created)) (Hrow' : in_shape row (where_ created')) :
  scopeValues request = scopeValues request'.
Proof.
  apply compile_create in H as (e & s & subject & He & Hs & _ & _ & Hin & Hw & _), H' as (e' & s' & subject' & He' & Hs' & _ & _ & Hin' & Hw' & _).
  rewrite Hkey, He' in He. injection He as ->. rewrite Hs in Hs'. injection Hs' as ->. rewrite Hw, matches_conjoin, Forall_cons in Hrow. rewrite Hw', matches_conjoin, Forall_cons in Hrow'.
  destruct Hrow as [(values & Hv & Hscope)%(scope_rows _ _ _ _ Hin) _], Hrow' as [(values' & Hv' & Hscope')%(scope_rows _ _ _ _ Hin') _]. rewrite Hv, Hv'. f_equal.
  clear -Hvalue Hscope Hscope'. unfold in_scope in *. revert values' Hscope'. induction Hscope as [|c v cs vs Hc _ IH]; intros values' Hscope'.
  - by apply Forall2_nil_inv_l in Hscope'.
  - apply Forall2_cons_inv_l in Hscope' as (v' & vs' & Hc' & Hvs & ->). f_equal; [|by apply IH]. clear IH Hvs.
    destruct v, v'; cbn in Hc, Hc'; try done; repeat match goal with H : exists _, _ |- _ => destruct H as (? & ? & ?) end; simplify_eq; try congruence; by eapply Hvalue.
Qed.
End Properties.

(** ** Fingerprints tell requests apart *)

(** How the language prints finite numbers: different texts of digits, signs, points and exponents. *)
Class LawfulNumberText {N : Type} (numberText : N -> jsstr) : Prop := {
  number_injective : forall n m, numberText n = numberText m -> n = m;
  number_starts : forall n, exists c rest, numberText n = c :: rest /\ (c = 45 \/ 48 <= c <= 57);
  number_units : forall n, Forall (fun c => 43 <= c <= 46 /\ c <> 44 \/ 48 <= c <= 57 \/ c = 101) (numberText n) }.

(** *** Strings are read back *)

Section StringLaws.
Import Fingerprint.

Definition unhexDigit (c : Z) : Z := if c <? 58 then c - 48 else c - 87.
Definition unescapeJson (c : Z) : Z := if c =? 98 then 8 else if c =? 102 then 12 else if c =? 110 then 10 else if c =? 114 then 13 else if c =? 116 then 9 else c.
Fixpoint readString (text : jsstr) : option (jsstr * jsstr) :=
  match text with
  | [] => None
  | c :: rest =>
      if c =? 34 then Some ([], rest)
      else if c =? 92 then
        match rest with
        | 117 :: a :: b :: d :: e :: rest =>
            (fun read => (unhexDigit a * 4096 + unhexDigit b * 256 + unhexDigit d * 16 + unhexDigit e :: read.1, read.2)) <$> readString rest
        | e :: rest => (fun read => (unescapeJson e :: read.1, read.2)) <$> readString rest
        | [] => None
        end
      else (fun read => (c :: read.1, read.2)) <$> readString rest
  end.

Lemma unhex d : 0 <= d < 16 -> unhexDigit (hexDigit d) = d.
Proof. unfold unhexDigit, hexDigit. intros H. destruct (d <? 10) eqn:E; [rewrite (proj2 (Z.ltb_lt _ _)) by lia|rewrite (proj2 (Z.ltb_ge _ _)) by lia]; lia. Qed.

Lemma hex4_value c : 0 <= c < 65536 -> unhexDigit (hexDigit (c / 4096)) * 4096 + unhexDigit (hexDigit (c / 256 mod 16)) * 256
  + unhexDigit (hexDigit (c / 16 mod 16)) * 16 + unhexDigit (hexDigit (c mod 16)) = c.
Proof. intros H. rewrite !unhex by (pose proof (Z.mod_pos_bound (c / 256) 16); pose proof (Z.mod_pos_bound (c / 16) 16); pose proof (Z.mod_pos_bound c 16); Z.to_euclidean_division_equations; lia).
  Z.to_euclidean_division_equations; lia. Qed.

Lemma read_unit c rest : 0 <= c < 65536 -> readString (jsonUnit c ++ rest) = (fun read => (c :: read.1, read.2)) <$> readString rest.
Proof.
  intros Hc. unfold jsonUnit.
  repeat (match goal with |- context [c =? ?n] => destruct (c =? n) eqn:?; [rewrite Z.eqb_eq in *; subst c; reflexivity|] end).
  destruct (_ || _) eqn:Es; cbn [app]; [|cbn [readString]; by rewrite Heqb, Heqb0].
  unfold hex4. cbn [app readString Z.eqb Pos.eqb]. by rewrite hex4_value.
Qed.

Lemma read_units s rest : js_string s -> readString (jsonUnits s ++ rest) = (fun read => (s ++ read.1, read.2)) <$> readString rest.
Proof.
  induction s as [s IH] using (induction_ltof1 _ (@length Z)). unfold ltof in IH. intros Hs.
  destruct s as [|c s]; [cbn; by destruct (readString rest) as [[]|]|]. apply Forall_cons in Hs as [Hc Hs]. unfold code_unit in Hc.
  assert (Hstep : readString (jsonUnit c ++ jsonUnits s ++ rest) = (fun read => ((c :: s) ++ read.1, read.2)) <$> readString rest).
  { rewrite read_unit, (IH s) by (done || lia || (cbn; lia)). by destruct (readString rest). }
  cbn [jsonUnits]. destruct s as [|d s]; [cbn [jsonUnits app] in Hstep; exact Hstep|].
  destruct (high_surrogate c && low_surrogate d) eqn:Ep; [|by rewrite <- app_assoc].
  apply Forall_cons in Hs as [_ Hs]. unfold high_surrogate, low_surrogate in Ep. apply andb_prop in Ep as [Ec Ed].
  assert (55296 <= c /\ 56320 <= d) as [Hc' Hd] by lia. cbn [app readString].
  rewrite (proj2 (Z.eqb_neq c 34)), (proj2 (Z.eqb_neq c 92)), (proj2 (Z.eqb_neq d 34)), (proj2 (Z.eqb_neq d 92)) by lia.
  rewrite (IH s) by (done || (cbn; lia)). by destruct (readString rest).
Qed.

Lemma string_prefix s t r r' : js_string s -> js_string t -> jsonString s ++ r = jsonString t ++ r' -> s = t /\ r = r'.
Proof.
  intros Hs Ht. unfold jsonString. rewrite <- !app_assoc. intros [= E]. apply (f_equal readString) in E. rewrite !read_units in E by done. cbn in E.
  rewrite !app_nil_r in E. by injection E.
Qed.
End StringLaws.

(** *** Texts without lone surrogates *)

Inductive scalars : jsstr -> Prop :=
| scalars_nil : scalars []
| scalars_one c rest : 0 <= c <= 0xffff -> c < 0xd800 \/ 0xdfff < c -> scalars rest -> scalars (c :: rest)
| scalars_pair h l rest : 0xd800 <= h <= 0xdbff -> 0xdc00 <= l <= 0xdfff -> scalars rest -> scalars (h :: l :: rest).

Lemma scalars_decode s : scalars s -> utf8_units (utf8_encode s) = Some s.
Proof.
  induction 1 as [|c rest Hc Hs _ IH|h l rest Hh Hl _ IH]; [done| |].
  - assert (c <= 0x7f \/ 0x80 <= c <= 0x7ff \/ 0x800 <= c) as [H|[H|H]] by lia.
    + rewrite encode_1, decode_1, IH by lia. done.
    + rewrite encode_2, decode_2, IH by lia. done.
    + rewrite encode_3, decode_3, IH by lia. done.
  - rewrite encode_4, decode_4, IH by lia. done.
Qed.
Lemma scalars_app a b : scalars a -> scalars b -> scalars (a ++ b).
Proof. intros Ha Hb. induction Ha; cbn; [done|by apply scalars_one|by apply scalars_pair]. Qed.
Lemma scalars_ascii s : Forall (fun c => 0 <= c <= 127) s -> scalars s.
Proof. induction 1; constructor; (lia || done). Qed.
Lemma scalars_checked s : forallb (fun c => (0 <=? c) && (c <=? 127)) s = true -> scalars s.
Proof.
  intros H. apply scalars_ascii. induction s as [|c s IH]; [constructor|]. cbn in H. apply andb_prop in H as [Hc Hs]. constructor; [lia|by apply IH].
Qed.
Lemma scalars_char c s : 0 <= c <= 127 -> scalars s -> scalars (c :: s).
Proof. intros Hc Hs. constructor; (lia || done). Qed.

Lemma hexDigit_ascii d : 0 <= d < 16 -> 0 <= Fingerprint.hexDigit d <= 127.
Proof. unfold Fingerprint.hexDigit. intros H. destruct (d <? 10); lia. Qed.

Lemma scalars_unit c : code_unit c -> scalars (Fingerprint.jsonUnit c).
Proof.
  unfold code_unit, Fingerprint.jsonUnit. intros Hc.
  repeat (match goal with |- context [c =? ?n] => destruct (c =? n) eqn:?; [apply scalars_ascii; repeat constructor; lia|] end).
  destruct (_ || _) eqn:E.
  - unfold Fingerprint.hex4. cbn [app]. do 2 (apply scalars_char; [lia|]).
    apply scalars_ascii. repeat constructor; apply hexDigit_ascii; (apply Z.mod_pos_bound; lia) || (Z.to_euclidean_division_equations; lia).
  - unfold high_surrogate, low_surrogate in E. constructor; [lia|lia|constructor].
Qed.

Lemma scalars_units s : js_string s -> scalars (Fingerprint.jsonUnits s).
Proof.
  induction s as [s IH] using (induction_ltof1 _ (@length Z)). unfold ltof in IH. intros Hs. destruct s as [|c s]; [constructor|].
  apply Forall_cons in Hs as [Hc Hs]. cbn [Fingerprint.jsonUnits]. destruct s as [|d s]; [by apply scalars_unit|].
  destruct (high_surrogate c && low_surrogate d) eqn:Ep.
  - apply Forall_cons in Hs as [_ Hs]. unfold high_surrogate, low_surrogate in Ep. apply scalars_pair; [lia|lia|]. apply IH; [cbn; lia|done].
  - apply scalars_app; [by apply scalars_unit|]. apply IH; [cbn; lia|done].
Qed.

Lemma scalars_string s : js_string s -> scalars (Fingerprint.jsonString s).
Proof.
  intros Hs. unfold Fingerprint.jsonString. apply scalars_char; [lia|]. apply scalars_app; [by apply scalars_units|]. apply scalars_char; [lia|constructor].
Qed.

Lemma hexByte_injective a b : 0 <= a < 256 -> 0 <= b < 256 -> Fingerprint.hexByte a = Fingerprint.hexByte b -> a = b.
Proof.
  unfold Fingerprint.hexByte. intros Ha Hb [= E E'].
  apply (f_equal unhexDigit) in E, E'. rewrite !unhex in E, E' by (Z.to_euclidean_division_equations; lia). Z.to_euclidean_division_equations; lia.
Qed.
Lemma hex_injective l l' : Forall (fun b => 0 <= b < 256) l -> Forall (fun b => 0 <= b < 256) l' ->
  concat (Fingerprint.hexByte <$> l) = concat (Fingerprint.hexByte <$> l') -> l = l'.
Proof.
  intros Hl. revert l'. induction Hl as [|b l Hb _ IH]; intros l' Hl' E; destruct Hl' as [|b' l' Hb' Hl']; try done.
  cbn [fmap list_fmap concat] in E. change (Fingerprint.hexByte b ++ ?r) with (Fingerprint.hexDigit (b / 16) :: Fingerprint.hexDigit (b mod 16) :: r) in E.
  change (Fingerprint.hexByte b' ++ ?r) with (Fingerprint.hexDigit (b' / 16) :: Fingerprint.hexDigit (b' mod 16) :: r) in E. injection E as E1 E2 E.
  f_equal; [|by apply IH]. apply hexByte_injective; [done..|]. unfold Fingerprint.hexByte. by rewrite E1, E2.
Qed.

(** *** Predicates are read back *)

Section PredicateText.
Import Predicate Shapes Fingerprint.
Context {N : Type} (numberText : N -> jsstr) `{Hnumbers : !LawfulNumberText numberText}.
Abbreviation print := (canonicalJson numberText).

(** An object's text: keys and values in the order of the keys. *)
Definition member (key : jsstr) (value rest : jsstr) : jsstr := jsonString key ++ 58 :: value ++ rest.

Fixpoint members (entries : list (jsstr * jsstr)) (rest : jsstr) : jsstr :=
  match entries with
  | [] => 125 :: rest
  | [(key, value)] => member key value (125 :: rest)
  | (key, value) :: entries => member key value (44 :: members entries rest)
  end.

Definition entriesOf (entries : list (jsstr * Json N)) : list (jsstr * jsstr) :=
  sortEntries (omap (fun entry => if isUndefined entry.2 then None else Some (entry.1, print entry.2)) entries).

Lemma print_object entries rest : print (JObject entries) ++ rest = 123 :: members (entriesOf entries) rest.
Proof.
  change (print (JObject entries)) with ([123] ++ commas ((fun entry => jsonString entry.1 ++ 58 :: entry.2) <$> entriesOf entries) ++ [125]).
  rewrite <- !app_assoc. cbn [app]. f_equal. induction (entriesOf entries) as [|[key value] l IH]; [done|]. destruct l as [|e l].
  - cbn [fmap list_fmap commas members fst snd]. unfold member. rewrite <- app_assoc. cbn [app]. done.
  - change (commas _) with ((jsonString key ++ 58 :: value) ++ 44 :: commas ((fun entry => jsonString entry.1 ++ 58 :: entry.2) <$> e :: l)).
    change (members _ _) with (member key value (44 :: members (e :: l) rest)). unfold member. rewrite <- IH, <- !app_assoc. done.
Qed.

(** The strings of a predicate, which are strings of the language. *)
Definition value_strings (value : PredicateValue N) : list jsstr := match value with VString s => [s] | _ => [] end.
Fixpoint strings (p : Predicate N) : list jsstr :=
  match p with
  | Leaf col _ value => col :: value_strings value
  | IsNull col _ => [col]
  | And nodes | Or nodes => concat (strings <$> nodes)
  | Not node => strings node
  | InSubquery col table project w _ => [col; table; project] ++ match w with Some p => strings p | None => [] end
  end.
Definition in_language (p : Predicate N) : Prop := Forall js_string (strings p).

(** A text that can be told from what follows it. *)
Definition reads_back (p : Predicate N) : Prop := forall q r r', in_language p -> in_language q ->
  print (predicateJson p) ++ r = print (predicateJson q) ++ r' -> p = q /\ r = r'.

Lemma opName_injective o o' : opName o = opName o' -> o = o'.
Proof. destruct o, o'; intros E; try done; by vm_compute in E. Qed.

Lemma js_checked s : forallb (fun c => (0 <=? c) && (c <=? 65535)) s = true -> js_string s.
Proof. induction s as [|c s IH]; [constructor|]. cbn. intros [Hc Hs]%andb_prop. constructor; [unfold code_unit; lia|by apply IH]. Qed.
Lemma js_literal o : js_string (opName o).
Proof. destruct o; by apply js_checked. Qed.

Lemma cut_at (c : Z) a b r r' : c ∉ a -> c ∉ b -> a ++ c :: r = b ++ c :: r' -> a = b /\ r = r'.
Proof.
  revert b. induction a as [|x a IH]; intros [|y b]; cbn; intros Ha Hb E; [by injection E|injection E as -> _; set_solver|injection E as -> _; set_solver|].
  injection E as -> E. destruct (IH b) as [-> ->]; set_solver.
Qed.

Lemma number_no_brace n : 125 ∉ numberText n.
Proof. intros H. pose proof (number_units n) as Hu. rewrite Forall_forall in Hu. apply Hu in H. lia. Qed.

Lemma value_prefix v w r r' : Forall js_string (value_strings v) -> Forall js_string (value_strings w) ->
  print (valueJson v) ++ 125 :: r = print (valueJson w) ++ 125 :: r' -> v = w /\ r = r'.
Proof.
  intros Hv Hw. destruct v as [s|n|b|], w as [s'|m|b'|]; cbn [valueJson canonicalJson value_strings] in *;
    try (destruct (number_starts n) as (c & t & E & Hc)); try (destruct (number_starts m) as (c' & t' & E' & Hc')).
  1: intros H; apply Forall_cons in Hv as [Hv _]; apply Forall_cons in Hw as [Hw _]; destruct (string_prefix _ _ _ _ Hv Hw H) as [-> Hr]; by injection Hr as ->.
  5: intros H; apply cut_at in H as [->%number_injective ->]; try apply number_no_brace; done.
  all: try rewrite E; try rewrite E'; try destruct b; try destruct b'.
  all: change (js "true") with [116; 114; 117; 101]; change (js "false") with [102; 97; 108; 115; 101]; change (js "null") with [110; 117; 108; 108].
  all: cbn; intros [=]; try lia; by subst.
Qed.

Lemma member_prefix k k' s s' : js_string k -> js_string k' -> jsonString k ++ 58 :: s = jsonString k' ++ 58 :: s' -> k = k' /\ s = s'.
Proof. intros Hk Hk' H. apply string_prefix in H as [-> [= ->]]; done. Qed.

(** The members of each kind of predicate, in the order of their keys. *)
Lemma text_leaf col op v r : print (predicateJson (Leaf col op v)) ++ r =
  123 :: members [(js "col", jsonString col); (js "op", jsonString (opName op)); (js "value", print (valueJson v))] r.
Proof. cbn [predicateJson]. rewrite print_object. f_equal. f_equal. unfold entriesOf. destruct v; reflexivity. Qed.
Lemma text_isNull col b r : print (predicateJson (IsNull col b)) ++ r =
  123 :: members [(js "col", jsonString col); (js "isNull", if b then js "true" else js "false")] r.
Proof. cbn [predicateJson]. rewrite print_object. reflexivity. Qed.
Definition list_text (nodes : list (Predicate N)) : jsstr := 91 :: commas ((fun p => print (predicateJson p)) <$> nodes) ++ [93].
Lemma print_list nodes : print (JArray (predicateJson <$> nodes)) = list_text nodes.
Proof. cbn [canonicalJson]. rewrite <- list_fmap_compose. reflexivity. Qed.
Lemma text_and nodes r : print (predicateJson (And nodes)) ++ r = 123 :: members [(js "and", list_text nodes)] r.
Proof. cbn [predicateJson]. rewrite print_object, <- print_list. reflexivity. Qed.
Lemma text_or nodes r : print (predicateJson (Or nodes)) ++ r = 123 :: members [(js "or", list_text nodes)] r.
Proof. cbn [predicateJson]. rewrite print_object, <- print_list. reflexivity. Qed.
Lemma defined (p : Predicate N) : isUndefined (predicateJson p) = false.
Proof. by destruct p. Qed.
Lemma text_not p r : print (predicateJson (Not p)) ++ r = 123 :: members [(js "not", print (predicateJson p))] r.
Proof. cbn [predicateJson]. rewrite print_object. unfold entriesOf. cbn [omap list_omap snd fst]. by rewrite defined. Qed.
Definition subquery_members (table project : jsstr) (w : option (Predicate N)) : list (jsstr * jsstr) :=
  [(js "project", jsonString project); (js "table", jsonString table)] ++ match w with Some p => [(js "where", print (predicateJson p))] | None => [] end.
Definition negated_members (negated : option bool) : list (jsstr * jsstr) :=
  match negated with Some b => [(js "negated", if b then js "true" else js "false")] | None => [] end.
Lemma text_in col table project w negated r : print (predicateJson (InSubquery col table project w negated)) ++ r =
  123 :: members ([(js "col", jsonString col); (js "in", 123 :: members (subquery_members table project w) [])] ++ negated_members negated) r.
Proof.
  cbn [predicateJson]. rewrite print_object. do 2 f_equal.
  match goal with |- context [(js "in", JObject ?l)] => set (entries := l) end.
  assert (print (JObject entries) = 123 :: members (subquery_members table project w) []) as E.
  { rewrite <- (app_nil_r (print _)), print_object. do 2 f_equal. unfold entries, entriesOf. cbn [omap list_omap snd fst].
    destruct w as [p|]; [rewrite defined|]; reflexivity. }
  unfold entriesOf. cbn [omap list_omap snd fst isUndefined]. rewrite E. destruct negated; reflexivity.
Qed.

(** *** Peeling two equal texts *)

Lemma members_app l rest : members l [] ++ rest = members l rest.
Proof.
  induction l as [|[k v] l IH]; [done|]. destruct l as [|e l].
  - cbn [members]. unfold member. rewrite <- !app_assoc. cbn [app]. by rewrite <- app_assoc.
  - change (members ((k, v) :: e :: l) ?r) with (member k v (44 :: members (e :: l) r)). unfold member. rewrite <- IH, <- !app_assoc. cbn [app].
    by rewrite <- !app_assoc.
Qed.

Lemma literal_member k k' s s' : forallb (fun c => (0 <=? c) && (c <=? 65535)) k = true -> forallb (fun c => (0 <=? c) && (c <=? 65535)) k' = true ->
  jsonString k ++ 58 :: s = jsonString k' ++ 58 :: s' -> bool_decide (k = k') = true /\ s = s'.
Proof. intros Hk%js_checked Hk'%js_checked H. destruct (member_prefix _ _ _ _ Hk Hk' H) as [-> ->]. split; [|done]. by apply bool_decide_eq_true. Qed.

Lemma bool_prefix (b b' : bool) r r' : (if b then js "true" else js "false") ++ 125 :: r = (if b' then js "true" else js "false") ++ 125 :: r' -> b = b' /\ r = r'.
Proof. destruct b, b'; intros H; vm_compute in H; try discriminate H; by injection H. Qed.

Lemma print_starts (p : Predicate N) r : exists t, print (predicateJson p) ++ r = 123 :: t.
Proof. destruct p; eexists; cbn [predicateJson]; apply print_object. Qed.

Lemma list_prefix (ps qs : list (Predicate N)) r r' : Forall reads_back ps -> Forall in_language ps -> Forall in_language qs ->
  list_text ps ++ r = list_text qs ++ r' -> ps = qs /\ r = r'.
Proof.
  intros Hp. unfold list_text. cbn [app]. rewrite <- !app_assoc. cbn [app]. intros Hlp Hlq [= E]. revert qs Hlp Hlq E.
  induction Hp as [|p ps Hp Hps IH]; intros [|q qs] Hlp Hlq E.
  - cbn in E. by injection E.
  - exfalso. destruct qs as [|q' qs]; cbn [fmap list_fmap commas app] in E; [|rewrite <- app_assoc in E];
      match type of E with _ = ?x ++ ?y => destruct (print_starts q y) as [t Et]; rewrite Et in E end; by injection E.
  - exfalso. destruct ps as [|q' qs]; cbn [fmap list_fmap commas app] in E; [|rewrite <- app_assoc in E];
      match type of E with ?x ++ ?y = _ => destruct (print_starts p y) as [t Et]; rewrite Et in E end; by injection E.
  - apply Forall_cons in Hlp as [Hlp Hlps], Hlq as [Hlq Hlqs].
    destruct ps as [|p' ps], qs as [|q' qs]; cbn [fmap list_fmap commas app] in E; rewrite <- ?app_assoc in E; apply Hp in E as [-> E]; try done.
    + by injection E as ->.
    + cbn [app] in E. injection E as E. destruct (IH (q' :: qs) Hlps Hlqs E) as [-> ->]. done.
Qed.

(** The members of a predicate's object. *)
Definition textMembers (p : Predicate N) : list (jsstr * jsstr) :=
  match p with
  | Leaf col op v => [(js "col", jsonString col); (js "op", jsonString (opName op)); (js "value", print (valueJson v))]
  | IsNull col b => [(js "col", jsonString col); (js "isNull", if b then js "true" else js "false")]
  | And nodes => [(js "and", list_text nodes)]
  | Or nodes => [(js "or", list_text nodes)]
  | Not p => [(js "not", print (predicateJson p))]
  | InSubquery col table project w negated =>
      (js "col", jsonString col) :: (js "in", 123 :: members (subquery_members table project w) []) :: negated_members negated
  end.

Lemma text_of p r : print (predicateJson p) ++ r = 123 :: members (textMembers p) r.
Proof. destruct p; [apply text_leaf|apply text_isNull|apply text_and|apply text_or|apply text_not|apply text_in]. Qed.

(** What follows the value of a member. *)
Definition tail (l : list (jsstr * jsstr)) (r : jsstr) : jsstr := match l with [] => 125 :: r | _ => 44 :: members l r end.

Lemma members_cons k v l k' v' l' r r' : js_string k -> js_string k' -> members ((k, v) :: l) r = members ((k', v') :: l') r' ->
  k = k' /\ v ++ tail l r = v' ++ tail l' r'.
Proof.
  intros Hk Hk'. assert (forall k v l r, members ((k, v) :: l) r = jsonString k ++ 58 :: v ++ tail l r) as -> by by intros ? ? [|??] ?.
  assert (forall k v l r, members ((k, v) :: l) r = jsonString k ++ 58 :: v ++ tail l r) as -> by by intros ? ? [|??] ?. by apply member_prefix.
Qed.

Lemma rest_eq {A} (x y : A) a b : x :: a = y :: b -> a = b.
Proof. by intros [= _ ->]. Qed.

#[local] Ltac strings_of := match goal with
  | H : Forall js_string (?s :: _) |- js_string ?s => by apply Forall_inv in H
  | H : Forall js_string (_ :: ?s :: _) |- js_string ?s => by apply Forall_inv_tail, Forall_inv in H
  | H : Forall js_string (_ :: _ :: ?s :: _) |- js_string ?s => by apply Forall_inv_tail, Forall_inv_tail, Forall_inv in H
  | |- js_string (opName _) => apply js_literal
  | |- js_string _ => by apply js_checked
  end.

(** Equal texts have the same next key; the rest of the texts follow it. *)
#[local] Ltac next E := let K := fresh in apply members_cons in E as [K E]; [|strings_of..]; try (exfalso; vm_compute in K; discriminate K); clear K.
#[local] Tactic Notation "spelt" hyp(E) "as" simple_intropattern(K) := apply string_prefix in E as [K E]; [|strings_of..].

Lemma in_language_all nodes : Forall js_string (concat (strings <$> nodes)) -> Forall in_language nodes.
Proof. induction nodes as [|p nodes IH]; [constructor|]. cbn [fmap list_fmap concat]. intros [Hp Hn]%Forall_app. constructor; [done|by apply IH]. Qed.

(** The subquery's object and what follows it. *)
Lemma in_prefix c t pr w n t' pr' w' n' r r' : match w with Some p => reads_back p | None => True end ->
  Forall js_string ([c; t; pr] ++ match w with Some p => strings p | None => [] end) ->
  Forall js_string ([c; t'; pr'] ++ match w' with Some p => strings p | None => [] end) ->
  (123 :: members (subquery_members t pr w) []) ++ tail (negated_members n) r =
    (123 :: members (subquery_members t' pr' w') []) ++ tail (negated_members n') r' ->
  InSubquery c t pr w n = InSubquery c t' pr' w' n' /\ r = r'.
Proof.
  intros IH Hp Hq. cbn [app]. rewrite !members_app. intros E. apply rest_eq in E. unfold subquery_members in E. cbn [app] in E, Hp, Hq.
  next E. spelt E as ->. apply rest_eq in E. next E. spelt E as ->.
  assert (Hend : w = w' /\ tail (negated_members n) r = tail (negated_members n') r').
  { destruct w as [p|], w' as [p'|]; cbn [tail] in E.
    - apply rest_eq in E. next E. apply IH in E as [-> E]; [|by do 3 apply Forall_inv_tail in Hp|by do 3 apply Forall_inv_tail in Hq].
      by apply rest_eq in E.
    - discriminate E.
    - discriminate E.
    - by apply rest_eq in E. }
  destruct Hend as [-> Hn]. destruct n as [b|], n' as [b'|]; cbn [negated_members tail] in Hn.
  - apply rest_eq in Hn. next Hn. by apply bool_prefix in Hn as [-> ->].
  - discriminate Hn.
  - discriminate Hn.
  - by injection Hn as ->.
Qed.

Lemma reads_back_all p : reads_back p.
Proof.
  induction p as [c op v|c b|nodes IH|nodes IH|p IH|c t pr w n IH] using Predicate_all_ind; intros q r r' Hp Hq E;
    rewrite !text_of in E; apply rest_eq in E; unfold in_language in Hp, Hq;
    destruct q as [c' op' v'|c' b'|nodes'|nodes'|q'|c' t' pr' w' n']; cbn [strings app textMembers] in Hp, Hq, E; next E; cbn [tail] in E.
  1-6, 10-12: spelt E as ->; apply rest_eq in E; next E; cbn [tail] in E.
  - spelt E as H. apply opName_injective in H as ->. apply rest_eq in E. next E. apply Forall_inv_tail in Hp, Hq. by apply value_prefix in E as [-> ->].
  - by apply bool_prefix in E as [-> ->].
  - exact (in_prefix c' t pr w n t' pr' w' n' r r' IH Hp Hq E).
  - apply list_prefix in E as [-> [= ->]]; [done|done|by apply in_language_all..].
  - apply list_prefix in E as [-> [= ->]]; [done|done|by apply in_language_all..].
  - apply IH in E as [-> E]; [|done..]. by injection E as ->.
Qed.

(** *** Requests are read back *)

Abbreviation canonical request := (canonicalJson numberText (requestJson request)).

Definition request_strings (request : CreateShapeRequest N) : list jsstr :=
  table request :: default [] (emitted request) ++ default [] (strings <$> where_ request).

Definition columns_text (columns : list jsstr) : jsstr := 91 :: commas (jsonString <$> columns) ++ [93].

Lemma request_text request rest : canonical request ++ rest =
  123 :: members ((match emitted request with Some columns => [(js "columns", columns_text columns)] | None => [] end)
    ++ [(js "table", jsonString (table request))]
    ++ match where_ request with Some p => [(js "where", canonicalJson numberText (predicateJson p))] | None => [] end) rest.
Proof.
  unfold requestJson. rewrite print_object. f_equal. f_equal. unfold entriesOf. cbn [omap list_omap snd fst isUndefined].
  assert (Hcolumns : forall columns, canonicalJson numberText (JArray (JString <$> columns)) = columns_text columns).
  { intros columns. cbn [canonicalJson]. rewrite <- list_fmap_compose. reflexivity. }
  destruct (emitted request) as [columns|], (where_ request) as [p|]; cbn [optional isUndefined]; rewrite ?defined, ?Hcolumns; reflexivity.
Qed.

Lemma columns_prefix cs ds r r' : Forall js_string cs -> Forall js_string ds -> columns_text cs ++ r = columns_text ds ++ r' -> cs = ds /\ r = r'.
Proof.
  unfold columns_text. cbn [app]. rewrite <- !app_assoc. cbn [app]. intros Hc Hd [= E]. revert ds Hc Hd E.
  induction cs as [|c cs IH]; intros [|d ds] Hc Hd E.
  - cbn in E. by injection E.
  - exfalso. destruct ds; cbn in E; discriminate E.
  - exfalso. destruct cs; cbn in E; discriminate E.
  - apply Forall_cons in Hc as [Hc Hcs], Hd as [Hd Hds].
    destruct cs as [|c' cs], ds as [|d' ds]; cbn [fmap list_fmap commas] in E; rewrite <- ?app_assoc in E; apply string_prefix in E as [-> E]; try done.
    + by injection E as ->.
    + cbn [app] in E. apply rest_eq in E. destruct (IH (d' :: ds) Hcs Hds E) as [-> ->]. done.
Qed.

(** The table and the predicate, at the end of a request's text. *)
Lemma target_prefix (ta tb : jsstr) (wa wb : option (Predicate N)) : js_string ta -> js_string tb ->
  Forall js_string (default [] (strings <$> wa)) -> Forall js_string (default [] (strings <$> wb)) ->
  let rest w := match w with Some p => [(js "where", canonicalJson numberText (predicateJson p))] | None => [] end in
  members ((js "table", jsonString ta) :: rest wa) [] = members ((js "table", jsonString tb) :: rest wb) [] -> ta = tb /\ wa = wb.
Proof.
  intros Hta Htb Ha Hb rest E. next E. apply string_prefix in E as [-> E]; [|done..]. split; [done|]. unfold rest in E.
  destruct wa as [p|], wb as [q|]; cbn [tail] in E; try discriminate E; [|done].
  apply rest_eq in E. next E. by apply reads_back_all in E as [-> _].
Qed.

Lemma canonical_injective a b : Forall js_string (request_strings a) -> Forall js_string (request_strings b) -> canonical a = canonical b -> a = b.
Proof.
  intros Ha Hb E. apply (f_equal (fun t => t ++ [])) in E. rewrite !request_text in E. apply rest_eq in E.
  destruct a as [ta wa ca], b as [tb wb cb]. unfold request_strings in Ha, Hb. cbn [table emitted where_] in *.
  apply Forall_cons in Ha as [Hta [Hca Hwa]%Forall_app], Hb as [Htb [Hcb Hwb]%Forall_app].
  destruct ca as [ca|], cb as [cb|]; cbn [app] in E; [next E|next E|next E|].
  - apply columns_prefix in E as [-> E]; [|done..]. cbn [tail] in E. apply rest_eq in E. by apply target_prefix in E as [-> ->].
  - by apply target_prefix in E as [-> ->].
Qed.

(** *** Canonical texts have no lone surrogates, so their encodings are different too *)

Lemma scalars_number n : scalars (numberText n).
Proof. apply scalars_ascii. eapply Forall_impl; [apply number_units|]. cbn. lia. Qed.

Definition entry_ok (entry : jsstr * jsstr) : Prop := js_string entry.1 /\ scalars entry.2.
Lemma entry_nil : Forall entry_ok [].
Proof. constructor. Qed.
Lemma entry_cons k v l : js_string k -> scalars v -> Forall entry_ok l -> Forall entry_ok ((k, v) :: l).
Proof. intros Hk Hv Hl. by constructor. Qed.

Lemma scalars_members l rest : Forall entry_ok l -> scalars rest -> scalars (members l rest).
Proof.
  intros Hl Hr. induction Hl as [|[k v] l [Hk Hv] Hl IH]; [by apply scalars_char; [lia|]|]. cbn in Hk, Hv.
  assert (members ((k, v) :: l) rest = jsonString k ++ 58 :: v ++ tail l rest) as -> by by destruct l.
  apply scalars_app; [by apply scalars_string|]. apply scalars_char; [lia|]. apply scalars_app; [done|]. destruct l; by apply scalars_char; [lia|].
Qed.

Lemma scalars_commas l : Forall scalars l -> scalars (commas l).
Proof.
  induction 1 as [|s l Hs Hl IH]; [constructor|]. destruct l as [|s' l]; [done|]. change (commas (s :: s' :: l)) with (s ++ 44 :: commas (s' :: l)).
  apply scalars_app; [done|]. by apply scalars_char; [lia|].
Qed.

Lemma scalars_list l : Forall scalars l -> scalars (91 :: commas l ++ [93]).
Proof. intros H. apply scalars_char; [lia|]. apply scalars_app; [by apply scalars_commas|]. apply scalars_char; [lia|]. constructor. Qed.

#[local] Ltac entries := repeat (apply entry_cons); try apply entry_nil.
#[local] Ltac literal_key := by apply js_checked.
#[local] Ltac literal_text := by apply scalars_checked.

Lemma scalars_value v : Forall js_string (value_strings v) -> scalars (print (valueJson v)).
Proof. destruct v as [s|n|[]|]; cbn [valueJson canonicalJson value_strings]; intros H; [by apply scalars_string, (Forall_inv H)|apply scalars_number|literal_text..]. Qed.

Lemma scalars_print p : in_language p -> scalars (print (predicateJson p)).
Proof.
  induction p as [c op v|c b|nodes IH|nodes IH|p IH|c t pr w n IH] using Predicate_all_ind; unfold in_language; cbn [strings app]; intros Hp;
    rewrite <- (app_nil_r (print _)), text_of; (apply scalars_char; [lia|]); apply scalars_members; try (by constructor); cbn [textMembers].
  - entries; [literal_key|apply scalars_string; strings_of|literal_key|apply scalars_string; strings_of|literal_key|by apply scalars_value, (Forall_inv_tail Hp)].
  - entries; [literal_key|apply scalars_string; strings_of|literal_key|destruct b; literal_text].
  - entries; [literal_key|]. apply scalars_list, Forall_fmap. apply in_language_all in Hp. rewrite Forall_forall in IH, Hp |- *. intros p Hin. by apply IH, Hp.
  - entries; [literal_key|]. apply scalars_list, Forall_fmap. apply in_language_all in Hp. rewrite Forall_forall in IH, Hp |- *. intros p Hin. by apply IH, Hp.
  - entries; [literal_key|by apply IH].
  - apply entry_cons; [literal_key|apply scalars_string; strings_of|]. apply entry_cons; [literal_key| |].
    + apply scalars_char; [lia|]. apply scalars_members; [|constructor]. unfold subquery_members. cbn [app].
      do 2 (apply entry_cons; [literal_key|apply scalars_string; strings_of|]).
      destruct w as [q|]; [|apply entry_nil]. entries; [literal_key|]. apply IH. by do 3 apply Forall_inv_tail in Hp.
    + destruct n as [b|]; [|apply entry_nil]. entries; [literal_key|destruct b; literal_text].
Qed.

Lemma scalars_canonical request : Forall js_string (request_strings request) -> scalars (canonical request).
Proof.
  intros H. rewrite <- (app_nil_r (canonicalJson _ _)), request_text. apply scalars_char; [lia|]. apply scalars_members; [|constructor].
  unfold request_strings in H. apply Forall_cons in H as [Ht [Hc Hw]%Forall_app]. rewrite !Forall_app. split; [|split].
  - destruct (emitted request) as [columns|]; [|constructor]. entries; [literal_key|]. apply scalars_list, Forall_fmap.
    eapply Forall_impl; [exact Hc|]. intros s Hs. by apply scalars_string.
  - entries; [literal_key|by apply scalars_string].
  - destruct (where_ request) as [p|]; [|constructor]. entries; [literal_key|by apply scalars_print].
Qed.
End PredicateText.

(** *** The order of members does not matter *)

Section Order.
Import Fingerprint.
Lemma ltString_trans a b c : ltString a b = true -> ltString b c = true -> ltString a c = true.
Proof.
  revert b c. induction a as [|x a IH]; intros [|y b] [|z c]; cbn; try done.
  destruct (Z.eqb_spec x y), (Z.eqb_spec y z), (Z.eqb_spec x z); subst; try lia; eauto.
Qed.
Lemma ltString_total a b : a <> b -> ltString a b = negb (ltString b a).
Proof.
  revert b. induction a as [|x a IH]; intros [|y b]; cbn; try done. intros H.
  destruct (Z.eqb_spec x y), (Z.eqb_spec y x); subst; try lia. apply IH. congruence.
Qed.

Lemma insert_commutes e e' l : e.1 <> e'.1 -> insertEntry e (insertEntry e' l) = insertEntry e' (insertEntry e l).
Proof.
  intros Hne. induction l as [|x l IH]; cbn [insertEntry].
  - rewrite (ltString_total e'.1 e.1) by done. by destruct (ltString e.1 e'.1).
  - destruct (ltString e'.1 x.1) eqn:E', (ltString e.1 x.1) eqn:E; cbn [insertEntry]; rewrite ?E, ?E'.
    + rewrite (ltString_total e'.1 e.1) by done. by destruct (ltString e.1 e'.1).
    + destruct (ltString e.1 e'.1) eqn:Ee; [|done]. by rewrite (ltString_trans _ _ _ Ee E') in E.
    + destruct (ltString e'.1 e.1) eqn:Ee; [|done]. by rewrite (ltString_trans _ _ _ Ee E) in E'.
    + by rewrite IH.
Qed.

Lemma sort_permutation l l' : l ≡ₚ l' -> NoDup l.*1 -> sortEntries l = sortEntries l'.
Proof.
  induction 1 as [|e l l' _ IH|e e' l|l l2 l3 H IH _ IH']; cbn; intros Hnd; [done| | |].
  - apply NoDup_cons in Hnd as [_ Hnd]. unfold sortEntries in *. by rewrite IH.
  - apply insert_commutes. apply NoDup_cons in Hnd as [Hin _]. set_solver.
  - rewrite IH by done. apply IH'. by rewrite <- H.
Qed.

Lemma canonical_permutation {N} (numberText : N -> jsstr) entries entries' : entries ≡ₚ entries' -> NoDup entries.*1 ->
  canonicalJson numberText (JObject entries) = canonicalJson numberText (JObject entries').
Proof.
  intros Hp Hnd. cbn [canonicalJson]. set (f := fun entry : jsstr * Json N => if isUndefined entry.2 then None else Some (entry.1, canonicalJson numberText entry.2)).
  rewrite (sort_permutation (omap f entries) (omap f entries')); [done|by rewrite Hp|].
  apply (sublist_NoDup _ (entries.*1)); [done|]. clear. induction entries as [|[k v] l IH]; [done|]. unfold f in *. cbn [omap list_omap snd fst].
  destruct (isUndefined v); cbn; by constructor.
Qed.
End Order.

(** C25. The fingerprint of a compiled request identifies it. Two requests have one fingerprint exactly when they are
    the same request, or their encodings are two texts on which the digest collides; and the order in which an
    object's members were written does not reach the text. *)
Theorem fingerprint_exact {N : Type} (numberText : N -> jsstr) (sha256 : list Z -> list Z) (a b : Shapes.CreateShapeRequest N)
    (Hnumbers : LawfulNumberText numberText) (Hbytes : forall text, Forall (fun byte => 0 <= byte < 256) (sha256 text))
    (Ha : Forall js_string (request_strings a)) (Hb : Forall js_string (request_strings b)) :
  let encoded request := utf8_encode (Fingerprint.canonicalJson numberText (Fingerprint.requestJson request)) in
  (Fingerprint.fingerprintShapeRequest numberText sha256 a = Fingerprint.fingerprintShapeRequest numberText sha256 b <->
    a = b \/ (encoded a <> encoded b /\ sha256 (encoded a) = sha256 (encoded b))) /\
  (forall entries entries', entries ≡ₚ entries' -> NoDup entries.*1 ->
    Fingerprint.canonicalJson numberText (Fingerprint.JObject entries) = Fingerprint.canonicalJson numberText (Fingerprint.JObject entries')).
Proof.
  intros encoded. split; [|apply canonical_permutation]. unfold Fingerprint.fingerprintShapeRequest. fold (encoded a) (encoded b). split.
  - intros E. apply hex_injective in E; [|apply Hbytes..]. destruct (decide (encoded a = encoded b)) as [Ee|Ne]; [left|by right].
    apply (canonical_injective numberText); [done..|]. apply (f_equal utf8_units) in Ee. unfold encoded in Ee.
    rewrite (scalars_decode _ (scalars_canonical numberText a Ha)), (scalars_decode _ (scalars_canonical numberText b Hb)) in Ee. by apply (inj Some) in Ee.
  - intros [->|[_ E]]; [done|by rewrite E].
Qed.

(** *** A column that must be present counts as pinned *)

Section NotNull.
Import Predicate Shapes.
Context {N Claims Params Cell V : Type} (emptyClaims : Claims).
Context (compare : PredicateLeafOp -> Cell -> PredicateValue N -> option bool).
Context (member : Cell -> jsstr -> jsstr -> option (Predicate N) -> option bool).

(** A table with the key [(dropped, kept)], of which the client keeps one column, and a shape of its rows whose
    [dropped] column is not null. *)
Definition present_shape (kept dropped : jsstr) : ShapeSpec N Claims Params :=
  mkShape (js "cards") (js "cards") None None None (Some (isNotNull dropped)).
Definition present_entry (kept dropped : jsstr) : SyncTableEntry N Claims Params V :=
  mkEntry (Some (present_shape kept dropped)) [dropped; kept] None [dropped; kept] (Some [kept]) None.

(** A conjunct that asks a key column not to be null is taken to pin it. The table whose local key drops such a
    column compiles for every caller, and for any two cells of the dropped column the shape holds two rows that differ
    in them and agree on the local key. *)
Theorem not_null_counts_as_pinned (kept dropped : jsstr) (c : option Claims) (values : option (list (PredicateValue N))) (p : option Params)
    (cell cell' key : Cell) (Hne : kept <> dropped) (Hcells : cell <> cell') :
  let request := mkShapeRequest (js "cards") c values p in
  let entry := present_entry kept dropped in
  let created := mkRequest (js "cards") (Some (isNotNull dropped)) None in
  compileShapeRequest emptyClaims [(js "cards", entry)] request = Ok (Create private created) /\
  exists row row', matches compare member row (where_ created) /\ matches compare member row' (where_ created) /\
    (forall column, column ∈ default [] (localPrimaryKey entry) -> row column = row' column) /\
    ~ (forall column, column ∈ primaryKey entry -> row column = row' column).
Proof.
  intros request entry created. split.
  - unfold compileShapeRequest. assert (unpinned entry (Some (isNotNull dropped)) = []) as Hu.
    { unfold unpinned, entry. cbn [localPrimaryKey present_entry primaryKey]. rewrite (filter_cons_True _ dropped), (filter_cons_False _ kept) by set_solver.
      rewrite filter_cons_False; [done|]. cbn. set_solver. }
    change (resolveEntryByShapeKey _ _) with (Some entry). cbn -[unpinned]. change (unpinned _ _) with (unpinned entry (Some (isNotNull dropped))). by rewrite Hu.
  - set (row := fun x (column : jsstr) => if decide (column = kept) then Some key else Some x). exists (row cell), (row cell').
    assert (forall x, matches compare member (row x) (Some (isNotNull dropped))) as Hm.
    { intros x. cbn. rewrite bool_decide_false; [done|]. unfold row. by case_decide. }
    split; [apply Hm|]. split; [apply Hm|]. split.
    + intros column Hc. cbn in Hc. apply list_elem_of_singleton in Hc as ->. unfold row. by rewrite !decide_True.
    + intros H. specialize (H dropped ltac:(cbn; set_solver)). unfold row in H. rewrite !decide_False in H by done. congruence.
Qed.
End NotNull.

(** ** Witnesses

    Cards with the key [(owner, card)], of which the client keeps [card]; a private shape of the caller's own cards and
    a shared one of a deck. *)

Definition tally (n : Z) : jsstr := (if n <? 0 then 45 else 48) :: replicate (Z.to_nat (Z.abs n)) 49.

#[local] Instance tally_lawful : LawfulNumberText tally.
Proof.
  split.
  - intros n m [= E1 E2]. apply (f_equal (@length Z)) in E2. rewrite !length_replicate in E2. destruct (Z.ltb_spec n 0), (Z.ltb_spec m 0); lia.
  - intros n. eexists _, _. split; [done|]. destruct (n <? 0); lia.
  - intros n. constructor; [destruct (n <? 0); lia|]. apply Forall_replicate. lia.
Qed.

Definition card_compare (op : Predicate.PredicateLeafOp) (cell : jsstr) (value : Predicate.PredicateValue Z) : option bool :=
  match op, value with Predicate.eq, Predicate.VString s => Some (bool_decide (cell = s)) | _, _ => None end.
Definition card_member (cell table project : jsstr) (w : option (Predicate.Predicate Z)) : option bool := None.
Definition own_cards : Shapes.RowFilterSpec Z jsstr unit :=
  Shapes.mkRowFilter (Some (fun sub _ =>
    Ok (if bool_decide (sub = []) then Shapes.DENY_ALL_PREDICATE else Shapes.Filtered (Predicate.Leaf (js "owner") Predicate.eq (Predicate.VString sub))))) None.
Definition cards : list (jsstr * Shapes.SyncTableEntry Z jsstr unit Z) :=
  [(js "own", Shapes.mkEntry (Some (Shapes.mkShape (js "cards") (js "own") None (Some own_cards) None None))
      [js "owner"; js "card"; js "text"] None [js "owner"; js "card"] (Some [js "card"]) None);
   (js "deck", Shapes.mkEntry (Some (Shapes.mkShape (js "public.cards") (js "deck") None None (Some [js "deck"]) (Some (Predicate.isNotNull (js "text")))))
      [js "owner"; js "card"; js "text"] None [js "owner"; js "card"] None None)].
Definition own_request : Shapes.ShapeRequest Z jsstr unit := Shapes.mkShapeRequest (js "own") (Some (js "ann")) None None.
Definition own_created : Shapes.CreateShapeRequest Z := Shapes.mkRequest (js "cards") (Some (Predicate.Leaf (js "owner") Predicate.eq (Predicate.VString (js "ann")))) None.
Definition deck_request (sub : jsstr) : Shapes.ShapeRequest Z jsstr unit := Shapes.mkShapeRequest (js "deck") (Some sub) (Some [Predicate.VString (js "d1")]) None.
Definition deck_created : Shapes.CreateShapeRequest Z :=
  Shapes.mkRequest (js "cards") (Some (Predicate.And [Predicate.Leaf (js "deck") Predicate.eq (Predicate.VString (js "d1")); Predicate.IsNull (js "text") false])) None.
Definition card_row (text column : jsstr) : option jsstr :=
  if bool_decide (column = js "owner") then Some (js "ann") else if bool_decide (column = js "card") then Some (js "c7")
  else if bool_decide (column = js "deck") then Some (js "d1") else Some text.

Lemma compiled_rows_exact_witness :
  Shapes.compileShapeRequest [] cards own_request = Ok (Shapes.Create Shapes.private own_created) /\
  exists entry s, Shapes.resolveEntryByShapeKey cards (js "own") = Some entry /\ Shapes.shape entry = Some s /\
    Shapes.shapeKey s = js "own" /\ Shapes.resolveShapeTarget s = Some (js "cards") /\ None = Shapes.emittedColumns entry /\
    forall row, matches card_compare card_member row (Shapes.where_ own_created) <->
      matches card_compare card_member row (Shapes.static_where s) /\ subject_rows [] card_compare card_member s own_request row.
Proof.
  assert (H : Shapes.compileShapeRequest [] cards own_request = Ok (Shapes.Create Shapes.private own_created)) by (vm_compute; reflexivity).
  exact (conj H (compiled_rows_exact [] card_compare card_member cards own_request Shapes.private own_created H)).
Defined.

Lemma card_functional : eq_functional card_compare.
Proof. intros c c' [s|n|b|]; try done. cbn. repeat case_bool_decide; congruence. Qed.

Lemma narrowed_key_unique_witness :
  (card_row (js "a") (js "text") <> card_row (js "b") (js "text")) /\
  (forall column, column ∈ [js "owner"; js "card"] -> card_row (js "a") column = card_row (js "b") column).
Proof.
  split; [vm_compute; discriminate|].
  refine (narrowed_key_unique [] card_compare card_member cards own_request Shapes.private own_created _ [js "card"]
    (card_row (js "a")) (card_row (js "b")) card_functional _ eq_refl eq_refl _ _ _ _ _).
  - vm_compute. reflexivity.
  - discriminate.
  - intros p column [= <-] _ _ H. by apply not_elem_of_nil in H.
  - vm_compute. reflexivity.
  - vm_compute. reflexivity.
  - intros column H. apply list_elem_of_singleton in H as ->. vm_compute. reflexivity.
Defined.

Lemma scopes_disjoint_witness : Shapes.scopeValues (deck_request (js "ann")) = Shapes.scopeValues (deck_request (js "bob")).
Proof.
  refine (scopes_disjoint [] card_compare card_member cards (deck_request (js "ann")) (deck_request (js "bob")) deck_created deck_created
    (card_row (js "a")) _ _ _ eq_refl _ _).
  - intros cell [s|n|b|] [s'|n'|b'|]; try done. cbn. repeat case_bool_decide; congruence.
  - vm_compute. reflexivity.
  - vm_compute. reflexivity.
  - vm_compute. reflexivity.
  - vm_compute. reflexivity.
Defined.

Lemma strings_checked (l : list jsstr) : forallb (forallb (fun c => (0 <=? c) && (c <=? 65535))) l = true -> Forall js_string l.
Proof. induction l as [|s l IH]; [constructor|]. cbn. intros [Hs Hl]%andb_prop. constructor; [by apply js_checked|by apply IH]. Qed.

Lemma fingerprint_exact_witness :
  let digest text := (fun byte => byte mod 256) <$> text in
  let encoded request := utf8_encode (Fingerprint.canonicalJson tally (Fingerprint.requestJson request)) in
  (Fingerprint.fingerprintShapeRequest tally digest own_created = Fingerprint.fingerprintShapeRequest tally digest deck_created <->
    own_created = deck_created \/ (encoded own_created <> encoded deck_created /\ digest (encoded own_created) = digest (encoded deck_created))) /\
  Fingerprint.fingerprintShapeRequest tally digest own_created <> Fingerprint.fingerprintShapeRequest tally digest deck_created.
Proof.
  intros digest encoded. split; [|vm_compute; discriminate].
  refine (proj1 (fingerprint_exact tally digest own_created deck_created tally_lawful _ _ _)).
  - intros text. apply Forall_fmap, Forall_true. intros byte. cbn. apply Z.mod_pos_bound. lia.
  - apply strings_checked. vm_compute. reflexivity.
  - apply strings_checked. vm_compute. reflexivity.
Defined.

Lemma not_null_counts_as_pinned_witness :
  exists row row', matches card_compare card_member row (Some (Predicate.isNotNull (js "owner"))) /\
    matches card_compare card_member row' (Some (Predicate.isNotNull (js "owner"))) /\
    (forall column, column ∈ [js "card"] -> row column = row' column) /\ ~ (forall column, column ∈ [js "owner"; js "card"] -> row column = row' column).
Proof.
  refine (proj2 (not_null_counts_as_pinned (N := Z) (Claims := jsstr) (Params := unit) (V := Z) [] card_compare card_member (js "card") (js "owner") None None None
    (js "ann") (js "bob") (js "c7") _ _)).
  - vm_compute. discriminate.
  - vm_compute. discriminate.
Defined.
