(* ===== verification/ShapeControl.v ===== *)
(** * Server: stream tokens, subscriptions and the stream edge

    server/src/circuits/stream-token.ts, subscribe.ts and edge.ts: the signed token that carries a session's grants; the
    control plane that takes, renews and releases the engine's claims for them; and the gate in front of the streams. *)

From S2P Require Export ShapeCompile.
From S2P Require Import WireBuffers WireLaws.

#[local] Open Scope Z_scope.

(** ** Base64, as the platform's [btoa] and [atob] *)

Module Base64.

Definition alphabet (d : Z) : Z :=
  if d <? 26 then 65 + d else if d <? 52 then 71 + d else if d <? 62 then d - 4 else if d =? 62 then 43 else 47.
Definition digitOf (c : Z) : option Z :=
  if (65 <=? c) && (c <=? 90) then Some (c - 65) else if (97 <=? c) && (c <=? 122) then Some (c - 71)
  else if (48 <=? c) && (c <=? 57) then Some (c + 4) else if c =? 43 then Some 62 else if c =? 47 then Some 63 else None.

Fixpoint btoa (bytes : list Z) : jsstr :=
  match bytes with
  | a :: b :: c :: rest =>
      [alphabet (a / 4); alphabet (a mod 4 * 16 + b / 16); alphabet (b mod 16 * 4 + c / 64); alphabet (c mod 64)] ++ btoa rest
  | [a; b] => [alphabet (a / 4); alphabet (a mod 4 * 16 + b / 16); alphabet (b mod 16 * 4); 61]
  | [a] => [alphabet (a / 4); alphabet (a mod 4 * 16); 61; 61]
  | [] => []
  end.

(** The digits after white space and padding are gone; bits left over are dropped. *)
Fixpoint decodeDigits (digits : jsstr) : option (list Z) :=
  match digits with
  | p :: q :: r :: s :: rest =>
      a ← digitOf p; b ← digitOf q; c ← digitOf r; d ← digitOf s; bytes ← decodeDigits rest;
      Some ([a * 4 + b / 16; b mod 16 * 16 + c / 4; c mod 4 * 64 + d] ++ bytes)
  | [p; q; r] => a ← digitOf p; b ← digitOf q; c ← digitOf r; Some [a * 4 + b / 16; b mod 16 * 16 + c / 4]
  | [p; q] => a ← digitOf p; b ← digitOf q; Some [a * 4 + b / 16]
  | [_] => None
  | [] => Some []
  end.

Definition isSpace (c : Z) : bool := bool_decide (c ∈ [9; 10; 12; 13; 32]).
Definition dropPadding (s : jsstr) : jsstr :=
  match rev s with 61 :: 61 :: rest => rev rest | 61 :: rest => rev rest | _ => s end.
Definition atob (s : jsstr) : option (list Z) :=
  let s := List.filter (fun c => negb (isSpace c)) s in
  decodeDigits (if (length s mod 4 =? 0)%nat then dropPadding s else s).

Definition replaceAll (c : Z) (by_ : jsstr) (s : jsstr) : jsstr := concat ((fun d => if d =? c then by_ else [d]) <$> s).

Definition base64UrlEncode (bytes : list Z) : jsstr := replaceAll 61 [] (replaceAll 47 [95] (replaceAll 43 [45] (btoa bytes))).

Definition padEnd (s : jsstr) (n : nat) (c : Z) : jsstr := s ++ replicate (n - length s) c.
Definition base64UrlDecode (value : jsstr) : option (list Z) :=
  atob (padEnd (replaceAll 95 [47] (replaceAll 45 [43] value)) ((length value + 3) / 4 * 4) 61).
End Base64.

(** ** Stream tokens *)

Module StreamToken.
Import Predicate Base64.
Section StreamToken.
Context {N Key : Type}.

Record StreamGrant : Type := mkGrant {
  path : jsstr; grantKey : jsstr; shapeId : jsstr; claim : jsstr; grantScope : option (list (PredicateValue N)); fp : option jsstr }.
Record StreamTokenClaims : Type := mkClaims { sub : jsstr; grants : list StreamGrant; iat : Z; exp : Z }.

Inductive TokenReason : Type := MalformedToken | UnexpectedHeader | MalformedSignature | BadSignature | MalformedPayload | Expired.

(** HMAC-SHA-256 of the platform; [JSON.stringify] of the claims, and [JSON.parse] with the check of the three fields. *)
Context (sign : Key -> list Z -> list Z) (verify : Key -> list Z -> list Z -> bool).
Context (stringify : StreamTokenClaims -> jsstr) (parse : jsstr -> option StreamTokenClaims).

Definition DEFAULT_STREAM_TOKEN_TTL_SECONDS : Z := 300.
Definition HEADER : jsstr :=
  Eval vm_compute in base64UrlEncode (utf8_encode ([123; 34] ++ js "alg" ++ [34; 58; 34] ++ js "HS256" ++ [34; 44; 34] ++ js "typ" ++ [34; 58; 34] ++ js "JWT" ++ [34; 125])).
Definition DOT : Z := 46.

Definition mintStreamToken (key : Key) (s : jsstr) (gs : list StreamGrant) (ttl : option Z) (now : Z) : jsstr :=
  let ttl := default DEFAULT_STREAM_TOKEN_TTL_SECONDS ttl in
  let body := base64UrlEncode (utf8_encode (stringify (mkClaims s gs now (now + ttl)))) in
  let signingInput := HEADER ++ [DOT] ++ body in
  signingInput ++ [DOT] ++ base64UrlEncode (sign key (utf8_encode signingInput)).

Definition verifyStreamToken (key : Key) (token : jsstr) (now : Z) (allowExpired : bool) : TokenReason + StreamTokenClaims :=
  match splitOn DOT token with
  | [header; body; signature] =>
      if negb (bool_decide (header = HEADER)) then inl UnexpectedHeader
      else match base64UrlDecode signature with
      | None => inl MalformedSignature
      | Some signature =>
          if negb (verify key signature (utf8_encode (header ++ [DOT] ++ body))) then inl BadSignature
          else match (bytes ← base64UrlDecode body; parse (textDecode bytes)) with
          | None => inl MalformedPayload
          | Some claims => if (exp claims <=? now) && negb allowExpired then inl Expired else inr claims
          end
      end
  | _ => inl MalformedToken
  end.

Definition findGrant (claims : StreamTokenClaims) (p : jsstr) : option StreamGrant :=
  find (fun grant => bool_decide (path grant = p)) (grants claims).
End StreamToken.
Arguments StreamGrant : clear implicits.
Arguments StreamTokenClaims : clear implicits.
End StreamToken.
(** ** The control plane *)

Module Control.
Import Predicate Shapes Fingerprint StreamToken.
Section Control.

(** The world outside: the engine's state and the supply of identifiers. *)
Context {N Key Claims Params Cell W : Type}.

Inductive ControlError : Type :=
| EngineFailed (status : option Z) | EntitlementsUnavailable | LeaseTooShort | ClaimRenamed | CompileThrew (e : ShapeError).

Record ShapeHandle : Type := mkHandle { handleShape : jsstr; streamPath : jsstr; subscription : jsstr; leaseSeconds : Z }.

Abbreviation C A := (ST W ControlError A).

Record Engine : Type := mkEngine {
  createShape : CreateShapeRequest N -> jsstr -> C ShapeHandle;
  releaseShape : jsstr -> jsstr -> C unit }.

(** The live entitlement set, as one call reads it. *)
Record EntitlementSet : Type := mkEntitlements {
  ready : bool;
  permits : jsstr -> jsstr -> list (PredicateValue N) -> bool;
  scopesFor : jsstr -> jsstr -> list (list (PredicateValue N)) }.

Record SubscribeOptions : Type := mkOptions {
  registry : list (jsstr * SyncTableEntry N Claims Params Cell);
  engine : Engine; entitlements : option EntitlementSet; key : Key; ttlSeconds : option Z; deploymentParams : option Params }.

Record GrantedSubscription : Type := mkGranted {
  grantedKey : jsstr; grantedAt : option (list (PredicateValue N)); grantedShape : jsstr; grantedPath : jsstr }.

Inductive Reason : Type :=
| NoSubject | NoEntitlementSet | NoEntitledScopes | NotEntitled | Refused (r : DenyReason)
| NoFingerprint | PredicateChanged | HeldByAnotherShape | StreamChanged.

Record DeniedSubscription : Type := mkDenied { deniedKey : jsstr; deniedAt : option (list (PredicateValue N)); reason : Reason }.

Record SubscribeResult : Type := mkSubscribed {
  token : option jsstr; expiresAt : option Z; granted : list GrantedSubscription; denied : list DeniedSubscription }.

Context (emptyClaims : Claims) (subjectOf : Claims -> option jsstr) (randomUUID : W -> W * jsstr).
Context (numberText : N -> jsstr) (sha256 : list Z -> list Z).
Context (sign : Key -> list Z -> list Z) (verify : Key -> list Z -> list Z -> bool).
Context (stringify : StreamTokenClaims N -> jsstr) (parse : jsstr -> option (StreamTokenClaims N)).

Definition fingerprint := fingerprintShapeRequest numberText sha256.
Definition ttlOf (options : SubscribeOptions) : Z := default DEFAULT_STREAM_TOKEN_TTL_SECONDS (ttlSeconds options).

(** Awaited compilation can throw what a custom predicate throws. *)
Definition compiled {A} (m : result ShapeError A) : C A := fun w => (w, match m with Ok a => Ok a | Throw e => Throw (CompileThrew e) end).
Definition throw {A} (e : ControlError) : C A := fun w => (w, Throw e).
Definition uuid : C jsstr := fun w => let (w', id) := randomUUID w in (w', Ok id).

Definition assertLeaseCoversTtl (lease ttl : Z) : C unit :=
  fun w => (w, if negb (lease =? 0) && (lease <? 2 * ttl) then Throw LeaseTooShort else Ok tt).
Definition assertClaimRecorded (handle : ShapeHandle) (c : jsstr) : C unit :=
  fun w => (w, if bool_decide (subscription handle = c) then Ok tt else Throw ClaimRenamed).

Definition compileGrant (options : SubscribeOptions) (c : option Claims) (k : jsstr) (s : option (list (PredicateValue N))) :
    C (CompiledShapeRequest N) :=
  compiled (compileShapeRequest emptyClaims (registry options) (mkShapeRequest k c s (deploymentParams options))).

(** What a request expands to: scopes, or a refusal. *)
Definition expandToScopes (options : SubscribeOptions) (subject k : jsstr) : C (Reason + list (option (list (PredicateValue N)))) :=
  match (entry ← resolveEntryByShapeKey (registry options) k; shape entry) with
  | None => mret (inr [None])
  | Some s =>
      tier ← compiled (readShapeTier s);
      match tier with
      | private => mret (inr [None])
      | shared =>
          match entitlements options with
          | None => mret (inl NoEntitlementSet)
          | Some set =>
              if negb (ready set) then throw EntitlementsUnavailable
              else match scopesFor set subject k with
              | [] => mret (inl NoEntitledScopes)
              | held => mret (inr (Some <$> held))
              end
          end
      end
  end.

Definition permitted (options : SubscribeOptions) (subject k : jsstr) (s : list (PredicateValue N)) : bool :=
  match entitlements options with Some set => permits set subject k s | None => false end.

(** The three lists a batch collects. *)
Record Batch : Type := mkBatch { batchGranted : list GrantedSubscription; batchDenied : list DeniedSubscription; batchGrants : list (StreamGrant N) }.
Definition deny (acc : Batch) (k : jsstr) (s : option (list (PredicateValue N))) (r : Reason) : Batch :=
  mkBatch (batchGranted acc) (batchDenied acc ++ [mkDenied k s r]) (batchGrants acc).

(** A throw of [m] first runs the release, whose failure is swallowed. *)
Definition releasingOnThrow (m : C unit) (release : C unit) : C unit :=
  fun w => match m w with (w', Throw e) => ((release w').1, Throw e) | ok => ok end.

Definition subscribeScope (options : SubscribeOptions) (c : option Claims) (subject k : jsstr) (acc : Batch)
    (s : option (list (PredicateValue N))) : C Batch :=
  answer ← compileGrant options c k s;
  match answer with
  | Deny r => mret (deny acc k s (Refused r))
  | Create tier request =>
      if match tier with shared => negb (permitted options subject k (default [] s)) | private => false end
      then mret (deny acc k s NotEntitled)
      else
        let print := match tier with private => Some (fingerprint request) | shared => None end in
        id ← uuid;
        handle ← createShape (engine options) request id;
        assertClaimRecorded handle id ≫= fun _ =>
        releasingOnThrow (assertLeaseCoversTtl (leaseSeconds handle) (ttlOf options)) (releaseShape (engine options) (handleShape handle) id) ≫= fun _ =>
        mret (mkBatch (batchGranted acc ++ [mkGranted k s (handleShape handle) (streamPath handle)]) (batchDenied acc)
          (batchGrants acc ++ [mkGrant (streamPath handle) k (handleShape handle) id s print]))
  end.

(** A loop that carries a value and can throw. *)
Fixpoint each {A B} (f : B -> A -> C B) (acc : B) (l : list A) : C B :=
  match l with [] => mret acc | x :: l => acc ← f acc x; each f acc l end.

Definition subscribeRequest (options : SubscribeOptions) (c : option Claims) (subject : option jsstr) (acc : Batch) (k : jsstr) : C Batch :=
  match subject with
  | None => mret (deny acc k None NoSubject)
  | Some subject =>
      expanded ← expandToScopes options subject k;
      match expanded with
      | inl r => mret (deny acc k None r)
      | inr scopes => each (subscribeScope options c subject k) acc scopes
      end
  end.

Definition mint (options : SubscribeOptions) (subject : jsstr) (gs : list (StreamGrant N)) (now : Z) : jsstr :=
  mintStreamToken sign stringify (key options) subject gs (Some (ttlOf options)) now.

Definition subscribeToShapes (options : SubscribeOptions) (c : option Claims) (requests : list jsstr) (now : Z) : C SubscribeResult :=
  let subject := c ≫= subjectOf in
  acc ← each (subscribeRequest options c subject) (mkBatch [] [] []) requests;
  match subject, batchGrants acc with
  | Some subject, (_ :: _) as gs =>
      mret (mkSubscribed (Some (mint options subject gs now)) (Some (now + ttlOf options)) (batchGranted acc) (batchDenied acc))
  | _, _ => mret (mkSubscribed None None (batchGranted acc) (batchDenied acc))
  end.

(** [Some r] revokes the grant, [None] keeps it. *)
Definition renewGrantClaim (options : SubscribeOptions) (request : CreateShapeRequest N) (grant : StreamGrant N) : C (option Reason) :=
  fun w =>
    match createShape (engine options) request (claim grant) w with
    | (w, Throw (EngineFailed (Some 409))) => (w, Ok (Some HeldByAnotherShape))
    | (w, Throw e) => (w, Throw e)
    | (w, Ok handle) =>
        (assertClaimRecorded handle (claim grant) ≫= fun _ =>
         if negb (bool_decide (handleShape handle = shapeId grant)) || negb (bool_decide (streamPath handle = path grant)) then
           releaseShape (engine options) (handleShape handle) (claim grant) ≫= fun _ => mret (Some StreamChanged)
         else assertLeaseCoversTtl (leaseSeconds handle) (ttlOf options) ≫= fun _ => mret None) w
    end.

(** What the re-mint decides about one grant. *)
Definition refreshGrant (options : SubscribeOptions) (c : option Claims) (subject : jsstr) (grant : StreamGrant N) : C (option Reason) :=
  match grantScope grant with
  | None =>
      answer ← compileGrant options c (grantKey grant) None;
      match answer with
      | Deny r => mret (Some (Refused r))
      | Create _ request =>
          match fp grant with
          | None => mret (Some NoFingerprint)
          | Some print =>
              if negb (bool_decide (fingerprint request = print)) then mret (Some PredicateChanged)
              else renewGrantClaim options request grant
          end
      end
  | Some s =>
      match entitlements options with
      | None => mret (Some NoEntitlementSet)
      | Some set =>
          if negb (ready set) then throw EntitlementsUnavailable
          else if negb (permits set subject (grantKey grant) s) then mret (Some NotEntitled)
          else
            answer ← compileGrant options c (grantKey grant) (Some s);
            match answer with
            | Deny r => mret (Some (Refused r))
            | Create _ request => renewGrantClaim options request grant
            end
      end
  end.

Record RefreshResult : Type := mkRefreshed {
  newToken : option jsstr; newExpiry : option Z; kept : list (StreamGrant N); revoked : list DeniedSubscription }.

Definition refreshStep (options : SubscribeOptions) (c : option Claims) (subject : jsstr)
    (acc : list (StreamGrant N) * list DeniedSubscription) (grant : StreamGrant N) : C (list (StreamGrant N) * list DeniedSubscription) :=
  outcome ← refreshGrant options c subject grant;
  match outcome with
  | None => mret (acc.1 ++ [grant], acc.2)
  | Some r => mret (acc.1, acc.2 ++ [mkDenied (grantKey grant) (grantScope grant) r])
  end.

Definition refreshStreamToken (options : SubscribeOptions) (c : option Claims) (expiring : jsstr) (now : Z) : C RefreshResult :=
  match verifyStreamToken verify parse (key options) expiring now true, c ≫= subjectOf with
  | inr claims, Some subject =>
      if negb (bool_decide (sub claims = subject)) then mret (mkRefreshed None None [] [])
      else
        acc ← each (refreshStep options c subject) ([], []) (grants claims);
        match acc.1 with
        | [] => mret (mkRefreshed None None [] acc.2)
        | _ => mret (mkRefreshed (Some (mint options subject acc.1 now)) (Some (now + ttlOf options)) acc.1 acc.2)
        end
  | _, _ => mret (mkRefreshed None None [] [])
  end.

Inductive Refusal : Type := Unauthenticated | BadToken (r : TokenReason) | SubjectMismatch.

Definition releaseStreamGrants (options : SubscribeOptions) (c : option Claims) (token : jsstr) (now : Z) : C (Refusal + nat) :=
  match c ≫= subjectOf with
  | None | Some [] => mret (inl Unauthenticated)
  | Some subject =>
      match verifyStreamToken verify parse (key options) token now true with
      | inl r => mret (inl (BadToken r))
      | inr claims =>
          if negb (bool_decide (sub claims = subject)) then mret (inl SubjectMismatch)
          else
            forM (fun grant => releaseShape (engine options) (shapeId grant) (claim grant)) (grants claims) ≫= fun _ =>
            mret (inr (length (grants claims)))
      end
  end.

(** ** The routes *)

Inductive Response (A : Type) : Type := Status (code : Z) | Json (body : A).
Arguments Status {A} code.
Arguments Json {A} body.

(** The errors a route answers with 503; any other propagates. *)
Definition engineError (e : ControlError) : bool := match e with EngineFailed (Some _) => true | _ => false end.
Definition serverError (e : ControlError) : bool := match e with LeaseTooShort | EntitlementsUnavailable => true | e => engineError e end.
Definition outage {A B} (outages : ControlError -> bool) (respond : A -> Response B) (m : C A) : C (Response B) :=
  fun w => match m w with
  | (w, Ok a) => (w, Ok (respond a))
  | (w, Throw e) => (w, if outages e then Ok (Status 503) else Throw e)
  end.

Definition authenticated (c : option Claims) : bool := match c ≫= subjectOf with Some (_ :: _) => true | _ => false end.

(** The body is [None] when it is not JSON or not of the form the route reads. *)
Definition handleSubscribe (options : SubscribeOptions) (c : option Claims) (body : option (list jsstr)) (now : Z) : C (Response SubscribeResult) :=
  match body with
  | None => mret (Status 400)
  | Some requests => if negb (authenticated c) then mret (Status 401) else outage serverError Json (subscribeToShapes options c requests now)
  end.
Definition handleRefresh (options : SubscribeOptions) (c : option Claims) (body : option jsstr) (now : Z) : C (Response RefreshResult) :=
  match body with
  | None => mret (Status 400)
  | Some token => if negb (authenticated c) then mret (Status 401) else outage serverError Json (refreshStreamToken options c token now)
  end.
Definition handleRelease (options : SubscribeOptions) (c : option Claims) (body : option jsstr) (now : Z) : C (Response nat) :=
  match body with
  | None => mret (Status 400)
  | Some token =>
      if negb (authenticated c) then mret (Status 401)
      else outage engineError (fun answer => match answer with inl _ => Status 403 | inr released => Json released end) (releaseStreamGrants options c token now)
  end.
End Control.
Arguments Status {A} code.
Arguments Json {A} body.
End Control.

(** ** The engine's client, and its barrier *)

Module EngineClient.
Import Predicate Shapes Control.
Section EngineClient.
Context {N W : Type}.
Abbreviation C A := (ST W ControlError A).

(** What the engine's answers hold: the fields of an object, as far as their types are looked at. *)
Inductive EngineField : Type := FieldNull | FieldNumber (n : Z) | FieldString (s : jsstr) | FieldOther.
Inductive EngineJson : Type := Undefined | JsonNull | JsonObject (fields : gmap jsstr EngineField) | JsonOther.

(** The engine's routes, a path as its decoded parts. *)
Inductive EngineCall : Type := PostShapes (request : CreateShapeRequest N) (subscription : jsstr) | DeleteShape (shapeId subscription : jsstr) | GetLsn.

(** A response: its status and its body's text, [Some] value when it is empty or JSON. *)
Record HttpAnswer : Type := mkAnswer { httpStatus : Z; httpBody : option EngineJson }.

Context (fetch : EngineCall -> W -> W * option HttpAnswer).

Definition ok (code : Z) : bool := (200 <=? code) && (code <=? 299).
Definition unusable : ControlError := EngineFailed None.

Definition call (c : EngineCall) : C EngineJson :=
  fun w => match fetch c w with
  | (w, None) => (w, Throw (EngineFailed None))
  | (w, Some response) =>
      (w, if negb (ok (httpStatus response)) then Throw (EngineFailed (Some (httpStatus response)))
          else or_throw (httpBody response) (EngineFailed None))
  end.

Definition stringField (fields : gmap jsstr EngineField) (name : jsstr) : result ControlError jsstr :=
  match fields !! name with Some (FieldString s) => Ok s | _ => Throw unusable end.
Definition numberField (fields : gmap jsstr EngineField) (name : jsstr) : result ControlError Z :=
  match fields !! name with Some (FieldNumber n) => Ok n | _ => Throw unusable end.

Definition createShape (request : CreateShapeRequest N) (subscription : jsstr) : C ShapeHandle :=
  body ← call (PostShapes request subscription);
  match body with
  | JsonObject fields => st_lift (
      id ← stringField fields (js "shapeId");
      p ← stringField fields (js "streamPath");
      sub ← stringField fields (js "subscription");
      throw_if (bool_decide (sub = [])) unusable ≫= fun _ =>
      lease ← numberField fields (js "leaseSeconds");
      mret (mkHandle id p sub lease))
  | _ => st_lift (Throw unusable)
  end.

Definition releaseShape (shapeId subscription : jsstr) : C unit :=
  call (DeleteShape shapeId subscription) ≫= fun _ => mret tt.

Record ReplicationState : Type := mkReplication { lsn : option jsstr; pendingFlips : Z; flipFailures : Z }.

Definition replicationState : C ReplicationState :=
  body ← call GetLsn;
  match body with
  | JsonObject fields => st_lift (
      l ← match fields !! js "lsn" with Some FieldNull => Ok None | Some (FieldString s) => Ok (Some s) | _ => Throw unusable end;
      p ← numberField fields (js "pendingFlips");
      f ← numberField fields (js "flipFailures");
      mret (mkReplication l p f))
  | _ => st_lift (Throw unusable)
  end.

Definition circuitsEngineClient : @Engine N W := mkEngine createShape releaseShape.

(** *** The barrier route *)

Record BarrierBody : Type := mkBarrier { barrierPending : Z; barrierFailures : Z }.
Record CachedBarrier : Type := mkCached { at_ : Z; cachedBody : BarrierBody }.

Definition askEngine (now : Z) (cached : option CachedBarrier) (w : W) : (option CachedBarrier * W) * result ControlError (Response BarrierBody) :=
  match replicationState w with
  | (w, Throw e) => ((cached, w), Throw e)
  | (w, Ok state) =>
      let body := mkBarrier (pendingFlips state) (flipFailures state) in
      ((if 0 <? barrierFailures body then None else Some (mkCached now body), w), Ok (Json body))
  end.

(** [resolve] is what [resolveAuthClaims] answered, [None] where the deployment has none. The time is in the units of
    [maxAge]. *)
Definition handleBarrier {Claims} (resolve : option (option Claims)) (maxAge now : Z) : ST (option CachedBarrier * W) ControlError (Response BarrierBody) :=
  fun '(cached, w) =>
    match resolve with
    | Some None => ((cached, w), Ok (Status 401))
    | _ =>
        match cached with
        | Some entry =>
            if now - at_ entry <? maxAge then ((cached, w), Ok (Json (cachedBody entry)))
            else askEngine now cached w
        | None => askEngine now cached w
        end
    end.
End EngineClient.
End EngineClient.

(** ** The stream edge *)

Module Edge.
Import Predicate Shapes StreamToken Control.
Section Edge.
Context {N Key Claims Params Cell X Body : Type}.
Context (verify : Key -> list Z -> list Z -> bool) (parse : jsstr -> option (StreamTokenClaims N)).

Record StreamGateOptions : Type := mkGate {
  gateKey : Key; gateRegistry : list (jsstr * SyncTableEntry N Claims Params Cell);
  gateEntitlements : option (@EntitlementSet N); gateParams : option Params }.

Inductive GateReason : Type := NoToken | Invalid (r : TokenReason) | NotGranted | NoSet | Unavailable | NotEntitledToScope.
Inductive GateDecision : Type := Allow (grant : StreamGrant N) (subject : jsstr) | DenyRead (r : GateReason).

Definition authorizeStreamRead (options : StreamGateOptions) (token : option jsstr) (p : jsstr) (now : Z) : GateDecision :=
  match token with
  | None | Some [] => DenyRead NoToken
  | Some token =>
      match verifyStreamToken verify parse (gateKey options) token now false with
      | inl r => DenyRead (Invalid r)
      | inr claims =>
          match findGrant claims p with
          | None => DenyRead NotGranted
          | Some grant =>
              match grantScope grant with
              | None => Allow grant (sub claims)
              | Some s =>
                  match gateEntitlements options with
                  | None => DenyRead NoSet
                  | Some set =>
                      if negb (ready set) then DenyRead Unavailable
                      else if negb (permits set (sub claims) (grantKey grant) s) then DenyRead NotEntitledToScope
                      else Allow grant (sub claims)
                  end
              end
          end
      end
  end.

Definition lowerAscii (c : Z) : Z := if (65 <=? c) && (c <=? 90) then c + 32 else c.

(** [Authorization: Bearer token]. *)
Definition readStreamToken (authorization : option jsstr) : option jsstr :=
  header ← authorization;
  match splitOn 32 header with
  | scheme :: ((_ :: _) as value) :: _ => if bool_decide (lowerAscii <$> scheme = js "bearer") then Some value else None
  | _ => None
  end.

(** What the gate reads of a request: its method, its [live] parameter and its headers. *)
Record ReadRequest : Type := mkRead { authorization : option jsstr; method : jsstr; live : option jsstr; accept : jsstr }.

Fixpoint startsWith (pattern text : jsstr) : bool :=
  match pattern, text with [], _ => true | p :: ps, t :: ts => (p =? t) && startsWith ps ts | _ :: _, [] => false end.
Fixpoint includes (pattern text : jsstr) : bool :=
  startsWith pattern text || match text with _ :: rest => includes pattern rest | [] => false end.

Definition asksForSse (request : ReadRequest) : bool := bool_decide (live request = Some (js "sse")) || includes (js "text/event-stream") (accept request).

(** An envelope's value is an object or something the gate does not touch; [X] is the rest of the envelope. *)
Record ProxiedEnvelope : Type := mkProxied { value : option (gmap jsstr Cell); others : X }.

(** Reading a JSON body: an array of envelopes or one, or the reader went away, or it is none. *)
Inductive JsonBody : Type := Batch (envelopes : list ProxiedEnvelope) | Single (envelope : ProxiedEnvelope) | BodyAborted | BodyFailed.

(** A response of the stream server; its content type says whether its body is JSON. *)
Record Upstream : Type := mkUpstream { status : Z; headers : gmap jsstr jsstr; json : option JsonBody; body : Body }.

(** The stream server answers, the reader went away, or the request failed. *)
Inductive Fetched : Type := Answered (response : Upstream) | Aborted | Failed.

Inductive GateResponse : Type :=
| Forbidden (r : GateReason) | NotAcceptable | ClosedRequest
| PassThrough (response : Upstream)
| Untouched (status : Z) (headers : gmap jsstr jsstr) (body : Body)
| Rewritten (status : Z) (headers : gmap jsstr jsstr) (envelopes : JsonBody).

Definition CACHE_CONTROL : jsstr := js "cache-control".
Definition rewrittenEgressHeaders (upstream : gmap jsstr jsstr) : gmap jsstr jsstr :=
  <[CACHE_CONTROL := js "private, no-store"]> (delete (js "etag") (delete (js "content-encoding") (delete (js "content-length") upstream))).

Definition rewriteEnvelope (transform : gmap jsstr Cell -> jsstr -> option Params -> result unit (gmap jsstr Cell)) (keep : list jsstr)
    (subject : jsstr) (p : option Params) (envelope : ProxiedEnvelope) : result unit ProxiedEnvelope :=
  match value envelope with
  | None => Ok envelope
  | Some row =>
      transformed ← transform row subject p;
      Ok (mkProxied (Some (filter (fun cell => cell.1 ∈ keep) transformed)) (others envelope))
  end.

Definition handleStreamRead (options : StreamGateOptions) (fetch : jsstr -> Fetched) (request : ReadRequest) (p : jsstr) (now : Z) :
    result unit GateResponse :=
  match authorizeStreamRead options (readStreamToken (authorization request)) p now with
  | DenyRead r => Ok (Forbidden r)
  | Allow grant subject =>
      match (entry ← resolveEntryByShapeKey (gateRegistry options) (grantKey grant); transform ← rowTransform entry; Some (entry, transform)) with
      | None =>
          match fetch p with
          | Answered response => Ok (PassThrough response)
          | Aborted => Ok ClosedRequest
          | Failed => Throw tt
          end
      | Some (entry, transform) =>
          if asksForSse request then Ok NotAcceptable
          else match fetch p with
          | Aborted => Ok ClosedRequest
          | Failed => Throw tt
          | Answered upstream =>
              if status upstream =? 499 then Ok (PassThrough upstream) else
              let out := rewrittenEgressHeaders (headers upstream) in
              if bool_decide (method request = js "HEAD") || negb (status upstream =? 200) then Ok (Untouched (status upstream) out (body upstream))
              else match json upstream with
              | None => Ok (Untouched (status upstream) out (body upstream))
              | Some BodyAborted => Ok ClosedRequest
              | Some BodyFailed => Throw tt
              | Some (Batch envelopes) =>
                  rewritten ← mapR (rewriteEnvelope transform (localTable entry) subject (gateParams options)) envelopes;
                  Ok (Rewritten (status upstream) out (Batch rewritten))
              | Some (Single envelope) =>
                  rewritten ← rewriteEnvelope transform (localTable entry) subject (gateParams options) envelope;
                  Ok (Rewritten (status upstream) out (Single rewritten))
              end
          end
      end
  end.
End Edge.
End Edge.

(** ** Base64 reads back what it wrote *)

Section Base64Laws.
Import Base64.

Definition isDigitChar (c : Z) : bool := match digitOf c with Some _ => true | None => false end.

Lemma digitOf_alphabet d : 0 <= d < 64 -> digitOf (alphabet d) = Some d.
Proof.
  intros H. unfold digitOf, alphabet. destruct (Z.ltb_spec d 26); [|destruct (Z.ltb_spec d 52); [|destruct (Z.ltb_spec d 62); [|destruct (Z.eqb_spec d 62)]]].
  all: repeat match goal with |- context [if ?b then _ else _] => let E := fresh in destruct b eqn:E; [try (f_equal; lia); exfalso; lia|] end; try lia.
Qed.

Fixpoint digits (bytes : list Z) : jsstr :=
  match bytes with
  | a :: b :: c :: rest =>
      [alphabet (a / 4); alphabet (a mod 4 * 16 + b / 16); alphabet (b mod 16 * 4 + c / 64); alphabet (c mod 64)] ++ digits rest
  | [a; b] => [alphabet (a / 4); alphabet (a mod 4 * 16 + b / 16); alphabet (b mod 16 * 4)]
  | [a] => [alphabet (a / 4); alphabet (a mod 4 * 16)]
  | [] => []
  end.
Fixpoint padding (bytes : list Z) : nat :=
  match bytes with _ :: _ :: _ :: rest => padding rest | [_; _] => 1 | [_] => 2 | [] => 0 end%nat.

(** Induction by groups of three bytes. *)
Lemma triples_ind (P : list Z -> Prop) : P [] -> (forall a, P [a]) -> (forall a b, P [a; b]) -> (forall a b c l, P l -> P (a :: b :: c :: l)) -> forall l, P l.
Proof.
  intros H0 H1 H2 H3. fix go 1. intros [|a [|b [|c l]]]; [apply H0|apply H1|apply H2|apply H3, go].
Qed.

Lemma btoa_digits bytes : btoa bytes = digits bytes ++ replicate (padding bytes) 61.
Proof. induction bytes using triples_ind; try done. cbn. by rewrite IHbytes. Qed.

Lemma length_digits bytes : exists k, (length (digits bytes) + padding bytes = 4 * k /\ padding bytes <= 2)%nat.
Proof.
  induction bytes as [| | |a b c l [k Hk]] using triples_ind; [exists 0%nat; cbn; lia|exists 1%nat; cbn; lia|exists 1%nat; cbn; lia|exists (S k)].
  cbn [digits padding length app]. lia.
Qed.

Ltac sixbit := Z.to_euclidean_division_equations; lia.

Lemma digits_chars bytes : Forall byte bytes -> Forall (fun c => isDigitChar c = true) (digits bytes).
Proof.
  assert (Hd : forall d, 0 <= d < 64 -> isDigitChar (alphabet d) = true) by (intros d Hd; unfold isDigitChar; by rewrite digitOf_alphabet).
  unfold byte. induction bytes as [|a|a b|a b c l IH] using triples_ind; intros H; rewrite ?Forall_cons in H; cbn [digits app].
  - constructor.
  - repeat constructor; apply Hd; sixbit.
  - repeat constructor; apply Hd; sixbit.
  - destruct H as (Ha & Hb & Hc & Hl). repeat (apply Forall_cons_2; [apply Hd; sixbit|]). by apply IH.
Qed.

Lemma decode_digits bytes : Forall byte bytes -> decodeDigits (digits bytes) = Some bytes.
Proof.
  unfold byte. induction bytes as [|a|a b|a b c l IH] using triples_ind; intros H; rewrite ?Forall_cons in H; [done| | |].
  - cbn [digits decodeDigits]. rewrite !digitOf_alphabet by sixbit. cbn. do 2 f_equal. sixbit.
  - cbn [digits decodeDigits]. rewrite !digitOf_alphabet by sixbit. cbn. f_equal. f_equal; [sixbit|]. f_equal. sixbit.
  - destruct H as (Ha & Hb & Hc & Hl). cbn [digits app decodeDigits]. rewrite !digitOf_alphabet by sixbit. cbn [mbind option_bind]. rewrite (IH Hl).
    cbn [mbind option_bind]. f_equal. cbn [app]. f_equal; [sixbit|]. f_equal; [sixbit|]. f_equal. sixbit.
Qed.

Lemma replaceAll_app c t a b : replaceAll c t (a ++ b) = replaceAll c t a ++ replaceAll c t b.
Proof. unfold replaceAll. by rewrite fmap_app, concat_app. Qed.
Lemma replaceAll_cons c t d s : replaceAll c t (d :: s) = (if d =? c then t else [d]) ++ replaceAll c t s.
Proof. done. Qed.

Lemma digit_char_cases c : isDigitChar c = true -> c = 43 \/ c = 47 \/ (c <> 43 /\ c <> 47 /\ c <> 45 /\ c <> 95 /\ c <> 61 /\ c <> 46 /\ 48 <= c).
Proof.
  unfold isDigitChar, digitOf. destruct (Z.eqb_spec c 43) as [->|H43]; [by left|]. destruct (Z.eqb_spec c 47) as [->|H47]; [right; by left|].
  intros H. do 2 right. destruct ((65 <=? c) && (c <=? 90)) eqn:E1; [lia|]. destruct ((97 <=? c) && (c <=? 122)) eqn:E2; [lia|].
  destruct ((48 <=? c) && (c <=? 57)) eqn:E3; [lia|]. discriminate H.
Qed.

Definition urlSafe (s : jsstr) : jsstr := replaceAll 61 [] (replaceAll 47 [95] (replaceAll 43 [45] s)).

Lemma urlSafe_app a b : urlSafe (a ++ b) = urlSafe a ++ urlSafe b.
Proof. unfold urlSafe. by rewrite !replaceAll_app. Qed.

Lemma urlSafe_padding n : urlSafe (replicate n 61) = [].
Proof. induction n as [|n IH]; [done|]. exact IH. Qed.

Lemma urlSafe_back s : Forall (fun c => isDigitChar c = true) s ->
  replaceAll 95 [47] (replaceAll 45 [43] (urlSafe s)) = s /\ length (urlSafe s) = length s /\ 46 ∉ urlSafe s.
Proof.
  induction 1 as [|c s Hc _ (IH & Hl & Hd)]; [split; [done|]; split; [done|set_solver]|].
  change (c :: s) with ([c] ++ s). rewrite urlSafe_app, !replaceAll_app, !length_app, Hl, IH, not_elem_of_app.
  assert (replaceAll 95 [47] (replaceAll 45 [43] (urlSafe [c])) = [c] /\ length (urlSafe [c]) = 1%nat /\ 46 ∉ urlSafe [c]) as (E & El & Ed).
  { apply digit_char_cases in Hc as [->|[->|(H1 & H2 & H3 & H4 & H5 & H6 & _)]]; [by repeat split; set_solver by lia..|].
    unfold urlSafe, replaceAll. cbn [fmap list_fmap concat]. rewrite (proj2 (Z.eqb_neq c 43)) by done. cbn [fmap list_fmap concat app].
    rewrite (proj2 (Z.eqb_neq c 47)) by done. cbn [fmap list_fmap concat app]. rewrite (proj2 (Z.eqb_neq c 61)) by done. cbn [fmap list_fmap concat app].
    rewrite (proj2 (Z.eqb_neq c 45)) by done. cbn [fmap list_fmap concat app]. rewrite (proj2 (Z.eqb_neq c 95)) by done. repeat split. set_solver. }
  rewrite E, El. repeat split; done.
Qed.

Lemma dropPadding_back s n : Forall (fun c => isDigitChar c = true) s -> (n <= 2)%nat -> dropPadding (s ++ replicate n 61) = s.
Proof.
  intros Hs Hn. assert (Hlast : forall c r, rev s = c :: r -> c <> 61).
  { intros c r E. apply (f_equal (@rev Z)) in E. rewrite rev_involutive in E. cbn [rev] in E. rewrite E, Forall_app in Hs. destruct Hs as [_ Hc].
    apply Forall_inv, digit_char_cases in Hc. lia. }
  unfold dropPadding. rewrite rev_app_distr. destruct n as [|[|[|n]]]; [| | |lia]; cbn [replicate rev app]; destruct (rev s) as [|c r] eqn:E.
  5-6: by rewrite <- E, rev_involutive || (rewrite <- (rev_involutive s), E; done).
  all: apply (f_equal (@rev Z)) in E as Es; rewrite rev_involutive in Es; rewrite ?app_nil_r; try (subst s; done).
  all: pose proof (Hlast _ _ eq_refl) as Hc; rewrite Es; clear -Hc;
    repeat (match goal with |- context [match ?x with _ => _ end] => is_var x; destruct x end; try done).
Qed.

Lemma base64_roundtrip bytes : Forall byte bytes -> base64UrlDecode (base64UrlEncode bytes) = Some bytes /\ 46 ∉ base64UrlEncode bytes.
Proof.
  intros Hb. change (base64UrlEncode bytes) with (urlSafe (btoa bytes)). pose proof (digits_chars bytes Hb) as Hd.
  destruct (urlSafe_back (digits bytes) Hd) as (Hback & Hlen & Hdot). destruct (length_digits bytes) as (k & Hk & Hp).
  rewrite btoa_digits, urlSafe_app, urlSafe_padding, app_nil_r. split; [|done]. unfold base64UrlDecode, padEnd. rewrite Hback, Hlen.
  assert (((length (digits bytes) + 3) / 4 * 4 - length (digits bytes))%nat = padding bytes) as ->.
  { assert ((length (digits bytes) + 3) / 4 = k)%nat as ->; [|lia]. symmetry. apply (Nat.div_unique _ 4 k (3 - padding bytes)); lia. }
  unfold atob. assert (List.filter (fun c => negb (isSpace c)) (digits bytes ++ replicate (padding bytes) 61) = digits bytes ++ replicate (padding bytes) 61) as ->.
  { assert (Forall (fun c => isSpace c = false) (digits bytes ++ replicate (padding bytes) 61)) as Hns.
    { apply Forall_app. split; [|by apply Forall_replicate]. eapply Forall_impl; [exact Hd|]. intros c Hc%digit_char_cases. unfold isSpace. apply bool_decide_eq_false. set_solver by lia. }
    induction Hns as [|c l Hc _ IH]; [done|]. cbn. rewrite Hc. cbn. by rewrite IH. }
  assert ((length (digits bytes ++ replicate (padding bytes) (61 : Z)) mod 4 =? 0)%nat = true) as ->.
  { rewrite length_app, length_replicate, Hk, Nat.mul_comm. by rewrite Nat.Div0.mod_mul. }
  rewrite dropPadding_back by done. by apply decode_digits.
Qed.
Lemma digit_char_bounds c : isDigitChar c = true -> 43 <= c <= 122.
Proof.
  unfold isDigitChar, digitOf. intros H. destruct (Z.eqb_spec c 43); [lia|]. destruct (Z.eqb_spec c 47); [lia|].
  destruct ((65 <=? c) && (c <=? 90)) eqn:E1; [lia|]. destruct ((97 <=? c) && (c <=? 122)) eqn:E2; [lia|].
  destruct ((48 <=? c) && (c <=? 57)) eqn:E3; [lia|]. discriminate H.
Qed.

End Base64Laws.

(** ** Tokens *)

(** The payload's text, which JSON prints and reads back. *)
Class LawfulClaims {N} (stringify : StreamToken.StreamTokenClaims N -> jsstr) (parse : jsstr -> option (StreamToken.StreamTokenClaims N)) : Prop := {
  parse_stringify : forall c, parse (stringify c) = Some c;
  stringify_text : forall c, wire_text (stringify c) }.

(** Signatures are bytes, and verify. *)
Class LawfulSignatures {Key} (sign : Key -> list Z -> list Z) (verify : Key -> list Z -> list Z -> bool) : Prop := {
  sign_bytes : forall k m, Forall byte (sign k m);
  verify_signed : forall k m, verify k (sign k m) m = true }.

Lemma utf8_ascii s : Forall (fun b => b <= 127) (utf8_encode s) -> utf8_encode s = s.
Proof.
  induction s as [|c s IH]; [done|]. cbn [utf8_encode]. destruct (Z.leb_spec c 0x7f); [intros [_ Hs]%Forall_cons; f_equal; by apply IH|].
  assert (forall b l, 127 < b -> Forall (fun b => b <= 127) (b :: l) -> utf8_encode (c :: s) = c :: s) as Hno by (intros b l Hb [Hl _]%Forall_cons; lia).
  intros Hf. exfalso. revert Hf.
  destruct (c <=? 0x7ff) eqn:?; [cbn; intros [Hf _]%Forall_cons; Z.to_euclidean_division_equations; lia|].
  assert (forall c' t, 0x800 <= c' -> Forall (fun b => b <= 127) (utf8_3 c' ++ t) -> False) as H3.
  { intros c' t Hc'. unfold utf8_3. cbn. intros [Hf _]%Forall_cons. Z.to_euclidean_division_equations; lia. }
  destruct (high_surrogate c) eqn:Eh.
  - unfold high_surrogate in Eh. destruct s as [|d s]; [apply (H3 0xfffd []); lia|]. destruct (low_surrogate d) eqn:Ed; [|by apply H3; lia].
    unfold utf8_4, code_point, low_surrogate in *. cbn. intros [Hf _]%Forall_cons. Z.to_euclidean_division_equations; lia.
  - destruct (low_surrogate c); apply H3; lia.
Qed.

Section TokenLaws.
Import Base64 StreamToken.
Context {N Key : Type} (sign : Key -> list Z -> list Z) (verify : Key -> list Z -> list Z -> bool).
Context (stringify : StreamTokenClaims N -> jsstr) (parse : jsstr -> option (StreamTokenClaims N)) `{Hclaims : !LawfulClaims stringify parse}.

Definition payload (claims : StreamTokenClaims N) : jsstr := base64UrlEncode (utf8_encode (stringify claims)).
Definition input (claims : StreamTokenClaims N) : jsstr := HEADER ++ [DOT] ++ payload claims.
Definition minted (s : jsstr) (gs : list (StreamGrant N)) (ttl : option Z) (now : Z) : StreamTokenClaims N :=
  mkClaims s gs now (now + default DEFAULT_STREAM_TOKEN_TTL_SECONDS ttl).

Lemma stringify_bytes claims : Forall byte (utf8_encode (stringify claims)).
Proof. destruct (stringify_text claims) as [[Hs _] Hw]. by apply utf8_encode_decodes. Qed.

Lemma payload_read claims : (bytes ← base64UrlDecode (payload claims); parse (textDecode bytes)) = Some claims.
Proof.
  destruct (base64_roundtrip _ (stringify_bytes claims)) as [E _]. unfold payload. rewrite E. cbn [mbind option_bind].
  rewrite textDecode_encode by apply stringify_text. apply parse_stringify.
Qed.

Lemma payload_no_dot claims : DOT ∉ payload claims.
Proof. apply base64_roundtrip, stringify_bytes. Qed.

(** A token that was minted verifies to its claims until it expires. *)
Lemma verify_mint `{!LawfulSignatures sign verify} k s gs ttl now now' allowExpired :
  verifyStreamToken verify parse k (mintStreamToken sign stringify k s gs ttl now) now' allowExpired =
    (if (exp (minted s gs ttl now) <=? now') && negb allowExpired then inl Expired else inr (minted s gs ttl now)).
Proof.
  unfold mintStreamToken. fold (minted s gs ttl now). set (claims := minted s gs ttl now). fold (payload claims). fold (input claims).
  destruct (base64_roundtrip (sign k (utf8_encode (input claims))) (sign_bytes k _)) as [Esig Hsig].
  unfold verifyStreamToken. assert (splitOn DOT (input claims ++ [DOT] ++ base64UrlEncode (sign k (utf8_encode (input claims)))) =
    [HEADER; payload claims; base64UrlEncode (sign k (utf8_encode (input claims)))]) as ->.
  { unfold input at 1. rewrite <- !app_assoc. cbn [app]. rewrite splitOn_app by (vm_compute; set_solver). f_equal.
    change (payload claims ++ DOT :: ?r) with (payload claims ++ DOT :: r). rewrite splitOn_app by apply payload_no_dot. f_equal. by apply splitOn_clean. }
  rewrite bool_decide_true by done. cbn [negb]. rewrite Esig. fold (input claims). rewrite verify_signed. cbn [negb]. by rewrite payload_read.
Qed.

Lemma ascii_input claims : Forall (fun b => 0 <= b <= 127) (input claims).
Proof.
  unfold input. apply Forall_app. split; [repeat (constructor; [split; discriminate|]); constructor|]. constructor; [unfold DOT; lia|].
  change (payload claims) with (urlSafe (btoa (utf8_encode (stringify claims)))). rewrite btoa_digits, urlSafe_app, urlSafe_padding, app_nil_r.
  pose proof (digits_chars _ (stringify_bytes claims)) as Hd. induction Hd as [|c l Hc _ IH]; [constructor|].
  change (c :: l) with ([c] ++ l). rewrite urlSafe_app. apply Forall_app. split; [|done]. apply digit_char_bounds in Hc.
  unfold urlSafe, replaceAll. cbn [fmap list_fmap concat]. destruct (c =? 43); cbn; [repeat constructor; discriminate|].
  destruct (c =? 47); cbn; [repeat constructor; discriminate|]. destruct (c =? 61); cbn; repeat constructor; lia.
Qed.
End TokenLaws.

(** ** What the control plane decides *)

Section ControlLaws.
Import Predicate Shapes Fingerprint StreamToken Control.
Context {N Key Claims Params Cell W : Type}.
Context (emptyClaims : Claims) (subjectOf : Claims -> option jsstr) (randomUUID : W -> W * jsstr).
Context (numberText : N -> jsstr) (sha256 : list Z -> list Z).
Context (sign : Key -> list Z -> list Z) (verify : Key -> list Z -> list Z -> bool).
Context (stringify : StreamTokenClaims N -> jsstr) (parse : jsstr -> option (StreamTokenClaims N)).
Abbreviation Options := (@SubscribeOptions N Key Claims Params Cell W).
Abbreviation Handle := ShapeHandle.

(** The request the control plane compiles for a key and a scope, with the claims of the caller. *)
Definition compiles (options : Options) (c : option Claims) (k : jsstr) (s : option (list (PredicateValue N))) (answer : CompiledShapeRequest N) : Prop :=
  compileShapeRequest emptyClaims (registry options) (mkShapeRequest k c s (deploymentParams options)) = Ok answer.

(** The engine answered a create under a name with a handle. *)
Definition answered (options : Options) (request : CreateShapeRequest N) (id : jsstr) (handle : Handle) : Prop :=
  exists w w', createShape (engine options) request id w = (w', Ok handle) /\ subscription handle = id.

Definition lease_covers (options : Options) (handle : Handle) : Prop := leaseSeconds handle = 0 \/ 2 * ttlOf options <= leaseSeconds handle.

(** The caller may read this shape at this scope now: the claims compile to a request, which in the shared tier the
    entitlement set permits. *)
Definition authorized (options : Options) (c : option Claims) (subject k : jsstr) (s : option (list (PredicateValue N))) (tier : ShapeTier)
    (request : CreateShapeRequest N) : Prop :=
  compiles options c k s (Create tier request) /\
  match tier with
  | shared => exists set values, entitlements options = Some set /\ ready set = true /\ s = Some values /\ permits set subject k values = true
  | private => s = None
  end.

(** A grant of a subscription: authorized, and a claim the engine recorded for exactly the compiled request. *)
Definition subscribed (options : Options) (c : option Claims) (subject : jsstr) (grant : StreamGrant N) : Prop :=
  exists tier request handle, authorized options c subject (grantKey grant) (grantScope grant) tier request /\
    fp grant = match tier with private => Some (fingerprint numberText sha256 request) | shared => None end /\
    answered options request (claim grant) handle /\ handleShape handle = shapeId grant /\ streamPath handle = path grant /\
    lease_covers options handle.

Definition toGranted (grant : StreamGrant N) : GrantedSubscription := mkGranted (grantKey grant) (grantScope grant) (shapeId grant) (path grant).

Lemma each_inv {A B} (f : B -> A -> ST W ControlError B) (P : W -> B -> Prop) (Q : A -> Prop) :
  (forall acc x w w' acc', Q x -> P w acc -> f acc x w = (w', Ok acc') -> P w' acc') ->
  forall l acc w w' acc', Forall Q l -> P w acc -> each f acc l w = (w', Ok acc') -> P w' acc'.
Proof.
  intros Hf l. induction l as [|x l IH]; intros acc w w' acc' Hl Hp; [intros [= <- <-]; done|]. apply Forall_cons in Hl as [Hx Hl].
  cbn [each]. intros (w1 & acc1 & H1 & H2)%st_bind_Ok. by apply (IH acc1 w1 w' acc' Hl); [eapply Hf|].
Qed.

Lemma lease_checked (lease ttl : Z) (w w' : W) (u : unit) : assertLeaseCoversTtl lease ttl w = (w', Ok u) -> w' = w /\ (lease = 0 \/ 2 * ttl <= lease).
Proof. unfold assertLeaseCoversTtl. destruct (negb (lease =? 0) && (lease <? 2 * ttl)) eqn:E; [done|]. intros [= <-]. split; [done|]. lia. Qed.

Lemma claim_checked handle id (w w' : W) u : assertClaimRecorded handle id w = (w', Ok u) -> w' = w /\ subscription handle = id.
Proof. unfold assertClaimRecorded. case_bool_decide; [|done]. by intros [= <-]. Qed.

Lemma release_on_throw (m release : ST W ControlError unit) w w' u : releasingOnThrow m release w = (w', Ok u) -> m w = (w', Ok u).
Proof. unfold releasingOnThrow. by destruct (m w) as [w1 [[]|e]]. Qed.

Lemma compiled_Ok {A} (m : result ShapeError A) (w w' : W) a : compiled m w = (w', Ok a) -> w' = w /\ m = Ok a.
Proof. unfold compiled. destruct m; [by intros [= <- <-]|done]. Qed.

(** One scope of a request: denied, or one more grant. *)
Lemma subscribeScope_spec (options : Options) c subject k acc s w w' acc'
    (Hscope : forall tier request, compiles options c k s (Create tier request) ->
      match tier with shared => exists set values, entitlements options = Some set /\ ready set = true /\ s = Some values | private => s = None end)
    (H : subscribeScope emptyClaims randomUUID numberText sha256 options c subject k acc s w = (w', Ok acc')) :
  (exists r, acc' = deny acc k s r /\ w' = w) \/
  exists grant w1 w2 request handle, subscribed options c subject grant /\ grantKey grant = k /\
    randomUUID w = (w1, claim grant) /\ createShape (engine options) request (claim grant) w1 = (w2, Ok handle) /\ handleShape handle = shapeId grant /\ w' = w2 /\
    acc' = mkBatch (batchGranted acc ++ [toGranted grant]) (batchDenied acc) (batchGrants acc ++ [grant]).
Proof.
  unfold subscribeScope in H. apply st_bind_Ok in H as (w0 & answer & Hc & H). apply compiled_Ok in Hc as [-> Hc].
  destruct answer as [tier request|r]; [|injection H as <- <-; left; by eexists].
  destruct (match tier with shared => _ | private => _ end) eqn:Ed; [injection H as <- <-; left; by eexists|].
  apply st_bind_Ok in H as (w1 & id & Hu & H). unfold uuid in Hu. destruct (randomUUID w) as [wu idu] eqn:Eu. injection Hu as <- <-.
  apply st_bind_Ok in H as (w2 & handle & Hh & H). apply st_bind_Ok in H as (w3 & [] & Hr & H). apply claim_checked in Hr as [-> Hr].
  apply st_bind_Ok in H as (w4 & [] & Hl & H). apply release_on_throw, lease_checked in Hl as [-> Hl]. injection H as <- <-. right.
  exists (mkGrant (streamPath handle) k (handleShape handle) idu s (match tier with private => Some (fingerprint numberText sha256 request) | shared => None end)),
    wu, w2, request, handle. split; [|done].
  exists tier, request, handle. cbn [grantKey grantScope fp claim shapeId path]. split; [|split; [done|split; [by exists wu, w2|done]]].
  split; [exact Hc|]. specialize (Hscope _ _ Hc). destruct tier; [|done]. destruct Hscope as (set & values & He & Hready & ->). exists set, values.
  repeat split; try done. apply negb_false_iff in Ed. unfold permitted in Ed. by rewrite He in Ed.
Qed.

Definition scope_fits (options : Options) (c : option Claims) (k : jsstr) (s : option (list (PredicateValue N))) : Prop :=
  forall tier request, compiles options c k s (Create tier request) ->
    match tier with shared => exists set values, entitlements options = Some set /\ ready set = true /\ s = Some values | private => s = None end.

Lemma expand_spec (options : Options) c subject k (w w' : W) expanded : expandToScopes options subject k w = (w', Ok expanded) ->
  w' = w /\ match expanded with inl _ => True | inr scopes => Forall (scope_fits options c k) scopes end.
Proof.
  unfold expandToScopes.
  assert (Hnone : forall tier', (forall s tier, (entry ← resolveEntryByShapeKey (registry options) k; shape entry) = Some s -> readShapeTier s = Ok tier -> tier = tier') ->
    tier' = private -> scope_fits options c k None).
  { intros tier' Ht -> tier request (entry & s & sub' & He & Hs & _ & Htier & _)%compile_create. cbn [requestedKey] in He. rewrite He in Ht. cbn [mbind option_bind] in Ht.
    destruct tier; [|done]. by specialize (Ht s shared Hs Htier). }
  destruct (entry ← resolveEntryByShapeKey (registry options) k; shape entry) as [s|] eqn:Es.
  - intros (w1 & tier & Ht & H)%st_bind_Ok. apply compiled_Ok in Ht as [-> Ht]. destruct tier.
    + destruct (entitlements options) as [set|] eqn:Ee; [|by injection H as <- <-]. destruct (ready set) eqn:Er; cbn [negb] in H; [|done].
      destruct (scopesFor set subject k) as [|s1 scopes]; [by injection H as <- <-|]. injection H as <- <-. split; [done|].
      change (Some s1 :: _) with (Some <$> (s1 :: scopes)). apply Forall_fmap, Forall_true. intros values tier request (entry & s' & sub' & He & Hs & _ & Htier & _)%compile_create.
      cbn [requestedKey] in He. rewrite He in Es. cbn [mbind option_bind] in Es. rewrite Hs in Es. injection Es as ->. rewrite Ht in Htier. injection Htier as <-. by exists set, values.
    + injection H as <- <-. split; [done|]. apply Forall_singleton. apply (Hnone private); [|done]. intros s' tier [= <-] Ht'. congruence.
  - intros [= <- <-]. split; [done|]. apply Forall_singleton. by apply (Hnone private).
Qed.

(** A batch keeps what denials and grants keep. *)
Lemma subscribe_inv (options : Options) c subject (P : W -> Batch -> Prop)
    (Hdeny : forall w acc k s r, P w acc -> P w (deny acc k s r))
    (Hgrant : forall w acc grant w1 w2 request handle, P w acc -> subscribed options c subject grant -> randomUUID w = (w1, claim grant) ->
      createShape (engine options) request (claim grant) w1 = (w2, Ok handle) -> handleShape handle = shapeId grant ->
      P w2 (mkBatch (batchGranted acc ++ [toGranted grant]) (batchDenied acc) (batchGrants acc ++ [grant]))) :
  forall requests acc w w' acc', P w acc ->
    each (subscribeRequest emptyClaims randomUUID numberText sha256 options c (Some subject)) acc requests w = (w', Ok acc') -> P w' acc'.
Proof.
  intros requests acc w w' acc' Hp H. refine (each_inv _ P (fun _ => True) _ requests acc w w' acc' _ Hp H); [|by apply Forall_true].
  clear -Hdeny Hgrant. intros acc k w w' acc' _ Hp H. unfold subscribeRequest in H. apply st_bind_Ok in H as (w1 & expanded & He & H).
  apply (expand_spec options c) in He as [-> Hs]. destruct expanded as [r|scopes]; [injection H as <- <-; by apply Hdeny|].
  refine (each_inv _ P (scope_fits options c k) _ scopes acc w w' acc' Hs Hp H). clear -Hdeny Hgrant. intros acc s w w' acc' Hfit Hp H.
  apply subscribeScope_spec in H as [(r & -> & ->)|(grant & w1 & w2 & request & handle & Hsub & _ & Hu & Hc & Hh & -> & ->)]; [by apply Hdeny| |done].
  by eapply Hgrant.
Qed.

Lemma subscribe_nobody (options : Options) c requests acc w w' acc' : batchGrants acc = [] -> batchGranted acc = [] ->
  each (subscribeRequest emptyClaims randomUUID numberText sha256 options c None) acc requests w = (w', Ok acc') ->
  w' = w /\ batchGrants acc' = [] /\ batchGranted acc' = [].
Proof.
  intros H1 H2 H. refine (each_inv _ (fun w1 acc => w1 = w /\ batchGrants acc = [] /\ batchGranted acc = []) (fun _ => True) _ requests acc w w' acc' _ _ H);
    [|by apply Forall_true|done]. intros ? k ? ? ? _ (-> & ? & ?) [= <- <-]. done.
Qed.

(** *** The re-mint *)

Inductive revocation (options : Options) (c : option Claims) (subject : jsstr) (grant : StreamGrant N) : Reason -> Prop :=
| revoked_refused r : compiles options c (grantKey grant) (grantScope grant) (Deny r) -> revocation options c subject grant (Refused r)
| revoked_unprinted : grantScope grant = None -> fp grant = None -> revocation options c subject grant NoFingerprint
| revoked_changed tier request print : grantScope grant = None -> compiles options c (grantKey grant) None (Create tier request) -> fp grant = Some print ->
    fingerprint numberText sha256 request <> print -> revocation options c subject grant PredicateChanged
| revoked_unconfigured s : grantScope grant = Some s -> entitlements options = None -> revocation options c subject grant NoEntitlementSet
| revoked_unentitled s set : grantScope grant = Some s -> entitlements options = Some set -> ready set = true -> permits set subject (grantKey grant) s = false ->
    revocation options c subject grant NotEntitled
| revoked_conflict request w w' : createShape (engine options) request (claim grant) w = (w', Throw (EngineFailed (Some 409))) ->
    revocation options c subject grant HeldByAnotherShape
| revoked_moved request handle : answered options request (claim grant) handle -> (handleShape handle <> shapeId grant \/ streamPath handle <> path grant) ->
    revocation options c subject grant StreamChanged.

(** A grant the re-mint keeps: authorized again, the same predicate, and its claim renewed on the same stream. *)
Definition renewed (options : Options) (c : option Claims) (subject : jsstr) (grant : StreamGrant N) : Prop :=
  exists tier request handle, compiles options c (grantKey grant) (grantScope grant) (Create tier request) /\
    match grantScope grant with
    | None => fp grant = Some (fingerprint numberText sha256 request)
    | Some s => exists set, entitlements options = Some set /\ ready set = true /\ permits set subject (grantKey grant) s = true
    end /\
    answered options request (claim grant) handle /\ handleShape handle = shapeId grant /\ streamPath handle = path grant /\ lease_covers options handle.

Lemma renew_spec (options : Options) request grant w w' outcome : renewGrantClaim options request grant w = (w', Ok outcome) ->
  match outcome with
  | None => exists handle, answered options request (claim grant) handle /\ handleShape handle = shapeId grant /\ streamPath handle = path grant /\ lease_covers options handle
  | Some r => (r = HeldByAnotherShape /\ exists w1, createShape (engine options) request (claim grant) w = (w1, Throw (EngineFailed (Some 409)))) \/
      (r = StreamChanged /\ exists handle, answered options request (claim grant) handle /\ (handleShape handle <> shapeId grant \/ streamPath handle <> path grant))
  end.
Proof.
  unfold renewGrantClaim. destruct (createShape (engine options) request (claim grant) w) as [w1 [handle|e]] eqn:Ec.
  - intros (w2 & [] & Hr & H)%st_bind_Ok. apply claim_checked in Hr as [-> Hr]. assert (answered options request (claim grant) handle) as Ha by (by exists w, w1).
    destruct (negb _ || negb _) eqn:En.
    + apply st_bind_Ok in H as (w3 & [] & _ & H). injection H as _ <-. right. split; [done|]. exists handle. split; [done|].
      apply orb_true_iff in En as [En%negb_true_iff%bool_decide_eq_false|En%negb_true_iff%bool_decide_eq_false]; auto.
    + apply st_bind_Ok in H as (w3 & [] & Hl & H). injection H as _ <-. apply lease_checked in Hl as [_ Hl]. exists handle.
      apply orb_false_iff in En as [En1%negb_false_iff%bool_decide_eq_true En2%negb_false_iff%bool_decide_eq_true]. done.
  - destruct e as [[code|]| | | |]; try done. destruct (Z.eq_dec code 409) as [->|Hc].
    + intros [= _ <-]. left. split; [done|]. by exists w1.
    + intros H. exfalso. repeat (match type of H with context [match ?x with _ => _ end] => is_var x; destruct x end; try done).
Qed.

Lemma refreshGrant_spec (options : Options) c subject grant w w' outcome :
  refreshGrant emptyClaims numberText sha256 options c subject grant w = (w', Ok outcome) ->
  match outcome with None => renewed options c subject grant | Some r => revocation options c subject grant r end.
Proof.
  unfold refreshGrant. destruct (grantScope grant) as [s|] eqn:Es.
  - destruct (entitlements options) as [set|] eqn:Ee; [|intros [= _ <-]; by eapply revoked_unconfigured].
    destruct (ready set) eqn:Er; cbn [negb]; [|done]. destruct (permits set subject (grantKey grant) s) eqn:Ep; cbn [negb]; [|intros [= _ <-]; by eapply revoked_unentitled].
    intros (w1 & answer & Hc & H)%st_bind_Ok. apply compiled_Ok in Hc as [-> Hc]. destruct answer as [tier request|r].
    + apply renew_spec in H. destruct outcome as [r|].
      * destruct H as [[-> [w1 H]]|[-> (handle & Ha & Hd)]]; [by eapply revoked_conflict|by eapply revoked_moved].
      * destruct H as (handle & Ha & Hd). exists tier, request, handle. rewrite Es. split; [done|]. split; [by exists set|done].
    + injection H as _ <-. apply revoked_refused. by rewrite Es.
  - intros (w1 & answer & Hc & H)%st_bind_Ok. apply compiled_Ok in Hc as [-> Hc]. destruct answer as [tier request|r].
    + destruct (fp grant) as [print|] eqn:Ef; [|injection H as _ <-; by apply revoked_unprinted].
      destruct (bool_decide (fingerprint numberText sha256 request = print)) eqn:Ed; cbn [negb] in H.
      * apply bool_decide_eq_true in Ed as <-. apply renew_spec in H. destruct outcome as [r|].
        -- destruct H as [[-> [w1 H]]|[-> (handle & Ha & Hd)]]; [by eapply revoked_conflict|by eapply revoked_moved].
        -- destruct H as (handle & Ha & Hd). exists tier, request, handle. rewrite Es. split; [done|]. split; [done|done].
      * injection H as _ <-. apply bool_decide_eq_false in Ed. by eapply revoked_changed.
    + injection H as _ <-. apply revoked_refused. by rewrite Es.
Qed.

(** A refresh decides every grant: it keeps those it renewed and revokes the others, each for a reason. *)
Lemma refresh_each (options : Options) c subject l : forall acc w w' acc',
  each (refreshStep emptyClaims numberText sha256 options c subject) acc l w = (w', Ok acc') ->
  exists outcomes : list (option Reason),
    Forall2 (fun grant outcome => match outcome with None => renewed options c subject grant | Some r => revocation options c subject grant r end) l outcomes /\
    acc'.1 = acc.1 ++ omap (fun d => match d.2 with None => Some d.1 | Some _ => None end) (zip l outcomes) /\
    acc'.2 = acc.2 ++ omap (fun d => mkDenied (grantKey d.1) (grantScope d.1) <$> d.2) (zip l outcomes).
Proof.
  induction l as [|grant l IH]; intros acc w w' acc'.
  - intros [= <- <-]. exists []. by rewrite !app_nil_r.
  - cbn [each]. intros (w1 & acc1 & H1 & H2)%st_bind_Ok. unfold refreshStep in H1. apply st_bind_Ok in H1 as (w2 & outcome & Ho & H1).
    apply refreshGrant_spec in Ho. apply IH in H2 as (outcomes & Hf & E1 & E2). exists (outcome :: outcomes). split; [by constructor|].
    destruct outcome as [r|]; injection H1 as <- <-; cbn [fst snd] in E1, E2; rewrite E1, E2; cbn; by rewrite <- ?app_assoc.
Qed.

(** *** Claims at the engine *)

(** The engine keeps its claims in a ledger: a create that answers has taken the claim under the name it was given, a
    release that answers has dropped it and no other, and a new identifier names no claim yet. *)
Class LawfulEngine (engine : @Engine N W) (ledger : W -> gset (jsstr * jsstr)) : Prop := {
  create_takes : forall request id w w' handle, createShape engine request id w = (w', Ok handle) -> ledger w' = {[(handleShape handle, id)]} ∪ ledger w;
  release_drops : forall s id w w', releaseShape engine s id w = (w', Ok tt) -> ledger w' = ledger w ∖ {[(s, id)]};
  uuid_fresh : forall w w' id, randomUUID w = (w', id) -> ledger w' = ledger w /\ forall s, (s, id) ∉ ledger w }.

Definition claimsOf (gs : list (StreamGrant N)) : gset (jsstr * jsstr) := list_to_set ((fun grant => (shapeId grant, claim grant)) <$> gs).

Lemma release_all (e : @Engine N W) ledger `{!LawfulEngine e ledger} gs w w' :
  forM (fun grant => releaseShape e (shapeId grant) (claim grant)) gs w = (w', Ok tt) -> ledger w' = ledger w ∖ claimsOf gs.
Proof using Type.
  clear emptyClaims subjectOf verify sign stringify parse sha256 numberText.
  revert w. induction gs as [|grant gs IH]; intros w; [intros [= <-]; set_solver|]. cbn [forM]. intros (w1 & [] & H1 & H2)%st_bind_Ok.
  apply release_drops in H1. apply IH in H2. rewrite H2, H1. unfold claimsOf. cbn. set_solver.
Qed.

Lemma subscribe_ledger (options : Options) ledger `{!LawfulEngine (engine options) ledger} c subject requests w w' acc' :
  each (subscribeRequest emptyClaims randomUUID numberText sha256 options c (Some subject)) (mkBatch [] [] []) requests w = (w', Ok acc') ->
  claimsOf (batchGrants acc') ## ledger w /\ ledger w' = claimsOf (batchGrants acc') ∪ ledger w.
Proof using Type.
  clear subjectOf verify sign stringify parse.
  apply (subscribe_inv options c subject (fun w1 acc => claimsOf (batchGrants acc) ## ledger w /\ ledger w1 = claimsOf (batchGrants acc) ∪ ledger w)); [done| |unfold claimsOf; cbn; set_solver].
  intros w1 acc grant w2 w3 request handle [Hd Hl] _ Hu Hc Hh. apply uuid_fresh in Hu as [Hu Hf]. apply create_takes in Hc. cbn [batchGrants].
  assert (claimsOf (batchGrants acc ++ [grant]) = claimsOf (batchGrants acc) ∪ {[(shapeId grant, claim grant)]}) as ->.
  { unfold claimsOf. rewrite fmap_app, list_to_set_app_L. cbn. set_solver. }
  specialize (Hf (shapeId grant)). rewrite Hl in Hf. rewrite Hc, Hu, Hl, Hh. split; set_solver.
Qed.

Lemma subscribe_batch (options : Options) c subject requests w w' acc' :
  each (subscribeRequest emptyClaims randomUUID numberText sha256 options c (Some subject)) (mkBatch [] [] []) requests w = (w', Ok acc') ->
  batchGranted acc' = toGranted <$> batchGrants acc' /\ Forall (subscribed options c subject) (batchGrants acc').
Proof using Type.
  apply (subscribe_inv options c subject (fun _ acc => batchGranted acc = toGranted <$> batchGrants acc /\ Forall (subscribed options c subject) (batchGrants acc)));
    [done| |done].
  intros _ ? grant ? ? ? ? [Hg Hf] Hs _ _ _. cbn [batchGranted batchGrants]. rewrite Hg, fmap_app. split; [done|]. apply Forall_app. split; [done|by constructor].
Qed.
End ControlLaws.

(** ** Properties *)

Section ControlProperties.
Import Predicate Shapes Fingerprint StreamToken Control.
Context {N Key Claims Params Cell W : Type}.
Context (emptyClaims : Claims) (subjectOf : Claims -> option jsstr) (randomUUID : W -> W * jsstr).
Context (numberText : N -> jsstr) (sha256 : list Z -> list Z).
Context (sign : Key -> list Z -> list Z) (verify : Key -> list Z -> list Z -> bool).
Context (stringify : StreamTokenClaims N -> jsstr) (parse : jsstr -> option (StreamTokenClaims N)).
Abbreviation Options := (@SubscribeOptions N Key Claims Params Cell W).
Abbreviation subscribe := (subscribeToShapes emptyClaims subjectOf randomUUID numberText sha256 sign stringify).
Abbreviation refresh := (refreshStreamToken emptyClaims subjectOf numberText sha256 sign verify stringify parse).
Abbreviation release := (releaseStreamGrants subjectOf verify parse).

(** C16. A subscription that answers grants nothing it did not authorize. The token is minted for the caller's subject
    and carries exactly the grants reported; each is for a shape the claims compile to now, at a scope the entitlement
    set permits in the shared tier and with the fingerprint of the compiled request in the private one, and for a
    claim the engine recorded under the grant's own name for exactly that request. *)
Theorem subscribe_authorizes (options : Options) (c : option Claims) (requests : list jsstr) (now : Z) (w w' : W) result
    (H : subscribe options c requests now w = (w', Ok result)) :
  exists gs, granted result = toGranted <$> gs /\
    match token result with
    | None => gs = []
    | Some tok => exists subject, c ≫= subjectOf = Some subject /\ tok = mint sign stringify options subject gs now /\
        Forall (subscribed emptyClaims numberText sha256 options c subject) gs
    end.
Proof.
  unfold subscribeToShapes in H. apply st_bind_Ok in H as (w1 & acc & Hacc & H). destruct (c ≫= subjectOf) as [subject|] eqn:Es.
  - apply subscribe_batch in Hacc as [Hg Hf].
    exists (batchGrants acc). destruct (batchGrants acc) as [|g gs] eqn:Eg; injection H as <- <-; cbn [granted token]; [by rewrite Hg|]. split; [done|]. by exists subject.
  - apply subscribe_nobody in Hacc as (-> & Eg & Egr); [|done..]. injection H as <- <-. exists []. by rewrite Egr.
Qed.

(** C17. A re-mint keeps only what is authorized again, and revokes only for a reason. When it answers with anything, the
    token was signed, and names the caller; every grant of the token is decided: kept when the current claims compile
    to its request, the entitlement set permits its scope or its fingerprint is unchanged, and the engine renewed its
    claim on the same stream; revoked when one of those was answered with no. A set that is not ready and an engine
    that fails with anything but a conflict revoke nothing: the re-mint throws. *)
Theorem refresh_reauthorizes (options : Options) (c : option Claims) (text : jsstr) (now : Z) (w w' : W) result
    (H : refresh options c text now w = (w', Ok result)) (Hsome : kept result <> [] \/ revoked result <> [] \/ newToken result <> None) :
  exists claims outcomes, verifyStreamToken verify parse (key options) text now true = inr claims /\ c ≫= subjectOf = Some (sub claims) /\
    Forall2 (fun grant (outcome : option Reason) => match outcome with
      | None => renewed emptyClaims numberText sha256 options c (sub claims) grant
      | Some r => revocation emptyClaims numberText sha256 options c (sub claims) grant r end) (grants claims) outcomes /\
    kept result = omap (fun d => match d.2 with None => Some d.1 | Some _ => None end) (zip (grants claims) outcomes) /\
    revoked result = omap (fun d => mkDenied (grantKey d.1) (grantScope d.1) <$> d.2) (zip (grants claims) outcomes) /\
    newToken result = match kept result with [] => None | gs => Some (mint sign stringify options (sub claims) gs now) end.
Proof.
  unfold refreshStreamToken in H. destruct (verifyStreamToken verify parse (key options) text now true) as [r|claims] eqn:Ev; [injection H as <- <-; naive_solver|].
  destruct (c ≫= subjectOf) as [subject|] eqn:Es; [|injection H as <- <-; naive_solver].
  destruct (bool_decide (sub claims = subject)) eqn:Eb; cbn [negb] in H; [|injection H as <- <-; naive_solver]. apply bool_decide_eq_true in Eb as <-.
  apply st_bind_Ok in H as (w1 & acc & Hacc & H). apply refresh_each in Hacc as (outcomes & Hf & E1 & E2). cbn [fst snd app] in E1, E2.
  exists claims, outcomes. split; [done|]. split; [done|]. split; [done|].
  destruct acc.1 as [|g gs] eqn:Ek; injection H as <- <-; cbn [kept revoked newToken]; rewrite <- E1, <- E2; done.
Qed.

(** What a session took it gives back. The claims a subscription took at the engine are new ones, one for each
    grant; and releasing its token, at any later time, expired or not and whatever other sessions did meanwhile,
    answers with their number once the engine has dropped exactly them. *)
Theorem release_returns_claims (options : Options) (ledger : W -> gset (jsstr * jsstr)) (c : option Claims) (subject text : jsstr) (requests : list jsstr)
    (now : Z) (w w' : W) result
    (Hclaims : LawfulClaims stringify parse) (Hsign : LawfulSignatures sign verify) (Hengine : LawfulEngine randomUUID (engine options) ledger)
    (Hsubject : c ≫= subjectOf = Some subject) (Hnamed : subject <> [])
    (H : subscribe options c requests now w = (w', Ok result)) (Htoken : token result = Some text) :
  exists claims, claims ## ledger w /\ ledger w' = claims ∪ ledger w /\
    forall later v v' answer, release options c text later v = (v', Ok answer) ->
      answer = inr (length (granted result)) /\ ledger v' = ledger v ∖ claims.
Proof.
  unfold subscribeToShapes in H. rewrite Hsubject in H. apply st_bind_Ok in H as (w1 & acc & Hacc & H).
  pose proof (subscribe_ledger emptyClaims randomUUID numberText sha256 options ledger c subject requests w w1 acc Hacc) as [Hd Hl]. apply subscribe_batch in Hacc as [Hg _].
  destruct (batchGrants acc) as [|g gs'] eqn:Eg; injection H as <- <-; [done|]. cbn [token granted] in *. injection Htoken as Htoken.
  exists (claimsOf (g :: gs')). split; [done|]. split; [done|]. intros later v v' answer Hr.
  unfold releaseStreamGrants in Hr. rewrite Hsubject in Hr. destruct subject as [|x subject]; [done|]. rewrite <- Htoken in Hr. unfold mint in Hr.
  rewrite verify_mint in Hr by done. rewrite andb_false_r in Hr. cbn [minted sub] in Hr. rewrite bool_decide_true in Hr by done. cbn [negb] in Hr.
  apply st_bind_Ok in Hr as (v1 & [] & Hrel & Hr). injection Hr as <- <-. apply (release_all randomUUID (engine options) ledger) in Hrel. split; [|done].
  rewrite Hg. cbn [minted grants]. by rewrite length_fmap.
Qed.
End ControlProperties.

Section EdgeProperties.
Import Predicate Shapes StreamToken Control Edge.
Context {N Key Claims Params Cell X Body : Type}.
Context (verify : Key -> list Z -> list Z -> bool).
Context (stringify : StreamTokenClaims N -> jsstr) (parse : jsstr -> option (StreamTokenClaims N)).
Abbreviation GateOptions := (@StreamGateOptions N Key Claims Params Cell).

Lemma verified (k : Key) token now allowExpired claims : verifyStreamToken verify parse k token now allowExpired = inr claims ->
  exists body signature, verify k signature (utf8_encode (HEADER ++ [DOT] ++ body)) = true /\
    (bytes ← Base64.base64UrlDecode body; parse (textDecode bytes)) = Some claims /\ (allowExpired = true \/ now < exp claims).
Proof.
  unfold verifyStreamToken. destruct (splitOn DOT token) as [|header [|body [|signature [|]]]]; try discriminate.
  destruct (bool_decide (header = HEADER)) eqn:Eh; cbn [negb]; [|discriminate]. apply bool_decide_eq_true in Eh as ->.
  destruct (Base64.base64UrlDecode signature) as [sig|]; [|discriminate]. destruct (verify k sig _) eqn:Ev; cbn [negb]; [|discriminate].
  destruct (bytes ← Base64.base64UrlDecode body; parse (textDecode bytes)) as [claims'|] eqn:Ep; [|discriminate].
  destruct ((exp claims' <=? now) && negb allowExpired) eqn:Ee; [discriminate|]. intros [= <-]. exists body, sig. split; [done|]. split; [done|].
  destruct allowExpired; [by left|]. right. lia.
Qed.

(** C15. The edge lets nobody read what was not granted to them. Where nobody can sign but the control plane, a read that
    is allowed carries the grant of a token the control plane issued to that very subject, for exactly the path asked
    for and not past its expiry; and in the shared tier the entitlement set is ready and permits its scope right now. *)
Theorem gate_allows_only_issued (issued : StreamTokenClaims N -> Prop) (options : GateOptions) (token : option jsstr) (p : jsstr) (now : Z) grant subject
    (Hclaims : LawfulClaims stringify parse)
    (Hunforgeable : forall signature message, verify (gateKey options) signature message = true ->
      exists claims, issued claims /\ message = utf8_encode (input stringify claims))
    (H : authorizeStreamRead verify parse options token p now = Allow grant subject) :
  exists claims, issued claims /\ sub claims = subject /\ grant ∈ grants claims /\ path grant = p /\ now < exp claims /\
    match grantScope grant with
    | None => True
    | Some s => exists set, gateEntitlements options = Some set /\ ready set = true /\ permits set subject (grantKey grant) s = true
    end.
Proof.
  unfold authorizeStreamRead in H. destruct token as [[|x text]|]; [done| |done].
  destruct (verifyStreamToken verify parse (gateKey options) (x :: text) now false) as [r|claims] eqn:Ev; [done|].
  destruct (findGrant claims p) as [g|] eqn:Ef; [|done]. unfold findGrant in Ef. apply find_some in Ef as [Hin Hp%bool_decide_eq_true].
  apply verified in Ev as (body & signature & Hv & Hbody & [?|Hexp]); [done|]. apply Hunforgeable in Hv as (claims' & Hissued & Em).
  assert (Ebody : HEADER ++ [DOT] ++ body = input stringify claims').
  { pose proof (ascii_input stringify parse claims') as Ha. rewrite (ascii_encode _ Ha) in Em. rewrite <- Em. symmetry. apply utf8_ascii.
    rewrite Em. eapply Forall_impl; [exact Ha|]. cbn. lia. }
  unfold input in Ebody. apply app_inv_head, app_inv_head in Ebody as ->. rewrite (payload_read stringify parse) in Hbody. injection Hbody as <-.
  exists claims'. split; [done|]. apply list_elem_of_In in Hin.
  destruct (grantScope g) as [s|] eqn:Es; [|injection H as <- <-; rewrite Es; done].
  destruct (gateEntitlements options) as [set|] eqn:Ee; [|done]. destruct (ready set) eqn:Er; cbn [negb] in H; [|done].
  destruct (permits set (sub claims') (grantKey g) s) eqn:Eperm; cbn [negb] in H; [|done]. injection H as <- <-. rewrite Es.
  repeat (split; [done|]). by exists set.
Qed.

(** What the edge makes of one envelope. *)
Definition rewrites (options : GateOptions) (transform : gmap jsstr Cell -> jsstr -> option Params -> result unit (gmap jsstr Cell)) (keep : list jsstr) (subject : jsstr)
    (before after : @ProxiedEnvelope Cell X) : Prop :=
  others after = others before /\ match value before with
  | None => value after = None
  | Some row => exists made, transform row subject (gateParams options) = Ok made /\
      forall column, default ∅ (value after) !! column = (if decide (column ∈ keep) then made !! column else None)
  end.

Lemma rewriteEnvelope_spec (options : GateOptions) transform keep subject before after :
  rewriteEnvelope transform keep subject (gateParams options) before = Ok after -> rewrites options transform keep subject before after.
Proof.
  unfold rewriteEnvelope, rewrites. destruct (value before) as [row|] eqn:Eval; [|by intros [= <-]]. intros (made & Hm & [= <-])%bind_Ok. cbn [others value].
  split; [done|]. exists made. split; [done|]. intros column. change (default ∅ (Some ?m) !! column) with (m !! column). case_decide as Hk.
  - destruct (made !! column) as [cell|] eqn:Ec; [by apply map_lookup_filter_Some_2|by apply map_lookup_filter_None_2; left].
  - apply map_lookup_filter_None_2. right. intros cell _. done.
Qed.

Lemma rewriteEnvelopes_spec (options : GateOptions) transform keep subject sent : forall rewritten,
  mapR (rewriteEnvelope transform keep subject (gateParams options)) sent = Ok rewritten -> Forall2 (rewrites options transform keep subject) sent rewritten.
Proof.
  induction sent as [|before sent IH]; intros rewritten Hr; [injection Hr as <-; constructor|].
  cbn [mapR] in Hr. apply bind_Ok in Hr as (after & Ha & (rest & Hrest & [= <-])%bind_Ok). constructor; [by apply rewriteEnvelope_spec|by apply IH].
Qed.

Definition uncached (headers : gmap jsstr jsstr) : Prop := headers !! CACHE_CONTROL = Some (js "private, no-store") /\ headers !! js "etag" = None.

Lemma egress_uncached upstream : uncached (rewrittenEgressHeaders upstream).
Proof. unfold uncached, rewrittenEgressHeaders. split; [apply lookup_insert_eq|]. rewrite lookup_insert_ne by done. apply lookup_delete_eq. Qed.

(** C19. Rows of a shape with an egress transform leave the edge rewritten. For an allowed read of such a shape, every
    object of the answer is what the transform makes, for the token's subject, of the object the stream held, cut down
    to the columns of the client's local table; the answer is not to be stored and has no validator; a read is refused
    as not acceptable only where it asks for an event stream; and a body is passed on as it came only from an answer that is not a successful read of JSON. *)
Theorem egress_is_rewritten (options : GateOptions) (fetch : jsstr -> @Fetched Cell X Body) (request : ReadRequest) (p : jsstr) (now : Z)
    grant subject entry transform response
    (Hallow : authorizeStreamRead verify parse options (readStreamToken (authorization request)) p now = Allow grant subject)
    (Hentry : resolveEntryByShapeKey (gateRegistry options) (grantKey grant) = Some entry) (Htransform : rowTransform entry = Some transform)
    (H : handleStreamRead verify parse options fetch request p now = Ok response) :
  match response with
  | Forbidden _ => False
  | NotAcceptable => asksForSse request = true
  | ClosedRequest => fetch p = Aborted \/ exists upstream, fetch p = Answered upstream /\ json upstream = Some BodyAborted
  | PassThrough upstream => fetch p = Answered upstream /\ status upstream = 499
  | Untouched code out _ => uncached out /\
      exists upstream, fetch p = Answered upstream /\ code = status upstream /\ (json upstream = None \/ code <> 200 \/ method request = js "HEAD")
  | Rewritten code out made => uncached out /\ code = 200 /\
      exists upstream, fetch p = Answered upstream /\
        match json upstream, made with
        | Some (Batch sent), Batch made => Forall2 (rewrites options transform (localTable entry) subject) sent made
        | Some (Single sent), Single made => rewrites options transform (localTable entry) subject sent made
        | _, _ => False
        end
  end.
Proof.
  unfold handleStreamRead in H. rewrite Hallow, Hentry in H. cbn [mbind option_bind] in H. rewrite Htransform in H. cbn [mbind option_bind] in H.
  destruct (asksForSse request) eqn:Ese; [by injection H as <-|]. destruct (fetch p) as [upstream| |] eqn:Ef; [|injection H as <-; by left|done].
  destruct (Z.eqb_spec (status upstream) 499) as [E499|_]; [by injection H as <-|]. pose proof (egress_uncached (headers upstream)) as Hout.
  destruct (bool_decide (method request = js "HEAD") || negb (status upstream =? 200)) eqn:Eh.
  - injection H as <-. split; [done|]. exists upstream. repeat (split; [done|]). right.
    apply orb_true_iff in Eh as [Eh%bool_decide_eq_true|Eh]; [by right|]. left. lia.
  - apply orb_false_iff in Eh as [_ Eh]. destruct (json upstream) as [[sent|sent| |]|] eqn:Eb.
    + apply bind_Ok in H as (rewritten & Hr & [= <-]). split; [done|]. split; [lia|]. exists upstream. split; [done|]. rewrite Eb. by apply rewriteEnvelopes_spec.
    + apply bind_Ok in H as (rewritten & Hr & [= <-]). split; [done|]. split; [lia|]. exists upstream. split; [done|]. rewrite Eb. by apply rewriteEnvelope_spec.
    + injection H as <-. right. by exists upstream.
    + done.
    + injection H as <-. split; [done|]. exists upstream. auto.
Qed.
End EdgeProperties.

(** ** The barrier *)

Section BarrierProperties.
Import Control EngineClient.
Context {N W Claims : Type} (fetch : @EngineCall N -> W -> W * option HttpAnswer) (maxAge : Z).
Abbreviation handle := (@handleBarrier N W fetch Claims).

(** A request the route has served: who asked, when, in which world, and the answer. *)
Record BarrierStep : Type := mkStep { stepNow : Z; stepWorld : W; stepAnswer : result ControlError (Response BarrierBody) }.

(** The route's cache after the requests it served, whatever the world did between them. *)
Inductive served : list BarrierStep -> option CachedBarrier -> Prop :=
| served_none : served [] None
| served_step trace cached resolve now w cached' w' answer :
    served trace cached -> handle resolve maxAge now (cached, w) = ((cached', w'), answer) -> served (mkStep now w answer :: trace) cached'.

(** The engine reported these counters in a world. *)
Definition reported (w : W) (body : BarrierBody) : Prop :=
  exists w' state, replicationState fetch w = (w', Ok state) /\ body = mkBarrier (pendingFlips state) (flipFailures state).

Definition stored (trace : list BarrierStep) (entry : CachedBarrier) : Prop :=
  barrierFailures (cachedBody entry) <= 0 /\
  exists step, step ∈ trace /\ stepNow step = at_ entry /\ stepAnswer step = Ok (Json (cachedBody entry)) /\ reported (stepWorld step) (cachedBody entry).

Lemma askEngine_spec now cached w cached' w' answer : askEngine fetch now cached w = ((cached', w'), answer) ->
  match answer with
  | Ok response => exists body, response = Json body /\ reported w body /\ (cached' = None \/ (cached' = Some (mkCached now body) /\ barrierFailures body <= 0))
  | Throw _ => cached' = cached
  end.
Proof.
  unfold askEngine. destruct (replicationState fetch w) as [w1 [state|e]] eqn:Er; [|by intros [= <- _ <-]].
  intros [= <- _ <-]. exists (mkBarrier (pendingFlips state) (flipFailures state)). split; [done|]. split; [by exists w1, state|].
  cbn [barrierFailures]. destruct (Z.ltb_spec 0 (flipFailures state)); [by left|]. right. split; [done|lia].
Qed.

Lemma handle_cases resolve now cached w cached' w' answer : handle resolve maxAge now (cached, w) = ((cached', w'), answer) ->
  (cached' = cached /\ answer = Ok (Status 401)) \/
  (exists entry, cached = Some entry /\ cached' = cached /\ now - at_ entry < maxAge /\ answer = Ok (Json (cachedBody entry))) \/
  askEngine fetch now cached w = ((cached', w'), answer).
Proof.
  unfold handleBarrier. intros H. assert (resolve = Some None \/
    (match cached with Some entry => if now - at_ entry <? maxAge then ((cached, w), Ok (Json (cachedBody entry))) else askEngine fetch now cached w
     | None => askEngine fetch now cached w end) = ((cached', w'), answer)) as [->|H1] by (destruct resolve as [[]|]; auto).
  { left. by injection H. }
  right. clear H. rename H1 into H.
  destruct cached as [entry|]; [|by right]. destruct (Z.ltb_spec (now - at_ entry) maxAge); [left; injection H as <- _ <-; by exists entry|by right].
Qed.

Lemma served_stored trace cached : served trace cached -> match cached with Some entry => stored trace entry | None => True end.
Proof.
  assert (Hmono : forall step trace entry, stored trace entry -> stored (step :: trace) entry).
  { intros step l entry [Hf (s & Hin & Hs)]. split; [done|]. exists s. split; [by right|done]. }
  induction 1 as [|trace cached resolve now w cached' w' answer _ IH H]; [done|].
  apply handle_cases in H as [[-> _]|[(entry & -> & -> & _)|H]]; [destruct cached; auto|auto|]. apply askEngine_spec in H. destruct answer as [response|e].
  - destruct H as (body & -> & Hrep & [->|[-> Hf]]); [done|]. split; [done|]. eexists. split; [by left|]. done.
  - subst cached'. destruct cached; auto.
Qed.

(** The barrier never aligns a group against membership effects the engine has lost. Whatever requests the route
    has served, an answer is what the engine reports for this very request, or what it reported for an earlier one, less
    than [maxAge] ago and with no abandoned batch: a degraded reading is never served from the cache. *)
Theorem barrier_never_caches_degraded trace cached resolve now w s body (Htrace : served trace cached)
    (H : handle resolve maxAge now (cached, w) = (s, Ok (Json body))) :
  reported w body \/
  (barrierFailures body <= 0 /\ exists step, step ∈ trace /\ now - stepNow step < maxAge /\ stepAnswer step = Ok (Json body) /\ reported (stepWorld step) body).
Proof.
  apply served_stored in Htrace. destruct s as [cached' w'].
  apply handle_cases in H as [[_ [=]]|[(entry & -> & _ & Hage & [= ->])|H]].
  - right. destruct Htrace as [Hf (step & Hin & Hnow & Hs)]. split; [done|]. exists step. split; [done|]. split; [by rewrite Hnow|done].
  - apply askEngine_spec in H as (b & [= ->] & Hr & _). by left.
Qed.
End BarrierProperties.

(** ** Witnesses

    A registry with a private and a shared shape, an engine that keeps its claims in a list, claims printed in two
    letters, and a signature that is the key followed by the message. *)

Section Printing.
Import Predicate StreamToken.

#[export] Instance value_eq_dec : EqDecision (PredicateValue Z).
Proof. solve_decision. Defined.
#[export] Instance value_countable : Countable (PredicateValue Z).
Proof.
  refine (inj_countable'
    (fun v => match v with VString s => inl (inl s) | VNumber n => inl (inr n) | VBoolean b => inr (inl b) | VNull => inr (inr tt) end)
    (fun x => match x with inl (inl s) => VString s | inl (inr n) => VNumber n | inr (inl b) => VBoolean b | inr (inr _) => VNull end) _).
  by intros [].
Defined.
#[export] Instance grant_eq_dec : EqDecision (StreamGrant Z).
Proof. solve_decision. Defined.
#[export] Instance grant_countable : Countable (StreamGrant Z).
Proof.
  refine (inj_countable' (fun g => (path g, grantKey g, shapeId g, claim g, grantScope g, fp g)) (fun '(p, k, i, c, s, f) => mkGrant p k i c s f) _).
  by intros [].
Defined.
#[export] Instance claims_eq_dec : EqDecision (StreamTokenClaims Z).
Proof. solve_decision. Defined.
#[export] Instance claims_countable : Countable (StreamTokenClaims Z).
Proof. refine (inj_countable' (fun c => (sub c, grants c, iat c, exp c)) (fun '(s, g, i, e) => mkClaims s g i e) _). by intros []. Defined.

Fixpoint letters (p : positive) : jsstr := match p with xH => [] | xO p => 97 :: letters p | xI p => 98 :: letters p end.
Fixpoint fromLetters (s : jsstr) : positive := match s with [] => xH | c :: s => if c =? 97 then xO (fromLetters s) else xI (fromLetters s) end.
Lemma fromLetters_letters p : fromLetters (letters p) = p.
Proof. induction p as [p IH|p IH|]; cbn; [by rewrite IH..|done]. Qed.

Lemma letters_ascii p : Forall (fun c => 97 <= c <= 120) (letters p).
Proof. induction p; cbn; [constructor; [lia|done]..|constructor]. Qed.

Lemma letters_text s : Forall (fun c => 97 <= c <= 120) s -> wire_text s.
Proof.
  intros H. split; [split|].
  - eapply Forall_impl; [exact H|]. unfold code_unit. cbn. lia.
  - destruct H as [|c s Hc _]; cbn; [done|]. intros [= ->]. unfold BOM in Hc. lia.
  - unfold well_formed, utf8Length. generalize 0. induction H as [|c s Hc _ IH]; intros n; [by eexists|].
    cbn. rewrite (proj2 (Z.leb_le c 0x7f)) by lia. apply IH.
Qed.

(** The claims of the sessions below by a letter each, any others in two letters. *)
Definition annClaims (gs : list (StreamGrant Z)) (now : Z) : StreamTokenClaims Z := mkClaims (js "ann") gs now (now + 300).
Definition ownGrant : StreamGrant Z :=
  mkGrant (js "shape/cards") (js "own") (js "cards") (replicate 1 117) None (Some (Fingerprint.fingerprintShapeRequest tally (map (fun byte => byte mod 256)) own_created)).
Definition deckGrant : StreamGrant Z := mkGrant (js "shape/cards") (js "deck") (js "cards") (replicate 2 117) (Some [VString (js "d1")]) None.
Definition session : StreamTokenClaims Z := mkClaims (js "ann") [mkGrant (js "s1") (js "deck") (js "1") (js "u") (Some [VString (js "d1")]) None] 10 20.
Definition sessions : list (StreamTokenClaims Z) := [annClaims [ownGrant; deckGrant] 1000; annClaims [ownGrant] 5000; session].

Definition printed (c : StreamTokenClaims Z) : jsstr :=
  match list_find (.= c) sessions with Some (i, _) => [100 + Z.of_nat i] | None => letters (encode c) end.
Definition read (s : jsstr) : option (StreamTokenClaims Z) :=
  match s with
  | [c] => if 100 <=? c then sessions !! Z.to_nat (c - 100) else decode (fromLetters s)
  | s => decode (fromLetters s)
  end.

Lemma read_letters p : read (letters p) = decode p.
Proof.
  rewrite <- (fromLetters_letters p) at 2. pose proof (letters_ascii p) as H. unfold read.
  destruct p as [p|p|]; cbn [letters]; [destruct (letters p); [by rewrite (proj2 (Z.leb_gt 100 _)) by lia|done]..|done].
Qed.

#[export] Instance printed_lawful : LawfulClaims printed read.
Proof.
  split; intros c; unfold printed; destruct (list_find (.= c) sessions) as [[i c']|] eqn:E.
  - apply list_find_Some in E as (Hi & -> & _). unfold read. rewrite (proj2 (Z.leb_le _ _)) by lia. by replace (Z.to_nat (100 + Z.of_nat i - 100)) with i by lia.
  - by rewrite read_letters, decode_encode.
  - apply list_find_Some in E as (Hi & _ & _). apply lookup_lt_Some in Hi. cbn in Hi. apply letters_text. repeat constructor; lia.
  - apply letters_text, letters_ascii.
Defined.
End Printing.

Section World.
Import Predicate Shapes StreamToken Control Edge.

Definition World : Type := list (jsstr * jsstr).
Definition ledger (w : World) : gset (jsstr * jsstr) := list_to_set w.
Definition newName (w : World) : World * jsstr := (w, replicate (S (max_list ((fun entry => length entry.2) <$> w))) 117).
Definition engineOf (lease : Z) : @Engine Z World := mkEngine
  (fun request id w => ((table request, id) :: w, Ok (mkHandle (table request) (js "shape/" ++ table request) id lease)))
  (fun s id w => (filter (fun entry => entry <> (s, id)) w, Ok tt)).

Lemma max_list_bound n l : n ∈ l -> (n <= max_list l)%nat.
Proof. induction 1 as [|m n l _ IH]; cbn; lia. Qed.

Lemma engine_lawful lease : LawfulEngine newName (engineOf lease) ledger.
Proof.
  split.
  - intros request id w w' handle [= <- <-]. done.
  - intros s id w w' [= <-]. unfold ledger. apply set_eq. intros entry. rewrite elem_of_list_to_set, list_elem_of_filter, elem_of_difference, elem_of_list_to_set. set_solver.
  - intros w w' id [= <- <-]. split; [done|]. intros s Hin%elem_of_list_to_set.
    assert (length (replicate (S (max_list ((fun entry : jsstr * jsstr => length entry.2) <$> w))) (117 : Z)) <= max_list ((fun entry : jsstr * jsstr => length entry.2) <$> w))%nat as Hl.
    { apply max_list_bound, list_elem_of_fmap. eexists. split; [|exact Hin]. done. }
    rewrite length_replicate in Hl. lia.
Qed.

Definition seal (k : list Z) (message : list Z) : list Z := (fun byte => byte mod 256) <$> (k ++ message).
Definition sealed (k signature message : list Z) : bool := bool_decide (signature = seal k message).

Lemma seal_lawful : LawfulSignatures seal sealed.
Proof.
  split.
  - intros k m. apply Forall_fmap, Forall_true. intros b. unfold byte. cbn. pose proof (Z.mod_pos_bound b 256). lia.
  - intros k m. by apply bool_decide_eq_true.
Qed.

Definition deckOf : @EntitlementSet Z := mkEntitlements true
  (fun subject _ values => bool_decide (subject = js "ann" /\ values = [VString (js "d1")]))
  (fun _ _ => [[VString (js "d1")]; [VString (js "d2")]]).
Definition server : @SubscribeOptions Z (list Z) jsstr unit Z World := mkOptions cards (engineOf 1800) (Some deckOf) [7; 8; 9] None None.
Definition digest (bytes : list Z) : list Z := (fun byte => byte mod 256) <$> bytes.
Definition named (c : jsstr) : option jsstr := Some c.
Definition joined := subscribeToShapes [] named newName tally digest seal printed server (Some (js "ann")) [js "own"; js "deck"; js "none"] 1000 [].
End World.

(** Ann is granted her own cards and the deck she holds, and denied the deck the set lists but does not permit. *)
Lemma subscribe_authorizes_witness : exists w' result gs, joined = (w', Ok result) /\ length gs = 2%nat /\ Control.granted result = toGranted <$> gs /\
  match Control.token result with
  | None => gs = []
  | Some tok => exists subject, Some (js "ann") ≫= named = Some subject /\ tok = Control.mint seal printed server subject gs 1000 /\
      Forall (subscribed [] tally digest server (Some (js "ann")) subject) gs
  end.
Proof.
  assert (Hl : match joined with (_, Ok result) => length (Control.granted result) | _ => 0%nat end = 2%nat) by (vm_compute; reflexivity).
  destruct joined as [w' [result|e]] eqn:E; [|discriminate Hl].
  destruct (subscribe_authorizes [] named newName tally digest seal printed server (Some (js "ann")) _ 1000 [] w' result E) as (gs & Hg & Ht).
  exists w', result, gs. split; [done|]. rewrite Hg, length_fmap in Hl. done.
Defined.

Section Later.
Import Predicate Shapes StreamToken Control Edge.

Definition held : World := joined.1.
Definition ticket : jsstr := match joined.2 with Ok result => default [] (Control.token result) | Throw _ => [] end.
(** The deck is taken from Ann before her token is renewed. *)
Definition takenOf : @EntitlementSet Z := mkEntitlements true (fun _ _ _ => false) (fun _ _ => []).
Definition stricter : @SubscribeOptions Z (list Z) jsstr unit Z World := mkOptions cards (engineOf 1800) (Some takenOf) [7; 8; 9] None None.
Definition renewal := refreshStreamToken [] named tally digest seal sealed printed read stricter (Some (js "ann")) ticket 5000 held.
End Later.

Lemma refresh_reauthorizes_witness : exists w' result, renewal = (w', Ok result) /\ length (Control.kept result) = 1%nat /\ length (Control.revoked result) = 1%nat /\
  exists claims outcomes, StreamToken.verifyStreamToken sealed read [7; 8; 9] ticket 5000 true = inr claims /\ Some (js "ann") ≫= named = Some (StreamToken.sub claims) /\
    Forall2 (fun grant outcome => match outcome with
      | None => renewed [] tally digest stricter (Some (js "ann")) (StreamToken.sub claims) grant
      | Some r => revocation [] tally digest stricter (Some (js "ann")) (StreamToken.sub claims) grant r end) (StreamToken.grants claims) outcomes /\
    Control.kept result = omap (fun d => match d.2 with None => Some d.1 | Some _ => None end) (zip (StreamToken.grants claims) outcomes) /\
    Control.revoked result = omap (fun d => Control.mkDenied (StreamToken.grantKey d.1) (StreamToken.grantScope d.1) <$> d.2) (zip (StreamToken.grants claims) outcomes) /\
    Control.newToken result = match Control.kept result with [] => None | gs => Some (Control.mint seal printed stricter (StreamToken.sub claims) gs 5000) end.
Proof.
  assert (Hl : match renewal with (_, Ok result) => (length (Control.kept result), length (Control.revoked result)) | _ => (0, 0)%nat end = (1, 1)%nat) by (vm_compute; reflexivity).
  destruct renewal as [w' [result|e]] eqn:E; [|discriminate Hl]. injection Hl as Hk Hr. exists w', result. split; [done|]. split; [done|]. split; [done|].
  refine (refresh_reauthorizes [] named newName tally digest seal sealed printed read stricter (Some (js "ann")) ticket 5000 held w' result E _).
  left. intros Hn. by rewrite Hn in Hk.
Defined.

Lemma release_returns_claims_witness : exists w' result text, joined = (w', Ok result) /\ Control.token result = Some text /\ length (Control.granted result) = 2%nat /\
  exists claims, claims ## ledger [] /\ ledger w' = claims ∪ ledger [] /\
    forall later v v' answer, Control.releaseStreamGrants named sealed read server (Some (js "ann")) text later v = (v', Ok answer) ->
      answer = inr (length (Control.granted result)) /\ ledger v' = ledger v ∖ claims.
Proof.
  assert (Hl : match joined with (_, Ok result) => (length (Control.granted result), match Control.token result with Some _ => 1 | None => 0 end) | _ => (0, 0) end%nat = (2, 1)%nat)
    by (vm_compute; reflexivity).
  destruct joined as [w' [result|e]] eqn:E; [|discriminate Hl]. injection Hl as Hg Ht. destruct (Control.token result) as [text|] eqn:Et; [|discriminate Ht].
  exists w', result, text. split; [done|]. split; [done|]. split; [done|].
  refine (release_returns_claims [] named newName tally digest seal sealed printed read server ledger (Some (js "ann")) (js "ann") text _ 1000 [] w' result
    printed_lawful seal_lawful (engine_lawful 1800) eq_refl _ E Et). discriminate.
Defined.

Section AtTheEdge.
Import Predicate Shapes StreamToken Control Edge.

(** A session's deck, served without the text, and with a mark its local table does not have. *)
Definition masked : list (jsstr * SyncTableEntry Z jsstr unit Z) :=
  [(js "deck", mkEntry (Some (mkShape (js "cards") (js "deck") None None (Some [js "deck"]) None)) [js "owner"; js "card"] None [js "card"] None
     (Some (fun row subject _ => Ok (<[js "mark" := Z.of_nat (length subject)]> (delete (js "text") row)))))].
Definition onlySession (k signature message : list Z) : bool :=
  bool_decide (message = utf8_encode (input printed session)) && sealed k signature message.
Definition gate : @StreamGateOptions Z (list Z) jsstr unit Z := mkGate [7] masked (Some deckOf) None.
Definition sessionToken : jsstr := mintStreamToken seal printed [7] (js "ann") (grants session) (Some 10) 10.
Definition stored_row : gmap jsstr Z := {[js "owner" := 1; js "card" := 2; js "text" := 3]}.
Definition streamServer (p : jsstr) : @Fetched Z unit unit := Answered (mkUpstream 200 {[js "etag" := js "v1"]} (Some (Batch [mkProxied (Some stored_row) tt; mkProxied None tt])) tt).
Definition reading : ReadRequest := mkRead (Some (js "Bearer " ++ sessionToken)) (js "GET") None [].
Definition sessionGrant : StreamGrant Z := mkGrant (js "s1") (js "deck") (js "1") (js "u") (Some [VString (js "d1")]) None.
End AtTheEdge.

Lemma gate_allows_only_issued_witness :
  Edge.authorizeStreamRead onlySession read gate (Some sessionToken) (js "s1") 15 = Edge.Allow sessionGrant (js "ann") /\
  exists claims, claims = session /\ StreamToken.sub claims = js "ann" /\ sessionGrant ∈ StreamToken.grants claims /\ StreamToken.path sessionGrant = js "s1" /\
    15 < StreamToken.exp claims /\ exists set, Some deckOf = Some set /\ Control.ready set = true /\ Control.permits set (js "ann") (js "deck") [Predicate.VString (js "d1")] = true.
Proof.
  assert (H : Edge.authorizeStreamRead onlySession read gate (Some sessionToken) (js "s1") 15 = Edge.Allow sessionGrant (js "ann")) by (vm_compute; reflexivity).
  split; [exact H|]. refine (gate_allows_only_issued onlySession printed read (fun claims => claims = session) gate (Some sessionToken) (js "s1") 15 sessionGrant (js "ann")
    printed_lawful _ H).
  intros signature message [Hm%bool_decide_eq_true _]%andb_prop. by exists session.
Defined.

Lemma egress_is_rewritten_witness :
  Edge.readStreamToken (Edge.authorization reading) = Some sessionToken /\
  exists out made, Edge.handleStreamRead onlySession read gate streamServer reading (js "s1") 15 = Ok (Edge.Rewritten 200 out made) /\ uncached out /\ 200 = 200 /\
    exists upstream, streamServer (js "s1") = Edge.Answered upstream /\
      match Edge.json upstream, made with
      | Some (Edge.Batch sent), Edge.Batch made => Forall2 (rewrites gate (fun row subject _ => Ok (<[js "mark" := Z.of_nat (length subject)]> (delete (js "text") row)))
          [js "owner"; js "card"] (js "ann")) sent made
      | _, _ => False
      end.
Proof.
  split; [vm_compute; reflexivity|].
  assert (H : match Edge.handleStreamRead onlySession read gate streamServer reading (js "s1") 15 with Ok (Edge.Rewritten code _ (Edge.Batch _)) => code | _ => 0 end = 200)
    by (vm_compute; reflexivity).
  destruct (Edge.handleStreamRead onlySession read gate streamServer reading (js "s1") 15) as [[| | | | |code out [made|made| |]]|] eqn:E; try discriminate H. subst code.
  exists out, (Edge.Batch made). split; [done|].
  refine (egress_is_rewritten onlySession read gate streamServer reading (js "s1") 15 sessionGrant (js "ann") _ _ _ _ eq_refl eq_refl E).
  vm_compute. reflexivity.
Defined.

Section AtTheBarrier.
Import Control EngineClient.
Definition lsnAnswer (c : @EngineCall Z) (w : Z) : Z * option HttpAnswer :=
  (w, Some (mkAnswer 200 (Some (JsonObject {[js "lsn" := FieldNull; js "pendingFlips" := FieldNumber w; js "flipFailures" := FieldNumber 0]})))).
Definition firstReading : BarrierStep (W := Z) := mkStep 100 3 (Ok (Json (mkBarrier 3 0))).
End AtTheBarrier.

(** Three flips were pending at 100; at 102, with none left, the answer of 100 is still served. *)
Lemma barrier_never_caches_degraded_witness :
  reported lsnAnswer 0 (EngineClient.mkBarrier 3 0) \/
  (0 <= 0 /\ exists step, step ∈ [firstReading] /\ 102 - stepNow step < 5 /\ stepAnswer step = Ok (Control.Json (EngineClient.mkBarrier 3 0)) /\
    reported lsnAnswer (stepWorld step) (EngineClient.mkBarrier 3 0)).
Proof.
  refine (barrier_never_caches_degraded (Claims := unit) lsnAnswer 5 [firstReading] (Some (EngineClient.mkCached 100 (EngineClient.mkBarrier 3 0))) None 102 0
    (Some (EngineClient.mkCached 100 (EngineClient.mkBarrier 3 0)), 0) (EngineClient.mkBarrier 3 0) _ _).
  - refine (served_step lsnAnswer 5 [] None None 100 3 _ 3 _ (served_none _ _) _). vm_compute. reflexivity.
  - vm_compute. reflexivity.
Defined.
