(* ===== verification/StreamReader.v ===== *)
(** * Client: the stream reader

    client/src/circuits/long-poll.ts, client/src/circuits/stream-source.ts and client/src/retry-after.ts: one read
    request and what its answer means, and the session that reads a stream response by response. The session is a state
    machine: each of its steps is the code between two awaits, and its events are what an await ends with. *)

From S2P Require Export Paths.
From Stdlib Require Import QArith Qround Qminmax Qpower Lqa.

#[local] Open Scope Z_scope.

(** ** Retry-After *)

Module RetryAfter.
Section RetryAfter.
(** [Date.parse], and what [trim] removes. *)
Context (parseDate : jsstr -> option Z) (isSpace : Z -> bool).

Fixpoint dropSpaces (text : jsstr) : jsstr :=
  match text with c :: rest => if isSpace c then dropSpaces rest else text | [] => [] end.
Definition trim (text : jsstr) : jsstr := rev (dropSpaces (rev (dropSpaces text))).

Definition isDigit (c : Z) : bool := (48 <=? c) && (c <=? 57).
Definition decimal (text : jsstr) : Z := fold_left (fun n c => n * 10 + (c - 48)) text 0.

Definition parseRetryAfterMs (headerValue : option jsstr) (nowMs : Z) : option Z :=
  match headerValue with
  | None => None
  | Some value =>
      match trim value with
      | [] => None
      | trimmed =>
          if forallb isDigit trimmed then Some (decimal trimmed * 1000)
          else parsedDate ← parseDate trimmed; Some (Z.max 0 (parsedDate - nowMs))
      end
  end.
End RetryAfter.
End RetryAfter.

(** ** One read request *)

Module LongPoll.
Section LongPoll.
Context {E : Type}.

(** The names of the headers that are read, in lower case as [Headers] keeps them. *)
Definition NEXT_OFFSET : jsstr := js "stream-next-offset".
Definition UP_TO_DATE : jsstr := js "stream-up-to-date".
Definition CURSOR : jsstr := js "stream-cursor".
Definition CLOSED : jsstr := js "stream-closed".
Definition RETRY_AFTER : jsstr := js "retry-after".
Definition READ_RESPONSE_HEADERS : list jsstr := [NEXT_OFFSET; UP_TO_DATE; CURSOR; CLOSED; RETRY_AFTER].

Record ReadPosition : Type := mkPosition { offset : jsstr; cursor : option jsstr; longPoll : bool }.

(** A parsed URL: what stands before its query, and the parameters. *)
Record Url : Type := mkUrl { address : jsstr; query : list (jsstr * jsstr) }.

(** [searchParams.set]: the first parameter of the name is changed and the others removed, or one is appended. *)
Fixpoint without (name : jsstr) (params : list (jsstr * jsstr)) : list (jsstr * jsstr) :=
  match params with
  | [] => []
  | param :: rest => if bool_decide (param.1 = name) then without name rest else param :: without name rest
  end.
Fixpoint setParam (name value : jsstr) (params : list (jsstr * jsstr)) : list (jsstr * jsstr) :=
  match params with
  | [] => [(name, value)]
  | param :: rest => if bool_decide (param.1 = name) then (name, value) :: without name rest else param :: setParam name value rest
  end.

Definition readRequestUrl (streamUrl : Url) (position : ReadPosition) : Url :=
  let params := setParam (js "offset") (offset position) (query streamUrl) in
  let params := if longPoll position then setParam (js "live") (js "long-poll") params else params in
  mkUrl (address streamUrl) match cursor position with Some c => setParam (js "cursor") c params | None => params end.

Record ReadResponse : Type := mkResponse { envelopes : list E; nextOffset : jsstr; nextCursor : option jsstr; upToDate : bool; closed : bool }.

(** A response as the network gives it. Reading the body can fail, and what is read is nothing but white space, a JSON
    array of envelopes, or something else. *)
Inductive Body : Type := BodyCut | BodyBlank | BodyArray (envelopes : list E) | BodyOther.
Record HttpResponse : Type := mkHttp { status : Z; headers : gmap jsstr jsstr; body : Body }.

Inductive Verdict : Type := TokenRejected | Retry | Terminal.
Definition classifyStatus (code : Z) : Verdict :=
  if (code =? 401) || (code =? 403) then TokenRejected else if (code =? 429) || (500 <=? code) then Retry else Terminal.

(** A [StreamReadError], or an error of the network, which is asked again. *)
Inductive ReadFailure : Type := Broken (status : Z) | CutOff.

Definition lower (text : jsstr) : jsstr := (fun c => if (65 <=? c) && (c <=? 90) then c + 32 else c) <$> text.

Definition readResponse (response : HttpResponse) (requestedOffset : jsstr) : result ReadFailure ReadResponse :=
  match headers response !! NEXT_OFFSET with
  | None | Some [] => Throw (Broken (status response))
  | Some next =>
      envelopes ← (if status response =? 204 then Ok [] else
        match body response with
        | BodyCut => Throw CutOff
        | BodyBlank => Ok []
        | BodyArray envelopes => Ok envelopes
        | BodyOther => Throw (Broken (status response))
        end);
      let upToDate := match headers response !! UP_TO_DATE with Some _ => true | None => false end in
      let closed := match headers response !! CLOSED with Some value => bool_decide (lower value = js "true") | None => false end in
      if match envelopes with [] => true | _ => false end && bool_decide (next = requestedOffset) && negb upToDate && negb closed
      then Throw (Broken (status response))
      else Ok (mkResponse envelopes next (headers response !! CURSOR) upToDate closed)
  end.

(** Numbers of milliseconds, where the code computes with doubles. [Math.round] rounds halves up. *)
Definition retryCeiling (attempt : positive) : Q := Qmin (100 * Qpower (13 # 10) (Zpos attempt - 1)) 60000.
Definition retryDelayMs (attempt : positive) (retryAfterMs : option Z) (random : Q) : Z :=
  Qfloor (Qmax (inject_Z (default 0 retryAfterMs)) (random * retryCeiling attempt) + (1 # 2)).
End LongPoll.
Arguments ReadResponse : clear implicits.
Arguments Body : clear implicits.
Arguments HttpResponse : clear implicits.
End LongPoll.

(** ** The session *)

Module StreamSource.
Import LongPoll.
Section StreamSource.

(** Envelopes, and what the caller's functions throw. *)
Context {E Err : Type} (parseDate : jsstr -> option Z) (isSpace : Z -> bool).

Definition STREAM_START : jsstr := js "-1".

Record StreamBatch : Type := mkBatch { batchEnvelopes : list E; batchOffset : jsstr; batchUpToDate : bool }.

(** [recovers] is whether the caller gave [onTokenRejected]. *)
Record StreamSourceOptions : Type := mkOptions { url : Url; from : option jsstr; recovers : bool; live : bool }.

Inductive ReadError : Type := StreamReadError (status : option Z) | Raised (e : Err).

(** What the code asks for and reports. *)
Inductive Output : Type :=
| AskToken | Get (url : Url) (authorization : jsstr) | Wait (ms : Z) | AskFresh (status : Z)
| Resolved | Rejected (e : ReadError) | OnBatch (batch : StreamBatch) | OnEnd (error : option ReadError).

(** What an await ends with, and what the caller does. The time and the random number are those the code reads next. *)
Inductive Event : Type :=
| TokenGiven (token : jsstr) | TokenThrew (e : Err)
| Answered (response : HttpResponse E) (now : Z) (random : Q) | NetworkLost (random : Q)
| Waited
| FreshGiven (token : option jsstr) | FreshThrew (e : Err)
| Begin | BatchSettled | BatchThrew (e : Err)
| CallerCloses | CallerAborts.

(** *** One request *)

Inductive Pending : Type := AwaitToken | AwaitResponse | AwaitBackoff | AwaitFresh (failure : ReadError).

(** [recovering] is the state of the recovery made for this request. *)
Record Request : Type := mkRequest { position : ReadPosition; attempt : nat; recovering : bool; pending : Pending }.

Inductive Answer : Type := Pends (r : Request) | Settles (outcome : result ReadError (option (ReadResponse E))).

Definition bearer (token : jsstr) : jsstr := js "Bearer " ++ token.

(** The head of the loop, with the authorization a re-mint answered with. *)
Definition requestLoop (options : StreamSourceOptions) (aborted : bool) (r : Request) (reminted : option jsstr) : Answer * list Output :=
  if aborted then (Settles (Ok None), [])
  else match reminted with
  | Some authorization => (Pends (mkRequest (position r) (attempt r) (recovering r) AwaitResponse), [Get (readRequestUrl (url options) (position r)) authorization])
  | None => (Pends (mkRequest (position r) (attempt r) (recovering r) AwaitToken), [AskToken])
  end.

Definition request (options : StreamSourceOptions) (aborted : bool) (p : ReadPosition) : Answer * list Output :=
  requestLoop options aborted (mkRequest p 0 false AwaitToken) None.

Definition backoff (r : Request) (retryAfter : option Z) (random : Q) : Answer * list Output :=
  (Pends (mkRequest (position r) (S (attempt r)) (recovering r) AwaitBackoff), [Wait (retryDelayMs (Pos.of_succ_nat (attempt r)) retryAfter random)]).

(** The catch of a request that failed to arrive. *)
Definition lost (aborted : bool) (r : Request) (random : Q) : Answer * list Output :=
  if aborted then (Settles (Ok None), []) else backoff r None random.

Definition ok (code : Z) : bool := (200 <=? code) && (code <=? 299).

Definition answered (options : StreamSourceOptions) (aborted : bool) (r : Request) (response : HttpResponse E) (now : Z) (random : Q) : Answer * list Output :=
  if ok (status response) then
    match readResponse response (offset (position r)) with
    | Ok read => (Settles (Ok (Some read)), [])
    | Throw CutOff => lost aborted r random
    | Throw (Broken code) => (Settles (if aborted then Ok None else Throw (StreamReadError (Some code))), [])
    end
  else
    let failure := StreamReadError (Some (status response)) in
    match classifyStatus (status response) with
    | Retry => backoff r (RetryAfter.parseRetryAfterMs parseDate isSpace (headers response !! RETRY_AFTER) now) random
    | Terminal => (Settles (Throw failure), [])
    | TokenRejected =>
        if recovers options && negb (recovering r) then
          (Pends (mkRequest (position r) (attempt r) true (AwaitFresh failure)), [AskFresh (status response)])
        else (Settles (Throw failure), [])
    end.

(** One step of a request, where it awaits what happened. *)
Definition requestStep (options : StreamSourceOptions) (aborted : bool) (r : Request) (e : Event) : option (Answer * list Output) :=
  match pending r, e with
  | AwaitToken, TokenGiven token =>
      Some (Pends (mkRequest (position r) (attempt r) (recovering r) AwaitResponse), [Get (readRequestUrl (url options) (position r)) (bearer token)])
  | AwaitToken, TokenThrew e => Some (Settles (Throw (Raised e)), [])
  | AwaitResponse, Answered response now random => Some (answered options aborted r response now random)
  | AwaitResponse, NetworkLost random => Some (lost aborted r random)
  | AwaitBackoff, Waited => Some (requestLoop options aborted r None)
  | AwaitFresh failure, FreshGiven (Some fresh) => Some (requestLoop options aborted r (Some (bearer fresh)))
  | AwaitFresh failure, FreshGiven None => Some (Settles (Throw failure), [])
  | AwaitFresh _, FreshThrew e => Some (Settles (Throw (Raised e)), [])
  | _, _ => None
  end.

(** *** The session *)

(** The request for the next response, [None] where there is none. *)
Inductive Phase : Type :=
| Opening (r : Request)
| Open (first : ReadResponse E)
| Applying (ahead : option Answer)
| Following (r : Request)
| Finished (left : option Request).

Record Session : Type := mkSession {
  phase : Phase; at_ : ReadPosition; aborted : bool; closedByCaller : bool; endReported : bool; listening : bool }.

Definition setPhase (p : Phase) (s : Session) : Session :=
  mkSession p (at_ s) (aborted s) (closedByCaller s) (endReported s) (listening s).
Definition stop (s : Session) : Session := mkSession (phase s) (at_ s) true (closedByCaller s) (endReported s) (listening s).

Definition reportEnd (error : option ReadError) (s : Session) : Session * list Output :=
  if endReported s || closedByCaller s then (mkSession (phase s) (at_ s) (aborted s) (closedByCaller s) (endReported s) false, [])
  else (mkSession (phase s) (at_ s) (aborted s) (closedByCaller s) true false, [OnEnd error]).

(** The delivery loop is over. *)
Definition finish (left : option Request) (error : option ReadError) (s : Session) : Session * list Output := reportEnd error (setPhase (Finished left) s).

(** Its catch: a failure stops the request that is in flight. *)
Definition fail (left : option Request) (e : ReadError) (s : Session) : Session * list Output :=
  if aborted s then finish left None s else finish left (Some e) (stop s).

Definition deliver (options : StreamSourceOptions) (response : ReadResponse E) (s : Session) : Session * list Output :=
  if aborted s then finish None None s
  else
    let batch := OnBatch (mkBatch (envelopes response) (nextOffset response) (upToDate response)) in
    if closed response || (negb (live options) && upToDate response) then (setPhase (Applying None) s, [batch])
    else
      let next := mkPosition (nextOffset response) match nextCursor response with Some c => Some c | None => cursor (at_ s) end
        (live options && upToDate response) in
      let (answer, asked) := request options (aborted s) next in
      (mkSession (Applying (Some answer)) next (aborted s) (closedByCaller s) (endReported s) (listening s), asked ++ [batch]).

(** The awaited request ahead has settled. *)
Definition follow (options : StreamSourceOptions) (outcome : result ReadError (option (ReadResponse E))) (s : Session) : Session * list Output :=
  match outcome with
  | Ok None => finish None None s
  | Ok (Some response) => deliver options response s
  | Throw e => fail None e s
  end.

Definition opened (outcome : result ReadError (option (ReadResponse E))) (s : Session) : Session * list Output :=
  match outcome with
  | Ok (Some response) => (setPhase (Open response) s, [Resolved])
  | Ok None => (mkSession (Finished None) (at_ s) (aborted s) (closedByCaller s) (endReported s) false, [Rejected (StreamReadError None)])
  | Throw e => (mkSession (Finished None) (at_ s) (aborted s) (closedByCaller s) (endReported s) false, [Rejected e])
  end.

(** What a step of the request does to the session that is in a phase of its own. *)
Definition requestMoves (options : StreamSourceOptions) (answer : Answer) (s : Session) : Session * list Output :=
  match phase s, answer with
  | Opening _, Pends r => (setPhase (Opening r) s, [])
  | Opening _, Settles outcome => opened outcome s
  | Applying _, answer => (setPhase (Applying (Some answer)) s, [])
  | Following _, Pends r => (setPhase (Following r) s, [])
  | Following _, Settles outcome => follow options outcome s
  | Finished _, Pends r => (setPhase (Finished (Some r)) s, [])
  | Finished _, Settles _ => (setPhase (Finished None) s, [])
  | Open _, _ => (s, [])
  end.

Definition inFlight (s : Session) : option Request :=
  match phase s with
  | Opening r | Following r | Applying (Some (Pends r)) | Finished (Some r) => Some r
  | _ => None
  end.

Definition step (options : StreamSourceOptions) (s : Session) (e : Event) : option (Session * list Output) :=
  match e with
  | CallerCloses =>
      match phase s with
      | Opening _ => None
      | _ => Some (mkSession (phase s) (at_ s) true true (endReported s) false, [])
      end
  | CallerAborts => if listening s then Some (stop s, []) else None
  | Begin => match phase s with Open first => Some (deliver options first s) | _ => None end
  | BatchSettled =>
      match phase s with
      | Applying None => Some (finish None None s)
      | Applying (Some (Pends r)) => Some (setPhase (Following r) s, [])
      | Applying (Some (Settles outcome)) => Some (follow options outcome s)
      | _ => None
      end
  | BatchThrew e =>
      match phase s with
      | Applying ahead => Some (fail match ahead with Some (Pends r) => Some r | _ => None end (Raised e) s)
      | _ => None
      end
  | e =>
      r ← inFlight s;
      moved ← requestStep options (aborted s) r e;
      let '(answer, asked) := moved in
      let (s', told) := requestMoves options answer s in
      Some (s', asked ++ told)
  end.

(** [readShapeStream], with a signal that is aborted already or not. *)
Definition readShapeStream (options : StreamSourceOptions) (abortedBefore : bool) : Session * list Output :=
  let start := mkPosition (default STREAM_START (from options)) None false in
  let s r := mkSession (Opening r) start abortedBefore false false true in
  match request options abortedBefore start with
  | (Pends r, asked) => (s r, asked)
  | (Settles outcome, asked) => let (s', told) := opened outcome (s (mkRequest start 0 false AwaitToken)) in (s', asked ++ told)
  end.
End StreamSource.
End StreamSource.

(** ** Runs *)

Section Runs.
Import LongPoll StreamSource.
Context {E Err : Type} (parseDate : jsstr -> option Z) (isSpace : Z -> bool) (options : StreamSourceOptions).
Abbreviation Session := (@Session E Err).
Abbreviation Event := (@Event E Err).
Abbreviation Output := (@Output E Err).
Abbreviation step := (step parseDate isSpace options).

Inductive Label : Type := In (e : Event) | Out (o : Output).

(** What the server may answer to a request. *)
Context (answers : ReadPosition -> HttpResponse E -> Prop) (abortedBefore : bool).

Definition honest (s : Session) (e : Event) : Prop :=
  match e, inFlight s with Answered response _ _, Some r => answers (position r) response | _, _ => True end.

(** The runs of a session: its events, each followed by what the code asked for and reported. *)
Inductive run : list Label -> Session -> Prop :=
| run_start s outs : readShapeStream options abortedBefore = (s, outs) -> run (Out <$> outs) s
| run_step tr s e s' outs : run tr s -> honest s e -> step s e = Some (s', outs) -> run (tr ++ In e :: (Out <$> outs)) s'.

Definition batchOf (l : Label) : option (StreamBatch (E := E)) := match l with Out (OnBatch b) => Some b | _ => None end.
Definition delivered (tr : list Label) : list StreamBatch := omap batchOf tr.

Lemma delivered_app a b : delivered (a ++ b) = delivered a ++ delivered b.
Proof. apply omap_app. Qed.

(** What asks the world and reports nothing to the caller. *)
Definition asks (o : Output) : Prop := match o with OnBatch _ | OnEnd _ => False | _ => True end.

Lemma delivered_asks outs : Forall asks outs -> delivered (Out <$> outs) = [].
Proof. induction 1 as [|o outs Ho _ IH]; [done|]. destruct o; done. Qed.

Lemma loop_asks aborted r reminted answer outs : requestLoop (E := E) (Err := Err) options aborted r reminted = (answer, outs) ->
  Forall asks outs /\ match answer with Pends r' => position r' = position r /\ recovering r' = recovering r | Settles outcome => outcome = Ok None end.
Proof. unfold requestLoop. destruct aborted; [|destruct reminted]; intros [= <- <-]; repeat constructor. Qed.

Lemma lost_asks aborted r random answer outs : lost (E := E) (Err := Err) aborted r random = (answer, outs) ->
  Forall asks outs /\ match answer with Pends r' => position r' = position r /\ recovering r' = recovering r | Settles outcome => outcome = Ok None end.
Proof. unfold lost, backoff. destruct aborted; intros [= <- <-]; repeat constructor. Qed.

(** One step of a request: it stays at its position, and a response it settles with is the one that was answered. *)
Lemma request_step aborted r e answer outs : requestStep parseDate isSpace options aborted r e = Some (answer, outs) ->
  Forall asks outs /\ match answer with
  | Pends r' => position r' = position r
  | Settles (Ok (Some read)) => exists response now random, e = Answered response now random /\ readResponse response (offset (position r)) = Ok read
  | Settles _ => True
  end.
Proof.
  assert (Hloop : forall reminted, Some (requestLoop options aborted r reminted) = Some (answer, outs) ->
    Forall asks outs /\ match answer with Pends r' => position r' = position r | Settles (Ok (Some _)) => False | Settles _ => True end).
  { intros reminted [= H]. apply loop_asks in H as [Ho Ha]. split; [done|]. destruct answer; [by destruct Ha|by subst]. }
  assert (Hlost : forall random, lost aborted r random = (answer, outs) ->
    Forall asks outs /\ match answer with Pends r' => position r' = position r | Settles (Ok (Some _)) => False | Settles _ => True end).
  { intros random H. apply lost_asks in H as [Ho Ha]. split; [done|]. destruct answer; [by destruct Ha|by subst]. }
  assert (Hweak : (Forall asks outs /\ match answer with Pends r' => position r' = position r | Settles (Ok (Some _)) => False | Settles _ => True end) ->
    Forall asks outs /\ match answer with
    | Pends r' => position r' = position r
    | Settles (Ok (Some read)) => exists response now random, e = Answered response now random /\ readResponse response (offset (position r)) = Ok read
    | Settles _ => True
    end).
  { intros [Ho Ha]. split; [done|]. by destruct answer as [|[[]|]]. }
  unfold requestStep. destruct (pending r); destruct e as [token|e|response now random|random| |[fresh|]|e| | |e| |]; try discriminate;
    try (intros [= <- <-]; repeat constructor; fail); try (intros H; by eapply Hweak, Hloop).
  - unfold answered. intros [= H]. destruct (ok (status response)).
    + destruct (readResponse response (offset (position r))) as [read|[code|]] eqn:Er.
      * injection H as <- <-. split; [constructor|]. by exists response, now, random.
      * injection H as <- <-. split; [constructor|]. by destruct aborted.
      * by apply Hweak, (Hlost random).
    + destruct (classifyStatus (status response)); [destruct (recovers options && negb (recovering r))|..]; injection H as <- <-; repeat constructor.
  - intros [= H]. by apply Hweak, (Hlost random).
Qed.

(** Taking a step of a session apart: the request in flight moves, delivery begins, a batch was applied or was not,
    the caller closes or aborts. *)
Lemma step_cases s e s' outs : step s e = Some (s', outs) ->
  (exists r (answer : @Answer E Err) (asked told : list Output), inFlight s = Some r /\ requestStep parseDate isSpace options (aborted s) r e = Some (answer, asked) /\
    requestMoves options answer s = (s', told) /\ outs = asked ++ told) \/
  (e = Begin /\ exists first, phase s = Open first /\ deliver options first s = (s', outs)) \/
  (e = BatchSettled /\ exists ahead, phase s = Applying ahead /\
    match ahead with None => finish None None s | Some (Pends r) => (setPhase (Following r) s, []) | Some (Settles outcome) => follow options outcome s end = (s', outs)) \/
  (exists x ahead, e = BatchThrew x /\ phase s = Applying ahead /\ fail match ahead with Some (Pends r) => Some r | _ => None end (Raised x) s = (s', outs)) \/
  (e = CallerCloses /\ outs = [] /\ s' = mkSession (phase s) (at_ s) true true (endReported s) false) \/
  (e = CallerAborts /\ outs = [] /\ s' = stop s /\ listening s = true).
Proof.
  intros H. assert (Hmove : forall r, inFlight s = Some r -> (moved ← requestStep parseDate isSpace options (aborted s) r e;
      let '(answer, asked) := moved in let (s', told) := requestMoves options answer s in Some (s', asked ++ told)) = Some (s', outs) ->
    exists r (answer : @Answer E Err) (asked told : list Output), inFlight s = Some r /\ requestStep parseDate isSpace options (aborted s) r e = Some (answer, asked) /\
      requestMoves options answer s = (s', told) /\ outs = asked ++ told).
  { intros r Hr Hm. destruct (requestStep _ _ _ _ _ _) as [[answer asked]|] eqn:Es; [|done]. cbn [mbind option_bind] in Hm. destruct (requestMoves options answer s) as [s1 told] eqn:Em.
    injection Hm as <- <-. by exists r, answer, asked, told. }
  unfold StreamSource.step in H. destruct e; try (left; assert (exists r, inFlight s = Some r) as [r Er] by (revert H; destruct (inFlight s); [by eexists|done]); rewrite Er in H; by apply (Hmove r)); right; clear Hmove.
  - left. destruct (phase s) as [|first| | |]; try done. split; [done|]. exists first. split; [done|]. congruence.
  - right. left. destruct (phase s) as [| |ahead| |]; try done. split; [done|]. exists ahead. split; [done|]. destruct ahead as [[]|]; congruence.
  - do 2 right. left. destruct (phase s) as [| |ahead| |] eqn:Ep; try done. exists e, ahead. split; [done|]. split; [done|]. congruence.
  - do 3 right. left. split; [done|]. by destruct (phase s); try done; injection H as <- <-.
  - do 4 right. destruct (listening s); [|done]. by injection H as <- <-.
Qed.
End Runs.

(** ** Following the stream *)

Section Following.
Import LongPoll StreamSource.
Context {E Err : Type} (parseDate : jsstr -> option Z) (isSpace : Z -> bool) (options : StreamSourceOptions) (abortedBefore : bool).
Abbreviation Session := (@Session E Err).
Abbreviation Output := (@Output E Err).
Abbreviation step := (step parseDate isSpace options).

(** [span o o' es]: the envelopes from one offset of the stream to another. *)
Context (span : jsstr -> jsstr -> list E -> Prop).

Definition lawful_answers (p : ReadPosition) (response : HttpResponse E) : Prop :=
  forall read, readResponse response (offset p) = Ok read -> span (offset p) (nextOffset read) (envelopes read).

Definition start : jsstr := default STREAM_START (from options).

Fixpoint reached (o : jsstr) (bs : list (StreamBatch (E := E))) : jsstr := match bs with [] => o | b :: bs => reached (batchOffset b) bs end.
Fixpoint chained (o : jsstr) (bs : list (StreamBatch (E := E))) : Prop :=
  match bs with [] => True | b :: bs => span o (batchOffset b) (batchEnvelopes b) /\ chained (batchOffset b) bs end.

Lemma reached_snoc o bs b : reached o (bs ++ [b]) = batchOffset b.
Proof. revert o. induction bs; intros o; cbn; auto. Qed.
Lemma chained_snoc o bs b : chained o bs -> span (reached o bs) (batchOffset b) (batchEnvelopes b) -> chained o (bs ++ [b]).
Proof. revert o. induction bs as [|x bs IH]; intros o; cbn; [auto|]. intros [Hx Hbs] Hb. split; [done|by apply IH]. Qed.

(** What a session owes: the batches so far, and a request from where they end or its answer. *)
Definition follows (bs : list StreamBatch) (s : Session) : Prop :=
  chained start bs /\
  match phase s with
  | Opening r | Following r | Applying (Some (Pends r)) => offset (position r) = reached start bs
  | Open read | Applying (Some (Settles (Ok (Some read)))) => span (reached start bs) (nextOffset read) (envelopes read)
  | _ => True
  end.

Lemma finish_follows bs left error s s' outs : chained start bs -> finish left error s = (s', outs) -> follows (bs ++ delivered (Out <$> outs)) s'.
Proof.
  intros Hc. unfold finish, reportEnd. destruct (endReported _ || closedByCaller _); intros [= <- <-]; cbn; by rewrite app_nil_r.
Qed.

Lemma fail_follows bs left e s s' outs : chained start bs -> fail left e s = (s', outs) -> follows (bs ++ delivered (Out <$> outs)) s'.
Proof. unfold fail. destruct (aborted s); apply finish_follows. Qed.

Lemma deliver_follows bs response s s' outs : chained start bs -> span (reached start bs) (nextOffset response) (envelopes response) ->
  deliver options response s = (s', outs) -> follows (bs ++ delivered (Out <$> outs)) s'.
Proof.
  intros Hc Hs. unfold deliver. destruct (aborted s) eqn:Ea; [by apply finish_follows|].
  assert (Hb : chained start (bs ++ [mkBatch (envelopes response) (nextOffset response) (upToDate response)])) by (by apply chained_snoc).
  destruct (closed response || _); [intros [= <- <-]; by split|].
  unfold request. cbn [requestLoop]. intros [= <- <-]. cbn [fmap list_fmap app delivered omap list_omap batchOf]. split; [exact Hb|]. cbn. by rewrite reached_snoc.
Qed.

Lemma follow_follows bs outcome s s' outs : chained start bs ->
  match outcome with Ok (Some read) => span (reached start bs) (nextOffset read) (envelopes read) | _ => True end ->
  follow options outcome s = (s', outs) -> follows (bs ++ delivered (Out <$> outs)) s'.
Proof.
  intros Hc Hs. unfold follow. destruct outcome as [[read|]|e]; [by apply deliver_follows|by apply finish_follows|by apply fail_follows].
Qed.

Lemma step_follows bs s e s' outs : follows bs s -> honest lawful_answers s e -> step s e = Some (s', outs) -> follows (bs ++ delivered (Out <$> outs)) s'.
Proof.
  intros [Hc Hp] Hh H. apply step_cases in H as [H|[H|[H|[H|[H|H]]]]].
  - destruct H as (r & answer & asked & told & Hr & Hs & Hm & ->). unfold honest in Hh. rewrite Hr in Hh. apply request_step in Hs as [Ha Hs].
    rewrite fmap_app, delivered_app, (delivered_asks asked) by done. cbn [app].
    assert (Hpos : phase s = Finished (Some r) \/ offset (position r) = reached start bs).
    { unfold inFlight in Hr. destruct (phase s) as [r1| |[[r1|]|]|r1|[r1|]]; try done; injection Hr as ->; auto. }
    assert (Hread : match answer with Settles (Ok (Some read)) => phase s = Finished (Some r) \/ span (reached start bs) (nextOffset read) (envelopes read) | _ => True end).
    { destruct answer as [|[[read|]|]]; try done. destruct Hs as (response & now & random & -> & Hread). destruct Hpos as [?|Hpos]; [by left|right]. rewrite <- Hpos. by apply Hh. }
    unfold requestMoves in Hm. unfold inFlight in Hr. destruct (phase s) as [r1|first|[[r1|]|]|r1|[r1|]] eqn:Ep; try done; injection Hr as ->.
    + destruct answer as [r'|outcome]; [injection Hm as <- <-; rewrite app_nil_r; split; [done|]; cbn; by rewrite Hs|].
      unfold opened in Hm. destruct outcome as [[read|]|e']; injection Hm as <- <-; cbn; rewrite app_nil_r; split; try done. by destruct Hread.
    + injection Hm as <- <-. rewrite app_nil_r. split; [done|]. cbn. destruct answer as [r'|[[read|]|]]; try done; [by rewrite Hs|by destruct Hread].
    + destruct answer as [r'|outcome]; [injection Hm as <- <-; rewrite app_nil_r; split; [done|]; cbn; by rewrite Hs|].
      refine (follow_follows bs outcome s s' told Hc _ Hm). destruct outcome as [[read|]|]; try done. by destruct Hread.
    + by destruct answer; injection Hm as <- <-; rewrite app_nil_r.
  - destruct H as (-> & first & Ep & H). rewrite Ep in Hp. by eapply deliver_follows.
  - destruct H as (-> & ahead & Ep & H). rewrite Ep in Hp. destruct ahead as [[r|outcome]|].
    + injection H as <- <-. by rewrite app_nil_r.
    + by eapply follow_follows.
    + by eapply finish_follows.
  - destruct H as (x & ahead & -> & Ep & H). by eapply fail_follows.
  - destruct H as (-> & -> & ->). by rewrite app_nil_r.
  - destruct H as (-> & -> & -> & _). by rewrite app_nil_r.
Qed.

Lemma run_follows tr s : run parseDate isSpace options lawful_answers abortedBefore tr s -> follows (delivered tr) s.
Proof.
  induction 1 as [s outs H|tr s e s' outs _ IH Hh H].
  - unfold readShapeStream, request, requestLoop in H. destruct abortedBefore; injection H as <- <-; done.
  - rewrite delivered_app. change (delivered (In e :: ?l)) with (delivered l). by eapply step_follows.
Qed.
End Following.

(** ** The end of a read *)

Section Ending.
Import LongPoll StreamSource.
Context {E Err : Type} (parseDate : jsstr -> option Z) (isSpace : Z -> bool) (options : StreamSourceOptions) (abortedBefore : bool).
Abbreviation Session := (@Session E Err).
Abbreviation Output := (@Output E Err).
Abbreviation Label := (@Label E Err).
Abbreviation step := (step parseDate isSpace options).

(** Reports to the caller, and the labels after which there are none. *)
Definition silent (l : Label) : Prop := match l with Out (OnBatch _) | Out (OnEnd _) => False | _ => True end.
Definition final (l : Label) : Prop := match l with Out (OnEnd _) | In CallerCloses => True | _ => False end.

Fixpoint orderly (tr : list Label) : Prop :=
  match tr with [] => True | l :: tr => (final l -> Forall silent tr) /\ orderly tr end.

Lemma orderly_app a b : orderly a -> orderly b -> (Exists final a -> Forall silent b) -> orderly (a ++ b).
Proof.
  intros Ha Hb. induction a as [|l a IH]; [done|]. destruct Ha as [Hl Ha]. intros Hs. split.
  - intros Hf. apply Forall_app. split; [by apply Hl|]. apply Hs. by left.
  - apply IH; [done|]. intros He. apply Hs. by right.
Qed.

Lemma orderly_split a l b : orderly (a ++ l :: b) -> final l -> Forall silent b.
Proof. induction a as [|x a IH]; intros [H1 H2]; auto. Qed.

Lemma asks_silent (outs : list Output) : Forall asks outs -> Forall silent (Out <$> outs) /\ ~ Exists final (Out <$> outs).
Proof.
  induction 1 as [|o outs Ho _ [IH1 IH2]]; [split; [constructor|by intros ?%Exists_nil]|]. cbn. split; [by constructor; [destruct o|]|].
  intros [Hf|He]%Exists_cons; [by destruct o|done].
Qed.

Lemma silent_orderly tr : Forall silent tr -> orderly tr.
Proof. induction 1 as [|l tr _ Htr IH]; [done|]. split; [by intros _|done]. Qed.

(** A session that has reported its end has finished, and one the caller closed is stopped. *)
Definition over (s : Session) : Prop := (endReported s = true /\ exists left, phase s = Finished left) \/ (closedByCaller s = true /\ aborted s = true).

(** What a step says: reports, the last of which may be the end. *)
Definition says (s s' : Session) (outs : list Output) : Prop :=
  orderly (Out <$> outs) /\ (over s -> Forall silent (Out <$> outs) /\ over s') /\ (Exists final (Out <$> outs) -> over s').

Lemma says_silent s s' outs : Forall asks outs -> (over s -> over s') -> says s s' outs.
Proof. intros [Hs Hf]%asks_silent Ho. split; [by apply silent_orderly|]. split; [auto|done]. Qed.

Lemma says_app s s' outs outs' : Forall asks outs -> says s s' outs' -> says s s' (outs ++ outs').
Proof.
  intros [Hs Hf]%asks_silent (H1 & H2 & H3). unfold says. rewrite fmap_app. split; [by apply orderly_app; [apply silent_orderly| |]|]. split.
  - intros Ho. destruct (H2 Ho). split; [by apply Forall_app|done].
  - rewrite Exists_app. intros [?|?]; [done|auto].
Qed.

(** A session as it is between steps. *)
Definition settled (s : Session) : Prop := (closedByCaller s = true -> aborted s = true) /\ (endReported s = true -> exists l, phase s = Finished l).
Definition running (s : Session) : Prop := forall l, phase s <> Finished l.

Lemma over_running s s' : running s -> closedByCaller s' = closedByCaller s -> (aborted s = true -> aborted s' = true) -> over s -> over s'.
Proof. intros Hr Ec Ha [[_ [l Hl]]|[H1 H2]]; [by apply Hr in Hl|]. right. split; [congruence|auto]. Qed.

Lemma finish_says left error s s' outs : (closedByCaller s = true -> aborted s = true) -> finish left error s = (s', outs) -> says s s' outs /\ settled s'.
Proof.
  intros Hc. unfold finish, reportEnd. cbn [endReported closedByCaller setPhase]. destruct (endReported s || closedByCaller s) eqn:Eo; intros [= <- <-].
  - split; [|by split; [|eexists]]. apply says_silent; [constructor|]. intros [[H1 H2]|[H1 H2]]; [left; split; [done|by eexists]|by right].
  - apply orb_false_iff in Eo as [Ee Ec]. split; [|by split; [|eexists]]. split; [repeat split; constructor|]. split.
    + intros [[H1 _]|[H1 _]]; congruence.
    + intros _. left. split; [done|by eexists].
Qed.

Lemma fail_says left e s s' outs : settled s -> fail left e s = (s', outs) -> says s s' outs /\ settled s'.
Proof.
  intros [Hc _]. unfold fail. destruct (aborted s) eqn:Ea; [by apply finish_says; rewrite Ea|]. intros H. apply finish_says in H as [[H1 [H2 H3]] Hs]; [|done].
  split; [|done]. split; [done|]. split; [|done]. intros [[He Hl]|[H _]]; [apply H2; by left|apply H2; by right].
Qed.

Lemma says_batch s s' batch : ~ over s -> says s s' [OnBatch batch].
Proof.
  intros Ho. split; [split; [by intros []|done]|]. split; [done|]. by intros [[]|[]%Exists_nil]%Exists_cons.
Qed.

Lemma deliver_says response s s' outs : settled s -> running s -> deliver options response s = (s', outs) -> says s s' outs /\ settled s'.
Proof.
  intros [Hc He] Hr. unfold deliver. destruct (aborted s) eqn:Ea; [by apply finish_says; rewrite Ea|].
  assert (Hend : endReported s <> true) by (intros H; destruct (He H) as [l Hl]; by apply Hr in Hl).
  assert (Hover : ~ over s) by (intros [[H _]|[_ H]]; congruence). unfold request. cbn [requestLoop].
  destruct (closed response || _); intros [= <- <-]; (split; [|split; cbn; [rewrite ?Ea; exact Hc|by intros ?%Hend]]); [by apply says_batch|].
  apply (says_app _ _ [AskToken]); [by repeat constructor|by apply says_batch].
Qed.

Lemma follow_says outcome s s' outs : settled s -> running s -> follow options outcome s = (s', outs) -> says s s' outs /\ settled s'.
Proof. intros Hs Hr. unfold follow. destruct outcome as [[read|]|e]; [by apply deliver_says|apply finish_says; apply Hs|by apply fail_says]. Qed.

Lemma moves_says answer s s' outs r : settled s -> inFlight s = Some r -> requestMoves options answer s = (s', outs) -> says s s' outs /\ settled s'.
Proof.
  intros [Hc He] Hr H. assert (Hphase : forall p, running s -> (forall l, p <> Finished l) -> says s (setPhase p s) [] /\ settled (setPhase p s)).
  { intros p Hrun Hp. split; [apply says_silent; [constructor|by apply over_running]|]. split; [done|]. intros Hend. by destruct (He Hend) as [l Hl%Hrun]. }
  unfold inFlight in Hr. unfold requestMoves in H. destruct (phase s) as [r1|first|[[r1|]|]|r1|[r1|]] eqn:Ep; try done.
  - assert (Hrun : running s) by (intros l; by rewrite Ep). destruct answer as [r'|outcome]; [injection H as <- <-; by apply Hphase|].
    assert (Hdone : says s (mkSession (Finished None) (at_ s) (aborted s) (closedByCaller s) (endReported s) false) [] /\
      settled (mkSession (Finished None) (at_ s) (aborted s) (closedByCaller s) (endReported s) false)).
    { split; [apply says_silent; [constructor|by apply over_running]|]. split; [done|by eexists]. }
    unfold opened in H. destruct outcome as [[read|]|e]; injection H as <- <-.
    + destruct (Hphase (Open read)) as [(_ & H2 & _) H3]; [done..|]. split; [|done]. apply says_silent; [by repeat constructor|intros Ho; by apply H2].
    + destruct Hdone as [(_ & H2 & _) H3]. split; [|done]. apply says_silent; [by repeat constructor|intros Ho; by apply H2].
    + destruct Hdone as [(_ & H2 & _) H3]. split; [|done]. apply says_silent; [by repeat constructor|intros Ho; by apply H2].
  - injection H as <- <-. apply Hphase; [intros l; by rewrite Ep|done].
  - assert (Hrun : running s) by (intros l; by rewrite Ep). destruct answer as [r'|outcome]; [injection H as <- <-; by apply Hphase|]. apply (follow_says outcome); [split; [done|by rewrite Ep]|done|done].
  - destruct answer as [r'|outcome]; injection H as <- <-; (split; [apply says_silent; [constructor|]|by split; [|eexists]]);
      (intros [[H1 H2]|[H1 H2]]; [left; split; [done|by eexists]|by right]).
Qed.

Lemma step_says s e s' outs : settled s -> step s e = Some (s', outs) -> says s s' outs /\ settled s' /\ (e = CallerCloses -> over s' /\ outs = []).
Proof.
  intros Hs H. apply step_cases in H as [H|[H|[H|[H|[H|H]]]]].
  - destruct H as (r & answer & asked & told & Hr & Ha & Hm & ->). pose proof Ha as [Hasks _]%request_step. destruct (moves_says answer s s' told r Hs Hr Hm) as [H1 H2].
    split; [by apply says_app|]. split; [done|]. intros ->. unfold requestStep in Ha. by destruct (pending r).
  - destruct H as (-> & first & Ep & H). destruct (deliver_says first s s' outs Hs) as [H1 H2]; [intros l; by rewrite Ep|done|done].
  - destruct H as (-> & ahead & Ep & H). assert (Hrun : running s) by (intros l; by rewrite Ep). destruct ahead as [[r|outcome]|].
    + injection H as <- <-. destruct Hs as [Hc He]. split; [apply says_silent; [constructor|by apply over_running]|]. split; [|done]. split; [done|].
      intros Hend. by destruct (He Hend) as [l Hl%Hrun].
    + by destruct (follow_says outcome s s' outs Hs Hrun H) as [H1 H2].
    + by destruct (finish_says None None s s' outs (proj1 Hs) H) as [H1 H2].
  - destruct H as (x & ahead & -> & Ep & H). by destruct (fail_says _ _ s s' outs Hs H) as [H1 H2].
  - destruct H as (-> & -> & ->). destruct Hs as [Hc He]. split; [apply says_silent; [constructor|]; by right|]. split; [by split|]. intros _. split; [by right|done].
  - destruct H as (-> & -> & -> & _). destruct Hs as [Hc He]. split; [|by split; [split|]]. apply says_silent; [constructor|].
    intros [[H1 H2]|[H1 H2]]; [by left|by right].
Qed.

Lemma run_orderly answers tr s : run parseDate isSpace options answers abortedBefore tr s -> orderly tr /\ settled s /\ (Exists final tr -> over s).
Proof.
  induction 1 as [s outs H|tr s e s' outs _ (IH & Hs & Hf) _ H].
  - unfold readShapeStream, request, requestLoop in H. destruct abortedBefore; injection H as <- <-;
      (split; [repeat split; constructor|]); (split; [by split|]); cbn; intros [?|[]%Exists_nil]%Exists_cons; done.
  - destruct (step_says s e s' outs Hs H) as ((H1 & H2 & H3) & Hs' & Hc). split; [|split; [done|]].
    + apply orderly_app; [done| |].
      * split; [|done]. destruct e; try done. intros _. destruct (Hc eq_refl) as [_ ->]. constructor.
      * intros He. constructor; [by destruct e|]. by apply H2, Hf.
    + intros [He|[He|He]%Exists_cons]%Exists_app; [by apply H2, Hf| |by apply H3]. destruct e; try done. by apply Hc.
Qed.
End Ending.

(** ** Refused tokens *)

Section Refusals.
Import LongPoll StreamSource.
Context {E Err : Type} (parseDate : jsstr -> option Z) (isSpace : Z -> bool) (options : StreamSourceOptions) (abortedBefore : bool).
Abbreviation Session := (@Session E Err).
Abbreviation Output := (@Output E Err).
Abbreviation Label := (@Label E Err).
Abbreviation step := (step parseDate isSpace options).

Definition refusal (response : HttpResponse E) : bool := (status response =? 401) || (status response =? 403).
Definition refusalOf (l : Label) : option unit :=
  match l with In (Answered response _ _) => if refusal response then Some tt else None | _ => None end.
Definition refusals (tr : list Label) : nat := length (omap refusalOf tr).

Lemma refusals_app a b : refusals (a ++ b) = (refusals a + refusals b)%nat.
Proof. unfold refusals. by rewrite omap_app, length_app. Qed.
Lemma refusals_out (outs : list Output) : refusals (Out <$> outs) = 0%nat.
Proof. by induction outs. Qed.

(** The refusals a request can still get. *)
Definition budget (r : Request (Err := Err)) : nat := if recovering r then 1 else 2.
Definition left_ (s : Session) : nat := match inFlight s with Some r => budget r | None => 0 end.
Definition answerBudget (a : @Answer E Err) : nat := match a with Pends r => budget r | Settles _ => 0 end.

Lemma request_budget aborted r e answer outs : requestStep parseDate isSpace options aborted r e = Some (answer, outs) ->
  (refusals [In e] + answerBudget answer <= budget r)%nat.
Proof.
  assert (Hloop : forall reminted, Some (requestLoop options aborted r reminted) = Some (answer, outs) -> (answerBudget answer <= budget r)%nat).
  { intros reminted [= H]. apply loop_asks in H as [_ Ha]. destruct answer as [r'|]; [destruct Ha as [_ Ha]; unfold answerBudget, budget; rewrite Ha; lia|cbn; lia]. }
  assert (Hlost : forall random, lost aborted r random = (answer, outs) -> (answerBudget answer <= budget r)%nat).
  { intros random H. apply lost_asks in H as [_ Ha]. destruct answer as [r'|]; [destruct Ha as [_ Ha]; unfold answerBudget, budget; rewrite Ha; lia|cbn; lia]. }
  assert (Hone : (1 <= budget r)%nat) by (unfold budget; destruct (recovering r); lia).
  unfold requestStep. destruct (pending r); destruct e as [token|e|response now random|random| |[fresh|]|e| | |e| |]; try discriminate;
    try (intros [= <- <-]; cbn; unfold budget; cbn; destruct (recovering r); lia); try (intros H; by eapply Hloop).
  - intros [= H]. unfold answered in H. unfold refusals. cbn [omap list_omap refusalOf]. destruct (refusal response) eqn:Er.
    + cbn [length]. assert (ok (status response) = false) as Hok by (unfold refusal, ok in *; lia). rewrite Hok in H. unfold classifyStatus in H. unfold refusal in Er. rewrite Er in H.
      destruct (recovers options && negb (recovering r)) eqn:Eb; injection H as <- <-; [|cbn; lia]. apply andb_true_iff in Eb as [_ Eb%negb_true_iff].
      unfold budget. rewrite Eb. cbn. lia.
    + cbn [length]. destruct (ok (status response)); [destruct (readResponse _ _) as [read|[code|]]; [injection H as <- <-; cbn; lia..|by apply (Hlost random)]|].
      unfold classifyStatus, refusal in *. rewrite Er in H. destruct ((status response =? 429) || (500 <=? status response)); injection H as <- <-; cbn; unfold budget; cbn; destruct (recovering r); lia.
  - intros [= H]. cbn. by apply (Hlost random).
Qed.

Lemma finish_budget l error (s s' : Session) (outs : list Output) : finish l error s = (s', outs) -> inFlight s' = l /\ delivered (Out <$> outs) = [].
Proof. unfold finish, reportEnd. destruct (endReported _ || closedByCaller _); intros [= <- <-]; by destruct l. Qed.

Lemma fail_budget l e (s s' : Session) (outs : list Output) : fail l e s = (s', outs) -> inFlight s' = l /\ delivered (Out <$> outs) = [].
Proof. unfold fail. destruct (aborted s); apply finish_budget. Qed.

Lemma deliver_budget response (s s' : Session) (outs : list Output) : deliver options response s = (s', outs) -> (left_ s' <= 2 * length (delivered (Out <$> outs)))%nat.
Proof.
  unfold deliver, left_. destruct (aborted s); [intros [-> ->]%finish_budget; cbn; lia|]. unfold request. cbn [requestLoop].
  destruct (closed response || _); intros [= <- <-]; cbn; lia.
Qed.

Lemma follow_budget outcome (s s' : Session) (outs : list Output) : follow options outcome s = (s', outs) -> (left_ s' <= 2 * length (delivered (Out <$> outs)))%nat.
Proof.
  unfold follow, left_. destruct outcome as [[read|]|e]; [apply deliver_budget|intros [-> ->]%finish_budget; cbn; lia|intros [-> ->]%fail_budget; cbn; lia].
Qed.

Lemma step_budget s e s' outs : step s e = Some (s', outs) -> (refusals [In e] + left_ s' <= left_ s + 2 * length (delivered (Out <$> outs)))%nat.
Proof.
  intros H. apply step_cases in H as [H|[H|[H|[H|[H|H]]]]].
  - destruct H as (r & answer & asked & told & Hr & Ha & Hm & ->). pose proof Ha as [Hasks _]%request_step. apply request_budget in Ha.
    rewrite fmap_app, delivered_app, (delivered_asks asked) by done. cbn [app]. unfold left_ at 2. rewrite Hr.
    enough (left_ s' <= answerBudget answer + 2 * length (delivered (Out <$> told)))%nat by lia. clear Ha. unfold inFlight in Hr. unfold requestMoves in Hm.
    destruct (phase s) as [r1|first|[[r1|]|]|r1|[r1|]]; try done; destruct answer as [r'|outcome]; try (injection Hm as <- <-; cbn; lia).
    + unfold opened in Hm. destruct outcome as [[read|]|]; injection Hm as <- <-; cbn; lia.
    + by apply follow_budget in Hm.
  - destruct H as (-> & first & _ & H%deliver_budget). cbn. lia.
  - destruct H as (-> & ahead & Ep & H). cbn. unfold left_ at 2, inFlight. rewrite Ep. destruct ahead as [[r|outcome]|].
    + injection H as <- <-. cbn. lia.
    + apply follow_budget in H. lia.
    + unfold left_. apply finish_budget in H as [-> ->]. cbn. lia.
  - destruct H as (x & ahead & -> & Ep & H%fail_budget). cbn. unfold left_, inFlight at 2. rewrite Ep. destruct H as [-> ->]. destruct ahead as [[r|]|]; cbn; lia.
  - destruct H as (-> & -> & ->). unfold left_. cbn. by rewrite Nat.add_0_r.
  - destruct H as (-> & -> & -> & _). unfold left_. cbn. by rewrite Nat.add_0_r.
Qed.

Lemma run_budget answers tr s : run parseDate isSpace options answers abortedBefore tr s -> (refusals tr + left_ s <= 2 * (1 + length (delivered tr)))%nat.
Proof.
  induction 1 as [s outs H|tr s e s' outs _ IH _ H].
  - unfold readShapeStream, request, requestLoop in H. destruct abortedBefore; injection H as <- <-; cbn; lia.
  - apply step_budget in H. rewrite refusals_app, delivered_app, length_app. change (In e :: ?l) with ([In e] ++ l). rewrite refusals_app, refusals_out.
    change (delivered ([In e] ++ ?l)) with (delivered l). lia.
Qed.
End Refusals.

(** ** Backoff *)

Section Backoff.
Import LongPoll.

Lemma Qround_bounds (x : Q) (a b : Z) : (inject_Z a <= x)%Q -> (x <= inject_Z b)%Q -> a <= Qfloor (x + (1 # 2)) <= b.
Proof.
  intros Ha Hb. split.
  - rewrite <- (Qfloor_Z a). apply Qfloor_resp_le. lra.
  - assert (Qfloor (x + (1 # 2)) < b + 1); [|lia]. rewrite Zlt_Qlt. apply (Qle_lt_trans _ (x + (1 # 2))); [apply Qfloor_le|]. rewrite inject_Z_plus. change (inject_Z 1) with 1%Q. lra.
Qed.

Lemma retryCeiling_bounds attempt : (0 <= retryCeiling attempt <= 60000)%Q.
Proof.
  unfold retryCeiling. split; [|apply Q.le_min_r]. apply Q.min_glb; [|discriminate]. apply Qmult_le_0_compat; [discriminate|]. apply Qpower_0_le. discriminate.
Qed.

Lemma retry_delay_bounds attempt retryAfterMs random bound : (0 <= random < 1)%Q -> 0 <= default 0 retryAfterMs -> (retryCeiling attempt <= inject_Z bound)%Q ->
  default 0 retryAfterMs <= retryDelayMs attempt retryAfterMs random <= Z.max (default 0 retryAfterMs) bound.
Proof.
  intros Hr Hf Hb. unfold retryDelayMs. pose proof (retryCeiling_bounds attempt) as [Hc _]. apply Qround_bounds; [apply Q.le_max_l|].
  apply Q.max_lub; [rewrite <- Zle_Qle; lia|]. apply (Qle_trans _ (inject_Z bound)); [|rewrite <- Zle_Qle; lia]. apply (Qle_trans _ (retryCeiling attempt)); [|done].
  rewrite <- (Qmult_1_l (retryCeiling attempt)) at 2. apply Qmult_le_compat_r; [lra|done].
Qed.
End Backoff.

(** ** Reaching the tail *)

Section CatchUp.
Import LongPoll StreamSource.
Context {E Err : Type} (parseDate : jsstr -> option Z) (isSpace : Z -> bool) (options : StreamSourceOptions).
Abbreviation Session := (@Session E Err).
Abbreviation Event := (@Event E Err).
Abbreviation Output := (@Output E Err).
Abbreviation step := (step parseDate isSpace options).

(** A world that goes on: every token is given, every request is answered by the server, every batch is applied. *)
Context (token : jsstr) (serve : ReadPosition -> HttpResponse E).

Definition goesOn (s : Session) : option Event :=
  match phase s with
  | Open _ => Some Begin
  | Applying _ => Some BatchSettled
  | Opening r | Following r =>
      match pending r with
      | AwaitToken => Some (TokenGiven token)
      | AwaitResponse => Some (Answered (serve (position r)) 0 0)
      | AwaitBackoff => Some Waited
      | AwaitFresh _ => Some (FreshGiven (Some token))
      end
  | Finished _ => None
  end.

Fixpoint drive (n : nat) (s : Session) : Session * list Output :=
  match n with
  | 0%nat => (s, [])
  | S n =>
      match (e ← goesOn s; step s e) with
      | None => (s, [])
      | Some (s', outs) => let (s'', outs') := drive n s' in (s'', outs ++ outs')
      end
  end.

(** What the caller of the session is told, in order. *)
Definition toldOf (o : Output) : option Output :=
  match o with Resolved | Rejected _ | OnBatch _ | OnEnd _ => Some o | AskToken | Get _ _ | Wait _ | AskFresh _ => None end.
Definition told (outs : list Output) : list Output := omap toldOf outs.

(** What a response holds for the caller, and where a read that is not live asks for the next one. *)
Definition handed (read : ReadResponse E) : @StreamBatch E := mkBatch (envelopes read) (nextOffset read) (upToDate read).
Definition nextFrom (p : ReadPosition) (read : ReadResponse E) : ReadPosition :=
  mkPosition (nextOffset read) match nextCursor read with Some c => Some c | None => cursor p end false.
Definition atTail (read : ReadResponse E) : Prop := upToDate read = true \/ closed read = true.

(** What the server has from a position on: the batches of its answers, each asked for where the one before it ended, up
    to and with the first that is at the tail. *)
Inductive up_to_tail : ReadPosition -> list (@StreamBatch E) -> Prop :=
| at_tail p read (Hread : readResponse (serve p) (offset p) = Ok read) (Htail : atTail read) : up_to_tail p [handed read]
| before_tail p read batches (Hread : readResponse (serve p) (offset p) = Ok read) (Hbefore : ~ atTail read)
    (Hrest : up_to_tail (nextFrom p read) batches) : up_to_tail p (handed read :: batches).

(** The session ends by itself, having told its caller this. *)
Definition ends (s : Session) (tells : list Output -> Prop) : Prop :=
  exists n s' outs, drive n s = (s', outs) /\ phase s' = Finished None /\ endReported s' = true /\ tells (told outs).

Lemma ends_now s e s' outs (tells : list Output -> Prop) : goesOn s = Some e -> step s e = Some (s', outs) ->
  phase s' = Finished None -> endReported s' = true -> tells (told outs) -> ends s tells.
Proof.
  intros He Hs Hp Hr Hl. exists 1%nat, s', outs. split; [|done]. cbn [drive]. rewrite He. cbn [mbind option_bind]. rewrite Hs. by rewrite app_nil_r.
Qed.

Lemma ends_step s e s' outs (tells : list Output -> Prop) : goesOn s = Some e -> step s e = Some (s', outs) ->
  ends s' (fun later => tells (told outs ++ later)) -> ends s tells.
Proof.
  intros He Hs (n & s'' & outs' & Hd & Hp & Hr & Hl). exists (S n), s'', (outs ++ outs'). split; [|split; [done|split; [done|]]].
  - cbn [drive]. rewrite He. cbn [mbind option_bind]. rewrite Hs. by rewrite Hd.
  - unfold told. by rewrite omap_app.
Qed.

Lemma ends_mono s (tells tells' : list Output -> Prop) : (forall outs, tells outs -> tells' outs) -> ends s tells -> ends s tells'.
Proof. intros H (n & s' & outs & Hd & Hp & Hr & Hl). exists n, s', outs. repeat split; try done. by apply H. Qed.

(** Every batch from a position to the tail, and then the end. *)
Definition reads_on (p : ReadPosition) (outs : list Output) : Prop :=
  exists batches, up_to_tail p batches /\ outs = (OnBatch <$> batches) ++ [OnEnd None].

(** A session nobody has stopped. *)
Definition going (p : Phase) (at_ : ReadPosition) (l : bool) : Session := mkSession p at_ false false false l.

(** How far an offset is from the tail: every answer gets nearer, or is at the tail. *)
Context (rest : jsstr -> nat).
Definition advances : Prop := forall p, ok (status (serve p)) = true /\ exists read, readResponse (serve p) (offset p) = Ok read /\
  (upToDate read = true \/ closed read = true \/ (rest (nextOffset read) < rest (offset p))%nat).

(** A request that gets its token and its answer. *)
Lemma answer_step (r : @Request Err) (s : Session) : advances -> pending r = AwaitResponse ->
  exists read, requestStep parseDate isSpace options (aborted s) r (Answered (serve (position r)) 0 0) = Some (Settles (Ok (Some read)), []) /\
    (upToDate read = true \/ closed read = true \/ (rest (nextOffset read) < rest (offset (position r)))%nat).
Proof.
  intros Hadv Hp. destruct (Hadv (position r)) as (Hok & read & Hread & Hrest). exists read. split; [|done].
  unfold requestStep. rewrite Hp. unfold answered. by rewrite Hok, Hread.
Qed.

Definition asking (p : ReadPosition) (pending : Pending) : @Request Err := mkRequest p 0 false pending.

(** Delivering a response ends the read at the tail, and asks for the rest before it. *)
Lemma deliver_ends (response : ReadResponse E) p l (s : Session) (e : Event) (Hlive : live options = false)
    (Hread : readResponse (serve p) (offset p) = Ok response)
    (He : goesOn s = Some e) (Hs : step s e = Some (deliver options response (going (phase s) p l)))
    (Hrest : upToDate response = true \/ closed response = true \/
      forall q l, offset q = nextOffset response -> ends (going (Following (asking q AwaitToken)) q l) (reads_on q)) : ends s (reads_on p).
Proof.
  unfold deliver in Hs. cbn [aborted going] in Hs. rewrite Hlive in Hs. cbn [negb andb] in Hs.
  destruct (closed response || upToDate response) eqn:Et.
  - eapply ends_step; [done|done|]. eapply ends_now; [done|done|done|done|]. exists [handed response]. split; [|done].
    apply at_tail; [done|]. apply orb_true_iff in Et as [?|?]; [by right|by left].
  - apply orb_false_iff in Et as [Ec Eu]. destruct Hrest as [?|[?|Hrest]]; [congruence|congruence|]. unfold request in Hs. cbn [requestLoop] in Hs.
    eapply ends_step; [done|done|]. eapply ends_step; [reflexivity|reflexivity|].
    eapply ends_mono; [|apply (Hrest (nextFrom p response)); done]. intros outs (batches & Hb & ->). exists (handed response :: batches). split; [|done].
    apply before_tail; [done| |done]. unfold atTail. rewrite Ec, Eu. by intros [?|?].
Qed.

Lemma following_ends (Hlive : live options = false) (Hadv : advances) : forall n p l, rest (offset p) = n ->
  ends (going (Following (asking p AwaitToken)) p l) (reads_on p).
Proof.
  intros n. induction (lt_wf n) as [n _ IH]. intros p l Hn.
  eapply ends_step; [reflexivity|reflexivity|]. apply (ends_mono _ (reads_on p)); [done|].
  set (s := going (Following (asking p AwaitResponse)) p l). destruct (answer_step (asking p AwaitResponse) s Hadv eq_refl) as (read & Hstep & Hrest).
  destruct (Hadv p) as (Hok & read' & Hread & _). change (position (asking p AwaitResponse)) with p in Hstep, Hrest.
  assert (read' = read) as -> by (unfold requestStep, answered in Hstep; cbn in Hstep; rewrite Hok, Hread in Hstep; congruence).
  apply (deliver_ends read p l s (Answered (serve p) 0 0) Hlive Hread eq_refl).
  - change (mbind (M := option) (fun moved => let '(answer, asked) := moved in let (s', told) := requestMoves options answer s in Some (s', asked ++ told))
      (requestStep parseDate isSpace options (aborted s) (asking p AwaitResponse) (Answered (serve p) 0 0)) = Some (deliver options read (going (phase s) p l))).
    rewrite Hstep. cbn [mbind option_bind requestMoves phase s going follow]. by destruct (deliver options read _).
  - destruct Hrest as [?|[?|Hlt]]; [by left|right; by left|]. do 2 right. intros q l' Hq. apply (IH (rest (offset q))); [|done]. rewrite Hq. lia.
Qed.

Lemma opening_ends (Hlive : live options = false) (Hadv : advances) p l :
  ends (going (Opening (asking p AwaitToken)) p l) (fun outs => exists later, outs = Resolved :: later /\ reads_on p later).
Proof.
  eapply ends_step; [reflexivity|reflexivity|].
  set (s := going (Opening (asking p AwaitResponse)) p l). destruct (answer_step (asking p AwaitResponse) s Hadv eq_refl) as (read & Hstep & Hrest).
  destruct (Hadv p) as (Hok & read' & Hread & _). change (position (asking p AwaitResponse)) with p in Hstep, Hrest.
  assert (read' = read) as -> by (unfold requestStep, answered in Hstep; cbn in Hstep; rewrite Hok, Hread in Hstep; congruence).
  eapply (ends_step s (Answered (serve p) 0 0) (going (Open read) p l) [Resolved]); [reflexivity| |].
  - change (mbind (M := option) (fun moved => let '(answer, asked) := moved in let (s', told) := requestMoves options answer s in Some (s', asked ++ told))
      (requestStep parseDate isSpace options (aborted s) (asking p AwaitResponse) (Answered (serve p) 0 0)) = Some (going (Open read) p l, [Resolved])).
    by rewrite Hstep.
  - apply (ends_mono _ (reads_on p)); [by eexists|].
    apply (deliver_ends read p l (going (Open read) p l) Begin Hlive Hread eq_refl eq_refl).
    destruct Hrest as [?|[?|Hlt]]; [by left|right; by left|]. do 2 right. intros q l' Hq. by eapply following_ends.
Qed.
End CatchUp.

(** ** Properties *)

Section ReaderProperties.
Import LongPoll StreamSource.
Context {E Err : Type} (parseDate : jsstr -> option Z) (isSpace : Z -> bool) (options : StreamSourceOptions) (abortedBefore : bool).
Abbreviation Session := (@Session E Err).
Abbreviation Label := (@Label E Err).

(** The stream, and which of its envelopes an offset stands before. *)
Context (stream : list E) (index : jsstr -> option nat).
Definition segment (i j : nat) : list E := take (j - i) (drop i stream).
Definition spans (o o' : jsstr) (es : list E) : Prop :=
  exists i j, index o = Some i /\ index o' = Some j /\ (i <= j <= length stream)%nat /\ es = segment i j.

Lemma segment_app i j k : (i <= j <= k)%nat -> segment i j ++ segment j k = segment i k.
Proof.
  intros H. unfold segment. replace (drop j stream) with (drop (j - i) (drop i stream)) by (rewrite drop_drop; f_equal; lia).
  rewrite take_take_drop. f_equal. lia.
Qed.

Lemma chained_segment o bs i : index o = Some i -> chained spans o bs ->
  exists j, index (reached o bs) = Some j /\ (i <= j)%nat /\ concat (batchEnvelopes <$> bs) = segment i j.
Proof.
  revert o i. induction bs as [|b bs IH]; intros o i Hi; cbn [chained reached fmap list_fmap concat].
  - intros _. exists i. split; [done|]. split; [done|]. unfold segment. by rewrite Nat.sub_diag.
  - intros [(i' & j & Hi' & Hj & Hle & ->) Hc]. rewrite Hi in Hi'. injection Hi' as <-. destruct (IH _ j Hj Hc) as (k & Hk & Hjk & ->).
    exists k. split; [done|]. split; [lia|]. apply segment_app. lia.
Qed.

Lemma chained_take o bs n : chained spans o bs -> chained spans o (take n bs).
Proof. revert o n. induction bs as [|b bs IH]; intros o [|n]; cbn; try done. intros [Hb Hc]. split; [done|by apply IH]. Qed.

(** C6. The reader hands over the stream in order, without a gap and without a repetition. Whatever the network, the
    token's source and the caller do, where the server answers each read with the envelopes between the offset asked
    for and the one it names, the batches handed over, up to any one of them, are together exactly the envelopes from
    where the read started to that batch's offset: resuming there continues the stream. *)
Theorem reader_follows_stream tr (s : Session) i n (Hstart : index (start options) = Some i)
    (H : run parseDate isSpace options (lawful_answers spans) abortedBefore tr s) :
  exists j, index (reached (start options) (take n (delivered tr))) = Some j /\ (i <= j)%nat /\
    concat (batchEnvelopes <$> take n (delivered tr)) = segment i j.
Proof. apply run_follows in H as [Hc _]. by apply chained_segment, chained_take. Qed.

(** C13. A read ends once. After it reported its end, and after the caller closed it, the session hands over no batch and
    reports no end, in every order in which responses, retries and applied batches arrive. *)
Theorem reader_ends_once tr tr' l (s : Session) answers (H : run parseDate isSpace options answers abortedBefore (tr ++ l :: tr') s)
    (Hfinal : final l) :
  Forall silent tr'.
Proof. apply run_orderly in H as [Ho _]. by eapply orderly_split. Qed.

(** A refused token never loops: a session that was handed so many batches has had its token refused at most twice
    for each of their responses, and twice more for the request after them. *)
Theorem refused_token_bounded tr (s : Session) answers (H : run parseDate isSpace options answers abortedBefore tr s) :
  (refusals tr <= 2 * (1 + length (delivered tr)))%nat.
Proof. apply run_budget in H. lia. Qed.

(** C39. A catch-up read reaches the tail and ends. Where every request gets a token and an answer, and every answer is at
    the tail or nearer to it, a read that is not live ends by itself, and its caller is told exactly this: that the
    stream is open, then every batch the server has from where the read starts to the tail, in order and each once, the
    one at the tail with them, and then the end, without an error. *)
Theorem catch_up_reaches_tail token (serve : ReadPosition -> HttpResponse E) (rest : jsstr -> nat)
    (Hlive : live options = false) (Hserve : advances serve rest) :
  exists n s' outs batches, drive parseDate isSpace options token serve n (readShapeStream (E := E) (Err := Err) options false).1 = (s', outs) /\
    phase s' = Finished None /\ endReported s' = true /\
    up_to_tail serve (mkPosition (start options) None false) batches /\
    told outs = Resolved :: (OnBatch <$> batches) ++ [OnEnd None].
Proof.
  destruct (opening_ends (Err := Err) parseDate isSpace options token serve rest Hlive Hserve (mkPosition (start options) None false) true)
    as (n & s' & outs & Hd & Hp & He & later & Ht & batches & Hb & ->).
  by exists n, s', outs, batches.
Qed.

(** A backoff is at least what the server asked for, at most a minute or that, and the first at most a tenth of a
    second or that. *)
Theorem backoff_bounded attempt retryAfterMs random (Hrandom : (0 <= random < 1)%Q) (Hfloor : 0 <= default 0 retryAfterMs) :
  default 0 retryAfterMs <= retryDelayMs attempt retryAfterMs random <= Z.max (default 0 retryAfterMs) 60000 /\
  retryDelayMs 1 retryAfterMs random <= Z.max (default 0 retryAfterMs) 100.
Proof.
  split; [apply retry_delay_bounds; [done..|apply retryCeiling_bounds]|]. apply retry_delay_bounds; [done..|]. vm_compute. discriminate.
Qed.
End ReaderProperties.

(** ** Witnesses

    A stream of three envelopes at the offsets [-1], [a] (after two) and [b], and a server that answers with what is
    left up to the next of them. *)

Section ReaderWitnesses.
Import LongPoll StreamSource.

Definition tape : list Z := [10; 20; 30].
Definition tapeIndex (o : jsstr) : option nat :=
  if bool_decide (o = js "-1") then Some 0%nat else if bool_decide (o = js "a") then Some 2%nat else if bool_decide (o = js "b") then Some 3%nat else None.
Definition http (next : string) (tail : bool) (es : list Z) : HttpResponse Z :=
  mkHttp 200 (<[NEXT_OFFSET := js next]> (if tail then {[UP_TO_DATE := js "true"]} else ∅)) (BodyArray es).
Definition serveTape (p : ReadPosition) : HttpResponse Z :=
  if bool_decide (offset p = js "-1") then http "a" false [10; 20] else http "b" true [30].
Definition reading : StreamSourceOptions := mkOptions (mkUrl (js "https://edge/shape/s1") []) None true false.
Definition mkUrlOf (o : string) : Url := mkUrl (js "https://edge/shape/s1") [(js "offset", js o)].
Definition noDate (_ : jsstr) : option Z := None.
Definition space (c : Z) : bool := c =? 32.
Definition refused : HttpResponse Z := mkHttp 403 ∅ BodyBlank.

(** The token is refused once, the first response is lost once, then both batches arrive. *)
Definition tapeEvents : list (@Event Z unit) :=
  [TokenGiven (js "t"); Answered refused 0 0; FreshGiven (Some (js "u")); NetworkLost (1 # 2); Waited; TokenGiven (js "u"); Answered (http "a" false [10; 20]) 0 0; Begin;
   TokenGiven (js "u"); BatchSettled; Answered (http "b" true [30]) 0 0; BatchSettled].

Definition honestTape (p : ReadPosition) (response : HttpResponse Z) : bool :=
  match readResponse response (offset p) with
  | Throw _ => true
  | Ok read =>
      match tapeIndex (offset p), tapeIndex (nextOffset read) with
      | Some i, Some j => (i <=? j)%nat && (j <=? length tape)%nat && bool_decide (envelopes read = segment tape i j)
      | _, _ => false
      end
  end.

Lemma honest_tape p response : honestTape p response = true -> lawful_answers (spans tape tapeIndex) p response.
Proof.
  unfold honestTape, lawful_answers. intros H read Hr. rewrite Hr in H. destruct (tapeIndex (offset p)) as [i|] eqn:Ei; [|done].
  destruct (tapeIndex (nextOffset read)) as [j|] eqn:Ej; [|done]. apply andb_prop in H as [[Hi%Nat.leb_le Hj%Nat.leb_le]%andb_prop He%bool_decide_eq_true].
  by exists i, j.
Qed.

Definition honestEvent (s : @Session Z unit) (e : @Event Z unit) : bool :=
  match e, inFlight s with Answered response _ _, Some r => honestTape (position r) response | _, _ => true end.

Fixpoint play (s : @Session Z unit) (tr : list (@Label Z unit)) (events : list Event) : option (list Label * Session) :=
  match events with
  | [] => Some (tr, s)
  | e :: events =>
      match step noDate space reading s e with
      | Some (s', outs) => if honestEvent s e then play s' (tr ++ In e :: (Out <$> outs)) events else None
      | None => None
      end
  end.

Lemma play_run s tr events tr' s' : run noDate space reading (lawful_answers (spans tape tapeIndex)) false tr s ->
  play s tr events = Some (tr', s') -> run noDate space reading (lawful_answers (spans tape tapeIndex)) false tr' s'.
Proof.
  revert s tr. induction events as [|e events IH]; intros s tr Hr; cbn [play]; [by intros [= <- <-]|].
  destruct (step noDate space reading s e) as [[s1 outs]|] eqn:Es; [|done]. destruct (honestEvent s e) eqn:Eh; [|done]. apply IH.
  eapply run_step; [done| |done]. unfold honest. unfold honestEvent in Eh. destruct e; try done. destruct (inFlight s); [|done]. by apply honest_tape.
Qed.

Definition tapeStart := readShapeStream (E := Z) (Err := unit) reading false.
Definition tapeTrace : list (@Label Z unit) := match play tapeStart.1 (Out <$> tapeStart.2) tapeEvents with Some (tr, _) => tr | None => [] end.
Definition tapeEnd : @Session Z unit := match play tapeStart.1 (Out <$> tapeStart.2) tapeEvents with Some (_, s) => s | None => tapeStart.1 end.

Lemma tape_run : run noDate space reading (lawful_answers (spans tape tapeIndex)) false tapeTrace tapeEnd.
Proof.
  apply (play_run tapeStart.1 (Out <$> tapeStart.2) tapeEvents); [by apply run_start|]. vm_compute. reflexivity.
Qed.
End ReaderWitnesses.

Lemma reader_follows_stream_witness : StreamSource.batchEnvelopes <$> delivered tapeTrace = [[10; 20]; [30]] /\
  exists j, tapeIndex (reached (start reading) (take 1 (delivered tapeTrace))) = Some j /\ (0 <= j)%nat /\
    concat (StreamSource.batchEnvelopes <$> take 1 (delivered tapeTrace)) = segment tape 0 j.
Proof.
  split; [vm_compute; reflexivity|].
  exact (reader_follows_stream noDate space reading false tape tapeIndex tapeTrace tapeEnd 0 1 eq_refl tape_run).
Defined.

Lemma reader_ends_once_witness : tapeTrace = removelast tapeTrace ++ Out (StreamSource.OnEnd None) :: [] /\ Forall (silent (E := Z) (Err := unit)) [].
Proof.
  assert (H : tapeTrace = removelast tapeTrace ++ Out (StreamSource.OnEnd None) :: []) by (vm_compute; reflexivity). split; [exact H|].
  refine (reader_ends_once noDate space reading false (removelast tapeTrace) [] (Out (StreamSource.OnEnd None)) tapeEnd (lawful_answers (spans tape tapeIndex)) _ I).
  rewrite <- H. exact tape_run.
Defined.

Lemma refused_token_bounded_witness : refusals tapeTrace = 1%nat /\ (refusals tapeTrace <= 2 * (1 + length (delivered tapeTrace)))%nat.
Proof.
  split; [vm_compute; reflexivity|]. exact (refused_token_bounded noDate space reading false tapeTrace tapeEnd _ tape_run).
Defined.

Lemma catch_up_reaches_tail_witness :
  (exists s', drive noDate space reading (js "t") serveTape 8 tapeStart.1 =
     (s', [StreamSource.Get (mkUrlOf "-1") (js "Bearer t"); StreamSource.Resolved; StreamSource.AskToken; StreamSource.OnBatch (StreamSource.mkBatch [10; 20] (js "a") false);
           StreamSource.Get (mkUrlOf "a") (js "Bearer t"); StreamSource.OnBatch (StreamSource.mkBatch [30] (js "b") true); StreamSource.OnEnd None])) /\
  exists n s' outs batches, drive noDate space reading (js "t") serveTape n (StreamSource.readShapeStream (E := Z) (Err := unit) reading false).1 = (s', outs) /\
    StreamSource.phase s' = StreamSource.Finished None /\ StreamSource.endReported s' = true /\
    up_to_tail serveTape (LongPoll.mkPosition (start reading) None false) batches /\
    told outs = StreamSource.Resolved :: (StreamSource.OnBatch <$> batches) ++ [StreamSource.OnEnd None].
Proof.
  split; [eexists; vm_compute; reflexivity|].
  refine (catch_up_reaches_tail noDate space reading (js "t") serveTape (fun o => if bool_decide (o = js "-1") then 2 else if bool_decide (o = js "b") then 0 else 1)%nat eq_refl _).
  intros p. unfold serveTape. destruct (bool_decide (LongPoll.offset p = js "-1")) eqn:Ep; (split; [reflexivity|]); eexists.
  - split; [unfold LongPoll.readResponse; cbn; reflexivity|]. right. right. vm_compute. lia.
  - split; [unfold LongPoll.readResponse; cbn; reflexivity|]. left. reflexivity.
Defined.

Lemma backoff_bounded_witness : 2000 <= LongPoll.retryDelayMs 3 (Some 2000) (1 # 2) <= Z.max 2000 60000 /\ LongPoll.retryDelayMs 1 (Some 2000) (1 # 2) <= Z.max 2000 100.
Proof. apply (backoff_bounded 3 (Some 2000) (1 # 2)); [split; [discriminate|reflexivity]|discriminate]. Defined.
