(* ===== verification/SessionClient.v ===== *)
(** * Client: the subscription session

    client/src/circuits/subscription-client.ts: the streams a session was granted, the token it hands to its readers,
    the re-mint they share, and the release of its claims. The session is a state machine over the calls of its users
    and the answers of the control plane. *)

From S2P Require Export Paths.

#[local] Open Scope Z_scope.

Module Subscription.
Section Subscription.

(** Scope values, and the reasons of a refusal. *)
Context {Scope Why : Type}.

Record RefusedStream : Type := mkRefused { refusedKey : jsstr; refusedAt : option Scope; reason : Why }.
Record GrantedStream : Type := mkGranted {
  shapeKey : jsstr; scope : option Scope; shapeId : jsstr; streamPath : jsstr; streamUrl : jsstr }.

(** What the control plane answers: [granted] of a subscription without its URLs, [revoked] of a re-mint. *)
Record GrantedRaw : Type := mkRaw { rawKey : jsstr; rawScope : option Scope; rawId : jsstr; rawPath : jsstr }.
Record Subscribed : Type := mkSubscribed { token : option jsstr; tokenExpires : option Z; grantedRaw : list GrantedRaw; deniedRaw : list RefusedStream }.
Record Refreshed : Type := mkRefreshed { newToken : option jsstr; newExpires : option Z; revoked : list RefusedStream }.

Definition DEFAULT_REFRESH_SKEW_SECONDS : Z := 60.
Record SubscriptionClientOptions : Type := mkOptions { streamBaseUrl : jsstr; refreshSkewSeconds : option Z }.

(** [replace(/^\/+/, "")] and [replace(/\/+$/, "")]. *)
Fixpoint dropSlashes (path : jsstr) : jsstr := match path with c :: rest => if c =? 47 then dropSlashes rest else path | [] => [] end.
Definition dropTrailing (url : jsstr) : jsstr := rev (dropSlashes (rev url)).

Definition granted (options : SubscriptionClientOptions) (answer : Subscribed) : list GrantedStream :=
  (fun entry => mkGranted (rawKey entry) (rawScope entry) (rawId entry) (rawPath entry)
    (dropTrailing (streamBaseUrl options) ++ [47] ++ dropSlashes (rawPath entry))) <$> grantedRaw answer.

(** Who waits for a re-mint: a caller of [token] or of [refresh]. *)
Inductive Waiter : Type := TokenCaller (id : nat) | RefreshCaller (id : nat).

Record SessionState : Type := mkState {
  currentToken : option jsstr; expiresAt : Z; inFlight : option (list Waiter); isClosed : bool; initialToken : option jsstr; releaseSent : bool }.

(** What the session sends and what its callers get. *)
Inductive Output : Type :=
| PostRefresh (token : jsstr) | PostRelease (token : jsstr) | OnRevoked (revoked : list RefusedStream)
| Token (id : nat) (token : jsstr) | NoToken (id : nat) | Refresh (id : nat) (token : option jsstr).

(** Calls, the time in milliseconds, and the answer to the re-mint that is in flight; [onRevoked] may throw. *)
Inductive Event : Type :=
| CallToken (id : nat) (now : Z) | CallRefresh (id : nat)
| RefreshAnswered (answer : Refreshed) (revokedThrows : bool) | RefreshFailed
| CallClose.

Definition skew (options : SubscriptionClientOptions) : Z := default DEFAULT_REFRESH_SKEW_SECONDS (refreshSkewSeconds options).

Definition openSubscriptionSession (answer : Subscribed) : SessionState :=
  mkState (token answer) (default 0 (tokenExpires answer)) None false (token answer) false.

(** A waiter goes on with what [refresh] resolved to. *)
Definition resume (s : SessionState) (refreshed : option jsstr) (w : Waiter) : Output :=
  match w, refreshed, currentToken s with
  | RefreshCaller id, refreshed, _ => Refresh id refreshed
  | TokenCaller id, Some fresh, _ => Token id fresh
  | TokenCaller id, None, Some current => Token id current
  | TokenCaller id, None, None => NoToken id
  end.

Definition refresh (s : SessionState) (w : Waiter) : SessionState * list Output :=
  match isClosed s, currentToken s with
  | false, Some current =>
      match inFlight s with
      | Some waiting => (mkState (currentToken s) (expiresAt s) (Some (waiting ++ [w])) (isClosed s) (initialToken s) (releaseSent s), [])
      | None => (mkState (currentToken s) (expiresAt s) (Some [w]) (isClosed s) (initialToken s) (releaseSent s), [PostRefresh current])
      end
  | _, _ => (s, [resume s None w])
  end.

(** The re-mint resolves with the token the session holds then. *)
Definition settle (s : SessionState) (waiting : list Waiter) : SessionState * list Output :=
  let s := mkState (currentToken s) (expiresAt s) None (isClosed s) (initialToken s) (releaseSent s) in
  (s, resume s (currentToken s) <$> waiting).

Definition step (options : SubscriptionClientOptions) (s : SessionState) (e : Event) : option (SessionState * list Output) :=
  match e with
  | CallToken id now =>
      Some match currentToken s with
      | None => (s, [NoToken id])
      | Some current => if (expiresAt s - skew options) * 1000 <=? now then refresh s (TokenCaller id) else (s, [Token id current])
      end
  | CallRefresh id => Some (refresh s (RefreshCaller id))
  | RefreshAnswered answer revokedThrows =>
      waiting ← inFlight s;
      let told := match revoked answer with [] => [] | l => [OnRevoked l] end in
      let replaced := if match revoked answer with [] => false | _ => revokedThrows end then s
        else mkState (newToken answer) (default 0 (newExpires answer)) (inFlight s) (isClosed s) (initialToken s) (releaseSent s) in
      let (s', outs) := settle replaced waiting in
      Some (s', told ++ outs)
  | RefreshFailed => waiting ← inFlight s; Some (settle s waiting)
  | CallClose =>
      let closing := mkState (currentToken s) (expiresAt s) (inFlight s) true (initialToken s) (releaseSent s) in
      Some match initialToken s, releaseSent s with
      | Some initial, false => (mkState (currentToken s) (expiresAt s) (inFlight s) true (initialToken s) true, [PostRelease initial])
      | _, _ => (closing, [])
      end
  end.

(** [createBarrierReader]: the status, and the two counters when the body has them as numbers. *)
Inductive BarrierError : Type := ControlPlane (status : Z) | Unusable.
Definition isAuthFailure (status : Z) : bool := (status =? 401) || (status =? 403).
Definition readBarrier (status : Z) (pendingFlips flipFailures : option Z) : result BarrierError (Z * Z) :=
  if negb ((200 <=? status) && (status <=? 299)) then Throw (ControlPlane status)
  else match pendingFlips, flipFailures with Some p, Some f => Ok (p, f) | _, _ => Throw Unusable end.
End Subscription.
End Subscription.

(** ** Runs *)

Section Runs.
Import Subscription.
Context {Scope Why : Type} (options : SubscriptionClientOptions) (answer : @Subscribed Scope Why).
Abbreviation Event := (@Event Scope Why).
Abbreviation Output := (@Output Scope Why).

Inductive SessionLabel : Type := Called (e : Event) | Did (o : Output).

Inductive session_run : list SessionLabel -> SessionState -> Prop :=
| session_start : session_run [] (openSubscriptionSession answer)
| session_step tr s e s' outs : session_run tr s -> step options s e = Some (s', outs) -> session_run (tr ++ Called e :: (Did <$> outs)) s'.

(** What a run sent, and whether a re-mint was answered without a token. *)
Definition releaseOf (l : SessionLabel) : option jsstr := match l with Did (PostRelease token) => Some token | _ => None end.
Definition releases (tr : list SessionLabel) : list jsstr := omap releaseOf tr.
Definition sends (l : SessionLabel) : option bool :=
  match l with Did (PostRefresh _) => Some true | Called (RefreshAnswered _ _) | Called RefreshFailed => Some false | _ => None end.

(** Requests and answers of the re-mint, in turn, beginning with a request; the last may be open. *)
Fixpoint alternates (open_ : bool) (l : list bool) : Prop :=
  match l with [] => True | b :: l => b = negb open_ /\ alternates b l end.
Fixpoint lastOpen (open_ : bool) (l : list bool) : bool := match l with [] => open_ | b :: l => lastOpen b l end.

Lemma alternates_app o a b : alternates o (a ++ b) <-> alternates o a /\ alternates (lastOpen o a) b.
Proof. revert o. induction a as [|x a IH]; intros o; cbn; [tauto|]. rewrite IH. tauto. Qed.
Lemma lastOpen_app o a b : lastOpen o (a ++ b) = lastOpen (lastOpen o a) b.
Proof. revert o. induction a as [|x a IH]; intros o; cbn; auto. Qed.

Definition tokenless (l : SessionLabel) : Prop := match l with Called (RefreshAnswered a _) => newToken a = None | _ => False end.
Definition tokens (l : SessionLabel) : option jsstr :=
  match l with Called (RefreshAnswered a _) => newToken a | _ => None end.

(** The session holds the first token or one it was answered with, and none only if it was answered without one. *)
Definition known (tr : list SessionLabel) (current : option jsstr) : Prop :=
  match current with
  | Some t => token answer = Some t \/ t ∈ omap tokens tr
  | None => token answer = None \/ Exists tokenless tr
  end.

Lemma known_app tr tr' current : known tr current -> known (tr ++ tr') current.
Proof.
  unfold known. destruct current as [t|].
  - rewrite omap_app, elem_of_app. naive_solver.
  - rewrite Exists_app. naive_solver.
Qed.

(** What callers are told. *)
Definition told (tr : list SessionLabel) (o : Output) : Prop :=
  match o with
  | Token _ t | Refresh _ (Some t) | PostRefresh t => known tr (Some t)
  | NoToken _ => known tr None
  | _ => True
  end.

(** What neither asks for a re-mint nor releases. *)
Definition plain (o : Output) : Prop := releaseOf (Did o) = None /\ sends (Did o) = None.

Lemma plain_outs outs : Forall plain outs -> releases (Did <$> outs) = [] /\ omap sends (Did <$> outs) = [].
Proof. induction 1 as [|o outs [H1 H2] _ [IH1 IH2]]; [done|].
  unfold releases in *. cbn [omap list_omap fmap list_fmap]. rewrite H1, H2. done.
Qed.

Lemma resumes_told tr s refreshed w : known tr (currentToken s) -> (forall t, refreshed = Some t -> known tr (Some t)) ->
  told tr (resume s refreshed w) /\ plain (resume s refreshed w).
Proof.
  intros Hk Hr. unfold resume. destruct w as [id|id], refreshed as [t|], (currentToken s) as [c|] eqn:Ec; (split; [|by split]); try done; by apply Hr.
Qed.

Lemma told_app tr tr' o : told tr o -> told (tr ++ tr') o.
Proof. destruct o as [t|t|l|id t|id|id [t|]]; cbn [told]; try done; apply known_app. Qed.

Fixpoint all_told (before tr : list SessionLabel) : Prop :=
  match tr with
  | [] => True
  | l :: tr => match l with Did o => told before o | _ => True end /\ all_told (before ++ [l]) tr
  end.

Lemma all_told_app before a b : all_told before (a ++ b) <-> all_told before a /\ all_told (before ++ a) b.
Proof.
  revert before. induction a as [|l a IH]; intros before; cbn; [rewrite app_nil_r; tauto|]. rewrite IH, <- app_assoc. cbn. tauto.
Qed.

Lemma all_told_outs before outs : Forall (told before) outs -> all_told before (Did <$> outs).
Proof.
  revert before. induction outs as [|o outs IH]; intros before; [done|]. intros [Ho Hos]%Forall_cons. split; [done|]. apply IH.
  eapply Forall_impl; [exact Hos|]. intros o'. apply told_app.
Qed.

(** The invariant of a session after a trace. *)
Definition session_ok (tr : list SessionLabel) (s : SessionState) : Prop :=
  initialToken s = token answer /\
  releases tr = (if releaseSent s then option_list (token answer) else []) /\
  (isClosed s = true -> releaseSent s = true \/ token answer = None) /\ (releaseSent s = true -> isClosed s = true) /\
  alternates false (omap sends tr) /\ lastOpen false (omap sends tr) = match inFlight s with Some _ => true | None => false end /\
  known tr (currentToken s) /\ all_told [] tr.

Lemma releases_app a b : releases (a ++ b) = releases a ++ releases b.
Proof. apply omap_app. Qed.

(** A step that releases nothing and asks for or is answered a re-mint as these say. *)
Lemma ok_extend tr e outs s s' asked : session_ok tr s ->
  initialToken s' = initialToken s -> releaseSent s' = releaseSent s -> isClosed s' = isClosed s ->
  releases (Did <$> outs) = [] -> omap sends (Called e :: (Did <$> outs)) = asked ->
  alternates (lastOpen false (omap sends tr)) asked -> lastOpen (lastOpen false (omap sends tr)) asked = match inFlight s' with Some _ => true | None => false end ->
  known (tr ++ [Called e]) (currentToken s') -> Forall (told (tr ++ [Called e])) outs ->
  session_ok (tr ++ Called e :: (Did <$> outs)) s'.
Proof.
  intros (H1 & H2 & H3 & H4 & H5 & H6 & H7 & H8) E1 E2 E3 Er Es Ha Hl Hk Ht. unfold session_ok. rewrite E1, E2, E3, releases_app, H2.
  change (releases (Called e :: ?l)) with (releases l). rewrite Er, app_nil_r. rewrite omap_app, Es, alternates_app, lastOpen_app, all_told_app.
  repeat (split; [done|]). change (Called e :: (Did <$> outs)) with ([Called e] ++ (Did <$> outs)). split; [rewrite app_assoc; by apply known_app|]. split; [done|].
  cbn [app all_told]. split; [done|]. by apply all_told_outs.
Qed.

Lemma refresh_ok tr e s s' outs w : session_ok tr s -> sends (Called e) = None -> refresh s w = (s', outs) -> session_ok (tr ++ Called e :: (Did <$> outs)) s'.
Proof.
  intros Hok He H. pose proof Hok as (_ & _ & _ & _ & _ & H6 & H7 & _). apply (known_app tr [Called e]) in H7. unfold refresh in H.
  assert (Hkeep : s' = s -> outs = [resume s None w] -> session_ok (tr ++ Called e :: (Did <$> outs)) s').
  { intros -> ->. destruct (resumes_told (tr ++ [Called e]) s None w H7) as [Ht [Hr Hs]]; [done|]. apply (ok_extend tr e _ s s []); try done.
    - unfold releases. cbn [omap list_omap fmap list_fmap]. by rewrite Hr.
    - cbn [omap list_omap fmap list_fmap]. by rewrite He, Hs.
    - by constructor. }
  destruct (isClosed s) eqn:Ec; [injection H as <- <-; by apply Hkeep|]. destruct (currentToken s) as [current|] eqn:Et; [|injection H as <- <-; by apply Hkeep].
  destruct (inFlight s) as [waiting|] eqn:Ei; injection H as <- <-.
  - apply (ok_extend tr e _ s _ []); try done; cbn [omap list_omap fmap list_fmap lastOpen]; rewrite ?He; try done; congruence.
  - apply (ok_extend tr e _ s _ [true]); try done; cbn [omap list_omap fmap list_fmap]; rewrite ?He; try done; try congruence; [by rewrite H6|].
    constructor; [exact H7|constructor].
Qed.

Lemma settle_ok tr e s s1 s' told_ outs waiting : session_ok tr s -> sends (Called e) = Some false -> inFlight s = Some waiting ->
  initialToken s1 = initialToken s -> releaseSent s1 = releaseSent s -> isClosed s1 = isClosed s -> known (tr ++ [Called e]) (currentToken s1) ->
  Forall plain told_ -> Forall (told (tr ++ [Called e])) told_ -> settle s1 waiting = (s', outs) -> session_ok (tr ++ Called e :: (Did <$> (told_ ++ outs))) s'.
Proof.
  intros Hok He Hi E1 E2 E3 Hk Hp Ht [= <- <-]. pose proof Hok as (_ & _ & _ & _ & _ & H6 & _ & _). rewrite Hi in H6.
  set (s2 := mkState _ _ _ _ _ _). assert (Hw : Forall (fun o => told (tr ++ [Called e]) o /\ plain o) (resume s2 (currentToken s1) <$> waiting)).
  { apply Forall_fmap, Forall_true. intros w. apply resumes_told; [exact Hk|]. intros t Eq. by rewrite Eq in Hk. }
  apply Forall_and in Hw as [Hw1 Hw2]. destruct (plain_outs (told_ ++ (resume s2 (currentToken s1) <$> waiting))) as [P1 P2]; [by apply Forall_app|].
  apply (ok_extend tr e _ s s2 [false]); try done.
  - cbn [omap list_omap]. by rewrite He, P2.
  - by rewrite H6.
  - by apply Forall_app.
Qed.

Lemma step_ok tr s e s' outs : session_ok tr s -> step options s e = Some (s', outs) -> session_ok (tr ++ Called e :: (Did <$> outs)) s'.
Proof.
  intros Hok H. pose proof Hok as (H1 & H2 & H3 & H4 & _ & _ & H7 & _). destruct e as [id now|id|a throws| |]; cbn [step] in H.
  - assert (Hplain : forall o, told (tr ++ [Called (CallToken id now)]) o -> plain o -> session_ok (tr ++ Called (CallToken id now) :: (Did <$> [o])) s).
    { intros o Ho [Hr Hs]. apply (ok_extend tr _ _ s s []); try done; cbn [omap list_omap fmap list_fmap].
      - unfold releases. cbn [omap list_omap fmap list_fmap]. by rewrite Hr.
      - by rewrite Hs.
      - apply Hok.
      - by apply known_app.
      - by constructor. }
    apply (known_app tr [Called (CallToken id now)]) in H7. destruct (currentToken s) as [current|] eqn:Et; [destruct ((expiresAt s - skew options) * 1000 <=? now)|].
    + injection H as H. by eapply refresh_ok.
    + injection H as <- <-. by apply Hplain.
    + injection H as <- <-. by apply Hplain.
  - injection H as H. by eapply refresh_ok.
  - destruct (inFlight s) as [waiting|] eqn:Ei; [|done]. cbn [mbind option_bind] in H. destruct (settle _ waiting) as [s1 outs1] eqn:Es. injection H as <- <-.
    eapply settle_ok; [done|done|exact Ei|..|exact Es]; try (destruct (revoked a); destruct throws; done).
    + assert (Hnew : known (tr ++ [Called (RefreshAnswered a throws)]) (newToken a)).
      { unfold known. destruct (newToken a) as [t|] eqn:En; [right; rewrite omap_app; cbn; rewrite En; apply elem_of_app; right; by left|].
        right. apply Exists_app. right. by left. }
      destruct (revoked a); [done|]. destruct throws; [by apply known_app|done].
    + destruct (revoked a); by repeat constructor.
    + destruct (revoked a); by repeat constructor.
  - destruct (inFlight s) as [waiting|] eqn:Ei; [|done]. cbn [mbind option_bind] in H. destruct (settle s waiting) as [s1 outs1] eqn:Es. injection H as <- <-.
    apply (settle_ok tr _ s s s1 [] outs1 waiting); try done. by apply known_app.
  - pose proof Hok as (_ & _ & _ & _ & H5 & H6 & _ & H8). rewrite H1 in H. pose proof (known_app tr [Called CallClose] _ H7) as Hk.
    assert (Hclose : forall outs sent, (sent = releaseSent s /\ outs = [] /\ (releaseSent s = true \/ token answer = None)) \/
        (exists initial, sent = true /\ outs = [PostRelease initial] /\ releaseSent s = false /\ token answer = Some initial) ->
      session_ok (tr ++ Called CallClose :: (Did <$> outs)) (mkState (currentToken s) (expiresAt s) (inFlight s) true (token answer) sent)).
    { intros o sent Ho. unfold session_ok. cbn [initialToken releaseSent isClosed inFlight currentToken]. rewrite releases_app, omap_app, alternates_app, lastOpen_app, all_told_app, H2.
      destruct Ho as [(-> & -> & Hd)|(initial & -> & -> & Hr & Ht)]; cbn.
      - rewrite app_nil_r. repeat (split; [by auto|]). done.
      - rewrite Hr, Ht. repeat (split; [by auto|]). split; [|by repeat split]. by apply known_app. }
    destruct (token answer) as [initial|] eqn:Ea; [destruct (releaseSent s) eqn:Er|]; rewrite <- ?H1 in H; injection H as <- <-; rewrite ?H1.
    + apply (Hclose []). left. auto.
    + apply (Hclose [PostRelease initial]). right. by exists initial.
    + apply (Hclose []). left. auto.
Qed.

Lemma session_run_ok tr s : session_run tr s -> session_ok tr s.
Proof.
  induction 1 as [|tr s e s' outs _ IH H]; [|by eapply step_ok]. repeat (split; [done|]). split; [|done]. unfold known, openSubscriptionSession. cbn [currentToken]. destruct (token answer) as [t|]; by left.
Qed.
End Runs.

(** ** Properties *)

Section SessionProperties.
Import Subscription.
Context {Scope Why : Type} (options : SubscriptionClientOptions) (answer : @Subscribed Scope Why).

(** Re-mints never cost a session its token. Whatever its callers, the clock and the control plane do, one re-mint is
    in flight at a time; callers get, and re-mints send, only the first token or one the control plane answered; and
    a caller is refused a token only if the control plane granted none, at first or in an answered re-mint: an
    unreachable control plane refuses nobody. *)
Theorem session_keeps_token tr s (H : session_run options answer tr s) :
  alternates false (omap sends tr) /\ forall before o after, tr = before ++ Did o :: after -> told answer before o.
Proof.
  apply session_run_ok in H as (_ & _ & _ & _ & Ha & _ & _ & Ht). split; [done|]. intros before o after ->. apply all_told_app in Ht as [_ [Ht _]]. done.
Qed.

(** Closing a session gives back what the subscription took: the release is sent once, when the session is first
    closed, with the token of the subscription itself, whatever re-mints have narrowed it to since. *)
Theorem session_releases_once tr s (H : session_run options answer tr s) : releases tr = if isClosed s then option_list (token answer) else [].
Proof.
  apply session_run_ok in H as (_ & -> & Hc & Hr & _). destruct (releaseSent s); [by rewrite Hr|]. destruct (isClosed s); [|done].
  by destruct (Hc eq_refl) as [?| ->].
Qed.
End SessionProperties.

Section SessionWitness.
Import Subscription.

Definition firstAnswer : @Subscribed unit unit := mkSubscribed (Some (js "t1")) (Some 300) [] [].
Definition sessionOptions : SubscriptionClientOptions := mkOptions (js "https://edge/") None.
(** The re-mint at the skew fails, the next one is answered with a narrower token, and the session is closed twice. *)
Definition sessionEvents : list (@Event unit unit) :=
  [CallToken 1 200000; CallToken 2 241000; CallRefresh 3; RefreshFailed; CallToken 4 241000;
   RefreshAnswered (mkRefreshed (Some (js "t2")) (Some 600) [mkRefused (js "deck") None tt]) false; CallToken 5 242000; CallClose; CallClose].
Fixpoint playSession (s : SessionState) (tr : list (@SessionLabel unit unit)) (events : list Event) : option (list SessionLabel * SessionState) :=
  match events with
  | [] => Some (tr, s)
  | e :: events => '(s', outs) ← step sessionOptions s e; playSession s' (tr ++ Called e :: (Did <$> outs)) events
  end.

Lemma play_session s tr events tr' s' : session_run sessionOptions firstAnswer tr s -> playSession s tr events = Some (tr', s') -> session_run sessionOptions firstAnswer tr' s'.
Proof.
  revert s tr. induction events as [|e events IH]; intros s tr Hr; cbn [playSession]; [by intros [= <- <-]|].
  destruct (step sessionOptions s e) as [[s1 outs]|] eqn:Es; [|done]. cbn [mbind option_bind]. apply IH. by eapply session_step.
Qed.

Definition sessionPlayed := playSession (openSubscriptionSession firstAnswer) [] sessionEvents.
Definition sessionTrace : list (@SessionLabel unit unit) := match sessionPlayed with Some (tr, _) => tr | None => [] end.
Definition sessionEnd : SessionState := match sessionPlayed with Some (_, s) => s | None => openSubscriptionSession firstAnswer end.

Lemma session_played : session_run sessionOptions firstAnswer sessionTrace sessionEnd.
Proof. apply (play_session _ [] sessionEvents _ _ (session_start _ _)). vm_compute. reflexivity. Qed.
End SessionWitness.

Lemma session_keeps_token_witness : last sessionTrace = Some (Called Subscription.CallClose) /\ alternates false (omap sends sessionTrace) /\
  forall before o after, sessionTrace = before ++ Did o :: after -> told firstAnswer before o.
Proof. split; [vm_compute; reflexivity|]. exact (session_keeps_token sessionOptions firstAnswer sessionTrace sessionEnd session_played). Defined.

Lemma session_releases_once_witness : Subscription.isClosed sessionEnd = true /\ releases sessionTrace = option_list (Some (js "t1")).
Proof. split; [vm_compute; reflexivity|]. exact (session_releases_once sessionOptions firstAnswer sessionTrace sessionEnd session_played). Defined.
